(* ===== verification/_CoqProject ===== *)
-Q . S2P
Prelude.v
Json.v
Monad.v
Bytes.v
Merkle.v
Canonical.v
Datetime.v
Commitments.v
LabelStore.v
Anchor.v
Cache.v
Schema.v
Books.v
Credit.v
Delegation.v
Earnings.v
Settlement.v
Withdrawals.v
Sweep.v
Pricing.v
Templating.v
Scheduling.v
ToolSchema.v
SchemaRefs.v
Planner.v
Executor.v
AgentGraph.v
PostRun.v
RunCost.v
X402.v
Mpp.v
TopUp.v
McpGate.v
Sessions.v
RateLimit.v
MarketTools.v
Ssrf.v
McpServers.v
RequestIp.v
A2ATasks.v
A2AInbound.v
