(* ===== verification/Prelude.v ===== *)
(** * Teardrop: a verification library

    Teardrop (src/) is a platform on which agents run tools for customers.  A
    request is admitted (prepaid credit, a signed x402 payment, a delegation),
    an agent graph runs model turns and tools under quotas, the run is priced and
    charged, tool authors earn and withdraw, schedules and events start further
    runs, and predictions are labelled, committed to Merkle trees and anchored on
    chain.  This library is a shallow embedding of that core, file by file, with
    the theorems that make it correct.

    ** How a handler is modelled

    - [Monad.v]: an asynchronous handler is a computation [M D X A] over a
      [World]: database, in-process state, clock, and a schedule of events.  Every
      SQL statement, BEGIN, COMMIT and call of a service consumes one event, which
      may let time pass, let other processes act, make the step fail ([FFail]) or
      lose its acknowledgement after it took effect ([FLost]).  The theorems
      quantify over schedules: [quiet] (nothing fails), [solo] (anything may
      fail, nobody interferes), [undisturbed] (also lost acknowledgements),
      [contended] and rely conditions (other processes act between steps).  The
      program logic is [wpt] (inside a transaction), [wpi]/[preserves] (invariants
      under interference), [wps], [wpq], and [rg] (rely/guarantee).
    - A table is a map from its primary key ([Schema.v] for billing and
      marketplace; the labelling and scheduling files declare their own), with
      the CHECK, UNIQUE and REFERENCES constraints that the migrations declare.
      A BIGINT is a [Z] whose range every write checks; a timestamp a [Z] of
      microseconds.
    - Python data: [Json.v] (values of [json.loads] and the conversions applied
      to them), [Canonical.v] (sorted compact JSON, hexadecimal integers),
      [Bytes.v] (bytes, SHA-256), [Datetime.v] (ISO 8601).  A Python string is a
      [string] whose characters are its code points below 256.

    ** The files

    Billing (src/billing):
    - [Books] and [Credit] (credit.py, context.py): the ledger, the locked debit,
      top-ups, onboarding grants.  [books] is the contract every other component
      relies on: balances are the sums of the append-only ledger.
    - [TopUp] (stripe.py, x402.py): Stripe checkouts and USDC transfers become
      ledger rows, once.
    - [Delegation] (delegation.py): funding, delivery and refund of delegated runs.
    - [Settlement] (settlement.py, charges.py): the retry queue of unpaid charges,
      its leases and attempts, and the charge records.
    - [Pricing] (pricing.py, marketplace/_catalog_pricing.py) behind the caches of
      [Cache] (teardrop/cache.py).
    - [X402] (x402.py): facilitators, the replay guard, an anonymous payer's cap.
    - [RunCost] and [PostRun] (teardrop/agent_post_run.py, history.py): what a run
      owes, and charging it.  They compose Pricing, Credit, X402 and Settlement.

    Marketplace (src/marketplace): [Earnings], [Withdrawals], [Sweep] (worker.py).

    Agent runs (src/agent, src/tools):
    - [ToolSchema], [SchemaRefs] (tools/schema.py): the JSON-Schema subset of a
      tool's arguments and the inlining of references.
    - [Planner] (planner_ir.py): plans and their validation.
    - [Executor] (tools/executor.py, node_executor.py): one batch of tool calls.
    - [AgentGraph] (graph.py, nodes.py, _provider.py, node_ui.py): the planner's
      turn, the routing and the whole run.

    Scheduling (src/scheduling): [Templating], [Scheduling] (crud.py, runner.py,
    routers/agent_event_triggers.py).

    Labelling (src/labeling): [Merkle], [Commitments], [LabelStore] (store.py),
    [Anchor] (anchor.py and the proof endpoint).

    ** What the theorems show

    - Money: a debit happens completely or not at all and never past a balance
      or limit; top-ups, refunds, delegations, retries and withdrawals conserve
      it, each payment counting once, whatever fails and whoever interferes; a
      run is charged at most once, and what an x402 payer or a treasury spends
      stays within its cap.
    - Runs: the executor answers every call, bills only what was answered and
      keeps its accounts; a run meters every model reply and ends; the price is
      the one a reference definition gives.
    - Schemas and plans: the normaliser lands in the typed subset and what it
      accepts builds; plan validation is exact; inlining terminates.
    - Events: a dispatch settles once, chains of triggers end, slots of a prompt
      come from its template alone.
    - Labels: a target is scored once under a lease; a leaf binds its fields;
      every batch stays the tree of its leaves; served proofs verify; a batch is
      confirmed on evidence only.

    ** Bounds and fuel

    - [Anchor.python_frames] = 100 frames for the recursion on halves; 13 are
      enough for the 4096 leaves a batch may have ([MAX_BATCH_LEAVES]).
    - The settlement worker takes 8 batches per tick, as the code does.
    - [Scheduling.event_loop] and the chain depth: the theorem [event_chains_end]
      gives the number of links after which a chain is cut.
    - The depth-first search of [Planner] gets one unit more than there are calls,
      [SchemaRefs] one unit per definition; both files prove that it never runs
      out.
    - A run of [AgentGraph] takes at most twice the iteration cap plus one nodes.

    ** Not modelled, and why

    Routers that only decode a request, call a modelled handler and encode the
    answer; clients of services (chains, RPC, Stripe, mail, language models,
    embeddings) and the individual tools, which are such clients; prompts and
    other text given to a model; metrics, logging, telemetry, start-up and
    shutdown; scripts and evaluations.  SDKs, pydantic validation and the
    services themselves are parameters of the definitions that use them.  The
    in-memory fallbacks without a database are modelled where a claim depends
    on them. *)

From stdpp Require Export base tactics list gmap strings pretty sorting.
From Stdlib Require Export ZArith Lia Ascii.

#[global] Set Default Goal Selector "!".
#[global] Set Warnings "-clear-no-such-hyp".
#[global] Open Scope string_scope.
#[global] Open Scope list_scope.
#[global] Open Scope Z_scope.

(** ** Automation database shared by the components. *)
Create HintDb teardrop.

(** ** Functional record update

    [r <| field := v |>] replaces one field of a record.  A record opts in by
    naming its constructor in an [Eta] instance; the updater of a field is then
    found by abstracting that field's projection in the expansion. *)
Class Eta (R : Type) := eta : R → R.
Class Field {R T : Type} (proj : R → T) := upd_field : (T → T) → R → R.
Arguments upd_field {R T} proj {_} _ _ : assert.

Ltac build_field proj :=
  lazymatch type of proj with
  | ?R → _ =>
      let whole := constr:((_ : Eta R)) in
      let whole := eval hnf in whole in
      lazymatch eval pattern proj in whole with
      | ?ctx _ => exact (λ upd, ctx (λ r, upd (proj r)))
      end
  end.

#[export] Hint Extern 1 (Field ?proj) => build_field proj : typeclass_instances.

Declare Scope record_scope.
Delimit Scope record_scope with record.
#[global] Open Scope record_scope.
Notation "r <| f := v |>" := (upd_field f (λ _, v) r)
  (at level 1, left associativity, f at level 9, format "r  <|  f  :=  v  |>") : record_scope.
Notation "r <| f ::= g |>" := (upd_field f g r)
  (at level 1, left associativity, f at level 9, format "r  <|  f  ::=  g  |>") : record_scope.

(** ** Machine integers: PostgreSQL's BIGINT *)
Definition bigint_min : Z := - 2 ^ 63.
Definition bigint_max : Z := 2 ^ 63 - 1.
Definition is_bigint (z : Z) : bool := (bigint_min <=? z) && (z <=? bigint_max).

(** ** Time is counted in microseconds, the resolution of TIMESTAMPTZ. *)
Definition microsecond_per_second : Z := 1000000.
Definition seconds (n : Z) : Z := n * microsecond_per_second.
Definition minutes (n : Z) : Z := seconds (60 * n).
Definition hours (n : Z) : Z := seconds (3600 * n).
Definition days (n : Z) : Z := seconds (86400 * n).

(** ** Lengths and strings *)
Definition len {A} (l : list A) : Z := Z.of_nat (length l).
Definition is_empty (s : string) : bool := bool_decide (s = "").

(** [sub in s] *)
Definition str_in (sub s : string) : bool := bool_decide (is_Some (String.index 0 sub s)).

(** [s.split("/", 1)] of a text that has a slash *)
Definition split_slash (s : string) : string * string :=
  match String.index 0 "/" s with
  | Some i => (String.substring 0 i s, String.substring (S i) (String.length s) s)
  | None => (s, "")
  end.

(** ** Sums over lists *)
Definition lsum {A} (f : A → Z) (l : list A) : Z := foldr (λ a acc, f a + acc) 0 l.

Section lsum.
Context {A : Type}.
Implicit Types (f g : A → Z) (l : list A).

Lemma lsum_nil f : lsum f [] = 0.
Proof. done. Qed.

Lemma lsum_cons f a l : lsum f (a :: l) = f a + lsum f l.
Proof. done. Qed.

Lemma lsum_app f l1 l2 : lsum f (l1 ++ l2) = lsum f l1 + lsum f l2.
Proof. induction l1 as [|a l1 IH]; simpl; [done|]. rewrite IH. lia. Qed.

Lemma lsum_snoc f l a : lsum f (l ++ [a]) = lsum f l + f a.
Proof. rewrite lsum_app. simpl. lia. Qed.

Lemma lsum_nonneg f l : (∀ a, a ∈ l → 0 ≤ f a) → 0 ≤ lsum f l.
Proof.
  induction l as [|a l IH]; simpl; intros H; [done|].
  pose proof (H a ltac:(left)). assert (0 ≤ lsum f l) by (apply IH; intros; apply H; by right). lia.
Qed.

Lemma lsum_ext f g l : (∀ a, a ∈ l → f a = g a) → lsum f l = lsum g l.
Proof.
  induction l as [|a l IH]; simpl; intros H; [done|].
  rewrite (H a) by left. f_equal. apply IH. intros. apply H. by right.
Qed.

Lemma lsum_le f g l : (∀ a, a ∈ l → f a ≤ g a) → lsum f l ≤ lsum g l.
Proof.
  induction l as [|a l IH]; simpl; intros H; [done|].
  pose proof (H a ltac:(left)). assert (lsum f l ≤ lsum g l) by (apply IH; intros; apply H; by right). lia.
Qed.

Lemma lsum_add f g l : lsum (λ a, f a + g a) l = lsum f l + lsum g l.
Proof. induction l as [|a l IH]; [done|]. rewrite !lsum_cons, IH. lia. Qed.

Lemma lsum_perm f l1 l2 : l1 ≡ₚ l2 → lsum f l1 = lsum f l2.
Proof. induction 1; simpl; lia. Qed.

Lemma lsum_zero f l : (∀ a, a ∈ l → f a = 0) → lsum f l = 0.
Proof. intros H. rewrite (lsum_ext f (λ _, 0)); [|done]. induction l; simpl; auto.
  apply IHl. intros. apply H. by right. Qed.

Lemma lsum_elem_le f l a : (∀ b, b ∈ l → 0 ≤ f b) → a ∈ l → f a ≤ lsum f l.
Proof.
  induction l as [|b l IH]; intros Hnn Hin; [by apply elem_of_nil in Hin|].
  simpl. assert (0 ≤ lsum f l) by (apply lsum_nonneg; intros; apply Hnn; by right).
  pose proof (Hnn b ltac:(left)).
  apply elem_of_cons in Hin as [->|Hin]; [lia|].
  assert (f a ≤ lsum f l); [|lia]. apply IH; [|done]. intros; apply Hnn; by right.
Qed.

Lemma lsum_filter f (P : A → bool) l :
  lsum f (filter (λ a, P a = true) l) = lsum (λ a, if P a then f a else 0) l.
Proof.
  induction l as [|a l IH]; [done|]. rewrite filter_cons. simpl.
  destruct (P a); simpl; rewrite IH; lia.
Qed.

Lemma lsum_map {B} (h : B → A) f (l : list B) : lsum f (map h l) = lsum (λ b, f (h b)) l.
Proof. induction l as [|b l IH]; simpl; [done|]. by rewrite IH. Qed.
End lsum.

(** ** Sums over finite maps *)
Definition msum {K V} `{Countable K} (f : K → V → Z) (m : gmap K V) : Z :=
  lsum (λ kv, f kv.1 kv.2) (map_to_list m).

Section msum.
Context {K V : Type} `{Countable K}.
Implicit Types (f g : K → V → Z) (m : gmap K V).

Lemma msum_empty f : msum f (∅ : gmap K V) = 0.
Proof. unfold msum. by rewrite map_to_list_empty. Qed.

Lemma msum_insert f m k v : m !! k = None → msum f (<[k := v]> m) = f k v + msum f m.
Proof.
  intros Hk. unfold msum. rewrite (lsum_perm _ _ ((k, v) :: map_to_list m)); [done|].
  by apply map_to_list_insert.
Qed.

Lemma msum_delete f m k v : m !! k = Some v → msum f m = f k v + msum f (delete k m).
Proof.
  intros Hk. rewrite <- (insert_delete_id m k v) at 1 by done.
  apply msum_insert, lookup_delete_eq.
Qed.

Lemma msum_update f m k v v' :
  m !! k = Some v → msum f (<[k := v']> m) = msum f m - f k v + f k v'.
Proof.
  intros Hk. rewrite <- insert_delete_eq, msum_insert by apply lookup_delete_eq.
  rewrite (msum_delete f m k v Hk). lia.
Qed.

Lemma msum_nonneg f m : (∀ k v, m !! k = Some v → 0 ≤ f k v) → 0 ≤ msum f m.
Proof.
  intros Hnn. apply lsum_nonneg. intros [k v] Hin. apply Hnn. by apply elem_of_map_to_list.
Qed.

Lemma msum_ext f g m : (∀ k v, m !! k = Some v → f k v = g k v) → msum f m = msum g m.
Proof.
  intros Hfg. apply lsum_ext. intros [k v] Hin. apply Hfg. by apply elem_of_map_to_list.
Qed.

Lemma msum_le f g m : (∀ k v, m !! k = Some v → f k v ≤ g k v) → msum f m ≤ msum g m.
Proof.
  intros Hfg. apply lsum_le. intros [k v] Hin. apply Hfg. by apply elem_of_map_to_list.
Qed.

Lemma msum_zero f m : (∀ k v, m !! k = Some v → f k v = 0) → msum f m = 0.
Proof. intros Hf. apply lsum_zero. intros [k v] Hin. apply Hf. by apply elem_of_map_to_list. Qed.

Lemma msum_add f g m : msum (λ k v, f k v + g k v) m = msum f m + msum g m.
Proof. apply lsum_add. Qed.

(** The entry of one key, and the entries of a list of keys. *)
Lemma msum_key f m k0 v0 :
  m !! k0 = Some v0 → msum (λ k v, if bool_decide (k = k0) then f k v else 0) m = f k0 v0.
Proof.
  intros Hk. rewrite (msum_delete _ m k0 v0 Hk), bool_decide_true by done. rewrite msum_zero; [lia|].
  intros k v Hin. apply lookup_delete_Some in Hin as [Hne _]. by rewrite bool_decide_false.
Qed.

Lemma msum_keys f m (sel : list (K * V)) :
  NoDup sel.*1 → (∀ k v, (k, v) ∈ sel → m !! k = Some v) →
  msum (λ k v, if bool_decide (k ∈ sel.*1) then f k v else 0) m = lsum (λ kv, f kv.1 kv.2) sel.
Proof.
  induction sel as [|[k0 v0] sel IH]; intros Hnd Hm.
  { apply msum_zero. intros k v _. by rewrite bool_decide_false by (cbn; by intros ?%elem_of_nil). }
  apply NoDup_cons in Hnd as [Hk0 Hnd]. cbn [fst fmap list_fmap] in *.
  rewrite lsum_cons, <- IH by (done || (intros; apply Hm; by right)). cbn [fst snd].
  assert (m !! k0 = Some v0) as Hmk0 by (apply Hm; left).
  rewrite !(msum_delete _ m k0 v0 Hmk0), bool_decide_true by left. rewrite (bool_decide_false (k0 ∈ sel.*1)) by done.
  rewrite (msum_ext _ (λ k v, if bool_decide (k ∈ sel.*1) then f k v else 0) (delete k0 m)); [lia|].
  intros k v [Hne _]%lookup_delete_Some. apply (f_equal (λ b : bool, if b then _ else _)).
  apply bool_decide_ext. rewrite elem_of_cons. naive_solver.
Qed.

Lemma msum_fmap {V'} (g : V' → V) f (m : gmap K V') : msum f (g <$> m) = msum (λ k v, f k (g v)) m.
Proof. unfold msum. rewrite map_to_list_fmap. by rewrite lsum_map. Qed.

Lemma lsum_msum_exchange {A} (f : A → K → V → Z) (l : list A) m :
  lsum (λ a, msum (f a) m) l = msum (λ k v, lsum (λ a, f a k v) l) m.
Proof.
  induction l as [|a l IH]; [by rewrite msum_zero|]. rewrite lsum_cons, IH, <- msum_add. by apply msum_ext.
Qed.

Lemma msum_pointwise f g m m' :
  (∀ k, match m !! k, m' !! k with
        | Some v, Some v' => f k v = g k v' | None, None => True | _, _ => False end) →
  msum f m = msum g m'.
Proof.
  revert m'. induction m as [|k v m Hk IH] using map_ind; intros m' Hp.
  - replace m' with (∅ : gmap K V); [done|]. symmetry. apply map_empty. intros k. specialize (Hp k).
    rewrite lookup_empty in Hp. by destruct (m' !! k).
  - pose proof (Hp k) as Hk'. rewrite lookup_insert_eq in Hk'. destruct (m' !! k) as [v'|] eqn:Hm'; [|done].
    rewrite msum_insert, (msum_delete g m' k v' Hm'), Hk' by done. f_equal. apply IH. intros k2.
    specialize (Hp k2). destruct (decide (k2 = k)) as [->|Hne].
    + by rewrite Hk, lookup_delete_eq.
    + rewrite lookup_insert_ne in Hp by done. by rewrite lookup_delete_ne.
Qed.
End msum.

(** ** ORDER BY: insertion sort on a boolean comparison *)
Section order_by.
Context {A : Type} (leb : A → A → bool).

Fixpoint insert_by (a : A) (l : list A) : list A :=
  match l with
  | [] => [a]
  | b :: l' => if leb a b then a :: l else b :: insert_by a l'
  end.

Definition order_by (l : list A) : list A := foldr insert_by [] l.

Lemma insert_by_perm a l : insert_by a l ≡ₚ a :: l.
Proof.
  induction l as [|b l IH]; simpl; [done|]. destruct (leb a b); [done|].
  rewrite IH. apply Permutation_swap.
Qed.

Lemma order_by_perm l : order_by l ≡ₚ l.
Proof. induction l as [|a l IH]; simpl; [done|]. by rewrite insert_by_perm, IH. Qed.

Lemma elem_of_order_by a l : a ∈ order_by l ↔ a ∈ l.
Proof. by rewrite order_by_perm. Qed.

Lemma insert_by_sorted a l :
  (∀ x y, leb x y = false → leb y x = true) →
  Sorted (λ x y, leb x y = true) l → Sorted (λ x y, leb x y = true) (insert_by a l).
Proof.
  intros Htot. induction 1 as [|b l Hs IH Hhd]; simpl; [by repeat constructor|].
  destruct (leb a b) eqn:Hab; [by repeat constructor|].
  constructor; [done|]. destruct Hhd as [|c l Hbc]; simpl.
  - constructor. by apply Htot.
  - destruct (leb a c); constructor; [by apply Htot|done].
Qed.

Lemma order_by_sorted l :
  (∀ x y, leb x y = false → leb y x = true) → Sorted (λ x y, leb x y = true) (order_by l).
Proof. intros Htot. induction l; simpl; [constructor|by apply insert_by_sorted]. Qed.
End order_by.

Lemma Sorted_mono {A} (R R' : A → A → Prop) l : (∀ a b, R a b → R' a b) → Sorted R l → Sorted R' l.
Proof. intros HR. induction 1 as [|a l Hs IH Hhd]; [constructor|]. constructor; [done|]. destruct Hhd; constructor; auto. Qed.

Lemma string_leb_total a b : String.leb a b = false → String.leb b a = true.
Proof. intros Hab. destruct (String.leb_total a b); congruence. Qed.

Lemma string_leb_trans a b c : String.leb a b = true → String.leb b c = true → String.leb a c = true.
Proof.
  intros Hab Hbc. apply Is_true_true. apply (transitivity (R := String.le) (y := b)); by apply Is_true_true.
Qed.

(** [LIMIT n] *)
Definition limit {A} (n : Z) (l : list A) : list A := take (Z.to_nat n) l.

(** The first rows of an ordered query precede the rows left out. *)
Lemma limit_order_by_precedes {A} (leb : A → A → bool) n (l : list A) a b :
  (∀ x y, leb x y = false → leb y x = true) →
  (∀ x y z, leb x y = true → leb y z = true → leb x z = true) →
  a ∈ limit n (order_by leb l) → b ∈ l → b ∉ limit n (order_by leb l) → leb a b = true.
Proof.
  intros Htot Htr Ha Hb Hb'. unfold limit in *.
  assert (StronglySorted (λ x y, leb x y = true) (order_by leb l)) as Hs.
  { apply Sorted_StronglySorted; [|by apply order_by_sorted]. intros x y z. apply Htr. }
  rewrite <- (take_drop (Z.to_nat n) (order_by leb l)) in Hs.
  rewrite <- (elem_of_order_by leb), <- (take_drop (Z.to_nat n) (order_by leb l)), elem_of_app in Hb.
  destruct Hb as [Hb|Hb]; [done|].
  clear Hb'. induction (take _ _) as [|c l1 IH]; [by apply elem_of_nil in Ha|].
  cbn in Hs. apply StronglySorted_inv in Hs as [Hs Hc]. apply elem_of_cons in Ha as [->|Ha]; [|by apply IH].
  rewrite Forall_forall in Hc. apply Hc. rewrite elem_of_app. by right.
Qed.

Lemma elem_of_limit {A} n (l : list A) a : a ∈ limit n l → a ∈ l.
Proof.
  intros Hin. unfold limit in Hin. apply list_elem_of_lookup in Hin as [i Hi].
  apply lookup_take_Some in Hi as [Hi _]. by eapply list_elem_of_lookup_2.
Qed.

Lemma length_limit_le {A} n (l : list A) : 0 ≤ n → Z.of_nat (length (limit n l)) ≤ n.
Proof. intros. unfold limit. rewrite length_take. lia. Qed.

(** ** Booleans and integer division as the code writes them *)
Definition ceil_div (a b : Z) : Z := - (- a / b).

Lemma ceil_div_spec a b : 0 < b → b * ceil_div a b - b < a ≤ b * ceil_div a b.
Proof. intros Hb. unfold ceil_div. pose proof (Z.mul_div_le (-a) b Hb).
  pose proof (Z.mul_succ_div_gt (-a) b Hb). lia. Qed.

Lemma ceil_div_unique a b q : 0 < b → b * q - b < a ≤ b * q → ceil_div a b = q.
Proof. intros Hb Hq. pose proof (ceil_div_spec a b Hb). nia. Qed.

(** Case analysis on the innermost boolean tests and matches of a hypothesis or goal. *)
Ltac case_bool :=
  repeat match goal with
  | H : andb _ _ = true |- _ => apply andb_true_iff in H as [? ?]
  | H : orb _ _ = false |- _ => apply orb_false_iff in H as [? ?]
  | H : negb _ = true |- _ => apply negb_true_iff in H
  | H : negb _ = false |- _ => apply negb_false_iff in H
  | H : (_ <? _) = true |- _ => apply Z.ltb_lt in H
  | H : (_ <? _) = false |- _ => apply Z.ltb_ge in H
  | H : (_ <=? _) = true |- _ => apply Z.leb_le in H
  | H : (_ <=? _) = false |- _ => apply Z.leb_gt in H
  | H : (_ =? _) = true |- _ => apply Z.eqb_eq in H
  | H : (_ =? _) = false |- _ => apply Z.eqb_neq in H
  | H : bool_decide _ = true |- _ => apply bool_decide_eq_true in H
  | H : bool_decide _ = false |- _ => apply bool_decide_eq_false in H
  end.

(** A conjunction of equations and linear facts. *)
Ltac solve_parts := cbn; split_and?; first [done | lia].
