(* ===== verification/Json.v ===== *)
(** * JSON values as Python sees them

    The values [json.loads] produces and the conversions the code applies to
    them ([str], [int], [dict.get], truthiness).  An object is an association
    list in insertion order, with the last occurrence of a key winning on
    lookup, as a Python dict built from the pairs would. *)

From S2P Require Export Prelude.

#[local] Set Warnings "-register-all".

(** A float is kept as an exact fraction: every JSON float literal is one. *)
Inductive json :=
  | JNull
  | JBool (b : bool)
  | JInt (z : Z)
  | JFloat (num : Z) (den : positive)
  | JStr (s : string)
  | JArr (l : list json)
  | JObj (kvs : list (string * json)).

(** Induction that reaches the elements of arrays and objects. *)
Section json_ind.
Variable P : json → Prop.
Hypothesis Hnull : P JNull.
Hypothesis Hbool : ∀ b, P (JBool b).
Hypothesis Hint : ∀ z, P (JInt z).
Hypothesis Hfloat : ∀ n d, P (JFloat n d).
Hypothesis Hstr : ∀ s, P (JStr s).
Hypothesis Harr : ∀ l, Forall P l → P (JArr l).
Hypothesis Hobj : ∀ kvs, Forall (λ kv, P kv.2) kvs → P (JObj kvs).

Fixpoint json_nested_ind (j : json) : P j :=
  match j with
  | JNull => Hnull
  | JBool b => Hbool b
  | JInt z => Hint z
  | JFloat n d => Hfloat n d
  | JStr s => Hstr s
  | JArr l =>
      Harr l ((fix go (l : list json) : Forall P l :=
                 match l with
                 | [] => Forall_nil_2 P
                 | a :: l' => Forall_cons_2 P a l' (json_nested_ind a) (go l')
                 end) l)
  | JObj kvs =>
      Hobj kvs ((fix go (kvs : list (string * json)) : Forall (λ kv, P kv.2) kvs :=
                   match kvs with
                   | [] => Forall_nil_2 _
                   | kv :: kvs' => Forall_cons_2 (λ kv, P kv.2) kv kvs' (json_nested_ind kv.2) (go kvs')
                   end) kvs)
  end.
End json_ind.

#[export] Instance json_eq_dec : EqDecision json.
Proof.
  refine (fix go x y : Decision (x = y) :=
    match x, y with
    | JNull, JNull => left _
    | JBool a, JBool b => cast_if (decide (a = b))
    | JInt a, JInt b => cast_if (decide (a = b))
    | JFloat n d, JFloat n' d' => cast_if_and (decide (n = n')) (decide (d = d'))
    | JStr a, JStr b => cast_if (decide (a = b))
    | JArr a, JArr b => cast_if (@list_eq_dec _ go a b)
    | JObj a, JObj b =>
        cast_if (@list_eq_dec _ (λ p q, match p, q with
          (k, v), (k', v') => cast_if_and (decide (k = k')) (go v v') end) a b)
    | _, _ => right _
    end); try congruence; try (intros; congruence).
Defined.

Definition is_dict (j : json) : bool := match j with JObj _ => true | _ => false end.

(** [d[key]] on the dict's pairs *)
Definition dict_get (kvs : list (string * json)) (key : string) : option json :=
  foldl (λ acc kv, if bool_decide (kv.1 = key) then Some kv.2 else acc) None kvs.

(** [d[key] = v]: in place when the key is there, else at the end *)
Definition dict_set {A} (kvs : list (string * A)) (key : string) (v : A) : list (string * A) :=
  if bool_decide (key ∈ kvs.*1) then map (λ kv, if bool_decide (kv.1 = key) then (kv.1, v) else kv) kvs
  else kvs ++ [(key, v)].

(** [int(x)]: [None] stands for the [TypeError] or [ValueError] it raises. *)
Definition is_space (c : Ascii.ascii) : bool :=
  let n := Ascii.nat_of_ascii c in
  (bool_decide (n = 32)%nat) || ((9 <=? n)%nat && (n <=? 13)%nat)
  || ((28 <=? n)%nat && (n <=? 31)%nat).

Fixpoint lstrip (l : list Ascii.ascii) : list Ascii.ascii :=
  match l with
  | c :: l' => if is_space c then lstrip l' else l
  | [] => []
  end.

Definition strip_chars (l : list Ascii.ascii) : list Ascii.ascii :=
  rev (lstrip (rev (lstrip l))).

(** [s.strip()] for ASCII text *)
Definition py_strip (s : string) : string :=
  String.string_of_list_ascii (strip_chars (String.list_ascii_of_string s)).

(** ASCII [s.lower()] *)
Definition lower_char (c : Ascii.ascii) : Ascii.ascii :=
  let n := Ascii.nat_of_ascii c in
  if ((65 <=? n)%nat && (n <=? 90)%nat) then Ascii.ascii_of_nat (n + 32) else c.

Definition py_lower (s : string) : string :=
  String.string_of_list_ascii (map lower_char (String.list_ascii_of_string s)).

Definition digit_value (c : Ascii.ascii) : option Z :=
  let n := Z.of_nat (Ascii.nat_of_ascii c) in
  if (48 <=? n) && (n <=? 57) then Some (n - 48) else None.

(** Decimal digits, with single underscores allowed between two digits. *)
Fixpoint digits_from (acc : Z) (after_digit : bool) (l : list Ascii.ascii) : option Z :=
  match l with
  | [] => if after_digit then Some acc else None
  | c :: l' =>
      match digit_value c with
      | Some v => digits_from (10 * acc + v) true l'
      | None =>
          if bool_decide (c = "_"%char) && after_digit then digits_from acc false l' else None
      end
  end.

Definition py_int_of_string (s : string) : option Z :=
  match strip_chars (String.list_ascii_of_string s) with
  | [] => None
  | c :: l =>
      if bool_decide (c = "-"%char) then Z.opp <$> digits_from 0 false l
      else if bool_decide (c = "+"%char) then digits_from 0 false l
      else digits_from 0 false (c :: l)
  end.

Definition py_int (j : json) : option Z :=
  match j with
  | JInt z => Some z
  | JBool b => Some (if b then 1 else 0)
  | JFloat n d => Some (Z.quot n (Zpos d))
  | JStr s => py_int_of_string s
  | JNull | JArr _ | JObj _ => None
  end.

(** [str(x)]; the text of floats and containers is Python's [repr], a parameter. *)
Definition py_str (repr : json → string) (j : json) : string :=
  match j with
  | JStr s => s
  | JNull => "None"
  | JBool true => "True"
  | JBool false => "False"
  | JInt z => pretty z
  | JFloat _ _ | JArr _ | JObj _ => repr j
  end.

(** [bool(x)] *)
Definition truthy (j : json) : bool :=
  match j with
  | JNull => false
  | JBool b => b
  | JInt z => negb (z =? 0)
  | JFloat n _ => negb (n =? 0)
  | JStr s => negb (bool_decide (s = ""))
  | JArr l => match l with [] => false | _ => true end
  | JObj kvs => match kvs with [] => false | _ => true end
  end.

Example py_int_ex1 : py_int (JStr " -1_000 ") = Some (-1000).
Proof. reflexivity. Qed.
Example py_int_ex2 : py_int (JStr "1__0") = None.
Proof. reflexivity. Qed.

(** ** [int(str(z)) == z] *)

Abbreviation chars := String.list_ascii_of_string.

Lemma pretty_char_digit (d : N) :
  (d < 10)%N → digit_value (pretty_N_char d) = Some (Z.of_N d) ∧ is_space (pretty_N_char d) = false.
Proof.
  intros Hd. assert (d = 0 ∨ d = 1 ∨ d = 2 ∨ d = 3 ∨ d = 4 ∨ d = 5 ∨ d = 6 ∨ d = 7 ∨ d = 8 ∨ d = 9)%N as H by lia.
  by repeat destruct H as [->|H]; subst.
Qed.

Lemma pretty_go_ind (P : N → string → Prop) :
  (∀ x s, (0 < x < 10)%N → P x s) →
  (∀ x s, (10 <= x)%N → P (x `div` 10)%N (String (pretty_N_char (x `mod` 10)) s) → P x s) →
  ∀ x s, (0 < x)%N → P x s.
Proof.
  intros Hsmall Hstep x. induction (N.lt_wf_0 x) as [x _ IH]. intros s Hx.
  destruct (decide (x < 10)%N); [by apply Hsmall|]. apply Hstep; [lia|]. apply IH.
  - by apply N.div_lt.
  - apply N.div_str_pos. lia.
Qed.

Lemma pretty_go_small x s : (0 < x < 10)%N → pretty_N_go x s = String (pretty_N_char x) s.
Proof.
  intros Hx. rewrite pretty_N_go_step by lia. rewrite N.div_small, N.mod_small by lia. apply pretty_N_go_0.
Qed.

Lemma digits_from_digit acc b (d : N) l :
  (d < 10)%N → digits_from acc b (pretty_N_char d :: l) = digits_from (10 * acc + Z.of_N d) true l.
Proof. intros Hd. cbn [digits_from]. by rewrite (proj1 (pretty_char_digit d Hd)). Qed.

Lemma digits_from_pretty_go x s b :
  (0 < x)%N → digits_from 0 b (chars (pretty_N_go x s)) = digits_from (Z.of_N x) true (chars s).
Proof.
  intros Hx. revert b. apply (pretty_go_ind (λ x s, ∀ b,
    digits_from 0 b (chars (pretty_N_go x s)) = digits_from (Z.of_N x) true (chars s))); [| |done]; clear x s Hx.
  - intros x s Hx b. rewrite pretty_go_small by done. cbn [String.list_ascii_of_string].
    rewrite digits_from_digit by lia. done.
  - intros x s Hx IH b. rewrite pretty_N_go_step, IH by lia. cbn [String.list_ascii_of_string].
    rewrite digits_from_digit by (apply N.mod_lt; lia). f_equal. pose proof (N.div_mod x 10). lia.
Qed.

Lemma nonspace_pretty_go x s :
  (0 < x)%N → forallb (λ c, negb (is_space c)) (chars s) = true →
  forallb (λ c, negb (is_space c)) (chars (pretty_N_go x s)) = true.
Proof.
  intros Hx. apply (pretty_go_ind (λ x s, forallb (λ c, negb (is_space c)) (chars s) = true →
    forallb (λ c, negb (is_space c)) (chars (pretty_N_go x s)) = true)); [| |done]; clear x s Hx.
  - intros x s Hx Hs. rewrite pretty_go_small by done. cbn. rewrite Hs.
    by rewrite (proj2 (pretty_char_digit x ltac:(lia))).
  - intros x s Hx IH Hs. rewrite pretty_N_go_step by lia. apply IH. cbn [String.list_ascii_of_string forallb]. rewrite Hs.
    by rewrite (proj2 (pretty_char_digit (x `mod` 10) ltac:(apply N.mod_lt; lia))).
Qed.

Lemma lstrip_nonspace l : forallb (λ c, negb (is_space c)) l = true → lstrip l = l.
Proof. destruct l as [|c l]; [done|]. cbn. intros [Hc _]%andb_true_iff. apply negb_true_iff in Hc. by rewrite Hc. Qed.

Lemma strip_nonspace l : forallb (λ c, negb (is_space c)) l = true → strip_chars l = l.
Proof.
  intros Hl. unfold strip_chars. rewrite (lstrip_nonspace l) by done. rewrite lstrip_nonspace; [apply rev_involutive|].
  rewrite forallb_forall in *. intros c Hc. by apply Hl, in_rev.
Qed.

Lemma pretty_go_head x s : (0 < x)%N →
  ∃ d t, (d < 10)%N ∧ chars (pretty_N_go x s) = pretty_N_char d :: t.
Proof.
  intros Hx. apply (pretty_go_ind (λ x s, ∃ d t, (d < 10)%N ∧ chars (pretty_N_go x s) = pretty_N_char d :: t));
    [| |done]; clear x s Hx.
  - intros x s Hx. rewrite pretty_go_small by done. exists x, (chars s). split; [lia|done].
  - intros x s Hx IH. by rewrite pretty_N_go_step by lia.
Qed.

Lemma py_int_digits l (d : N) : (d < 10)%N → forallb (λ c, negb (is_space c)) (pretty_N_char d :: l) = true →
  py_int_of_string (String.string_of_list_ascii (pretty_N_char d :: l)) = digits_from 0 false (pretty_N_char d :: l).
Proof.
  intros Hd Hl. unfold py_int_of_string. rewrite String.list_ascii_of_string_of_list_ascii, strip_nonspace by done.
  destruct (pretty_char_digit d Hd) as [Hv _].
  rewrite !bool_decide_false; [done|intros E; rewrite E in Hv; discriminate Hv..].
Qed.

Lemma py_int_pretty (z : Z) : py_int_of_string (pretty z) = Some z.
Proof.
  assert (∀ x, (0 < x)%N → ∀ b, digits_from 0 b (chars (pretty_N_go x "")) = Some (Z.of_N x)) as Hgo.
  { intros x Hx b. by rewrite digits_from_pretty_go. }
  destruct z as [|p|p]; [done| |].
  - change (pretty (Zpos p)) with (pretty_N_go (N.pos p) "").
    pose proof (nonspace_pretty_go (N.pos p) "" eq_refl eq_refl) as Hns.
    destruct (pretty_go_head (N.pos p) "" eq_refl) as (d & t & Hd & Heq).
    rewrite <- (String.string_of_list_ascii_of_string (pretty_N_go (N.pos p) "")), Heq.
    rewrite Heq in Hns. rewrite py_int_digits by done. rewrite <- Heq. by rewrite Hgo.
  - change (pretty (Zneg p)) with ("-" +:+ pretty_N_go (N.pos p) "").
    pose proof (nonspace_pretty_go (N.pos p) "" eq_refl eq_refl) as Hns.
    unfold py_int_of_string. change (chars ("-" +:+ pretty_N_go (N.pos p) "")) with ("-"%char :: chars (pretty_N_go (N.pos p) "")).
    rewrite strip_nonspace by (cbn [forallb]; by rewrite Hns). rewrite bool_decide_true by done.
    by rewrite Hgo.
Qed.
