(* ===== verification/Monad.v ===== *)
(** * The effect layer: SQL statements, transactions, faults and interleavings

    Every asynchronous handler of the program is a computation of the monad [M]
    below.  A computation runs against a [World]: the database [db], the
    process-external state [ext] (caches, submitted transfers), the wall clock,
    and a schedule of events.  Each SQL statement, BEGIN and COMMIT consumes one
    event, which says how much time passes before it, whether it fails, and what
    the other processes commit in between:

    - [FOk]: the statement takes effect and its result arrives;
    - [FFail]: it raises and has no effect;
    - [FLost]: it takes effect but the acknowledgement is lost, so it raises.

    Other processes act only between transactions ([ev_env] is applied outside a
    transaction), which is what the row locks of the code ([FOR UPDATE], advisory
    locks) and PostgreSQL's atomic transactions provide.  An exhausted schedule
    means that nothing fails, no time passes and nobody interferes.  A raise
    inside a transaction restores the database of its BEGIN; a transaction
    opened inside a transaction is a savepoint.

    The second half is the program logic: [wpt] for code inside a transaction,
    [wpi] for whole handlers under an invariant that every other process
    respects, [wps] for executions that fail but are not disturbed, and [wpq] for
    quiet executions, where progress is proved. *)

From S2P Require Export Prelude.

(** Exceptions the handlers raise, catch or distinguish. *)
Inductive exn :=
  | ValueError (msg : string)
  | RuntimeError (msg : string)
  | TypeError (msg : string)
  | KeyError (key : string)
  | IndexError (msg : string)
  | AttributeError (name : string)
  | UniqueViolation
  | CheckViolation
  | ForeignKeyViolation
  | DataError
  | ConnectionError
  | SettlementClaimLostError (msg : string).

(** [psycopg.errors.IntegrityError] and its subclasses. *)
Definition is_integrity_error (e : exn) : bool :=
  match e with
  | UniqueViolation | CheckViolation | ForeignKeyViolation => true
  | _ => false
  end.

Definition is_data_error (e : exn) : bool := match e with DataError => true | _ => false end.
Definition is_unique_violation (e : exn) : bool := match e with UniqueViolation => true | _ => false end.

(** [str(exc)], for the rows that store it. *)
Definition exn_str (e : exn) : string :=
  match e with
  | ValueError m | RuntimeError m | TypeError m | KeyError m | IndexError m | AttributeError m
  | SettlementClaimLostError m => m
  | UniqueViolation => "UniqueViolation"
  | CheckViolation => "CheckViolation"
  | ForeignKeyViolation => "ForeignKeyViolation"
  | DataError => "DataError"
  | ConnectionError => "ConnectionError"
  end.

Inductive res (A : Type) := Ok (a : A) | Raise (e : exn).
Arguments Ok {A} a.
Arguments Raise {A} e.

(** Pure fallible code: an exception ends it. *)
#[export] Instance res_ret : MRet res := λ A a, Ok a.
#[export] Instance res_bind : MBind res := λ A B f m,
  match m with Ok a => f a | Raise e => Raise e end.

#[export] Instance res_fmap : FMap res := λ A B f m,
  match m with Ok a => Ok (f a) | Raise e => Raise e end.

Lemma res_bind_ok {A B} (m : res A) (f : A → res B) b :
  (m ≫= f) = Ok b ↔ ∃ a, m = Ok a ∧ f a = Ok b.
Proof. destruct m; cbn; naive_solver. Qed.

(** The outcome of a fallible step *)
Definition outcome {A} (P : A → Prop) (E : exn → Prop) (r : res A) : Prop :=
  match r with Ok a => P a | Raise e => E e end.

Lemma outcome_mono {A} (P Q : A → Prop) E (m : res A) : outcome P E m → (∀ a, P a → Q a) → outcome Q E m.
Proof. destruct m; cbn; auto. Qed.

Lemma outcome_bind {A B} (P : A → Prop) (Q : B → Prop) E (m : res A) (f : A → res B) :
  outcome P E m → (∀ a, m = Ok a → P a → outcome Q E (f a)) → outcome Q E (m ≫= f).
Proof. destruct m as [a|e]; cbn; [|done]. intros HP H. by apply H. Qed.

Lemma outcome_fmap {A B} (P : A → Prop) (Q : B → Prop) E (m : res A) (f : A → B) :
  outcome P E m → (∀ a, m = Ok a → P a → Q (f a)) → outcome Q E (f <$> m).
Proof. destruct m as [a|e]; cbn; [|done]. intros HP H. by apply H. Qed.

Inductive fault := FOk | FFail | FLost.
#[export] Instance fault_eq_dec : EqDecision fault.
Proof. solve_decision. Defined.

Section world.
Context {D X : Type}.

Record event := MkEvent {
  ev_dt : N;
  ev_fault : fault;
  ev_env : D → X → D * X;
}.

Record World := MkWorld {
  db : D;
  ext : X;
  clock : Z;
  tx_now : option Z;
  sched : list event;
  uuid_n : nat;
}.

#[global] Instance eta_World : Eta World :=
  λ w, MkWorld (db w) (ext w) (clock w) (tx_now w) (sched w) (uuid_n w).
End world.
Arguments event : clear implicits.
Arguments World : clear implicits.

Definition M (D X A : Type) : Type := World D X → res A * World D X.

Section combinators.
Context {D X : Type}.
Abbreviation W := (World D X).

#[global] Instance M_ret : MRet (M D X) := λ A a w, (Ok a, w).
#[global] Instance M_bind : MBind (M D X) := λ A B f m w,
  match m w with
  | (Ok a, w') => f a w'
  | (Raise e, w') => (Raise e, w')
  end.

Definition raise {A} (e : exn) : M D X A := λ w, (Raise e, w).

(** [try: m  except Exception as e: h e] *)
Definition catch {A} (m : M D X A) (h : exn → M D X A) : M D X A := λ w,
  match m w with
  | (Ok a, w') => (Ok a, w')
  | (Raise e, w') => h e w'
  end.

(** PostgreSQL's [NOW()]: the start of the transaction, else the current time. *)
Definition sql_now (w : W) : Z := default (clock w) (tx_now w).

Definition advance (e : event D X) (w : W) : W :=
  let w := w <| sched ::= tail |> <| clock ::= Z.add (Z.of_N (ev_dt e)) |> in
  match tx_now w with
  | Some _ => w
  | None => let '(d, x) := ev_env e (db w) (ext w) in w <| db := d |> <| ext := x |>
  end.

Definition next_event (w : W) : fault * W :=
  match sched w with
  | [] => (FOk, w)
  | e :: _ => (ev_fault e, advance e w)
  end.

(** One SQL statement: a partial function of the database and [NOW()]. *)
Definition stmt {A} (f : Z → D → res (A * D)) : M D X A := λ w,
  let '(flt, w) := next_event w in
  match flt with
  | FFail => (Raise ConnectionError, w)
  | _ =>
      match f (sql_now w) (db w) with
      | Raise e => (Raise e, w)
      | Ok (a, d) =>
          (match flt with FLost => Raise ConnectionError | _ => Ok a end, w <| db := d |>)
      end
  end.

Definition query {A} (f : Z → D → A) : M D X A := stmt (λ now d, Ok (f now d, d)).

(** [async with conn.transaction():] *)
Definition transaction {A} (m : M D X A) : M D X A := λ w,
  match tx_now w with
  | Some _ =>
      match m w with
      | (Ok a, w') => (Ok a, w')
      | (Raise e, w') => (Raise e, w' <| db := db w |>)
      end
  | None =>
      let '(flt, w0) := next_event w in
      match flt with
      | FOk =>
          match m (w0 <| tx_now := Some (clock w0) |>) with
          | (Raise e, w1) => (Raise e, w1 <| db := db w0 |> <| tx_now := None |>)
          | (Ok a, w1) =>
              let '(flt', w2) := next_event w1 in
              match flt' with
              | FOk => (Ok a, w2 <| tx_now := None |>)
              | FFail => (Raise ConnectionError, w2 <| db := db w0 |> <| tx_now := None |>)
              | FLost => (Raise ConnectionError, w2 <| tx_now := None |>)
              end
          end
      | _ => (Raise ConnectionError, w0)
      end
  end.

(** A call to another service: it consumes an event (time passes, others act). *)
Definition external {A} (f : Z → X → res A * X) : M D X A := λ w,
  let '(flt, w) := next_event w in
  match flt with
  | FFail => (Raise ConnectionError, w)
  | _ =>
      let '(r, x) := f (clock w) (ext w) in
      (match flt with FLost => Raise ConnectionError | _ => r end, w <| ext := x |>)
  end.

(** An await that cannot fail (a lock, a sleep): others may act, time passes. *)
Definition yield_point : M D X unit := λ w, (Ok tt, (next_event w).2).

(** In-process state: no event, no failure. *)
Definition get_ext : M D X X := λ w, (Ok (ext w), w).
Definition modify_ext (f : X → X) : M D X unit := λ w, (Ok tt, w <| ext ::= f |>).

(** [datetime.now(timezone.utc)] *)
Definition datetime_now : M D X Z := λ w, (Ok (clock w), w).

(** [str(uuid.uuid4())], drawn from a supply. *)
Definition uuid4 (supply : nat → string) : M D X string := λ w,
  (Ok (supply (uuid_n w)), w <| uuid_n ::= S |>).

(** Pure fallible code inside a handler. *)
Definition lift {A} (r : res A) : M D X A :=
  match r with Ok a => mret a | Raise e => raise e end.

(** [for a in l: acc = body acc a] *)
Fixpoint for_each {A B} (l : list A) (acc : B) (body : B → A → M D X B) : M D X B :=
  match l with
  | [] => mret acc
  | a :: l' => acc' ← body acc a; for_each l' acc' body
  end.
End combinators.

(** [except (A, B) as e: h e], any other exception propagates. *)
Definition catch_if {D X A} (p : exn → bool) (m : M D X A) (h : exn → M D X A) : M D X A :=
  catch m (λ e, if p e then h e else raise e).

(** ** Inside a transaction

    [wpt now m Q E d]: run in a transaction whose [NOW()] is [now] against the
    database [d], [m] returns a value satisfying [Q] or raises satisfying [E],
    whatever the schedule does. *)
Section wpt.
Context {D X : Type}.
Abbreviation W := (World D X).
Implicit Types (d : D) (now : Z).

Definition wpt {A} now (m : M D X A) (Q : A → D → Prop) (E : exn → D → Prop) d : Prop :=
  ∀ w : W, tx_now w = Some now → db w = d →
    let '(r, w') := m w in
    tx_now w' = Some now ∧ sched w' `suffix_of` sched w ∧ ext w' = ext w ∧
    match r with Ok a => Q a (db w') | Raise e => E e (db w') end.

Lemma advance_in_tx (w : W) e now :
  tx_now w = Some now →
  db (advance e w) = db w ∧ ext (advance e w) = ext w ∧ tx_now (advance e w) = Some now ∧
  sched (advance e w) = tail (sched w).
Proof. intros Hn. unfold advance. cbn. rewrite Hn. done. Qed.

Lemma next_event_in_tx (w : W) now :
  tx_now w = Some now →
  let '(_, w') := next_event w in
  db w' = db w ∧ ext w' = ext w ∧ tx_now w' = Some now ∧ sched w' `suffix_of` sched w.
Proof.
  intros Hn. unfold next_event. destruct (sched w) as [|e s] eqn:Hs.
  { split_and!; try done. by rewrite Hs. }
  destruct (advance_in_tx w e now Hn) as (? & ? & ? & Hs'). split_and!; try done.
  rewrite Hs', Hs. by apply suffix_cons_r.
Qed.

Lemma wpt_ret {A} now (a : A) Q E d : Q a d → wpt now (mret a : M D X A) Q E d.
Proof. intros HQ w Hn Hd. subst d. cbn. split_and!; done. Qed.

Lemma wpt_raise {A} now e (Q : A → D → Prop) (E : exn → D → Prop) d :
  E e d → wpt now (raise e : M D X A) Q E d.
Proof. intros HE w Hn Hd. subst d. cbn. split_and!; done. Qed.

Lemma wpt_bind {A B} now (m : M D X A) (f : A → M D X B) Q E d :
  wpt now m (λ a d', wpt now (f a) Q E d') E d → wpt now (m ≫= f) Q E d.
Proof.
  intros Hm w Hn Hd. specialize (Hm w Hn Hd). unfold mbind, M_bind.
  destruct (m w) as [[a|e] w1]; [|done]. destruct Hm as (Hn1 & Hs1 & Hx1 & HQ).
  specialize (HQ w1 Hn1 eq_refl). destruct (f a w1) as [r w2].
  destruct HQ as (? & ? & ? & ?). split_and!; [done|by etrans|congruence|done].
Qed.

Lemma wpt_mono {A} now (m : M D X A) (Q Q' : A → D → Prop) (E E' : exn → D → Prop) d :
  wpt now m Q E d → (∀ a d', Q a d' → Q' a d') → (∀ e d', E e d' → E' e d') →
  wpt now m Q' E' d.
Proof.
  intros Hm HQ HE w Hn Hd. specialize (Hm w Hn Hd).
  destruct (m w) as [[a|e] w1]; naive_solver.
Qed.

Lemma wpt_stmt {A} now (f : Z → D → res (A * D)) (Q : A → D → Prop) (E : exn → D → Prop) d :
  E ConnectionError d →
  match f now d with
  | Ok (a, d') => Q a d' ∧ E ConnectionError d'
  | Raise e => E e d
  end →
  wpt now (stmt f : M D X A) Q E d.
Proof.
  intros HE Hf w Hn Hd. unfold stmt.
  pose proof (next_event_in_tx w now Hn) as Hne.
  destruct (next_event w) as [flt w1]. destruct Hne as (Hd1 & Hx1 & Hn1 & Hs1).
  assert (sql_now w1 = now) as Hnow by (unfold sql_now; by rewrite Hn1).
  rewrite Hnow, Hd1, Hd.
  destruct flt; destruct (f now d) as [[a d']|e]; cbn;
    split_and!; try done; try (by rewrite Hd1, Hd); naive_solver.
Qed.

Lemma wpt_query {A} now (f : Z → D → A) (Q : A → D → Prop) (E : exn → D → Prop) d :
  E ConnectionError d → Q (f now d) d → wpt now (query f : M D X A) Q E d.
Proof. intros. by apply wpt_stmt. Qed.

Lemma wpt_catch {A} now (m : M D X A) h (Q : A → D → Prop) (E : exn → D → Prop) d :
  wpt now m Q (λ e d', wpt now (h e) Q E d') d → wpt now (catch m h) Q E d.
Proof.
  intros Hm w Hn Hd. specialize (Hm w Hn Hd). unfold catch.
  destruct (m w) as [[a|e] w1]; [done|]. destruct Hm as (Hn1 & Hs1 & Hx1 & HQ).
  specialize (HQ w1 Hn1 eq_refl). destruct (h e w1) as [r w2].
  destruct HQ as (? & ? & ? & ?). split_and!; [done|by etrans|congruence|done].
Qed.

Lemma wpt_savepoint {A} now (m : M D X A) (Q : A → D → Prop) (E : exn → D → Prop) d :
  wpt now m Q (λ e _, E e d) d → wpt now (transaction m) Q E d.
Proof.
  intros Hm w Hn Hd. specialize (Hm w Hn Hd). unfold transaction. rewrite Hn.
  destruct (m w) as [[a|e] w1]; [done|]. cbn. by rewrite Hd.
Qed.

Lemma wpt_savepoint_body {A} now (m : M D X A) (Q : A → D → Prop) d :
  wpt now (transaction m) Q (λ _ _, True) d → wpt now m Q (λ _ _, True) d.
Proof.
  intros Hm w Hn Hd. specialize (Hm w Hn Hd). unfold transaction in Hm. rewrite Hn in Hm.
  by destruct (m w) as [[a|e] w1].
Qed.

Lemma wpt_uuid4 now supply (Q : string → D → Prop) (E : exn → D → Prop) d :
  (∀ s, Q s d) → wpt now (uuid4 supply : M D X string) Q E d.
Proof. intros HQ w Hn Hd. subst d. cbn. split_and!; try done. Qed.

Lemma wpt_datetime_now now (Q : Z → D → Prop) (E : exn → D → Prop) d :
  (∀ t, Q t d) → wpt now (datetime_now : M D X Z) Q E d.
Proof. intros HQ w Hn Hd. subst d. cbn. split_and!; done. Qed.

Lemma wpt_for_each {A B} now (l : list A) (acc : B) body (I : B → D → Prop) (E : exn → D → Prop) d :
  I acc d →
  (∀ acc a d', a ∈ l → I acc d' → wpt now (body acc a : M D X B) I E d') →
  wpt now (for_each l acc body) I E d.
Proof.
  revert acc d. induction l as [|a l IH]; intros acc d HI Hb; simpl; [by apply wpt_ret|].
  apply wpt_bind. eapply wpt_mono; [apply Hb; [by left|done]| |done].
  intros acc' d' HI'. apply IH; [done|]. intros. apply Hb; [by right|done].
Qed.
End wpt.

(** ** Whole handlers, under an invariant the other processes respect *)
Section wpi.
Context {D X : Type}.
Abbreviation W := (World D X).
Implicit Types (I : D → X → Prop).

Definition respects I (e : event D X) : Prop :=
  ∀ d x, I d x → I (ev_env e d x).1 (ev_env e d x).2.

Definition good I (w : W) : Prop :=
  tx_now w = None ∧ I (db w) (ext w) ∧ Forall (respects I) (sched w).

Definition wpi {A} I (m : M D X A) (Q : res A → Prop) : Prop :=
  ∀ w, good I w → let '(r, w') := m w in good I w' ∧ sched w' `suffix_of` sched w ∧ Q r.

(** [m] preserves the invariant, whatever the schedule. *)
Definition preserves {A} I (m : M D X A) : Prop := wpi I m (λ _, True).

Lemma preserves_good {A} I (m : M D X A) w : preserves I m → good I w → good I (m w).2.
Proof. intros Hm Hw. specialize (Hm w Hw). destruct (m w). apply Hm. Qed.

Lemma good_next_event I (w : W) : good I w → let '(_, w') := next_event w in good I w' ∧ sched w' `suffix_of` sched w.
Proof.
  intros (Hn & HI & Hs). unfold next_event.
  destruct (sched w) as [|e s] eqn:Hsw; [by unfold good; rewrite Hsw|].
  inversion Hs as [|?? He Hs']; subst. unfold advance. cbn. rewrite Hn.
  specialize (He (db w) (ext w) HI). destruct (ev_env e (db w) (ext w)) as [d x].
  unfold good. cbn. rewrite Hsw. cbn. split; [done|]. by apply suffix_cons_r.
Qed.

Lemma wpi_mono {A} I (m : M D X A) (Q Q' : res A → Prop) :
  wpi I m Q → (∀ r, Q r → Q' r) → wpi I m Q'.
Proof. intros Hm HQ w Hw. specialize (Hm w Hw). destruct (m w). naive_solver. Qed.

Lemma wpi_ret {A} I (a : A) (Q : res A → Prop) : Q (Ok a) → wpi I (mret a) Q.
Proof. by intros HQ w Hw. Qed.

Lemma wpi_raise {A} I e (Q : res A → Prop) : Q (Raise e) → wpi I (raise e) Q.
Proof. by intros HQ w Hw. Qed.

Lemma wpi_bind {A B} I (m : M D X A) (f : A → M D X B) (Q : res B → Prop) :
  wpi I m (λ r, match r with Ok a => wpi I (f a) Q | Raise e => Q (Raise e) end) →
  wpi I (m ≫= f) Q.
Proof.
  intros Hm w Hw. specialize (Hm w Hw). unfold mbind, M_bind.
  destruct (m w) as [[a|e] w1]; [|done]. destruct Hm as (Hw1 & Hs1 & Hf). specialize (Hf w1 Hw1).
  destruct (f a w1). destruct Hf as (? & ? & ?). split_and!; [done|by etrans|done].
Qed.

Lemma wpi_catch {A} I (m : M D X A) h (Q : res A → Prop) :
  wpi I m (λ r, match r with Ok a => Q (Ok a) | Raise e => wpi I (h e) Q end) →
  wpi I (catch m h) Q.
Proof.
  intros Hm w Hw. specialize (Hm w Hw). unfold catch.
  destruct (m w) as [[a|e] w1]; [done|]. destruct Hm as (Hw1 & Hs1 & Hf). specialize (Hf w1 Hw1).
  destruct (h e w1). destruct Hf as (? & ? & ?). split_and!; [done|by etrans|done].
Qed.

Lemma wpi_stmt {A} I (f : Z → D → res (A * D)) (Q : res A → Prop) :
  Q (Raise ConnectionError) →
  (∀ now d x, I d x → match f now d with
                      | Ok (a, d') => I d' x ∧ Q (Ok a)
                      | Raise e => Q (Raise e) end) →
  wpi I (stmt f) Q.
Proof.
  intros HE Hf w Hw. unfold stmt. pose proof (good_next_event I w Hw) as Hw1.
  destruct (next_event w) as [flt w1]. destruct Hw1 as ((Hn & HI & Hs) & Hs1).
  specialize (Hf (sql_now w1) (db w1) (ext w1) HI).
  destruct flt; destruct (f _ _) as [[a d']|e]; unfold good; cbn; naive_solver.
Qed.

Lemma wpi_query {A} I (f : Z → D → A) (Q : res A → Prop) :
  Q (Raise ConnectionError) → (∀ now d x, I d x → Q (Ok (f now d))) → wpi I (query f) Q.
Proof. intros HE Hf. apply wpi_stmt; [done|]. intros. eauto. Qed.

Lemma wpi_transaction {A} I (m : M D X A) (Q : res A → Prop) :
  Q (Raise ConnectionError) →
  (∀ now d x, I d x → wpt now m (λ a d', I d' x ∧ Q (Ok a)) (λ e _, Q (Raise e)) d) →
  wpi I (transaction m) Q.
Proof.
  intros HE Hm w Hw. unfold transaction. assert (tx_now w = None) as -> by apply Hw.
  pose proof (good_next_event I w Hw) as Hw0. destruct (next_event w) as [flt w0].
  destruct Hw0 as [Hw0 Hsuf]. destruct flt; [|done..]. destruct Hw0 as (Hn0 & HI0 & Hs0).
  specialize (Hm (clock w0) (db w0) (ext w0) HI0 (w0 <| tx_now := Some (clock w0) |>) eq_refl eq_refl).
  destruct (m _) as [[a|e] w1]; cbn in Hm; destruct Hm as (Hn1 & Hs1 & Hx1 & HQ).
  - pose proof (next_event_in_tx w1 _ Hn1) as H2. destruct (next_event w1) as [flt' w2].
    destruct H2 as (Hd2 & Hx2 & _ & Hs2).
    assert (Forall (respects I) (sched w2)) as Hsw2.
    { destruct Hs1 as [p1 E1], Hs2 as [p2 E2]. cbn in E1. rewrite E1, E2 in Hs0.
      by apply Forall_app in Hs0 as [_ [_ ?]%Forall_app]. }
    assert (sched w2 `suffix_of` sched w) by (etrans; [exact Hs2|etrans; [exact Hs1|exact Hsuf]]).
    destruct HQ as [HI1 HQ]. destruct flt'; unfold good; cbn; rewrite ?Hd2, ?Hx2, ?Hx1; done.
  - unfold good. cbn. rewrite Hx1. split_and!; [done|done| |by etrans|done].
    destruct Hs1 as [p1 E1]. cbn in E1. rewrite E1 in Hs0. by apply Forall_app in Hs0 as [_ ?].
Qed.

Lemma wpi_yield_point I (Q : res unit → Prop) :
  Q (Ok tt) → wpi I (yield_point : M D X unit) Q.
Proof.
  intros HQ w Hw. unfold yield_point. pose proof (good_next_event I w Hw) as Hw1.
  destruct (next_event w). cbn. naive_solver.
Qed.

Lemma wpi_external {A} I (f : Z → X → res A * X) (Q : res A → Prop) :
  Q (Raise ConnectionError) →
  (∀ now d x, I d x → let '(r, x') := f now x in I d x' ∧ Q r) →
  wpi I (external f) Q.
Proof.
  intros HE Hf w Hw. unfold external. pose proof (good_next_event I w Hw) as Hw1.
  destruct (next_event w) as [flt w1]. destruct Hw1 as ((Hn & HI & Hs) & Hs1).
  specialize (Hf (clock w1) (db w1) (ext w1) HI).
  destruct flt; destruct (f _ _) as [r x']; unfold good; cbn; naive_solver.
Qed.

Lemma wpi_modify_ext I f (Q : res unit → Prop) :
  Q (Ok tt) → (∀ d x, I d x → I d (f x)) → wpi I (modify_ext f : M D X unit) Q.
Proof. intros HQ Hf w (Hn & HI & Hs). unfold good. cbn. naive_solver. Qed.

Lemma wpi_get_ext I (Q : res X → Prop) :
  (∀ d x, I d x → Q (Ok x)) → wpi I (get_ext : M D X X) Q.
Proof. intros HQ w Hw. cbn. split_and!; [done..|]. eapply HQ, Hw. Qed.

Lemma wpi_datetime_now I (Q : res Z → Prop) :
  (∀ t, Q (Ok t)) → wpi I (datetime_now : M D X Z) Q.
Proof. intros HQ w Hw. cbn. split_and!; [done..|apply HQ]. Qed.

Lemma wpi_uuid4 I supply (Q : res string → Prop) :
  (∀ s, Q (Ok s)) → wpi I (uuid4 supply : M D X string) Q.
Proof. intros HQ w Hw. cbn. split_and!; [done..|apply HQ]. Qed.

Lemma wpi_for_each {A B} I (l : list A) (acc : B) body (P : B → Prop) (Q : res B → Prop) :
  P acc → (∀ b, P b → Q (Ok b)) →
  (∀ acc a, a ∈ l → P acc →
     wpi I (body acc a : M D X B) (λ r, match r with Ok b => P b | Raise e => Q (Raise e) end)) →
  wpi I (for_each l acc body) Q.
Proof.
  revert acc. induction l as [|a l IH]; intros acc HP HPQ Hb; simpl; [by apply wpi_ret; auto|].
  apply wpi_bind. eapply wpi_mono; [apply Hb; [by left|done]|].
  intros [b|e] Hr; [|done]. apply IH; [done..|]. intros. apply Hb; [by right|done].
Qed.

Lemma wpi_if {A} I (b : bool) (m1 m2 : M D X A) Q :
  (b = true → wpi I m1 Q) → (b = false → wpi I m2 Q) → wpi I (if b then m1 else m2) Q.
Proof. destruct b; auto. Qed.

(** [preserves] composes; [preserve] below applies these rules. *)
Lemma preserves_ret {A} I (a : A) : preserves I (mret a).
Proof. by apply wpi_ret. Qed.

Lemma preserves_raise {A} I e : preserves I (raise e : M D X A).
Proof. by apply wpi_raise. Qed.

Lemma preserves_bind {A B} I (m : M D X A) (f : A → M D X B) :
  preserves I m → (∀ a, preserves I (f a)) → preserves I (m ≫= f).
Proof. intros Hm Hf. apply wpi_bind. eapply wpi_mono; [exact Hm|]. intros [a|e] _; [apply Hf|done]. Qed.

Lemma preserves_catch {A} I (m : M D X A) h :
  preserves I m → (∀ e, preserves I (h e)) → preserves I (catch m h).
Proof. intros Hm Hh. apply wpi_catch. eapply wpi_mono; [exact Hm|]. intros [a|e] _; [done|apply Hh]. Qed.

Lemma preserves_query {A} I (f : Z → D → A) : preserves I (query f).
Proof. by apply wpi_query. Qed.

Lemma preserves_external {A} I (f : Z → X → res A * X) :
  (∀ now d x, I d x → I d (f now x).2) → preserves I (external f).
Proof. intros Hf. apply wpi_external; [done|]. intros now d x Hd. specialize (Hf now d x Hd). by destruct (f now x). Qed.

Lemma preserves_for_each {A B} I (l : list A) (acc : B) body :
  (∀ acc a, preserves I (body acc a : M D X B)) → preserves I (for_each l acc body).
Proof.
  intros Hb. apply (wpi_for_each _ _ _ _ (λ _, True)); [done..|]. intros b a _ _.
  eapply wpi_mono; [apply Hb|]. by intros [?|?].
Qed.
End wpi.

(** ** Quiet executions: nothing fails and nobody interferes

    [wpq m Q w]: if the schedule of [w] is exhausted, [m] ends in a result and a
    world satisfying [Q].  Nothing is left open, so these are progress statements. *)
Section wpq.
Context {D X : Type}.
Implicit Types (w : World D X).

Definition quiet w : Prop := sched w = [].

Definition wpq {A} (m : M D X A) (Q : res A → World D X → Prop) w : Prop :=
  quiet w → let '(r, w') := m w in quiet w' ∧ Q r w'.

Lemma quiet_stmt {A} (f : Z → D → res (A * D)) w :
  quiet w →
  stmt f w = match f (sql_now w) (db w) with
             | Ok (a, d) => (Ok a, w <| db := d |>)
             | Raise e => (Raise e, w) end.
Proof. intros Hq. unfold stmt, next_event. rewrite Hq. by destruct (f _ _) as [[??]|?]. Qed.

Lemma quiet_query {A} (f : Z → D → A) w : quiet w → query f w = (Ok (f (sql_now w) (db w)), w).
Proof. intros Hq. unfold query. rewrite quiet_stmt by done. by destruct w. Qed.

Lemma wpq_mono {A} (m : M D X A) (Q Q' : res A → World D X → Prop) w :
  wpq m Q w → (∀ r w', Q r w' → Q' r w') → wpq m Q' w.
Proof. intros Hm HQ Hw. specialize (Hm Hw). destruct (m w). naive_solver. Qed.

Lemma wpq_ret {A} (a : A) (Q : res A → World D X → Prop) w : Q (Ok a) w → wpq (mret a) Q w.
Proof. by intros HQ Hw. Qed.

Lemma wpq_raise {A} e (Q : res A → World D X → Prop) w : Q (Raise e) w → wpq (raise e) Q w.
Proof. by intros HQ Hw. Qed.

Lemma wpq_bind {A B} (m : M D X A) (f : A → M D X B) (Q : res B → World D X → Prop) w :
  wpq m (λ r w', match r with Ok a => wpq (f a) Q w' | Raise e => Q (Raise e) w' end) w →
  wpq (m ≫= f) Q w.
Proof.
  intros Hm Hw. specialize (Hm Hw). unfold mbind, M_bind.
  destruct (m w) as [[a|e] w1]; [|done]. destruct Hm as [Hw1 Hf]. by apply Hf.
Qed.

Lemma wpq_catch {A} (m : M D X A) h (Q : res A → World D X → Prop) w :
  wpq m (λ r w', match r with Ok a => Q (Ok a) w' | Raise e => wpq (h e) Q w' end) w →
  wpq (catch m h) Q w.
Proof.
  intros Hm Hw. specialize (Hm Hw). unfold catch.
  destruct (m w) as [[a|e] w1]; [done|]. destruct Hm as [Hw1 Hf]. by apply Hf.
Qed.

Lemma wpq_stmt {A} (f : Z → D → res (A * D)) (Q : res A → World D X → Prop) w :
  match f (sql_now w) (db w) with
  | Ok (a, d) => Q (Ok a) (w <| db := d |>)
  | Raise e => Q (Raise e) w end → wpq (stmt f) Q w.
Proof. intros HQ Hw. rewrite quiet_stmt by done. by destruct (f _ _) as [[a d]|e]. Qed.

Lemma wpq_query {A} (f : Z → D → A) (Q : res A → World D X → Prop) w :
  Q (Ok (f (sql_now w) (db w))) w → wpq (query f) Q w.
Proof. intros HQ Hw. by rewrite quiet_query. Qed.

Lemma wpq_transaction {A} (m : M D X A) (Q : res A → World D X → Prop) w :
  tx_now w = None →
  wpq m (λ r w', match r with
                 | Ok a => Q (Ok a) (w' <| tx_now := None |>)
                 | Raise e => Q (Raise e) (w' <| db := db w |> <| tx_now := None |>) end)
    (w <| tx_now := Some (clock w) |>) →
  wpq (transaction m) Q w.
Proof.
  intros Hn Hm Hw. unfold transaction. rewrite Hn. unfold next_event at 1. rewrite Hw.
  specialize (Hm Hw). destruct (m _) as [[a|e] w1]; destruct Hm as [Hq HQ]; [|by split].
  unfold next_event. by rewrite Hq.
Qed.

(** A transaction of a quiet execution, by the rules for transactions. *)
Lemma wpq_transaction_wpt {A} (m : M D X A) (Q : res A → D → Prop) w :
  tx_now w = None →
  wpt (clock w) m (λ a d', Q (Ok a) d') (λ e _, Q (Raise e) (db w)) (db w) →
  wpq (transaction m) (λ r w', Q r (db w')) w.
Proof.
  intros Hn Hm. apply wpq_transaction; [done|]. intros Hs.
  specialize (Hm (w <| tx_now := Some (clock w) |>) eq_refl eq_refl).
  destruct (m _) as [[a|e] w']; destruct Hm as (_ & Hsuf & _ & HQ); cbn in *;
    rewrite Hs in Hsuf; apply suffix_nil_inv in Hsuf; done.
Qed.

Lemma wpq_savepoint {A} (m : M D X A) (Q : res A → World D X → Prop) w now :
  tx_now w = Some now →
  wpq m (λ r w', match r with Ok a => Q (Ok a) w' | Raise e => Q (Raise e) (w' <| db := db w |>) end) w →
  wpq (transaction m) Q w.
Proof.
  intros Hn Hm Hw. specialize (Hm Hw). unfold transaction. rewrite Hn. by destruct (m w) as [[a|e] w'].
Qed.

Lemma wpq_external {A} (f : Z → X → res A * X) (Q : res A → World D X → Prop) w :
  (let '(r, x) := f (clock w) (ext w) in Q r (w <| ext := x |>)) → wpq (external f) Q w.
Proof.
  intros HQ Hw. unfold external, next_event. rewrite Hw. by destruct (f _ _).
Qed.

Lemma wpq_modify_ext f (Q : res unit → World D X → Prop) w :
  Q (Ok tt) (w <| ext ::= f |>) → wpq (modify_ext f) Q w.
Proof. by intros HQ Hw. Qed.

Lemma wpq_get_ext (Q : res X → World D X → Prop) w : Q (Ok (ext w)) w → wpq get_ext Q w.
Proof. by intros HQ Hw. Qed.

Lemma wpq_yield_point (Q : res unit → World D X → Prop) w : Q (Ok tt) w → wpq yield_point Q w.
Proof. intros HQ Hw. unfold yield_point, next_event. by rewrite Hw. Qed.

Lemma wpq_datetime_now (Q : res Z → World D X → Prop) w : Q (Ok (clock w)) w → wpq datetime_now Q w.
Proof. by intros HQ Hw. Qed.

Lemma wpq_uuid4 supply (Q : res string → World D X → Prop) w :
  Q (Ok (supply (uuid_n w))) (w <| uuid_n ::= S |>) → wpq (uuid4 supply) Q w.
Proof. by intros HQ Hw. Qed.
End wpq.

(** ** Solo executions: statements may fail, but nobody interferes and every
    acknowledgement arrives, so a result tells what happened to the database *)
Section wps.
Context {D X : Type}.
Abbreviation W := (World D X).

Definition solo_event (e : event D X) : Prop :=
  (∀ d x, ev_env e d x = (d, x)) ∧ ev_fault e ≠ FLost.

Definition solo (w : W) : Prop := tx_now w = None ∧ Forall solo_event (sched w).

Definition wps {A} (m : M D X A) (Q : res A → D → X → Prop) (d : D) (x : X) : Prop :=
  ∀ w, solo w → db w = d → ext w = x → let '(r, w') := m w in solo w' ∧ Q r (db w') (ext w').

Lemma solo_next_event (w : W) :
  solo w → let '(flt, w') := next_event w in
           solo w' ∧ flt ≠ FLost ∧ db w' = db w ∧ ext w' = ext w ∧ tx_now w' = None.
Proof.
  intros [Hn Hs]. unfold next_event, solo. destruct (sched w) as [|e s] eqn:Hsw.
  { split_and!; [done|by rewrite Hsw|done..]. }
  apply Forall_cons in Hs as [[He Hf] Hs]. unfold advance. cbn. rewrite Hn, He. cbn.
  rewrite Hsw. done.
Qed.

Lemma wps_mono {A} (m : M D X A) (Q Q' : res A → D → X → Prop) d x :
  wps m Q d x → (∀ r d' x', Q r d' x' → Q' r d' x') → wps m Q' d x.
Proof. intros Hm HQ w Hw Hd Hx. specialize (Hm w Hw Hd Hx). destruct (m w). naive_solver. Qed.

Lemma wps_ret {A} (a : A) (Q : res A → D → X → Prop) d x : Q (Ok a) d x → wps (mret a) Q d x.
Proof. intros HQ w Hw <- <-. done. Qed.

Lemma wps_raise {A} e (Q : res A → D → X → Prop) d x : Q (Raise e) d x → wps (raise e) Q d x.
Proof. intros HQ w Hw <- <-. done. Qed.

Lemma wps_bind {A B} (m : M D X A) (f : A → M D X B) (Q : res B → D → X → Prop) d x :
  wps m (λ r d' x', match r with Ok a => wps (f a) Q d' x' | Raise e => Q (Raise e) d' x' end) d x →
  wps (m ≫= f) Q d x.
Proof.
  intros Hm w Hw Hd Hx. specialize (Hm w Hw Hd Hx). unfold mbind, M_bind.
  destruct (m w) as [[a|e] w1]; [|done]. destruct Hm as [Hw1 Hf]. by apply Hf.
Qed.

Lemma wps_catch {A} (m : M D X A) h (Q : res A → D → X → Prop) d x :
  wps m (λ r d' x', match r with Ok a => Q (Ok a) d' x' | Raise e => wps (h e) Q d' x' end) d x →
  wps (catch m h) Q d x.
Proof.
  intros Hm w Hw Hd Hx. specialize (Hm w Hw Hd Hx). unfold catch.
  destruct (m w) as [[a|e] w1]; [done|]. destruct Hm as [Hw1 Hf]. by apply Hf.
Qed.

Lemma wps_stmt {A} (f : Z → D → res (A * D)) (Q : res A → D → X → Prop) d x :
  Q (Raise ConnectionError) d x →
  (∀ now, match f now d with
          | Ok (a, d') => Q (Ok a) d' x
          | Raise e => Q (Raise e) d x end) →
  wps (stmt f) Q d x.
Proof.
  intros HE Hf w Hw Hd Hx. unfold stmt. pose proof (solo_next_event w Hw) as H1.
  destruct (next_event w) as [flt w1]. destruct H1 as (Hs1 & Hl & Hd1 & Hx1 & Hn1).
  specialize (Hf (sql_now w1)). rewrite <- Hd, <- Hd1 in Hf. subst d x.
  destruct flt; [|by rewrite Hd1, Hx1|done].
  destruct (f _ _) as [[a d']|e]; unfold solo in *; cbn; rewrite ?Hx1 in *; naive_solver.
Qed.

Lemma wps_query {A} (f : Z → D → A) (Q : res A → D → X → Prop) d x :
  Q (Raise ConnectionError) d x → (∀ now, Q (Ok (f now d)) d x) → wps (query f) Q d x.
Proof. intros HE Hf. by apply wps_stmt. Qed.

Lemma wps_transaction {A} (m : M D X A) (Q : res A → D → X → Prop) d x :
  Q (Raise ConnectionError) d x →
  (∀ now, wpt now m (λ a d', Q (Ok a) d' x) (λ e _, Q (Raise e) d x) d) →
  wps (transaction m) Q d x.
Proof.
  intros HE Hm w Hw Hd Hx. unfold transaction. assert (tx_now w = None) as -> by apply Hw.
  pose proof (solo_next_event w Hw) as H0. destruct (next_event w) as [flt w0].
  destruct H0 as ([Hn0 Hs0] & Hl0 & Hd0 & Hx0 & _).
  destruct flt; [|split; [by split|by rewrite Hd0, Hx0, Hd, Hx]|done].
  specialize (Hm (clock w0) (w0 <| tx_now := Some (clock w0) |>) eq_refl).
  cbn in Hm. rewrite Hd0 in Hm. specialize (Hm Hd).
  destruct (m _) as [[a|e] w1]; destruct Hm as (Hn1 & [p1 Hs1] & Hx1 & HQ);
    rewrite Hs1 in Hs0; apply Forall_app in Hs0 as [_ Hs0].
  - assert (Forall solo_event (sched w1)) as Hs1' by done.
    unfold next_event. destruct (sched w1) as [|e s] eqn:Hsw1.
    { unfold solo. cbn. rewrite Hsw1, Hx1, Hx0, Hx. done. }
    apply Forall_cons in Hs1' as [[_ He] Hs1'].
    destruct (advance_in_tx w1 e _ Hn1) as (Hd2 & Hx2 & Hn2 & Hs2).
    unfold solo. destruct (ev_fault e); [| |done]; cbn;
      rewrite ?Hs2, ?Hsw1, ?Hx2, ?Hx1, ?Hd2, ?Hx0, ?Hd0, ?Hd, ?Hx; done.
  - unfold solo. cbn. rewrite Hx1, Hx0, Hd0, Hd, Hx. done.
Qed.

Lemma wps_external {A} (f : Z → X → res A * X) (Q : res A → D → X → Prop) d x :
  Q (Raise ConnectionError) d x →
  (∀ now, let '(r, x') := f now x in Q r d x') → wps (external f) Q d x.
Proof.
  intros HE Hf w Hw Hd Hx. unfold external. pose proof (solo_next_event w Hw) as H1.
  destruct (next_event w) as [flt w1]. destruct H1 as ([Hn1 Hs1] & Hl & Hd1 & Hx1 & _).
  specialize (Hf (clock w1)). rewrite <- Hx, <- Hx1 in Hf.
  destruct flt; [|by rewrite Hd1, Hx1, Hd, Hx|done].
  destruct (f _ _) as [r x']. unfold solo. cbn. rewrite Hd1, Hd. done.
Qed.

Lemma wps_modify_ext f (Q : res unit → D → X → Prop) d x :
  Q (Ok tt) d (f x) → wps (modify_ext f : M D X unit) Q d x.
Proof. intros HQ w Hw <- <-. done. Qed.

Lemma wps_datetime_now (Q : res Z → D → X → Prop) d x :
  (∀ t, Q (Ok t) d x) → wps (datetime_now : M D X Z) Q d x.
Proof. intros HQ w Hw <- <-. done. Qed.

Lemma wps_uuid4 supply (Q : res string → D → X → Prop) d x :
  (∀ s, Q (Ok s) d x) → wps (uuid4 supply : M D X string) Q d x.
Proof. intros HQ w Hw <- <-. done. Qed.

Lemma wps_get_ext (Q : res X → D → X → Prop) d x : Q (Ok x) d x → wps (get_ext : M D X X) Q d x.
Proof. intros HQ w Hw <- <-. done. Qed.
End wps.

(** ** Rely: handlers under interference that is known to be of some kind

    [rg R P m Q]: when every interference of the schedule is a step of the relation
    [R] on the shared state and [P] holds at the start, [m] ends in [Q], whatever
    fails.  Assertions that hold across a statement boundary must be stable under
    [R]. *)
Section rg.
Context {D X : Type}.
Abbreviation W := (World D X).
Implicit Types (R : D → X → D → X → Prop) (P : D → X → Prop).

Definition stable R P : Prop := ∀ d x d' x', P d x → R d x d' x' → P d' x'.

Definition relies R (e : event D X) : Prop := ∀ d x, R d x (ev_env e d x).1 (ev_env e d x).2.

Definition rg {A} R P (m : M D X A) (Q : res A → D → X → Prop) : Prop :=
  ∀ w : W, tx_now w = None → Forall (relies R) (sched w) → P (db w) (ext w) →
    let '(r, w') := m w in
    tx_now w' = None ∧ sched w' `suffix_of` sched w ∧ Q r (db w') (ext w').

Lemma relies_suffix R s s' : s' `suffix_of` s → Forall (relies R) s → Forall (relies R) s'.
Proof. intros [p ->] Hs. by apply Forall_app in Hs as [_ Hs]. Qed.

Lemma rg_next_event R P (w : W) :
  stable R P → tx_now w = None → Forall (relies R) (sched w) → P (db w) (ext w) →
  let '(_, w') := next_event w in
  tx_now w' = None ∧ sched w' `suffix_of` sched w ∧ P (db w') (ext w').
Proof.
  intros HP Hn Hs Hd. unfold next_event. destruct (sched w) as [|e s] eqn:Hsw.
  { split_and!; [done|by rewrite Hsw|done]. }
  apply Forall_cons in Hs as [He Hs]. unfold advance. cbn. rewrite Hn.
  specialize (He (db w) (ext w)). destruct (ev_env e (db w) (ext w)) as [d x]. cbn in *.
  split_and!; [done|rewrite Hsw; cbn; by apply suffix_cons_r|by eapply HP].
Qed.

Lemma rg_mono {A} R P P' (m : M D X A) (Q Q' : res A → D → X → Prop) :
  rg R P m Q → (∀ d x, P' d x → P d x) → (∀ r d x, Q r d x → Q' r d x) → rg R P' m Q'.
Proof. intros Hm HP HQ w Hn Hs Hd. specialize (Hm w Hn Hs (HP _ _ Hd)). destruct (m w). naive_solver. Qed.

(** A pure fact known at the start. *)
Lemma rg_pure {A} R P (φ : Prop) (m : M D X A) (Q : res A → D → X → Prop) :
  (∀ d x, P d x → φ) → (φ → rg R P m Q) → rg R P m Q.
Proof. intros HP Hm w Hn Hs Hd. by apply (Hm (HP _ _ Hd)). Qed.

Lemma rg_ret {A} R P (a : A) (Q : res A → D → X → Prop) :
  (∀ d x, P d x → Q (Ok a) d x) → rg R P (mret a) Q.
Proof. intros HQ w Hn Hs Hd. cbn. auto. Qed.

Lemma rg_raise {A} R P e (Q : res A → D → X → Prop) :
  (∀ d x, P d x → Q (Raise e) d x) → rg R P (raise e) Q.
Proof. intros HQ w Hn Hs Hd. cbn. auto. Qed.

Lemma rg_bind {A B} R P (m : M D X A) (f : A → M D X B) (M0 : res A → D → X → Prop)
    (Q : res B → D → X → Prop) :
  rg R P m M0 → (∀ a, rg R (M0 (Ok a)) (f a) Q) → (∀ e d x, M0 (Raise e) d x → Q (Raise e) d x) →
  rg R P (m ≫= f) Q.
Proof.
  intros Hm Hf He w Hn Hs Hd. specialize (Hm w Hn Hs Hd). unfold mbind, M_bind.
  destruct (m w) as [[a|e] w1]; destruct Hm as (Hn1 & Hs1 & HM); [|naive_solver].
  specialize (Hf a w1 Hn1 (relies_suffix _ _ _ Hs1 Hs) HM). destruct (f a w1).
  destruct Hf as (? & ? & ?). split_and!; [done|by etrans|done].
Qed.

(** The same when the first command keeps the assertion and yields a pure fact. *)
Lemma rg_bind_pure {A B} R P (φ : res A → Prop) (m : M D X A) (f : A → M D X B) (Q : res B → D → X → Prop) :
  rg R P m (λ r d x, P d x ∧ φ r) → (∀ a, φ (Ok a) → rg R P (f a) Q) →
  (∀ e d x, P d x → φ (Raise e) → Q (Raise e) d x) → rg R P (m ≫= f) Q.
Proof.
  intros Hm Hf He. eapply rg_bind; [exact Hm| |].
  - intros a. eapply (rg_pure _ _ (φ (Ok a))); [by intros d x [_ ?]|]. intros Ha.
    eapply rg_mono; [by apply Hf|by intros d x [? _]|done].
  - intros e d x [? ?]. by apply He.
Qed.

Lemma rg_lift {A} R P (r : res A) : rg R P (lift r : M D X A) (λ r' d x, P d x ∧ r' = r).
Proof. destruct r; [by apply rg_ret|by apply rg_raise]. Qed.

Lemma rg_bind_ok {A B} R P (a : A) (f : A → M D X B) (Q : res B → D → X → Prop) :
  rg R P (f a) Q → rg R P (lift (Ok a) ≫= f) Q.
Proof. exact id. Qed.

Lemma rg_catch {A} R P (m : M D X A) h (M0 Q : res A → D → X → Prop) :
  rg R P m M0 → (∀ e, rg R (M0 (Raise e)) (h e) Q) → (∀ a d x, M0 (Ok a) d x → Q (Ok a) d x) →
  rg R P (catch m h) Q.
Proof.
  intros Hm Hf He w Hn Hs Hd. specialize (Hm w Hn Hs Hd). unfold catch.
  destruct (m w) as [[a|e] w1]; destruct Hm as (Hn1 & Hs1 & HM); [naive_solver|].
  specialize (Hf e w1 Hn1 (relies_suffix _ _ _ Hs1 Hs) HM). destruct (h e w1).
  destruct Hf as (? & ? & ?). split_and!; [done|by etrans|done].
Qed.

Lemma rg_stmt {A} R P (f : Z → D → res (A * D)) (Q : res A → D → X → Prop) :
  stable R P →
  (∀ now d x, P d x → Q (Raise ConnectionError) d x ∧
     match f now d with
     | Ok (a, d') => Q (Ok a) d' x ∧ Q (Raise ConnectionError) d' x
     | Raise e => Q (Raise e) d x end) →
  rg R P (stmt f) Q.
Proof.
  intros HP Hf w Hn Hs Hd. unfold stmt. pose proof (rg_next_event R P w HP Hn Hs Hd) as H1.
  destruct (next_event w) as [flt w1]. destruct H1 as (Hn1 & Hs1 & Hd1).
  destruct (Hf (sql_now w1) (db w1) (ext w1) Hd1) as [HE HQ].
  destruct flt; destruct (f _ _) as [[a d']|e]; cbn; naive_solver.
Qed.

Lemma rg_query {A} R P (f : Z → D → A) (Q : res A → D → X → Prop) :
  stable R P → (∀ now d x, P d x → Q (Raise ConnectionError) d x ∧ Q (Ok (f now d)) d x) →
  rg R P (query f) Q.
Proof. intros HP Hf. apply rg_stmt; [done|]. naive_solver. Qed.

Lemma rg_transaction {A} R P (m : M D X A) (Q : res A → D → X → Prop) :
  stable R P → (∀ d x, P d x → Q (Raise ConnectionError) d x) →
  (∀ now d x, P d x →
     wpt now m (λ a d', Q (Ok a) d' x ∧ Q (Raise ConnectionError) d' x) (λ e _, Q (Raise e) d x) d) →
  rg R P (transaction m) Q.
Proof.
  intros HP HE Hm w Hn Hs Hd. unfold transaction. rewrite Hn.
  pose proof (rg_next_event R P w HP Hn Hs Hd) as H0.
  destruct (next_event w) as [flt w0]. destruct H0 as (Hn0 & Hs0 & Hd0).
  destruct flt; [|cbn; split_and!; auto..].
  specialize (Hm (clock w0) (db w0) (ext w0) Hd0 (w0 <| tx_now := Some (clock w0) |>) eq_refl eq_refl).
  destruct (m _) as [[a|e] w1]; destruct Hm as (Hn1 & Hs1 & Hx1 & HQ); cbn in Hs1, Hx1.
  - pose proof (next_event_in_tx w1 _ Hn1) as H2. destruct (next_event w1) as [flt' w2].
    destruct H2 as (Hd2 & Hx2 & _ & Hs2). destruct HQ as [HQ1 HQ2].
    assert (sched w2 `suffix_of` sched w) by (etrans; [exact Hs2|etrans; [exact Hs1|exact Hs0]]).
    destruct flt'; cbn; rewrite ?Hd2, ?Hx2, ?Hx1; split_and!; auto.
  - cbn. rewrite Hx1. split_and!; [done|by etrans|done].
Qed.

Lemma rg_external {A} R P (f : Z → X → res A * X) (Q : res A → D → X → Prop) :
  stable R P →
  (∀ now d x, P d x → Q (Raise ConnectionError) d x ∧
     let '(r, x') := f now x in Q r d x' ∧ Q (Raise ConnectionError) d x') →
  rg R P (external f) Q.
Proof.
  intros HP Hf w Hn Hs Hd. unfold external. pose proof (rg_next_event R P w HP Hn Hs Hd) as H1.
  destruct (next_event w) as [flt w1]. destruct H1 as (Hn1 & Hs1 & Hd1).
  destruct (Hf (clock w1) (db w1) (ext w1) Hd1) as [HE HQ].
  destruct flt; destruct (f _ _) as [r x']; cbn; naive_solver.
Qed.

Lemma rg_datetime_now R P (Q : res Z → D → X → Prop) :
  (∀ t d x, P d x → Q (Ok t) d x) → rg R P (datetime_now : M D X Z) Q.
Proof. intros HQ w Hn Hs Hd. cbn. auto. Qed.

Lemma rg_uuid4 R P supply (Q : res string → D → X → Prop) :
  (∀ s d x, P d x → Q (Ok s) d x) → rg R P (uuid4 supply : M D X string) Q.
Proof. intros HQ w Hn Hs Hd. cbn. auto. Qed.

(** An invariant of [wpi] that the rely respects is an assertion of [rg]. *)
Lemma rg_wpi {A} R P (m : M D X A) (Q : res A → Prop) : stable R P → wpi P m Q → rg R P m (λ r d x, P d x ∧ Q r).
Proof.
  intros HP Hm w Hn Hs Hd.
  assert (Forall (respects P) (sched w)) as Hresp.
  { eapply Forall_impl; [exact Hs|]. intros e He d x Hx. eapply HP; [exact Hx|apply He]. }
  specialize (Hm w (conj Hn (conj Hd Hresp))). destruct (m w) as [r w'].
  destruct Hm as ((Hn' & HI & _) & Hsuf & HQ). done.
Qed.

Lemma rg_preserves {A} R P (m : M D X A) : stable R P → preserves P m → rg R P m (λ _, P).
Proof. intros HP Hm. eapply rg_mono; [by eapply rg_wpi|done|by intros r d x [? _]]. Qed.

(** What holds of the result whatever others do *)
Lemma rg_result {A} R P (m : M D X A) (Q : res A → Prop) : wpi (λ _ _, True) m Q → rg R P m (λ r _ _, Q r).
Proof. intros Hm. eapply rg_mono; [by apply (rg_wpi _ (λ _ _, True))|done|by intros r d x [_ ?]]. Qed.

Lemma rg_modify_ext R P f (Q : res unit → D → X → Prop) :
  (∀ d x, P d x → Q (Ok tt) d (f x)) → rg R P (modify_ext f : M D X unit) Q.
Proof. intros HQ w Hn Hs Hd. cbn. auto. Qed.

Lemma rg_get_ext R P (Q : res X → D → X → Prop) :
  (∀ d x, P d x → Q (Ok x) d x) → rg R P (get_ext : M D X X) Q.
Proof. intros HQ w Hn Hs Hd. cbn. auto. Qed.

(** A command that preserves the assertion, then the rest. *)
Lemma rg_preserves_bind {A B} R P (m : M D X A) (f : A → M D X B) (Q : res B → D → X → Prop) :
  stable R P → preserves P m → (∀ a, rg R P (f a) Q) → (∀ e d x, P d x → Q (Raise e) d x) → rg R P (m ≫= f) Q.
Proof. intros HP Hm Hf He. eapply rg_bind; [by apply rg_preserves|done|done]. Qed.

Lemma rg_for_each {A B} R (l : list A) (acc : B) body (P : B → D → X → Prop) (Q : res B → D → X → Prop) :
  (∀ b d x, P b d x → Q (Ok b) d x) →
  (∀ acc a, a ∈ l → rg R (P acc) (body acc a : M D X B)
     (λ r d x, match r with Ok b => P b d x | Raise e => Q (Raise e) d x end)) →
  rg R (P acc) (for_each l acc body) Q.
Proof.
  revert acc. induction l as [|a l IH]; intros acc HPQ Hb; simpl; [apply rg_ret; auto|].
  eapply rg_bind; [apply Hb; by left| |done]. intros b. apply IH; [done|].
  intros. apply Hb. by right.
Qed.

(** Nobody interferes: every assertion is stable. *)
Definition alone : D → X → D → X → Prop := λ d x d' x', d' = d ∧ x' = x.

Lemma stable_alone P : stable alone P.
Proof. by intros d x d' x' HP [-> ->]. Qed.

(** A handler that draws an identifier and runs one transaction, alone. *)
Lemma rg_alone_uuid_transaction {A} supply (m : string → M D X A) d x (Q : res A → D → X → Prop) :
  Q (Raise ConnectionError) d x →
  (∀ id now, wpt now (m id) (λ a d', Q (Ok a) d' x ∧ Q (Raise ConnectionError) d' x) (λ e _, Q (Raise e) d x) d) →
  rg alone (λ d0 x0, d0 = d ∧ x0 = x) (id ← uuid4 supply; transaction (m id)) Q.
Proof.
  intros HE Hm. eapply (rg_bind _ _ _ _ (λ r d0 x0, (d0 = d ∧ x0 = x) ∧ match r with Ok _ => True | Raise _ => False end)).
  - by apply rg_uuid4.
  - intros s. eapply (rg_mono _ (λ d0 x0, d0 = d ∧ x0 = x)); [|by intros d0 x0 [? _]|done].
    apply rg_transaction; [apply stable_alone|by intros d0 x0 [-> ->]|]. intros now d0 x0 [-> ->]. apply Hm.
  - by intros e d0 x0 [_ []].
Qed.

End rg.

(** ** Handlers that leave some process-external state alone *)
Section ext_only.
Context {D X : Type} (P : X → Prop).
Definition on_ext : D → X → Prop := λ _ x, P x.

Lemma ext_only_stmt {A} (f : Z → D → res (A * D)) : preserves on_ext (stmt f).
Proof. apply wpi_stmt; [done|]. intros now d x Hx. by destruct (f now d) as [[a d']|e]. Qed.

(** Statements in a transaction never touch it. *)
Definition tx_safe {A} (m : M D X A) : Prop := ∀ now d, wpt now m (λ _ _, True) (λ _ _, True) d.

Lemma tx_safe_stmt {A} (f : Z → D → res (A * D)) : tx_safe (stmt f).
Proof. intros now d. apply wpt_stmt; [done|]. by destruct (f now d) as [[a d']|e]. Qed.

Lemma tx_safe_bind {A B} (m : M D X A) (f : A → M D X B) : tx_safe m → (∀ a, tx_safe (f a)) → tx_safe (m ≫= f).
Proof. intros Hm Hf now d. apply wpt_bind. eapply wpt_mono; [apply Hm| |done]. intros a d' _. apply Hf. Qed.

Lemma tx_safe_for_each {A B} (l : list A) (acc : B) body :
  (∀ acc a, tx_safe (body acc a : M D X B)) → tx_safe (for_each l acc body).
Proof.
  intros Hb now d. apply (wpt_for_each now l acc body (λ _ _, True)); [done|].
  intros acc' a d' _ _. apply Hb.
Qed.

Lemma ext_only_transaction {A} (m : M D X A) : tx_safe m → preserves on_ext (transaction m).
Proof.
  intros Hm. apply wpi_transaction; [done|]. intros now d x Hx.
  eapply wpt_mono; [apply Hm|done|done].
Qed.
End ext_only.

Ltac tx_safe_step :=
  cbv beta iota;
  lazymatch goal with
  | |- tx_safe (mret _) => intros ??; by apply wpt_ret
  | |- tx_safe (raise _) => intros ??; by apply wpt_raise
  | |- tx_safe (mbind _ _) => apply tx_safe_bind; [|intros ?]
  | |- tx_safe (query _) => apply tx_safe_stmt
  | |- tx_safe (stmt _) => apply tx_safe_stmt
  | |- tx_safe (uuid4 _) => intros ??; by apply wpt_uuid4
  | |- tx_safe (for_each _ _ _) => apply tx_safe_for_each; intros ??
  | |- tx_safe (if ?b then _ else _) => destruct b
  | |- tx_safe (match ?x with _ => _ end) => destruct x
  end.

(** ** One transaction, undisturbed: whatever fails, it happened at one time or not at all *)
Section undisturbed.
Context {D X : Type}.

Definition undisturbed (w : World D X) : Prop :=
  tx_now w = None ∧ Forall (λ e, ∀ d x, ev_env e d x = (d, x)) (sched w).

Lemma undisturbed_next_event (w : World D X) :
  undisturbed w →
  let '(_, w') := next_event w in
  undisturbed w' ∧ db w' = db w ∧ ext w' = ext w ∧ clock w ≤ clock w'.
Proof.
  intros [Hn Hs]. unfold next_event. destruct (sched w) as [|e s] eqn:Hsw.
  { unfold undisturbed. rewrite Hsw. split_and!; [done..|lia]. }
  apply Forall_cons in Hs as [He Hs]. unfold advance, undisturbed. cbn. rewrite Hn, He. cbn.
  rewrite Hsw. split_and!; [done..|lia].
Qed.

(** What a transaction did: it returned, it raised without effect, or it took effect
    but the acknowledgement was lost. *)
Definition happened {A} (Q : Z → A → D → Prop) (w : World D X) (r : res A) (w' : World D X) : Prop :=
  ext w' = ext w ∧ tx_now w' = None ∧
  match r with
  | Ok a => ∃ now, clock w ≤ now ∧ Q now a (db w')
  | Raise _ => db w' = db w ∨ ∃ now a, clock w ≤ now ∧ Q now a (db w')
  end.

Lemma transaction_happened {A} (m : M D X A) (Q : Z → A → D → Prop) w :
  undisturbed w → (∀ now, wpt now m (Q now) (λ _ _, True) (db w)) →
  let '(r, w') := transaction m w in happened Q w r w'.
Proof.
  intros Hw Hm. unfold transaction, happened. assert (tx_now w = None) as -> by apply Hw.
  pose proof (undisturbed_next_event w Hw) as H0. destruct (next_event w) as [flt w0].
  destruct H0 as ([Hn0 _] & Hd0 & Hx0 & Hc0). destruct flt; [|split_and!; by auto..].
  rewrite <- Hd0 in Hm.
  specialize (Hm (clock w0) (w0 <| tx_now := Some (clock w0) |>) eq_refl eq_refl).
  destruct (m _) as [[a|e] w1]; destruct Hm as (Hn1 & _ & Hx1 & HQ); cbn in Hx1.
  - pose proof (next_event_in_tx w1 _ Hn1) as H2. destruct (next_event w1) as [flt' w2].
    destruct H2 as (Hd2 & Hx2 & _). rewrite <- Hd2 in HQ.
    destruct flt'; cbn; rewrite Hx2, Hx1; split_and!; eauto.
  - cbn. rewrite Hx1. split_and!; [done..|]. by left.
Qed.
End undisturbed.

(** ** Automation

    [tx_step] and [inv_step] apply the rule of the leading command; the lemmas of
    the operations themselves are found in the [teardrop] database. *)
Ltac tx_step :=
  cbv beta iota;
  lazymatch goal with
  | |- wpt _ _ _ _ _ ∧ _ => split
  | |- wpt _ (mret _) _ _ _ => apply wpt_ret
  | |- wpt _ (lift _) _ _ _ => unfold lift
  | |- wpt _ (raise _) _ _ _ => apply wpt_raise
  | |- wpt _ (mbind _ _) _ _ _ => apply wpt_bind
  | |- wpt _ (query _) _ _ _ => apply wpt_query
  | |- wpt _ (stmt _) _ _ _ => apply wpt_stmt
  | |- wpt _ (catch_if _ _ _) _ _ _ => unfold catch_if; apply wpt_catch
  | |- wpt _ (catch _ _) _ _ _ => apply wpt_catch
  | |- wpt _ (transaction _) _ _ _ => apply wpt_savepoint
  | |- wpt _ (uuid4 _) _ _ _ => apply wpt_uuid4; intros ?
  | |- wpt _ datetime_now _ _ _ => apply wpt_datetime_now; intros ?
  | |- wpt _ (if ?b then _ else _) _ _ _ => destruct b eqn:?
  | |- wpt _ (match ?x with _ => _ end) _ _ _ => destruct x eqn:?
  end.

Ltac inv_step :=
  cbv beta iota;
  lazymatch goal with
  | |- preserves _ _ => unfold preserves
  | |- _ ∧ wpi _ _ _ => split
  | |- wpi _ (mret _) _ => apply wpi_ret
  | |- wpi _ (lift _) _ => unfold lift
  | |- wpi _ (raise _) _ => apply wpi_raise
  | |- wpi _ (mbind _ _) _ => apply wpi_bind
  | |- wpi _ (query _) _ => apply wpi_query
  | |- wpi _ (stmt _) _ => apply wpi_stmt
  | |- wpi _ (catch_if _ _ _) _ => unfold catch_if; apply wpi_catch
  | |- wpi _ (catch _ _) _ => apply wpi_catch
  | |- wpi _ (external _) _ => apply wpi_external
  | |- wpi _ (transaction _) _ => apply wpi_transaction
  | |- wpi _ (modify_ext _) _ => apply wpi_modify_ext
  | |- wpi _ get_ext _ => apply wpi_get_ext
  | |- wpi _ yield_point _ => apply wpi_yield_point
  | |- wpi _ datetime_now _ => apply wpi_datetime_now; intros ?
  | |- wpi _ (uuid4 _) _ => apply wpi_uuid4; intros ?
  | |- wpi _ (if ?b then _ else _) _ => destruct b eqn:?
  | |- wpi _ (match ?x with _ => _ end) _ => destruct x eqn:?
  end.

Ltac solo_step :=
  cbv beta iota;
  lazymatch goal with
  | |- wps (mret _) _ _ _ => apply wps_ret
  | |- wps (lift _) _ _ _ => unfold lift
  | |- wps (raise _) _ _ _ => apply wps_raise
  | |- wps (mbind _ _) _ _ _ => apply wps_bind
  | |- wps (query _) _ _ _ => apply wps_query
  | |- wps (stmt _) _ _ _ => apply wps_stmt
  | |- wps (catch_if _ _ _) _ _ _ => unfold catch_if; apply wps_catch
  | |- wps (catch _ _) _ _ _ => apply wps_catch
  | |- wps (external _) _ _ _ => apply wps_external
  | |- wps (transaction _) _ _ _ => apply wps_transaction
  | |- wps (modify_ext _) _ _ _ => apply wps_modify_ext
  | |- wps get_ext _ _ _ => apply wps_get_ext
  | |- wps datetime_now _ _ _ => apply wps_datetime_now; intros ?
  | |- wps (uuid4 _) _ _ _ => apply wps_uuid4; intros ?
  | |- wps (if ?b then _ else _) _ _ _ => destruct b eqn:?
  | |- wps (match ?x with _ => _ end) _ _ _ => destruct x eqn:?
  end.

Ltac quiet_step :=
  cbv beta iota;
  lazymatch goal with
  | |- wpq (mret _) _ _ => apply wpq_ret
  | |- wpq (lift _) _ _ => unfold lift
  | |- wpq (raise _) _ _ => apply wpq_raise
  | |- wpq (mbind _ _) _ _ => apply wpq_bind
  | |- wpq (query _) _ _ => apply wpq_query; cbn
  | |- wpq (stmt _) _ _ => apply wpq_stmt; cbn
  | |- wpq (catch_if _ _ _) _ _ => unfold catch_if; apply wpq_catch
  | |- wpq (catch _ _) _ _ => apply wpq_catch
  | |- wpq (external _) _ _ => apply wpq_external
  | |- wpq (transaction _) _ _ => apply wpq_transaction; [done|]
  | |- wpq (modify_ext _) _ _ => apply wpq_modify_ext
  | |- wpq get_ext _ _ => apply wpq_get_ext
  | |- wpq yield_point _ _ => apply wpq_yield_point
  | |- wpq datetime_now _ _ => apply wpq_datetime_now
  | |- wpq (uuid4 _) _ _ => apply wpq_uuid4; cbn
  | |- wpq (if ?b then _ else _) _ _ => destruct b eqn:?
  | |- wpq (match ?x with _ => _ end) _ _ => destruct x eqn:?
  end.

(** [preserves] by composition, the lemmas of the operations from a hint database. *)
Ltac preserve_step :=
  cbv beta iota;
  lazymatch goal with
  | |- preserves _ (mret _) => apply preserves_ret
  | |- preserves _ (raise _) => apply preserves_raise
  | |- preserves _ (mbind _ _) => apply preserves_bind; [|intros ?]
  | |- preserves _ (catch _ _) => apply preserves_catch; [|intros ?]
  | |- preserves _ (query _) => apply preserves_query
  | |- preserves (on_ext _) (stmt _) => apply ext_only_stmt
  | |- preserves (on_ext _) (transaction _) => apply ext_only_transaction; repeat tx_safe_step
  | |- preserves _ (uuid4 _) => apply wpi_uuid4; intros ?
  | |- preserves _ datetime_now => apply wpi_datetime_now; intros ?
  | |- preserves _ get_ext => apply wpi_get_ext; intros ??
  | |- preserves _ (for_each _ _ _) => apply preserves_for_each; intros ??
  | |- preserves _ (if ?b then _ else _) => destruct b
  | |- preserves _ (match ?x with _ => _ end) => destruct x
  end.
Tactic Notation "preserve" "with" ident(db) :=
  repeat (intros; first [done | solve [eauto 2 with db nocore] | preserve_step]).

(** The same, as far as the rules go, closing what is immediate. *)
Ltac tx_auto := repeat (intros; first [done | tx_step]).
Ltac inv_auto := repeat (intros; first [done | inv_step]).
Ltac solo_auto := repeat (intros; first [done | solo_step]).
Ltac quiet_auto := repeat (intros; first [done | quiet_step]).
