(* ===== verification/Bytes.v ===== *)
(** * Bytes, hexadecimal text and SHA-256

    The parts of Python's standard library the commitment code relies on:
    [bytes.fromhex], [bytes.hex] and [hashlib.sha256], as executable
    definitions.  A byte is an [ascii] (eight bits), a [bytes] value a list of
    them, and a Python string of ASCII text a [string]. *)

From S2P Require Export Prelude.

Abbreviation bytes := (list Ascii.ascii).

Definition byte_val (c : Ascii.ascii) : Z := Z.of_N (Ascii.N_of_ascii c).
Definition byte_of (z : Z) : Ascii.ascii := Ascii.ascii_of_N (Z.to_N z).

(** [s.encode("ascii")] *)
Definition encode_ascii (s : string) : bytes := String.list_ascii_of_string s.

(** ** Hexadecimal text *)

(** The digit value of a character in bases up to 16. *)
Definition hex_value (c : Ascii.ascii) : option Z :=
  let n := byte_val c in
  if (48 <=? n) && (n <=? 57) then Some (n - 48)
  else if (97 <=? n) && (n <=? 102) then Some (n - 87)
  else if (65 <=? n) && (n <=? 70) then Some (n - 55)
  else None.

Definition hex_digit (d : Z) : Ascii.ascii := byte_of (if d <? 10 then 48 + d else 87 + d).

(** [b.hex()] *)
Definition hex_chars (b : bytes) : list Ascii.ascii :=
  b ≫= λ c, [hex_digit (byte_val c / 16); hex_digit (byte_val c mod 16)].
Definition hex (b : bytes) : string := String.string_of_list_ascii (hex_chars b).

(** The whitespace [bytes.fromhex] skips between two bytes. *)
Definition hex_space (c : Ascii.ascii) : bool :=
  let n := byte_val c in ((9 <=? n) && (n <=? 13)) || (n =? 32).

(** [bytes.fromhex(s)]: [None] stands for the [ValueError]. *)
Fixpoint fromhex_chars (l : list Ascii.ascii) : option bytes :=
  match l with
  | [] => Some []
  | c :: l' =>
      if hex_space c then fromhex_chars l'
      else
        match hex_value c, l' with
        | Some h, d :: l'' =>
            match hex_value d with
            | Some v => cons (byte_of (16 * h + v)) <$> fromhex_chars l''
            | None => None
            end
        | _, _ => None
        end
  end.
Definition fromhex (s : string) : option bytes := fromhex_chars (String.list_ascii_of_string s).

Definition is_lower_hex (c : Ascii.ascii) : bool :=
  let n := byte_val c in ((48 <=? n) && (n <=? 57)) || ((97 <=? n) && (n <=? 102)).

(** The regular expression [^[0-9a-f]{64}$] under [fullmatch]. *)
Definition hex64 (s : string) : bool :=
  (String.length s =? 64)%nat && forallb is_lower_hex (String.list_ascii_of_string s).

Lemma ascii_cases (P : Ascii.ascii → bool) :
  forallb (λ n, P (Ascii.ascii_of_nat n)) (seq 0 256) = true → ∀ c, P c = true.
Proof.
  intros HP c. rewrite forallb_forall in HP. rewrite <- (Ascii.ascii_nat_embedding c). apply HP.
  apply in_seq. pose proof (Ascii.nat_ascii_bounded c). lia.
Qed.

(** One byte through its two digits, and back. *)
Lemma hex_value_digits c :
  hex_value (hex_digit (byte_val c / 16)) = Some (byte_val c / 16) ∧
  hex_value (hex_digit (byte_val c mod 16)) = Some (byte_val c mod 16) ∧
  hex_space (hex_digit (byte_val c / 16)) = false ∧
  byte_of (16 * (byte_val c / 16) + byte_val c mod 16) = c.
Proof.
  assert (bool_decide (hex_value (hex_digit (byte_val c / 16)) = Some (byte_val c / 16) ∧
    hex_value (hex_digit (byte_val c mod 16)) = Some (byte_val c mod 16) ∧
    hex_space (hex_digit (byte_val c / 16)) = false ∧
    byte_of (16 * (byte_val c / 16) + byte_val c mod 16) = c) = true) as H; [|by apply bool_decide_eq_true in H].
  revert c. apply ascii_cases. vm_compute. done.
Qed.

Lemma fromhex_hex_chars b : fromhex_chars (hex_chars b) = Some b.
Proof.
  induction b as [|c b IH]; [done|]. unfold hex_chars in *. cbn [mbind list_bind app fromhex_chars].
  destruct (hex_value_digits c) as (-> & -> & -> & ->). by rewrite IH.
Qed.

Lemma fromhex_hex b : fromhex (hex b) = Some b.
Proof. unfold fromhex, hex. rewrite String.list_ascii_of_string_of_list_ascii. apply fromhex_hex_chars. Qed.

(** Two lower-case digits are the text of the byte they denote. *)
Lemma lower_hex_pair c d :
  is_lower_hex c = true → is_lower_hex d = true →
  hex_space c = false ∧ ∃ h v, hex_value c = Some h ∧ hex_value d = Some v ∧
    hex_chars [byte_of (16 * h + v)] = [c; d].
Proof.
  assert (∀ c, (if is_lower_hex c then negb (hex_space c) && match hex_value c with
     | Some h => (0 <=? h) && (h <? 16) && bool_decide (hex_digit h = c) | None => false end else true) = true) as H
    by (apply ascii_cases; vm_compute; done).
  intros Hc Hd. pose proof (H c) as H1. pose proof (H d) as H2. rewrite Hc in H1. rewrite Hd in H2.
  destruct (hex_value c) as [h|]; [|by rewrite andb_false_r in H1].
  destruct (hex_value d) as [v|]; [|by rewrite andb_false_r in H2]. case_bool.
  split; [done|]. exists h, v. split_and!; [done..|]. unfold hex_chars. cbn [mbind list_bind app].
  assert (byte_val (byte_of (16 * h + v)) = 16 * h + v) as ->.
  { unfold byte_val, byte_of. rewrite Ascii.N_ascii_embedding by lia. lia. }
  rewrite (Z.mul_comm 16), Z.div_add_l, Z.div_small, Z.add_0_r by lia.
  rewrite Z.add_comm, Z.mod_add, Z.mod_small by lia. congruence.
Qed.

Lemma lower_hex_chars n l :
  length l = (2 * n)%nat → forallb is_lower_hex l = true →
  ∃ b, length b = n ∧ fromhex_chars l = Some b ∧ hex_chars b = l.
Proof.
  revert l. induction n as [|n IH]; intros l Hl Hd.
  { exists []. destruct l; [done|simpl in Hl; lia]. }
  destruct l as [|c [|d l]]; [simpl in Hl; lia..|]. cbn in Hd. case_bool.
  destruct (IH l) as (b & Hb & Hf & Hh); [simpl in Hl; lia|done|].
  destruct (lower_hex_pair c d) as (Hsp & h & v & Hc & Hv & Hcd); [done..|].
  exists (byte_of (16 * h + v) :: b). cbn [fromhex_chars length]. rewrite Hsp, Hc, Hv, Hf, Hb.
  split_and!; [done..|]. unfold hex_chars in *. cbn [mbind list_bind] in *. rewrite app_nil_r in Hcd.
  by rewrite Hcd, Hh.
Qed.

Lemma length_list_ascii s : length (String.list_ascii_of_string s) = String.length s.
Proof. induction s; cbn; congruence. Qed.

(** A 64-digit lower-case text is the text of exactly one 32-byte value. *)
Lemma hex64_bytes s : hex64 s = true → ∃ b, length b = 32%nat ∧ fromhex s = Some b ∧ hex b = s.
Proof.
  unfold hex64. intros [Hl Hd]%andb_true_iff. apply Nat.eqb_eq in Hl.
  destruct (lower_hex_chars 32 (String.list_ascii_of_string s)) as (b & Hb & Hf & Hh);
    [by rewrite length_list_ascii|done|].
  exists b. split_and!; [done..|]. unfold hex. by rewrite Hh, String.string_of_list_ascii_of_string.
Qed.

Lemma length_hex_chars b : length (hex_chars b) = (2 * length b)%nat.
Proof. induction b as [|c b IH]; [done|]. cbn in *. unfold hex_chars in IH. cbn in IH. lia. Qed.

Lemma hex_hex64 b : length b = 32%nat → hex64 (hex b) = true.
Proof.
  intros Hb. unfold hex64, hex. rewrite <- length_list_ascii, String.list_ascii_of_string_of_list_ascii,
    length_hex_chars, Hb. cbn [Nat.mul Nat.add Nat.eqb andb].
  clear Hb. induction b as [|c b IH]; [done|]. unfold hex_chars in *. cbn [mbind list_bind app forallb].
  rewrite IH, andb_true_r. revert c. apply (ascii_cases (λ c, is_lower_hex (hex_digit (byte_val c / 16)) &&
    is_lower_hex (hex_digit (byte_val c mod 16)))). by vm_compute.
Qed.

(** ** SHA-256 (FIPS 180-4) on 32-bit words *)
Module Sha256.
Definition mask : Z := 4294967295.
Definition w32 (z : Z) : Z := Z.land z mask.
Definition rotr (x n : Z) : Z := Z.lor (Z.shiftr x n) (w32 (Z.shiftl x (32 - n))).

Definition Ch (x y z : Z) : Z := Z.lxor (Z.land x y) (Z.land (Z.lxor x mask) z).
Definition Maj (x y z : Z) : Z := Z.lxor (Z.land x y) (Z.lxor (Z.land x z) (Z.land y z)).
Definition Sigma0 (x : Z) : Z := Z.lxor (rotr x 2) (Z.lxor (rotr x 13) (rotr x 22)).
Definition Sigma1 (x : Z) : Z := Z.lxor (rotr x 6) (Z.lxor (rotr x 11) (rotr x 25)).
Definition sigma0 (x : Z) : Z := Z.lxor (rotr x 7) (Z.lxor (rotr x 18) (Z.shiftr x 3)).
Definition sigma1 (x : Z) : Z := Z.lxor (rotr x 17) (Z.lxor (rotr x 19) (Z.shiftr x 10)).

Definition K : list Z := [
  1116352408; 1899447441; 3049323471; 3921009573; 961987163; 1508970993; 2453635748; 2870763221;
  3624381080; 310598401; 607225278; 1426881987; 1925078388; 2162078206; 2614888103; 3248222580;
  3835390401; 4022224774; 264347078; 604807628; 770255983; 1249150122; 1555081692; 1996064986;
  2554220882; 2821834349; 2952996808; 3210313671; 3336571891; 3584528711; 113926993; 338241895;
  666307205; 773529912; 1294757372; 1396182291; 1695183700; 1986661051; 2177026350; 2456956037;
  2730485921; 2820302411; 3259730800; 3345764771; 3516065817; 3600352804; 4094571909; 275423344;
  430227734; 506948616; 659060556; 883997877; 958139571; 1322822218; 1537002063; 1747873779;
  1955562222; 2024104815; 2227730452; 2361852424; 2428436474; 2756734187; 3204031479; 3329325298].

Record state := MkState { a : Z; b : Z; c : Z; d : Z; e : Z; f : Z; g : Z; h : Z }.

Definition init : state :=
  MkState 1779033703 3144134277 1013904242 2773480762 1359893119 2600822924 528734635 1541459225.

Definition round (s : state) (kw : Z * Z) : state :=
  let t1 := w32 (h s + Sigma1 (e s) + Ch (e s) (f s) (g s) + kw.1 + kw.2) in
  let t2 := w32 (Sigma0 (a s) + Maj (a s) (b s) (c s)) in
  MkState (w32 (t1 + t2)) (a s) (b s) (c s) (w32 (d s + t1)) (e s) (f s) (g s).

(** The message schedule, newest word first. *)
Fixpoint schedule (n : nat) (w : list Z) : list Z :=
  match n with
  | O => w
  | S n =>
      schedule n (w32 (sigma1 (nth 1 w 0) + nth 6 w 0 + sigma0 (nth 14 w 0) + nth 15 w 0) :: w)
  end.

Definition compress (s : state) (block : list Z) : state :=
  let r := foldl round s (combine K (rev (schedule 48 (rev block)))) in
  MkState (w32 (a s + a r)) (w32 (b s + b r)) (w32 (c s + c r)) (w32 (d s + d r))
          (w32 (e s + e r)) (w32 (f s + f r)) (w32 (g s + g r)) (w32 (h s + h r)).

(** Big-endian bytes of a word, and words of bytes. *)
Definition be_bytes (n : nat) (x : Z) : bytes :=
  map (λ i, byte_of (Z.land (Z.shiftr x (8 * Z.of_nat (n - 1 - i))) 255)) (seq 0 n).

Fixpoint be_words (l : list Z) : list Z :=
  match l with
  | x :: y :: z :: t :: l' =>
      Z.lor (Z.shiftl x 24) (Z.lor (Z.shiftl y 16) (Z.lor (Z.shiftl z 8) t)) :: be_words l'
  | _ => []
  end.

Definition pad (m : bytes) : bytes :=
  m ++ byte_of 128 :: replicate ((119 - length m mod 64) mod 64)%nat (byte_of 0)
    ++ be_bytes 8 (8 * Z.of_nat (length m)).

Fixpoint blocks (n : nat) (s : state) (l : list Z) : state :=
  match n with
  | O => s
  | S n => blocks n (compress s (take 16 l)) (drop 16 l)
  end.

Definition digest (s : state) : bytes :=
  be_bytes 4 (a s) ++ be_bytes 4 (b s) ++ be_bytes 4 (c s) ++ be_bytes 4 (d s) ++
  be_bytes 4 (e s) ++ be_bytes 4 (f s) ++ be_bytes 4 (g s) ++ be_bytes 4 (h s).
End Sha256.

(** [hashlib.sha256(m).digest()] and [.hexdigest()] *)
Definition sha256 (m : bytes) : bytes :=
  let p := Sha256.pad m in
  Sha256.digest (Sha256.blocks (length p / 64) Sha256.init (Sha256.be_words (map byte_val p))).
Definition sha256_hex (m : bytes) : string := hex (sha256 m).

Example sha256_empty :
  sha256_hex [] = "e3b0c44298fc1c149afbf4c8996fb92427ae41e4649b934ca495991b7852b855".
Proof. vm_compute. reflexivity. Qed.

Example sha256_abc :
  sha256_hex (encode_ascii "abc") = "ba7816bf8f01cfea414140de5dae2223b00361a396177a9cb410ff61f20015ad".
Proof. vm_compute. reflexivity. Qed.

Example sha256_two_blocks :
  sha256_hex (encode_ascii "abcdbcdecdefdefgefghfghighijhijkijkljklmklmnlmnomnopnopq")
  = "248d6a61d20638b8e5c026930c3e6039a33ce45964ff2167f6ecedd419db06c1".
Proof. vm_compute. reflexivity. Qed.

Lemma length_be_bytes n x : length (Sha256.be_bytes n x) = n.
Proof. unfold Sha256.be_bytes. by rewrite length_map, length_seq. Qed.

Lemma length_sha256 m : length (sha256 m) = 32%nat.
Proof. unfold sha256, Sha256.digest. by rewrite !length_app, !length_be_bytes. Qed.

Lemma sha256_hex64 m : hex64 (sha256_hex m) = true.
Proof. apply hex_hex64, length_sha256. Qed.

#[global] Opaque sha256.
