(* ===== verification/Merkle.v ===== *)
(** * Merkle commitments (labeling/commitments.py)

    The RFC 6962 tree over leaf hashes, the audit paths and the RFC 9162
    verifier, over the hexadecimal strings the code stores.

    [merkle_root] and [audit_path] recurse on halves of the list: their first
    argument is the number of Python frames available, and running out of it is
    the [RecursionError] Python raises; [ceil_log2] more frames than the last
    one are enough.  The verifier walks the indices [fn] and [sn] upwards; what
    it accepts is stated by [shape], the sides of the siblings from a leaf to the
    root, and [climb], the hash chain along them. *)

From S2P Require Export Monad Bytes.

Definition HASH_ALGORITHM : string := "rfc6962-sha256".
Definition MAX_BATCH_LEAVES : Z := 4096.

Definition fromhex_error : exn := ValueError "non-hexadecimal number found in fromhex() arg".
Definition recursion_error : exn := RuntimeError "maximum recursion depth exceeded".

Definition bytes_fromhex (s : string) : res bytes :=
  match fromhex s with Some b => Ok b | None => Raise fromhex_error end.

Definition node_preimage (left right : bytes) : bytes := byte_of 1 :: left ++ right.

Definition _node (left right : string) : res string :=
  l ← bytes_fromhex left;
  r ← bytes_fromhex right;
  Ok (sha256_hex (node_preimage l r)).

(** [n.bit_length()] *)
Definition bit_length (n : Z) : Z := if n =? 0 then 0 else Z.log2 (Z.abs n) + 1.

Definition _split (size : Z) : Z := Z.shiftl 1 (bit_length (size - 1) - 1).

Fixpoint merkle_root (frames : nat) (leaves : list string) : res string :=
  match frames with
  | O => Raise recursion_error
  | S frames =>
      match leaves with
      | [] => Raise (ValueError "A Merkle tree requires at least one leaf")
      | [leaf] => Ok leaf
      | _ =>
          let k := Z.to_nat (_split (len leaves)) in
          left ← merkle_root frames (take k leaves);
          right ← merkle_root frames (drop k leaves);
          _node left right
      end
  end.

Fixpoint audit_path (frames : nat) (leaves : list string) (index : Z) : res (list string) :=
  match frames with
  | O => Raise recursion_error
  | S frames =>
      if negb ((0 <=? index) && (index <? len leaves)) then
        Raise (IndexError "Leaf index is outside the tree")
      else if len leaves =? 1 then Ok []
      else
        let k := _split (len leaves) in
        let left := take (Z.to_nat k) leaves in
        let right := drop (Z.to_nat k) leaves in
        if index <? k then
          path ← audit_path frames left index;
          sibling ← merkle_root frames right;
          Ok (path ++ [sibling])
        else
          path ← audit_path frames right (index - k);
          sibling ← merkle_root frames left;
          Ok (path ++ [sibling])
  end.

(** [while not fn & 1 and fn != 0: fn >>= 1; sn >>= 1]; every turn halves [fn]. *)
Fixpoint skip_levels (fuel : nat) (fn sn : Z) : Z * Z :=
  match fuel with
  | O => (fn, sn)
  | S fuel =>
      if (Z.land fn 1 =? 0) && negb (fn =? 0)
      then skip_levels fuel (Z.shiftr fn 1) (Z.shiftr sn 1)
      else (fn, sn)
  end.

(** The loop over the path: [None] is its [return False]. *)
Fixpoint verify_loop (path : list string) (fn sn : Z) (result : string) : res (option (Z * string)) :=
  match path with
  | [] => Ok (Some (sn, result))
  | sibling :: path =>
      if sn =? 0 then Ok None
      else if negb (Z.land fn 1 =? 0) || (fn =? sn) then
        result ← _node sibling result;
        let '(fn, sn) := skip_levels (S (Z.to_nat (Z.log2 fn))) fn sn in
        verify_loop path (Z.shiftr fn 1) (Z.shiftr sn 1) result
      else
        result ← _node result sibling;
        verify_loop path (Z.shiftr fn 1) (Z.shiftr sn 1) result
  end.

Definition verify_path (leaf : string) (index tree_size : Z) (path : list string) (root : string) : bool :=
  if negb ((0 <=? index) && (index <? tree_size)) then false
  else
    match verify_loop path index (tree_size - 1) leaf with
    | Ok (Some (sn, result)) => (sn =? 0) && String.eqb result root
    | Ok None => false
    | Raise _ => false
    end.

(** ** The specification of an inclusion proof

    Level by level, node [f] of the nodes [0..s] is the right child of its parent
    when [f] is odd, the left one when a node follows it, and is promoted
    unchanged when it is the last of an odd number of nodes. *)
Inductive side := SLeft | SRight.

Fixpoint shape (levels : nat) (f s : Z) : list side :=
  match levels with
  | O => []
  | S levels =>
      if s =? 0 then []
      else
        (if Z.odd f then [SLeft] else if f <? s then [SRight] else [])
        ++ shape levels (f / 2) (s / 2)
  end.

(** The preimage of a node from the sibling's side, the sibling and the node. *)
Definition preimage (d : side) (sibling node : string) : option bytes :=
  x ← fromhex sibling; y ← fromhex node;
  Some (match d with SLeft => node_preimage x y | SRight => node_preimage y x end).

Fixpoint climb (sides : list side) (path : list string) (node : string) : option string :=
  match sides, path with
  | [], [] => Some node
  | d :: sides, sibling :: path => m ← preimage d sibling node; climb sides path (sha256_hex m)
  | _, _ => None
  end.

(** Where two proofs of the same root first use the same digest for two
    different preimages. *)
Fixpoint collision (sides : list side) (path path' : list string) (node node' : string)
    : option (bytes * bytes) :=
  match sides, path, path' with
  | d :: sides, x :: path, x' :: path' =>
      m ← preimage d x node; m' ← preimage d x' node';
      if negb (bool_decide (m = m')) && bool_decide (sha256 m = sha256 m') then Some (m, m')
      else collision sides path path' (sha256_hex m) (sha256_hex m')
  | _, _, _ => None
  end.

(** ** The verifier against the specification *)

Lemma land_one_odd n : (Z.land n 1 =? 0) = negb (Z.odd n).
Proof. change 1 with (Z.ones 1) at 1. rewrite Z.land_ones, Zmod_odd by lia. by destruct (Z.odd n). Qed.

Lemma shiftr_half n : Z.shiftr n 1 = n / 2.
Proof. by rewrite Z.shiftr_div_pow2. Qed.

Lemma half_lt h s : 0 ≤ s < 2 ^ Z.of_nat (S h) → 0 ≤ s / 2 < 2 ^ Z.of_nat h.
Proof.
  rewrite Nat2Z.inj_succ, Z.pow_succ_r by lia. intros Hs. split; [apply Z.div_pos; lia|].
  apply Z.div_lt_upper_bound; lia.
Qed.

Lemma half_parity f : f = 2 * (f / 2) + (if Z.odd f then 1 else 0).
Proof. rewrite (Z.div_mod f 2) at 1 by lia. by rewrite Zmod_odd. Qed.

Lemma half_le f s : 0 ≤ f ≤ s → 0 ≤ f / 2 ≤ s / 2.
Proof. intros. split; [apply Z.div_pos|apply Z.div_le_mono]; lia. Qed.

(** More levels than the tree has add nothing. *)
Lemma shape_levels h h' f s :
  0 ≤ s < 2 ^ Z.of_nat h → (h ≤ h')%nat → shape h' f s = shape h f s.
Proof.
  revert h' f s. induction h as [|h IH]; intros h' f s Hs Hh.
  { assert (s = 0) as -> by (simpl in Hs; lia). by destruct h'. }
  destruct h' as [|h']; [lia|]. cbn [shape]. destruct (s =? 0); [done|].
  f_equal. apply IH; [by apply half_lt|lia].
Qed.

(** A promoted node keeps its proof: the inner loop skips the levels without sibling. *)
Lemma skip_levels_shape h fuel f s :
  0 ≤ f ≤ s → s < 2 ^ Z.of_nat h → f ≠ 0 → Z.odd f = true ∨ f = s → f < 2 ^ Z.of_nat fuel →
  let '(f', s') := skip_levels fuel f s in
  ∃ h', (h' < h)%nat ∧ 0 ≤ f' / 2 ≤ s' / 2 ∧ s' / 2 < 2 ^ Z.of_nat h' ∧
    shape h f s = SLeft :: shape h' (f' / 2) (s' / 2).
Proof.
  revert h f s. induction fuel as [|fuel IH]; intros h f s Hf Hs H0 Hl Hfuel; [simpl in Hfuel; lia|].
  cbn [skip_levels]. rewrite land_one_odd, !shiftr_half.
  destruct h as [|h]; [simpl in Hs; lia|].
  assert (0 ≤ s / 2 < 2 ^ Z.of_nat h) as Hs2 by (apply half_lt; lia).
  pose proof (half_le f s Hf) as Hle. destruct (Z.odd f) eqn:Ho; cbn [negb andb].
  - exists h. split_and!; [lia..|]. cbn [shape]. rewrite Ho. by destruct (Z.eqb_spec s 0); [lia|].
  - rewrite (proj2 (Z.eqb_neq f 0)) by done. cbn [negb]. destruct Hl as [? | ->]; [done|].
    pose proof (half_parity s) as Hp. rewrite Ho in Hp.
    assert (s / 2 < 2 ^ Z.of_nat fuel) by (apply (half_lt fuel s); lia).
    specialize (IH h (s / 2) (s / 2) ltac:(lia) ltac:(lia) ltac:(lia) ltac:(by right) ltac:(lia)).
    destruct (skip_levels fuel (s / 2) (s / 2)) as [f' s']. destruct IH as (h' & ? & ? & ? & Hsh).
    exists h'. split_and!; [lia..|]. cbn [shape]. rewrite (proj2 (Z.eqb_neq s 0)), Ho, Z.ltb_irrefl by done.
    by rewrite Hsh.
Qed.

Lemma skip_fuel f : 0 ≤ f → f < 2 ^ Z.of_nat (S (Z.to_nat (Z.log2 f))).
Proof.
  intros Hf. pose proof (Z.log2_nonneg f). rewrite Nat2Z.inj_succ, Z2Nat.id by done.
  destruct (Z.eq_dec f 0) as [->|]; [done|]. pose proof (Z.log2_spec f). lia.
Qed.

(** The verdict of the verifier's loop. *)
Definition verdict (r : res (option (Z * string))) : option string :=
  match r with Ok (Some (sn, result)) => if sn =? 0 then Some result else None | _ => None end.

Lemma verdict_node left right (k : string → res (option (Z * string))) :
  verdict (_node left right ≫= k)
  = (l ← fromhex left; r ← fromhex right; verdict (k (sha256_hex (node_preimage l r)))).
Proof. unfold _node, bytes_fromhex. destruct (fromhex left); [|done]. by destruct (fromhex right). Qed.

Lemma shape_nonempty h f s : 0 ≤ f ≤ s → 0 < s → s < 2 ^ Z.of_nat h → shape h f s ≠ [].
Proof.
  revert f s. induction h as [|h IH]; intros f s Hf H0 Hs; [simpl in Hs; lia|].
  cbn [shape]. rewrite (proj2 (Z.eqb_neq s 0)) by lia.
  destruct (Z.odd f) eqn:Ho; [done|]. destruct (Z.ltb_spec f s); [done|].
  assert (f = s) as -> by lia. pose proof (half_parity s) as Hp. rewrite Ho in Hp.
  apply IH; [lia..|]. apply half_lt. lia.
Qed.

Lemma verify_loop_climbs path h f s result :
  0 ≤ f ≤ s → s < 2 ^ Z.of_nat h →
  verdict (verify_loop path f s result) = climb (shape h f s) path result.
Proof.
  revert h f s result. induction path as [|x path IH]; intros h f s result Hf Hs; cbn [verify_loop].
  { cbn. destruct (Z.eqb_spec s 0) as [->|].
    - rewrite (shape_levels 0 h) by (simpl; lia). done.
    - pose proof (shape_nonempty h f s Hf ltac:(lia) Hs). by destruct (shape h f s). }
  destruct (Z.eqb_spec s 0) as [->|Hs0]; [by rewrite (shape_levels 0 h) by (simpl; lia)|].
  rewrite land_one_odd, negb_involutive. destruct (Z.odd f || (f =? s)) eqn:Hl.
  - rewrite verdict_node. assert (f ≠ 0) as Hf0 by (intros ->; apply orb_true_iff in Hl as [?|?%Z.eqb_eq]; [done|lia]).
    assert (Z.odd f = true ∨ f = s) as Hl' by (apply orb_true_iff in Hl as [?|?%Z.eqb_eq]; auto).
    pose proof (skip_levels_shape h _ f s Hf Hs Hf0 Hl' (skip_fuel f ltac:(lia))) as Hsk.
    destruct (skip_levels _ f s) as [f' s']. destruct Hsk as (h' & ? & Hle & Hlt & ->).
    cbn [climb]. unfold preimage. destruct (fromhex x), (fromhex result); cbn; try done.
    rewrite !shiftr_half. by apply IH.
  - apply orb_false_iff in Hl as [Ho Hne%Z.eqb_neq]. rewrite verdict_node.
    destruct h as [|h]; [simpl in Hs; lia|]. cbn [shape]. rewrite (proj2 (Z.eqb_neq s 0)), Ho by done.
    rewrite (proj2 (Z.ltb_lt f s)) by lia. cbn. unfold preimage. destruct (fromhex x), (fromhex result); cbn; try done.
    rewrite !shiftr_half. apply IH; [by apply half_le|]. by apply half_lt; lia.
Qed.

Lemma verify_path_climbs h leaf index tree_size path root :
  0 ≤ index < tree_size → tree_size ≤ 2 ^ Z.of_nat h →
  verify_path leaf index tree_size path root = true
  ↔ climb (shape h index (tree_size - 1)) path leaf = Some root.
Proof.
  intros Hi Hn. unfold verify_path. rewrite (proj2 (Z.leb_le 0 index)), (proj2 (Z.ltb_lt index _)) by lia.
  cbn [andb negb]. rewrite <- verify_loop_climbs by lia.
  destruct (verify_loop _ _ _ _) as [[[sn result]|]|]; cbn; [|done..].
  destruct (sn =? 0); cbn; [|done]. rewrite String.eqb_eq. naive_solver.
Qed.

Lemma climb_length sides path node root : climb sides path node = Some root → length path = length sides.
Proof.
  revert path node. induction sides as [|d sides IH]; intros [|x path] node; cbn; try done.
  destruct (preimage d x node); [|done]. intros Hc. f_equal. by eapply IH.
Qed.

Lemma climb_app sides sides' path path' node mid :
  climb sides path node = Some mid →
  climb (sides ++ sides') (path ++ path') node = climb sides' path' mid.
Proof.
  revert path node. induction sides as [|d sides IH]; intros [|x path] node; cbn; [naive_solver|done..|].
  destruct (preimage d x node); cbn; [|done]. apply IH.
Qed.

(** ** The tree *)

Implicit Types leaves : list string.

Lemma split_spec n : 2 ≤ n → ∃ j : nat, _split n = 2 ^ Z.of_nat j ∧ 2 ^ Z.of_nat j < n ≤ 2 * 2 ^ Z.of_nat j.
Proof.
  intros Hn. exists (Z.to_nat (Z.log2 (n - 1))). pose proof (Z.log2_nonneg (n - 1)). rewrite Z2Nat.id by done.
  unfold _split, bit_length. rewrite (proj2 (Z.eqb_neq (n - 1) 0)), Z.abs_eq by lia.
  replace (Z.log2 (n - 1) + 1 - 1) with (Z.log2 (n - 1)) by lia.
  rewrite Z.shiftl_mul_pow2, Z.mul_1_l by done. pose proof (Z.log2_spec (n - 1) ltac:(lia)) as Hl.
  rewrite Z.pow_succ_r in Hl by done. lia.
Qed.

(** The two halves of a list of at least two leaves. *)
Lemma halves leaves frames :
  2 ≤ len leaves ≤ 2 ^ Z.of_nat frames →
  ∃ frames' j : nat, frames = S frames' ∧ (j ≤ frames')%nat ∧ _split (len leaves) = 2 ^ Z.of_nat j ∧
    len (take (Z.to_nat (2 ^ Z.of_nat j)) leaves) = 2 ^ Z.of_nat j ∧
    1 ≤ len (drop (Z.to_nat (2 ^ Z.of_nat j)) leaves) ≤ 2 ^ Z.of_nat j ∧
    len leaves = 2 ^ Z.of_nat j + len (drop (Z.to_nat (2 ^ Z.of_nat j)) leaves) ∧
    2 ^ Z.of_nat j ≤ 2 ^ Z.of_nat frames'.
Proof.
  intros Hn. destruct (split_spec (len leaves)) as (j & Hk & Hj); [lia|].
  assert (Z.of_nat j < Z.of_nat frames) as Hlt by (apply (Z.pow_lt_mono_r_iff 2); lia).
  destruct frames as [|frames]; [lia|]. exists frames, j. unfold len in *. rewrite length_take, length_drop.
  split_and!; try done; try lia. apply Z.pow_le_mono_r; lia.
Qed.

Lemma merkle_root_step frames leaves :
  2 ≤ len leaves →
  merkle_root (S frames) leaves
  = (left ← merkle_root frames (take (Z.to_nat (_split (len leaves))) leaves);
     right ← merkle_root frames (drop (Z.to_nat (_split (len leaves))) leaves);
     _node left right).
Proof. destruct leaves as [|a [|b leaves]]; unfold len; simpl; [lia..|done]. Qed.

Lemma len_one {A} (l : list A) : len l = 1 → ∃ a, l = [a].
Proof. destruct l as [|a [|b l]]; unfold len; simpl; intros; [lia|by exists a|lia]. Qed.

Lemma node_ok left right :
  hex64 left = true → hex64 right = true →
  ∃ l r, fromhex left = Some l ∧ fromhex right = Some r ∧ _node left right = Ok (sha256_hex (node_preimage l r)).
Proof.
  intros (l & _ & Hl & _)%hex64_bytes (r & _ & Hr & _)%hex64_bytes. exists l, r.
  unfold _node, bytes_fromhex. by rewrite Hl, Hr.
Qed.

Abbreviation all_hex64 leaves := (Forall (λ l, hex64 l = true) leaves).

(** A tree of at most [2 ^ frames] leaves needs [frames + 1] frames. *)
Lemma merkle_root_ok frames leaves :
  1 ≤ len leaves ≤ 2 ^ Z.of_nat frames → all_hex64 leaves →
  ∃ root, hex64 root = true ∧ ∀ extra, merkle_root (S (frames + extra)) leaves = Ok root.
Proof.
  revert leaves. induction frames as [|frames IH]; intros leaves Hn Hhex.
  { destruct (len_one leaves) as [a ->]; [simpl in Hn; lia|]. exists a. by apply Forall_cons in Hhex as [? _]. }
  destruct (decide (len leaves = 1)) as [[a ->]%len_one|].
  { exists a. by apply Forall_cons in Hhex as [? _]. }
  destruct (halves leaves (S frames)) as (? & j & [= <-] & Hj & Hk & Hl & Hr & Hsum & Hpow); [lia|].
  destruct (IH (take (Z.to_nat (2 ^ Z.of_nat j)) leaves)) as (x & Hx & HIx); [lia|by apply Forall_take|].
  destruct (IH (drop (Z.to_nat (2 ^ Z.of_nat j)) leaves)) as (y & Hy & HIy); [lia|by apply Forall_drop|].
  destruct (node_ok x y Hx Hy) as (l & r & _ & _ & Hnode).
  exists (sha256_hex (node_preimage l r)). split; [apply sha256_hex64|]. intros extra.
  rewrite merkle_root_step, Hk by lia. cbn [Nat.add]. by rewrite HIx, HIy.
Qed.

(** The recursion of [merkle_root] ends within [frames + 1] Python frames on up to
    [2 ^ frames] leaves, whatever they are: more frames change nothing, the only
    errors are the documented [ValueError]s (no leaf, or a leaf that is not
    hexadecimal), and 64-digit leaves give a 64-digit root. *)
Theorem merkle_root_terminates frames extra leaves :
  len leaves ≤ 2 ^ Z.of_nat frames →
  merkle_root (S (frames + extra)) leaves = merkle_root (S frames) leaves ∧
  match merkle_root (S frames) leaves with
  | Ok root => leaves ≠ [] ∧ (all_hex64 leaves → hex64 root = true)
  | Raise e => (leaves = [] ∧ e = ValueError "A Merkle tree requires at least one leaf")
               ∨ (¬ all_hex64 leaves ∧ e = fromhex_error)
  end.
Proof.
  revert leaves. induction frames as [|frames IH]; intros leaves Hn.
  { destruct leaves as [|a [|b leaves]]; [by split; [|left]| |unfold len in Hn; simpl in Hn; lia].
    cbn. split_and!; [done..|]. by intros [? _]%Forall_cons. }
  destruct leaves as [|a [|b leaves]]; [by split; [|left]| |].
  { cbn. split_and!; [done..|]. by intros [? _]%Forall_cons. }
  set (l := a :: b :: leaves) in *. assert (2 ≤ len l) as H2 by (unfold len; simpl; lia). clearbody l.
  destruct (halves l (S frames)) as (? & j & [= <-] & Hj & Hk & Hl & Hr & Hsum & Hpow); [lia|].
  rewrite !merkle_root_step, Hk by lia.
  destruct (IH (take (Z.to_nat (2 ^ Z.of_nat j)) l)) as [HL1 HL2]; [lia|].
  destruct (IH (drop (Z.to_nat (2 ^ Z.of_nat j)) l)) as [HR1 HR2]; [lia|].
  cbn [Nat.add]. rewrite HL1, HR1. split; [done|].
  assert (all_hex64 l → all_hex64 (take (Z.to_nat (2 ^ Z.of_nat j)) l)) as Ht by (intros; by apply Forall_take).
  assert (all_hex64 l → all_hex64 (drop (Z.to_nat (2 ^ Z.of_nat j)) l)) as Hd by (intros; by apply Forall_drop).
  revert HL2 HR2. generalize (merkle_root (S frames) (take (Z.to_nat (2 ^ Z.of_nat j)) l)),
    (merkle_root (S frames) (drop (Z.to_nat (2 ^ Z.of_nat j)) l)).
  assert (∀ l : list string, 1 ≤ len l → l ≠ []) as Hne by (intros [|] ?; [unfold len in *; simpl in *; lia|done]).
  intros [x|e] r HL2 HR2; cbn in *.
  - destruct r as [y|e]; cbn in *.
    + unfold _node, bytes_fromhex. destruct (fromhex x) eqn:Ex; [destruct (fromhex y) eqn:Ey|]; cbn.
      * split; [apply Hne; lia|intros; apply sha256_hex64].
      * right. split; [|done]. intros (? & _ & ? & _)%Hd%(proj2 HR2)%hex64_bytes. congruence.
      * right. split; [|done]. intros (? & _ & ? & _)%Ht%(proj2 HL2)%hex64_bytes. congruence.
    + right. destruct HR2 as [[Hnil _]|[Hh ->]]; [apply Hne in Hnil; [done|lia]|]. by split; [intros ?%Hd|].
  - right. destruct HL2 as [[Hnil _]|[Hh ->]]; [apply Hne in Hnil; [done|lia]|]. by split; [intros ?%Ht|].
Qed.

(** ** Completeness: every audit path verifies *)

(** In a tree of [2 ^ h + s0 + 1] leaves, a leaf of the left subtree climbs it and
    then meets the right root. *)
Lemma shape_left h m s0 :
  0 ≤ m < 2 ^ Z.of_nat h → 0 ≤ s0 < 2 ^ Z.of_nat h →
  shape (S h) m (s0 + 2 ^ Z.of_nat h) = shape h m (2 ^ Z.of_nat h - 1) ++ [SRight].
Proof.
  revert m s0. induction h as [|h IH]; intros m s0 Hm Hs.
  { assert (m = 0) as -> by (simpl in Hm; lia). by assert (s0 = 0) as -> by (simpl in Hs; lia). }
  pose proof (half_lt h m Hm). pose proof (half_lt h s0 Hs).
  cbn [shape]. rewrite Nat2Z.inj_succ, Z.pow_succ_r in * by lia.
  set (p := 2 ^ Z.of_nat h) in *. pose proof (half_parity m) as Hp.
  rewrite (proj2 (Z.eqb_neq (s0 + 2 * p) 0)), (proj2 (Z.eqb_neq (2 * p - 1) 0)) by lia.
  rewrite (proj2 (Z.ltb_lt m (s0 + 2 * p))) by lia.
  rewrite (Z.mul_comm 2 p), Z.div_add by lia. replace ((p * 2 - 1) / 2) with (p - 1)
    by (apply Z.div_unique with 1; lia).
  pose proof (IH (m / 2) (s0 / 2) ltac:(lia) ltac:(lia)) as IH'. cbn [shape] in IH'. rewrite IH'.
  destruct (Z.odd m); [done|]. by rewrite (proj2 (Z.ltb_lt m (p * 2 - 1))) by lia.
Qed.

(** A leaf of the right subtree climbs it and then meets the left root; a subtree
    that ends early is promoted level by level. *)
Lemma shape_right h m s0 :
  0 ≤ m ≤ s0 → s0 < 2 ^ Z.of_nat h →
  shape (S h) (m + 2 ^ Z.of_nat h) (s0 + 2 ^ Z.of_nat h) = shape h m s0 ++ [SLeft].
Proof.
  revert m s0. induction h as [|h IH]; intros m s0 Hm Hs.
  { by assert (s0 = 0 ∧ m = 0) as [-> ->] by (simpl in Hs; lia). }
  pose proof (half_lt h s0 ltac:(lia)). pose proof (half_le m s0 Hm).
  pose proof (IH (m / 2) (s0 / 2) ltac:(lia) ltac:(lia)) as IH'.
  change (shape (S (S h)) ?f ?s) with
    (if s =? 0 then [] else (if Z.odd f then [SLeft] else if f <? s then [SRight] else [])
       ++ shape (S h) (f / 2) (s / 2)).
  rewrite Nat2Z.inj_succ, Z.pow_succ_r in * by lia. assert (0 < 2 ^ Z.of_nat h) by lia.
  set (p := 2 ^ Z.of_nat h) in *. rewrite (proj2 (Z.eqb_neq (s0 + 2 * p) 0)) by lia.
  rewrite Z.odd_add_mul_2, (Z.mul_comm 2 p), !Z.div_add, IH' by lia.
  replace (m + p * 2 <? s0 + p * 2) with (m <? s0)
    by (destruct (Z.ltb_spec m s0), (Z.ltb_spec (m + p * 2) (s0 + p * 2)); lia || done).
  cbn [shape]. destruct (Z.eqb_spec s0 0) as [->|]; [|by rewrite app_assoc].
  assert (m = 0) as -> by lia. by destruct h.
Qed.

Lemma lookup_split {A} (l : list A) k i a :
  l !! Z.to_nat i = Some a → 0 ≤ i → 0 ≤ k →
  if i <? k then take (Z.to_nat k) l !! Z.to_nat i = Some a
  else drop (Z.to_nat k) l !! Z.to_nat (i - k) = Some a.
Proof.
  intros Hl Hi Hk. destruct (Z.ltb_spec i k).
  - rewrite lookup_take_lt by lia. done.
  - rewrite lookup_drop. by replace (Z.to_nat k + Z.to_nat (i - k))%nat with (Z.to_nat i) by lia.
Qed.

Lemma lookup_len {A} (l : list A) i a : l !! Z.to_nat i = Some a → 0 ≤ i → i < len l.
Proof. intros Hl%lookup_lt_Some ?. unfold len. lia. Qed.

Lemma audit_path_step frames leaves index :
  2 ≤ len leaves → 0 ≤ index < len leaves →
  let k := Z.to_nat (_split (len leaves)) in
  audit_path (S frames) leaves index
  = if index <? _split (len leaves) then
      path ← audit_path frames (take k leaves) index;
      sibling ← merkle_root frames (drop k leaves);
      Ok (path ++ [sibling])
    else
      path ← audit_path frames (drop k leaves) (index - _split (len leaves));
      sibling ← merkle_root frames (take k leaves);
      Ok (path ++ [sibling]).
Proof.
  intros Hn Hi. cbn [audit_path]. rewrite (proj2 (Z.leb_le 0 index)), (proj2 (Z.ltb_lt index _)) by lia.
  by rewrite (proj2 (Z.eqb_neq (len leaves) 1)) by lia.
Qed.

(** The last step up to the root. *)
Lemma climb_last d sides path node mid sibling l r :
  climb sides path node = Some mid →
  preimage d sibling mid = Some (node_preimage l r) →
  climb (sides ++ [d]) (path ++ [sibling]) node = Some (sha256_hex (node_preimage l r)).
Proof. intros Hc Hp. rewrite (climb_app _ _ _ _ _ _ Hc). cbn [climb]. by rewrite Hp. Qed.

(** The path the tree yields is a climb from the leaf to the root. *)
Lemma audit_path_climbs frames leaves index leaf :
  len leaves ≤ 2 ^ Z.of_nat frames → all_hex64 leaves →
  0 ≤ index → leaves !! Z.to_nat index = Some leaf →
  ∃ root path, merkle_root (S frames) leaves = Ok root ∧ hex64 root = true ∧
    audit_path (S frames) leaves index = Ok path ∧ all_hex64 path ∧
    climb (shape frames index (len leaves - 1)) path leaf = Some root.
Proof.
  revert leaves index. induction frames as [|frames IH]; intros leaves index Hn Hhex Hi Hleaf;
    pose proof (lookup_len _ _ _ Hleaf Hi) as Hlt.
  { destruct (len_one leaves) as [a ->]; [simpl in Hn; lia|]. assert (index = 0) as -> by (unfold len in Hlt; simpl in Hlt; lia).
    apply Forall_cons in Hhex as [Ha _]. injection Hleaf as <-. exists a, []. by split_and!. }
  destruct (decide (len leaves = 1)) as [[a ->]%len_one|].
  { assert (index = 0) as -> by (unfold len in Hlt; simpl in Hlt; lia).
    apply Forall_cons in Hhex as [Ha _]. injection Hleaf as <-. exists a, []. by split_and!. }
  destruct (halves leaves (S frames)) as (? & j & [= <-] & Hj & Hk & Hl & Hr & Hsum & Hpow); [lia|].
  rewrite merkle_root_step, audit_path_step, Hk by lia.
  set (k := 2 ^ Z.of_nat j) in *. set (L := take (Z.to_nat k) leaves) in *. set (R := drop (Z.to_nat k) leaves) in *.
  assert (all_hex64 L) as HL by (by apply Forall_take). assert (all_hex64 R) as HR by (by apply Forall_drop).
  pose proof (lookup_split leaves k index leaf Hleaf Hi ltac:(lia)) as Hin. fold L R in Hin.
  pose proof (shape_levels (S j) (S frames) index (len leaves - 1)) as Hsh.
  rewrite Hsh by (rewrite ?Nat2Z.inj_succ, ?Z.pow_succ_r by lia; fold k; lia). clear Hsh.
  replace (len leaves - 1) with (len R - 1 + k) by lia.
  destruct (Z.ltb_spec index k).
  - destruct (IH L index) as (x & path & -> & Hx & -> & Hpath & Hc); [lia|done..|].
    destruct (merkle_root_ok frames R) as (y & Hy & HIy); [lia|done|].
    specialize (HIy 0%nat). rewrite Nat.add_0_r in HIy. rewrite HIy.
    destruct (node_ok x y Hx Hy) as (l & r & Hfl & Hfr & Hnode). cbn [mbind res_bind]. rewrite Hnode.
    exists (sha256_hex (node_preimage l r)), (path ++ [y]).
    split_and!; [done|apply sha256_hex64|done|by apply Forall_app; split; [|apply Forall_singleton]|].
    rewrite shape_left by lia. eapply (climb_last _ _ _ _ x); [|unfold preimage; by rewrite Hfl, Hfr].
    rewrite Hl in Hc. by rewrite (shape_levels j frames) in Hc by lia.
  - destruct (IH R (index - k)) as (y & path & -> & Hy & -> & Hpath & Hc); [lia|done|lia|done|].
    destruct (merkle_root_ok frames L) as (x & Hx & HIx); [lia|done|].
    specialize (HIx 0%nat). rewrite Nat.add_0_r in HIx. rewrite HIx.
    destruct (node_ok x y Hx Hy) as (l & r & Hfl & Hfr & Hnode). cbn [mbind res_bind]. rewrite Hnode.
    exists (sha256_hex (node_preimage l r)), (path ++ [x]).
    split_and!; [done|apply sha256_hex64|done|by apply Forall_app; split; [|apply Forall_singleton]|].
    replace index with (index - k + k) at 1 by lia. unfold k at 2 3. rewrite shape_right by lia.
    eapply (climb_last _ _ _ _ y); [|unfold preimage; by rewrite Hfl, Hfr]. fold k.
    by rewrite (shape_levels j frames) in Hc by lia.
Qed.

Lemma shape_length h f s : (length (shape h f s) ≤ h)%nat.
Proof.
  revert f s. induction h as [|h IH]; intros f s; [done|]. cbn [shape]. destruct (s =? 0); [simpl; lia|].
  rewrite length_app. specialize (IH (f / 2) (s / 2)). destruct (Z.odd f), (f <? s); simpl; lia.
Qed.

(** Round trip: for every leaf of a tree, the audit path is computed, is accepted by
    [verify_path] against the root of the tree, and has at most one sibling per
    level. *)
Theorem inclusion_proof_complete frames leaves index leaf :
  len leaves ≤ 2 ^ Z.of_nat frames → all_hex64 leaves →
  0 ≤ index → leaves !! Z.to_nat index = Some leaf →
  ∃ root path, merkle_root (S frames) leaves = Ok root ∧ audit_path (S frames) leaves index = Ok path ∧
    verify_path leaf index (len leaves) path root = true ∧ (length path ≤ frames)%nat.
Proof.
  intros Hn Hhex Hi Hleaf. pose proof (lookup_len _ _ _ Hleaf Hi).
  destruct (audit_path_climbs frames leaves index leaf) as (root & path & ? & _ & ? & _ & Hc); [done..|].
  exists root, path. split_and!; [done..| |].
  - by apply (verify_path_climbs frames); [lia..|].
  - rewrite (climb_length _ _ _ _ Hc). apply shape_length.
Qed.

(** ** Soundness: another leaf verifies only through a SHA-256 collision *)

Lemma preimage_inj d x y x' y' m :
  hex64 y = true → hex64 y' = true →
  preimage d x y = Some m → preimage d x' y' = Some m → y = y'.
Proof.
  intros (b & Hb & Hfb & <-)%hex64_bytes (b' & Hb' & Hfb' & <-)%hex64_bytes.
  unfold preimage. rewrite Hfb, Hfb'. destruct (fromhex x) as [c|], (fromhex x') as [c'|]; cbn; try done.
  intros [= <-] [= Heq]. f_equal. destruct d; unfold node_preimage in Heq; injection Heq as Heq.
  - apply app_inj_2 in Heq; [|congruence]. by destruct Heq.
  - apply app_inj_1 in Heq; [|congruence]. by destruct Heq.
Qed.

Lemma climb_collides sides path path' node node' root :
  hex64 node = true → hex64 node' = true →
  climb sides path node = Some root → climb sides path' node' = Some root →
  node = node' ∨ ∃ m m', collision sides path path' node node' = Some (m, m') ∧ m ≠ m' ∧ sha256 m = sha256 m'.
Proof.
  revert path path' node node'. induction sides as [|d sides IH]; intros [|x path] [|x' path'] node node' Hn Hn';
    cbn; try done; [intros; left; congruence|].
  destruct (preimage d x node) as [m|] eqn:Hm; [|done]. destruct (preimage d x' node') as [m'|] eqn:Hm'; [|done].
  cbn. intros Hc Hc'. destruct (decide (m = m')) as [<-|Hne]; [left; by eapply preimage_inj|right].
  rewrite (bool_decide_false (m = m')) by done. cbn [negb andb].
  case_bool_decide as Hs; [by exists m, m'|].
  destruct (IH path path' _ _ (sha256_hex64 m) (sha256_hex64 m') Hc Hc') as [Heq|?]; [|done].
  destruct Hs. apply (f_equal fromhex) in Heq. unfold sha256_hex in Heq. rewrite !fromhex_hex in Heq. congruence.
Qed.

(** A claimed leaf that [verify_path] accepts at an index, against the root of a tree
    of the stated size, is the leaf the tree has there; otherwise the accepted path
    and the honest audit path exhibit two different byte strings with the same
    SHA-256 digest, which [collision] computes. *)
Theorem inclusion_proof_sound frames leaves root claimed index path :
  len leaves ≤ 2 ^ Z.of_nat frames → all_hex64 leaves → hex64 claimed = true →
  merkle_root (S frames) leaves = Ok root →
  verify_path claimed index (len leaves) path root = true →
  ∃ leaf honest, leaves !! Z.to_nat index = Some leaf ∧ audit_path (S frames) leaves index = Ok honest ∧
    (claimed = leaf ∨
     ∃ m m', collision (shape frames index (len leaves - 1)) path honest claimed leaf = Some (m, m') ∧
       m ≠ m' ∧ sha256 m = sha256 m').
Proof.
  intros Hn Hhex Hcl Hroot Hv.
  assert (0 ≤ index < len leaves) as Hi.
  { unfold verify_path in Hv. destruct (Z.leb_spec 0 index), (Z.ltb_spec index (len leaves)); done. }
  destruct (lookup_lt_is_Some_2 leaves (Z.to_nat index)) as [leaf Hleaf]; [unfold len in *; lia|].
  destruct (audit_path_climbs frames leaves index leaf) as (root' & honest & Hr & _ & Ha & _ & Hc); [done || lia..|].
  assert (root' = root) as -> by congruence.
  exists leaf, honest. split_and!; [done..|]. apply (verify_path_climbs frames) in Hv; [|lia..].
  eapply climb_collides; [done| |done..]. rewrite Forall_forall in Hhex. apply Hhex. by eapply list_elem_of_lookup_2.
Qed.

(** ** Three leaves *)
Module MerkleDemo.
Definition leaf0 : string := "0000000000000000000000000000000000000000000000000000000000000000".
Definition leaf1 : string := "1111111111111111111111111111111111111111111111111111111111111111".
Definition leaf2 : string := "abababababababababababababababababababababababababababababababab".
Definition demo_leaves : list string := [leaf0; leaf1; leaf2].
Definition root : string := match merkle_root 3 demo_leaves with Ok r => r | Raise _ => "" end.
Definition path2 : list string := match audit_path 3 demo_leaves 2 with Ok p => p | Raise _ => [] end.

Example hex_leaves : all_hex64 demo_leaves.
Proof. repeat constructor. Qed.
Example swapped_leaf_rejected : verify_path leaf1 2 3 path2 root = false.
Proof. vm_compute. reflexivity. Qed.
Example last_leaf_is_promoted : length path2 = 1%nat ∧ shape 2 2 2 = [SLeft].
Proof. vm_compute. done. Qed.
End MerkleDemo.

(** The verifier does not check the format of the claimed leaf: 33 bytes of one and
    the other 31 of its sibling form the same preimage. *)
Example unformatted_leaf_accepted :
  verify_path (MerkleDemo.leaf0 ++ "11")%string 0 2
    ["11111111111111111111111111111111111111111111111111111111111111"]
    (match merkle_root 2 [MerkleDemo.leaf0; MerkleDemo.leaf1] with Ok r => r | Raise _ => "" end) = true.
Proof. vm_compute. reflexivity. Qed.

Lemma merkle_root_terminates_witness :
  len MerkleDemo.demo_leaves ≤ 4 ∧
  merkle_root 13 MerkleDemo.demo_leaves = merkle_root 3 MerkleDemo.demo_leaves.
Proof.
  split; [done|]. destruct (merkle_root_terminates 2 10 MerkleDemo.demo_leaves) as [H _]; [done|]. exact H.
Defined.

Lemma inclusion_proof_complete_witness :
  ∃ root path, merkle_root 3 MerkleDemo.demo_leaves = Ok root ∧
    audit_path 3 MerkleDemo.demo_leaves 2 = Ok path ∧
    verify_path MerkleDemo.leaf2 2 3 path root = true ∧ (length path ≤ 2)%nat.
Proof.
  apply (inclusion_proof_complete 2 MerkleDemo.demo_leaves 2 MerkleDemo.leaf2);
    [done|exact MerkleDemo.hex_leaves|done|done].
Defined.

Lemma inclusion_proof_sound_witness :
  verify_path MerkleDemo.leaf2 2 3 MerkleDemo.path2 MerkleDemo.root = true ∧
  ∃ leaf honest, MerkleDemo.demo_leaves !! 2%nat = Some leaf ∧ audit_path 3 MerkleDemo.demo_leaves 2 = Ok honest ∧
    (MerkleDemo.leaf2 = leaf ∨
     ∃ m m', collision (shape 2 2 2) MerkleDemo.path2 honest MerkleDemo.leaf2 leaf = Some (m, m') ∧
       m ≠ m' ∧ sha256 m = sha256 m').
Proof.
  assert (verify_path MerkleDemo.leaf2 2 3 MerkleDemo.path2 MerkleDemo.root = true) as Hv
    by (vm_compute; reflexivity).
  split; [exact Hv|].
  apply (inclusion_proof_sound 2 MerkleDemo.demo_leaves MerkleDemo.root MerkleDemo.leaf2 2 MerkleDemo.path2);
    [done|exact MerkleDemo.hex_leaves|done| |exact Hv].
  vm_compute. reflexivity.
Defined.
