(* ===== verification/Canonical.v ===== *)
(** * Canonical JSON (labeling/contracts.py)

    [canonical_json] is [json.dumps] with sorted keys, the compact separators and
    ASCII escapes, after a check of the shape.  The theorem of this file is that
    the text determines the value: two values without floats that print alike
    are equal up to the order of their keys.  A [string] stands for a Python
    string whose code points are below 256. *)

From S2P Require Export Monad Json Bytes.

Definition MAX_PREDICTION_BYTES : Z := 64 * 1024.
Definition MAX_JSON_DEPTH : Z := 16.
Definition MAX_JSON_CONTAINER_ITEMS : Z := 10000.

Section res_all.
Context {A : Type} (f : A → res unit).
Fixpoint res_all (l : list A) : res unit :=
  match l with [] => Ok tt | a :: l => f a ≫= λ _, res_all l end.
End res_all.

(** Keys are strings in the model, so the check of their type is void. *)
Fixpoint _validate_json_shape (value : json) (depth : Z) : res unit :=
  if MAX_JSON_DEPTH <? depth then Raise (ValueError "Prediction payload nesting exceeds the allowed limit")
  else
    match value with
    | JObj kvs =>
        if MAX_JSON_CONTAINER_ITEMS <? Z.of_nat (length kvs)
        then Raise (ValueError "Prediction payload contains too many object fields")
        else res_all (λ kv, _validate_json_shape kv.2 (depth + 1)) kvs
    | JArr l =>
        if MAX_JSON_CONTAINER_ITEMS <? Z.of_nat (length l)
        then Raise (ValueError "Prediction payload contains too many array items")
        else res_all (λ child, _validate_json_shape child (depth + 1)) l
    | _ => Ok tt
    end.

(** ** json.dumps(..., ensure_ascii=True, sort_keys=True, separators=(",", ":")) *)
Abbreviation text := (list Ascii.ascii).

Definition quote : Ascii.ascii := byte_of 34.
Definition backslash : Ascii.ascii := byte_of 92.

Definition escape (c : Ascii.ascii) : text :=
  let n := byte_val c in
  if n =? 34 then [backslash; quote]
  else if n =? 92 then [backslash; backslash]
  else if n =? 8 then [backslash; "b"%char]
  else if n =? 12 then [backslash; "f"%char]
  else if n =? 10 then [backslash; "n"%char]
  else if n =? 13 then [backslash; "r"%char]
  else if n =? 9 then [backslash; "t"%char]
  else if (32 <=? n) && (n <=? 126) then [c]
  else backslash :: encode_ascii "u00" ++ [hex_digit (n / 16); hex_digit (n mod 16)].

Definition json_string (s : string) : text := quote :: (encode_ascii s ≫= escape) ++ [quote].

Fixpoint join (sep : Ascii.ascii) (l : list text) : text :=
  match l with
  | [] => []
  | [a] => a
  | a :: l => a ++ sep :: join sep l
  end.

Definition key_leb {A} (kv kv' : string * A) : bool := String.leb kv.1 kv'.1.
Definition json_item (kv : string * text) : text := json_string kv.1 ++ ":"%char :: kv.2.

Section dumps.
(** The shortest decimal text of a float is [float.__repr__]'s. *)
Context (float_repr : Z → positive → string).

Fixpoint dumps (j : json) : text :=
  match j with
  | JNull => encode_ascii "null"
  | JBool true => encode_ascii "true"
  | JBool false => encode_ascii "false"
  | JInt z => encode_ascii (pretty z)
  | JFloat n d => encode_ascii (float_repr n d)
  | JStr s => json_string s
  | JArr l => "["%char :: join ","%char (map dumps l) ++ ["]"%char]
  | JObj kvs =>
      "{"%char :: join ","%char (map json_item (order_by key_leb (map (λ kv, (kv.1, dumps kv.2)) kvs))) ++ ["}"%char]
  end.

Definition canonical_json (value : json) : res string :=
  _validate_json_shape value 0 ≫= λ _,
  let encoded := dumps value in
  if MAX_PREDICTION_BYTES <? Z.of_nat (length encoded)
  then Raise (ValueError "Prediction payload exceeds the allowed size")
  else Ok (String.string_of_list_ascii encoded).

(** ** Hexadecimal integers *)

(** [int(s, 16)]: surrounding blanks, a sign, an optional [0x] and single underscores
    between digits are allowed. *)
Fixpoint hex_digits (acc : Z) (after_digit : bool) (l : list Ascii.ascii) : option Z :=
  match l with
  | [] => if after_digit then Some acc else None
  | c :: l =>
      match hex_value c with
      | Some v => hex_digits (16 * acc + v) true l
      | None => if bool_decide (c = "_"%char) && after_digit then hex_digits acc false l else None
      end
  end.
Definition hex_body (l : list Ascii.ascii) : option Z :=
  match l with
  | "0"%char :: ("x"%char | "X"%char) :: "_"%char :: l => hex_digits 0 false l
  | "0"%char :: ("x"%char | "X"%char) :: l => hex_digits 0 false l
  | _ => hex_digits 0 false l
  end.
Definition int16 (s : string) : res Z :=
  let body := match strip_chars (encode_ascii s) with
    | "-"%char :: l => Z.opp <$> hex_body l
    | "+"%char :: l => hex_body l
    | l => hex_body l
    end in
  match body with Some z => Ok z | None => Raise (ValueError "invalid literal for int() with base 16") end.

(** ** The value a text stands for *)

(** Values without floats. *)
Fixpoint float_free (j : json) : bool :=
  match j with
  | JFloat _ _ => false
  | JArr l => forallb float_free l
  | JObj kvs => forallb (λ kv, float_free kv.2) kvs
  | _ => true
  end.

(** The same value with every object's keys sorted. *)
Fixpoint sort_keys (j : json) : json :=
  match j with
  | JArr l => JArr (map sort_keys l)
  | JObj kvs => JObj (order_by key_leb (map (λ kv, (kv.1, sort_keys kv.2)) kvs))
  | _ => j
  end.

(** [==] on decoded JSON: numbers by value, objects up to the order of keys. *)
Fixpoint by_value (j : json) : json :=
  match j with
  | JBool b => JFloat (if b then 1 else 0) 1
  | JInt z => JFloat z 1
  | JFloat n d => let g := Z.gcd n (Zpos d) in JFloat (n / g) (Z.to_pos (Zpos d / g))
  | JArr l => JArr (map by_value l)
  | JObj kvs => JObj (map (λ kv, (kv.1, by_value kv.2)) kvs)
  | _ => j
  end.

Definition py_eq (a b : json) : bool := bool_decide (sort_keys (by_value a) = sort_keys (by_value b)).

(** Printing in the order of the list. *)
Fixpoint print (j : json) : text :=
  match j with
  | JArr l => "["%char :: join ","%char (map print l) ++ ["]"%char]
  | JObj kvs => "{"%char :: join ","%char (map json_item (map (λ kv, (kv.1, print kv.2)) kvs)) ++ ["}"%char]
  | _ => dumps j
  end.

Lemma insert_by_map {A B} (f : A → B) leb leb' a l :
  (∀ x y, leb' (f x) (f y) = leb x y) → insert_by leb' (f a) (map f l) = map f (insert_by leb a l).
Proof. intros Hf. induction l as [|b l IH]; [done|]. cbn. rewrite Hf. destruct (leb a b); [done|]. cbn. by rewrite IH. Qed.

Lemma order_by_map {A B} (f : A → B) leb leb' l :
  (∀ x y, leb' (f x) (f y) = leb x y) → order_by leb' (map f l) = map f (order_by leb l).
Proof.
  intros Hf. induction l as [|a l IH]; [done|]. cbn [order_by foldr map] in *. unfold order_by in IH. rewrite IH.
  by apply insert_by_map.
Qed.

Lemma dumps_sort_keys j : dumps j = print (sort_keys j).
Proof.
  induction j as [| | | | |l IH|kvs IH] using json_nested_ind; try done.
  - cbn. assert (map dumps l = map print (map sort_keys l)) as ->; [|done].
    rewrite map_map. induction IH as [|a l Ha _ IHl]; [done|]. cbn. by rewrite Ha, IHl.
  - cbn. rewrite <- (order_by_map (λ kv : string * json, (kv.1, print kv.2)) key_leb key_leb) by done.
    assert (map (λ kv : string * json, (kv.1, dumps kv.2)) kvs
            = map (λ kv, (kv.1, print kv.2)) (map (λ kv, (kv.1, sort_keys kv.2)) kvs)) as ->; [|done].
    rewrite map_map. induction IH as [|a l Ha _ IHl]; [done|]. cbn. by rewrite Ha, IHl.
Qed.

Lemma float_free_sort_keys j : float_free j = true → float_free (sort_keys j) = true.
Proof.
  induction j as [| | | | |l IH|kvs IH] using json_nested_ind; try done; cbn; rewrite !forallb_forall.
  - intros Hl x (y & <- & Hy)%in_map_iff. rewrite Forall_forall in IH. apply IH; [by apply list_elem_of_In|auto].
  - intros Hl x Hx. apply list_elem_of_In, elem_of_order_by, list_elem_of_In, in_map_iff in Hx as (y & <- & Hy).
    rewrite Forall_forall in IH. apply (IH y); [by apply list_elem_of_In|auto].
Qed.
End dumps.

(** ** The text determines the value *)

(** Characters that may follow a value. *)
Definition delimiter (c : Ascii.ascii) : bool :=
  let n := byte_val c in (n =? 44) || (n =? 93) || (n =? 125).

Definition ends (r : text) : Prop := match r with [] => True | c :: _ => delimiter c = true end.

(** Characters of an integer. *)
Definition numeric (c : Ascii.ascii) : bool := let n := byte_val c in ((48 <=? n) && (n <=? 57)) || (n =? 45).

Lemma pretty_N_go_numeric x s :
  forallb numeric (encode_ascii s) = true → forallb numeric (encode_ascii (pretty_N_go x s)) = true.
Proof.
  revert s. induction (N.lt_wf_0 x) as [x _ IH]; intros s Hs.
  assert (x = 0 ∨ 0 < x)%N as [->|Hx] by lia; [by rewrite pretty_N_go_0|].
  rewrite pretty_N_go_step by done. apply IH; [by apply N.div_lt|].
  unfold encode_ascii in *. cbn [String.list_ascii_of_string forallb]. rewrite Hs, andb_true_r.
  unfold pretty_N_char. by repeat case_match.
Qed.

Lemma pretty_numeric (z : Z) : forallb numeric (encode_ascii (pretty z)) = true.
Proof.
  assert (∀ n : N, forallb numeric (encode_ascii (pretty n)) = true) as Hn.
  { intros n. unfold pretty, pretty_N. destruct (decide _); [done|]. by apply pretty_N_go_numeric. }
  destruct z as [|p|p]; [done|apply (Hn (Npos p))|]. exact (Hn (Npos p)).
Qed.

Lemma pretty_nonempty (z : Z) : encode_ascii (pretty z) ≠ [].
Proof.
  intros H. assert (pretty z = "") as Hz by (destruct (pretty z); [done|by cbn in H]).
  assert (∀ x s, s ≠ "" → pretty_N_go x s ≠ "") as Hgo.
  { intros x. induction (N.lt_wf_0 x) as [x _ IH]; intros s Hs.
    assert (x = 0 ∨ 0 < x)%N as [->|Hx] by lia; [by rewrite pretty_N_go_0|].
    rewrite pretty_N_go_step by done. apply IH; [by apply N.div_lt|done]. }
  assert (∀ p, pretty (Npos p) ≠ "") as Hp.
  { intros p. unfold pretty, pretty_N. destruct (decide _); [done|]. rewrite pretty_N_go_step by lia. by apply Hgo. }
  destruct z as [|p|p]; [done|by destruct (Hp p)|done].
Qed.

(** Two runs of one class of characters, each followed by another class. *)
Lemma span_inj (P : Ascii.ascii → bool) l1 l2 r1 r2 :
  forallb P l1 = true → forallb P l2 = true →
  match r1 with [] => True | c :: _ => P c = false end →
  match r2 with [] => True | c :: _ => P c = false end →
  l1 ++ r1 = l2 ++ r2 → l1 = l2 ∧ r1 = r2.
Proof.
  revert l2. induction l1 as [|a l1 IH]; intros [|b l2]; cbn; intros H1 H2 Hr1 Hr2 Heq.
  - done.
  - subst r1. case_bool. congruence.
  - subst r2. case_bool. congruence.
  - injection Heq as -> Heq. case_bool. by destruct (IH l2) as [-> ->].
Qed.

(** Reading one escaped character back. *)
Definition unescape (l : text) : option (Ascii.ascii * text) :=
  match l with
  | c :: l =>
      if byte_val c =? 34 then None
      else if byte_val c =? 92 then
        match l with
        | e :: l =>
            if byte_val e =? 117 then
              match l with
              | _ :: _ :: h :: v :: l =>
                  match hex_value h, hex_value v with
                  | Some h, Some v => Some (byte_of (16 * h + v), l)
                  | _, _ => None
                  end
              | _ => None
              end
            else
              Some (byte_of (if byte_val e =? 98 then 8 else if byte_val e =? 102 then 12
                             else if byte_val e =? 110 then 10 else if byte_val e =? 114 then 13
                             else if byte_val e =? 116 then 9 else byte_val e), l)
        | [] => None
        end
      else Some (c, l)
  | [] => None
  end.

Lemma unescape_escape c l : unescape (escape c ++ l) = Some (c, l).
Proof. destruct c as [[] [] [] [] [] [] [] []]; reflexivity. Qed.

Lemma escapes_inj s1 s2 r1 r2 :
  (s1 ≫= escape) ++ quote :: r1 = (s2 ≫= escape) ++ quote :: r2 → s1 = s2 ∧ r1 = r2.
Proof.
  revert s2. induction s1 as [|c s1 IH]; intros [|c' s2]; cbn [mbind list_bind app]; rewrite <- ?app_assoc.
  - by intros [= ->].
  - intros H%(f_equal unescape). by rewrite unescape_escape in H.
  - intros H%(f_equal unescape). by rewrite unescape_escape in H.
  - intros H. pose proof (f_equal unescape H) as Hu. rewrite !unescape_escape in Hu. injection Hu as -> Hu.
    apply IH in Hu as [-> ->]. done.
Qed.

Lemma encode_ascii_inj s s' : encode_ascii s = encode_ascii s' → s = s'.
Proof. intros H%(f_equal String.string_of_list_ascii). by rewrite !String.string_of_list_ascii_of_string in H. Qed.

Lemma json_string_inj s s' r r' : json_string s ++ r = json_string s' ++ r' → s = s' ∧ r = r'.
Proof.
  unfold json_string. cbn. intros H. injection H as H. rewrite <- !app_assoc in H.
  apply escapes_inj in H as [H ->]. by apply encode_ascii_inj in H as ->.
Qed.

(** ** Sequences *)
Section sequence.
Context {A : Type} (p : A → text) (ok : A → bool).
Hypothesis p_start : ∀ a, ok a = true → match p a with [] => False | c :: _ => delimiter c = false end.

Definition prefix_free (a : A) : Prop :=
  ∀ b r r', ok b = true → ends r → ends r' → p a ++ r = p b ++ r' → a = b ∧ r = r'.

Lemma join_cons a l r :
  join ","%char (map p (a :: l)) ++ r = p a ++ (match l with [] => r | _ => ","%char :: join ","%char (map p l) ++ r end).
Proof. destruct l as [|b l]; [done|]. cbn [map join]. by rewrite <- app_assoc. Qed.

Lemma join_inj l l' c r r' :
  Forall prefix_free l → forallb ok l = true → forallb ok l' = true →
  delimiter c = true → byte_val c ≠ 44 →
  join ","%char (map p l) ++ c :: r = join ","%char (map p l') ++ c :: r' → l = l' ∧ r = r'.
Proof.
  intros Hl. revert l'. induction Hl as [|a l Ha Hl IH]; intros [|b l'] Hok Hok' Hc Hcomma; rewrite ?join_cons.
  - by intros [= ->].
  - cbn in *. case_bool. pose proof (p_start b ltac:(done)) as Hp. destruct (p b); [done|]. intros [= <- _]. congruence.
  - cbn in *. case_bool. pose proof (p_start a ltac:(done)) as Hp. destruct (p a); [done|]. intros [= <- _]. congruence.
  - cbn [forallb] in *. case_bool. intros Heq. apply Ha in Heq as [-> Heq]; [|done|by destruct l|by destruct l'].
    destruct l as [|a2 l], l' as [|b2 l'].
    + by injection Heq as ->.
    + injection Heq as -> _. done.
    + injection Heq as <- _. done.
    + injection Heq as Heq. apply (IH (b2 :: l')) in Heq as [-> ->]; done.
Qed.
End sequence.

Section print_inj.
Context (float_repr : Z → positive → string).
Abbreviation print := (print float_repr).

(** The first character tells the kind of value. *)
Definition tag (c : Ascii.ascii) : Z := if numeric c then 0 else byte_val c.
Definition kind (j : json) : Z :=
  match j with
  | JNull => 110
  | JBool b => if b then 116 else 102
  | JInt _ | JFloat _ _ => 0
  | JStr _ => 34
  | JArr _ => 91
  | JObj _ => 123
  end.

Lemma print_head j : float_free j = true → match print j with [] => False | c :: _ => tag c = kind j end.
Proof.
  destruct j as [|[]|z|n d|s|l|kvs]; cbn; try done. intros _.
  pose proof (pretty_nonempty z). pose proof (pretty_numeric z) as Hz.
  destruct (encode_ascii (pretty z)) as [|c l]; [done|]. cbn in Hz. case_bool. unfold tag.
  by match goal with H : numeric c = true |- _ => rewrite H end.
Qed.

Lemma print_start j : float_free j = true → match print j with [] => False | c :: _ => delimiter c = false end.
Proof.
  intros Hj. pose proof (print_head j Hj) as Hh. destruct (print j) as [|c l]; [done|].
  assert (tag c = 44 ∨ tag c = 93 ∨ tag c = 125 ∨ delimiter c = false) as Ht.
  { unfold tag, numeric, delimiter. set (n := byte_val c).
    destruct (((48 <=? n) && (n <=? 57)) || (n =? 45)) eqn:Hn.
    - right; right; right. apply orb_true_iff in Hn as [Hn|Hn]; case_bool;
        destruct (Z.eqb_spec n 44), (Z.eqb_spec n 93), (Z.eqb_spec n 125); lia || done.
    - destruct (Z.eqb_spec n 44), (Z.eqb_spec n 93), (Z.eqb_spec n 125); auto. }
  rewrite Hh in Ht. destruct j as [|[]| | | | |]; cbn in Ht; naive_solver lia.
Qed.

Lemma ends_numeric r : ends r → match r with [] => True | c :: _ => numeric c = false end.
Proof.
  destruct r as [|c r]; [done|]. cbn. unfold delimiter, numeric. set (n := byte_val c). intros H.
  apply orb_true_iff in H as [[H|H]%orb_true_iff|H]; apply Z.eqb_eq in H as ->; done.
Qed.

Lemma print_kind j j' r r' :
  float_free j = true → float_free j' = true → print j ++ r = print j' ++ r' → kind j = kind j'.
Proof.
  intros Hj%print_head Hj'%print_head. destruct (print j), (print j'); try done. intros [= <- _]. congruence.
Qed.

Definition print_item (kv : string * json) : text := json_item (kv.1, print kv.2).

Lemma print_item_inj kv :
  prefix_free print float_free kv.2 → prefix_free print_item (λ kv, float_free kv.2) kv.
Proof.
  intros Hkv [k' v'] r r' Hok Hr Hr'. destruct kv as [k v]. unfold print_item, json_item. cbn [fst snd] in *.
  rewrite <- !app_assoc. intros [-> Heq]%json_string_inj. injection Heq as Heq.
  by apply Hkv in Heq as [-> ->].
Qed.

Lemma print_seq_inj l l' r r' :
  Forall (prefix_free print float_free) l → forallb float_free l = true → forallb float_free l' = true →
  (join ","%char (map print l) ++ ["]"%char]) ++ r = (join ","%char (map print l') ++ ["]"%char]) ++ r' →
  l = l' ∧ r = r'.
Proof. intros. rewrite <- !app_assoc in *. by apply (join_inj print float_free print_start l l' "]"%char). Qed.

Lemma print_items_inj kvs kvs' r r' :
  Forall (prefix_free print_item (λ kv, float_free kv.2)) kvs →
  forallb (λ kv, float_free kv.2) kvs = true → forallb (λ kv, float_free kv.2) kvs' = true →
  (join ","%char (map print_item kvs) ++ ["}"%char]) ++ r
  = (join ","%char (map print_item kvs') ++ ["}"%char]) ++ r' → kvs = kvs' ∧ r = r'.
Proof. intros. rewrite <- !app_assoc in *. by apply (join_inj print_item (λ kv, float_free kv.2) (λ _ _, eq_refl) kvs kvs' "}"%char). Qed.

Lemma print_obj kvs : print (JObj kvs) = "{"%char :: join ","%char (map print_item kvs) ++ ["}"%char].
Proof. cbn. by rewrite map_map. Qed.

Lemma print_inj j : float_free j = true → prefix_free print float_free j.
Proof.
  induction j as [|b|z|n d|s|l IH|kvs IH] using json_nested_ind;
    intros Hj j' r r' Hj' Hr Hr' Heq; pose proof (print_kind _ _ _ _ Hj Hj' Heq) as Hk;
    destruct j' as [|b'|z'|n' d'|s'|l'|kvs']; try done; try (by destruct b); try (by destruct b').
  - by injection Heq as ->.
  - by destruct b, b'; try done; injection Heq as ->.
  - destruct (span_inj numeric (encode_ascii (pretty z)) (encode_ascii (pretty z')) r r') as [Hz ->];
      [apply pretty_numeric|apply pretty_numeric|by apply ends_numeric|by apply ends_numeric|exact Heq|].
    apply encode_ascii_inj in Hz. by apply (inj pretty) in Hz as ->.
  - by apply json_string_inj in Heq as [-> ->].
  - injection Heq as Heq. apply print_seq_inj in Heq as [-> ->]; try done.
    cbn in Hj. rewrite forallb_forall in Hj. rewrite Forall_forall in IH |- *. intros x Hx.
    apply IH; [done|]. by apply Hj, list_elem_of_In.
  - rewrite !print_obj in Heq. injection Heq as Heq. apply print_items_inj in Heq as [-> ->]; try done.
    cbn in Hj. rewrite forallb_forall in Hj. rewrite Forall_forall in IH |- *. intros x Hx.
    apply print_item_inj, IH; [done|]. by apply Hj, list_elem_of_In.
Qed.
End print_inj.

(** ** Canonical text is injective up to the order of keys *)
Lemma canonical_json_inj float_repr v v' s :
  float_free v = true → float_free v' = true →
  canonical_json float_repr v = Ok s → canonical_json float_repr v' = Ok s → sort_keys v = sort_keys v'.
Proof.
  unfold canonical_json. intros Hf Hf' (_ & _ & Hv)%res_bind_ok (_ & _ & Hv')%res_bind_ok.
  destruct (_ <? Z.of_nat (length (dumps float_repr v))); [done|].
  destruct (_ <? Z.of_nat (length (dumps float_repr v'))); [done|].
  injection Hv as Hv. injection Hv' as Hv'.
  assert (dumps float_repr v = dumps float_repr v') as Heq.
  { rewrite <- (String.list_ascii_of_string_of_list_ascii (dumps float_repr v)),
      <- (String.list_ascii_of_string_of_list_ascii (dumps float_repr v')). congruence. }
  rewrite !(dumps_sort_keys float_repr) in Heq.
  destruct (print_inj float_repr (sort_keys v) (float_free_sort_keys v Hf) (sort_keys v') [] []);
    [by apply float_free_sort_keys|done..|by rewrite !app_nil_r|done].
Qed.
