(* ===== verification/Datetime.v ===== *)
(** * Instants and their ISO 8601 text

    An aware [datetime] is the count of microseconds since the epoch in UTC; the
    proleptic Gregorian calendar and [datetime.isoformat] are Python's.  The
    text determines the instant, which is what lets a timestamp travel through a
    commitment or a cursor. *)

From S2P Require Export Monad.

(** A [datetime]: the wall-clock reading and the UTC offset, absent when naive. *)
Record datetime := MkDatetime { wall : Z; utcoffset : option Z }.

(** [value.astimezone(timezone.utc)] of an aware value *)
Definition instant (d : datetime) (offset : Z) : Z := wall d - offset.

(** ** Calendar: the ordinals of the [datetime] module *)

Definition is_leap (year : Z) : bool :=
  (year mod 4 =? 0) && (negb (year mod 100 =? 0) || (year mod 400 =? 0)).

(** Days before 1 January of [year], and before the first of a month. *)
Definition days_before_year (year : Z) : Z :=
  let y := year - 1 in y * 365 + y / 4 - y / 100 + y / 400.

Definition days_before_month_table (month : Z) : Z :=
  nth (Z.to_nat month) [0; 0; 31; 59; 90; 120; 151; 181; 212; 243; 273; 304; 334; 365] 0.

Definition days_before_month (leap : bool) (month : Z) : Z :=
  days_before_month_table month + (if (2 <? month) && leap then 1 else 0).

Record civil := MkCivil { year : Z; month : Z; day : Z }.

(** Month and day of the [n]-th day of a year, from a first guess of the month. *)
Definition month_day (leap : bool) (n : Z) : Z * Z :=
  let guess := Z.shiftr (n + 50) 5 in
  let month := if n <? days_before_month leap guess then guess - 1 else guess in
  (month, n - days_before_month leap month + 1).

(** Ordinal 1 is 1 January of year 1. *)
Definition ord2ymd (ordinal : Z) : civil :=
  let n := ordinal - 1 in
  let n400 := n / 146097 in let n := n mod 146097 in
  let n100 := n / 36524 in let n := n mod 36524 in
  let n4 := n / 1461 in let n := n mod 1461 in
  let n1 := n / 365 in let n := n mod 365 in
  let year := n400 * 400 + 1 + n100 * 100 + n4 * 4 + n1 in
  if (n1 =? 4) || (n100 =? 4) then MkCivil (year - 1) 12 31
  else
    let leap := (n1 =? 3) && (negb (n4 =? 24) || (n100 =? 3)) in
    let '(month, day) := month_day leap n in MkCivil year month day.

Definition ymd2ord (c : civil) : Z :=
  days_before_year (year c) + days_before_month (is_leap (year c)) (month c) + day c.

(** A year is checked day by day, with and without its leap day. *)
Definition month_day_ok (leap : bool) (n : Z) : bool :=
  let '(m, d) := month_day leap n in
  (days_before_month leap m + d =? n + 1) && ((1 <=? m) && (m <=? 12)) && ((1 <=? d) && (d <=? 31)).

Lemma month_day_checked (leap : bool) n :
  0 ≤ n < 365 + (if leap then 1 else 0) →
  let '(m, d) := month_day leap n in
  days_before_month leap m + d = n + 1 ∧ 1 ≤ m ≤ 12 ∧ 1 ≤ d ≤ 31.
Proof.
  assert (forallb (month_day_ok true) (map Z.of_nat (seq 0 366)) &&
          forallb (month_day_ok false) (map Z.of_nat (seq 0 365)) = true) as Hall by (vm_compute; done).
  apply andb_true_iff in Hall as [Ht Hf]. rewrite forallb_forall in Ht, Hf. intros Hn.
  assert (month_day_ok leap n = true) as Hok.
  { destruct leap; [apply Ht|apply Hf]; apply in_map_iff; exists (Z.to_nat n); rewrite in_seq; lia. }
  unfold month_day_ok in Hok. destruct (month_day leap n) as [m d]. case_bool. lia.
Qed.

(** The digits of a year in the mixed radix of the calendar. *)
Lemma days_before_year_digits a b c d :
  0 ≤ b < 4 → 0 ≤ c < 25 → 0 ≤ d < 4 →
  days_before_year (a * 400 + 1 + b * 100 + c * 4 + d) = 146097 * a + 36524 * b + 1461 * c + 365 * d ∧
  is_leap (a * 400 + 1 + b * 100 + c * 4 + d) = (d =? 3) && (negb (c =? 24) || (b =? 3)).
Proof.
  intros Hb Hc Hd. unfold days_before_year, is_leap.
  set (y := a * 400 + 1 + b * 100 + c * 4 + d).
  assert ((y - 1) / 4 = 100 * a + 25 * b + c) as -> by (symmetry; apply Z.div_unique with d; lia).
  assert ((y - 1) / 100 = 4 * a + b) as -> by (symmetry; apply Z.div_unique with (4 * c + d); lia).
  assert ((y - 1) / 400 = a) as -> by (symmetry; apply Z.div_unique with (100 * b + 4 * c + d); lia).
  split; [lia|].
  pose proof (Z.div_mod y 4 ltac:(done)). pose proof (Z.mod_pos_bound y 4 eq_refl).
  pose proof (Z.div_mod y 100 ltac:(done)). pose proof (Z.mod_pos_bound y 100 eq_refl).
  pose proof (Z.div_mod y 400 ltac:(done)). pose proof (Z.mod_pos_bound y 400 eq_refl).
  destruct (Z.eqb_spec d 3), (Z.eqb_spec c 24), (Z.eqb_spec b 3), (Z.eqb_spec (y mod 4) 0),
    (Z.eqb_spec (y mod 100) 0), (Z.eqb_spec (y mod 400) 0); cbn; try done; lia.
Qed.

Lemma ord2ymd_spec ordinal :
  let c := ord2ymd ordinal in ymd2ord c = ordinal ∧ 1 ≤ month c ≤ 12 ∧ 1 ≤ day c ≤ 31.
Proof.
  unfold ord2ymd. set (n := ordinal - 1).
  pose proof (Z.div_mod n 146097 ltac:(done)) as H1. pose proof (Z.mod_pos_bound n 146097 eq_refl) as B1.
  set (a := n / 146097) in *. set (r1 := n mod 146097) in *.
  pose proof (Z.div_mod r1 36524 ltac:(done)) as H2. pose proof (Z.mod_pos_bound r1 36524 eq_refl) as B2.
  set (b := r1 / 36524) in *. set (r2 := r1 mod 36524) in *.
  pose proof (Z.div_mod r2 1461 ltac:(done)) as H3. pose proof (Z.mod_pos_bound r2 1461 eq_refl) as B3.
  set (c := r2 / 1461) in *. set (r3 := r2 mod 1461) in *.
  pose proof (Z.div_mod r3 365 ltac:(done)) as H4. pose proof (Z.mod_pos_bound r3 365 eq_refl) as B4.
  set (d := r3 / 365) in *. set (r4 := r3 mod 365) in *.
  assert (0 ≤ b ≤ 4 ∧ 0 ≤ c ≤ 24 ∧ 0 ≤ d ≤ 4) as (Hb & Hc & Hd) by lia.
  destruct (Z.eqb_spec d 4) as [Hd4|]; [|destruct (Z.eqb_spec b 4) as [Hb4|]]; cbn [orb].
  - destruct (days_before_year_digits a b c 3) as [Hy Hl]; [lia..|].
    unfold ymd2ord. cbn [year month day].
    replace (a * 400 + 1 + b * 100 + c * 4 + d - 1) with (a * 400 + 1 + b * 100 + c * 4 + 3) by lia.
    rewrite Hy, Hl. assert (negb (c =? 24) || (b =? 3) = true) as ->.
    { destruct (Z.eqb_spec c 24), (Z.eqb_spec b 3); cbn; done || lia. }
    split; [|lia]. change (days_before_month ((3 =? 3) && true) 12) with 335. lia.
  - destruct (days_before_year_digits a 3 24 3) as [Hy Hl]; [lia..|]. unfold ymd2ord. cbn [year month day].
    replace (a * 400 + 1 + b * 100 + c * 4 + d - 1) with (a * 400 + 1 + 3 * 100 + 24 * 4 + 3) by lia.
    rewrite Hy, Hl. split; [|lia]. change (days_before_month _ 12) with 335. lia.
  - destruct (days_before_year_digits a b c d) as [Hy Hl]; [lia..|].
    set (leap := (d =? 3) && (negb (c =? 24) || (b =? 3))) in *.
    pose proof (month_day_checked leap r4 ltac:(destruct leap; lia)) as Hm. destruct (month_day leap r4) as [m dd].
    unfold ymd2ord. cbn [year month day]. rewrite Hy, Hl. lia.
Qed.

(** ** Text *)

(** The [w] last decimal digits of a number: [f"{n:0{w}d}"] when it has at most [w]. *)
Fixpoint digits (w : nat) (n : Z) : list Ascii.ascii :=
  match w with
  | O => []
  | S w => digits w (n / 10) ++ [Ascii.ascii_of_N (48 + Z.to_N (n mod 10))]
  end.

Lemma length_digits w n : length (digits w n) = w.
Proof. revert n. induction w as [|w IH]; intros n; [done|]. cbn. rewrite length_app, IH. simpl. lia. Qed.

Lemma digits_inj w n n' : 0 ≤ n < 10 ^ Z.of_nat w → 0 ≤ n' < 10 ^ Z.of_nat w → digits w n = digits w n' → n = n'.
Proof.
  revert n n'. induction w as [|w IH]; intros n n' Hn Hn' Heq; [simpl in *; lia|].
  rewrite Nat2Z.inj_succ, Z.pow_succ_r in * by lia. cbn [digits] in Heq.
  apply app_inj_2 in Heq as [Hq Hr]; [|done]. apply IH in Hq;
    [|split; [apply Z.div_pos|apply Z.div_lt_upper_bound]; lia..].
  pose proof (Z.mod_pos_bound n 10 eq_refl). pose proof (Z.mod_pos_bound n' 10 eq_refl).
  apply (f_equal (fmap Ascii.N_of_ascii)) in Hr. cbn in Hr. injection Hr as Hr.
  rewrite !Ascii.N_ascii_embedding in Hr by lia.
  rewrite (Z.div_mod n 10), (Z.div_mod n' 10), Hq by lia. lia.
Qed.

Definition us_per_day : Z := 86400000000.
(** The epoch, 1 January 1970, is day 719163. *)
Definition date_of (t : Z) : civil := ord2ymd (t / us_per_day + 719163).
Definition time_of_day (t : Z) : Z := t mod us_per_day.

Definition in_datetime_range (t : Z) : bool :=
  let y := year (date_of t) in (1 <=? y) && (y <=? 9999).

Definition iso_chars (t : Z) : list Ascii.ascii :=
  let c := date_of t in
  let s := time_of_day t / 1000000 in
  digits 4 (year c) ++ ["-"%char] ++ digits 2 (month c) ++ ["-"%char] ++ digits 2 (day c) ++ ["T"%char]
  ++ digits 2 (s / 3600) ++ [":"%char] ++ digits 2 (s / 60 mod 60) ++ [":"%char] ++ digits 2 (s mod 60)
  ++ ["."%char] ++ digits 6 (time_of_day t mod 1000000) ++ String.list_ascii_of_string "+00:00".

(** [t.isoformat(timespec="microseconds")] of a UTC instant *)
Definition isoformat_us (t : Z) : string := String.string_of_list_ascii (iso_chars t).

Example isoformat_ex : isoformat_us 1709210096123456 = "2024-02-29T12:34:56.123456+00:00".
Proof. vm_compute. reflexivity. Qed.

Lemma app_same_length {A} (l1 l2 k1 k2 : list A) :
  length l1 = length l2 → l1 ++ k1 = l2 ++ k2 → l1 = l2 ∧ k1 = k2.
Proof. intros. by apply app_inj_1. Qed.

Lemma digits_app_inj w n n' l l' :
  0 ≤ n < 10 ^ Z.of_nat w → 0 ≤ n' < 10 ^ Z.of_nat w →
  digits w n ++ l = digits w n' ++ l' → n = n' ∧ l = l'.
Proof.
  intros Hn Hn' Heq. apply app_same_length in Heq as [Hd ?]; [|by rewrite !length_digits].
  split; [by eapply digits_inj|done].
Qed.

(** Hours, minutes, seconds and microseconds of a time of day. *)
Lemma time_fields u :
  0 ≤ u < us_per_day →
  let s := u / 1000000 in
  0 ≤ s / 3600 < 24 ∧ 0 ≤ s / 60 mod 60 < 60 ∧ 0 ≤ s mod 60 < 60 ∧ 0 ≤ u mod 1000000 < 1000000 ∧
  u = (s / 3600 * 3600 + s / 60 mod 60 * 60 + s mod 60) * 1000000 + u mod 1000000.
Proof.
  unfold us_per_day. intros Hu. cbv zeta.
  replace (u / 1000000 / 3600) with (u / 1000000 / 60 / 60) by (rewrite (Z.div_div (u / 1000000) 60 60) by lia; done).
  Z.to_euclidean_division_equations. lia.
Qed.

(** Two instants with the same text are the same instant. *)
Lemma isoformat_us_inj t t' :
  in_datetime_range t = true → in_datetime_range t' = true → isoformat_us t = isoformat_us t' → t = t'.
Proof.
  unfold in_datetime_range. intros Hr Hr' Heq. case_bool. apply (f_equal String.list_ascii_of_string) in Heq.
  unfold isoformat_us in Heq. rewrite !String.list_ascii_of_string_of_list_ascii in Heq. unfold iso_chars in Heq.
  destruct (ord2ymd_spec (t / us_per_day + 719163)) as (Hd & ? & ?).
  destruct (ord2ymd_spec (t' / us_per_day + 719163)) as (Hd' & ? & ?). fold (date_of t) (date_of t') in *.
  destruct (time_fields (time_of_day t)) as (? & ? & ? & ? & Ht); [by apply Z.mod_pos_bound|].
  destruct (time_fields (time_of_day t')) as (? & ? & ? & ? & Ht'); [by apply Z.mod_pos_bound|].
  apply digits_app_inj in Heq as [Hy Heq]; [|simpl; lia..].
  apply app_same_length in Heq as [_ Heq]; [|done]. apply digits_app_inj in Heq as [Hm Heq]; [|simpl; lia..].
  apply app_same_length in Heq as [_ Heq]; [|done]. apply digits_app_inj in Heq as [Hdd Heq]; [|simpl; lia..].
  apply app_same_length in Heq as [_ Heq]; [|done]. apply digits_app_inj in Heq as [H_h Heq]; [|simpl; lia..].
  apply app_same_length in Heq as [_ Heq]; [|done]. apply digits_app_inj in Heq as [H_m Heq]; [|simpl; lia..].
  apply app_same_length in Heq as [_ Heq]; [|done]. apply digits_app_inj in Heq as [H_s Heq]; [|simpl; lia..].
  apply app_same_length in Heq as [_ Heq]; [|done]. apply digits_app_inj in Heq as [H_us Heq]; [|simpl; lia..].
  assert (date_of t = date_of t') as Hdate by (destruct (date_of t), (date_of t'); cbn in *; congruence).
  assert (t / us_per_day = t' / us_per_day) by (rewrite Hdate in Hd; lia).
  assert (time_of_day t = time_of_day t') as Htime by (rewrite Ht, Ht', H_h, H_m, H_s, H_us; done).
  unfold time_of_day in Htime. rewrite (Z.div_mod t us_per_day), (Z.div_mod t' us_per_day) by done. congruence.
Qed.
