(* ===== verification/Commitments.v ===== *)
(** * Commitment leaves (labeling/commitments.py)

    The leaf hash of a set of fields, the fields of predictions and of execution
    receipts, and the message a predictor signs.  A leaf binds its fields: equal
    leaves have equal fields, or SHA-256 has a collision. *)

From S2P Require Export Canonical Datetime Merkle.

Definition LEAF_VERSION_PREDICTION : Z := 1.
Definition LEAF_VERSION_EXECUTION_RECEIPT : Z := 2.
Definition SUPPORTED_LEAF_VERSIONS : list Z := [LEAF_VERSION_PREDICTION; LEAF_VERSION_EXECUTION_RECEIPT].
Definition EXECUTION_RECEIPT_KINDS : list string := ["simulation"; "tool_call"; "run"].
Definition PREDICTION_SIGNING_DOMAIN : string := "Teardrop VOR prediction v1".
Definition _RESERVED_LEAF_KEYS : list string := ["v"; "salt"].

(** A [dict]: its keys are distinct. *)
Abbreviation fields := (list (string * json)).

(** [value.astimezone(timezone.utc)], refusing a naive value *)
Definition utc_datetime (value : datetime) : res Z :=
  match utcoffset value with
  | None => Raise (ValueError "Prediction timestamps must include a timezone")
  | Some offset => Ok (instant value offset)
  end.

Definition isoformat (t : Z) : res string :=
  if in_datetime_range t then Ok (isoformat_us t) else Raise (ValueError "date value out of range").

Section leaf_hash.
Context (float_repr : Z → positive → string).

Definition leaf_object (version : Z) (fs : fields) (salt : string) : json :=
  JObj (fs ++ [("v", JInt version); ("salt", JStr salt)]).

Definition leaf_preimage (encoded : string) : bytes := byte_of 0 :: encode_ascii encoded.

Definition leaf_hash (version : Z) (fs : fields) (salt : string) : res string :=
  if negb (bool_decide (version ∈ SUPPORTED_LEAF_VERSIONS))
  then Raise (ValueError "Unsupported commitment leaf version")
  else if negb (hex64 salt)
  then Raise (ValueError "Commitment salt must be 64 lowercase hex characters")
  else if existsb (λ kv, bool_decide (kv.1 ∈ _RESERVED_LEAF_KEYS)) fs
  then Raise (ValueError "Commitment fields cannot override reserved keys")
  else
    preimage ← canonical_json float_repr (leaf_object version fs salt);
    Ok (sha256_hex (leaf_preimage preimage)).

Definition receipt_content_sha256 (content : fields) : res string :=
  encoded ← canonical_json float_repr (JObj content);
  Ok (sha256_hex (encode_ascii encoded)).
End leaf_hash.

Record prediction := MkPrediction {
  prediction_id : string;
  org_id : string;
  signer_address : option string;
  definition_key : string;
  definition_version : Z;
  payload_sha256 : string;
  prediction_at : datetime;
}.

Definition definition_ref (key : string) (version : Z) : string := (key ++ "@" ++ pretty version)%string.

Definition prediction_leaf_fields (p : prediction) : res fields :=
  t ← utc_datetime (prediction_at p);
  at_text ← isoformat t;
  Ok [("prediction_id", JStr (prediction_id p));
      ("org_id", JStr (org_id p));
      ("signer", JStr (default "" (signer_address p)));
      ("definition", JStr (definition_ref (definition_key p) (definition_version p)));
      ("payload_sha256", JStr (payload_sha256 p));
      ("prediction_at", JStr at_text)].

Definition execution_receipt_leaf_fields (receipt_kind receipt_id org_id producer content_sha256 : string)
    (created_at : datetime) : res fields :=
  if negb (bool_decide (receipt_kind ∈ EXECUTION_RECEIPT_KINDS))
  then Raise (ValueError "Unsupported execution receipt kind")
  else if negb (hex64 content_sha256)
  then Raise (ValueError "Receipt content_sha256 must be 64 lowercase hex characters")
  else if is_empty receipt_id || is_empty org_id || is_empty producer
  then Raise (ValueError "Receipt id, org id, and producer are required")
  else
    t ← utc_datetime created_at;
    at_text ← isoformat t;
    Ok [("kind", JStr receipt_kind); ("receipt_id", JStr receipt_id); ("org_id", JStr org_id);
        ("producer", JStr producer); ("content_sha256", JStr content_sha256);
        ("created_at", JStr at_text)].

Definition newline : string := String (byte_of 10) "".

Definition prediction_signing_message (org_id definition_key : string) (definition_version : Z)
    (idempotency_key payload_sha256 : string) : string :=
  String.concat newline
    [PREDICTION_SIGNING_DOMAIN;
     ("org:" ++ org_id)%string;
     ("definition:" ++ definition_ref definition_key definition_version)%string;
     ("idempotency_key:" ++ idempotency_key)%string;
     ("payload_sha256:" ++ payload_sha256)%string].

(** [s.lower()] on ASCII text *)
Definition lower_char (c : Ascii.ascii) : Ascii.ascii :=
  let n := byte_val c in if (65 <=? n) && (n <=? 90) then byte_of (n + 32) else c.
Definition lower (s : string) : string := String.string_of_list_ascii (map lower_char (encode_ascii s)).

(** Signature recovery is eth_account's; [None] stands for any exception. *)
Section recover_signer.
Context (recover_message : string → string → option string).
Definition recover_signer (message signature : string) : option string :=
  lower <$> recover_message message signature.
End recover_signer.

(** ** Binding *)

Lemma sort_keys_scalars (fs : fields) :
  Forall (λ kv : string * json, sort_keys kv.2 = kv.2) fs → map (λ kv, (kv.1, sort_keys kv.2)) fs = fs.
Proof. induction 1 as [|[k v] fs Hv _ IH]; [done|]. cbn in *. by rewrite Hv, IH. Qed.

Definition scalar_fields (fs : fields) : Prop :=
  Forall (λ kv : string * json, sort_keys kv.2 = kv.2 ∧ float_free kv.2 = true) fs.

Lemma leaf_object_float_free version fs salt :
  scalar_fields fs → float_free (leaf_object version fs salt) = true.
Proof.
  intros Hfs. cbn. rewrite forallb_app. cbn. rewrite andb_true_r. apply forallb_forall. intros kv Hkv.
  unfold scalar_fields in Hfs. rewrite Forall_forall in Hfs. by apply Hfs, list_elem_of_In.
Qed.

(** Objects with the same sorted form have the same pairs. *)
Lemma leaf_object_sorted version fs salt version' fs' salt' :
  scalar_fields fs → scalar_fields fs' →
  sort_keys (leaf_object version fs salt) = sort_keys (leaf_object version' fs' salt') →
  fs ++ [("v", JInt version); ("salt", JStr salt)] ≡ₚ fs' ++ [("v", JInt version'); ("salt", JStr salt')].
Proof.
  intros Hfs Hfs' [= Heq]. rewrite !sort_keys_scalars in Heq.
  - rewrite <- (order_by_perm key_leb (fs ++ _)), Heq. by rewrite order_by_perm.
  - apply Forall_app. split; [|by repeat constructor]. eapply Forall_impl; [exact Hfs'|]. by intros ? [? _].
  - apply Forall_app. split; [|by repeat constructor]. eapply Forall_impl; [exact Hfs|]. by intros ? [? _].
Qed.

Lemma reserved_split version fs salt version' fs' salt' :
  (∀ kv, kv ∈ fs → kv.1 ∉ _RESERVED_LEAF_KEYS) → (∀ kv, kv ∈ fs' → kv.1 ∉ _RESERVED_LEAF_KEYS) →
  fs ++ [("v", JInt version); ("salt", JStr salt)] ≡ₚ fs' ++ [("v", JInt version'); ("salt", JStr salt')] →
  version = version' ∧ salt = salt' ∧ fs ≡ₚ fs'.
Proof.
  intros Hr Hr' Hp.
  assert (("v", JInt version) ∈ fs' ++ [("v", JInt version'); ("salt", JStr salt')]) as Hv
    by (rewrite <- Hp; apply elem_of_app; right; left).
  assert (("salt", JStr salt) ∈ fs' ++ [("v", JInt version'); ("salt", JStr salt')]) as Hs
    by (rewrite <- Hp; apply elem_of_app; right; right; left).
  assert (version = version') as ->.
  { apply elem_of_app in Hv as [Hv%Hr'|Hv]; [destruct Hv; left|]. set_solver. }
  assert (salt = salt') as ->.
  { apply elem_of_app in Hs as [Hs%Hr'|Hs]; [destruct Hs; right; left|]. set_solver. }
  split_and!; [done..|]. by apply Permutation_app_inv_r in Hp.
Qed.

Lemma leaf_hash_ok float_repr version fs salt h :
  leaf_hash float_repr version fs salt = Ok h →
  version ∈ SUPPORTED_LEAF_VERSIONS ∧ (∀ kv, kv ∈ fs → kv.1 ∉ _RESERVED_LEAF_KEYS) ∧
  ∃ s, canonical_json float_repr (leaf_object version fs salt) = Ok s ∧ h = sha256_hex (leaf_preimage s).
Proof.
  unfold leaf_hash. destruct (bool_decide (version ∈ _)) eqn:Hv; [|done]. destruct (hex64 salt); [|done].
  destruct (existsb _ fs) eqn:He; [done|]. cbn [negb]. intros (s & Hs & [= <-])%res_bind_ok.
  apply bool_decide_eq_true in Hv. split_and!; [done| |by exists s].
  intros kv Hkv Hin. apply not_true_iff_false in He. apply He, existsb_exists. exists kv.
  split; [by apply list_elem_of_In|by apply bool_decide_eq_true].
Qed.

Lemma sha256_hex_inj_or m m' : sha256_hex m = sha256_hex m' → sha256 m = sha256 m'.
Proof. intros H%(f_equal fromhex). unfold sha256_hex in H. rewrite !fromhex_hex in H. congruence. Qed.

Lemma leaf_hash_binds float_repr version fs salt version' fs' salt' h :
  scalar_fields fs → scalar_fields fs' →
  leaf_hash float_repr version fs salt = Ok h → leaf_hash float_repr version' fs' salt' = Ok h →
  (version = version' ∧ salt = salt' ∧ fs ≡ₚ fs') ∨
  ∃ s s', canonical_json float_repr (leaf_object version fs salt) = Ok s ∧
    canonical_json float_repr (leaf_object version' fs' salt') = Ok s' ∧
    leaf_preimage s ≠ leaf_preimage s' ∧ sha256 (leaf_preimage s) = sha256 (leaf_preimage s').
Proof.
  intros Hfs Hfs' (_ & Hr & s & Hs & ->)%leaf_hash_ok (_ & Hr' & s' & Hs' & Hh)%leaf_hash_ok.
  apply sha256_hex_inj_or in Hh. destruct (decide (s = s')) as [<-|Hne].
  - left. eapply canonical_json_inj in Hs; [|by apply leaf_object_float_free..|exact Hs'].
    by apply reserved_split, leaf_object_sorted.
  - right. exists s, s'. split_and!; [done|done| |done]. intros Heq%(f_equal tail). exact (Hne (encode_ascii_inj _ _ Heq)).
Qed.

(** A leaf is never an inner node: their preimages start with different bytes. *)
Lemma leaf_is_not_node float_repr version fs salt left right h :
  leaf_hash float_repr version fs salt = Ok h → _node left right = Ok h →
  ∃ m m', m ≠ m' ∧ sha256 m = sha256 m' ∧ hex (sha256 m) = h.
Proof.
  intros (_ & _ & s & _ & ->)%leaf_hash_ok Hnode. unfold _node, bytes_fromhex in Hnode.
  destruct (fromhex left) as [l|]; [|done]. destruct (fromhex right) as [r|]; [|done].
  cbn [mbind res_bind] in Hnode. assert (Hh : sha256_hex (node_preimage l r) = sha256_hex (leaf_preimage s)) by congruence.
  clear Hnode. exists (leaf_preimage s), (node_preimage l r).
  split_and!; [|exact (sha256_hex_inj_or _ _ (eq_sym Hh))|reflexivity].
  intros Heq%(f_equal (λ m, byte_val (hd (byte_of 0) m))). by vm_compute in Heq.
Qed.

(** ** Text with separators *)

Lemma encode_ascii_app s s' : encode_ascii (s ++ s')%string = encode_ascii s ++ encode_ascii s'.
Proof. induction s as [|c s IH]; [done|]. exact (f_equal (cons c) IH). Qed.

(** Everything before the last ["@"] is the key, everything after it the version. *)
Lemma definition_ref_inj key version key' version' :
  definition_ref key version = definition_ref key' version' → key = key' ∧ version = version'.
Proof.
  unfold definition_ref. intros H%(f_equal (λ s, rev (encode_ascii s))). rewrite !encode_ascii_app, !rev_app_distr in H.
  cbn [app rev encode_ascii String.list_ascii_of_string] in H. rewrite <- !app_assoc in H.
  assert (∀ z : Z, forallb numeric (rev (encode_ascii (pretty z))) = true) as Hnum.
  { intros z. apply forallb_forall. intros c Hc%in_rev. pose proof (pretty_numeric z) as Hz.
    rewrite forallb_forall in Hz. by apply Hz. }
  apply (span_inj numeric) in H as [Hv Hk]; [|done..].
  injection Hk as Hk. apply (f_equal (@rev _)) in Hv, Hk. rewrite !rev_involutive in Hv, Hk.
  apply encode_ascii_inj in Hv, Hk. by apply (inj pretty) in Hv as ->.
Qed.

Definition single_line (s : string) : bool := forallb (λ c, negb (byte_val c =? 10)) (encode_ascii s).

Lemma line_inj s s' r r' :
  single_line s = true → single_line s' = true →
  encode_ascii s ++ byte_of 10 :: r = encode_ascii s' ++ byte_of 10 :: r' → s = s' ∧ r = r'.
Proof.
  intros Hs Hs' Heq. apply (span_inj (λ c, negb (byte_val c =? 10))) in Heq as [He Hr]; [|done..].
  injection Hr as ->. by apply encode_ascii_inj in He.
Qed.

(** [^[a-z0-9][a-z0-9_.-]{0,127}$] and [^[A-Za-z0-9._:-]{1,128}$] *)
Definition lower_alnum (c : Ascii.ascii) : bool :=
  let n := byte_val c in ((48 <=? n) && (n <=? 57)) || ((97 <=? n) && (n <=? 122)).
Definition upper_alpha (c : Ascii.ascii) : bool := let n := byte_val c in (65 <=? n) && (n <=? 90).
Definition punct (cs : string) (c : Ascii.ascii) : bool := bool_decide (c ∈ encode_ascii cs).

Definition definition_key_ok (s : string) : bool :=
  match encode_ascii s with
  | c :: l => lower_alnum c && forallb (λ c, lower_alnum c || punct "_.-" c) l && (length l <=? 127)%nat
  | [] => false
  end.
Definition idempotency_key_ok (s : string) : bool :=
  let l := encode_ascii s in
  forallb (λ c, lower_alnum c || upper_alpha c || punct "._:-" c) l && (1 <=? length l)%nat && (length l <=? 128)%nat.

Lemma single_line_by (P : Ascii.ascii → bool) s :
  P (byte_of 10) = false → forallb P (encode_ascii s) = true → single_line s = true.
Proof.
  intros H10 HP. apply forallb_forall. intros c Hc. rewrite forallb_forall in HP. specialize (HP c Hc).
  destruct (Z.eqb_spec (byte_val c) 10) as [Heq|]; [|done].
  assert (c = byte_of 10) as ->; [|congruence]. unfold byte_of. rewrite <- Heq. unfold byte_val.
  by rewrite N2Z.id, Ascii.ascii_N_embedding.
Qed.

Lemma definition_key_line s : definition_key_ok s = true → single_line s = true.
Proof.
  unfold definition_key_ok. destruct (encode_ascii s) as [|c l] eqn:E; [done|]. intros H. case_bool.
  apply (single_line_by (λ c, lower_alnum c || punct "_.-" c)); [by vm_compute|]. rewrite E. cbn.
  by match goal with H : lower_alnum c = true |- _ => rewrite H end.
Qed.

Lemma idempotency_key_line s : idempotency_key_ok s = true → single_line s = true.
Proof.
  unfold idempotency_key_ok. intros H. case_bool. by eapply single_line_by; [|eassumption].
Qed.

Lemma hex64_line s : hex64 s = true → single_line s = true.
Proof. unfold hex64. intros [_ H]%andb_true_iff. by apply (single_line_by is_lower_hex). Qed.

Lemma single_line_app s s' : single_line (s ++ s')%string = single_line s && single_line s'.
Proof. unfold single_line. by rewrite encode_ascii_app, forallb_app. Qed.

Lemma pretty_line (z : Z) : single_line (pretty z) = true.
Proof. by apply (single_line_by numeric), pretty_numeric. Qed.

Lemma encode_lines s l : l ≠ [] →
  encode_ascii (String.concat newline (s :: l)) = encode_ascii s ++ byte_of 10 :: encode_ascii (String.concat newline l).
Proof. destruct l as [|t l]; [done|]. intros _. cbn [String.concat]. by rewrite !encode_ascii_app. Qed.

Lemma lines_inj l l' :
  length l = length l' → forallb single_line l = true → forallb single_line l' = true →
  String.concat newline l = String.concat newline l' → l = l'.
Proof.
  revert l'. induction l as [|s l IH]; intros [|s' l'] Hlen Hl Hl' Heq; try done.
  cbn [forallb] in *. apply andb_true_iff in Hl as [Hs Hl], Hl' as [Hs' Hl'].
  destruct l as [|t l], l' as [|t' l']; try done; [cbn in Heq; congruence|].
  apply (f_equal encode_ascii) in Heq. rewrite (encode_lines s), (encode_lines s') in Heq by done.
  apply line_inj in Heq as [-> Heq]; [|done..]. apply encode_ascii_inj in Heq. f_equal.
  apply IH; [by injection Hlen as Hlen; cbn; rewrite Hlen|done..].
Qed.

Lemma append_inj s t t' : (s ++ t)%string = (s ++ t')%string → t = t'.
Proof. intros H%(f_equal encode_ascii). rewrite !encode_ascii_app in H. by apply app_inv_head, encode_ascii_inj in H. Qed.

(** What the submission endpoint accepts as the parts of a signed message. *)
Definition submission_ok (org_id definition_key idempotency_key payload_sha256 : string) : bool :=
  single_line org_id && definition_key_ok definition_key && idempotency_key_ok idempotency_key
  && hex64 payload_sha256.

(** A signed message names one submission: for parts in the formats the endpoint
    accepts, two submissions with the same message have the same organisation,
    definition, version, idempotency key and payload hash. *)
Theorem signing_message_binds org key version ikey sha org' key' version' ikey' sha' :
  submission_ok org key ikey sha = true → submission_ok org' key' ikey' sha' = true →
  prediction_signing_message org key version ikey sha
    = prediction_signing_message org' key' version' ikey' sha' →
  org = org' ∧ key = key' ∧ version = version' ∧ ikey = ikey' ∧ sha = sha'.
Proof.
  unfold submission_ok, prediction_signing_message. intros H H' Heq.
  assert (∀ o k v i s, single_line o && definition_key_ok k && idempotency_key_ok i && hex64 s = true →
    forallb single_line [PREDICTION_SIGNING_DOMAIN; ("org:" ++ o)%string;
      ("definition:" ++ definition_ref k v)%string; ("idempotency_key:" ++ i)%string;
      ("payload_sha256:" ++ s)%string] = true) as Hok.
  { intros o k v i s Hs. apply andb_true_iff in Hs as [[[Ho Hk%definition_key_line]%andb_true_iff
      Hi%idempotency_key_line]%andb_true_iff Hh%hex64_line]. unfold definition_ref.
    cbn [forallb]. by rewrite !single_line_app, Ho, Hk, Hi, Hh, pretty_line. }
  apply lines_inj in Heq; [|done|by apply Hok..].
  injection Heq as Ho Hd Hi Hs. by apply definition_ref_inj in Hd as [-> ->].
Qed.

(** A line break in a part would let two submissions share a message. *)
Example signing_message_ambiguous :
  prediction_signing_message ("a" ++ newline ++ "definition:b@1" ++ newline ++ "idempotency_key:c")%string
    "d" 1 "e" "f" ≠ prediction_signing_message "a" "b" 1 "c" "f" ∧
  prediction_signing_message "a" "b" 1 ("c" ++ newline ++ "payload_sha256:d")%string "e"
  = prediction_signing_message "a" "b" 1 "c" ("d" ++ newline ++ "payload_sha256:e")%string.
Proof. by vm_compute. Qed.

(** ** Prediction leaves *)
Section prediction_leaf.
Context (float_repr : Z → positive → string).

(** The commitment [insert_prediction] stores. *)
Definition prediction_leaf (p : prediction) (salt : string) : res string :=
  fs ← prediction_leaf_fields p;
  leaf_hash float_repr LEAF_VERSION_PREDICTION fs salt.

Definition committed_instant (p : prediction) : option Z :=
  match utc_datetime (prediction_at p) with Ok t => Some t | Raise _ => None end.

Lemma prediction_leaf_fields_ok p fs :
  prediction_leaf_fields p = Ok fs →
  ∃ t, utc_datetime (prediction_at p) = Ok t ∧ in_datetime_range t = true ∧
    fs = [("prediction_id", JStr (prediction_id p)); ("org_id", JStr (org_id p));
          ("signer", JStr (default "" (signer_address p)));
          ("definition", JStr (definition_ref (definition_key p) (definition_version p)));
          ("payload_sha256", JStr (payload_sha256 p)); ("prediction_at", JStr (isoformat_us t))].
Proof.
  unfold prediction_leaf_fields. intros (t & Ht & (txt & Htxt & [= <-])%res_bind_ok)%res_bind_ok.
  exists t. unfold isoformat in Htxt. destruct (in_datetime_range t) eqn:Hr; [|done].
  by injection Htxt as <-.
Qed.

Lemma prediction_fields_scalar p fs : prediction_leaf_fields p = Ok fs → scalar_fields fs.
Proof. intros (t & _ & _ & ->)%prediction_leaf_fields_ok. unfold scalar_fields. by repeat constructor. Qed.

(** Pairs with distinct keys in the same order, equal up to order, are equal. *)
Lemma keyed_perm_eq {A} (l l' : list (string * A)) : l.*1 = l'.*1 → NoDup l.*1 → l ≡ₚ l' → l = l'.
Proof.
  intros Hk Hnd Hp. apply (list_eq_same_length _ _ (length l)); [symmetry; by apply Permutation_length|done|].
  intros i [k a] [k' a'] _ Hl Hl'.
  assert (k = k') as <-.
  { pose proof (list_lookup_fmap fst l i) as H1. pose proof (list_lookup_fmap fst l' i) as H2.
    rewrite Hl in H1. rewrite Hl' in H2. rewrite Hk in H1. cbn in *. congruence. }
  assert ((k, a') ∈ l) as Hin by (rewrite Hp; by eapply list_elem_of_lookup_2).
  apply list_elem_of_lookup in Hin as [j Hj].
  assert (i = j) as <-; [|congruence]. eapply (NoDup_lookup l.*1); [done|..]; rewrite list_lookup_fmap.
  - by rewrite Hl.
  - by rewrite Hj.
Qed.

(** A prediction leaf binds the prediction: two committed predictions with the same
    leaf have the same id, organisation, signer, definition, version, payload hash,
    instant and salt; otherwise their two preimages are a SHA-256 collision. *)
Theorem prediction_leaf_binds p p' salt salt' leaf :
  prediction_leaf p salt = Ok leaf → prediction_leaf p' salt' = Ok leaf →
  (prediction_id p = prediction_id p' ∧ org_id p = org_id p' ∧
   default "" (signer_address p) = default "" (signer_address p') ∧
   definition_key p = definition_key p' ∧ definition_version p = definition_version p' ∧
   payload_sha256 p = payload_sha256 p' ∧ committed_instant p = committed_instant p' ∧ salt = salt') ∨
  ∃ fs fs' s s', prediction_leaf_fields p = Ok fs ∧ prediction_leaf_fields p' = Ok fs' ∧
    canonical_json float_repr (leaf_object LEAF_VERSION_PREDICTION fs salt) = Ok s ∧
    canonical_json float_repr (leaf_object LEAF_VERSION_PREDICTION fs' salt') = Ok s' ∧
    leaf_preimage s ≠ leaf_preimage s' ∧ sha256 (leaf_preimage s) = sha256 (leaf_preimage s').
Proof.
  intros (fs & Hfs & Hl)%res_bind_ok (fs' & Hfs' & Hl')%res_bind_ok.
  pose proof Hfs as Hp. pose proof Hfs' as Hp'.
  apply prediction_leaf_fields_ok in Hfs as (t & Ht & Hr & ->), Hfs' as (t' & Ht' & Hr' & ->).
  destruct (leaf_hash_binds _ _ _ _ _ _ _ _ (prediction_fields_scalar _ _ Hp)
    (prediction_fields_scalar _ _ Hp') Hl Hl') as [(_ & Hsalt & Hperm)|(s & s' & Hs & Hs' & Hne & Hh)]; [left|right; by eexists _, _, s, s'].
  apply keyed_perm_eq in Hperm; [|done|by apply (bool_decide_unpack _); vm_compute].
  remember (isoformat_us t) as a eqn:Ha. remember (isoformat_us t') as a' eqn:Ha'.
  remember (definition_ref (definition_key p) (definition_version p)) as d eqn:Hd.
  remember (definition_ref (definition_key p') (definition_version p')) as d' eqn:Hd'.
  injection Hperm as Hid Horg Hsig Hdef Hsha Hat. subst a a' d d'.
  apply definition_ref_inj in Hdef as [Hkey Hver]. apply isoformat_us_inj in Hat as <-; [|done..].
  unfold committed_instant. rewrite Ht, Ht'. by split_and!.
Qed.
End prediction_leaf.

(** ** A prediction *)
Module CommitmentDemo.
Definition repr (n : Z) (d : positive) : string := (pretty n ++ "/" ++ pretty (Zpos d))%string.
Definition salt : string := "00112233445566778899aabbccddeeff00112233445566778899aabbccddeeff".
Definition sha : string := "e3b0c44298fc1c149afbf4c8996fb92427ae41e4649b934ca495991b7852b855".
Definition pred (signer : option string) : prediction :=
  MkPrediction "p-1" "org-1" signer "price.up" 3 sha (MkDatetime 1709210096123456 (Some 0)).
Definition leaf : string :=
  match prediction_leaf repr (pred None) salt with Ok l => l | Raise _ => "" end.

Example leaf_is_hex : hex64 leaf = true.
Proof. vm_compute. reflexivity. Qed.
Example canonical_text :
  (λ s, encode_ascii s) <$> (match canonical_json repr (JObj [("b", JArr [JInt (-5); JBool true]); ("a", JStr "~")])
    with Ok s => Some s | Raise _ => None end)
  = Some (encode_ascii "{" ++ [quote; "a"%char; quote; ":"%char; quote; "~"%char; quote; ","%char; quote; "b"%char; quote]
          ++ encode_ascii ":[-5,true]}").
Proof. vm_compute. reflexivity. Qed.
Example naive_timestamp_refused :
  prediction_leaf repr (MkPrediction "p" "o" None "k" 1 sha (MkDatetime 0 None)) salt
  = Raise (ValueError "Prediction timestamps must include a timezone").
Proof. reflexivity. Qed.
Example reserved_key_refused :
  leaf_hash repr 1 [("salt", JStr "x")] salt
  = Raise (ValueError "Commitment fields cannot override reserved keys").
Proof. reflexivity. Qed.
End CommitmentDemo.

Lemma signing_message_binds_witness :
  submission_ok "org-1" "price.up" "k:1" CommitmentDemo.sha = true ∧ "price.up" = "price.up" ∧ 3 = 3.
Proof.
  assert (submission_ok "org-1" "price.up" "k:1" CommitmentDemo.sha = true) as H by (vm_compute; reflexivity).
  split; [exact H|].
  destruct (signing_message_binds "org-1" "price.up" 3 "k:1" CommitmentDemo.sha
    "org-1" "price.up" 3 "k:1" CommitmentDemo.sha H H eq_refl) as (_ & Hk & Hv & _). by split.
Defined.

Lemma prediction_leaf_binds_witness :
  let p := CommitmentDemo.pred None in let p' := CommitmentDemo.pred (Some "") in
  prediction_leaf CommitmentDemo.repr p CommitmentDemo.salt = Ok CommitmentDemo.leaf ∧
  (prediction_id p = prediction_id p' ∧ default "" (signer_address p) = default "" (signer_address p') ∨
   ∃ s s', leaf_preimage s ≠ leaf_preimage s' ∧ sha256 (leaf_preimage s) = sha256 (leaf_preimage s')).
Proof.
  cbv zeta.
  assert (prediction_leaf CommitmentDemo.repr (CommitmentDemo.pred None) CommitmentDemo.salt
    = Ok CommitmentDemo.leaf) as H by (vm_compute; reflexivity).
  assert (prediction_leaf CommitmentDemo.repr (CommitmentDemo.pred (Some "")) CommitmentDemo.salt
    = Ok CommitmentDemo.leaf) as H' by (vm_compute; reflexivity).
  split; [exact H|].
  destruct (prediction_leaf_binds CommitmentDemo.repr _ _ _ _ _ H H')
    as [(Hid & _ & Hs & _)|(fs & fs' & s & s' & _ & _ & _ & _ & Hne & Hh)].
  - left. split; [exact Hid|exact Hs].
  - right. exists s, s'. split; [exact Hne|exact Hh].
Defined.
