(* ===== verification/LabelStore.v ===== *)
(** * Labelling store (labeling/store.py, labeling/contracts.py)

    Predictions, the targets they expand to, observations and results: a target
    is claimed under a lease, scored once, and its result is recorded in the
    transaction that closes it.  The guards that migrations 110 and 111 put on
    committed rows are invariants here: no operation of the program changes a
    committed column.

    A [jsonb] column holds the value; its text is [canonical_json]. *)

From S2P Require Export Commitments.

(** [definition_key], [definition_version] *)
Abbreviation def_key := (string * Z)%type.

Record LabelDefinition := MkDefinition {
  prediction_schema : json;
  target_schema : json;
  outcome_schema : json;
  parser_key : string;
  parser_version : string;
  provider_key : string;
  provider_version : string;
  scorer_key : string;
  scorer_version : string;
  config : list (string * json);
  d_active : bool;
}.

Inductive prediction_status := Accepted | InvalidPrediction.

Record PredictionRow := MkPredictionRow {
  p_org : string;
  p_source_kind : string;
  p_source_id : string;
  p_run_id : string;
  p_schedule_id : string;
  p_binding : option string;
  p_definition : def_key;
  p_predictions : list (string * json);
  p_sha256 : string;
  p_at : Z;
  p_status : prediction_status;
  p_parse_error : string;
  p_created : Z;
  p_signer : option string;
  p_signature : option string;
  p_salt : option string;
  p_leaf : option string;
  p_batch : option string;
  p_leaf_index : option Z;
}.
#[export] Instance eta_PredictionRow : Eta PredictionRow :=
  λ r, MkPredictionRow (p_org r) (p_source_kind r) (p_source_id r) (p_run_id r) (p_schedule_id r)
    (p_binding r) (p_definition r) (p_predictions r) (p_sha256 r) (p_at r) (p_status r) (p_parse_error r)
    (p_created r) (p_signer r) (p_signature r) (p_salt r) (p_leaf r) (p_batch r) (p_leaf_index r).

Inductive target_status := TPending | TLeased | TScored | TUnavailable | TInvalid.
#[export] Instance target_status_eq_dec : EqDecision target_status.
Proof. solve_decision. Defined.

Record TargetRow := MkTargetRow {
  t_prediction : string;
  t_org : string;
  t_item_key : string;
  t_item_payload : list (string * json);
  t_window_start : Z;
  t_window_end : Z;
  t_due : Z;
  t_status : target_status;
  t_attempts : Z;
  t_lease_token : option string;
  t_lease_expires : option Z;
  t_last_error : string;
  t_created : Z;
}.
#[export] Instance eta_TargetRow : Eta TargetRow :=
  λ r, MkTargetRow (t_prediction r) (t_org r) (t_item_key r) (t_item_payload r) (t_window_start r)
    (t_window_end r) (t_due r) (t_status r) (t_attempts r) (t_lease_token r) (t_lease_expires r)
    (t_last_error r) (t_created r).

Inductive observation_status := Ready | ObsUnavailable | ObsInvalid.
#[export] Instance observation_status_eq_dec : EqDecision observation_status.
Proof. solve_decision. Defined.

Record ObservationRow := MkObservationRow {
  o_scope : string;
  o_provider : string * string;
  o_request_sha256 : string;
  o_as_of : Z;
  o_payload : option (list (string * json));
  o_status : observation_status;
  o_error : string;
  o_fetched : Z;
}.

Inductive score_status := Correct | Incorrect | Neutral | Inconclusive | Unavailable | Invalid.
Inductive result_source := Automatic | External | Manual.
#[export] Instance score_status_eq_dec : EqDecision score_status.
Proof. solve_decision. Defined.
#[export] Instance result_source_eq_dec : EqDecision result_source.
Proof. solve_decision. Defined.

(** A score is an exact fraction. *)
Record ScoreResult := MkScoreResult {
  s_label : string;
  s_score : option (Z * positive);
  s_status : score_status;
  s_actual : option (list (string * json));
  s_rationale : string;
  s_source : result_source;
}.

(** [ScoreResult.model_validate]: field lengths and [validate_score_state]. *)
Definition is_scored (s : score_status) : bool :=
  match s with Correct | Incorrect | Neutral => true | _ => false end.

Definition length_between (lo hi : nat) (s : string) : bool :=
  (lo <=? String.length s)%nat && (String.length s <=? hi)%nat.

Definition validate_score (r : ScoreResult) : res ScoreResult :=
  if negb (length_between 1 128 (s_label r)) then Raise (ValueError "label length")
  else if negb (length_between 0 2000 (s_rationale r)) then Raise (ValueError "rationale length")
  else
    match is_scored (s_status r), s_score r with
    | true, None => Raise (ValueError "Scored results require a numeric score")
    | false, Some _ => Raise (ValueError "Non-scored results cannot contain a score")
    | _, _ => Ok r
    end.

Record ResultRow := MkResultRow {
  r_id : string;
  r_target : string;
  r_scorer : string * string;
  r_observation : option string;
  r_score : ScoreResult;
  r_created : Z;
}.

(** A commitment batch (migration 110). *)
Record BatchRow := MkBatchRow {
  b_root : string;
  b_leaf_count : Z;
  b_chain : Z;
  b_tx : option string;
  b_address : option string;
  b_block : option Z;
  b_anchored : option Z;
  b_lease : option Z;
  b_attempts : Z;
  b_error : string;
  b_created : Z;
}.
#[export] Instance eta_BatchRow : Eta BatchRow :=
  λ r, MkBatchRow (b_root r) (b_leaf_count r) (b_chain r) (b_tx r) (b_address r) (b_block r)
    (b_anchored r) (b_lease r) (b_attempts r) (b_error r) (b_created r).

Record LabelDb := MkLabelDb {
  definitions : gmap def_key LabelDefinition;
  bindings : gmap string (string * string * string * def_key * bool);
  predictions : gmap string PredictionRow;
  targets : gmap string TargetRow;
  observations : gmap string ObservationRow;
  results : list ResultRow;
  batches : gmap string BatchRow;
}.
#[export] Instance eta_LabelDb : Eta LabelDb :=
  λ d, MkLabelDb (definitions d) (bindings d) (predictions d) (targets d) (observations d) (results d) (batches d).

Abbreviation H := (M LabelDb unit).

(** The parameters of a target, checked when it is built. *)
Record TargetDraft := MkTargetDraft {
  item_key : string;
  item_payload : list (string * json);
  window_start : Z;
  window_end : Z;
  due_at : Z;
}.

Definition make_target (key : string) (payload : list (string * json)) (start stop due : datetime) : res TargetDraft :=
  if is_empty key || (256 <? String.length key)%nat
  then Raise (ValueError "Target item_key must contain 1-256 characters")
  else
    start ← utc_datetime start; stop ← utc_datetime stop; due ← utc_datetime due;
    if stop <=? start then Raise (ValueError "Target window_start must precede window_end")
    else Ok (MkTargetDraft key payload start stop due).

(** A [TIMESTAMPTZ] parameter: the driver refuses a naive value. *)
Definition timestamptz (d : datetime) : res Z :=
  match utcoffset d with Some o => Ok (instant d o) | None => Raise DataError end.

Section store.
Context (float_repr : Z → positive → string) (uuids salts : nat → string).

(** ** Definitions and bindings *)
Definition get_definition (key : def_key) (active_only : bool) : H (option LabelDefinition) :=
  query (λ _ d, df ← definitions d !! key; if active_only && negb (d_active df) then None else Some df).

Definition definition_leb (a b : def_key * LabelDefinition) : bool := b.1.2 <=? a.1.2.

Definition get_active_definition (key : string) : H (option (def_key * LabelDefinition)) :=
  query (λ _ d, head (limit 1 (order_by definition_leb
    (filter (λ kd, d_active kd.2 = true ∧ kd.1.1 = key) (map_to_list (definitions d)))))).

Definition get_binding_for_schedule (schedule_id org_id : string) : H (option (string * def_key)) :=
  query (λ _ d,
    head (omap (λ '(id, (org, kind, source, df, enabled)),
      if bool_decide (kind = "scheduled_run") && bool_decide (source = schedule_id) && bool_decide (org = org_id)
         && (enabled : bool)
      then Some (id, df) else None) (map_to_list (bindings d)))).

(** ** insert_prediction *)

Definition same_submission (r r' : PredictionRow) : bool :=
  bool_decide (p_org r = p_org r') && bool_decide (p_source_kind r = p_source_kind r')
  && bool_decide (p_source_id r = p_source_id r') && bool_decide (p_definition r = p_definition r').

Definition find_submission (d : LabelDb) (row : PredictionRow) : option (string * PredictionRow) :=
  head (filter (λ kv, same_submission row kv.2 = true) (map_to_list (predictions d))).

Definition hex_text (n : nat) (s : string) : bool :=
  (String.length s =? S (S n))%nat && String.prefix "0x" s
  && forallb is_lower_hex (drop 2 (encode_ascii s)).

(** The CHECK constraints of the table. *)
Definition prediction_checks (row : PredictionRow) : bool :=
  (bool_decide (p_source_kind row = "scheduled_run") || bool_decide (p_source_kind row = "external"))
  && hex64 (p_sha256 row)
  && (negb (bool_decide (p_source_kind row = "scheduled_run"))
      || (negb (is_empty (p_run_id row)) && negb (is_empty (p_schedule_id row))))
  && match p_signer row, p_signature row with
     | None, None => negb (bool_decide (p_source_kind row = "external"))
     | Some a, Some g => hex_text 40 a && hex_text 130 g
     | _, _ => false
     end
  && match p_leaf row, p_salt row with
     | None, None => negb (bool_decide (p_source_kind row = "external"))
     | Some l, Some s => hex64 l && hex64 s && match p_status row with Accepted => true | _ => false end
     | _, _ => false
     end.

(** INSERT ... ON CONFLICT (org_id, source_kind, source_id, definition...) DO NOTHING *)
Definition insert_prediction_row (id : string) (row : PredictionRow) (d : LabelDb) : res (bool * LabelDb) :=
  if negb (prediction_checks row) then Raise CheckViolation
  else
    match find_submission d row with
    | Some _ => Ok (false, d)
    | None =>
        match predictions d !! id, definitions d !! p_definition row with
        | Some _, _ => Raise UniqueViolation
        | None, None => Raise ForeignKeyViolation
        | None, Some _ =>
            match p_binding row with
            | Some b =>
                if bool_decide (is_Some (bindings d !! b))
                then Ok (true, d <| predictions ::= <[id := row]> |>) else Raise ForeignKeyViolation
            | None => Ok (true, d <| predictions ::= <[id := row]> |>)
            end
        end
    end.

Definition has_target (d : LabelDb) (prediction key : string) : bool :=
  existsb (λ kv, bool_decide (t_prediction kv.2 = prediction) && bool_decide (t_item_key kv.2 = key))
    (map_to_list (targets d)).

(** INSERT INTO labeling_targets ... ON CONFLICT (prediction_id, item_key) DO NOTHING *)
Definition insert_target_row (prediction org : string) (now : Z) (d : LabelDb) (draft : string * TargetDraft)
    : res LabelDb :=
  let '(id, t) := draft in
  if negb (length_between 1 256 (item_key t)) || (window_end t <=? window_start t) then Raise CheckViolation
  else if has_target d prediction (item_key t) then Ok d
  else
    match targets d !! id, predictions d !! prediction with
    | Some _, _ => Raise UniqueViolation
    | None, None => Raise ForeignKeyViolation
    | None, Some p =>
        if bool_decide (p_org p = org) then
          Ok (d <| targets ::= <[id := MkTargetRow prediction org (item_key t) (item_payload t)
            (window_start t) (window_end t) (due_at t) TPending 0 None None "" now]> |>)
        else Raise ForeignKeyViolation
    end.

Fixpoint insert_target_rows (prediction org : string) (now : Z) (l : list (string * TargetDraft)) (d : LabelDb)
    : res LabelDb :=
  match l with
  | [] => Ok d
  | t :: l => d ← insert_target_row prediction org now d t; insert_target_rows prediction org now l d
  end.

(** The arguments of [executemany]: an id and the checked payload text per target. *)
Definition target_arguments (drafts : list TargetDraft) : H (list (string * TargetDraft)) :=
  for_each drafts [] (λ acc t,
    id ← uuid4 uuids;
    _ ← lift (canonical_json float_repr (JObj (item_payload t)));
    mret (acc ++ [(id, t)])).

Record Submission := MkSubmission {
  i_org : string;
  i_source_kind : string;
  i_source_id : string;
  i_run_id : string;
  i_schedule_id : string;
  i_binding : option string;
  i_definition : def_key;
  i_predictions : list (string * json);
  i_targets : list TargetDraft;
  i_prediction_at : option datetime;
  i_parse_error : string;
  i_signer : option string;
  i_signature : option string;
  i_commit : bool;
}.

Definition submission_status (s : Submission) : prediction_status :=
  if is_empty (i_parse_error s) then Accepted else InvalidPrediction.

(** The salt and leaf of a committed submission. *)
Definition commitment (s : Submission) (id sha : string) (at_ : datetime) : H (option string * option string) :=
  match i_commit s, submission_status s with
  | true, Accepted =>
      salt ← uuid4 salts;
      leaf ← lift (prediction_leaf float_repr
        (MkPrediction id (i_org s) (i_signer s) (i_definition s).1 (i_definition s).2 sha at_) salt);
      mret (Some salt, Some leaf)
  | _, _ => mret (None, None)
  end.

Definition submission_row (s : Submission) (sha : string) (at_ : Z) (salt leaf : option string) : PredictionRow :=
  MkPredictionRow (i_org s) (i_source_kind s) (i_source_id s) (i_run_id s) (i_schedule_id s) (i_binding s)
    (i_definition s) (i_predictions s) sha at_ (submission_status s) (String.substring 0 2000 (i_parse_error s))
    at_ (i_signer s) (i_signature s) salt leaf None None.

Definition insert_prediction (s : Submission) : H (string * bool) :=
  encoded ← lift (canonical_json float_repr (JObj (i_predictions s)));
  let payload_hash := sha256_hex (encode_ascii encoded) in
  id ← uuid4 uuids;
  now ← datetime_now;
  let created_at := default (MkDatetime now (Some 0)) (i_prediction_at s) in
  '(salt, leaf) ← commitment s id payload_hash created_at;
  transaction (
    at_ ← lift (timestamptz created_at);
    let row := submission_row s payload_hash at_ salt leaf in
    inserted ← stmt (λ _, insert_prediction_row id row);
    existing ← (if inserted : bool then mret (Some (id, row)) else query (λ _ d, find_submission d row));
    match existing with
    | None => raise (RuntimeError "Labeling prediction was not persisted")
    | Some (pid, stored) =>
        if negb inserted && bool_decide (i_source_kind s = "external")
           && negb (bool_decide (p_sha256 stored = payload_hash))
        then raise (ValueError "Idempotency key was already used with a different payload")
        else
          match (if inserted : bool then submission_status s else p_status stored) with
          | Accepted =>
              args ← target_arguments (i_targets s);
              stmt (λ now d, d ← insert_target_rows pid (i_org s) now args d; Ok (tt, d));;
              mret (pid, inserted)
          | InvalidPrediction => mret (pid, inserted)
          end
    end).

(** ** Leases *)

(** [ORDER BY due_at ASC, id ASC] *)
Definition due_leb (a b : string * TargetRow) : bool :=
  (t_due a.2 <? t_due b.2) || ((t_due a.2 =? t_due b.2) && String.leb a.1 b.1).

Definition claimable_target (now : Z) (t : TargetRow) : bool :=
  (t_due t <=? now) &&
  match t_status t with
  | TPending => true
  | TLeased => match t_lease_expires t with Some e => e <=? now | None => false end
  | _ => false
  end.

(** [ROW_NUMBER() OVER (PARTITION BY org_id ORDER BY due_at, id) <= n] *)
Fixpoint within_org_rank (n : Z) (seen : string → Z) (l : list (string * TargetRow)) : list (string * TargetRow) :=
  match l with
  | [] => []
  | kt :: l =>
      let org := t_org kt.2 in
      let rest := within_org_rank n (λ o, if bool_decide (o = org) then seen o + 1 else seen o) l in
      if seen org <? n then kt :: rest else rest
  end.

Definition due_targets (limit_ max_per_org now : Z) (d : LabelDb) : list (string * TargetRow) :=
  limit limit_ (within_org_rank max_per_org (λ _, 0)
    (order_by due_leb (filter (λ kt, claimable_target now kt.2 = true) (map_to_list (targets d))))).

Definition leased_target (token : string) (expires : Z) (t : TargetRow) : TargetRow :=
  t <| t_status := TLeased |> <| t_attempts ::= Z.add 1 |> <| t_lease_token := Some token |>
    <| t_lease_expires := Some expires |> <| t_last_error := "" |>.

(** The joined definition of a target's prediction. *)
Definition target_definition (d : LabelDb) (t : TargetRow) : option (def_key * LabelDefinition) :=
  p ← predictions d !! t_prediction t;
  df ← definitions d !! p_definition p;
  if bool_decide (p_org p = t_org t) then Some (p_definition p, df) else None.

Record Claimed := MkClaimed { c_id : string; c_target : TargetRow; c_key : def_key; c_definition : LabelDefinition }.

Fixpoint lease_rows (token : string) (expires : Z) (due : list (string * TargetRow)) (d : LabelDb)
    : list Claimed * LabelDb :=
  match due with
  | [] => ([], d)
  | (id, t) :: due =>
      match target_definition d t with
      | Some (key, df) =>
          let t' := leased_target token expires t in
          let '(claimed, d') := lease_rows token expires due (d <| targets ::= <[id := t']> |>) in
          (MkClaimed id t' key df :: claimed, d')
      | None => lease_rows token expires due d
      end
  end.

Definition claim_due_targets (limit_ max_per_org lease_seconds : Z) : H (list Claimed) :=
  if (limit_ <=? 0) || (max_per_org <=? 0) || (lease_seconds <=? 0) then mret []
  else
    token ← uuid4 uuids;
    transaction (stmt (λ now d,
      Ok (lease_rows token (now + seconds lease_seconds) (due_targets limit_ max_per_org now d) d))).

(** ** Observations *)
Record ObservationRequest := MkObservationRequest {
  q_provider : string * string;
  q_request : list (string * json);
  q_as_of : Z;
  q_scope : string;
}.

Record Observation := MkObservation {
  ob_request : ObservationRequest;
  ob_payload : option (list (string * json));
  ob_status : observation_status;
  ob_error : string;
}.

(** The identity of a request includes its instant. *)
Definition request_sha256 (q : ObservationRequest) : res string :=
  at_text ← isoformat (q_as_of q);
  encoded ← canonical_json float_repr (JObj [("request", JObj (q_request q)); ("as_of", JStr at_text)]);
  Ok (sha256_hex (encode_ascii encoded)).

Definition same_request (q : ObservationRequest) (sha : string) (o : ObservationRow) : bool :=
  bool_decide (o_scope o = q_scope q) && bool_decide (o_provider o = q_provider q)
  && bool_decide (o_request_sha256 o = sha).

Definition find_observation (q : ObservationRequest) (sha : string) (d : LabelDb) : option (string * ObservationRow) :=
  head (filter (λ kv, same_request q sha kv.2 = true) (map_to_list (observations d))).

Definition insert_observation_row (id sha : string) (o : Observation) (now : Z) (d : LabelDb) : res (bool * LabelDb) :=
  let q := ob_request o in
  if negb (length_between 1 256 (q_scope q)) || negb (hex64 sha) then Raise CheckViolation
  else
    match find_observation q sha d, observations d !! id with
    | Some _, _ => Ok (false, d)
    | None, Some _ => Raise UniqueViolation
    | None, None =>
        Ok (true, d <| observations ::= <[id := MkObservationRow (q_scope q) (q_provider q) sha (q_as_of q)
          (ob_payload o) (ob_status o) (String.substring 0 2000 (ob_error o)) now]> |>)
    end.

Definition same_payload (a b : option (list (string * json))) : bool :=
  match a, b with
  | Some a, Some b => py_eq (JObj a) (JObj b)
  | None, None => true
  | _, _ => false
  end.

Definition store_observation (o : Observation) (require_identical : bool) : H string :=
  id ← uuid4 uuids;
  _ ← lift (match ob_payload o with
            | Some p => canonical_json float_repr (JObj p) | None => Ok "" end);
  sha ← lift (request_sha256 (ob_request o));
  inserted ← stmt (insert_observation_row id sha o);
  if inserted : bool then mret id
  else
    existing ← query (λ _, find_observation (ob_request o) sha);
    match existing with
    | None => raise (RuntimeError "Labeling observation was not persisted")
    | Some (oid, row) =>
        if require_identical
           && negb (same_payload (o_payload row) (ob_payload o) && bool_decide (o_status row = ob_status o))
        then raise (ValueError "Pinned observation conflicts with stored evidence")
        else mret oid
    end.

(** ** Results *)

Definition closing_status (s : score_status) : target_status :=
  match s with
  | Correct | Incorrect | Neutral | Inconclusive => TScored
  | Unavailable => TUnavailable
  | Invalid => TInvalid
  end.

Definition held_by (token : string) (t : TargetRow) : bool :=
  bool_decide (t_status t = TLeased) && bool_decide (t_lease_token t = Some token).

Definition close_row (r : ScoreResult) (t : TargetRow) : TargetRow :=
  t <| t_status := closing_status (s_status r) |> <| t_lease_token := None |> <| t_lease_expires := None |>
    <| t_last_error := match s_status r with
                       | Unavailable | Invalid => String.substring 0 2000 (s_rationale r)
                       | _ => "" end |>.

(** UPDATE labeling_targets ... WHERE id = ... AND status = 'leased' AND lease_token = ... *)
Definition update_held (id token : string) (f : TargetRow → TargetRow) (d : LabelDb) : bool * LabelDb :=
  match targets d !! id with
  | Some t => if held_by token t then (true, d <| targets ::= <[id := f t]> |>) else (false, d)
  | None => (false, d)
  end.

Definition score_ok (r : ScoreResult) : bool :=
  match is_scored (s_status r), s_score r with true, Some _ | false, None => true | _, _ => false end.

Definition result_row (id target : string) (df : LabelDefinition) (observation : option string) (r : ScoreResult) (now : Z)
    : ResultRow :=
  MkResultRow id target (scorer_key df, scorer_version df) observation
    (MkScoreResult (s_label r) (s_score r) (s_status r) (s_actual r) (String.substring 0 2000 (s_rationale r)) (s_source r))
    now.

Definition insert_result_row (row : ResultRow) (d : LabelDb) : res (unit * LabelDb) :=
  if negb (score_ok (r_score row)) then Raise CheckViolation
  else if existsb (λ r, bool_decide (r_id r = r_id row)) (results d) then Raise UniqueViolation
  else if negb (bool_decide (is_Some (targets d !! r_target row))) then Raise ForeignKeyViolation
  else
    match r_observation row with
    | Some o =>
        if bool_decide (is_Some (observations d !! o)) then Ok (tt, d <| results ::= λ l, l ++ [row] |>)
        else Raise ForeignKeyViolation
    | None => Ok (tt, d <| results ::= λ l, l ++ [row] |>)
    end.

(** INSERT INTO labeling_results SELECT ... FROM the joined target *)
Definition insert_result_of_target (id target : string) (observation : option string) (r : ScoreResult) (now : Z)
    (d : LabelDb) : res (unit * LabelDb) :=
  match t ← targets d !! target; p ← predictions d !! t_prediction t; definitions d !! p_definition p with
  | Some df => insert_result_row (result_row id target df observation r now) d
  | None => Ok (tt, d)
  end.

Definition actual_text (r : ScoreResult) : res unit :=
  match s_actual r with
  | Some a => canonical_json float_repr (JObj a) ≫= λ _, Ok tt
  | None => Ok tt
  end.

Definition complete_target (target_id lease_token : string) (result : ScoreResult) (observation_id : option string)
    : H bool :=
  result_id ← uuid4 uuids;
  transaction (
    held ← stmt (λ _ d, Ok (update_held target_id lease_token (close_row result) d));
    if held : bool then
      lift (actual_text result);;
      stmt (insert_result_of_target result_id target_id observation_id result);;
      mret true
    else mret false).

Definition retry_row (due : Z) (error : string) (t : TargetRow) : TargetRow :=
  t <| t_status := TPending |> <| t_due := due |> <| t_lease_token := None |> <| t_lease_expires := None |>
    <| t_last_error := String.substring 0 2000 error |>.

Definition retry_target (target_id lease_token error : string) (delay_seconds : Z) : H bool :=
  let delay := Z.max 1 (Z.min delay_seconds 86400) in
  stmt (λ now d, Ok (update_held target_id lease_token (retry_row (now + seconds delay) error) d)).

(** The target, its scorer and whether its prediction is committed. *)
Definition override_row (target_id org_id : string) (d : LabelDb) : option (TargetRow * LabelDefinition * bool) :=
  t ← targets d !! target_id;
  p ← predictions d !! t_prediction t;
  df ← definitions d !! p_definition p;
  if bool_decide (t_org t = org_id) then Some (t, df, bool_decide (is_Some (p_leaf p))) else None.

Definition overridden_row (r : ScoreResult) (t : TargetRow) : TargetRow :=
  t <| t_status := closing_status (s_status r) |> <| t_last_error := "" |>.

Definition append_result_override (target_id org_id : string) (result : ScoreResult) : H bool :=
  result_id ← uuid4 uuids;
  transaction (
    row ← query (λ _, override_row target_id org_id);
    match row with
    | None => mret false
    | Some (t, df, committed) =>
        if bool_decide (t_status t = TLeased) then mret false
        else if committed && bool_decide (t_status t = TPending) then mret false
        else
          (if committed then mret tt
           else stmt (λ _ d, Ok (tt, d <| targets ::= alter (overridden_row result) target_id |>)));;
          lift (actual_text result);;
          stmt (λ now, insert_result_row (result_row result_id target_id df None result now));;
          mret true
    end).

(** [POST /labeling/results/{target_id}/override] *)
Definition override_labeling_result (target_id org_id : string) (body : ScoreResult) : H bool :=
  body ← lift (validate_score body);
  if bool_decide (s_source body = Automatic) then raise (ValueError "Override source is invalid.")
  else append_result_override target_id org_id body.
End store.

(** ** The lifecycle invariant *)
Section invariant.
Context (float_repr : Z → positive → string).

Definition results_of (d : LabelDb) (target : string) : list ResultRow :=
  filter (λ r, r_target r = target) (results d).

Definition source_of (r : ResultRow) : result_source := s_source (r_score r).

(** The prediction a committed row stands for. *)
Definition prediction_of (id : string) (p : PredictionRow) : prediction :=
  MkPrediction id (p_org p) (p_signer p) (p_definition p).1 (p_definition p).2 (p_sha256 p)
    (MkDatetime (p_at p) (Some 0)).

Definition committed (p : PredictionRow) : Prop := is_Some (p_leaf p).

Definition prediction_ok (d : LabelDb) (id : string) (p : PredictionRow) : Prop :=
  is_Some (definitions d !! p_definition p) ∧
  match p_leaf p, p_salt p with
  | Some l, Some s => hex64 l = true ∧ prediction_leaf float_repr (prediction_of id p) s = Ok l
  | None, None => True
  | _, _ => False
  end.

Definition lease_ok (t : TargetRow) : Prop :=
  match t_status t with
  | TLeased => is_Some (t_lease_token t) ∧ is_Some (t_lease_expires t)
  | _ => t_lease_token t = None ∧ t_lease_expires t = None
  end.

(** An open target has no result; a closed one has, and if its prediction is
    committed the first is the only automatic one. *)
Definition history_ok (p : PredictionRow) (t : TargetRow) (rs : list ResultRow) : Prop :=
  match t_status t with
  | TPending | TLeased => rs = []
  | _ =>
      match rs with
      | [] => False
      | r :: rs => committed p → source_of r = Automatic ∧ Forall (λ r, source_of r ≠ Automatic) rs
      end
  end.

Definition target_ok (d : LabelDb) (id : string) (t : TargetRow) : Prop :=
  lease_ok t ∧
  ∃ p, predictions d !! t_prediction t = Some p ∧ p_org p = t_org t ∧ history_ok p t (results_of d id).

Record labels_ok (d : LabelDb) : Prop := {
  ok_predictions : ∀ id p, predictions d !! id = Some p → prediction_ok d id p;
  ok_targets : ∀ id t, targets d !! id = Some t → target_ok d id t;
  ok_results : ∀ r, r ∈ results d → is_Some (targets d !! r_target r);
}.

(** No operation changes a stored prediction or a batch: rows are only added. *)
Definition extends (d d' : LabelDb) : Prop :=
  batches d' = batches d ∧ predictions d ⊆ predictions d' ∧
  ∀ id p, predictions d' !! id = Some p → predictions d !! id = Some p ∨ p_batch p = None.

#[export] Instance extends_preorder : PreOrder extends.
Proof.
  split.
  - intros d. split_and!; [done..|auto].
  - intros d1 d2 d3 (Hb & Hs & Hn) (Hb' & Hs' & Hn'). split_and!; [congruence|by etrans|].
    intros id p Hp. destruct (Hn' id p Hp) as [Hp'|]; auto.
Qed.

Lemma extends_same d d' : batches d' = batches d → predictions d' = predictions d → extends d d'.
Proof. intros Hb Hp. unfold extends. rewrite Hb, Hp. split_and!; auto. Qed.

Lemma results_of_nil d id : labels_ok d → targets d !! id = None → results_of d id = [].
Proof.
  intros Hd Hid. destruct (results_of d id) as [|r rs] eqn:E; [done|].
  assert (r ∈ results_of d id) as [<- Hr]%list_elem_of_filter by (rewrite E; left).
  destruct (ok_results d Hd r Hr) as [? ?]. congruence.
Qed.

(** Replacing one target row keeps the invariant when the row stays well-formed. *)
Lemma labels_ok_update d id t t' :
  labels_ok d → targets d !! id = Some t →
  t_prediction t' = t_prediction t → t_org t' = t_org t → lease_ok t' →
  (∀ p, history_ok p t (results_of d id) → history_ok p t' (results_of d id)) →
  labels_ok (d <| targets ::= <[id := t']> |>).
Proof.
  intros Hd Ht Hp Ho Hl Hh. destruct (ok_targets d Hd id t Ht) as (_ & p & Hpred & Horg & Hhist).
  split; cbn.
  - apply Hd.
  - intros id' t0 Hid'. destruct (decide (id' = id)) as [->|Hne].
    + rewrite lookup_insert_eq in Hid'. injection Hid' as <-. split; [done|]. exists p. cbn.
      rewrite Hp, Ho. split_and!; [done..|by apply Hh].
    + rewrite lookup_insert_ne in Hid' by done. exact (ok_targets d Hd id' t0 Hid').
  - intros r Hr. destruct (ok_results d Hd r Hr) as [t1 Ht1].
    destruct (decide (r_target r = id)) as [->|]; [by rewrite lookup_insert_eq|by rewrite lookup_insert_ne].
Qed.

Lemma results_of_app d row id :
  results_of (d <| results ::= λ l, l ++ [row] |>) id
  = results_of d id ++ (if bool_decide (r_target row = id) then [row] else []).
Proof.
  unfold results_of. cbn. rewrite filter_app. f_equal. rewrite filter_cons, filter_nil.
  by destruct (decide (r_target row = id)), (bool_decide_reflect (r_target row = id)).
Qed.

(** Closing a target together with its first result. *)
Lemma labels_ok_close d id t t' row :
  labels_ok d → targets d !! id = Some t →
  t_prediction t' = t_prediction t → t_org t' = t_org t → lease_ok t' →
  r_target row = id →
  (∀ p, predictions d !! t_prediction t = Some p →
     history_ok p t (results_of d id) → history_ok p t' (results_of d id ++ [row])) →
  labels_ok (d <| targets ::= <[id := t']> |> <| results ::= λ l, l ++ [row] |>).
Proof.
  intros Hd Ht Hp Ho Hl Hrow Hh. destruct (ok_targets d Hd id t Ht) as (_ & p & Hpred & Horg & Hhist).
  split; cbn.
  - apply Hd.
  - intros id' t0 Hid'. unfold target_ok. rewrite results_of_app, Hrow. cbn.
    destruct (decide (id' = id)) as [->|Hne].
    + rewrite lookup_insert_eq in Hid'. injection Hid' as <-. rewrite bool_decide_true by done.
      split; [done|]. exists p. rewrite Hp, Ho. split_and!; [done..|by apply Hh].
    + rewrite lookup_insert_ne in Hid' by done. rewrite bool_decide_false, app_nil_r by done.
      exact (ok_targets d Hd id' t0 Hid').
  - intros r [Hr| ->%list_elem_of_singleton]%elem_of_app; [|rewrite Hrow; by rewrite lookup_insert_eq].
    destruct (ok_results d Hd r Hr) as [t1 Ht1].
    destruct (decide (r_target r = id)) as [->|]; [by rewrite lookup_insert_eq|by rewrite lookup_insert_ne].
Qed.

Lemma labels_ok_append d id t row :
  labels_ok d → targets d !! id = Some t → r_target row = id →
  (∀ p, history_ok p t (results_of d id) → history_ok p t (results_of d id ++ [row])) →
  labels_ok (d <| results ::= λ l, l ++ [row] |>).
Proof.
  intros Hd Ht Hrow Hh.
  pose proof (labels_ok_close d id t t row Hd Ht eq_refl eq_refl) as H.
  cut (labels_ok (d <| targets ::= <[id := t]> |> <| results ::= λ l, l ++ [row] |>)).
  { pose proof (insert_id (targets d) id t Ht) as E. destruct d as [df bs ps ts os rs qs]. cbn in E.
    change (labels_ok (MkLabelDb df bs ps (<[id := t]> ts) os (rs ++ [row]) qs)
      → labels_ok (MkLabelDb df bs ps ts os (rs ++ [row]) qs)). by rewrite E. }
  apply H; [|done|intros p _; apply Hh]. by destruct (ok_targets d Hd id t Ht).
Qed.

(** ** The statements keep it *)

Lemma insert_prediction_row_ok d id row b d' :
  labels_ok d →
  match p_leaf row, p_salt row with
  | Some l, Some s => hex64 l = true ∧ prediction_leaf float_repr (prediction_of id row) s = Ok l
  | None, None => True
  | _, _ => False
  end → p_batch row = None →
  insert_prediction_row id row d = Ok (b, d') →
  labels_ok d' ∧ extends d d' ∧ (b = true → predictions d' !! id = Some row).
Proof.
  intros Hd Hleaf Hbatch. unfold insert_prediction_row. destruct (prediction_checks row); [|done].
  destruct (find_submission d row); [intros [= <- <-]; by split_and!|].
  destruct (predictions d !! id) eqn:Hid; [done|]. destruct (definitions d !! _) eqn:Hdf; [|done].
  intros Heq. assert (b = true ∧ d' = d <| predictions ::= <[id := row]> |>) as [-> ->].
  { destruct (p_binding row); [|by injection Heq as <- <-]. case_bool_decide; [|done]. by injection Heq as <- <-. }
  split_and!; [|split_and!|intros _; apply lookup_insert_eq].
  - split; cbn.
    + intros id' p Hp. destruct (decide (id' = id)) as [->|].
      * rewrite lookup_insert_eq in Hp. injection Hp as <-. split; [|done]. cbn. by rewrite Hdf.
      * rewrite lookup_insert_ne in Hp by done. exact (ok_predictions d Hd id' p Hp).
    + intros id' t Ht. destruct (ok_targets d Hd id' t Ht) as (Hl & p & Hp & Ho & Hh).
      split; [done|]. exists p. split_and!; [|done..]. cbn. rewrite lookup_insert_ne; [done|congruence].
    + apply Hd.
  - done.
  - cbn. by apply insert_subseteq.
  - cbn. intros id' p Hp. destruct (decide (id' = id)) as [->|].
    + rewrite lookup_insert_eq in Hp. injection Hp as <-. by right.
    + rewrite lookup_insert_ne in Hp by done. by left.
Qed.

Lemma insert_target_row_ok d prediction org now draft d' :
  labels_ok d → insert_target_row prediction org now d draft = Ok d' → labels_ok d' ∧ extends d d'.
Proof.
  intros Hd. destruct draft as [id t]. unfold insert_target_row.
  destruct (_ || _); [done|]. destruct (has_target d prediction _); [by intros [= <-]|].
  destruct (targets d !! id) eqn:Hid; [done|]. destruct (predictions d !! prediction) as [p|] eqn:Hp; [|done].
  case_bool_decide as Horg; [|done]. intros [= <-]. split; [|by apply extends_same].
  pose proof (results_of_nil d id Hd Hid) as Hnil. split; cbn.
  - apply Hd.
  - intros id' t' Ht'. destruct (decide (id' = id)) as [->|].
    + rewrite lookup_insert_eq in Ht'. injection Ht' as <-. split; [done|]. exists p. split_and!; [done..|].
      unfold history_ok. cbn. exact Hnil.
    + rewrite lookup_insert_ne in Ht' by done. exact (ok_targets d Hd id' t' Ht').
  - intros r Hr. destruct (ok_results d Hd r Hr) as [t1 Ht1].
    rewrite lookup_insert_ne; [by exists t1|congruence].
Qed.

Lemma insert_target_rows_ok d prediction org now l d' :
  labels_ok d → insert_target_rows prediction org now l d = Ok d' → labels_ok d' ∧ extends d d'.
Proof.
  revert d. induction l as [|a l IH]; intros d Hd; cbn; [by intros [= <-]|].
  intros (d1 & H1 & H2)%res_bind_ok. apply insert_target_row_ok in H1 as [Hd1 He1]; [|done].
  apply IH in H2 as [Hd2 He2]; [|done]. split; [done|by etrans].
Qed.

Definition is_open (s : target_status) : bool := match s with TPending | TLeased => true | _ => false end.

Lemma history_open p t t' rs :
  is_open (t_status t) = true → is_open (t_status t') = true → history_ok p t rs → history_ok p t' rs.
Proof. unfold history_ok. by destruct (t_status t), (t_status t'). Qed.

Lemma claimable_open now t : claimable_target now t = true → is_open (t_status t) = true.
Proof. unfold claimable_target. destruct (t_status t); rewrite ?andb_false_r; done. Qed.

Lemma lease_rows_ok token expires due d :
  labels_ok d → NoDup due.*1 →
  (∀ id t, (id, t) ∈ due → targets d !! id = Some t ∧ is_open (t_status t) = true) →
  labels_ok (lease_rows token expires due d).2 ∧ extends d (lease_rows token expires due d).2.
Proof.
  revert d. induction due as [|[id t] due IH]; intros d Hd Hnd Hdue; [done|].
  apply NoDup_cons in Hnd as [Hid Hnd]. cbn [lease_rows fmap list_fmap fst] in *.
  destruct (target_definition d t) as [[key df]|].
  2: { apply IH; [done..|]. intros. apply Hdue. by right. }
  destruct (Hdue id t) as [Ht Ho]; [by left|]. set (t' := leased_target token expires t).
  set (d1 := d <| targets ::= <[id := t']> |>).
  assert (labels_ok d1) as Hd1.
  { apply (labels_ok_update d id t t'); [done..|by split|]. intros p. by apply history_open. }
  destruct (IH d1) as [Hd2 He2]; [done..| |].
  - intros id' t0 Hin. destruct (Hdue id' t0) as [Ht0 Ho0]; [by right|]. split; [|done].
    unfold d1. cbn. rewrite lookup_insert_ne; [done|]. intros ->. apply Hid. apply list_elem_of_fmap. by exists (id', t0).
  - destruct (lease_rows token expires due d1) as [cl d2]. cbn in *. split; [done|].
    etrans; [|exact He2]. by apply extends_same.
Qed.

Lemma within_org_rank_sublist n seen l : within_org_rank n seen l `sublist_of` l.
Proof.
  revert seen. induction l as [|kt l IH]; intros seen; [done|]. cbn. destruct (seen _ <? n).
  - by apply sublist_skip.
  - by apply sublist_cons.
Qed.

Lemma due_targets_sublist limit_ per now d :
  due_targets limit_ per now d `sublist_of`
    order_by due_leb (filter (λ kt, claimable_target now kt.2 = true) (map_to_list (targets d))).
Proof. unfold due_targets, limit. etrans; [apply sublist_take|apply within_org_rank_sublist]. Qed.

Lemma due_targets_spec limit_ per now d id t :
  (id, t) ∈ due_targets limit_ per now d → targets d !! id = Some t ∧ claimable_target now t = true.
Proof.
  intros Hin. eapply elem_of_sublist in Hin; [|apply due_targets_sublist].
  apply elem_of_order_by, list_elem_of_filter in Hin as [Hc Hin]. by apply elem_of_map_to_list in Hin.
Qed.

Lemma due_targets_NoDup limit_ per now d : NoDup (due_targets limit_ per now d).*1.
Proof.
  eapply sublist_NoDup; [|apply (fmap_sublist fst), due_targets_sublist].
  rewrite (order_by_perm due_leb). eapply sublist_NoDup; [|apply (fmap_sublist fst), sublist_filter].
  apply NoDup_fst_map_to_list.
Qed.
End invariant.

(** ** The handlers keep it, whatever fails and whoever interferes

    [J] is any further invariant of the tables that survives added rows. *)
Section handlers.
Context (float_repr : Z → positive → string) (uuids salts : nat → string).
Context (J : LabelDb → Prop) (J_extends : ∀ d d', extends d d' → J d → J d').

Definition store_inv (d : LabelDb) (_ : unit) : Prop := labels_ok float_repr d ∧ J d.

Lemma store_inv_step d d' u :
  store_inv d u → labels_ok float_repr d' → extends d d' → store_inv d' u.
Proof. intros [_ HJ] Hd' He. split; [done|]. by eapply J_extends. Qed.

(** Facts a commitment establishes about the row it goes into. *)
Definition commitment_ok (s : Submission) (id sha : string) (at_ : datetime) (salt leaf : option string) : Prop :=
  match leaf, salt with
  | Some l, Some k => hex64 l = true ∧ prediction_leaf float_repr
      (MkPrediction id (i_org s) (i_signer s) (i_definition s).1 (i_definition s).2 sha at_) k = Ok l
  | None, None => True
  | _, _ => False
  end.

Lemma prediction_leaf_hex p salt l : prediction_leaf float_repr p salt = Ok l → hex64 l = true.
Proof.
  unfold prediction_leaf. intros (fs & _ & (_ & _ & t & _ & ->)%leaf_hash_ok)%res_bind_ok. apply sha256_hex64.
Qed.

Lemma commitment_spec s id sha at_ (Q : res (option string * option string) → Prop) :
  (∀ e, Q (Raise e)) → (∀ salt leaf, commitment_ok s id sha at_ salt leaf → Q (Ok (salt, leaf))) →
  wpi store_inv (commitment float_repr salts s id sha at_) Q.
Proof.
  intros HE HQ. unfold commitment. destruct (i_commit s), (submission_status s);
    try (apply wpi_ret, HQ; done).
  repeat inv_step; [|apply HE]. apply HQ. split; [|done]. by eapply prediction_leaf_hex.
Qed.

(** The leaf depends on the instant, not on the offset it was given with. *)
Lemma commitment_row s id sha at_ t salt leaf :
  timestamptz at_ = Ok t → commitment_ok s id sha at_ salt leaf →
  let row := submission_row s sha t salt leaf in
  match p_leaf row, p_salt row with
  | Some l, Some k => hex64 l = true ∧ prediction_leaf float_repr (prediction_of id row) k = Ok l
  | None, None => True
  | _, _ => False
  end.
Proof.
  unfold timestamptz, commitment_ok. destruct (utcoffset at_) as [o|] eqn:Ho; [|done]. intros [= <-].
  cbn. destruct leaf, salt; try done. intros [Hh Hl]. split; [done|].
  unfold prediction_leaf, prediction_leaf_fields, prediction_of, utc_datetime in *. cbn in *.
  rewrite Ho in Hl. unfold instant in *. cbn in *. by rewrite Z.sub_0_r.
Qed.

Lemma target_arguments_spec drafts now (Q : list (string * TargetDraft) → LabelDb → Prop) (E : exn → LabelDb → Prop) d :
  (∀ args, Q args d) → (∀ e, E e d) → wpt now (target_arguments float_repr uuids drafts) Q E d.
Proof.
  intros HQ HE. unfold target_arguments. eapply wpt_mono.
  - apply (wpt_for_each now drafts _ _ (λ _ d', d' = d) (λ _ d', d' = d)); [done|].
    intros acc t d' _ ->. tx_auto.
  - intros a d' ->. apply HQ.
  - intros e d' ->. apply HE.
Qed.

Lemma insert_prediction_keeps s : preserves store_inv (insert_prediction float_repr uuids salts s).
Proof.
  unfold insert_prediction. repeat inv_step; try done.
  apply commitment_spec; [done|]. intros salt leaf Hc. repeat inv_step; [done|]. intros now d u HI.
  apply wpt_bind. destruct (timestamptz _) as [at_|e] eqn:Hat; [|by apply wpt_raise]. apply wpt_ret.
  apply wpt_bind, wpt_stmt; [done|].
  set (row := submission_row _ _ _ _ _).
  destruct (insert_prediction_row s0 row d) as [[inserted d1]|e] eqn:Hins; [|done]. split; [|done].
  assert (labels_ok float_repr d1 ∧ extends d d1) as [Hd1 He1].
  { destruct (insert_prediction_row_ok float_repr d s0 row inserted d1) as (? & ? & _); [apply HI| |done|done|done].
    by eapply commitment_row. }
  assert (store_inv d1 u) as HI1 by (by eapply store_inv_step).
  apply wpt_bind. eapply wpt_mono with (Q := λ _ d', d' = d1) (E := λ _ _, True);
    [destruct inserted; tx_auto|intros existing ? ->|done].
  destruct existing as [[pid stored]|]; [|by apply wpt_raise].
  destruct (_ && _ && _); [by apply wpt_raise|].
  destruct (if inserted then _ else _); [|by apply wpt_ret].
  apply wpt_bind, target_arguments_spec; [|done]. intros args. apply wpt_bind, wpt_stmt; [done|].
  destruct (insert_target_rows pid (i_org s) now args d1) as [d2|e] eqn:Hrows; cbn; [|done]. split; [|done].
  apply (insert_target_rows_ok float_repr) in Hrows as [Hd2 He2]; [|done]. apply wpt_ret. split; [|done].
  by eapply store_inv_step.
Qed.

Lemma claim_due_targets_keeps n per secs : preserves store_inv (claim_due_targets uuids n per secs).
Proof.
  unfold claim_due_targets. repeat inv_step; try done. intros now d u HI. apply wpt_stmt; [done|].
  pose proof (lease_rows_ok float_repr s (now + seconds secs) (due_targets n per now d) d) as Hl.
  destruct (lease_rows s _ _ d) as [cl d'] eqn:Hrows. cbn in Hl. destruct Hl as [Hd' He].
  - apply HI.
  - apply due_targets_NoDup.
  - intros id t Hin. apply due_targets_spec in Hin as [? ?]. split; [done|]. by eapply claimable_open.
  - split; [split; [|done]|done]. by eapply store_inv_step.
Qed.

Lemma insert_observation_row_ok id sha o now d b d' :
  labels_ok float_repr d → insert_observation_row id sha o now d = Ok (b, d') →
  labels_ok float_repr d' ∧ extends d d'.
Proof.
  intros Hd. unfold insert_observation_row. destruct (_ || _); [done|].
  destruct (find_observation _ _ _); [by intros [= <- <-]|]. destruct (observations d !! id); [done|].
  intros [= <- <-]. split; [by split; apply Hd|by apply extends_same].
Qed.

Lemma store_observation_keeps o b : preserves store_inv (store_observation float_repr uuids o b).
Proof.
  unfold store_observation. repeat inv_step; try done.
  intros now d u HI. destruct (insert_observation_row _ _ _ _ _) as [[ins d']|e] eqn:Hins; [|done].
  apply insert_observation_row_ok in Hins as [? ?]; [|apply HI].
  split; [by eapply store_inv_step|]. destruct ins; inv_auto.
Qed.

(** Losing a lease to a retry. *)
Lemma update_held_spec id token f d :
  (∃ t, targets d !! id = Some t ∧ t_status t = TLeased ∧ t_lease_token t = Some token ∧
     update_held id token f d = (true, d <| targets ::= <[id := f t]> |>)) ∨
  update_held id token f d = (false, d).
Proof.
  unfold update_held. destruct (targets d !! id) as [t|]; [|by right].
  unfold held_by. destruct (_ && _) eqn:Hh; [|by right]. case_bool. left. by exists t.
Qed.

Lemma retry_target_keeps id token error delay : preserves store_inv (retry_target id token error delay).
Proof.
  unfold retry_target. apply wpi_stmt; [done|]. intros now d u HI.
  destruct (update_held_spec id token (retry_row (now + seconds (Z.max 1 (Z.min delay 86400))) error) d)
    as [(t & Ht & Hs & Htok & ->)| ->]; [|done].
  split; [|done]. eapply store_inv_step; [done| |by apply extends_same].
  eapply labels_ok_update; [apply HI|done..|]. intros p. apply history_open; [by rewrite Hs|done].
Qed.

Lemma insert_result_row_spec row d d' :
  insert_result_row row d = Ok (tt, d') → d' = d <| results ::= λ l, l ++ [row] |>.
Proof.
  unfold insert_result_row. destruct (score_ok _); [|done]. destruct (existsb _ _); [done|].
  case_bool_decide; [|done]. destruct (r_observation row); [case_bool_decide; [|done]|]; by intros [= <-].
Qed.

(** The result of a target is inserted: its prediction and definition exist. *)
Lemma insert_result_of_target_spec rid id obs r now d t p d' :
  targets d !! id = Some t → predictions d !! t_prediction t = Some p → is_Some (definitions d !! p_definition p) →
  insert_result_of_target rid id obs r now d = Ok (tt, d') →
  ∃ row, d' = d <| results ::= λ l, l ++ [row] |> ∧ r_target row = id ∧ source_of row = s_source r ∧
    r_observation row = obs ∧ s_status (r_score row) = s_status r ∧ s_score (r_score row) = s_score r.
Proof.
  intros Ht Hp [df Hdf]. unfold insert_result_of_target. rewrite Ht. cbn. rewrite Hp. cbn. rewrite Hdf.
  intros H%insert_result_row_spec. by eexists.
Qed.

Lemma history_close p t t' rs row :
  is_open (t_status t) = true → is_open (t_status t') = false → source_of row = Automatic →
  history_ok p t rs → history_ok p t' (rs ++ [row]).
Proof.
  unfold history_ok. intros Ho Hc Hrow Hrs.
  assert (rs = []) as -> by (by destruct (t_status t)). by destruct (t_status t').
Qed.

Lemma closing_closed s : is_open (closing_status s) = false.
Proof. by destruct s. Qed.

(** What a completed transaction leaves: the closed target and its result. *)
Lemma close_and_record rid id token obs r now d u t d' :
  store_inv d u → s_source r = Automatic →
  targets d !! id = Some t → t_status t = TLeased →
  insert_result_of_target rid id obs r now (d <| targets ::= <[id := close_row r t]> |>) = Ok (tt, d') →
  held_by token t = true →
  store_inv d' u.
Proof.
  intros HI Hsrc Ht Hs Hins _. pose proof (proj1 HI) as Hd.
  destruct (ok_targets _ _ Hd id t Ht) as (_ & p & Hp & _ & _).
  destruct (ok_predictions _ _ Hd _ p Hp) as [Hdf _].
  edestruct insert_result_of_target_spec as (row & -> & Hrow & Hsource & _); [| | |exact Hins|].
  - apply lookup_insert_eq.
  - exact Hp.
  - exact Hdf.
  - eapply store_inv_step; [done| |by apply extends_same].
    eapply labels_ok_close; [done|done|done|done| |done|].
    + unfold lease_ok. cbn. by destruct (s_status r).
    + intros p' _. apply history_close; [by rewrite Hs|cbn; apply closing_closed|congruence].
Qed.

Lemma complete_target_keeps id token r obs :
  s_source r = Automatic → preserves store_inv (complete_target float_repr uuids id token r obs).
Proof.
  intros Hsrc. unfold complete_target. repeat inv_step; [done|]. intros now d u HI.
  apply wpt_bind, wpt_stmt; [done|].
  destruct (update_held_spec id token (close_row r) d) as [(t & Ht & Hs & Htok & ->)| ->].
  2: { split; [by apply wpt_ret|done]. }
  split; [|done]. apply wpt_bind. unfold lift. destruct (actual_text float_repr r); [|by apply wpt_raise].
  apply wpt_ret, wpt_bind, wpt_stmt; [done|].
  destruct (insert_result_of_target _ id obs r now _) as [[[] d']|e] eqn:Hins; [|done]. split; [|done].
  apply wpt_ret. split; [|done]. eapply (close_and_record _ id token); try done.
  unfold held_by. by rewrite Hs, Htok, !bool_decide_true.
Qed.

Lemma override_row_spec id org d t df c :
  labels_ok float_repr d → override_row id org d = Some (t, df, c) →
  targets d !! id = Some t ∧ ∃ p, predictions d !! t_prediction t = Some p ∧ c = bool_decide (committed p).
Proof.
  intros Hd. unfold override_row. destruct (targets d !! id) as [t0|]; [|done]. cbn.
  destruct (predictions d !! _) as [p|] eqn:Hp; [|done]. cbn. destruct (definitions d !! _); [|done]. cbn.
  case_bool_decide; [|done]. intros [= <- <- <-]. split; [done|]. by exists p.
Qed.

Lemma history_override p t t' rs row :
  ¬ committed p → is_open (t_status t') = false → history_ok p t rs → history_ok p t' (rs ++ [row]).
Proof.
  unfold history_ok. intros Hc Ho _. destruct (t_status t'); try done; by destruct (rs ++ [row]) eqn:E;
    [apply app_eq_nil in E as [_ ?]|].
Qed.

Lemma history_append p t rs row :
  is_open (t_status t) = false → source_of row ≠ Automatic → history_ok p t rs → history_ok p t (rs ++ [row]).
Proof.
  unfold history_ok. intros Ho Hrow. destruct (t_status t); try done; destruct rs as [|r rs]; try done;
    intros Hrs [Hr Hall]%Hrs; (split; [done|]); apply Forall_app; by split; [|constructor].
Qed.

Lemma targets_ext d f g : f (targets d) = g (targets d) → d <| targets ::= f |> = d <| targets ::= g |>.
Proof.
  destruct d as [df bs ps ts os rs qs]. cbn. intros E.
  change (MkLabelDb df bs ps (f ts) os rs qs = MkLabelDb df bs ps (g ts) os rs qs). by rewrite E.
Qed.

Lemma alter_some {A} (f : A → A) (m : gmap string A) i a : m !! i = Some a → alter f i m = <[i := f a]> m.
Proof.
  intros Hi. apply map_eq. intros j. destruct (decide (j = i)) as [->|].
  - by rewrite lookup_alter_eq, lookup_insert_eq, Hi.
  - by rewrite lookup_alter_ne, lookup_insert_ne.
Qed.

Lemma append_result_override_keeps id org r :
  s_source r ≠ Automatic → preserves store_inv (append_result_override float_repr uuids id org r).
Proof.
  intros Hsrc. unfold append_result_override. repeat inv_step; [done|]. intros now d u HI. pose proof (proj1 HI) as Hd.
  apply wpt_bind, wpt_query; [done|]. destruct (override_row id org d) as [[[t df] c]|] eqn:Hrow; [|by apply wpt_ret].
  apply override_row_spec in Hrow as (Ht & p & Hp & ->); [|done].
  case_bool_decide as Hleased; [by apply wpt_ret|]. destruct (_ && _) eqn:Hpend; [by apply wpt_ret|].
  apply wpt_bind. destruct (bool_decide (committed p)) eqn:Hc.
  - apply wpt_ret, wpt_bind. unfold lift. destruct (actual_text float_repr r); [|by apply wpt_raise].
    apply wpt_ret, wpt_bind, wpt_stmt; [done|]. destruct (insert_result_row _ d) as [[[] d']|e] eqn:Hins; [|done].
    split; [|done]. apply wpt_ret. split; [|done]. apply insert_result_row_spec in Hins as ->.
    eapply store_inv_step; [done| |by apply extends_same]. eapply labels_ok_append; [done|done|done|].
    intros p'. cbn in Hpend. case_bool. apply history_append; [|done]. by destruct (t_status t).
  - apply wpt_stmt; [done|]. split; [|done]. apply wpt_bind. unfold lift.
    destruct (actual_text float_repr r); [|by apply wpt_raise].
    apply wpt_ret, wpt_bind, wpt_stmt; [done|]. destruct (insert_result_row _ _) as [[[] d']|e] eqn:Hins; [|done].
    split; [|done]. apply wpt_ret. split; [|done]. apply insert_result_row_spec in Hins as ->.
    rewrite (targets_ext d _ _ (alter_some _ _ _ _ Ht)).
    eapply store_inv_step; [done| |by apply extends_same]. case_bool.
    destruct (ok_targets _ _ Hd id t Ht) as (Hlease & _). unfold lease_ok in Hlease.
    eapply labels_ok_close; [done|done|done|done| |done|].
    + unfold lease_ok. cbn. destruct (t_status t); destruct (s_status r); naive_solver.
    + intros p' Hp'. assert (p' = p) as -> by congruence. apply history_override; [done|]. cbn. apply closing_closed.
Qed.

(** C37. The labelling store keeps its lifecycle invariant under every operation of the
    program, whatever fails, wherever a schedule interleaves other processes that
    respect it: targets are leased exactly while they hold a token, open targets
    have no result and closed ones have one, a committed prediction's target has
    exactly one automatic result and it comes first, and every stored leaf is the
    hash of its row. *)
Theorem labelling_lifecycle :
  (∀ s, preserves store_inv (insert_prediction float_repr uuids salts s)) ∧
  (∀ n per secs, preserves store_inv (claim_due_targets uuids n per secs)) ∧
  (∀ o b, preserves store_inv (store_observation float_repr uuids o b)) ∧
  (∀ id token error delay, preserves store_inv (retry_target id token error delay)) ∧
  (∀ id token r obs, s_source r = Automatic → preserves store_inv (complete_target float_repr uuids id token r obs)) ∧
  (∀ id org body, preserves store_inv (override_labeling_result float_repr uuids id org body)).
Proof.
  split_and!; auto using insert_prediction_keeps, claim_due_targets_keeps, store_observation_keeps,
    retry_target_keeps, complete_target_keeps.
  intros id org body. unfold override_labeling_result. repeat inv_step; try done. case_bool.
  apply append_result_override_keeps. unfold validate_score in *. repeat case_match; naive_solver.
Qed.

(** What completing a target under a token does to the tables. *)
Definition result_recorded (id token : string) (r : ScoreResult) (obs : option string) (d d' : LabelDb) : Prop :=
  ∃ t row, targets d !! id = Some t ∧ held_by token t = true ∧
    d' = d <| targets ::= <[id := close_row r t]> |> <| results ::= λ l, l ++ [row] |> ∧
    r_target row = id ∧ source_of row = s_source r ∧ r_observation row = obs ∧
    s_status (r_score row) = s_status r ∧ s_score (r_score row) = s_score r.

(** Completing a target takes effect once and only for the lease holder: [True] closes
    the target and records its result in one step; [False] changes nothing and means
    the token no longer holds the target; an exception leaves everything as it was,
    unless the acknowledgement of the commit was lost. *)
Theorem complete_target_outcome id token r obs d u :
  labels_ok float_repr d →
  rg alone (λ d0 u0, d0 = d ∧ u0 = u) (complete_target float_repr uuids id token r obs)
    (λ res d' _, match res with
       | Ok true => result_recorded id token r obs d d'
       | Ok false => d' = d ∧ ∀ t, targets d !! id = Some t → held_by token t = false
       | Raise _ => d' = d ∨ result_recorded id token r obs d d'
       end).
Proof.
  intros Hd. unfold complete_target. apply rg_alone_uuid_transaction; [by left|]. intros s now.
  apply wpt_bind, wpt_stmt; [by left|]. unfold update_held. destruct (targets d !! id) as [t|] eqn:Ht.
  2: { split; [|by left]. apply wpt_ret. split; [by split|by left]. }
  destruct (held_by token t) eqn:Hheld.
  2: { split; [|by left]. apply wpt_ret. split; [split; [done|naive_solver]|by left]. }
  split; [|by left]. apply wpt_bind. unfold lift. destruct (actual_text float_repr r); [|apply wpt_raise; by left].
  apply wpt_ret, wpt_bind, wpt_stmt; [by left|].
  destruct (insert_result_of_target _ id obs r now _) as [[[] d']|e] eqn:Hins; [|by left].
  split; [|by left]. apply wpt_ret.
  destruct (ok_targets _ _ Hd id t Ht) as (_ & p & Hp & _ & _).
  destruct (ok_predictions _ _ Hd _ p Hp) as [Hdf _].
  assert (targets (d <| targets ::= <[id := close_row r t]> |>) !! id = Some (close_row r t)) as Ht'
    by apply lookup_insert_eq.
  destruct (insert_result_of_target_spec s id obs r now _ (close_row r t) p d' Ht' Hp Hdf Hins)
    as (row & -> & Hrow). 
  assert (result_recorded id token r obs d (d <| targets ::= <[id := close_row r t]> |> <| results ::= λ l, l ++ [row] |>))
    by (exists t, row; by destruct_and!; split_and!).
  split; [done|by right].
Qed.
End handlers.

(** ** Fair claiming *)

Definition org_count (org : string) (l : list (string * TargetRow)) : Z :=
  lsum (λ kt, if bool_decide (t_org kt.2 = org) then 1 else 0) l.

Lemma within_org_rank_count n seen l org :
  seen org + org_count org (within_org_rank n seen l) ≤ Z.max n (seen org).
Proof.
  revert seen. induction l as [|kt l IH]; intros seen; [unfold org_count; cbn; lia|].
  cbn [within_org_rank]. set (seen' := λ o, _). specialize (IH seen').
  assert (seen' org = seen org + if bool_decide (t_org kt.2 = org) then 1 else 0) as Hs.
  { unfold seen'. destruct (decide (org = t_org kt.2)) as [->|]; [by rewrite !bool_decide_true|].
    rewrite !bool_decide_false by congruence. lia. }
  unfold org_count in *. destruct (Z.ltb_spec (seen (t_org kt.2)) n); rewrite ?lsum_cons;
    destruct (bool_decide_reflect (t_org kt.2 = org)) as [<-|]; lia.
Qed.

Lemma org_count_sublist org l l' : l `sublist_of` l' → org_count org l ≤ org_count org l'.
Proof.
  unfold org_count. induction 1 as [|x l l' _ IH|x l l' _ IH]; rewrite ?lsum_cons; [done|lia|].
  destruct (bool_decide _); lia.
Qed.

Definition leased_as (token : string) (expires : Z) (kt : string * TargetRow) : string * TargetRow :=
  (kt.1, leased_target token expires kt.2).

Lemma lease_rows_spec token expires due d :
  NoDup due.*1 →
  let '(claimed, d') := lease_rows token expires due d in
  predictions d' = predictions d ∧ definitions d' = definitions d ∧ results d' = results d ∧
  map (λ c, (c_id c, c_target c)) claimed
    = map (leased_as token expires) (filter (λ kt, is_Some (target_definition d kt.2)) due) ∧
  (∀ id t, (id, t) ∈ due → is_Some (target_definition d t) → targets d' !! id = Some (leased_target token expires t)) ∧
  (∀ id, id ∉ due.*1 → targets d' !! id = targets d !! id).
Proof.
  revert d. induction due as [|[id t] due IH]; intros d Hnd.
  { cbn. split_and!; try done. by intros ?? ?%elem_of_nil. }
  apply NoDup_cons in Hnd as [Hid Hnd]. cbn [lease_rows fmap list_fmap fst] in *. rewrite filter_cons. cbn [snd].
  destruct (target_definition d t) as [[key df]|] eqn:Hdef.
  - rewrite decide_True by done. set (d1 := d <| targets ::= _ |>). specialize (IH d1 Hnd).
    destruct (lease_rows token expires due d1) as [cl d']. destruct IH as (Hp & Hdf & Hr & Hmap & Hin & Hout).
    split_and!; [done..|cbn; by rewrite Hmap| |].
    + intros id' t' [[= -> ->]|Hin']%elem_of_cons Hsome; [|by apply Hin].
      rewrite Hout by done. apply lookup_insert_eq.
    + intros id' [Hne Hni]%not_elem_of_cons. rewrite Hout by done. cbn. by rewrite lookup_insert_ne.
  - rewrite decide_False by (by intros [? ?]). specialize (IH d Hnd).
    destruct (lease_rows token expires due d) as [cl d']. destruct IH as (Hp & Hdf & Hr & Hmap & Hin & Hout).
    split_and!; [done..| |].
    + intros id' t' [[= -> ->]|Hin']%elem_of_cons Hsome; [rewrite Hdef in Hsome; by destruct Hsome|by apply Hin].
    + intros id' [Hne Hni]%not_elem_of_cons. by apply Hout.
Qed.

(** A claim is fair: it takes at most [limit] targets and at most [max_per_org] of one
    organisation, each of them due and not under a live lease; the rows it returns
    are exactly the selected ones under the new token, the leases last
    [lease_seconds], every other row is unchanged, and nothing else is written. *)
Theorem claim_due_targets_fair uuids n per secs d u :
  0 < n → 0 < per → 0 < secs →
  rg alone (λ d0 u0, d0 = d ∧ u0 = u) (claim_due_targets uuids n per secs)
    (λ res d' _,
       (d' = d ∧ ∃ e, res = Raise e) ∨
       ∃ token now, let claimed := due_targets n per now d in
         (∀ l, res = Ok l → map (λ c, (c_id c, c_target c)) l
            = map (leased_as token (now + seconds secs)) (filter (λ kt, is_Some (target_definition d kt.2)) claimed)) ∧
         Z.of_nat (length claimed) ≤ n ∧ (∀ org, org_count org claimed ≤ per) ∧
         (∀ id t, (id, t) ∈ claimed → targets d !! id = Some t ∧ claimable_target now t = true ∧
            (is_Some (target_definition d t) →
             targets d' !! id = Some (leased_target token (now + seconds secs) t))) ∧
         (∀ id, id ∉ claimed.*1 → targets d' !! id = targets d !! id) ∧
         predictions d' = predictions d ∧ results d' = results d).
Proof.
  intros Hn Hper Hsecs. unfold claim_due_targets.
  rewrite (proj2 (Z.leb_gt n 0)), (proj2 (Z.leb_gt per 0)), (proj2 (Z.leb_gt secs 0)) by done. cbn [orb].
  apply rg_alone_uuid_transaction; [left; split; [done|by eexists]|].
  intros s now. apply wpt_stmt; [left; split; [done|by eexists]|].
  pose proof (due_targets_NoDup n per now d) as Hnd.
  pose proof (lease_rows_spec s (now + seconds secs) _ d Hnd) as Hl.
  destruct (lease_rows s _ _ d) as [cl d']. destruct Hl as (Hp & _ & Hr & Hmap & Hin & Hout).
  assert (Z.of_nat (length (due_targets n per now d)) ≤ n) as Hlen by (apply length_limit_le; lia).
  assert (∀ org, org_count org (due_targets n per now d) ≤ per) as Hcount.
  { intros org. etrans; [apply org_count_sublist, sublist_take|].
    pose proof (within_org_rank_count per (λ _, 0) (order_by due_leb (filter (λ kt, claimable_target now kt.2 = true)
      (map_to_list (targets d)))) org) as Hc. cbn beta in Hc. lia. }
  split; [|left; split; [done|by eexists]].
  split; right; exists s, now; cbv zeta; (split_and!; [intros l Hl; by simplify_eq|done|done| |done|done|done]).
  all: intros id t Hid; destruct (due_targets_spec _ _ _ _ _ _ Hid) as [? ?]; split_and!; [done..|by apply Hin].
Qed.

(** ** A committed prediction with one target under a lease *)
Module LabelDemo.
Definition uuids (n : nat) : string := ("id-" ++ pretty (Z.of_nat n))%string.
Definition salts (_ : nat) : string := CommitmentDemo.salt.
Definition definition : LabelDefinition :=
  MkDefinition (JObj []) (JObj []) (JObj []) "root" "1" "prices" "1" "returns" "1" [] true.
Definition submission : Submission :=
  MkSubmission "org-1" "scheduled_run" "run-1" "run-1" "sch-1" None ("price.up", 3) [("id", JStr "eth")]
    [MkTargetDraft "eth" [("id", JStr "eth")] 0 1000 1000] (Some (MkDatetime 0 (Some 0))) "" None None true.
Definition empty_db : LabelDb := MkLabelDb {[("price.up", 3) := definition]} ∅ ∅ ∅ ∅ [] ∅.
Definition w0 : World LabelDb unit := MkWorld empty_db tt 2000 None [] 0%nat.
Definition w1 : World LabelDb unit := (insert_prediction CommitmentDemo.repr uuids salts submission w0).2.
Definition w2 : World LabelDb unit := (claim_due_targets uuids 10 10 120 w1).2.
Definition score : ScoreResult := MkScoreResult "up" (Some (1, 1%positive)) Correct None "" Automatic.
Definition w3 : World LabelDb unit := (complete_target CommitmentDemo.repr uuids "id-2" "id-3" score None w2).2.

Example inserted_once :
  (insert_prediction CommitmentDemo.repr uuids salts submission w0).1 = Ok ("id-0", true) ∧
  (insert_prediction CommitmentDemo.repr uuids salts submission w1).1 = Ok ("id-0", false).
Proof. vm_compute. done. Qed.
Example claimed_once :
  (λ l, map c_id l) <$> (match (claim_due_targets uuids 10 10 120 w1).1 with Ok l => Some l | Raise _ => None end)
    = Some ["id-2"] ∧
  (match (claim_due_targets uuids 10 10 120 w2).1 with Ok l => map c_id l | Raise _ => ["?"] end) = [].
Proof. vm_compute. done. Qed.
Example completed_once :
  (complete_target CommitmentDemo.repr uuids "id-2" "id-3" score None w2).1 = Ok true ∧
  (complete_target CommitmentDemo.repr uuids "id-2" "id-3" score None w3).1 = Ok false ∧
  length (results (db w3)) = 1%nat.
Proof. vm_compute. done. Qed.

Lemma empty_ok : labels_ok CommitmentDemo.repr empty_db.
Proof. split; cbn; [intros ?? H|intros ?? H|intros ? H]; by rewrite ?lookup_empty, ?elem_of_nil in H. Qed.
Definition inv : LabelDb → unit → Prop := store_inv CommitmentDemo.repr (λ _, True).
Lemma good0 : good inv w0.
Proof. split; [done|]. split; [split; [exact empty_ok|exact I]|constructor]. Qed.
Lemma good2 : good inv w2.
Proof.
  apply preserves_good; [by apply claim_due_targets_keeps|].
  apply preserves_good; [by apply insert_prediction_keeps|exact good0].
Qed.
Lemma ok2 : labels_ok CommitmentDemo.repr (db w2).
Proof. destruct good2 as (_ & [H _] & _). exact H. Qed.
End LabelDemo.

Lemma labelling_lifecycle_witness :
  good LabelDemo.inv LabelDemo.w3 ∧ length (results (db LabelDemo.w3)) = 1%nat.
Proof.
  destruct (labelling_lifecycle CommitmentDemo.repr LabelDemo.uuids LabelDemo.salts (λ _, True)
    (λ _ _ _ _, I)) as (_ & _ & _ & _ & Hcomplete & _).
  split; [|vm_compute; reflexivity].
  exact (preserves_good _ _ _ (Hcomplete "id-2" "id-3" LabelDemo.score None eq_refl) LabelDemo.good2).
Defined.

Lemma complete_target_outcome_witness :
  rg alone (λ d u, d = db LabelDemo.w2 ∧ u = tt)
    (complete_target CommitmentDemo.repr LabelDemo.uuids "id-2" "stale" LabelDemo.score None)
    (λ res d' _, match res with
       | Ok true => result_recorded "id-2" "stale" LabelDemo.score None (db LabelDemo.w2) d'
       | Ok false => d' = db LabelDemo.w2 ∧ ∀ t, targets (db LabelDemo.w2) !! "id-2" = Some t → held_by "stale" t = false
       | Raise _ => d' = db LabelDemo.w2 ∨ result_recorded "id-2" "stale" LabelDemo.score None (db LabelDemo.w2) d'
       end).
Proof.
  exact (complete_target_outcome CommitmentDemo.repr LabelDemo.uuids "id-2" "stale" LabelDemo.score None
    (db LabelDemo.w2) tt LabelDemo.ok2).
Defined.

Lemma claim_due_targets_fair_witness :
  rg alone (λ d u, d = db LabelDemo.w1 ∧ u = tt) (claim_due_targets LabelDemo.uuids 1 1 120)
    (λ res d' _, (d' = db LabelDemo.w1 ∧ ∃ e, res = Raise e) ∨
       ∃ now, Z.of_nat (length (due_targets 1 1 now (db LabelDemo.w1))) ≤ 1).
Proof.
  eapply rg_mono; [apply (claim_due_targets_fair LabelDemo.uuids 1 1 120 (db LabelDemo.w1) tt); reflexivity|done|].
  intros r d' u' [H|(token & now & _ & Hlen & _)]; [by left|right]. exists now. exact Hlen.
Defined.
