(* ===== verification/Anchor.v ===== *)
(** * Anchoring of commitments (labeling/anchor.py)

    Committed rows are sealed into Merkle batches, the root of a batch is sent to
    the chain and its confirmation recorded.  The tables are those of
    [LabelStore]; the CDP client and the JSON-RPC node are parameters, asked at
    an instant.  The theorems: every batch stays the Merkle tree of its leaves
    ([batches_ok]), a confirmed batch is frozen and was matched against the
    chain, and the proof endpoint always serves a path that verifies. *)

From S2P Require Export LabelStore.

Definition _SEND_LEASE_SECONDS : Z := 900.
Definition _MAX_BATCHES_PER_TICK : nat := 8.

(** Python frames left for the recursion of the tree, out of a limit of 1000. *)
Definition python_frames : nat := 100.

(** [TableAnchorSource] *)
Record AnchorSource := MkAnchorSource { source_name : string; source_table : string; ordered_by : string }.
Definition _SOURCES : list AnchorSource :=
  [MkAnchorSource "labeling_predictions" "labeling_predictions" "prediction_at"].

(** ** The statements of a source *)

Definition pending_leb (a b : string * PredictionRow) : bool :=
  (p_at a.2 <? p_at b.2) || ((p_at a.2 =? p_at b.2) && String.leb a.1 b.1).

Definition unanchored (p : PredictionRow) : bool :=
  bool_decide (is_Some (p_leaf p)) && bool_decide (p_batch p = None).

(** A row of [pending]: its time, source, id and leaf. *)
Record Item := MkItem { it_at : Z; it_source : string; it_id : string; it_leaf : string }.

Definition pending_rows (limit_ : Z) (d : LabelDb) : list (string * PredictionRow) :=
  limit limit_ (order_by pending_leb (filter (λ kv, unanchored kv.2 = true) (map_to_list (predictions d)))).

Definition item_of (source : AnchorSource) (kv : string * PredictionRow) : Item :=
  MkItem (p_at kv.2) (source_name source) kv.1 (default "None" (p_leaf kv.2)).

Definition pending (source : AnchorSource) (limit_ : Z) : H (list Item) :=
  query (λ _ d, map (item_of source) (pending_rows limit_ d)).

(** UPDATE ... SET anchor_batch_id, anchor_leaf_index ... WHERE t.anchor_batch_id IS NULL *)
Definition assigned (batch : string) (index : Z) (p : PredictionRow) : PredictionRow :=
  p <| p_batch := Some batch |> <| p_leaf_index := Some index |>.

Fixpoint assign_rows (batch : string) (assignments : list (string * Z)) (ps : gmap string PredictionRow)
    : res (Z * gmap string PredictionRow) :=
  match assignments with
  | [] => Ok (0, ps)
  | (id, index) :: assignments =>
      match ps !! id with
      | Some p =>
          match p_batch p, p_leaf p with
          | Some _, _ => assign_rows batch assignments ps
          | None, None => Raise CheckViolation
          | None, Some _ =>
              '(n, ps) ← assign_rows batch assignments (<[id := assigned batch index p]> ps);
              Ok (n + 1, ps)
          end
      | None => assign_rows batch assignments ps
      end
  end.

Definition assign (source : AnchorSource) (batch : string) (assignments : list (string * Z)) : H Z :=
  stmt (λ _ d, '(n, ps) ← assign_rows batch assignments (predictions d); Ok (n, d <| predictions := ps |>)).

(** [anchor_leaf_index] and [leaf_sha256] of a batch *)
Definition leaf_of (batch : string) (p : PredictionRow) : option (Z * string) :=
  if bool_decide (p_batch p = Some batch)
  then i ← p_leaf_index p; l ← p_leaf p; Some (i, l) else None.

Definition batch_rows (d : LabelDb) (batch : string) : list (Z * string) :=
  omap (λ kv, leaf_of batch kv.2) (map_to_list (predictions d)).

Definition leaves (source : AnchorSource) (batch : string) : H (list (Z * string)) :=
  query (λ _ d, batch_rows d batch).

(** ** seal_batch *)

(** [item[0], item[1], item[2]] *)
Definition item_leb (a b : Item) : bool :=
  (it_at a <? it_at b) ||
  ((it_at a =? it_at b) &&
   (String.ltb (it_source a) (it_source b) ||
    (String.eqb (it_source a) (it_source b) && String.leb (it_id a) (it_id b)))).

(** [by_source[name].append(...)] on a [defaultdict(list)] *)
Fixpoint append_to {A} (name : string) (a : A) (groups : list (string * list A)) : list (string * list A) :=
  match groups with
  | [] => [(name, [a])]
  | (n, l) :: groups =>
      if String.eqb n name then (n, l ++ [a]) :: groups else (n, l) :: append_to name a groups
  end.

Definition by_source (selected : list Item) : list (string * list (string * Z)) :=
  foldl (λ groups '(i, it), append_to (it_source it) (it_id it, Z.of_nat i) groups) []
    (imap (λ i it, (i, it)) selected).

Definition insert_batch (id root : string) (count chain : Z) (now : Z) (d : LabelDb) : res (unit * LabelDb) :=
  if negb (hex64 root) || negb ((1 <=? count) && (count <=? 4096)) then Raise CheckViolation
  else if bool_decide (is_Some (batches d !! id)) then Raise UniqueViolation
  else Ok (tt, d <| batches ::= <[id := MkBatchRow root count chain None None None None None 0 "" now]> |>).

Section anchor.
Context (float_repr : Z → positive → string) (uuids : nat → string).

(** The selection of a tick and the batch it becomes. *)
Definition select_items (items : list Item) : list Item := limit MAX_BATCH_LEAVES (order_by item_leb items).

Definition assign_groups (batch : string) (groups : list (string * list (string * Z))) : H unit :=
  for_each groups tt (λ _ '(name, assignments),
    match find (λ s, String.eqb (source_name s) name) _SOURCES with
    | None => raise (KeyError name)
    | Some source =>
        n ← assign source batch assignments;
        if n =? len assignments then mret tt
        else raise (RuntimeError "Anchor leaf assignment did not cover every selected leaf")
    end).

Definition seal_batch (chain_id : Z) : H (option string) :=
  transaction (
    query (λ _ _, tt);;
    items ← for_each _SOURCES [] (λ acc source,
      rows ← pending source MAX_BATCH_LEAVES; mret (acc ++ rows));
    match items with
    | [] => mret None
    | _ =>
        let selected := select_items items in
        batch_id ← uuid4 uuids;
        root ← lift (merkle_root python_frames (map it_leaf selected));
        stmt (insert_batch batch_id root (len selected) chain_id);;
        assign_groups batch_id (by_source selected);;
        mret (Some batch_id)
    end).

(** [indexed.sort()] on pairs *)
Definition indexed_leb (a b : Z * string) : bool :=
  (a.1 <? b.1) || ((a.1 =? b.1) && String.leb a.2 b.2).

Definition indices (n : Z) : list Z := map Z.of_nat (seq 0 (Z.to_nat n)).

Definition ordered_leaves (indexed : list (Z * string)) (leaf_count : Z) : res (list string) :=
  let indexed := order_by indexed_leb indexed in
  if bool_decide (indexed.*1 = indices leaf_count) then Ok indexed.*2
  else Raise (RuntimeError "Commitment batch leaves are incomplete").

Definition batch_leaves (batch_id : string) (leaf_count : Z) : H (list string) :=
  indexed ← for_each _SOURCES [] (λ acc source, rows ← leaves source batch_id; mret (acc ++ rows));
  lift (ordered_leaves indexed leaf_count).

(** ** Sending and confirming *)

Definition hex_exactly (n : nat) (s : string) : bool :=
  String.prefix "0x" s && (String.length s =? n + 2)%nat && forallb is_lower_hex (drop 2 (encode_ascii s)).
Definition _TX_HASH : string → bool := hex_exactly 64.
Definition _ADDRESS : string → bool := hex_exactly 40.

Definition unsent (now : Z) (r : BatchRow) : bool :=
  bool_decide (b_tx r = None) && bool_decide (b_block r = None)
  && match b_lease r with None => true | Some l => l <=? now end.

Definition batch_leb (a b : string * BatchRow) : bool :=
  (b_created a.2 <? b_created b.2) || ((b_created a.2 =? b_created b.2) && String.leb a.1 b.1).

Definition claim_row (expires : Z) (r : BatchRow) : BatchRow :=
  r <| b_lease := Some expires |> <| b_attempts ::= Z.add 1 |>.

Definition _claim_unsent_batch : H (option (string * BatchRow)) :=
  stmt (λ now d,
    match head (limit 1 (order_by batch_leb (filter (λ kv, unsent now kv.2 = true) (map_to_list (batches d))))) with
    | None => Ok (None, d)
    | Some (id, r) =>
        let r' := claim_row (now + seconds _SEND_LEASE_SECONDS) r in
        Ok (Some (id, r'), d <| batches ::= <[id := r']> |>)
    end).

(** UPDATE commitment_batches SET ... WHERE id = ... AND guard; the CHECK constraints
    of the table are those of the new row. *)
Definition batch_checks (r : BatchRow) : bool :=
  match b_tx r with None => true | Some h => _TX_HASH h end
  && match b_address r with None => true | Some a => _ADDRESS a end
  && bool_decide (is_Some (b_tx r) ↔ is_Some (b_address r))
  && bool_decide (is_Some (b_block r) ↔ is_Some (b_anchored r))
  && (bool_decide (b_block r = None) || bool_decide (is_Some (b_tx r))).

Definition update_batch (id : string) (guard : BatchRow → bool) (f : BatchRow → BatchRow) (d : LabelDb)
    : res (unit * LabelDb) :=
  match batches d !! id with
  | Some r =>
      if guard r then
        if batch_checks (f r) then Ok (tt, d <| batches ::= <[id := f r]> |>) else Raise CheckViolation
      else Ok (tt, d)
  | None => Ok (tt, d)
  end.

Definition _record_submission (id tx_hash address : string) : H unit :=
  stmt (λ _, update_batch id (λ r, bool_decide (b_tx r = None))
    (λ r, r <| b_tx := Some tx_hash |> <| b_address := Some address |> <| b_error := "" |>)).

Definition _release_unsent (id error : string) : H unit :=
  stmt (λ _, update_batch id (λ r, bool_decide (b_tx r = None))
    (λ r, r <| b_lease := None |> <| b_error := error |>)).

Definition submitted_as (tx_hash : string) (r : BatchRow) : bool :=
  bool_decide (b_tx r = Some tx_hash) && bool_decide (b_block r = None).

Definition _reset_submission (id tx_hash error : string) : H unit :=
  stmt (λ _, update_batch id (submitted_as tx_hash)
    (λ r, r <| b_tx := None |> <| b_address := None |> <| b_lease := None |> <| b_error := error |>)).

Definition confirmed_row (block_number anchored_at : Z) (r : BatchRow) : BatchRow :=
  r <| b_block := Some block_number |> <| b_anchored := Some anchored_at |> <| b_lease := None |> <| b_error := "" |>.

Definition _record_confirmation (id tx_hash : string) (block_number anchored_at : Z) : H unit :=
  stmt (λ _, update_batch id (submitted_as tx_hash) (confirmed_row block_number anchored_at)).

(** A submitted batch and whether its lease has expired. *)
Record Submitted := MkSubmitted {
  sb_id : string; sb_root : string; sb_chain : Z; sb_tx : string; sb_address : option string; sb_expired : bool;
}.

Definition submitted_batches (now : Z) (d : LabelDb) : list Submitted :=
  omap (λ kv,
    match b_tx kv.2, b_block kv.2 with
    | Some tx, None => Some (MkSubmitted kv.1 (b_root kv.2) (b_chain kv.2) tx (b_address kv.2)
        (match b_lease kv.2 with Some l => l <=? now | None => true end))
    | _, _ => None
    end) (order_by batch_leb (map_to_list (batches d))).

Definition _list_submitted (n : nat) : H (list Submitted) :=
  query (λ now d, take n (submitted_batches now d)).

(** The node's answers at an instant. *)
Record Tx := MkTx { tx_input : string; tx_from : string; tx_to : string; tx_block : option string }.
Record Receipt := MkReceipt { rc_status : option string; rc_block : string; rc_block_hash : option string }.
Record Block := MkBlock { bk_number : string; bk_timestamp : string; bk_hash : option string }.
Record Node := MkNode {
  eth_getTransactionByHash : string → res (option Tx);
  eth_getTransactionReceipt : string → res (option Receipt);
  eth_getBlockByNumber : string → res (option Block);
}.

Context (node : Z → Z → Node) (rpc_url : Z → res unit).
Context (cdp_send : Z → string → Z → res (string * string)).

Definition _rpc {A} (chain : Z) (ask : Node → res (option A)) : H (option A) :=
  external (λ now u, (ask (node now chain), u)).

Definition _send_root (root : string) (chain_id : Z) : H (string * string) :=
  external (λ now u, ('(tx, address) ← cdp_send now root chain_id; Ok (lower tx, lower address), u)).

Definition matches (row : Submitted) (tx : Tx) : bool :=
  String.eqb (lower (tx_input tx)) ("0x" ++ sb_root row)
  && bool_decide (Some (lower (tx_from tx)) = sb_address row)
  && bool_decide (Some (lower (tx_to tx)) = sb_address row).

Definition _confirm (row : Submitted) : H bool :=
  lift (rpc_url (sb_chain row));;
  tx ← _rpc (sb_chain row) (λ n, eth_getTransactionByHash n (sb_tx row));
  match tx with
  | None =>
      (if sb_expired row then _reset_submission (sb_id row) (sb_tx row) "anchor transaction not found" else mret tt);;
      mret false
  | Some tx =>
      if bool_decide (tx_block tx = None) then mret false
      else
        receipt ← _rpc (sb_chain row) (λ n, eth_getTransactionReceipt n (sb_tx row));
        match receipt with
        | None => mret false
        | Some receipt =>
            if negb (bool_decide (rc_status receipt = Some "0x1")) || negb (matches row tx) then
              _reset_submission (sb_id row) (sb_tx row) "anchor transaction reverted or did not match the batch";;
              mret false
            else
              block ← _rpc (sb_chain row) (λ n, eth_getBlockByNumber n (rc_block receipt));
              match block with
              | None => mret false
              | Some block =>
                  finalized ← _rpc (sb_chain row) (λ n, eth_getBlockByNumber n "finalized");
                  match finalized with
                  | None => mret false
                  | Some finalized =>
                      number ← lift (int16 (rc_block receipt));
                      last ← lift (int16 (bk_number finalized));
                      if last <? number then mret false
                      else if is_empty (default "" (rc_block_hash receipt))
                              || negb (bool_decide (rc_block_hash receipt = bk_hash block)) then mret false
                      else
                        timestamp ← lift (int16 (bk_timestamp block));
                        _record_confirmation (sb_id row) (sb_tx row) number (seconds timestamp);;
                        mret true
                  end
              end
        end
  end.

(** [type(exc).__name__] *)
Definition type_name (e : exn) : string :=
  match e with
  | ValueError _ => "ValueError"
  | RuntimeError _ => "RuntimeError"
  | TypeError _ => "TypeError"
  | KeyError _ => "KeyError"
  | IndexError _ => "IndexError"
  | AttributeError _ => "AttributeError"
  | UniqueViolation => "UniqueViolationError"
  | CheckViolation => "CheckViolationError"
  | ForeignKeyViolation => "ForeignKeyViolationError"
  | DataError => "DataError"
  | ConnectionError => "ConnectionError"
  | SettlementClaimLostError _ => "SettlementClaimLostError"
  end.

(** [for _ in range(n): if await seal_batch(...) is None: break] *)
Fixpoint seal_loop (n : nat) (chain_id : Z) : H unit :=
  match n with
  | O => mret tt
  | S n => sealed ← seal_batch chain_id; match sealed with None => mret tt | Some _ => seal_loop n chain_id end
  end.

Fixpoint send_loop (n : nat) : H unit :=
  match n with
  | O => mret tt
  | S n =>
      batch ← _claim_unsent_batch;
      match batch with
      | None => mret tt
      | Some (id, r) =>
          sent ← catch
            ('(tx_hash, address) ← _send_root (b_root r) (b_chain r);
             if _TX_HASH tx_hash && _ADDRESS address then mret (Some (tx_hash, address))
             else raise (ValueError "CDP returned an unexpected transaction reference"))
            (λ e, _release_unsent id ("anchor send failed: " ++ type_name e);; mret None);
          match sent with
          | None => mret tt
          | Some (tx_hash, address) => _record_submission id tx_hash address;; send_loop n
          end
      end
  end.

Definition anchor_tick (chain_id : Z) : H Z :=
  seal_loop _MAX_BATCHES_PER_TICK chain_id;;
  send_loop _MAX_BATCHES_PER_TICK;;
  rows ← _list_submitted _MAX_BATCHES_PER_TICK;
  for_each rows 0 (λ confirmed row,
    catch (ok ← _confirm row; mret (if ok : bool then confirmed + 1 else confirmed)) (λ _, mret confirmed)).
(** ** The proof endpoint (teardrop/routers/labeling.py) *)

Definition get_prediction_commitment (org_id prediction_id : string) : H (option (PredictionRow * option BatchRow)) :=
  query (λ _ d,
    p ← predictions d !! prediction_id;
    if bool_decide (p_org p = org_id) && bool_decide (is_Some (p_leaf p))
    then Some (p, b ← p_batch p; batches d !! b) else None).

Record AnchorReply := MkAnchorReply {
  an_batch : string; an_index : Z; an_tree_size : Z; an_root : string; an_path : list string;
  an_chain : Z; an_tx : option string; an_address : option string; an_block : option Z; an_anchored : option Z;
}.

(** 404, 500 and 200 replies; [anchored_at] is kept as an instant. *)
Inductive proof_reply :=
  | NotFound
  | IntegrityFailed
  | Proof (status : string) (preimage : fields) (salt leaf : string) (anchor : option AnchorReply).

Definition not_none {A} (a : option A) : res A :=
  match a with Some a => Ok a | None => Raise (TypeError "NoneType") end.

Definition proof_status (r : BatchRow) : string :=
  match b_block r, b_tx r with
  | Some _, _ => "anchored"
  | None, Some _ => "submitted"
  | None, None => "pending"
  end.

(** The body of the endpoint after its row is found. *)
Definition serve_row (prediction_id : string) (p : PredictionRow) (batch : option BatchRow) : H proof_reply :=
  preimage ← lift (prediction_leaf_fields (prediction_of prediction_id p));
  let leaf := default "None" (p_leaf p) in
  let salt := default "None" (p_salt p) in
  hash ← lift (leaf_hash float_repr LEAF_VERSION_PREDICTION preimage salt);
  if negb (String.eqb hash leaf) then mret IntegrityFailed
  else
    match p_batch p with
    | None => mret (Proof "pending" preimage salt leaf None)
    | Some batch_id =>
        r ← lift (not_none batch);
        leaves ← batch_leaves batch_id (b_leaf_count r);
        root ← lift (merkle_root python_frames leaves);
        if negb (String.eqb root (b_root r)) then mret IntegrityFailed
        else
          index ← lift (not_none (p_leaf_index p));
          path ← lift (audit_path python_frames leaves index);
          mret (Proof (proof_status r) preimage salt leaf
            (Some (MkAnchorReply batch_id index (len leaves) (b_root r) path (b_chain r) (b_tx r) (b_address r)
              (b_block r) (b_anchored r))))
    end.

Definition get_labeling_prediction_proof (org_id prediction_id : string) : H proof_reply :=
  row ← get_prediction_commitment org_id prediction_id;
  match row with
  | None => mret NotFound
  | Some (p, batch) =>
      serve_row prediction_id p batch
  end.
End anchor.

Example int16_ex : map int16 ["0x1f"; "ff"; "-0xA_b"; " 0X_10 "] = map Ok [31; 255; -171; 16] ∧
  int16 "0x" = Raise (ValueError "invalid literal for int() with base 16").
Proof. vm_compute. done. Qed.

(** ** Every batch is the Merkle tree of its leaves *)

#[local] Opaque merkle_root.

Definition sealed_as (ls : list string) : list (Z * string) := imap (λ i l, (Z.of_nat i, l)) ls.

Definition batch_ok (d : LabelDb) (id : string) (r : BatchRow) : Prop :=
  ∃ ls, batch_rows d id ≡ₚ sealed_as ls ∧ len ls = b_leaf_count r ∧ 1 ≤ len ls ≤ MAX_BATCH_LEAVES ∧
    all_hex64 ls ∧ merkle_root python_frames ls = Ok (b_root r).

Record batches_ok (d : LabelDb) : Prop := {
  ok_batches : ∀ id r, batches d !! id = Some r → batch_ok d id r;
  ok_assigned : ∀ id p b, predictions d !! id = Some p → p_batch p = Some b →
    is_Some (batches d !! b) ∧ is_Some (p_leaf p) ∧ is_Some (p_leaf_index p);
}.

(** The leaves of a batch with the id of their row. *)
Definition keyed_rows (ps : gmap string PredictionRow) (batch : string) : list (string * (Z * string)) :=
  omap (λ kv, v ← leaf_of batch kv.2; Some (kv.1, v)) (map_to_list ps).

Lemma batch_rows_keyed d b : batch_rows d b = (keyed_rows (predictions d) b).*2.
Proof.
  unfold batch_rows, keyed_rows. induction (map_to_list (predictions d)) as [|[id p] l IH]; [done|].
  cbn. destruct (leaf_of b p); cbn; by rewrite IH.
Qed.

Lemma elem_of_keyed_rows ps b id v : (id, v) ∈ keyed_rows ps b ↔ ∃ p, ps !! id = Some p ∧ leaf_of b p = Some v.
Proof.
  unfold keyed_rows. rewrite list_elem_of_omap. split.
  - intros ([id' p] & Hin%elem_of_map_to_list & Hv). cbn in Hv. destruct (leaf_of b p) eqn:Hl; [|done].
    injection Hv as <- <-. by exists p.
  - intros (p & Hp & Hl). exists (id, p). rewrite elem_of_map_to_list. split; [done|]. cbn. by rewrite Hl.
Qed.

Lemma keyed_rows_keys ps b : (keyed_rows ps b).*1 `sublist_of` (map_to_list ps).*1.
Proof.
  unfold keyed_rows. induction (map_to_list ps) as [|[id p] l IH]; [done|]. cbn.
  destruct (leaf_of b p); cbn; [by apply sublist_skip|by apply sublist_cons].
Qed.

Lemma keyed_rows_NoDup ps b : NoDup (keyed_rows ps b).
Proof.
  apply (NoDup_fmap_1 fst). eapply sublist_NoDup; [|apply keyed_rows_keys]. apply NoDup_fst_map_to_list.
Qed.

(** The leaves of a batch depend only on the rows assigned to it. *)
Lemma batch_rows_ext d d' b :
  (∀ id v, (∃ p, predictions d !! id = Some p ∧ leaf_of b p = Some v) ↔
           (∃ p, predictions d' !! id = Some p ∧ leaf_of b p = Some v)) →
  batch_rows d' b ≡ₚ batch_rows d b.
Proof.
  intros Hext. rewrite !batch_rows_keyed. apply fmap_Permutation, NoDup_Permutation; [apply keyed_rows_NoDup..|].
  intros [id v]. by rewrite !elem_of_keyed_rows, Hext.
Qed.

Lemma leaf_of_other b p : p_batch p ≠ Some b → leaf_of b p = None.
Proof. intros Hb. unfold leaf_of. by rewrite bool_decide_false. Qed.

Lemma batches_ok_extends d d' : extends d d' → batches_ok d → batches_ok d'.
Proof.
  intros (Hb & Hsub & Hnew) Hok.
  assert (∀ b, batch_rows d' b ≡ₚ batch_rows d b) as Hrows.
  { intros b. apply batch_rows_ext. intros id v. split; intros (p & Hp & Hv).
    - exists p. split; [|done]. by eapply lookup_weaken.
    - destruct (Hnew id p Hp) as [?|Hnone]; [by exists p|].
      rewrite leaf_of_other in Hv; [done|congruence]. }
  split.
  - intros id r Hr. rewrite Hb in Hr. destruct (ok_batches d Hok id r Hr) as (ls & Hls & ?).
    exists ls. by rewrite Hrows.
  - intros id p b Hp Hpb. rewrite Hb. destruct (Hnew id p Hp) as [Hp'|]; [|congruence].
    exact (ok_assigned d Hok id p b Hp' Hpb).
Qed.

(** Updating what a batch records about the chain. *)
Definition same_tree (r r' : BatchRow) : Prop :=
  b_root r' = b_root r ∧ b_leaf_count r' = b_leaf_count r ∧ b_chain r' = b_chain r ∧ b_created r' = b_created r.

#[export] Instance same_tree_preorder : PreOrder same_tree.
Proof.
  split; [by intros r; split_and!|]. intros r1 r2 r3 (? & ? & ? & ?) (? & ? & ? & ?). split_and!; congruence.
Qed.

Lemma batches_ok_update d id r r' :
  batches_ok d → batches d !! id = Some r → same_tree r r' →
  batches_ok (d <| batches ::= <[id := r']> |>).
Proof.
  intros Hok Hr (Hroot & Hcount & _). split; cbn.
  - intros id' r0 Hr0. destruct (decide (id' = id)) as [->|].
    + rewrite lookup_insert_eq in Hr0. injection Hr0 as <-. destruct (ok_batches d Hok id r Hr) as (ls & ?).
      exists ls. by rewrite Hroot, Hcount.
    + rewrite lookup_insert_ne in Hr0 by done. exact (ok_batches d Hok id' r0 Hr0).
  - intros id' p b Hp Hb. destruct (ok_assigned d Hok id' p b Hp Hb) as [[r0 Hr0] ?]. split; [|done].
    destruct (decide (b = id)) as [->|]; [by rewrite lookup_insert_eq|by rewrite lookup_insert_ne].
Qed.

(** ** Assigning rows to a new batch *)

Lemma assign_rows_spec b assignments ps :
  NoDup assignments.*1 →
  (∀ id i, (id, i) ∈ assignments → ∃ p, ps !! id = Some p ∧ p_batch p = None ∧ is_Some (p_leaf p)) →
  ∃ ps', assign_rows b assignments ps = Ok (len assignments, ps') ∧
    (∀ id, id ∉ assignments.*1 → ps' !! id = ps !! id) ∧
    (∀ id i p, (id, i) ∈ assignments → ps !! id = Some p → ps' !! id = Some (assigned b i p)).
Proof.
  revert ps. induction assignments as [|[id i] l IH]; intros ps Hnd Hin.
  { exists ps. split_and!; [done..|]. by intros ??? ?%elem_of_nil. }
  cbn [fmap list_fmap fst] in *. apply NoDup_cons in Hnd as [Hid Hnd].
  destruct (Hin id i) as (p & Hp & Hpb & [lf Hlf]); [by left|].
  destruct (IH (<[id := assigned b i p]> ps)) as (ps' & Heq & Hout & Hin'); [done| |].
  { intros id' i' Hin'. destruct (Hin id' i') as (p' & Hp' & ?); [by right|]. exists p'. split; [|done].
    rewrite lookup_insert_ne; [done|]. intros ->. apply Hid, list_elem_of_fmap. by exists (id', i'). }
  exists ps'. cbn [assign_rows]. rewrite Hp, Hpb, Hlf, Heq. split_and!.
  - cbn. do 2 f_equal. unfold len. cbn. lia.
  - intros id' [Hne Hni]%not_elem_of_cons. rewrite Hout by done. by rewrite lookup_insert_ne.
  - intros id' i' p' [[= -> ->]|Hin0]%elem_of_cons Hp'.
    + rewrite Hout by done. rewrite lookup_insert_eq. congruence.
    + apply Hin'; [done|]. rewrite lookup_insert_ne; [done|]. intros ->. apply Hid, list_elem_of_fmap. by exists (id', i').
Qed.

(** Rows that only gained a batch keep the labelling invariant. *)
Lemma labels_ok_assigned float_repr d ps' :
  labels_ok float_repr d →
  (∀ id p, predictions d !! id = Some p → ∃ p', ps' !! id = Some p' ∧ (p' = p ∨ ∃ b i, p' = assigned b i p)) →
  (∀ id, predictions d !! id = None → ps' !! id = None) →
  labels_ok float_repr (d <| predictions := ps' |>).
Proof.
  intros Hd Hsome Hnone. split; cbn.
  - intros id p' Hp'. destruct (predictions d !! id) as [p|] eqn:Hp; [|rewrite Hnone in Hp'; done].
    destruct (Hsome id p Hp) as (p0 & Hp0 & Heq). assert (p0 = p') as -> by congruence.
    pose proof (ok_predictions _ d Hd id p Hp) as Hok.
    destruct Heq as [->|(b & i & ->)]; exact Hok.
  - intros id t Ht. destruct (ok_targets _ d Hd id t Ht) as (Hl & p & Hp & Ho & Hh). split; [done|].
    destruct (Hsome _ p Hp) as (p' & Hp' & Heq). exists p'. split; [done|].
    destruct Heq as [->|(b & i & ->)]; split; done.
  - apply Hd.
Qed.

Lemma len_map {A B} (f : A → B) l : len (map f l) = len l.
Proof. unfold len. by rewrite length_map. Qed.

Lemma lookup_map {A B} (f : A → B) l i : map f l !! i = f <$> l !! i.
Proof. apply list_lookup_fmap. Qed.

(** The items of a new batch: distinct committed rows that no batch holds. *)
Definition items_ok (d : LabelDb) (items : list Item) : Prop :=
  NoDup (map it_id items) ∧
  ∀ it, it ∈ items → ∃ p, predictions d !! it_id it = Some p ∧ p_batch p = None ∧ p_leaf p = Some (it_leaf it).

Definition assignments_of (items : list Item) : list (string * Z) := imap (λ i it, (it_id it, Z.of_nat i)) items.

Lemma assignments_ids items : (assignments_of items).*1 = map it_id items.
Proof. unfold assignments_of. apply list_eq. intros i. rewrite list_lookup_fmap, list_lookup_imap.
  rewrite lookup_map. by destruct (items !! i). Qed.

Lemma elem_of_assignments items id i :
  (id, i) ∈ assignments_of items ↔ ∃ n it, i = Z.of_nat n ∧ items !! n = Some it ∧ it_id it = id.
Proof.
  unfold assignments_of. rewrite elem_of_lookup_imap. split.
  - intros (n & it & [= -> ->] & Hit). by exists n, it.
  - intros (n & it & -> & Hit & <-). by exists n, it.
Qed.

Lemma batch_rows_assigned d b items ps' :
  items_ok d items →
  (∀ id p, predictions d !! id = Some p → p_batch p ≠ Some b) →
  (∀ id, id ∉ (assignments_of items).*1 → ps' !! id = predictions d !! id) →
  (∀ id i p, (id, i) ∈ assignments_of items → predictions d !! id = Some p → ps' !! id = Some (assigned b i p)) →
  batch_rows (d <| predictions := ps' |>) b ≡ₚ sealed_as (map it_leaf items).
Proof.
  intros [Hnd Hit] Hfresh Hout Hin. rewrite batch_rows_keyed. cbn.
  transitivity ((imap (λ i it, (it_id it, (Z.of_nat i, it_leaf it))) items).*2).
  2: { unfold sealed_as. apply reflexive_eq, list_eq. intros i.
       rewrite list_lookup_fmap, !list_lookup_imap. rewrite lookup_map. by destruct (items !! i). }
  apply fmap_Permutation, NoDup_Permutation; [apply keyed_rows_NoDup| |].
  { apply (NoDup_fmap_1 fst).
    assert ((imap (λ i it, (it_id it, (Z.of_nat i, it_leaf it))) items).*1 = map it_id items) as ->; [|done].
    apply list_eq. intros i. rewrite list_lookup_fmap, list_lookup_imap, lookup_map.
    by destruct (items !! i). }
  intros [id v]. rewrite elem_of_keyed_rows, elem_of_lookup_imap. split.
  - intros (p' & Hp' & Hv). destruct (decide (id ∈ (assignments_of items).*1)) as [Hid|Hid].
    + apply list_elem_of_fmap in Hid as ([id' i] & -> & Hia). cbn in *.
      pose proof Hia as (n & it & -> & Hn & Hid)%elem_of_assignments.
      destruct (Hit it) as (p & Hp & Hb & Hl); [by eapply list_elem_of_lookup_2|]. rewrite Hid in Hp.
      rewrite (Hin _ _ _ Hia Hp) in Hp'. injection Hp' as <-.
      unfold leaf_of in Hv. cbn in Hv. rewrite bool_decide_true, Hl in Hv by done. injection Hv as <-.
      exists n, it. by rewrite Hid.
    + rewrite Hout in Hp' by done. rewrite leaf_of_other in Hv; [done|by eapply Hfresh].
  - intros (n & it & [= -> ->] & Hn).
    destruct (Hit it) as (p & Hp & Hb & Hl); [by eapply list_elem_of_lookup_2|].
    exists (assigned b (Z.of_nat n) p). split.
    + apply Hin; [|done]. apply elem_of_assignments. by exists n, it.
    + unfold leaf_of. cbn. by rewrite bool_decide_true, Hl.
Qed.

(** The tables after a seal. *)
Lemma batches_ok_sealed d b items r ps' :
  batches_ok d → batches d !! b = None → items_ok d items →
  (∀ id, id ∉ (assignments_of items).*1 → ps' !! id = predictions d !! id) →
  (∀ id i p, (id, i) ∈ assignments_of items → predictions d !! id = Some p → ps' !! id = Some (assigned b i p)) →
  1 ≤ len items ≤ MAX_BATCH_LEAVES → all_hex64 (map it_leaf items) →
  merkle_root python_frames (map it_leaf items) = Ok (b_root r) → b_leaf_count r = len items →
  batches_ok (d <| batches ::= <[b := r]> |> <| predictions := ps' |>).
Proof.
  intros Hok Hb Hitems Hout Hin Hlen Hhex Hroot Hcount.
  assert (∀ id p, predictions d !! id = Some p → p_batch p ≠ Some b) as Hfresh.
  { intros id p Hp Hpb. destruct (ok_assigned d Hok id p b Hp Hpb) as [[? ?] _]. congruence. }
  assert (∀ id p', ps' !! id = Some p' →
    (predictions d !! id = Some p') ∨
    ∃ i p, predictions d !! id = Some p ∧ p_batch p = None ∧ is_Some (p_leaf p) ∧ p' = assigned b i p) as Hcases.
  { intros id p' Hp'. destruct (decide (id ∈ (assignments_of items).*1)) as [Hid|Hid].
    - apply list_elem_of_fmap in Hid as ([id' i] & -> & Hia). cbn in *. right.
      pose proof Hia as (n & it & -> & Hn & Hid)%elem_of_assignments. destruct Hitems as [_ Hit].
      destruct (Hit it) as (p & Hp & Hbp & Hl); [by eapply list_elem_of_lookup_2|]. rewrite Hid in Hp.
      rewrite (Hin _ _ _ Hia Hp) in Hp'. injection Hp' as <-. exists (Z.of_nat n), p. by rewrite Hl.
    - rewrite Hout in Hp' by done. by left. }
  split; cbn.
  - intros b' r' Hr'. destruct (decide (b' = b)) as [->|Hne].
    + rewrite lookup_insert_eq in Hr'. injection Hr' as <-. exists (map it_leaf items).
      rewrite len_map. split_and!; [|lia|lia|lia|exact Hhex|exact Hroot].
      by apply (batch_rows_assigned (d <| batches ::= <[b := r]> |>)).
    + rewrite lookup_insert_ne in Hr' by done. destruct (ok_batches d Hok b' r' Hr') as (ls & Hls & ?).
      exists ls. split; [|done]. rewrite <- Hls. apply batch_rows_ext. cbn. intros id v. split.
      * intros (p & Hp & Hv). exists p. split; [|done]. rewrite Hout; [done|].
        intros ([id' i] & -> & Hia)%list_elem_of_fmap. cbn in *.
        pose proof Hia as (n & it & -> & Hn & Hid)%elem_of_assignments. destruct Hitems as [_ Hit].
        destruct (Hit it) as (p0 & Hp0 & Hbp & _); [by eapply list_elem_of_lookup_2|]. rewrite Hid in Hp0.
        assert (p0 = p) as -> by congruence. rewrite leaf_of_other in Hv; [done|congruence].
      * intros (p' & Hp' & Hv). destruct (Hcases id p' Hp') as [Hp|(i & p & Hp & _ & _ & ->)]; [by exists p'|].
        rewrite leaf_of_other in Hv; [done|]. cbn. congruence.
  - intros id p' b' Hp' Hpb. destruct (Hcases id p' Hp') as [Hp|(i & p & Hp & _ & Hl & ->)].
    + destruct (ok_assigned d Hok id p' b' Hp Hpb) as [[r0 Hr0] ?]. split; [|done].
      rewrite lookup_insert_ne; [by exists r0|congruence].
    + cbn in Hpb. injection Hpb as <-. by rewrite lookup_insert_eq.
Qed.

(** ** The selection *)

Lemma pending_rows_spec n d id p :
  (id, p) ∈ pending_rows n d → predictions d !! id = Some p ∧ p_batch p = None ∧ is_Some (p_leaf p).
Proof.
  intros Hin%elem_of_limit%elem_of_order_by. apply list_elem_of_filter in Hin as [Hu Hin%elem_of_map_to_list].
  cbn in Hu. unfold unanchored in Hu. case_bool. done.
Qed.

Lemma pending_rows_NoDup n d : NoDup (pending_rows n d).*1.
Proof.
  eapply sublist_NoDup; [|apply (fmap_sublist fst), sublist_take]. rewrite (order_by_perm pending_leb).
  eapply sublist_NoDup; [|apply (fmap_sublist fst), sublist_filter]. apply NoDup_fst_map_to_list.
Qed.

Lemma pending_items_ok source n d : items_ok d (map (item_of source) (pending_rows n d)).
Proof.
  split.
  - rewrite map_map. exact (pending_rows_NoDup n d).
  - intros it Hit. apply list_elem_of_In, in_map_iff in Hit as ([id p] & <- & Hin%list_elem_of_In).
    apply pending_rows_spec in Hin as (Hp & Hb & [l Hl]). exists p. cbn. by rewrite Hl.
Qed.

Lemma select_items_sub items it : it ∈ select_items items → it ∈ items.
Proof. intros Hit%elem_of_limit. by apply elem_of_order_by in Hit. Qed.

Lemma select_items_ok d items : items_ok d items → items_ok d (select_items items).
Proof.
  intros [Hnd Hit]. split.
  - eapply sublist_NoDup; [|apply (fmap_sublist it_id), sublist_take]. change (NoDup (map it_id (order_by item_leb items))).
    by rewrite (Permutation_map it_id (order_by_perm item_leb items)).
  - intros it Hin. by apply Hit, select_items_sub.
Qed.

Lemma select_items_len items : items ≠ [] → 1 ≤ len (select_items items) ≤ MAX_BATCH_LEAVES.
Proof.
  intros Hne. split; [|apply length_limit_le; done]. unfold select_items, limit, len. rewrite length_take.
  rewrite (Permutation_length (order_by_perm item_leb items)). destruct items; [done|]. cbn [length].
  change (Z.to_nat MAX_BATCH_LEAVES) with (S 4095). lia.
Qed.

Lemma append_to_one {A} name (a : A) l : append_to name a [(name, l)] = [(name, l ++ [a])].
Proof. cbn. by rewrite String.eqb_refl. Qed.

Lemma by_source_one name sel :
  sel ≠ [] → (∀ it, it ∈ sel → it_source it = name) → by_source sel = [(name, assignments_of sel)].
Proof.
  intros Hne Hname. unfold by_source, assignments_of.
  set (step := λ groups '(i, it), append_to (it_source it) (it_id it, Z.of_nat i) groups).
  assert (∀ (L : list (nat * Item)) acc, (∀ i it, (i, it) ∈ L → it_source it = name) →
    foldl step [(name, acc)] L = [(name, acc ++ map (λ '(i, it), (it_id it, Z.of_nat i)) L)]) as Hfold.
  { induction L as [|[i it] L IH]; intros acc HL; [by rewrite app_nil_r|]. cbn [foldl].
    unfold step at 2. rewrite (HL i it) by left. rewrite append_to_one, IH by (intros; eapply HL; by right).
    by rewrite <- app_assoc. }
  assert (imap (λ i it, (it_id it, Z.of_nat i)) sel = map (λ '(i, it), (it_id it, Z.of_nat i)) (imap (λ i it, (i, it)) sel)) as ->.
  { apply list_eq. intros i. rewrite lookup_map, !list_lookup_imap. by destruct (sel !! i). }
  assert (∀ i it, (i, it) ∈ imap (λ i it, (i, it)) sel → it_source it = name) as HL.
  { intros i it (n & it' & [= -> ->] & Hn)%elem_of_lookup_imap. by apply Hname, (list_elem_of_lookup_2 _ n). }
  assert (imap (λ i it, (i, it)) sel ≠ []) as Hne' by (destruct sel; [done|by cbn]).
  destruct (imap (λ i it, (i, it)) sel) as [|[i it] L]; [done|]. cbn [foldl map].
  assert (step [] (i, it) = [(name, [(it_id it, Z.of_nat i)])]) as -> by (cbn; by rewrite (HL i it) by left).
  rewrite Hfold; [done|]. intros; eapply HL; by right.
Qed.

Section anchor_inv.
Context (float_repr : Z → positive → string) (uuids : nat → string).

(** The labelling store and the batches together. *)
Definition anchor_inv : LabelDb → unit → Prop := store_inv float_repr batches_ok.

Lemma items_hex d items :
  labels_ok float_repr d → items_ok d items → all_hex64 (map it_leaf items).
Proof.
  intros Hd [_ Hit]. apply Forall_forall. intros l Hl. apply list_elem_of_In, in_map_iff in Hl as (it & <- & Hin%list_elem_of_In).
  destruct (Hit it Hin) as (p & Hp & _ & Hlf). destruct (ok_predictions _ d Hd _ p Hp) as [_ Hok].
  rewrite Hlf in Hok. by destruct (p_salt p); [destruct Hok|].
Qed.

(** Inserting the batch and assigning its rows, from a state of the invariant. *)
Lemma assign_groups_seals now d batch items r (Q : unit → LabelDb → Prop) (E : exn → LabelDb → Prop) u :
  anchor_inv d u → batches d !! batch = None → items_ok d items → items ≠ [] →
  (∀ it, it ∈ items → it_source it = "labeling_predictions") →
  len items ≤ MAX_BATCH_LEAVES →
  merkle_root python_frames (map it_leaf items) = Ok (b_root r) → b_leaf_count r = len items →
  (∀ d', E ConnectionError d') → (∀ d', anchor_inv d' u → Q tt d') →
  wpt now (assign_groups batch (by_source items)) Q E (d <| batches ::= <[batch := r]> |>).
Proof.
  intros [Hd HJ] Hb Hitems Hne Hsrc Hlen Hroot Hcount HE HQ.
  rewrite (by_source_one "labeling_predictions") by done. unfold assign_groups. cbn [for_each].
  apply wpt_bind. cbn [find _SOURCES source_name]. rewrite String.eqb_refl. apply wpt_bind, wpt_stmt; [apply HE|].
  destruct (assign_rows_spec batch (assignments_of items) (predictions d)) as (ps' & Heq & Hout & Hin).
  { rewrite assignments_ids. apply Hitems. }
  { intros id i (n & it & -> & Hn & <-)%elem_of_assignments. destruct Hitems as [_ Hit].
    destruct (Hit it) as (p & Hp & Hpb & Hl); [by eapply list_elem_of_lookup_2|]. exists p. by rewrite Hl. }
  cbn. rewrite Heq. cbn. split; [|apply HE]. rewrite Z.eqb_refl. apply wpt_ret, wpt_ret, HQ.
  split.
  - apply (labels_ok_assigned _ (d <| batches ::= <[batch := r]> |>)); [by split; apply Hd| |].
    + intros id p Hp. destruct (decide (id ∈ (assignments_of items).*1)) as [Hid|Hid].
      * apply list_elem_of_fmap in Hid as ([id' i] & -> & Hia). exists (assigned batch i p).
        split; [by apply Hin|right; by eexists _, _].
      * exists p. rewrite Hout by done. split; [done|by left].
    + intros id Hnone. cbn in Hnone. rewrite Hout; [done|]. intros ([id' i] & -> & Hia)%list_elem_of_fmap.
      apply elem_of_assignments in Hia as (n & it & -> & Hn & Hid). destruct Hitems as [_ Hit].
      destruct (Hit it) as (p & Hp & _); [by eapply list_elem_of_lookup_2|]. cbn in Hnone. congruence.
  - eapply batches_ok_sealed; try done.
    + split; [|done]. unfold len. destruct items; [done|]. cbn. lia.
    + by apply (items_hex d).
Qed.

Lemma seal_batch_keeps chain_id : preserves anchor_inv (seal_batch uuids chain_id).
Proof.
  unfold seal_batch. repeat inv_step; [done|]. intros now d u HI.
  apply wpt_bind, wpt_query; [done|]. unfold _SOURCES. cbn [for_each].
  apply wpt_bind, wpt_bind, wpt_bind, wpt_query; [done|]. apply wpt_ret, wpt_ret. cbn [app].
  set (items := map _ _). pose proof (pending_items_ok (MkAnchorSource "labeling_predictions" "labeling_predictions" "prediction_at") MAX_BATCH_LEAVES d) as Hitems.
  fold items in Hitems. destruct items as [|it0 rest] eqn:Eitems; [by apply wpt_ret|]. rewrite <- Eitems in *.
  pose proof (select_items_len items) as Hlen. specialize (Hlen ltac:(by rewrite Eitems)).
  pose proof (select_items_ok d items Hitems) as Hsel. pose proof (items_hex d _ (proj1 HI) Hsel) as Hhex.
  set (sel := select_items items) in *.
  apply wpt_bind, wpt_uuid4. intros batch. apply wpt_bind. unfold lift.
  destruct (merkle_root_ok 99 (map it_leaf sel)) as (root & Hroothex & Hroot); [|exact Hhex|].
  { rewrite len_map. unfold MAX_BATCH_LEAVES in Hlen. change (Z.of_nat 99) with 99. lia. }
  specialize (Hroot 0%nat). change (S (99 + 0)) with python_frames in Hroot. rewrite Hroot.
  apply wpt_ret, wpt_bind, wpt_stmt; [done|]. unfold insert_batch. destruct (_ || _); [done|].
  case_bool_decide as Hfresh; [done|]. split; [|done]. apply wpt_bind.
  eapply (assign_groups_seals now d batch sel _ _ _ u); try done.
  - destruct (batches d !! batch); [|done]. by destruct Hfresh.
  - intros ->. unfold len in Hlen. cbn in Hlen. lia.
  - intros it Hit%select_items_sub. unfold items in Hit. apply list_elem_of_In, in_map_iff in Hit as (? & <- & _). done.
  - lia.
  - intros d' HI'. by apply wpt_ret.
Qed.

(** The statements that record what the chain says. *)
Lemma anchor_inv_update d u id r r' :
  anchor_inv d u → batches d !! id = Some r → same_tree r r' →
  anchor_inv (d <| batches ::= <[id := r']> |>) u.
Proof. intros [Hd HJ] Hr Hs. split; [by split; apply Hd|by eapply batches_ok_update]. Qed.

Definition keeps_tree (f : BatchRow → BatchRow) : Prop := ∀ r, same_tree r (f r).

Lemma update_batch_keeps id guard f :
  keeps_tree f → preserves anchor_inv (stmt (λ _, update_batch id guard f)).
Proof.
  intros Hf. apply wpi_stmt; [done|]. intros now d u HI. unfold update_batch.
  destruct (batches d !! id) as [r|] eqn:Hr; [|done]. destruct (guard r); [|done].
  destruct (batch_checks (f r)); [|done]. split; [|done]. by eapply anchor_inv_update.
Qed.

Lemma claim_unsent_batch_keeps : preserves anchor_inv _claim_unsent_batch.
Proof.
  apply wpi_stmt; [done|]. intros now d u HI. destruct (head _) as [[id r]|] eqn:Hh; [|done]. split; [|done].
  apply head_Some_elem_of, elem_of_limit, elem_of_order_by, list_elem_of_filter in Hh as [_ Hin%elem_of_map_to_list].
  by eapply anchor_inv_update.
Qed.
End anchor_inv.

#[export] Hint Resolve seal_batch_keeps claim_unsent_batch_keeps : teardrop.

(** ** What the guard triggers of migration 110 leave to other processes *)

Definition confirmation (r : BatchRow) : option string * option string * option Z * option Z :=
  (b_tx r, b_address r, b_block r, b_anchored r).

(** A batch keeps its tree for ever, and its transaction once confirmed. *)
Definition batch_guard (r r' : BatchRow) : Prop :=
  same_tree r r' ∧ (is_Some (b_block r) → confirmation r' = confirmation r).

#[export] Instance batch_guard_preorder : PreOrder batch_guard.
Proof.
  split.
  - intros r. by split.
  - intros r1 r2 r3 [(? & ? & ? & ?) H12] [(? & ? & ? & ?) H23]. split; [split_and!; congruence|].
    intros Hblk. specialize (H12 Hblk). rewrite <- H12. apply H23. unfold confirmation in H12. congruence.
Qed.

Definition row_guard (p p' : PredictionRow) : Prop :=
  committed p →
  (p_org p', p_signer p', p_definition p', p_sha256 p', p_at p', p_salt p', p_leaf p')
    = (p_org p, p_signer p, p_definition p, p_sha256 p, p_at p, p_salt p, p_leaf p) ∧
  (is_Some (p_batch p) → p_batch p' = p_batch p ∧ p_leaf_index p' = p_leaf_index p).

Definition guarded (I : LabelDb → unit → Prop) (d : LabelDb) (u : unit) (d' : LabelDb) (u' : unit) : Prop :=
  (∀ id r, batches d !! id = Some r → ∃ r', batches d' !! id = Some r' ∧ batch_guard r r') ∧
  (∀ id p, predictions d !! id = Some p → committed p → ∃ p', predictions d' !! id = Some p' ∧ row_guard p p') ∧
  (I d u → I d' u').

Section handlers.
Context (float_repr : Z → positive → string) (uuids : nat → string).
Context (node : Z → Z → Node) (rpc_url : Z → res unit) (cdp_send : Z → string → Z → res (string * string)).
Abbreviation confirm := (_confirm node rpc_url).
Abbreviation tick := (anchor_tick uuids node rpc_url cdp_send).

(** The statements of a tick, for any assertion they keep. *)
Section keeps.
Context (I : LabelDb → unit → Prop).
Hypothesis reset_keeps : ∀ id tx e, preserves I (_reset_submission id tx e).
Hypothesis confirmation_keeps : ∀ id tx n at_, preserves I (_record_confirmation id tx n at_).

Lemma rpc_keeps {A} chain (ask : Node → res (option A)) : preserves I (_rpc node chain ask).
Proof. by apply wpi_external. Qed.

Ltac rpc_step := apply wpi_bind; eapply wpi_mono; [apply rpc_keeps|]; intros [[?|]|?] _; [|by apply wpi_ret|done].

Lemma confirm_keeps row : preserves I (confirm row).
Proof.
  unfold _confirm. apply wpi_bind. destruct (rpc_url _); [|by apply wpi_raise]. apply wpi_ret.
  apply wpi_bind. eapply wpi_mono; [apply rpc_keeps|]. intros [[tx|]|?] _; [| |done].
  2: { apply wpi_bind. destruct (sb_expired row); [|by do 2 apply wpi_ret].
       eapply wpi_mono; [apply reset_keeps|]. intros [?|?] _; [by apply wpi_ret|done]. }
  case_bool_decide; [by apply wpi_ret|]. rpc_step.
  destruct (_ || _).
  { apply wpi_bind. eapply wpi_mono; [apply reset_keeps|]. intros [?|?] _; [by apply wpi_ret|done]. }
  rpc_step.
  rpc_step.
  apply wpi_bind. destruct (int16 _); [|by apply wpi_raise]. apply wpi_ret.
  apply wpi_bind. destruct (int16 _); [|by apply wpi_raise]. apply wpi_ret.
  destruct (_ <? _); [by apply wpi_ret|]. destruct (_ || _); [by apply wpi_ret|].
  apply wpi_bind. destruct (int16 _); [|by apply wpi_raise]. apply wpi_ret.
  apply wpi_bind. eapply wpi_mono; [apply confirmation_keeps|]. intros [?|?] _; [by apply wpi_ret|done].
Qed.

Hypothesis seal_keeps : ∀ chain_id, preserves I (seal_batch uuids chain_id).
Hypothesis claim_keeps : preserves I _claim_unsent_batch.
Hypothesis release_keeps : ∀ id e, preserves I (_release_unsent id e).
Hypothesis submission_keeps : ∀ id tx a, preserves I (_record_submission id tx a).

Lemma seal_loop_keeps n chain_id : preserves I (seal_loop uuids n chain_id).
Proof.
  induction n as [|n IH]; cbn [seal_loop]; [by apply wpi_ret|]. apply wpi_bind.
  eapply wpi_mono; [apply seal_keeps|]. intros [[b|]|e] _; [exact IH|by apply wpi_ret|done].
Qed.

Lemma send_loop_keeps n : preserves I (send_loop cdp_send n).
Proof.
  induction n as [|n IH]; cbn [send_loop]; [by apply wpi_ret|]. apply wpi_bind.
  eapply wpi_mono; [apply claim_keeps|]. intros [[[id r]|]|e] _; [|by apply wpi_ret|done].
  assert (∀ e, wpi I (_release_unsent id e;; mret (None : option (string * string)))
    (λ r, match r with Ok _ => True | Raise _ => True end)) as Hrelease.
  { intros e. apply wpi_bind. eapply wpi_mono; [apply release_keeps|]. intros [?|?] _; [by apply wpi_ret|done]. }
  apply wpi_bind, wpi_catch, wpi_bind.
  assert (∀ sent, wpi I (match sent with
    | Some (tx, a) => _record_submission id tx a;; send_loop cdp_send n
    | None => mret tt end) (λ _, True)) as Hnext.
  { intros [[tx a]|]; [|by apply wpi_ret]. apply wpi_bind.
    eapply wpi_mono; [apply submission_keeps|]. intros [?|?] _; [exact IH|done]. }
  assert (∀ e, wpi I (_release_unsent id e;; mret None) (λ r, match r with
    | Ok sent => wpi I (match sent with Some (tx, a) => _record_submission id tx a;; send_loop cdp_send n
        | None => mret tt end) (λ _, True)
    | Raise _ => True end)) as Hcaught.
  { intros e. eapply wpi_mono; [apply Hrelease|]. intros [a|?] _; [exact (Hnext a)|done]. }
  eapply wpi_mono; [apply (wpi_external I _ (λ _, True)); [done|]|].
  { intros now d u HI. by split. }
  intros [[tx a]|e] _; [|apply Hcaught]. destruct (_ && _); [apply wpi_ret; exact (Hnext (Some (tx, a)))|apply wpi_raise, Hcaught].
Qed.

Lemma tick_keeps chain_id : preserves I (tick chain_id).
Proof.
  unfold anchor_tick. apply wpi_bind. eapply wpi_mono; [apply seal_loop_keeps|]. intros [?|?] _; [|done].
  apply wpi_bind. eapply wpi_mono; [apply send_loop_keeps|]. intros [?|?] _; [|done].
  apply wpi_bind. apply wpi_query; [done|]. intros now d u _.
  apply (wpi_for_each _ _ _ _ (λ _, True)); [done..|]. intros n row _ _.
  apply wpi_catch, wpi_bind. eapply wpi_mono; [apply confirm_keeps|]. intros [?|?] _; by apply wpi_ret.
Qed.
End keeps.

(** *** Final batches *)
Definition batch_final (id : string) (r0 : BatchRow) (d : LabelDb) (_ : unit) : Prop :=
  ∃ r, batches d !! id = Some r ∧ batch_guard r0 r.

Lemma checked_confirmation r :
  batch_checks r = true → is_Some (b_block r) → is_Some (b_tx r).
Proof.
  unfold batch_checks. intros [_ Hchk]%andb_true_iff Hb. apply orb_true_iff in Hchk as [H|H]; case_bool; [|done].
  rewrite H in Hb. by destruct Hb.
Qed.

(** An update of batches that a confirmed row is not subject to. *)
Lemma batch_final_step id r0 d u id' r f :
  batch_checks r0 = true → batch_final id r0 d u → batches d !! id' = Some r →
  keeps_tree f → b_tx r = None ∨ b_block r = None →
  batch_final id r0 (d <| batches ::= <[id' := f r]> |>) u.
Proof.
  intros Hchk (r1 & Hr1 & Htree & Hconf) Hr Hf Hopen. destruct (decide (id' = id)) as [->|].
  - assert (r1 = r) as -> by congruence. exists (f r). cbn. rewrite lookup_insert_eq. split; [done|].
    split; [by etrans; [|apply Hf]|]. intros Hblk. specialize (Hconf Hblk). injection Hconf as Htx _ Hb _.
    destruct (checked_confirmation r0 Hchk Hblk) as [tx Htx0]. destruct Hblk as [n Hn]. destruct Hopen; congruence.
  - exists r1. cbn. by rewrite lookup_insert_ne.
Qed.

Lemma update_batch_final id r0 id' guard f :
  batch_checks r0 = true → keeps_tree f → (∀ r, guard r = true → b_tx r = None ∨ b_block r = None) →
  preserves (batch_final id r0) (stmt (λ _, update_batch id' guard f)).
Proof.
  intros Hchk Hf Hg. apply wpi_stmt; [done|]. intros now d u HI. unfold update_batch.
  destruct (batches d !! id') as [r|] eqn:Hr; [|done]. destruct (guard r) eqn:Hgr; [|done].
  destruct (batch_checks (f r)); [|done]. split; [|done]. apply batch_final_step; auto.
Qed.

Lemma open_tx r : bool_decide (b_tx r = None) = true → b_tx r = None ∨ b_block r = None.
Proof. intros H. case_bool. by left. Qed.

Lemma submitted_open tx r : submitted_as tx r = true → b_tx r = None ∨ b_block r = None.
Proof. unfold submitted_as. intros [_ H]%andb_true_iff. case_bool. by right. Qed.

Lemma claim_unsent_batch_final id r0 : batch_checks r0 = true → preserves (batch_final id r0) _claim_unsent_batch.
Proof.
  intros Hchk. apply wpi_stmt; [done|]. intros now d u HI. destruct (head _) as [[id' r]|] eqn:Hh; [|done].
  split; [|done]. apply head_Some_elem_of, elem_of_limit, elem_of_order_by, list_elem_of_filter in Hh.
  destruct Hh as [Hu Hin%elem_of_map_to_list]. apply (batch_final_step _ _ _ _ _ _ (claim_row _)); [done..|].
  cbn in Hu. unfold unsent in Hu. left. by case_bool.
Qed.

(** What only depends on the batches and survives a new, unsent one, survives a seal. *)
Lemma seal_batch_any (I : LabelDb → unit → Prop) chain_id :
  (∀ d u ps, I d u → I (d <| predictions := ps |>) u) →
  (∀ d u id root n now, I d u → batches d !! id = None →
     I (d <| batches ::= <[id := MkBatchRow root n chain_id None None None None None 0 "" now]> |>) u) →
  preserves I (seal_batch uuids chain_id).
Proof.
  intros Hps Hnew. unfold seal_batch. apply wpi_transaction; [done|]. intros now d u HI.
  eapply (wpt_mono _ _ (λ _ d', I d' u) _ (λ _ _, True)); [|auto..].
  apply wpt_bind, wpt_query; [done|]. apply wpt_bind.
  eapply (wpt_mono _ _ (λ _ d', I d' u) _ (λ _ _, True)); [apply (wpt_for_each _ _ _ _ (λ _ d', I d' u)); [done|]| |done].
  { intros acc src d' _ Hd. apply wpt_bind, wpt_query; [done|]. by apply wpt_ret. }
  intros items d' Hd'. destruct items as [|it items]; [by apply wpt_ret|].
  apply wpt_bind, wpt_uuid4. intros b. apply wpt_bind. destruct (merkle_root _ _); [|by apply wpt_raise].
  apply wpt_ret, wpt_bind, wpt_stmt; [done|]. unfold insert_batch. destruct (_ || _); [done|].
  case_bool_decide as Hfresh; [done|]. split; [|done]. apply wpt_bind.
  eapply (wpt_mono _ _ (λ _ d', I d' u) _ (λ _ _, True)); [|by intros; apply wpt_ret|done].
  apply (wpt_for_each _ _ _ _ (λ _ d', I d' u)).
  { apply Hnew; [done|]. destruct (batches d' !! b) eqn:E; [|done]. by destruct Hfresh. }
  intros [] [name assignments] d1 _ Hd1. destruct (find _ _) as [source|]; [|by apply wpt_raise].
  apply wpt_bind, wpt_stmt; [done|]. destruct (assign_rows _ _ _) as [[n ps]|]; [|done]. cbn. split; [|done].
  destruct (_ =? _); [apply wpt_ret|apply wpt_raise; done]. by apply Hps.
Qed.

Lemma seal_batch_final id r0 chain_id : preserves (batch_final id r0) (seal_batch uuids chain_id).
Proof.
  apply seal_batch_any; [done|]. intros d u b root n now (r & Hr & Hg) Hb. exists r. split; [|done]. cbn.
  rewrite lookup_insert_ne; [done|]. congruence.
Qed.


(** A confirmed batch is final: no tick changes its root, leaf count, chain,
    transaction, address, block or time, and before the confirmation no tick changes
    the tree, whatever fails and whatever the other processes do within the same
    guard. *)
Theorem confirmed_batch_final chain_id id r0 :
  batch_checks r0 = true → preserves (batch_final id r0) (tick chain_id).
Proof.
  intros Hchk. apply tick_keeps; intros; auto using seal_batch_final, claim_unsent_batch_final;
    apply update_batch_final; try done; intros; eauto using open_tx, submitted_open.
Qed.

(** *** What a confirmation means *)

(** The node's answers that [_confirm] checked, each at some instant. *)
Definition confirmed_by_chain (r : BatchRow) : Prop :=
  ∃ tx_hash n ts t1 t2 t3 t4 tx receipt block finalized last,
    b_tx r = Some tx_hash ∧ b_block r = Some n ∧ b_anchored r = Some (seconds ts) ∧
    eth_getTransactionByHash (node t1 (b_chain r)) tx_hash = Ok (Some tx) ∧
    lower (tx_input tx) = ("0x" ++ b_root r)%string ∧ lower (tx_from tx) = lower (tx_to tx) ∧
    is_Some (tx_block tx) ∧
    eth_getTransactionReceipt (node t2 (b_chain r)) tx_hash = Ok (Some receipt) ∧
    rc_status receipt = Some "0x1" ∧ int16 (rc_block receipt) = Ok n ∧
    eth_getBlockByNumber (node t3 (b_chain r)) (rc_block receipt) = Ok (Some block) ∧
    rc_block_hash receipt = bk_hash block ∧ int16 (bk_timestamp block) = Ok ts ∧
    eth_getBlockByNumber (node t4 (b_chain r)) "finalized" = Ok (Some finalized) ∧
    int16 (bk_number finalized) = Ok last ∧ n ≤ last.

Definition evidence_ok (d : LabelDb) (_ : unit) : Prop :=
  ∀ id r, batches d !! id = Some r → is_Some (b_block r) → confirmed_by_chain r.

(** Other processes keep the trees and confirm on the same evidence. *)
Definition evidence_rely (d : LabelDb) (u : unit) (d' : LabelDb) (u' : unit) : Prop :=
  (∀ id r, batches d !! id = Some r → ∃ r', batches d' !! id = Some r' ∧ same_tree r r') ∧
  (evidence_ok d u → evidence_ok d' u').

Definition known_row (row : Submitted) (d : LabelDb) : Prop :=
  ∃ r, batches d !! sb_id row = Some r ∧ b_root r = sb_root row ∧ b_chain r = sb_chain row.

Definition known (rows : list Submitted) (d : LabelDb) (u : unit) : Prop :=
  evidence_ok d u ∧ ∀ row, row ∈ rows → known_row row d.

Lemma stable_known rows : stable evidence_rely (known rows).
Proof.
  intros d u d' u' [He Hk] [Hb Hstep]. split; [auto|]. intros row Hrow.
  destruct (Hk row Hrow) as (r & Hr & ? & ?). destruct (Hb _ _ Hr) as (r' & ? & ? & ? & ? & ?).
  exists r'. split_and!; congruence.
Qed.

Lemma stable_evidence : stable evidence_rely evidence_ok.
Proof. intros d u d' u' He [_ Hstep]. auto. Qed.

Lemma evidence_insert d u id r :
  evidence_ok d u → (is_Some (b_block r) → confirmed_by_chain r) →
  evidence_ok (d <| batches ::= <[id := r]> |>) u.
Proof. intros He Hr id' r'. cbn. intros [[-> <-]|[_ ?]]%lookup_insert_Some; eauto. Qed.

Lemma known_insert rows d u id r r' :
  known rows d u → batches d !! id = Some r → same_tree r r' →
  (is_Some (b_block r') → confirmed_by_chain r') → known rows (d <| batches ::= <[id := r']> |>) u.
Proof.
  intros [He Hk] Hr (? & _ & ? & _) Hc. split; [by apply evidence_insert|]. intros row Hrow.
  destruct (Hk row Hrow) as (r1 & Hr1 & ? & ?). unfold known_row. cbn. destruct (decide (sb_id row = id)) as [Heq|].
  - exists r'. rewrite Heq, lookup_insert_eq. rewrite Heq in Hr1. assert (r1 = r) as -> by congruence.
    split_and!; congruence.
  - exists r1. by rewrite lookup_insert_ne.
Qed.

Lemma update_batch_evidence id guard f :
  (∀ r, guard r = true → is_Some (b_block (f r)) → b_tx r = None ∧ is_Some (b_block r)) →
  preserves evidence_ok (stmt (λ _, update_batch id guard f)).
Proof.
  intros Hf. apply wpi_stmt; [done|]. intros now d u He. unfold update_batch.
  destruct (batches d !! id) as [r|] eqn:Hr; [|done]. destruct (guard r) eqn:Hg; [|done].
  destruct (batch_checks (f r)); [|done]. split; [|done]. apply evidence_insert; [done|].
  intros Hb. destruct (Hf r Hg Hb) as [Htx Hblk].
  destruct (He _ _ Hr Hblk) as (? & ? & ? & ? & ? & ? & ? & ? & ? & ? & ? & ? & ? & _). congruence.
Qed.

Lemma claim_unsent_batch_evidence : preserves evidence_ok _claim_unsent_batch.
Proof.
  apply wpi_stmt; [done|]. intros now d u He. destruct (head _) as [[id r]|] eqn:Hh; [|done]. split; [|done].
  apply head_Some_elem_of, elem_of_limit, elem_of_order_by, list_elem_of_filter in Hh.
  destruct Hh as [_ Hr%elem_of_map_to_list]. apply evidence_insert; [done|]. exact (He id r Hr).
Qed.

Lemma seal_batch_evidence chain_id : preserves evidence_ok (seal_batch uuids chain_id).
Proof.
  apply seal_batch_any; [done|]. intros d u b root n now He _. apply evidence_insert; [done|].
  cbn. by intros [? ?].
Qed.

Lemma rpc_rg {A} P chain (ask : Node → res (option A)) :
  stable evidence_rely P →
  rg evidence_rely P (_rpc node chain ask)
    (λ r d u, P d u ∧ match r with Ok a => ∃ t, ask (node t chain) = Ok a | Raise _ => True end).
Proof.
  intros HP. apply rg_external; [done|]. intros now d u Hd. split; [done|]. split; [|done]. split; [done|].
  destruct (ask (node now chain)) as [a|e] eqn:E; [|done]. by exists now.
Qed.

Lemma reset_submission_known rows id tx e :
  rg evidence_rely (known rows) (_reset_submission id tx e) (λ _, known rows).
Proof.
  apply rg_stmt; [apply stable_known|]. intros now d u Hd. split; [done|]. unfold update_batch.
  destruct (batches d !! id) as [r|] eqn:Hr; [|done]. destruct (submitted_as tx r) eqn:Hs; [|done].
  destruct (batch_checks _); [|done]. unfold submitted_as in Hs. apply andb_true_iff in Hs as [_ Hs].
  enough (known rows (d <| batches ::= <[id :=
    r <| b_tx := None |> <| b_address := None |> <| b_lease := None |> <| b_error := e |>]> |>) u) by done.
  eapply known_insert; [done..| |]; [by split_and!|]. cbn. case_bool. intros [? ?]. congruence.
Qed.

Lemma confirm_evidence rows row :
  row ∈ rows → rg evidence_rely (known rows) (confirm row) (λ _, known rows).
Proof.
  intros Hrow. unfold _confirm. set (P := known rows). pose proof (stable_known rows : stable _ P) as HP.
  assert (∀ b, rg evidence_rely P (mret b : H bool) (λ _, P)) as Hret by (intros; by apply rg_ret).
  assert (∀ m : H unit, rg evidence_rely P m (λ _, P) → rg evidence_rely P (m;; mret false) (λ _, P)) as Hthen.
  { intros m Hm. eapply rg_bind; [exact Hm| |done]. intros ?. apply Hret. }
  eapply rg_bind_pure; [apply (rg_lift _ P)| |done]. intros ? _.
  eapply rg_bind_pure; [by apply rpc_rg| |done]. intros [tx|] [t1 Htx].
  2: { apply Hthen. destruct (sb_expired row); [apply reset_submission_known|by apply rg_ret]. }
  case_bool_decide as Hblk; [apply Hret|].
  eapply rg_bind_pure; [by apply rpc_rg| |done]. intros [receipt|] [t2 Hreceipt]; [|apply Hret].
  destruct (_ || _) eqn:Hok; [apply Hthen, reset_submission_known|]. apply orb_false_iff in Hok as [Hst Hm].
  eapply rg_bind_pure; [by apply rpc_rg| |done]. intros [block_|] [t3 Hblock]; [|apply Hret].
  eapply rg_bind_pure; [by apply rpc_rg| |done]. intros [finalized|] [t4 Hfin]; [|apply Hret].
  eapply rg_bind_pure; [apply rg_lift| |done]. intros n Hn; cbv beta in Hn; symmetry in Hn.
  eapply rg_bind_pure; [apply rg_lift| |done]. intros last Hlast; cbv beta in Hlast; symmetry in Hlast.
  destruct (last <? n) eqn:Hle; [apply Hret|]. destruct (_ || _) eqn:Hhash; [apply Hret|].
  eapply rg_bind_pure; [apply rg_lift| |done]. intros ts Hts; cbv beta in Hts; symmetry in Hts.
  apply (rg_bind _ _ _ _ (λ _, P)); [|intros ?; by apply rg_ret|done].
  apply rg_stmt; [done|]. intros now d u Hd. split; [done|]. unfold update_batch.
  destruct (batches d !! sb_id row) as [r|] eqn:Hr; [|done]. destruct (submitted_as _ r) eqn:Hs; [|done].
  destruct (batch_checks _); [|done].
  enough (P (d <| batches ::= <[sb_id row := confirmed_row n (seconds ts) r]> |>) u) by done.
  eapply known_insert; [done..| |]; [by split_and!|]. intros _.
  destruct Hd as [_ Hk]. destruct (Hk row Hrow) as (r' & Hr' & Hroot & Hchain).
  assert (r' = r) as -> by congruence. unfold submitted_as in Hs. apply andb_true_iff in Hs as [Hs _].
  apply negb_false_iff in Hst, Hm. apply orb_false_iff in Hhash as [_ Hhash]. apply negb_false_iff in Hhash.
  unfold matches in Hm. apply andb_true_iff in Hm as [[Hin Hfrom]%andb_true_iff Hto]. repeat case_bool.
  apply String.eqb_eq in Hin.
  exists (sb_tx row), n, ts, t1, t2, t3, t4, tx, receipt, block_, finalized, last. cbn. rewrite Hchain, Hroot.
  split_and!; try done; [congruence|by apply not_eq_None_Some].
Qed.

(** A batch is only marked confirmed on evidence: the node returned the recorded
    transaction as mined, carrying exactly the root of the batch from an address to
    itself, with a successful receipt in the recorded block, that block had the
    receipt's hash and the recorded time, and was not after the last finalized one. *)
Theorem confirmed_on_evidence chain_id :
  rg evidence_rely evidence_ok (tick chain_id) (λ _, evidence_ok).
Proof.
  unfold anchor_tick.
  assert (∀ {A} (m : H A), preserves evidence_ok m → rg evidence_rely evidence_ok m (λ _, evidence_ok)) as Hpre.
  { intros A m. apply rg_preserves, stable_evidence. }
  eapply rg_bind; [apply Hpre, seal_loop_keeps, seal_batch_evidence| |done]. intros ?.
  eapply rg_bind; [apply Hpre, send_loop_keeps| |done].
  { apply claim_unsent_batch_evidence. }
  { intros id e. apply update_batch_evidence. cbn. intros r Hg ?. by case_bool. }
  { intros id tx ad. apply update_batch_evidence. cbn. intros r Hg ?. by case_bool. }
  intros ?. eapply (rg_bind _ _ _ _ (λ r d u, match r with Ok rows => known rows d u | Raise _ => evidence_ok d u end));
    [|intros rows|done].
  - apply rg_query; [apply stable_evidence|]. intros now d u He. split; [done|]. split; [done|].
    intros row (i & Hin & _)%elem_of_take. apply list_elem_of_lookup_2 in Hin. unfold submitted_batches in Hin.
    apply list_elem_of_omap in Hin as ([id r] & Hin%elem_of_order_by%elem_of_map_to_list & Hrow). cbn in Hrow.
    destruct (b_tx r); [|done]. destruct (b_block r); [done|]. injection Hrow as <-. by exists r.
  - apply (rg_mono _ (known rows) _ _ (λ _, known rows)); [|done|by intros ??? [? _]].
    apply (rg_for_each _ _ _ _ (λ _, known rows)); [done|]. intros confirmed row Hrow.
    eapply (rg_catch _ _ _ _ (λ _, known rows)); [|by intros; apply rg_ret|done].
    eapply rg_bind; [by apply confirm_evidence| |done]. intros ok. by apply rg_ret.
Qed.
End handlers.

(** ** The proof that is served verifies *)

Lemma sealed_lookup ls x : x ∈ sealed_as ls ↔ ∃ i l, x = (Z.of_nat i, l) ∧ ls !! i = Some l.
Proof. unfold sealed_as. rewrite elem_of_lookup_imap. naive_solver. Qed.

Lemma sealed_sorted ls : Sorted (λ a b : Z * string, a.1 ≤ b.1) (sealed_as ls).
Proof.
  unfold sealed_as. enough (∀ k, Sorted (λ a b : Z * string, a.1 ≤ b.1) (imap (λ i l, (Z.of_nat (k + i), l)) ls)) as H
    by exact (H 0%nat).
  induction ls as [|l ls IH]; intros k; [constructor|]. cbn. constructor.
  - specialize (IH (S k)). erewrite imap_ext; [exact IH|]. intros i ? _. cbn. do 2 f_equal. lia.
  - destruct ls as [|l' ls]; constructor. cbn. lia.
Qed.

Lemma indexed_leb_total a b : indexed_leb a b = false → indexed_leb b a = true.
Proof.
  unfold indexed_leb. intros [Hlt Heq]%orb_false_iff. case_bool. apply orb_true_iff.
  destruct (decide (b.1 = a.1)) as [E|]; [right|left; lia].
  rewrite E, Z.eqb_refl in *. cbn in *. by apply string_leb_total.
Qed.

Lemma ordered_sealed rows ls : rows ≡ₚ sealed_as ls → order_by indexed_leb rows = sealed_as ls.
Proof.
  intros Hperm. assert (Transitive (λ a b : Z * string, a.1 ≤ b.1)) by (intros ???; lia).
  apply (Sorted_unique_strong (λ a b : Z * string, a.1 ≤ b.1)).
  - intros x y Hx Hy ? ?. rewrite order_by_perm, Hperm in Hx.
    apply sealed_lookup in Hx as (i & l & -> & Hi), Hy as (j & l' & -> & Hj). cbn in *.
    assert (i = j) as -> by lia. congruence.
  - eapply Sorted_mono; [|apply order_by_sorted, indexed_leb_total]. intros a b. unfold indexed_leb.
    intros [?|[? _]%andb_true_iff]%orb_true_iff; case_bool; lia.
  - apply sealed_sorted.
  - by rewrite order_by_perm.
Qed.

Lemma ordered_leaves_sealed rows ls : rows ≡ₚ sealed_as ls → ordered_leaves rows (len ls) = Ok ls.
Proof.
  intros Hperm. unfold ordered_leaves. rewrite (ordered_sealed _ _ Hperm), bool_decide_true.
  - f_equal. apply list_eq. intros i. unfold sealed_as. rewrite list_lookup_fmap, list_lookup_imap. by destruct (ls !! i).
  - apply list_eq. intros i. unfold sealed_as, indices, len. rewrite Nat2Z.id, lookup_map, list_lookup_fmap, list_lookup_imap.
    destruct (ls !! i) eqn:Hi; cbn.
    + rewrite lookup_seq_lt; [done|]. by apply lookup_lt_is_Some.
    + rewrite lookup_seq_ge; [done|]. by apply lookup_ge_None.
Qed.

Section proof_endpoint.
Context (float_repr : Z → positive → string).
Abbreviation inv := (anchor_inv float_repr).
Abbreviation rely := (guarded inv).

(** What the first query leaves known: the row and its batch only move within their guards. *)
Definition fetched (id : string) (p : PredictionRow) (batch : option BatchRow) (d : LabelDb) (u : unit) : Prop :=
  inv d u ∧ (∃ p', predictions d !! id = Some p' ∧ row_guard p p') ∧
  ∀ b, p_batch p = Some b → ∃ r r', batch = Some r ∧ batches d !! b = Some r' ∧ same_tree r r'.

Lemma row_guard_trans p1 p2 p3 : row_guard p1 p2 → row_guard p2 p3 → row_guard p1 p3.
Proof.
  intros H12 H23 Hc. destruct (H12 Hc) as [Heq Hb].
  assert (committed p2) as Hc2 by (unfold committed in *; congruence). destruct (H23 Hc2) as [Heq' Hb'].
  split; [congruence|]. intros Hsome. destruct (Hb Hsome) as [E1 E2]. destruct Hb' as [? ?]; [congruence|].
  split; congruence.
Qed.

Lemma stable_fetched id p batch : committed p → stable rely (fetched id p batch).
Proof.
  intros Hc d u d' u' (HI & (p' & Hp' & Hg) & Hb) (Hbatches & Hrows & HI'). split; [auto|]. split.
  - destruct (Hg Hc) as [Heq _]. destruct (Hrows id p' Hp') as (p2 & Hp2 & Hg2); [unfold committed in *; congruence|].
    exists p2. split; [done|by eapply row_guard_trans].
  - intros b Hpb. destruct (Hb b Hpb) as (r & r' & -> & Hr' & Htree). destruct (Hbatches b r' Hr') as (r2 & ? & Hg2).
    exists r, r2. split_and!; [done..|]. etrans; [done|apply Hg2].
Qed.

Lemma stable_inv : stable rely inv.
Proof. intros d u d' u' HI (_ & _ & H). auto. Qed.

(** The leaves of the fetched batch. *)
Definition leaves_of (p : PredictionRow) (batch : option BatchRow) (ls : list string) : Prop :=
  ∃ r i l, batch = Some r ∧ len ls = b_leaf_count r ∧ 1 ≤ len ls ≤ MAX_BATCH_LEAVES ∧ all_hex64 ls ∧
    merkle_root python_frames ls = Ok (b_root r) ∧ p_leaf_index p = Some (Z.of_nat i) ∧ p_leaf p = Some l ∧
    ls !! i = Some l.

Lemma fetched_leaves id p batch b d u :
  fetched id p batch d u → committed p → p_batch p = Some b →
  ∃ ls, batch_rows d b ≡ₚ sealed_as ls ∧ leaves_of p batch ls.
Proof.
  intros ([Hd Hok] & (p' & Hp' & Hg) & Hb) Hc Hpb. destruct (Hb b Hpb) as (r & r' & -> & Hr' & Hroot & Hcount & _).
  destruct (Hg Hc) as [[= _ _ _ _ _ _ Hleaf] Hgb]. destruct Hgb as [Hb' Hi']; [by exists b|].
  destruct (ok_batches d Hok b r' Hr') as (ls & Hperm & Hlen & ? & ? & Hmr).
  destruct (ok_assigned d Hok id p' b Hp') as (_ & [l Hl] & [i Hi]); [congruence|].
  assert ((i, l) ∈ batch_rows d b) as Hin.
  { rewrite batch_rows_keyed. apply list_elem_of_fmap. exists (id, (i, l)). split; [done|].
    apply elem_of_keyed_rows. exists p'. split; [done|]. unfold leaf_of.
    rewrite bool_decide_true by congruence. by rewrite Hi, Hl. }
  rewrite Hperm in Hin. apply sealed_lookup in Hin as (n & l' & [= -> <-] & Hn).
  exists ls. split; [done|]. exists r, n, l. split_and!; first [done|congruence|lia].
Qed.

Lemma batch_leaves_spec id p r b :
  committed p → p_batch p = Some b →
  rg rely (fetched id p (Some r)) (batch_leaves b (b_leaf_count r))
    (λ res d u, fetched id p (Some r) d u ∧
      match res with Ok ls => leaves_of p (Some r) ls | Raise e => e = ConnectionError end).
Proof.
  intros Hc Hpb. unfold batch_leaves.
  apply (rg_bind _ _ _ _ (λ res d u, fetched id p (Some r) d u ∧ match res with
    | Ok rows => ∃ ls, rows ≡ₚ sealed_as ls ∧ leaves_of p (Some r) ls | Raise e => e = ConnectionError end)); [| |done].
  - cbn [for_each _SOURCES]. apply (rg_bind _ _ _ _ (λ res d u, fetched id p (Some r) d u ∧ match res with
      | Ok rows => ∃ ls, rows ≡ₚ sealed_as ls ∧ leaves_of p (Some r) ls | Raise e => e = ConnectionError end));
      [|intros rows; by apply rg_ret|done].
    apply (rg_bind _ _ _ _ (λ res d u, fetched id p (Some r) d u ∧ match res with
      | Ok rows => ∃ ls, rows ≡ₚ sealed_as ls ∧ leaves_of p (Some r) ls | Raise e => e = ConnectionError end));
      [|intros rows; by apply rg_ret|done].
    apply rg_query; [by apply stable_fetched|]. intros now d u Hd. split; [done|]. split; [done|].
    by eapply fetched_leaves.
  - intros rows. eapply (rg_pure _ _ (∃ ls, rows ≡ₚ sealed_as ls ∧ leaves_of p (Some r) ls)); [by intros d u [_ ?]|].
    intros (ls & Hperm & Hls). pose proof Hls as (? & ? & ? & [= <-] & Hlen & _).
    rewrite <- Hlen, (ordered_leaves_sealed _ _ Hperm). apply rg_ret. by intros d u [? _].
Qed.

(** The reply, in terms of the fetched row. *)
Definition served (id : string) (p : PredictionRow) (batch : option BatchRow) (r : res proof_reply) : Prop :=
  match r with
  | Raise e => e = ConnectionError
  | Ok NotFound | Ok IntegrityFailed => False
  | Ok (Proof status preimage salt leaf anchor) =>
      leaf_hash float_repr LEAF_VERSION_PREDICTION preimage salt = Ok leaf ∧ p_leaf p = Some leaf ∧
      prediction_leaf_fields (prediction_of id p) = Ok preimage ∧
      match anchor with
      | None => status = "pending"
      | Some a =>
          verify_path leaf (an_index a) (an_tree_size a) (an_path a) (an_root a) = true ∧
          p_batch p = Some (an_batch a) ∧
          ∃ r, batch = Some r ∧ b_root r = an_root a ∧ b_leaf_count r = an_tree_size a
      end
  end.

Definition integrity (id : string) (p : PredictionRow) : Prop :=
  match p_leaf p, p_salt p with
  | Some l, Some s => prediction_leaf float_repr (prediction_of id p) s = Ok l
  | _, _ => False
  end.

Lemma serve_fetched id p batch :
  committed p → integrity id p →
  rg rely (fetched id p batch) (serve_row float_repr id p batch) (λ r d u, fetched id p batch d u ∧ served id p batch r).
Proof.
  unfold integrity. intros Hc Hleaf. destruct (p_leaf p) as [leaf|] eqn:Hl; [|done].
  destruct (p_salt p) as [salt|] eqn:Hs; [|done].
  unfold prediction_leaf in Hleaf. apply res_bind_ok in Hleaf as (preimage & Hpre & Hhash).
  set (P := fetched id p batch). unfold serve_row. rewrite Hl, Hs, Hpre. apply rg_bind_ok. cbn [from_option Datatypes.id].
  rewrite Hhash. apply rg_bind_ok. rewrite String.eqb_refl. cbn [negb].
  destruct (p_batch p) as [b|] eqn:Hb; [|by apply rg_ret].
  apply (rg_pure _ _ (∃ r, batch = Some r)); [by intros d u (_ & _ & Hr); destruct (Hr b Hb) as (r & _ & -> & _); exists r|].
  intros [r ->]. apply rg_bind_ok.
  eapply (rg_bind_pure _ _ (λ res, match res with Ok ls => leaves_of p (Some r) ls | Raise e => e = ConnectionError end));
    [by apply batch_leaves_spec| |by intros e d u Hd He].
  intros ls (r' & i & l & [= <-] & Hlen & Hle & Hhex & Hroot & Hi & Hl' & Hlookup).
  assert (l = leaf) as -> by congruence. rewrite Hroot. apply rg_bind_ok. rewrite String.eqb_refl. cbn [negb].
  rewrite Hi. apply rg_bind_ok.
  destruct (audit_path_climbs 99 ls (Z.of_nat i) leaf) as (root & path & Hroot' & _ & Hpath & _ & Hclimb);
    [|exact Hhex|lia|by rewrite Nat2Z.id|].
  { apply Z.le_trans with MAX_BATCH_LEAVES; [lia|done]. }
  change (S 99) with python_frames in *. rewrite Hpath. apply rg_bind_ok, rg_ret. intros d u Hd. split; [done|].
  assert (root = b_root r) as -> by congruence. split_and!; try done; [|by exists r].
  cbn [an_index an_tree_size an_path an_root]. apply (verify_path_climbs 99); [|apply Z.le_trans with MAX_BATCH_LEAVES; [lia|done]|done].
  apply lookup_lt_Some in Hlookup. unfold len. lia.
Qed.

(** The proof endpoint always serves a verifiable proof: while sealing, sending,
    confirming and new predictions go on, a request never fails the integrity checks,
    and what it returns is the leaf of the requested prediction together with an audit
    path that [verify_path] accepts against the stored root of its batch. *)
Theorem served_proof_verifies org_id prediction_id :
  rg rely inv (get_labeling_prediction_proof float_repr org_id prediction_id)
    (λ r d u, inv d u ∧ match r with
      | Raise e => e = ConnectionError
      | Ok IntegrityFailed => False
      | Ok NotFound => True
      | Ok (Proof status preimage salt leaf anchor) =>
          leaf_hash float_repr LEAF_VERSION_PREDICTION preimage salt = Ok leaf ∧
          (∃ p, predictions d !! prediction_id = Some p ∧ p_org p = org_id ∧ p_leaf p = Some leaf ∧
             prediction_leaf_fields (prediction_of prediction_id p) = Ok preimage) ∧
          match anchor with
          | None => status = "pending"
          | Some a =>
              verify_path leaf (an_index a) (an_tree_size a) (an_path a) (an_root a) = true ∧
              ∃ r, batches d !! an_batch a = Some r ∧ b_root r = an_root a ∧ b_leaf_count r = an_tree_size a
          end
      end).
Proof.
  unfold get_labeling_prediction_proof.
  eapply (rg_bind _ _ _ _ (λ r d u, match r with
    | Ok None => inv d u
    | Ok (Some (p, batch)) => fetched prediction_id p batch d u ∧
        (committed p ∧ p_org p = org_id ∧ integrity prediction_id p)
    | Raise e => inv d u ∧ e = ConnectionError end)); [| |done].
  { apply rg_query; [apply stable_inv|]. intros now d u HI. split; [done|].
    destruct (predictions d !! prediction_id) as [p|] eqn:Hp; [|done]. cbn.
    destruct (_ && _) eqn:Hcond; [|done]. apply andb_true_iff in Hcond as [? Hl]. case_bool. split.
    - split; [done|]. split; [by exists p|]. intros b Hb. rewrite Hb. cbn. destruct HI as [_ Hok].
      destruct (ok_assigned d Hok _ p b Hp Hb) as [[r Hr] _]. exists r, r. by split_and!.
    - split_and!; [done..|]. destruct HI as [Hd _]. destruct (ok_predictions _ d Hd _ p Hp) as [_ Hpo].
      unfold integrity. destruct (p_leaf p), (p_salt p); [apply Hpo|done..|by destruct Hl]. }
  intros [[p batch]|]; [|by apply rg_ret; intros; split].
  eapply rg_pure; [intros d u [_ H]; exact H|]. intros (Hc & Horg & Hleaf).
  apply (rg_mono _ (fetched prediction_id p batch) _ _
    (λ r d u, fetched prediction_id p batch d u ∧ served prediction_id p batch r)); [|by intros d u [? _]|].
  - by apply serve_fetched.
  - intros r d u [Hf Hr]. pose proof Hf as (HI & (p' & Hp' & Hg) & Hb). split; [done|].
    destruct r as [[| |status preimage salt leaf anchor]|e]; [done..| |done].
    destruct Hr as (Hhash & Hpl & Hpre & Hanchor). destruct (Hg Hc) as [Heq _]. split_and!; [done| |].
    + exists p'. unfold prediction_of in *. split_and!; try done; congruence.
    + destruct anchor as [a|]; [|done]. destruct Hanchor as (Hv & Hpb & r0 & -> & Hroot & Hcount).
      split; [done|]. destruct (Hb _ Hpb) as (? & r' & [= <-] & Hr' & Htree & Hcnt & _). exists r'. split_and!; congruence.
Qed.
End proof_endpoint.

(** ** Two predictions sealed, sent, confirmed and proved *)
Module AnchorDemo.
Definition second : Submission :=
  MkSubmission "org-1" "scheduled_run" "run-2" "run-2" "sch-1" None ("price.up", 3) [("id", JStr "btc")]
    [] (Some (MkDatetime 500 (Some 0))) "" None None true.
Definition w1 : World LabelDb unit :=
  (insert_prediction CommitmentDemo.repr LabelDemo.uuids LabelDemo.salts second LabelDemo.w1).2.
Definition demo_leaves : list string := omap (λ kv, p_leaf kv.2) (order_by pending_leb (map_to_list (predictions (db w1)))).
Definition root : string := match merkle_root python_frames demo_leaves with Ok r => r | Raise _ => "" end.
Definition tx_hash : string := (("0x" ++ root)%string)%string.
Definition address : string := "0x0123456789abcdef0123456789abcdef01234567".
Definition block_17 : Block := MkBlock "0x11" "0x64" (Some "0xb17").
Definition node (_ _ : Z) : Node := MkNode
  (λ h, Ok (if String.eqb h tx_hash then Some (MkTx (("0x" ++ root)%string) address address (Some "0x11")) else None))
  (λ h, Ok (Some (MkReceipt (Some "0x1") "0x11" (Some "0xb17"))))
  (λ b, Ok (Some (if String.eqb b "finalized" then MkBlock "0x20" "0x99" (Some "0xb20") else block_17))).
Definition rpc_url (_ : Z) : res unit := Ok tt.
Definition send (_ : Z) (r : string) (_ : Z) : res (string * string) := Ok (("0x" ++ r)%string, address).
Definition tick := anchor_tick LabelDemo.uuids node rpc_url send 8453.
Definition w2 : World LabelDb unit := (tick w1).2.
Definition proof (w : World LabelDb unit) :=
  (get_labeling_prediction_proof CommitmentDemo.repr "org-1" "id-0" w).1.
Definition verified (r : res proof_reply) : bool :=
  match r with
  | Ok (Proof status _ _ leaf (Some a)) =>
      String.eqb status "anchored" && verify_path leaf (an_index a) (an_tree_size a) (an_path a) (an_root a)
  | _ => false
  end.

Example ticked : (tick w1).1 = Ok 1 ∧ (tick w2).1 = Ok 0 ∧
  match proof w1 with Ok (Proof "pending" _ _ _ None) => True | _ => False end ∧ verified (proof w2) = true.
Proof. by vm_compute. Qed.

Definition batch : option (string * BatchRow) := head (map_to_list (batches (db w2))).
End AnchorDemo.

Lemma confirmed_batch_final_witness :
  match AnchorDemo.batch with
  | Some (id, r) => b_block r = Some 17 ∧ b_anchored r = Some (seconds 100) ∧
      preserves (batch_final id r) AnchorDemo.tick
  | None => False
  end.
Proof.
  assert (∀ o, o = AnchorDemo.batch → match o with
    | Some (id, r) => b_block r = Some 17 ∧ b_anchored r = Some (seconds 100) ∧ batch_checks r = true
    | None => False end) as H by (intros o ->; vm_compute; done).
  specialize (H _ eq_refl). destruct AnchorDemo.batch as [[id r]|]; [|exact H]. destruct H as (Hb & Ha & Hc).
  split; [exact Hb|]. split; [exact Ha|].
  exact (confirmed_batch_final LabelDemo.uuids AnchorDemo.node AnchorDemo.rpc_url AnchorDemo.send 8453 id r Hc).
Defined.
