(* ===== verification/Cache.v ===== *)
(** * teardrop/cache.py: the single-value TTL cache

    [TTLCache] keeps one value in process with an expiry, in front of an
    optional Redis server, and falls back to a stale value when its loader
    fails.  A cache instance is described by a [CacheSpec]: its constructor
    arguments and where its in-process slot lives in the external state. *)

From S2P Require Export Monad.

Record TTL (T : Type) := MkTTL { ttl_value : option T; ttl_expires : Z }.
Arguments MkTTL {T} _ _.
Arguments ttl_value {T} _.
Arguments ttl_expires {T} _.

(** The optional Redis server, in the external state of the process. *)
Abbreviation Redis := (option (gmap string (string * Z))).
Class HasRedis (X : Type) := { redis_of : X → Redis; on_redis : (Redis → Redis) → X → X }.

(** Invariants of the database alone. *)
Definition db_only {D X : Type} (P : D → Prop) : D → X → Prop := λ d _, P d.

(** The text of a cached value. *)
Class TextCodec (T : Type) := { to_text : T → string; of_text : string → res (option T) }.
Class TextCodecOk (T : Type) `{!TextCodec T} := {
  text_roundtrip : ∀ v : T, of_text (to_text v) = Ok (Some v);
  text_not_null : ∀ v : T, to_text v ≠ "null" }.

Definition is_some {A} (v : option A) : bool := match v with Some _ => true | None => false end.

Record CacheSpec (D X T : Type) := MkCacheSpec {
  redis_key : string;
  ttl_seconds : Z;
  loader : M D X (option T);
  serialize : T → string;
  deserialize : string → res (option T);
  cache_when : option T → bool;
  stale_default : option T;
  slot : X → TTL T;
  set_slot : TTL T → X → X;
}.
Arguments MkCacheSpec {D X T} _ _ _ _ _ _ _ _ _.
Arguments redis_key {D X T} _.
Arguments ttl_seconds {D X T} _.
Arguments loader {D X T} _.
Arguments serialize {D X T} _ _.
Arguments deserialize {D X T} _ _.
Arguments cache_when {D X T} _ _.
Arguments stale_default {D X T} _.
Arguments slot {D X T} _ _.
Arguments set_slot {D X T} _ _ _.

(** A freshly constructed cache. *)
Definition empty_slot {T} : TTL T := MkTTL None 0.

(** ** The Redis commands the cache uses *)
Section redis.
Context {D X : Type} `{!HasRedis X}.
Abbreviation Handler A := (M D X A).

Definition redis_get (key : string) : Handler (option string) :=
  external (λ now x,
    (Ok (m ← redis_of x; '(raw, expires) ← m !! key; if now <? expires then Some raw else None), x)).

Definition redis_setex (key : string) (ttl : Z) (raw : string) : Handler unit :=
  external (λ now x, (Ok tt, on_redis (fmap (<[key := (raw, now + seconds ttl)]>)) x)).

Definition redis_delete (key : string) : Handler unit :=
  external (λ _ x, (Ok tt, on_redis (fmap (delete key)) x)).

Definition get_redis : Handler bool := x ← get_ext; mret (bool_decide (is_Some (redis_of x))).
End redis.

Section ttl_cache.
Context {D X T : Type} `{!HasRedis X} (c : CacheSpec D X T).
Abbreviation Handler A := (M D X A).

(** [self._value is not None and time.monotonic() < self._expires] *)
Definition fresh_value (now : Z) (s : TTL T) : option T :=
  if now <? ttl_expires s then ttl_value s else None.

Definition read_fresh : Handler (option T) :=
  x ← get_ext; now ← datetime_now; mret (fresh_value now (slot c x)).

Definition redis_read : Handler (option (option T)) :=
  connected ← get_redis;
  if connected : bool then
    catch (raw ← redis_get (redis_key c);
           match raw with
           | Some raw =>
               match deserialize c raw with
               | Ok v => mret (Some v)
               | Raise e => raise e
               end
           | None => mret None
           end)
          (λ _, mret None)
  else mret None.

Definition redis_write (value : option T) : Handler unit :=
  connected ← get_redis;
  match connected, value with
  | true, Some v =>
      catch (redis_setex (redis_key c) (ttl_seconds c) (serialize c v)) (λ _, mret tt)
  | _, _ => mret tt
  end.

(** The part of [get] under the lock. *)
Definition refresh : Handler (option T) :=
  again ← read_fresh;
  match again with
  | Some v => mret (Some v)
  | None =>
      loaded ← catch (v ← loader c; mret (Some v)) (λ _, mret None);
      match loaded with
      | None =>
          x ← get_ext;
          match ttl_value (slot c x) with
          | Some v => mret (Some v)
          | None => mret (stale_default c)
          end
      | Some value =>
          if cache_when c value then
            now ← datetime_now;
            modify_ext (set_slot c (MkTTL value (now + seconds (ttl_seconds c))));;
            redis_write value;;
            mret value
          else mret value
      end
  end.

Definition cache_get : Handler (option T) :=
  hit ← redis_read;
  match hit with
  | Some v => mret v
  | None =>
      local ← read_fresh;
      match local with
      | Some v => mret (Some v)
      | None => yield_point;; refresh
      end
  end.

Definition cache_invalidate : Handler unit :=
  modify_ext (set_slot c empty_slot);;
  connected ← get_redis;
  if connected : bool then catch (redis_delete (redis_key c)) (λ _, mret tt) else mret tt.
End ttl_cache.

(** ** The cache against the database

    An invariant of the database survives every cache operation; [get] never
    raises; after [invalidate] the in-process slot is empty. *)
Section cache_lemmas.
Context {D X T : Type} `{!HasRedis X} (c : CacheSpec D X T) (P : D → Prop).

Lemma redis_read_inv : wpi (db_only P) (redis_read c) (λ r, ∃ v, r = Ok v).
Proof. unfold redis_read, get_redis, redis_get. inv_auto; eauto. Qed.

Lemma redis_write_inv v : wpi (db_only P) (redis_write c v) (λ r, ∃ u, r = Ok u).
Proof. unfold redis_write, get_redis, redis_setex. inv_auto; eauto. Qed.

Lemma read_fresh_inv : wpi (db_only P) (read_fresh c) (λ r, ∃ v, r = Ok v).
Proof. unfold read_fresh. inv_auto; eauto. Qed.

Lemma cache_get_inv :
  preserves (db_only P) (loader c) → wpi (db_only P) (cache_get c) (λ r, ∃ v, r = Ok v).
Proof.
  intros Hload. unfold cache_get, refresh.
  inv_step. eapply wpi_mono; [apply redis_read_inv|]. intros r [v ->].
  destruct v; [inv_step; eauto|].
  inv_step. eapply wpi_mono; [apply read_fresh_inv|]. intros r [v ->].
  destruct v; [inv_step; eauto|]. inv_step. inv_step.
  inv_step. eapply wpi_mono; [apply read_fresh_inv|]. intros r [v ->].
  destruct v; [inv_step; eauto|].
  inv_step. eapply (wpi_mono _ _ (λ r, ∃ v, r = Ok v)).
  { repeat inv_step. eapply wpi_mono; [exact Hload|]. intros [v|e] _; repeat inv_step; eauto. }
  intros r [v ->]. destruct v as [v|].
  - inv_auto; eauto. eapply wpi_mono; [apply redis_write_inv|]. intros r [[] ->]. inv_auto; eauto.
  - inv_auto; eauto.
Qed.

Lemma cache_invalidate_inv : wpi (db_only P) (cache_invalidate c) (λ r, r = Ok tt).
Proof.
  unfold cache_invalidate, get_redis, redis_delete. inv_auto.
Qed.

Lemma cache_invalidate_solo d x :
  (∀ s y, slot c (set_slot c s y) = s) → (∀ f y, slot c (on_redis f y) = slot c y) →
  wps (cache_invalidate c) (λ r d' x', r = Ok tt ∧ d' = d ∧ slot c x' = empty_slot) d x.
Proof.
  intros Hslot Hredis. unfold cache_invalidate, get_redis, redis_delete.
  solo_auto; by rewrite ?Hredis, ?Hslot.
Qed.
End cache_lemmas.

(** ** Quiet reads

    What [cache_get] returns and leaves behind when nothing fails, as a function of
    the state and of what the loader would return. *)
Section quiet.
Context {D X T : Type} `{!HasRedis X} (c : CacheSpec D X T).

Definition redis_hit (now : Z) (x : X) : option (option T) :=
  m ← redis_of x;
  '(raw, expires) ← m !! redis_key c;
  if now <? expires then match deserialize c raw with Ok v => Some v | Raise _ => None end else None.

(** The answer of a cache in a state, given what its loader returns there. *)
Definition cache_view (now : Z) (x : X) (loaded : option T) : option T :=
  match redis_hit now x with
  | Some v => v
  | None => match fresh_value now (slot c x) with Some v => Some v | None => loaded end
  end.

Definition store_local (now : Z) (v : option T) (x : X) : X :=
  set_slot c (MkTTL v (now + seconds (ttl_seconds c))) x.

Definition store_redis (now : Z) (v : option T) (x : X) : X :=
  match redis_of x, v with
  | Some _, Some v => on_redis (fmap (<[redis_key c := (serialize c v, now + seconds (ttl_seconds c))]>)) x
  | _, _ => x
  end.

Definition cache_fill (now : Z) (x : X) (loaded : option T) : X :=
  match redis_hit now x, fresh_value now (slot c x) with
  | None, None => if cache_when c loaded then store_redis now loaded (store_local now loaded x) else x
  | _, _ => x
  end.

Lemma redis_read_quiet w :
  wpq (redis_read c) (λ r w', r = Ok (redis_hit (clock w) (ext w)) ∧ w' = w) w.
Proof.
  assert (∀ x', x' = ext w → w <| ext := x' |> = w) as Hid by (intros ? ->; by destruct w).
  unfold redis_read, get_redis, redis_get, redis_hit. do 4 quiet_step.
  destruct (redis_of (ext w)) as [m|] eqn:Hm; [|rewrite bool_decide_false by (by intros [? ?]); by quiet_step].
  rewrite bool_decide_true by done. do 3 quiet_step. cbn. rewrite Hm. cbn.
  destruct (m !! redis_key c) as [[raw expires]|]; cbn; [|quiet_step; by rewrite Hid].
  destruct (_ <? _); [|quiet_step; by rewrite Hid].
  destruct (deserialize c raw); quiet_step; [by rewrite Hid|]. quiet_step. by rewrite Hid.
Qed.

Lemma redis_write_quiet v w :
  wpq (redis_write c v) (λ r w', r = Ok tt ∧ w' = w <| ext := store_redis (clock w) v (ext w) |>) w.
Proof.
  assert (∀ x', x' = ext w → w = w <| ext := x' |>) as Hid by (intros ? ->; by destruct w).
  unfold redis_write, get_redis, redis_setex, store_redis. do 4 quiet_step.
  destruct (redis_of (ext w)) as [m|] eqn:Hm.
  - rewrite bool_decide_true by done. destruct v as [v|]; [|quiet_step; split; [done|by apply Hid]].
    do 2 quiet_step. done.
  - rewrite bool_decide_false by (by intros [? ?]). quiet_step. split; [done|by apply Hid].
Qed.

Lemma cache_get_quiet loaded w :
  (∀ w, wpq (loader c) (λ r w', r = Ok (loaded (sql_now w) (db w)) ∧ w' = w) w) →
  tx_now w = None →
  wpq (cache_get c) (λ r w', let l := loaded (clock w) (db w) in
    r = Ok (cache_view (clock w) (ext w) l) ∧
    w' = w <| ext := cache_fill (clock w) (ext w) l |>) w.
Proof.
  intros Hload Hn. unfold cache_get, cache_view, cache_fill. set (l := loaded (clock w) (db w)).
  assert (∀ x', x' = ext w → w = w <| ext := x' |>) as Hid by (intros ? ->; by destruct w).
  quiet_step. eapply wpq_mono; [apply redis_read_quiet|]. intros r w' [-> ->].
  destruct (redis_hit _ _) as [v|]; [quiet_step; split; [done|by apply Hid]|].
  unfold refresh, read_fresh. do 6 quiet_step.
  destruct (fresh_value _ _) as [v|] eqn:Hf; [quiet_step; split; [done|by apply Hid]|].
  do 8 quiet_step. rewrite Hf. do 3 quiet_step.
  eapply wpq_mono; [apply Hload|]. intros r w' [-> ->]. unfold sql_now. rewrite Hn. cbn [from_option]. fold l.
  quiet_step. destruct (cache_when c l); [|quiet_step; split; [done|by apply Hid]].
  do 5 quiet_step. eapply wpq_mono; [apply redis_write_quiet|]. intros r w' [-> ->].
  quiet_step. split; [done|]. unfold store_local. cbn. by destruct w.
Qed.
End quiet.

(** ** Caches that do not disturb each other

    [CacheOk]: the slot is a field of its own and the text of a value reads back. *)
Class RedisOk (X : Type) `{!HasRedis X} := redis_on_redis : ∀ f (x : X), redis_of (on_redis f x) = f (redis_of x).

Class CacheOk {D X T} `{!HasRedis X} (c : CacheSpec D X T) := {
  fresh_set : ∀ now s x, fresh_value now (slot c (set_slot c s x)) = fresh_value now s;
  slot_on_redis : ∀ f x, slot c (on_redis f x) = slot c x;
  redis_set_slot : ∀ s x, redis_of (set_slot c s x) = redis_of x;
  deserialize_serialize : ∀ v, deserialize c (serialize c v) = Ok (Some v);
}.

Definition independent {D X T T'} (c : CacheSpec D X T) (c' : CacheSpec D X T') : Prop :=
  redis_key c ≠ redis_key c' ∧ ∀ s x, slot c' (set_slot c s x) = slot c' x.

Section fill.
Context {D X T : Type} `{!HasRedis X, !RedisOk X} (c : CacheSpec D X T) `{!CacheOk c}.

Lemma slot_store_redis {T'} (c' : CacheSpec D X T') `{!CacheOk c'} now v x : slot c' (store_redis c now v x) = slot c' x.
Proof. unfold store_redis. destruct (redis_of x), v; by rewrite ?slot_on_redis. Qed.

Lemma store_redis_lookup now v x key :
  key ≠ redis_key c → (m ← redis_of (store_redis c now v x); m !! key) = (m ← redis_of x; m !! key).
Proof.
  intros Hne. unfold store_redis. destruct (redis_of x) as [m|] eqn:Hm, v as [v|]; rewrite ?Hm; try done.
  rewrite redis_on_redis, Hm. cbn. by rewrite lookup_insert_ne.
Qed.

Lemma redis_hit_alt now x :
  redis_hit c now x = ('(raw, expires) ← (m ← redis_of x; m !! redis_key c);
    if now <? expires then match deserialize c raw with Ok v => Some v | Raise _ => None end else None).
Proof. unfold redis_hit. by destruct (redis_of x). Qed.

Lemma cache_view_fill now x l : cache_view c now (cache_fill c now x l) l = cache_view c now x l.
Proof.
  unfold cache_fill. destruct (redis_hit c now x) as [v|] eqn:Hr; [done|].
  destruct (fresh_value now (slot c x)) as [v|] eqn:Hf; [done|]. destruct (cache_when c l); [|done].
  unfold cache_view at 2. rewrite Hr, Hf. unfold cache_view.
  assert (fresh_value now (slot c (store_redis c now l (store_local c now l x))) = l ∨
          fresh_value now (slot c (store_redis c now l (store_local c now l x))) = None) as Hloc.
  { rewrite slot_store_redis by done. unfold store_local. rewrite fresh_set. unfold fresh_value. cbn.
    destruct (_ <? _); auto. }
  rewrite redis_hit_alt. revert Hloc. generalize (slot c (store_redis c now l (store_local c now l x))). intros y Hloc.
  unfold store_redis, store_local. rewrite redis_set_slot.
  rewrite redis_hit_alt in Hr. destruct (redis_of x) as [m|] eqn:Hm, l as [v|];
    rewrite ?redis_on_redis, ?redis_set_slot, ?Hm; cbn in Hr |- *; rewrite ?Hr.
  - rewrite lookup_insert_eq. cbn. destruct (_ <? _); [by rewrite (deserialize_serialize (c := c))|].
    by destruct Hloc as [->| ->].
  - by destruct Hloc as [->| ->].
  - by destruct Hloc as [->| ->].
  - by destruct Hloc as [->| ->].
Qed.

End fill.

Lemma cache_view_independent {D X T T'} `{!HasRedis X, !RedisOk X} (c : CacheSpec D X T) (c' : CacheSpec D X T')
    `{!CacheOk c, !CacheOk c'} now x l l' :
  independent c c' → cache_view c' now (cache_fill c now x l) l' = cache_view c' now x l'.
Proof.
  intros [Hkey Hslot]. unfold cache_fill.
  destruct (redis_hit c now x), (fresh_value now (slot c x)); try done. destruct (cache_when c l); [|done].
  unfold cache_view, store_local. rewrite !redis_hit_alt, store_redis_lookup by done.
  rewrite (redis_set_slot (c := c)), slot_store_redis by done. by rewrite Hslot.
Qed.
