(* ===== verification/Schema.v ===== *)
(** * The data model: settings, table rows and the database

    One record per table of [src/migrations/versions], with the columns the
    modelled code reads or writes, and [Db], the database the billing and
    marketplace handlers share.  Enumerated text columns (a [CHECK ... IN]) are
    inductive types; a BIGINT is a [Z] and every write checks its range; a
    TIMESTAMPTZ is a [Z] of microseconds.  A table with a primary key is a map
    from the key; the credit ledger, which the code only appends to, is a list
    in insertion order.

    The statements that several handlers share (ledger and credit writes, with
    the CHECK, UNIQUE and REFERENCES constraints of the tables) are here too. *)

From S2P Require Export Cache Json.

(** ** teardrop/config.py: the settings the model reads *)
Record Settings := MkSettings {
  machine_org_daily_spend_limit_usdc : Z;
  byok_platform_fee_usdc : Z;
  settlement_max_retries : Z;
  a2a_delegation_billing_enabled : bool;
  a2a_delegation_platform_fee_bps : Z;
  a2a_delegation_max_cost_usdc : Z;
  a2a_treasury_daily_outflow_cap_usdc : Z;
  agent_wallet_enabled : bool;
  marketplace_enabled : bool;
  marketplace_default_revenue_share_bps : Z;
  marketplace_minimum_withdrawal_usdc : Z;
  marketplace_withdrawal_cooldown_seconds : Z;
  marketplace_max_sweep_retries : Z;
}.
#[export] Instance eta_Settings : Eta Settings := λ s,
  MkSettings (machine_org_daily_spend_limit_usdc s) (byok_platform_fee_usdc s)
    (settlement_max_retries s) (a2a_delegation_billing_enabled s)
    (a2a_delegation_platform_fee_bps s) (a2a_delegation_max_cost_usdc s)
    (a2a_treasury_daily_outflow_cap_usdc s) (agent_wallet_enabled s) (marketplace_enabled s)
    (marketplace_default_revenue_share_bps s) (marketplace_minimum_withdrawal_usdc s)
    (marketplace_withdrawal_cooldown_seconds s) (marketplace_max_sweep_retries s).

(** The declared defaults. *)
Definition default_settings : Settings := {|
  machine_org_daily_spend_limit_usdc := 5000000;
  byok_platform_fee_usdc := 1000;
  settlement_max_retries := 5;
  a2a_delegation_billing_enabled := false;
  a2a_delegation_platform_fee_bps := 500;
  a2a_delegation_max_cost_usdc := 100000;
  a2a_treasury_daily_outflow_cap_usdc := 5000000;
  agent_wallet_enabled := false;
  marketplace_enabled := false;
  marketplace_default_revenue_share_bps := 7000;
  marketplace_minimum_withdrawal_usdc := 100000;
  marketplace_withdrawal_cooldown_seconds := 3600;
  marketplace_max_sweep_retries := 5;
|}.

(** ** Rows *)
Record OrgRow := MkOrg {
  org_slug : string;
  acquisition_source : string;
}.

(** org_credits *)
Record CreditRow := MkCredit {
  balance_usdc : Z;
  spending_limit_usdc : Z;
  credit_is_paused : bool;
  credit_updated_at : Z;
}.
#[export] Instance eta_CreditRow : Eta CreditRow := λ r,
  MkCredit (balance_usdc r) (spending_limit_usdc r) (credit_is_paused r) (credit_updated_at r).

Inductive ledger_op := Debit | Topup.
#[export] Instance ledger_op_eq_dec : EqDecision ledger_op.
Proof. solve_decision. Defined.

(** org_credit_ledger *)
Record LedgerRow := MkLedger {
  l_id : string;
  l_org : string;
  l_op : ledger_op;
  l_amount : Z;
  l_balance_after : Z;
  l_reason : string;
  l_principal : option string;
  l_external_ref : option string;
  l_reverses : option string;
  l_created_at : Z;
}.

(** org_principal_spend_limits, keyed by (org_id, principal_id) *)
Record PrincipalLimitRow := MkPrincipalLimit {
  daily_limit_usdc : Z;
  principal_is_paused : bool;
}.

Inductive billing_method := Credit | X402.
#[export] Instance billing_method_eq_dec : EqDecision billing_method.
Proof. solve_decision. Defined.

Inductive settlement_status := SPending | SRetrying | SSettled | SExhausted.
#[export] Instance settlement_status_eq_dec : EqDecision settlement_status.
Proof. solve_decision. Defined.

(** a2a_delegation_refund_outbox *)
Inductive refund_status := RPending | RRefundRequested | RRefunded | RCancelled.
#[export] Instance refund_status_eq_dec : EqDecision refund_status.
Proof. solve_decision. Defined.

Inductive delivery_status := NotAttempted | PossiblyDelivered | Confirmed | Failed.
#[export] Instance delivery_status_eq_dec : EqDecision delivery_status.
Proof. solve_decision. Defined.

Record OutboxRow := MkOutbox {
  o_org : string;
  o_run : string;
  o_amount : Z;
  o_debit_ledger : option string;
  o_status : refund_status;
  o_created_at : Z;
  o_resolved_at : option Z;
  o_delivery : delivery_status;
  o_started_at : option Z;
  o_delivery_resolved_at : option Z;
  o_settlement_tx : string;
  o_delivery_error : string;
}.
#[export] Instance eta_OutboxRow : Eta OutboxRow := λ r,
  MkOutbox (o_org r) (o_run r) (o_amount r) (o_debit_ledger r) (o_status r) (o_created_at r)
    (o_resolved_at r) (o_delivery r) (o_started_at r) (o_delivery_resolved_at r)
    (o_settlement_tx r) (o_delivery_error r).

(** a2a_delegation_events *)
Record DelegationEvent := MkDelegationEvent {
  ev_org : string;
  ev_run : string;
  ev_agent_url : string;
  ev_agent_name : string;
  ev_task_status : string;
  ev_cost : Z;
  ev_billing_method : string;
  ev_settlement_tx : string;
  ev_error : string;
  ev_failure_origin : string;
  ev_task_type : string;
  ev_created_at : Z;
}.

(** org_onboarding_credit_grants and org_onboarding_credit_outbox, keyed by org_id *)
Record GrantRow := MkGrant {
  g_amount : Z;
  g_ledger_entry_id : string;
}.

Record GrantOutboxRow := MkGrantOutbox {
  go_amount : Z;
  go_attempts : Z;
  go_last_error : option string;
  go_created_at : Z;
  go_updated_at : Z;
}.
#[export] Instance eta_GrantOutboxRow : Eta GrantOutboxRow := λ r,
  MkGrantOutbox (go_amount r) (go_attempts r) (go_last_error r) (go_created_at r) (go_updated_at r).

(** org_client_credentials, keyed by client_id *)
Record CredentialRow := MkCredential {
  c_org : string;
  c_hashed_secret : string;
  c_salt : string;
  c_created_at : Z;
  c_scope : string;
  c_disabled_at : option Z;
}.

(** org_provisioning_events *)
Record ProvisioningRow := MkProvisioning {
  p_id : string;
  p_org : string;
  p_method : string;
  p_payer : string;
  p_chain_id : Z;
  p_settlement_tx : string;
  p_payment_ref : string;
  p_amount : Z;
  p_event_type : string;
  p_settlement_status : string;
}.

(** pending_settlements: the credit settlement retry queue *)
Record PendingRow := MkPending {
  s_usage_event : string;
  s_org : string;
  s_run : string;
  s_method : billing_method;
  s_amount : Z;
  s_payload : option string;
  s_principal : option string;
  s_retry_count : Z;
  s_max_retries : Z;
  s_next_retry_at : Z;
  s_last_error : string;
  s_status : settlement_status;
  s_created_at : Z;
  s_charge_id : string;
  s_allocations : json;
}.
#[export] Instance eta_PendingRow : Eta PendingRow := λ r,
  MkPending (s_usage_event r) (s_org r) (s_run r) (s_method r) (s_amount r) (s_payload r)
    (s_principal r) (s_retry_count r) (s_max_retries r) (s_next_retry_at r) (s_last_error r)
    (s_status r) (s_created_at r) (s_charge_id r) (s_allocations r).

(** billing_charges *)
Inductive charge_status := CSettled | CFailed | CReverted.
#[export] Instance charge_status_eq_dec : EqDecision charge_status.
Proof. solve_decision. Defined.

Record ChargeRow := MkCharge {
  ch_source : string;
  ch_invocation : string;
  ch_usage_event : string;
  ch_org : string;
  ch_principal : string;
  ch_payer : string;
  ch_capability : string;
  ch_method : string;
  ch_amount : Z;
  ch_settled : Z;
  ch_status : charge_status;
  ch_tx : string;
  ch_updated_at : Z;
}.
#[export] Instance eta_ChargeRow : Eta ChargeRow := λ r,
  MkCharge (ch_source r) (ch_invocation r) (ch_usage_event r) (ch_org r) (ch_principal r)
    (ch_payer r) (ch_capability r) (ch_method r) (ch_amount r) (ch_settled r) (ch_status r)
    (ch_tx r) (ch_updated_at r).

(** The billing columns of usage_events *)
Record UsageRow := MkUsage {
  u_cost : Z;
  u_settlement_tx : string;
  u_settlement_status : string;
}.

(** tool_author_earnings *)
Inductive earning_status := EPending | ESettled | EFailed.
#[export] Instance earning_status_eq_dec : EqDecision earning_status.
Proof. solve_decision. Defined.

Record EarningRow := MkEarning {
  e_org : string;
  e_tool : string;
  e_caller : string;
  e_amount : Z;
  e_author_share : Z;
  e_platform_share : Z;
  e_status : earning_status;
  e_withdrawal : option string;
  e_created_at : Z;
}.
#[export] Instance eta_EarningRow : Eta EarningRow := λ r,
  MkEarning (e_org r) (e_tool r) (e_caller r) (e_amount r) (e_author_share r)
    (e_platform_share r) (e_status r) (e_withdrawal r) (e_created_at r).

(** tool_author_withdrawals *)
Inductive withdrawal_status := WPending | WInFlight | WSettled | WFailed | WExhausted.
#[export] Instance withdrawal_status_eq_dec : EqDecision withdrawal_status.
Proof. solve_decision. Defined.

Record WithdrawalRow := MkWithdrawal {
  w_org : string;
  w_amount : Z;
  w_tx : string;
  w_wallet : string;
  w_status : withdrawal_status;
  w_created_at : Z;
  w_settled_at : option Z;
  w_attempts : Z;
  w_error : string;
  w_next_sweep : option Z;
}.
#[export] Instance eta_WithdrawalRow : Eta WithdrawalRow := λ r,
  MkWithdrawal (w_org r) (w_amount r) (w_tx r) (w_wallet r) (w_status r) (w_created_at r)
    (w_settled_at r) (w_attempts r) (w_error r) (w_next_sweep r).

(** ** Top-ups already credited, by Stripe event or by transaction hash *)
Record TopupEvent := MkTopupEvent { te_org : string; te_amount : Z }.

(** ** Claims on signed payments, and what their payers have reserved *)
Record NonceRow := MkNonce {
  payer_address : string;
  reserved_cost_usdc : Z;
  claimed_at : Z;
}.
#[export] Instance eta_NonceRow : Eta NonceRow := λ r, MkNonce (payer_address r) (reserved_cost_usdc r) (claimed_at r).

(** ** The database *)
Record Db := MkDb {
  orgs : gmap string OrgRow;
  credits : gmap string CreditRow;
  ledger : list LedgerRow;
  principal_limits : gmap (string * string) PrincipalLimitRow;
  pending_settlements : gmap string PendingRow;
  outbox : gmap string OutboxRow;
  delegation_events : gmap string DelegationEvent;
  grants : gmap string GrantRow;
  grant_outbox : gmap string GrantOutboxRow;
  credentials : gmap string CredentialRow;
  provisioning : list ProvisioningRow;
  charges : gmap string ChargeRow;
  usage_events : gmap string UsageRow;
  earnings : gmap string EarningRow;
  withdrawals : gmap string WithdrawalRow;
  author_configs : gmap string string;
  stripe_webhook_events : gmap string TopupEvent;
  usdc_topup_events : gmap string TopupEvent;
  payment_nonces : gmap string NonceRow;
}.
#[export] Instance eta_Db : Eta Db := λ d,
  MkDb (orgs d) (credits d) (ledger d) (principal_limits d) (pending_settlements d) (outbox d)
    (delegation_events d) (grants d) (grant_outbox d) (credentials d) (provisioning d)
    (charges d) (usage_events d) (earnings d) (withdrawals d) (author_configs d)
    (stripe_webhook_events d) (usdc_topup_events d) (payment_nonces d).

Definition empty_db : Db := MkDb ∅ ∅ [] ∅ ∅ ∅ ∅ ∅ ∅ ∅ [] ∅ ∅ ∅ ∅ ∅ ∅ ∅ ∅.

(** ** External state

    Per-process caches, the optional Redis server, the USDC transfers handed to
    the settlement wallet, newest last, and the process's view of the x402
    facilitators, in microseconds of its clock. *)
Record Transfer := MkTransfer { t_withdrawal : string; t_to : string; t_amount : Z; t_tx : string }.

Record Ext := MkExt {
  daily_spend_caches : gmap string (TTL Z);
  redis : option (gmap string (string * Z));
  transfers : list Transfer;
  facilitator_failures : list Z;
  unhealthy_until : list Z;
}.
#[export] Instance eta_Ext : Eta Ext := λ x,
  MkExt (daily_spend_caches x) (redis x) (transfers x) (facilitator_failures x) (unhealthy_until x).

#[export] Instance redis_Ext : HasRedis Ext := {| redis_of := redis; on_redis f x := x <| redis ::= f |> |}.

Definition empty_ext : Ext := MkExt ∅ None [] [] [].

(** The handlers of the billing and marketplace packages. *)
Abbreviation Handler A := (M Db Ext A).

Definition initial_world (d : Db) (now : Z) (s : list (event Db Ext)) : World Db Ext :=
  MkWorld d empty_ext now None s 0.

(** Invariants of the database alone. *)
Abbreviation on_db := (@db_only Db Ext).

(** ** Statements on org_credits and org_credit_ledger *)

(** [INSERT INTO org_credits ... ON CONFLICT (org_id) DO UPDATE
     SET balance_usdc = org_credits.balance_usdc + EXCLUDED.balance_usdc
     RETURNING balance_usdc] *)
Definition upsert_credit (org : string) (amount : Z) (now : Z) (d : Db) : res (Z * Db) :=
  if negb (is_bigint amount) then Raise DataError
  else if amount <? 0 then Raise CheckViolation
  else match credits d !! org with
       | Some c =>
           let balance := balance_usdc c + amount in
           if negb (is_bigint balance) then Raise DataError
           else if balance <? 0 then Raise CheckViolation
           else Ok (balance, d <| credits ::= <[org := c <| balance_usdc := balance |>
                                                         <| credit_updated_at := now |>]> |>)
       | None =>
           match orgs d !! org with
           | None => Raise ForeignKeyViolation
           | Some _ => Ok (amount, d <| credits ::= <[org := MkCredit amount 0 false now]> |>)
           end
       end.

(** [UPDATE org_credits SET balance_usdc = balance_usdc + $2 WHERE org_id = $1
     RETURNING balance_usdc] *)
Definition credit_back (org : string) (amount : Z) (now : Z) (d : Db) : res (option Z * Db) :=
  match credits d !! org with
  | None => Ok (None, d)
  | Some c =>
      let balance := balance_usdc c + amount in
      if negb (is_bigint balance) then Raise DataError
      else if balance <? 0 then Raise CheckViolation
      else Ok (Some balance, d <| credits ::= <[org := c <| balance_usdc := balance |>
                                                         <| credit_updated_at := now |>]> |>)
  end.

(** [UPDATE org_credits SET balance_usdc = $2 WHERE org_id = $1] *)
Definition set_balance (org : string) (balance : Z) (now : Z) (d : Db) : res (unit * Db) :=
  match credits d !! org with
  | None => Ok (tt, d)
  | Some c =>
      if negb (is_bigint balance) then Raise DataError
      else if balance <? 0 then Raise CheckViolation
      else Ok (tt, d <| credits ::= <[org := c <| balance_usdc := balance |>
                                               <| credit_updated_at := now |>]> |>)
  end.

Definition ledger_row (id : string) (d : Db) : option LedgerRow :=
  find (λ r, bool_decide (l_id r = id)) (ledger d).

Definition reversal_of (debit : string) (d : Db) : option LedgerRow :=
  find (λ r, bool_decide (l_reverses r = Some debit)) (ledger d).

Definition ledger_by_ref (ref : string) (d : Db) : option LedgerRow :=
  find (λ r, bool_decide (l_external_ref r = Some ref)) (ledger d).

(** [INSERT INTO org_credit_ledger ...] with the table's constraints: the CHECKs,
    the primary key, the two partial unique indexes and the two references. *)
Definition ledger_conflict (r : LedgerRow) (d : Db) : bool :=
  bool_decide (is_Some (ledger_row (l_id r) d))
  || match l_external_ref r with Some ref => bool_decide (is_Some (ledger_by_ref ref d)) | None => false end
  || match l_reverses r with Some id => bool_decide (is_Some (reversal_of id d)) | None => false end.

Definition ledger_references_ok (r : LedgerRow) (d : Db) : bool :=
  bool_decide (is_Some (orgs d !! l_org r))
  && match l_reverses r with Some id => bool_decide (is_Some (ledger_row id d)) | None => true end.

Definition insert_ledger (r : LedgerRow) (d : Db) : res (unit * Db) :=
  if negb (is_bigint (l_amount r) && is_bigint (l_balance_after r)) then Raise DataError
  else if (l_amount r <=? 0) || (l_balance_after r <? 0) then Raise CheckViolation
  else if ledger_conflict r d then Raise UniqueViolation
  else if negb (ledger_references_ok r d) then Raise ForeignKeyViolation
  else Ok (tt, d <| ledger ::= λ l, l ++ [r] |>).
