(* ===== verification/Books.v ===== *)
(** * The books: what the credit tables promise to every component

    [balance] reads an organisation's prepaid balance, [org_total] adds up its
    ledger, and [books] is the accounting invariant the credit, delegation and
    settlement handlers all keep.  Every balance change of the program is one
    [posted] ledger row; the lemmas below turn the statement pairs of the code
    (update or upsert of org_credits, then the ledger insert) into a posting. *)

From S2P Require Export Schema.

Definition signed (r : LedgerRow) : Z :=
  match l_op r with Debit => - l_amount r | Topup => l_amount r end.

Definition org_signed (org : string) (r : LedgerRow) : Z :=
  if bool_decide (l_org r = org) then signed r else 0.

Definition org_total (org : string) (l : list LedgerRow) : Z := lsum (org_signed org) l.

Definition balance (org : string) (d : Db) : Z := default 0 (balance_usdc <$> credits d !! org).

(** The accounting invariant. *)
Record books (d : Db) : Prop := {
  books_total : ∀ org, balance org d = org_total org (ledger d);
  books_range : ∀ org c, credits d !! org = Some c → 0 ≤ balance_usdc c ≤ bigint_max;
  books_amounts : ∀ r, r ∈ ledger d → 0 < l_amount r ∧ 0 ≤ l_balance_after r;
  books_running : ∀ l1 r l2, ledger d = l1 ++ r :: l2 →
    l_balance_after r = org_total (l_org r) (l1 ++ [r]);
  books_ids : NoDup (map l_id (ledger d));
  books_refs : NoDup (omap l_external_ref (ledger d));
  books_reversals : NoDup (omap l_reverses (ledger d));
  books_reversed : ∀ r id, r ∈ ledger d → l_reverses r = Some id →
    ∃ r', r' ∈ ledger d ∧ l_id r' = id;
}.

(** [d1] is [d] with the balance of [org] set to [b] and nothing else changed but
    the timestamp of that row (a new row has no limit and is not paused). *)
Definition adjusted (org : string) (b : Z) (d d1 : Db) : Prop :=
  ∃ c, d1 = d <| credits ::= <[org := c]> |> ∧ balance_usdc c = b ∧ 0 ≤ b ≤ bigint_max ∧
    match credits d !! org with
    | Some c0 => spending_limit_usdc c = spending_limit_usdc c0 ∧
                 credit_is_paused c = credit_is_paused c0
    | None => spending_limit_usdc c = 0 ∧ credit_is_paused c = false
    end.

(** [d'] is [d] after posting the ledger row [r]. *)
Definition posted (r : LedgerRow) (d d' : Db) : Prop :=
  ∃ d1, adjusted (l_org r) (l_balance_after r) d d1 ∧
    d' = d1 <| ledger ::= λ l, l ++ [r] |> ∧
    l_balance_after r = balance (l_org r) d + signed r ∧
    0 < l_amount r ∧ ledger_conflict r d = false ∧ ledger_references_ok r d = true.

(** ** The statements *)
Lemma is_bigint_true z : is_bigint z = true → bigint_min ≤ z ≤ bigint_max.
Proof. unfold is_bigint. intros. case_bool. lia. Qed.

Lemma upsert_credit_ok org a now d b d1 :
  upsert_credit org a now d = Ok (b, d1) → b = balance org d + a ∧ adjusted org b d d1.
Proof.
  unfold upsert_credit, balance, adjusted. intros Hu. case_match eqn:Ha; [done|].
  case_match eqn:Ha0; [done|]. case_bool. apply is_bigint_true in Ha.
  destruct (credits d !! org) as [c|] eqn:Hc; cbn in *.
  - case_match eqn:Hbig; [done|]. case_match; [done|]. injection Hu as <- <-. case_bool.
    apply is_bigint_true in Hbig. split; [done|]. eexists. split; [reflexivity|]. by solve_parts.
  - case_match; [|done]. injection Hu as <- <-. split; [done|].
    eexists. split; [reflexivity|]. by solve_parts.
Qed.

Lemma credit_back_ok org a now d b d1 :
  credit_back org a now d = Ok (Some b, d1) → b = balance org d + a ∧ adjusted org b d d1.
Proof.
  unfold credit_back, balance, adjusted. intros Hu.
  destruct (credits d !! org) as [c|] eqn:Hc; cbn in *; [|done].
  case_match eqn:Hbig; [done|]. case_match; [done|]. injection Hu as <- <-.
  case_bool. apply is_bigint_true in Hbig. split; [done|].
  eexists. split; [reflexivity|]. by solve_parts.
Qed.

Lemma credit_back_none org a now d d1 : credit_back org a now d = Ok (None, d1) → d1 = d.
Proof.
  unfold credit_back. destruct (credits d !! org); [|by intros [= ->]]. by repeat case_match.
Qed.

Lemma set_balance_ok org b now d u d1 :
  set_balance org b now d = Ok (u, d1) → is_Some (credits d !! org) → adjusted org b d d1.
Proof.
  unfold set_balance, adjusted. intros Hu [c Hc]. rewrite Hc in *.
  case_match eqn:Hbig; [done|]. case_match; [done|]. injection Hu as <- <-.
  case_bool. apply is_bigint_true in Hbig. eexists. split; [reflexivity|]. by solve_parts.
Qed.

(** The ledger insert that follows completes the posting. *)
Lemma insert_ledger_posted r d d1 u d2 :
  insert_ledger r d1 = Ok (u, d2) →
  adjusted (l_org r) (l_balance_after r) d d1 →
  l_balance_after r = balance (l_org r) d + signed r →
  posted r d d2.
Proof.
  unfold insert_ledger. intros Hi Ha Hb. repeat (case_match; [done|]). injection Hi as <- <-.
  case_bool. exists d1. destruct Ha as (c & -> & Hc). split_and!; try done.
  by exists c.
Qed.

Lemma balance_adjusted org b d d1 org' :
  adjusted org b d d1 → balance org' d1 = if bool_decide (org' = org) then b else balance org' d.
Proof.
  intros (c & -> & <- & _). unfold balance. cbn. case_bool_decide.
  - subst. by rewrite lookup_insert_eq.
  - by rewrite lookup_insert_ne.
Qed.

Lemma balance_posted r d d' org :
  posted r d d' → balance org d' = balance org d + org_signed org r.
Proof.
  intros (d1 & Ha & -> & Hb & _). change (balance org (d1 <| ledger ::= _ |>)) with (balance org d1).
  rewrite (balance_adjusted _ _ _ _ _ Ha). unfold org_signed.
  repeat case_bool_decide; subst; try done; lia.
Qed.

Lemma ledger_posted r d d' : posted r d d' → ledger d' = ledger d ++ [r].
Proof. by intros (d1 & (c & -> & _) & -> & _). Qed.

Lemma posted_frame r d d' : posted r d d' → d' = d <| credits := credits d' |> <| ledger := ledger d' |>.
Proof. intros (d1 & (c & -> & _) & -> & _). done. Qed.

Lemma org_total_snoc org l r : org_total org (l ++ [r]) = org_total org l + org_signed org r.
Proof. apply lsum_snoc. Qed.

Lemma find_none_spec {A} (p : A → bool) l : find p l = None ↔ ∀ a, a ∈ l → p a = false.
Proof.
  split.
  - intros Hf a Ha. apply (find_none _ _ Hf). by apply list_elem_of_In.
  - induction l as [|a l IH]; simpl; intros H; [done|].
    rewrite (H a) by left. apply IH. intros. apply H. by right.
Qed.

Lemma NoDup_omap_snoc {A B} (f : A → option B) l a :
  NoDup (omap f l) → (∀ b, f a = Some b → ∀ a', a' ∈ l → f a' ≠ Some b) → NoDup (omap f (l ++ [a])).
Proof.
  intros Hnd Hf. rewrite omap_app. simpl. destruct (f a) as [b|] eqn:Hb; [|by rewrite app_nil_r].
  apply NoDup_app. split_and!; [done| |apply NoDup_singleton].
  intros b' (a' & Ha' & Hfa')%list_elem_of_omap Hb'%list_elem_of_singleton. subst.
  by eapply Hf.
Qed.

(** A posting keeps the books. *)
Lemma books_posted r d d' : books d → posted r d d' → books d'.
Proof.
  intros Hbk Hp. pose proof (ledger_posted _ _ _ Hp) as Hl.
  assert (∀ org, balance org d' = balance org d + org_signed org r) as Hbal
    by (intros; by apply balance_posted).
  destruct Hp as (d1 & (c & -> & Hc & Hrange & _) & Hd' & Hb & Hamt & Hconf & Hrefs).
  apply orb_false_iff in Hconf as [Hconf Hrev]. apply orb_false_iff in Hconf as [Hid Href].
  assert (∀ r', r' ∈ ledger d → l_id r' ≠ l_id r) as Hfresh.
  { intros r' Hr' Heq. apply bool_decide_eq_false in Hid. apply Hid. unfold ledger_row.
    destruct (find _ _) eqn:Hfind; [done|]. rewrite find_none_spec in Hfind.
    specialize (Hfind r' Hr'). by apply bool_decide_eq_false in Hfind. }
  constructor; intros; rewrite ?Hl in *.
  - rewrite org_total_snoc, <- books_total by done. apply Hbal.
  - rewrite Hd' in H. cbn in H. apply lookup_insert_Some in H as [[_ <-]|[_ H]]; [lia|].
    by eapply books_range.
  - apply elem_of_app in H as [H|H%list_elem_of_singleton]; [by eapply books_amounts|].
    subst. lia.
  - destruct l2 as [|r' l2 _] using rev_ind.
    + apply app_inj_tail in H as [<- <-]. rewrite org_total_snoc, <- books_total, Hb by done.
      unfold org_signed. by rewrite bool_decide_true.
    + rewrite app_comm_cons, app_assoc in H. apply app_inj_tail in H as [H _].
      by eapply books_running.
  - rewrite map_app. apply NoDup_app. split_and!; [by eapply books_ids| |apply NoDup_singleton].
    intros i (r' & Hi & Hr')%list_elem_of_fmap Hi'%list_elem_of_singleton. subst.
    by eapply Hfresh.
  - apply NoDup_omap_snoc; [by eapply books_refs|]. intros ref Hr. rewrite Hr in Href.
    intros r' Hr' Heq. apply bool_decide_eq_false in Href. apply Href. unfold ledger_by_ref.
    destruct (find _ _) eqn:Hfind; [done|]. rewrite find_none_spec in Hfind.
    specialize (Hfind r' Hr'). by apply bool_decide_eq_false in Hfind.
  - apply NoDup_omap_snoc; [by eapply books_reversals|]. intros ref Hr. rewrite Hr in Hrev.
    intros r' Hr' Heq. apply bool_decide_eq_false in Hrev. apply Hrev. unfold reversal_of.
    destruct (find _ _) eqn:Hfind; [done|]. rewrite find_none_spec in Hfind.
    specialize (Hfind r' Hr'). by apply bool_decide_eq_false in Hfind.
  - apply elem_of_app in H as [H|H%list_elem_of_singleton]; subst.
    + destruct (books_reversed d Hbk r0 id H H0) as (r' & ? & ?). exists r'. set_solver.
    + unfold ledger_references_ok in Hrefs. rewrite H0 in Hrefs. case_bool.
      destruct H1 as [r' Hr']. apply find_some in Hr' as [Hin Hr']. case_bool.
      exists r'. rewrite elem_of_app, list_elem_of_In. auto.
Qed.

(** The books look at two tables only. *)
Lemma books_same d d' :
  books d → ledger d' = ledger d → (∀ org, balance_usdc <$> credits d' !! org = balance_usdc <$> credits d !! org) →
  books d'.
Proof.
  intros Hbk Hl Hc. constructor; intros; rewrite ?Hl in *.
  - unfold balance. rewrite Hc. by eapply books_total.
  - pose proof (Hc org) as Hco. rewrite H in Hco. cbn in Hco. symmetry in Hco.
    apply fmap_Some in Hco as (c' & Hc' & ->). by eapply books_range.
  - by eapply books_amounts.
  - by eapply books_running.
  - by eapply books_ids.
  - by eapply books_refs.
  - by eapply books_reversals.
  - by eapply books_reversed.
Qed.

Lemma books_empty : books empty_db.
Proof.
  constructor; cbn; intros; try done; try constructor.
  all: first [by apply elem_of_nil in H | by destruct l1].
Qed.

Lemma balance_nonneg org d : books d → 0 ≤ balance org d.
Proof.
  intros Hbk. unfold balance. destruct (credits d !! org) as [c|] eqn:Hc; cbn; [|lia].
  apply (books_range d Hbk org c Hc).
Qed.

#[export] Hint Resolve books_empty balance_nonneg : teardrop.

(** ** The statements inside a transaction whose failure is uniform *)
Section posting_rules.
Context (now : Z) (E : exn → Prop) (HE : ∀ e, E e).

Lemma wpt_upsert_credit org a (Q : Z → Db → Prop) d :
  (∀ d1, adjusted org (balance org d + a) d d1 → Q (balance org d + a) d1) →
  wpt now (stmt (upsert_credit org a) : Handler Z) Q (λ e _, E e) d.
Proof.
  intros HQ. apply wpt_stmt; [done|]. destruct (upsert_credit _ _ _ _) as [[b d1]|e] eqn:Hu; [|done].
  apply upsert_credit_ok in Hu as [-> Ha]. auto.
Qed.

Lemma wpt_credit_back org a (Q : option Z → Db → Prop) d :
  (∀ d1, adjusted org (balance org d + a) d d1 → Q (Some (balance org d + a)) d1) → Q None d →
  wpt now (stmt (credit_back org a) : Handler (option Z)) Q (λ e _, E e) d.
Proof.
  intros HS HN. apply wpt_stmt; [done|].
  destruct (credit_back _ _ _ _) as [[[b|] d1]|e] eqn:Hu; [| |done]; (split; [|done]).
  - apply credit_back_ok in Hu as [-> Ha]. auto.
  - by apply credit_back_none in Hu as ->.
Qed.

Lemma wpt_insert_ledger (row : Z → LedgerRow) (Q : unit → Db → Prop) d d1 :
  adjusted (l_org (row now)) (l_balance_after (row now)) d d1 →
  l_balance_after (row now) = balance (l_org (row now)) d + signed (row now) →
  (∀ d2, posted (row now) d d2 → Q tt d2) →
  wpt now (stmt (λ now, insert_ledger (row now)) : Handler unit) Q (λ e _, E e) d1.
Proof.
  intros Ha Hb HQ. apply wpt_stmt; [done|].
  destruct (insert_ledger _ _) as [[[] d2]|e] eqn:Hi; [|done]. split; [|done].
  apply HQ. by eapply insert_ledger_posted.
Qed.
End posting_rules.

(** ** Commits

    [commits G m]: whatever the schedule, the database changes that [m] makes
    visible to others are steps of [G]; so [m] keeps every predicate that the
    steps of [G] keep. *)
Definition closed_under (P : Db → Prop) (G : Db → Db → Prop) : Prop := ∀ d d', P d → G d d' → P d'.

Definition commits {A} (G : Db → Db → Prop) (m : Handler A) : Prop :=
  ∀ P, closed_under P G → preserves (on_db P) m.

Lemma commits_mono {A} (G G' : Db → Db → Prop) (m : Handler A) :
  commits G m → (∀ d d', G d d' → G' d d') → commits G' m.
Proof. intros Hm HG P HP. apply Hm. intros d d' Hd Hs. eapply HP; eauto. Qed.

Lemma wpi_trivial {A} I (m : Handler A) (Q : res A → Prop) : preserves I m → (∀ r, Q r) → wpi I m Q.
Proof. intros Hm HQ. eapply wpi_mono; [exact Hm|done]. Qed.

(** A statement on its own is its own transaction. *)
Lemma wpi_stmt_on_db {A} (P : Db → Prop) (f : Z → Db → res (A * Db)) (Q : res A → Prop) :
  (∀ r, Q r) → (∀ now d a d', P d → f now d = Ok (a, d') → P d') → wpi (on_db P) (stmt f) Q.
Proof.
  intros HQ Hf. apply wpi_stmt; [done|]. intros now d x HP.
  destruct (f now d) as [[a d']|e] eqn:Hfd; [|done]. split; [|done]. by eapply Hf.
Qed.

Section commits.
Context (G : Db → Db → Prop).

Lemma commits_ret {A} (a : A) : commits G (mret a).
Proof. intros P HP. by inv_auto. Qed.

Lemma commits_raise {A} e : commits G (raise e : Handler A).
Proof. intros P HP. by inv_auto. Qed.

Lemma commits_query {A} (f : Z → Db → A) : commits G (query f).
Proof. intros P HP. by inv_auto. Qed.

Lemma commits_bind {A B} (m : Handler A) (f : A → Handler B) :
  commits G m → (∀ a, commits G (f a)) → commits G (m ≫= f).
Proof.
  intros Hm Hf P HP. do 2 inv_step. eapply wpi_mono; [by apply Hm|]. intros [a|e] _; [by apply Hf|done].
Qed.

Lemma commits_catch {A} (m : Handler A) h : commits G m → (∀ e, commits G (h e)) → commits G (catch m h).
Proof.
  intros Hm Hh P HP. do 2 inv_step. eapply wpi_mono; [by apply Hm|]. intros [a|e] _; [done|by apply Hh].
Qed.

Lemma commits_stmt {A} (f : Z → Db → res (A * Db)) :
  (∀ now d a d', f now d = Ok (a, d') → d' = d ∨ G d d') → commits G (stmt f).
Proof.
  intros Hf P HP. inv_step. apply wpi_stmt_on_db; [done|]. intros now d a d' Hd Hfd.
  destruct (Hf _ _ _ _ Hfd) as [->|Hs]; [done|]. by eapply HP.
Qed.

(** A transaction whose net effect is nothing or one step. *)
Lemma commits_transaction {A} (m : Handler A) :
  (∀ now d, wpt now m (λ _ d', d' = d ∨ G d d') (λ _ _, True) d) → commits G (transaction m).
Proof.
  intros Hm P HP. do 2 inv_step; [done|]. intros now d x Hd.
  eapply wpt_mono; [apply Hm| |done]. intros a d' [->|Hs]; split; try done. by eapply HP.
Qed.

Lemma commits_for_each {A B} (l : list A) (acc : B) body :
  (∀ acc a, commits G (body acc a)) → commits G (for_each l acc body).
Proof.
  intros Hb. revert acc. induction l as [|a l IH]; intros acc; simpl; [apply commits_ret|].
  by apply commits_bind.
Qed.

(** A computation that touches no table. *)
Lemma commits_pure {A} (m : Handler A) : (∀ P, preserves (on_db P) m) → commits G m.
Proof. intros Hm P _. apply Hm. Qed.
End commits.

(** [commits_under R G m]: the same for a handler whose steps are in [G] only because
    the interference is known to be of the kind [R]. *)
Definition by_db (R : Db → Db → Prop) : Db → Ext → Db → Ext → Prop := λ d _ d' _, R d d'.

Definition commits_under {A} (R G : Db → Db → Prop) (m : Handler A) : Prop :=
  ∀ P, closed_under P G → closed_under P R → rg (by_db R) (on_db P) m (λ _, on_db P).

Lemma stable_by_db R P : closed_under P R → stable (by_db R) (on_db P).
Proof. intros HP d x d' x' Hd Hr. by eapply HP. Qed.

Lemma commits_commits_under {A} R G (m : Handler A) : commits G m → commits_under R G m.
Proof. intros Hm P HG HR. apply rg_preserves; [by apply stable_by_db|]. by apply (Hm P HG). Qed.

Lemma commits_under_bind {A B} R G (m : Handler A) (f : A → Handler B) :
  commits_under R G m → (∀ a, commits_under R G (f a)) → commits_under R G (m ≫= f).
Proof. intros Hm Hf P HG HR. eapply rg_bind; [by apply Hm|intros; by apply Hf|done]. Qed.
