(* ===== verification/Credit.v ===== *)
(** * billing/credit.py and billing/context.py: prepaid credit

    The org credit ledger: admission checks, the locked debit, top-ups,
    onboarding grants and their outbox, spending configuration.  An operation
    is a [Handler]; what runs inside [async with conn.transaction()] is under
    [transaction].  [cfg] is [get_settings()], [uuid] the supply of uuid4. *)

From S2P Require Export Cache Books.

(** billing/models.py *)
Record BillingResult := MkBillingResult {
  verified : bool;
  settled : bool;
  tx_hash : string;
  amount_usdc : Z;
  error : string;
  result_billing_method : string;
  scheme : string;
  payer : string;
}.
#[export] Instance eta_BillingResult : Eta BillingResult := λ b,
  MkBillingResult (verified b) (settled b) (tx_hash b) (amount_usdc b) (error b)
    (result_billing_method b) (scheme b) (payer b).

(** The field defaults. *)
Definition billing_result : BillingResult := {|
  verified := false; settled := false; tx_hash := ""; amount_usdc := 0; error := "";
  result_billing_method := "x402"; scheme := "exact"; payer := "" |}.

Definition billing_error (msg : string) : BillingResult := billing_result <| error := msg |>.

(** [bool(principal_id)] for an optional string *)
Definition truthy_id (pid : option string) : option string :=
  match pid with
  | Some p => if bool_decide (p = "") then None else Some p
  | None => None
  end.

Definition is_machine_source (source : string) : bool :=
  bool_decide (source = "siwe") || bool_decide (source = "x402").

(** [SELECT c.*, o.acquisition_source FROM org_credits c JOIN orgs o ... WHERE c.org_id = $1] *)
Definition credit_account (org : string) (d : Db) : option (CreditRow * string) :=
  c ← credits d !! org; o ← orgs d !! org; Some (c, acquisition_source o).

(** The two aggregates of [pending_settlements] in [verify_credit]. *)
Definition is_outstanding (now : Z) (org : string) (s : PendingRow) : bool :=
  bool_decide (s_org s = org) && bool_decide (s_method s = Credit)
  && bool_decide (s_status s ≠ SSettled) && (now - days 7 <=? s_created_at s).

Definition org_outstanding (now : Z) (org : string) (d : Db) : Z :=
  msum (λ _ s, if is_outstanding now org s then s_amount s else 0) (pending_settlements d).

Definition principal_outstanding (now : Z) (org pid : string) (d : Db) : Z :=
  msum (λ _ s, if is_outstanding now org s && bool_decide (s_principal s = Some pid)
               then s_amount s else 0) (pending_settlements d).

(** The rows of the 24-hour debit aggregate: unreversed debits of the window. *)
Definition counts_as_spend (now : Z) (org : string) (d : Db) (r : LedgerRow) : bool :=
  bool_decide (l_org r = org) && bool_decide (l_op r = Debit)
  && (now - hours 24 <=? l_created_at r) && bool_decide (reversal_of (l_id r) d = None).

Definition daily_debit_spend (now : Z) (org : string) (d : Db) : Z :=
  lsum (λ r, if counts_as_spend now org d r then l_amount r else 0) (ledger d).

Definition daily_principal_debit_spend (now : Z) (org pid : string) (d : Db) : Z :=
  lsum (λ r, if counts_as_spend now org d r && bool_decide (l_principal r = Some pid)
             then l_amount r else 0) (ledger d).

Definition _get_daily_debit_spend (org : string) : Handler Z :=
  query (λ now d, daily_debit_spend now org d).

Definition _get_daily_principal_debit_spend (org pid : string) : Handler Z :=
  query (λ now d, daily_principal_debit_spend now org pid d).

(** [_get_daily_spend_cache(org_id)] *)
Definition _get_daily_spend_cache (org : string) : CacheSpec Db Ext Z := {|
  redis_key := "teardrop:daily_spend:" +:+ org;
  ttl_seconds := 30;
  loader := spend ← _get_daily_debit_spend org; mret (Some spend);
  serialize := pretty;
  deserialize := λ raw, match py_int_of_string raw with
                        | Some z => Ok (Some z)
                        | None => Raise (ValueError "invalid literal for int()") end;
  cache_when := λ v, bool_decide (is_Some v);
  stale_default := Some 0;
  slot := λ x, default empty_slot (daily_spend_caches x !! org);
  set_slot := λ s x, x <| daily_spend_caches ::= <[org := s]> |>;
|}.

Definition invalidate_daily_spend (org : string) : Handler unit :=
  cache_invalidate (_get_daily_spend_cache org).

Section credit.
Context (cfg : Settings) (uuid : nat → string).

Definition get_credit_balance (org : string) : Handler Z :=
  query (λ _ d, default 0 (balance_usdc <$> credits d !! org)).

(** Machine-provisioned orgs with no stored limit get the configured cap. *)
Definition effective_limit (source : string) (limit : Z) : Z :=
  if is_machine_source source && (limit <=? 0)
  then machine_org_daily_spend_limit_usdc cfg else limit.

Definition shortfall_message (balance outstanding min_balance : Z) : string :=
  if 0 <? outstanding then
    "Insufficient credit: balance " +:+ pretty balance +:+ " atomic USDC with "
    +:+ pretty outstanding +:+ " owed for unpaid credit charges, required "
    +:+ pretty min_balance +:+ " available."
  else
    "Insufficient credit: balance " +:+ pretty balance +:+ " atomic USDC, required "
    +:+ pretty min_balance +:+ ".".

Definition owed_message (outstanding : Z) : string :=
  if 0 <? outstanding
  then " plus " +:+ pretty outstanding +:+ " owed for unpaid credit charges" else "".

(** The principal section of [verify_credit]. *)
Definition verify_principal (org : string) (min_balance principal_owed : Z)
    (pid : option string) : Handler (option string) :=
  match truthy_id pid with
  | None => mret None
  | Some p =>
      limit ← query (λ _ d, principal_limits d !! (org, p));
      match limit with
      | None => mret None
      | Some pl =>
          if principal_is_paused pl
          then mret (Some "Principal billing is paused by an administrator.")
          else
            spend ← _get_daily_principal_debit_spend org p;
            mret (if daily_limit_usdc pl <? spend + principal_owed + min_balance
                  then Some ("Principal daily spending limit reached: " +:+ pretty spend
                             +:+ " of " +:+ pretty (daily_limit_usdc pl)
                             +:+ " atomic USDC used in the last 24 hours"
                             +:+ owed_message principal_owed +:+ ".")
                  else None)
      end
  end.

Definition verify_credit (org : string) (min_balance : Z) (pid : option string)
    : Handler BillingResult :=
  row ← query (λ _ d, credit_account org d);
  let balance := default 0 ((λ r, balance_usdc r.1) <$> row) in
  let limit0 := default 0 ((λ r, spending_limit_usdc r.1) <$> row) in
  let paused := default false ((λ r, credit_is_paused r.1) <$> row) in
  let machine_org := default false ((λ r, is_machine_source r.2) <$> row) in
  let limit := if machine_org && (limit0 <=? 0)
               then machine_org_daily_spend_limit_usdc cfg else limit0 in
  if paused then
    mret (billing_error "Org billing is paused by admin. Contact your administrator.")
  else
    obligations ← query (λ now d,
      (org_outstanding now org d,
       match pid with Some p => principal_outstanding now org p d | None => 0 end));
    let outstanding := obligations.1 in
    let principal_owed :=
      match truthy_id pid with Some _ => obligations.2 | None => 0 end in
    if balance - outstanding <? min_balance then
      let shortfall := shortfall_message balance outstanding min_balance in
      mret (billing_error
        (if machine_org then
           shortfall +:+ " Fund via GET /billing/topup/usdc/requirements then POST /billing/topup/usdc, "
           +:+ "or POST /token with grant_type=x402."
         else shortfall +:+ " Top up via POST /admin/credits/topup."))
    else
      org_refusal ←
        (if 0 <? limit then
           daily_spend ← _get_daily_debit_spend org;
           mret (if limit <? daily_spend + outstanding + min_balance
                 then Some ("Daily spending limit reached: " +:+ pretty daily_spend +:+ " of "
                            +:+ pretty limit +:+ " atomic USDC used in the last 24 hours"
                            +:+ owed_message outstanding +:+ ".")
                 else None)
         else mret None);
      match org_refusal with
      | Some msg => mret (billing_error msg)
      | None =>
          refusal ← verify_principal org min_balance principal_owed pid;
          mret (match refusal with
                | Some msg => billing_error msg
                | None => billing_result <| verified := true |> <| result_billing_method := "credit" |>
                end)
      end.

Definition refused : bool * Z * option string := (false, 0, None).

(** The principal section of [_debit_credit_locked]: does a limit block the debit? *)
Definition principal_blocks (org : string) (amount : Z) (pid : option string) : Handler bool :=
  match truthy_id pid with
  | None => mret false
  | Some p =>
      limit ← query (λ _ d, principal_limits d !! (org, p));
      match limit with
      | None => mret false
      | Some pl =>
          if principal_is_paused pl then mret true
          else
            spend ← _get_daily_principal_debit_spend org p;
            mret (daily_limit_usdc pl <? spend + amount)
      end
  end.

Definition _debit_credit_locked (org : string) (amount : Z) (reason : string)
    (pid : option string) : Handler (bool * Z * option string) :=
  row ← query (λ _ d, credit_account org d);
  match row with
  | None => mret refused
  | Some (c, source) =>
      let original_balance := balance_usdc c in
      let limit := effective_limit source (spending_limit_usdc c) in
      if credit_is_paused c then mret refused
      else
        over_limit ←
          (if 0 <? limit then
             daily_spend ← _get_daily_debit_spend org;
             mret (limit <? daily_spend + amount)
           else mret false);
        if over_limit : bool then mret refused
        else
          blocked ← principal_blocks org amount pid;
          if blocked : bool then mret refused
          else if original_balance <? amount then mret refused
          else
            let new_balance := original_balance - amount in
            stmt (set_balance org new_balance);;
            ledger_id ← uuid4 uuid;
            stmt (λ now, insert_ledger
              (MkLedger ledger_id org Debit amount new_balance reason pid None None now));;
            mret (true, amount, Some ledger_id)
  end.

(** [try: cache.invalidate()  except Exception: log] *)
Definition invalidate_quietly (org : string) : Handler unit :=
  catch (invalidate_daily_spend org) (λ _, mret tt).

Definition debit_credit (org : string) (amount : Z) (reason : string) (pid : option string)
    : Handler (bool * Z) :=
  if amount <=? 0 then mret (true, 0)
  else
    catch
      (r ← transaction (_debit_credit_locked org amount reason pid);
       let '(success, actual_deducted, _) := r in
       (if success : bool then invalidate_quietly org else mret tt);;
       mret (success, actual_deducted))
      (λ _, mret (false, 0)).

(** [INSERT INTO a2a_delegation_refund_outbox ... status 'pending'] *)
Definition insert_outbox (id : string) (o : OutboxRow) (d : Db) : res (unit * Db) :=
  if negb (is_bigint (o_amount o)) then Raise DataError
  else if o_amount o <=? 0 then Raise CheckViolation
  else match outbox d !! id with
       | Some _ => Raise UniqueViolation
       | None =>
           if bool_decide (is_Some (orgs d !! o_org o))
              && match o_debit_ledger o with
                 | Some l => bool_decide (is_Some (ledger_row l d)) | None => true end
           then Ok (tt, d <| outbox ::= <[id := o]> |>)
           else Raise ForeignKeyViolation
       end.

(** [SELECT ... FROM a2a_delegation_refund_outbox WHERE id = $1 AND org_id = $2] *)
Definition outbox_row (org id : string) (d : Db) : option OutboxRow :=
  o ← outbox d !! id; if bool_decide (o_org o = org) then Some o else None.

Definition debit_credit_with_delegation_refund (org : string) (amount : Z)
    (reason delegation_id run_id : string) (pid : option string) : Handler (bool * Z) :=
  if amount <=? 0 then mret (true, 0)
  else
    catch
      (r ← transaction
         (existing ← query (λ _ d, outbox_row org delegation_id d);
          match existing with
          | Some o =>
              if negb (o_amount o =? amount) then
                raise (ValueError "Delegation funding amount changed for an existing id")
              else mret (bool_decide (o_status o = RPending), o_amount o, false)
          | None =>
              debit ← _debit_credit_locked org amount reason pid;
              let '(success, actual_deducted, debit_ledger_id) := debit in
              if negb success then mret (false, 0, false)
              else
                stmt (λ now, insert_outbox delegation_id
                  (MkOutbox org run_id actual_deducted debit_ledger_id RPending now None
                     NotAttempted None None "" ""));;
                mret (true, actual_deducted, true)
          end);
       let '(success, actual, debited) := r in
       (if debited : bool then invalidate_quietly org else mret tt);;
       mret (success, actual))
      (λ _, mret (false, 0)).

Definition admin_topup_credit (org : string) (amount : Z) (reason : string)
    (external_ref : option string) : Handler Z :=
  catch_if is_unique_violation
    (transaction
      (new_balance ← stmt (upsert_credit org amount);
       ledger_id ← uuid4 uuid;
       stmt (λ now, insert_ledger
         (MkLedger ledger_id org Topup amount new_balance reason None external_ref None now));;
       mret new_balance))
    (λ e,
       match external_ref with
       | None => raise e
       | Some ref =>
           existing ← query (λ _ d, ledger_by_ref ref d);
           match existing with
           | Some r =>
               if bool_decide (l_org r = org) && (l_amount r =? amount)
               then query (λ _ d, default 0 (balance_usdc <$> credits d !! org))
               else raise e
           | None => raise e
           end
       end).

(** teardrop/users/credentials.py.  The random secret and its PBKDF2 hash are
    the standard library's. *)
Context (token_urlsafe : nat → string) (_hash_secret : string → string * string).

Definition Credential : Type := string * CredentialRow.

Definition insert_credential (c : Credential) (d : Db) : res (unit * Db) :=
  match credentials d !! c.1 with
  | Some _ => Raise UniqueViolation
  | None =>
      match orgs d !! c_org c.2 with
      | None => Raise ForeignKeyViolation
      | Some _ => Ok (tt, d <| credentials ::= <[c.1 := c.2]> |>)
      end
  end.

Definition create_client_credential_in_transaction (org : string) (scope : string)
    : Handler (Credential * string) :=
  client_id ← uuid4 uuid;
  plaintext_secret ← uuid4 token_urlsafe;
  let '(hashed, salt_hex) := _hash_secret plaintext_secret in
  now ← datetime_now;
  let credential := (client_id, MkCredential org hashed salt_hex now scope None) in
  stmt (λ _, insert_credential credential);;
  mret (credential, plaintext_secret).

(** [SELECT ... WHERE org_id = $1 AND disabled_at IS NULL ORDER BY created_at ASC LIMIT 1] *)
Definition oldest_active_credential (org : string) (d : Db) : option Credential :=
  head (order_by (λ a b, c_created_at a.2 <=? c_created_at b.2)
          (filter (λ c, c_org c.2 = org ∧ c_disabled_at c.2 = None) (map_to_list (credentials d)))).

Definition insert_provisioning (p : ProvisioningRow) (d : Db) : res (unit * Db) :=
  if p_amount p <? 0 then Raise CheckViolation
  else if existsb (λ q, bool_decide (p_id q = p_id p)) (provisioning d) then Raise UniqueViolation
  else match orgs d !! p_org p with
       | None => Raise ForeignKeyViolation
       | Some _ => Ok (tt, d <| provisioning ::= λ l, l ++ [p] |>)
       end.

(** The transaction of [record_onboarding_settlement]. *)
Definition record_onboarding_locked (org : string) (amount : Z)
    (external_ref payer_address : string) (chain_id : Z) (settlement_tx : string)
    : Handler (Credential * option string) :=
  query (λ _ d, orgs d !! org);;
  existing ← query (λ _ d, ledger_by_ref external_ref d);
  match existing with
  | Some r =>
      if bool_decide (l_org r ≠ org) || negb (l_amount r =? amount) then
        raise (ValueError "Onboarding payment reference is bound to a different settlement")
      else
        credential ← query (λ _ d, oldest_active_credential org d);
        match credential with
        | Some c => mret (c, None)
        | None =>
            created ← create_client_credential_in_transaction org "publish";
            mret (created.1, Some created.2)
        end
  | None =>
      existing_credential ← query (λ _ d, oldest_active_credential org d);
      credential ←
        (match existing_credential with
         | Some c => mret (c, None)
         | None =>
             created ← create_client_credential_in_transaction org "publish";
             mret (created.1, Some created.2)
         end);
      new_balance ← stmt (upsert_credit org amount);
      ledger_id ← uuid4 uuid;
      stmt (λ now, insert_ledger
        (MkLedger ledger_id org Topup amount new_balance "x402_onboarding" None
           (Some external_ref) None now));;
      event_id ← uuid4 uuid;
      stmt (λ _, insert_provisioning
        (MkProvisioning event_id org "x402" payer_address chain_id settlement_tx
           external_ref amount "settlement" "settled"));;
      mret credential
  end.

Definition record_onboarding_settlement (org : string) (amount : Z)
    (external_ref payer_address : string) (chain_id : Z) (settlement_tx : string)
    : Handler (Credential * option string) :=
  if amount <=? 0 then raise (ValueError "onboarding settlement amount must be positive")
  else if bool_decide (external_ref = "") || bool_decide (settlement_tx = "") then
    raise (ValueError "onboarding settlement requires payment and transaction references")
  else transaction
    (record_onboarding_locked org amount external_ref payer_address chain_id settlement_tx).

Definition _ONBOARDING_GRANT_REASON : string := "onboarding_grant".

(** [INSERT INTO org_onboarding_credit_grants ... ON CONFLICT (org_id) DO NOTHING
     RETURNING amount_usdc] *)
Definition insert_grant (org : string) (g : GrantRow) (d : Db) : res (option Z * Db) :=
  if negb (is_bigint (g_amount g)) then Raise DataError
  else if g_amount g <=? 0 then Raise CheckViolation
  else match grants d !! org with
       | Some _ => Ok (None, d)
       | None =>
           if existsb (λ kv, bool_decide (g_ledger_entry_id kv.2 = g_ledger_entry_id g))
                (map_to_list (grants d)) then Raise UniqueViolation
           else match orgs d !! org with
                | None => Raise ForeignKeyViolation
                | Some _ => Ok (Some (g_amount g), d <| grants ::= <[org := g]> |>)
                end
       end.

(** The transaction of [grant_onboarding_credit]. *)
Definition grant_onboarding_locked (org : string) (amount : Z) : Handler Z :=
  ledger_entry_id ← uuid4 uuid;
  grant_row ← stmt (λ _, insert_grant org (MkGrant amount ledger_entry_id));
  match grant_row with
  | None => mret 0
  | Some granted_amount =>
      new_balance ← stmt (upsert_credit org granted_amount);
      stmt (λ now, insert_ledger
        (MkLedger ledger_entry_id org Topup granted_amount new_balance
           _ONBOARDING_GRANT_REASON None None None now));;
      mret granted_amount
  end.

Definition grant_onboarding_credit (org : string) (amount : Z) : Handler Z :=
  if amount <=? 0 then raise (ValueError "onboarding credit amount must be positive")
  else transaction (grant_onboarding_locked org amount).

Definition clear_onboarding_credit_outbox (org : string) : Handler unit :=
  stmt (λ _ d, Ok (tt, d <| grant_outbox ::= delete org |>)).

(** [UPDATE org_onboarding_credit_outbox SET attempts = attempts + 1, ...] *)
Definition note_outbox_failure (org err : string) (now : Z) (d : Db) : res (unit * Db) :=
  Ok (tt, d <| grant_outbox ::= alter (λ r,
    r <| go_attempts ::= Z.succ |> <| go_last_error := Some err |> <| go_updated_at := now |>) org |>).

Definition process_onboarding_credit_outbox (n : Z) : Handler Z :=
  rows ← query (λ _ d,
    limit n (order_by (λ a b, go_created_at a.2 <=? go_created_at b.2)
               (map_to_list (grant_outbox d))));
  for_each rows 0 (λ processed row,
    let '(org, r) := row in
    catch
      (grant_onboarding_credit org (go_amount r);;
       clear_onboarding_credit_outbox org;;
       mret (processed + 1))
      (λ e,
         catch (stmt (note_outbox_failure org (String.substring 0 500 (exn_str e))))
               (λ _, mret tt);;
         mret processed)).

Definition promotional (org : string) (d : Db) : option bool :=
  g ← grants d !! org;
  Some (negb (existsb (λ r, bool_decide (l_org r = org) && bool_decide (l_op r = Topup)
                            && bool_decide (l_id r ≠ g_ledger_entry_id g)) (ledger d))).

Definition is_promotional_credit (org : string) : Handler bool :=
  row ← query (λ _ d, promotional org d); mret (default false row).

Definition get_credit_history (org : string) (operation : option ledger_op) (n : Z)
    (cursor : option Z) : Handler (list LedgerRow) :=
  query (λ _ d,
    limit n (order_by (λ a b, l_created_at b <=? l_created_at a)
      (filter (λ r, bool_decide (l_org r = org)
                    && match operation with Some op => bool_decide (l_op r = op) | None => true end
                    && match cursor with Some t => l_created_at r <? t | None => true end = true)
         (ledger d)))).

(** billing/context.py *)
Record SpendingConfig := MkSpendingConfig {
  sc_org : string;
  sc_balance : Z;
  sc_spending_limit : Z;
  sc_is_paused : bool;
  sc_daily_spend : Z;
}.

Definition get_org_spending_config (org : string) : Handler SpendingConfig :=
  row ← query (λ _ d, credit_account org d);
  cached ← cache_get (_get_daily_spend_cache org);
  let spend := default 0 cached in
  mret (match row with
        | Some (c, source) =>
            MkSpendingConfig org (balance_usdc c) (effective_limit source (spending_limit_usdc c))
              (credit_is_paused c) spend
        | None => MkSpendingConfig org 0 0 false spend
        end).

Definition update_org_spending_config (org : string) (new_limit : option Z)
    (new_paused : option bool) : Handler (option SpendingConfig) :=
  if match new_limit with Some l => l <? 0 | None => false end then
    raise (ValueError "spending_limit_usdc must not be negative")
  else match new_limit, new_paused with
       | None, None => c ← get_org_spending_config org; mret (Some c)
       | _, _ =>
           updated ← stmt (λ now d,
             match credits d !! org with
             | None => Ok (false, d)
             | Some c =>
                 if match new_limit with Some l => negb (is_bigint l) | None => false end
                 then Raise DataError
                 else Ok (true, d <| credits ::= <[org :=
                   c <| spending_limit_usdc ::= λ l, default l new_limit |>
                     <| credit_is_paused ::= λ p, default p new_paused |>
                     <| credit_updated_at := now |>]> |>)
             end);
           if updated : bool then c ← get_org_spending_config org; mret (Some c) else mret None
       end.
End credit.

(** ** The authoritative debit against its specification

    [debit_admissible] is the admission rule as a predicate of one database state
    and [debit_entry] the ledger row of an admitted debit. *)
Section debit_spec.
Context (cfg : Settings) (uuid : nat → string).

Definition org_limit_admits (now : Z) (org : string) (amount : Z) (limit : Z) (d : Db) : bool :=
  (limit <=? 0) || (daily_debit_spend now org d + amount <=? limit).

Definition principal_admits (now : Z) (org : string) (amount : Z) (pid : option string) (d : Db) : bool :=
  match truthy_id pid with
  | None => true
  | Some p =>
      match principal_limits d !! (org, p) with
      | None => true
      | Some pl => negb (principal_is_paused pl)
                   && (daily_principal_debit_spend now org p d + amount <=? daily_limit_usdc pl)
      end
  end.

Definition debit_admissible (now : Z) (org : string) (amount : Z) (pid : option string) (d : Db) : bool :=
  match credit_account org d with
  | None => false
  | Some (c, source) =>
      negb (credit_is_paused c)
      && org_limit_admits now org amount (effective_limit cfg source (spending_limit_usdc c)) d
      && principal_admits now org amount pid d
      && (amount <=? balance_usdc c)
  end.

Definition debit_entry (now : Z) (org : string) (amount : Z) (reason : string) (pid : option string)
    (d : Db) (id : string) : LedgerRow :=
  MkLedger id org Debit amount (balance org d - amount) reason pid None None now.

(** What the locked debit may do to the database. *)
Definition debit_outcome (now : Z) (org : string) (amount : Z) (reason : string) (pid : option string)
    (d : Db) (r : bool * Z * option string) (d' : Db) : Prop :=
  if debit_admissible now org amount pid d
  then ∃ id, r = (true, amount, Some id) ∧ posted (debit_entry now org amount reason pid d id) d d'
  else r = refused ∧ d' = d.

Lemma credit_account_balance org d c source :
  credit_account org d = Some (c, source) → credits d !! org = Some c ∧ balance org d = balance_usdc c.
Proof.
  unfold credit_account, balance. destruct (credits d !! org) as [c'|]; cbn; [|done].
  destruct (orgs d !! org); cbn; [|done]. by intros [= -> _].
Qed.

Lemma principal_blocks_spec now org amount pid d :
  wpt now (principal_blocks org amount pid)
    (λ b d', b = negb (principal_admits now org amount pid d) ∧ d' = d) (λ _ _, True) d.
Proof.
  unfold principal_blocks, principal_admits, _get_daily_principal_debit_spend.
  destruct (truthy_id pid) as [p|]; [|by tx_step].
  tx_step. tx_step; [done|]. destruct (principal_limits d !! (org, p)) as [pl|]; [|by tx_step].
  destruct (principal_is_paused pl); [by tx_step|]. repeat tx_step; [done|]. cbn.
  by rewrite Z.ltb_antisym.
Qed.

Lemma debit_credit_locked_spec now org amount reason pid d :
  wpt now (_debit_credit_locked cfg uuid org amount reason pid)
    (debit_outcome now org amount reason pid d) (λ _ _, True) d.
Proof.
  unfold _debit_credit_locked, debit_outcome, debit_admissible, _get_daily_debit_spend. tx_step. tx_step; [done|].
  destruct (credit_account org d) as [[c source]|] eqn:Hacc; [|by tx_step].
  destruct (credit_account_balance _ _ _ _ Hacc) as [Hc Hbal].
  destruct (credit_is_paused c); [by tx_step|]. cbn [negb andb].
  tx_step. eapply (wpt_mono _ _ (λ b d', b = negb (org_limit_admits now org amount
    (effective_limit cfg source (spending_limit_usdc c)) d) ∧ d' = d) _ (λ _ _, True)); [| |done].
  { unfold org_limit_admits. destruct (0 <? _) eqn:Hl; repeat tx_step; try done; cbn;
      case_bool; split; try done; lia. }
  intros over d' [-> ->]. destruct (org_limit_admits _ _ _ _ _); [|by tx_step]. cbn [negb andb].
  tx_step. eapply wpt_mono; [apply principal_blocks_spec| |done].
  intros blocked d' [-> ->]. destruct (principal_admits _ _ _ _ _); [|by tx_step]. cbn [negb andb].
  destruct (balance_usdc c <? amount) eqn:Hamt; case_bool.
  { rewrite (proj2 (Z.leb_gt _ _)) by lia. by tx_step. }
  rewrite (proj2 (Z.leb_le _ _)) by lia.
  tx_step. tx_step; [done|]. destruct (set_balance _ _ _ _) as [[[] d1]|e] eqn:Hset; [|done].
  apply set_balance_ok in Hset; [|by eauto]. split; [|done].
  tx_step. tx_step. tx_step. tx_step; [done|].
  destruct (insert_ledger _ _) as [[[] d2]|e] eqn:Hins; [|done]. split; [|done].
  tx_step. eexists. split; [done|]. rewrite <- Hbal in *.
  eapply insert_ledger_posted; [exact Hins|done|]. cbn. lia.
Qed.
End debit_spec.

Section credit_lemmas.
Context (cfg : Settings) (uuid : nat → string).

Lemma invalidate_quietly_solo org d x :
  wps (invalidate_quietly org)
    (λ r d' x', r = Ok tt ∧ d' = d ∧ slot (_get_daily_spend_cache org) x' = empty_slot) d x.
Proof.
  unfold invalidate_quietly, invalidate_daily_spend. solo_step.
  eapply wps_mono; [apply cache_invalidate_solo|].
  - intros s y. cbn. by rewrite lookup_insert_eq.
  - done.
  - by intros r d' x' (-> & -> & ?).
Qed.

Lemma invalidate_quietly_inv P org : wpi (on_db P) (invalidate_quietly org) (λ r, r = Ok tt).
Proof.
  unfold invalidate_quietly, invalidate_daily_spend. inv_step.
  eapply wpi_mono; [apply cache_invalidate_inv|]. by intros r ->.
Qed.

Lemma debit_admissible_limits now org amount pid d :
  debit_admissible cfg now org amount pid d = true →
  ∃ c source, credit_account org d = Some (c, source) ∧ credit_is_paused c = false ∧
    amount ≤ balance org d ∧
    (0 < effective_limit cfg source (spending_limit_usdc c) →
     daily_debit_spend now org d + amount ≤ effective_limit cfg source (spending_limit_usdc c)) ∧
    (∀ p pl, truthy_id pid = Some p → principal_limits d !! (org, p) = Some pl →
     principal_is_paused pl = false ∧
     daily_principal_debit_spend now org p d + amount ≤ daily_limit_usdc pl).
Proof.
  unfold debit_admissible, org_limit_admits, principal_admits.
  destruct (credit_account org d) as [[c source]|] eqn:Hacc; [|done]. intros Had.
  destruct (credit_account_balance _ _ _ _ Hacc) as [_ Hbal]. case_bool.
  exists c, source. rewrite Hbal. split_and!; try done.
  - intros Hl. apply orb_true_iff in H2 as [?|?]; case_bool; lia.
  - intros p pl Hp Hpl. rewrite Hp, Hpl in H1. by case_bool.
Qed.

(** A posted debit is a new row of the window, reverses nothing and is not reversed. *)
Lemma reversal_of_posted r d d' id :
  posted r d d' → l_reverses r = None → reversal_of id d' = reversal_of id d.
Proof.
  intros Hp Hr. unfold reversal_of. rewrite (ledger_posted _ _ _ Hp).
  induction (ledger d) as [|a l IH]; simpl; [by rewrite Hr, bool_decide_false|].
  by case_bool_decide.
Qed.

Lemma new_row_not_reversed r d :
  books d → ledger_conflict r d = false → reversal_of (l_id r) d = None.
Proof.
  intros Hbk Hc. unfold reversal_of. apply find_none_spec. intros r' Hr'.
  apply bool_decide_eq_false. intros Heq. destruct (books_reversed d Hbk r' _ Hr' Heq) as (q & Hq & Hid).
  unfold ledger_conflict in Hc. case_bool. apply H. unfold ledger_row.
  destruct (find _ _) eqn:Hfind; [done|]. rewrite find_none_spec in Hfind.
  specialize (Hfind q Hq). by case_bool.
Qed.

Lemma window_after_debit now org amount reason pid d id d' (f : LedgerRow → bool) :
  books d → posted (debit_entry now org amount reason pid d id) d d' →
  f (debit_entry now org amount reason pid d id) = true →
  lsum (λ r, if counts_as_spend now org d' r && f r then l_amount r else 0) (ledger d') =
  lsum (λ r, if counts_as_spend now org d r && f r then l_amount r else 0) (ledger d) + amount.
Proof.
  intros Hbk Hp Hf. set (r := debit_entry now org amount reason pid d id) in *.
  rewrite (ledger_posted _ _ _ Hp), lsum_snoc, Hf, andb_true_r.
  assert (∀ q, counts_as_spend now org d' q = counts_as_spend now org d q) as Hc.
  { intros q. unfold counts_as_spend. by rewrite (reversal_of_posted _ _ _ _ Hp). }
  assert (counts_as_spend now org d r = true) as Hr.
  { destruct Hp as (d1 & _ & _ & _ & _ & Hconf & _). unfold counts_as_spend.
    rewrite new_row_not_reversed by done. cbn. rewrite !bool_decide_true by done.
    cbn. unfold hours, seconds, microsecond_per_second. rewrite andb_true_r. lia. }
  rewrite Hc, Hr. f_equal. apply lsum_ext. intros q _. by rewrite Hc.
Qed.

Lemma spend_after_debit now org amount reason pid d id d' :
  books d → posted (debit_entry now org amount reason pid d id) d d' →
  daily_debit_spend now org d' = daily_debit_spend now org d + amount.
Proof.
  intros Hbk Hp. unfold daily_debit_spend.
  pose proof (window_after_debit _ _ _ _ _ _ _ _ (λ _, true) Hbk Hp eq_refl) as Hw.
  etrans; [|etrans; [exact Hw|]].
  - apply lsum_ext. intros. by rewrite andb_true_r.
  - f_equal. apply lsum_ext. intros. by rewrite andb_true_r.
Qed.

Lemma truthy_id_some pid p : truthy_id pid = Some p → pid = Some p.
Proof. unfold truthy_id. by repeat case_match; intros [= ->]. Qed.

Lemma principal_spend_after_debit now org amount reason pid p d id d' :
  truthy_id pid = Some p → books d → posted (debit_entry now org amount reason pid d id) d d' →
  daily_principal_debit_spend now org p d' = daily_principal_debit_spend now org p d + amount.
Proof.
  intros Hpid Hbk Hp.
  apply (window_after_debit _ _ _ _ _ _ _ _ (λ r, bool_decide (l_principal r = Some p)) Hbk Hp).
  apply bool_decide_eq_true. by apply truthy_id_some.
Qed.
End credit_lemmas.

(** ** Properties of the debit *)
Section debit_properties.
Context (cfg : Settings) (uuid : nat → string).

Lemma debit_credit_spec org amount reason pid d x :
  0 < amount →
  wps (debit_credit cfg uuid org amount reason pid)
    (λ r d' x', ∃ ok n, r = Ok (ok, n) ∧
       if ok : bool then
         n = amount ∧ slot (_get_daily_spend_cache org) x' = empty_slot ∧
         ∃ now id, debit_admissible cfg now org amount pid d = true ∧
                   posted (debit_entry now org amount reason pid d id) d d'
       else n = 0 ∧ d' = d) d x.
Proof.
  intros Hpos. unfold debit_credit. rewrite (proj2 (Z.leb_gt _ _)) by lia.
  solo_step. solo_step. solo_step; [by solo_step; eexists _, _|]. intros now.
  eapply wpt_mono; [apply debit_credit_locked_spec| |by intros; solo_step; eexists _, _].
  intros r d' Hr. unfold debit_outcome in Hr. destruct (debit_admissible _ _ _ _ _ _) eqn:Had.
  - destruct Hr as (id & -> & Hp). cbn. solo_step.
    eapply wps_mono; [apply invalidate_quietly_solo|]. intros r d1 x1 (-> & -> & Hs).
    solo_step. eexists _, _. split; [done|]. cbn. eauto 10.
  - destruct Hr as [-> ->]. cbn. solo_auto. eexists _, _. by split.
Qed.
End debit_properties.

(** C10. The debit is all or nothing.  However statements fail, [debit_credit] never
    raises; when it reports success the debit was admissible in the database it ran
    against, exactly one ledger row of the full amount was posted (and nothing else
    changed) and the cached daily spend is dropped; when it reports failure the
    database is untouched. *)
Theorem debit_credit_all_or_nothing (cfg : Settings) (uuid : nat → string) (org : string) (amount : Z)
    (reason : string) (pid : option string) (w : World Db Ext) :
  solo w → 0 < amount →
  let '(r, w') := debit_credit cfg uuid org amount reason pid w in
  ∃ ok n, r = Ok (ok, n) ∧
    if ok : bool then
      n = amount ∧ slot (_get_daily_spend_cache org) (ext w') = empty_slot ∧
      ∃ now id, debit_admissible cfg now org amount pid (db w) = true ∧
                posted (debit_entry now org amount reason pid (db w) id) (db w) (db w')
    else n = 0 ∧ db w' = db w.
Proof.
  intros Hw Hpos. pose proof (debit_credit_spec cfg uuid org amount reason pid (db w) (ext w) Hpos w Hw
    eq_refl eq_refl) as H. destruct (debit_credit _ _ _ _ _ _ _). apply H.
Qed.

(** A successful debit respects every limit in force: the balance stays
    non-negative and drops by exactly the amount, the rolling 24-hour spend of the
    organisation, debit included, is within its effective limit, and so is the
    principal's. *)
Theorem debit_within_limits (cfg : Settings) (uuid : nat → string) (org : string) (amount : Z)
    (reason : string) (pid : option string) (w : World Db Ext) :
  solo w → books (db w) → 0 < amount →
  let '(r, w') := debit_credit cfg uuid org amount reason pid w in
  r = Ok (true, amount) →
  ∃ now c source, credit_account org (db w) = Some (c, source) ∧ credit_is_paused c = false ∧
    balance org (db w') = balance org (db w) - amount ∧ 0 ≤ balance org (db w') ∧
    (let limit := effective_limit cfg source (spending_limit_usdc c) in
     0 < limit → daily_debit_spend now org (db w') ≤ limit) ∧
    (∀ p pl, pid = Some p → p ≠ "" → principal_limits (db w) !! (org, p) = Some pl →
       principal_is_paused pl = false ∧
       daily_principal_debit_spend now org p (db w') ≤ daily_limit_usdc pl).
Proof.
  intros Hw Hbk Hpos. pose proof (debit_credit_spec cfg uuid org amount reason pid (db w) (ext w) Hpos w Hw
    eq_refl eq_refl) as H. destruct (debit_credit _ _ _ _ _ _ _) as [r w'].
  destruct H as (_ & ok & n & -> & Hok). intros [= -> ->].
  destruct Hok as (_ & _ & now & id & Had & Hp).
  destruct (debit_admissible_limits _ _ _ _ _ _ Had) as (c & source & Hacc & Hpause & Hbal & Hlim & Hprin).
  exists now, c, source. rewrite (balance_posted _ _ _ org Hp).
  unfold org_signed. cbn. rewrite bool_decide_true by done. cbn.
  split_and!; try done; try lia.
  - intros Hl. rewrite (spend_after_debit _ _ _ _ _ _ _ _ Hbk Hp). auto.
  - intros p pl Hpid Hne Hpl. assert (truthy_id pid = Some p) as Ht.
    { subst pid. cbn. by rewrite bool_decide_false. }
    destruct (Hprin p pl Ht Hpl) as [? ?].
    by rewrite (principal_spend_after_debit _ _ _ _ _ _ _ _ _ Ht Hbk Hp).
Qed.

(** ** The credit component as a transition system

    Every database change a credit handler commits is one of these steps. *)
Definition plain_topup (org : string) (amount : Z) (r : LedgerRow) : Prop :=
  l_org r = org ∧ l_op r = Topup ∧ l_amount r = amount ∧ l_reverses r = None.

Lemma plain_topup_row org amount id b reason pid ref now :
  plain_topup org amount (MkLedger id org Topup amount b reason pid ref None now).
Proof. done. Qed.
#[export] Hint Resolve plain_topup_row : teardrop.

Inductive credit_step (cfg : Settings) : Db → Db → Prop :=
  | step_debit now org amount reason pid id d d' :
      debit_admissible cfg now org amount pid d = true →
      posted (debit_entry now org amount reason pid d id) d d' →
      credit_step cfg d d'
  | step_topup org amount r d d' :
      plain_topup org amount r → posted r d d' → credit_step cfg d d'
  | step_credential c d d' u :
      insert_credential c d = Ok (u, d') → credit_step cfg d d'
  | step_onboarding org amount r p d d0 d1 d' u :
      d0 = d ∨ (∃ c u0, insert_credential c d = Ok (u0, d0)) →
      plain_topup org amount r → posted r d0 d1 →
      insert_provisioning p d1 = Ok (u, d') →
      credit_step cfg d d'
  | step_grant org amount r d d1 d' :
      insert_grant org (MkGrant amount (l_id r)) d = Ok (Some amount, d1) →
      plain_topup org amount r → posted r d1 d' → credit_step cfg d d'
  | step_grant_outbox q d :
      credit_step cfg d (d <| grant_outbox := q |>)
  | step_config org c limit paused now d :
      credits d !! org = Some c →
      credit_step cfg d (d <| credits ::= <[org := c <| spending_limit_usdc := limit |>
        <| credit_is_paused := paused |> <| credit_updated_at := now |>]> |>).

Lemma insert_grant_some org g d a d1 :
  insert_grant org g d = Ok (Some a, d1) →
  a = g_amount g ∧ grants d !! org = None ∧ d1 = d <| grants ::= <[org := g]> |>.
Proof. unfold insert_grant. repeat case_match; naive_solver. Qed.

Lemma insert_grant_none org g d d1 :
  insert_grant org g d = Ok (None, d1) → is_Some (grants d !! org) ∧ d1 = d.
Proof. unfold insert_grant. repeat case_match; naive_solver. Qed.

Section credit_commits.
Context (cfg : Settings) (uuid token_urlsafe : nat → string) (_hash_secret : string → string * string).
Abbreviation G := (credit_step cfg).

Lemma debit_credit_commits org amount reason pid :
  commits G (debit_credit cfg uuid org amount reason pid).
Proof.
  intros P HP. unfold debit_credit. do 2 inv_step; [by inv_step|]. do 3 inv_step; [by inv_step|].
  intros now d x Hd. eapply wpt_mono; [apply debit_credit_locked_spec| |by intros; inv_step].
  intros r d' Hr. unfold debit_outcome in Hr. destruct (debit_admissible _ _ _ _ _ _) eqn:Had.
  - destruct Hr as (id & -> & Hp). split; [by eapply HP; [|eapply step_debit]|]. cbn. inv_step.
    eapply wpi_mono; [apply invalidate_quietly_inv|]. intros r ->. by inv_step.
  - destruct Hr as [-> ->]. split; [done|]. cbn. by inv_auto.
Qed.

Lemma admin_topup_commits org amount reason ref :
  commits G (admin_topup_credit uuid org amount reason ref).
Proof.
  intros P HP. unfold admin_topup_credit.
  assert (∀ e, wpi (on_db P) (if is_unique_violation e then
      match ref with
      | None => raise e
      | Some ref =>
          existing ← query (λ _ d, ledger_by_ref ref d);
          match existing with
          | Some r =>
              if bool_decide (l_org r = org) && (l_amount r =? amount)
              then query (λ _ d, default 0 (balance_usdc <$> credits d !! org))
              else raise e
          | None => raise e
          end
      end else raise e) (λ _, True)) as Hh.
  { intros e. inv_auto. }
  do 2 inv_step. inv_step; [apply Hh|]. intros now d x Hd.
  tx_step. apply wpt_upsert_credit; [done|]. intros d1 Ha. tx_step. tx_step. tx_step.
  eapply wpt_insert_ledger; [done|exact Ha|done|].
  intros d2 Hp. tx_step. split; [|done]. eapply HP; [exact Hd|]. eapply step_topup; eauto with teardrop.
Qed.

Lemma create_credential_tx now org scope (E : exn → Prop) (Q : Credential * string → Db → Prop) d :
  (∀ e, E e) →
  (∀ c s u d1, insert_credential c d = Ok (u, d1) → c_org c.2 = org → c_scope c.2 = scope → Q (c, s) d1) →
  wpt now (create_client_credential_in_transaction uuid token_urlsafe _hash_secret org scope)
    Q (λ e _, E e) d.
Proof.
  intros HE HQ. unfold create_client_credential_in_transaction.
  tx_step. tx_step. tx_step. tx_step. destruct (_hash_secret _) as [hashed salt].
  tx_step. tx_step. tx_step. tx_step; [done|].
  destruct (insert_credential _ _) as [[[] d1]|e] eqn:Hi; [|done]. split; [|done].
  tx_step. by eapply HQ.
Qed.

(** What the settlement of a bootstrap payment may do. *)
Definition onboarding_outcome (org : string) (amount : Z) (ref : string) (d d' : Db) : Prop :=
  match ledger_by_ref ref d with
  | Some r =>
      l_org r = org ∧ l_amount r = amount ∧
      (d' = d ∨ ∃ c u, insert_credential c d = Ok (u, d') ∧ c_org c.2 = org)
  | None =>
      ∃ r p d0 d1 u, (d0 = d ∨ ∃ c u0, insert_credential c d = Ok (u0, d0) ∧ c_org c.2 = org) ∧
        plain_topup org amount r ∧ l_external_ref r = Some ref ∧ posted r d0 d1 ∧
        insert_provisioning p d1 = Ok (u, d')
  end.

Lemma record_onboarding_tx now org amount ref payer chain_id tx d (E : exn → Prop)
    (Q : Credential * option string → Db → Prop) :
  (∀ e, E e) →
  (∀ c d', onboarding_outcome org amount ref d d' → Q c d') →
  wpt now (record_onboarding_locked uuid token_urlsafe _hash_secret org amount ref payer chain_id tx)
    Q (λ e _, E e) d.
Proof.
  intros HE HQ. unfold record_onboarding_locked, onboarding_outcome in *.
  tx_step. tx_step; [done|]. tx_step. tx_step; [done|].
  destruct (ledger_by_ref ref d) as [r|] eqn:Href.
  - tx_step; [by tx_step|]. case_bool. apply dec_stable in H. tx_step. tx_step; [done|].
    destruct (oldest_active_credential org d); [tx_step; apply HQ; auto|].
    tx_step. apply create_credential_tx; [done|]. intros c s u d1 Hi Hc _. tx_step. apply HQ.
    split_and!; try done. right. by exists c, u.
  - tx_step. tx_step; [done|]. tx_step.
    apply (wpt_mono _ _ (λ _ d0, d0 = d ∨ ∃ c u, insert_credential c d = Ok (u, d0) ∧ c_org c.2 = org)
      _ (λ e _, E e)); [| |done].
    { destruct (oldest_active_credential org d); [tx_step; auto|]. tx_step.
      apply create_credential_tx; [done|]. intros c s u d1 Hi Hc _. tx_step. right. by exists c, u. }
    intros c d0 H0. tx_step. apply wpt_upsert_credit; [done|]. intros d1 Ha.
    tx_step. tx_step. tx_step.
    eapply wpt_insert_ledger; [done|exact Ha|done|].
    intros d2 Hp. tx_step. tx_step. tx_step. tx_step; [done|].
    destruct (insert_provisioning _ _) as [[[] d3]|e] eqn:Hi; [|done]. split; [|done]. tx_step.
    apply HQ. eexists _, _, d0, d2, tt. split_and!; by eauto with teardrop.
Qed.

Lemma record_onboarding_commits org amount ref payer chain_id tx :
  commits G (record_onboarding_settlement uuid token_urlsafe _hash_secret org amount ref payer chain_id tx).
Proof.
  intros P HP. unfold record_onboarding_settlement. inv_auto. intros now d x H.
  apply record_onboarding_tx; [done|]. intros c d' Ho. split; [|done].
  unfold onboarding_outcome in Ho. destruct (ledger_by_ref ref d).
  - destruct Ho as (_ & _ & [->|(c0 & u & Hi & _)]); [done|]. eapply HP; [exact H|].
    by eapply step_credential.
  - destruct Ho as (r & p & d0 & d1 & u & H0 & Hr & _ & Hp & Hi). eapply HP; [exact H|].
    eapply step_onboarding; [|exact Hr|exact Hp|exact Hi]. naive_solver.
Qed.

Definition grant_outcome (org : string) (amount n : Z) (d d' : Db) : Prop :=
  (n = 0 ∧ is_Some (grants d !! org) ∧ d' = d) ∨
  (n = amount ∧ ∃ r d1, insert_grant org (MkGrant amount (l_id r)) d = Ok (Some amount, d1) ∧
     plain_topup org amount r ∧ posted r d1 d').

Lemma grant_tx now org amount d (E : exn → Prop) (Q : Z → Db → Prop) :
  (∀ e, E e) → (∀ n d', grant_outcome org amount n d d' → Q n d') →
  wpt now (grant_onboarding_locked uuid org amount) Q (λ e _, E e) d.
Proof.
  intros HE HQ. unfold grant_onboarding_locked. tx_step. tx_step. tx_step. tx_step; [done|].
  destruct (insert_grant _ _ _) as [[[a|] d1]|e] eqn:Hi; [| |done]; (split; [|done]).
  - destruct (insert_grant_some _ _ _ _ _ Hi) as (-> & _). cbn in *.
    tx_step. apply wpt_upsert_credit; [done|]. intros d2 Ha. tx_step.
    eapply wpt_insert_ledger; [done|exact Ha|done|]. intros d3 Hp. tx_step.
    apply HQ. right. split; [done|]. refine (ex_intro _ _ (ex_intro _ d1 (conj _ (conj _ Hp)))); done.
  - apply insert_grant_none in Hi as [? ->]. tx_step. apply HQ. by left.
Qed.

Lemma grant_commits org amount : commits G (grant_onboarding_credit uuid org amount).
Proof.
  intros P HP. unfold grant_onboarding_credit. inv_auto. intros now d x H. apply grant_tx; [done|].
  intros n d' [(_ & _ & ->)|(_ & r & d1 & Hi & Hr & Hp)]; split; try done.
  eapply HP; [exact H|]. by eapply step_grant.
Qed.

Lemma clear_outbox_commits org : commits G (clear_onboarding_credit_outbox org).
Proof.
  intros P HP. unfold clear_onboarding_credit_outbox. inv_step. apply wpi_stmt_on_db; [done|].
  intros now d a d' Hd [= <- <-]. eapply HP; [exact Hd|]. apply (step_grant_outbox cfg (delete org _)).
Qed.

Lemma process_outbox_commits n : commits G (process_onboarding_credit_outbox uuid n).
Proof.
  intros P HP. unfold process_onboarding_credit_outbox. do 2 inv_step. inv_step; [done|].
  intros now d x _. apply (wpi_for_each _ _ _ _ (λ _, True)); [done..|]. intros acc [org r] _ _.
  do 2 inv_step. eapply wpi_mono; [by apply grant_commits|].
  assert (∀ e, wpi (on_db P)
    (catch (stmt (note_outbox_failure org (String.substring 0 500 (exn_str e)))) (λ _, mret tt);;
     mret acc) (λ _, True)) as Hh.
  { intros e. inv_step. inv_step. apply wpi_stmt_on_db; [intros []; by inv_auto|].
    intros now' d1 a d1' Hd [= <- <-]. eapply HP; [exact Hd|]. apply (step_grant_outbox cfg (alter _ _ _)). }
  intros [a|e] _; [|by eapply wpi_mono; [apply Hh|intros []]]. inv_step. eapply wpi_mono; [by apply clear_outbox_commits|].
  intros [[]|e] _; [by inv_step|by eapply wpi_mono; [apply Hh|intros []]].
Qed.

Lemma daily_spend_loader_inv P org : preserves (on_db P) (loader (_get_daily_spend_cache org)).
Proof. cbn. unfold _get_daily_debit_spend. inv_auto. Qed.

Lemma get_config_inv P org : preserves (on_db P) (get_org_spending_config cfg org).
Proof.
  unfold get_org_spending_config. do 2 inv_step. inv_step; [done|]. intros now d x _. inv_step.
  eapply wpi_mono; [apply cache_get_inv, daily_spend_loader_inv|]. intros r [v ->]. by inv_step.
Qed.

Lemma update_config_commits org limit paused :
  commits G (update_org_spending_config cfg org limit paused).
Proof.
  intros P HP. unfold update_org_spending_config.
  assert (wpi (on_db P) (c ← get_org_spending_config cfg org; mret (Some c)) (λ _, True)) as Hget.
  { inv_step. eapply wpi_mono; [apply get_config_inv|]. intros [c|e] _; by inv_auto. }
  destruct (match limit with Some l => l <? 0 | None => false end) eqn:Hl; [by inv_auto|].
  assert (wpi (on_db P)
    (updated ← stmt (λ now d,
       match credits d !! org with
       | None => Ok (false, d)
       | Some c =>
           if match limit with Some l => negb (is_bigint l) | None => false end
           then Raise DataError
           else Ok (true, d <| credits ::= <[org :=
             c <| spending_limit_usdc ::= λ l, default l limit |>
               <| credit_is_paused ::= λ p, default p paused |>
               <| credit_updated_at := now |>]> |>)
       end);
     if updated : bool then c ← get_org_spending_config cfg org; mret (Some c) else mret None)
    (λ _, True)); [|by destruct limit, paused].
  inv_step. apply wpi_stmt_on_db; [intros [[]|]; by inv_auto|].
  intros now d a d' Hd Hu. destruct (credits d !! org) as [c|] eqn:Hc; [|by injection Hu as <- <-].
  case_match; [done|]. injection Hu as <- <-. eapply HP; [exact Hd|].
  by eapply (step_config _ _ _ (default (spending_limit_usdc c) limit)
               (default (credit_is_paused c) paused)).
Qed.
End credit_commits.

Section credit_properties.
Context (cfg : Settings) (uuid token_urlsafe : nat → string) (_hash_secret : string → string * string).

Lemma credit_step_books d d' : books d → credit_step cfg d d' → books d'.
Proof.
  intros Hbk Hs. destruct Hs.
  - by eapply books_posted.
  - by eapply books_posted.
  - unfold insert_credential in H. repeat case_match; try done. injection H as <- <-.
    by eapply books_same.
  - assert (books d0) as Hbk0.
    { destruct H as [->|(c & u0 & Hi)]; [done|]. unfold insert_credential in Hi.
      repeat case_match; try done. injection Hi as <- <-. by eapply books_same. }
    assert (books d1) as Hbk1 by by eapply books_posted.
    unfold insert_provisioning in H2. repeat case_match; try done. injection H2 as <- <-.
    by eapply books_same.
  - destruct (insert_grant_some _ _ _ _ _ H) as (_ & _ & ->).
    eapply books_posted; [|done]. by eapply books_same.
  - by eapply books_same.
  - eapply books_same; [done..|]. intros o. cbn. destruct (decide (org = o)) as [->|].
    + by rewrite lookup_insert_eq, H.
    + by rewrite lookup_insert_ne.
Qed.

Lemma ledger_by_ref_app ref l1 l2 :
  find (λ r, bool_decide (l_external_ref r = Some ref)) l1 = None →
  find (λ r, bool_decide (l_external_ref r = Some ref)) (l1 ++ l2) =
  find (λ r, bool_decide (l_external_ref r = Some ref)) l2.
Proof. induction l1 as [|a l1 IH]; simpl; [done|]. by case_bool_decide. Qed.

(** A posting with a reference is the row the reference finds afterwards. *)
Lemma posted_ref r ref d d' :
  posted r d d' → l_external_ref r = Some ref →
  ledger_by_ref ref d = None ∧ ledger_by_ref ref d' = Some r.
Proof.
  intros Hp Hr. assert (ledger_by_ref ref d = None) as Hn.
  { destruct Hp as (_ & _ & _ & _ & _ & Hc & _). unfold ledger_conflict in Hc. rewrite Hr in Hc.
    case_bool. by apply eq_None_not_Some. }
  split; [done|]. unfold ledger_by_ref in *. rewrite (ledger_posted _ _ _ Hp), ledger_by_ref_app by done.
  simpl. by rewrite Hr, bool_decide_true.
Qed.

Definition topup_outcome (org : string) (amount : Z) (ref : string) (d : Db) (r : res Z) (d' : Db) : Prop :=
  match ledger_by_ref ref d with
  | Some row => d' = d ∧ ∀ b, r = Ok b → l_org row = org ∧ l_amount row = amount ∧ b = balance org d
  | None => (∃ row, plain_topup org amount row ∧ l_external_ref row = Some ref ∧
                    posted row d d' ∧ r = Ok (balance org d')) ∨
            (d' = d ∧ ∃ e, r = Raise e)
  end.

Lemma topup_outcome_raise org amount ref d e : topup_outcome org amount ref d (Raise e) d.
Proof. unfold topup_outcome. destruct (ledger_by_ref ref d); [by split|eauto]. Qed.

Lemma admin_topup_spec org amount reason ref d x :
  wps (admin_topup_credit uuid org amount reason (Some ref))
    (λ r d' _, topup_outcome org amount ref d r d') d x.
Proof.
  pose proof (topup_outcome_raise org amount ref d) as HQ.
  unfold admin_topup_credit. solo_step.
  match goal with |- wps _ ?QQ _ _ => assert (∀ e, QQ (Raise e) d x) as HE end.
  { intros e. solo_step; [|by solo_step]. solo_step. solo_step; [done|]. intros _.
    destruct (ledger_by_ref ref d) as [row|] eqn:Hrow; [|by solo_step].
    solo_step; [|by solo_step]. case_bool. solo_step; [done|]. intros _. unfold topup_outcome.
    rewrite Hrow. split; [done|]. by intros b [= <-]. }
  solo_step; [apply HE|]. intros now. tx_step. apply wpt_upsert_credit; [done|]. intros d1 Ha.
  tx_step. tx_step. tx_step. eapply wpt_insert_ledger; [done|exact Ha|done|]. intros d2 Hp. tx_step.
  destruct (posted_ref _ ref _ _ Hp eq_refl) as [Hn _]. unfold topup_outcome. rewrite Hn. left.
  eexists. split_and!; [apply plain_topup_row|done|exact Hp|].
  rewrite (balance_posted _ _ _ org Hp). unfold org_signed. cbn. by rewrite bool_decide_true.
Qed.
End credit_properties.

(** A top-up with an external reference is applied exactly once.  If the
    reference is new, either one top-up row carrying it is posted and the new balance
    returned, or the call raises and nothing changed; if the reference was already
    used, nothing changes, and the call succeeds only when it repeats the same
    organisation and amount. *)
Theorem topup_exactly_once (uuid : nat → string) (org : string) (amount : Z) (reason ref : string)
    (w : World Db Ext) :
  solo w →
  let '(r, w') := admin_topup_credit uuid org amount reason (Some ref) w in
  match ledger_by_ref ref (db w) with
  | Some row => db w' = db w ∧
      ∀ b, r = Ok b → l_org row = org ∧ l_amount row = amount ∧ b = balance org (db w)
  | None => (∃ row, plain_topup org amount row ∧ l_external_ref row = Some ref ∧
                    posted row (db w) (db w') ∧ r = Ok (balance org (db w'))) ∨
            (db w' = db w ∧ ∃ e, r = Raise e)
  end.
Proof.
  intros Hw. pose proof (admin_topup_spec uuid org amount reason ref (db w) (ext w) w Hw eq_refl eq_refl).
  destruct (admin_topup_credit _ _ _ _ _ _). by destruct H.
Qed.

(** A bootstrap payment is credited exactly once.  If the call raises nothing
    changed; if it succeeds the ledger holds a row for the payment reference with this
    organisation and amount, and the balance of the organisation rose by the amount if
    the reference was new and not at all if it was a replay; no other balance moves. *)
Theorem onboarding_credits_once (uuid token_urlsafe : nat → string) (hash : string → string * string)
    (org : string) (amount : Z) (ref payer : string) (chain_id : Z) (tx : string) (w : World Db Ext) :
  solo w →
  let '(r, w') := record_onboarding_settlement uuid token_urlsafe hash org amount ref payer chain_id tx w in
  match r with
  | Raise _ => db w' = db w
  | Ok _ =>
      (∃ row, ledger_by_ref ref (db w') = Some row ∧ l_org row = org ∧ l_amount row = amount) ∧
      ∀ org', balance org' (db w') = balance org' (db w) +
        (if bool_decide (org' = org) && bool_decide (ledger_by_ref ref (db w) = None) then amount else 0)
  end.
Proof.
  intros Hw.
  assert (wps (record_onboarding_settlement uuid token_urlsafe hash org amount ref payer chain_id tx)
    (λ r d' _, match r with Raise _ => d' = db w | Ok _ => onboarding_outcome org amount ref (db w) d' end)
    (db w) (ext w)) as H.
  { unfold record_onboarding_settlement. solo_step; [by solo_step|]. solo_step; [by solo_step|].
    solo_step; [done|]. intros now. by apply record_onboarding_tx. }
  specialize (H w Hw eq_refl eq_refl). destruct (record_onboarding_settlement _ _ _ _ _ _ _ _ _ _) as [r w'].
  destruct H as [_ H]. destruct r as [c|e]; [|done]. unfold onboarding_outcome in H.
  destruct (ledger_by_ref ref (db w)) as [row|] eqn:Href.
  - destruct H as (Ho & Ha & [->|(c0 & u & Hi & _)]).
    + split; [by exists row|]. intros org'. rewrite andb_comm. cbn. lia.
    + unfold insert_credential in Hi. repeat case_match; try done. injection Hi as <- <-.
      split; [by exists row|]. intros org'. rewrite andb_comm. cbn. unfold balance. cbn. lia.
  - destruct H as (row & p & d0 & d1 & u & H0 & (Ho & Hop & Hamt & _) & Hr & Hp & Hi).
    assert (ledger_by_ref ref (db w') = ledger_by_ref ref d1 ∧ ∀ o, balance o (db w') = balance o d1) as [Hl Hb].
    { unfold insert_provisioning in Hi. repeat case_match; try done. by injection Hi as <- <-. }
    assert (∀ o, balance o d0 = balance o (db w)) as Hb0.
    { destruct H0 as [->|(c0 & u0 & Hc & _)]; [done|]. unfold insert_credential in Hc.
      repeat case_match; try done. by injection Hc as <- <-. }
    split; [exists row; split_and!; try done; by rewrite Hl; apply (posted_ref _ _ _ _ Hp Hr)|].
    intros org'. rewrite Hb, (balance_posted _ _ _ org' Hp), Hb0, andb_true_r.
    unfold org_signed, signed. rewrite Hop, Hamt, Ho. by repeat case_bool_decide; subst.
Qed.

(** The signup grant is given at most once per organisation.  If the call raises
    nothing changed; if the organisation already has a grant marker the call grants 0
    and nothing changes; otherwise the marker is written, the balance rises by exactly
    the amount, and the marker names the ledger row of the grant. *)
Theorem grant_at_most_once (uuid : nat → string) (org : string) (amount : Z) (w : World Db Ext) :
  solo w →
  let '(r, w') := grant_onboarding_credit uuid org amount w in
  match r with
  | Raise _ => db w' = db w
  | Ok n => is_Some (grants (db w') !! org) ∧
      match grants (db w) !! org with
      | Some _ => n = 0 ∧ db w' = db w
      | None => n = amount ∧ 0 < amount ∧
          balance org (db w') = balance org (db w) + amount ∧
          ∃ g row, grants (db w') !! org = Some g ∧ row ∈ ledger (db w') ∧
            l_id row = g_ledger_entry_id g ∧ plain_topup org amount row
      end
  end.
Proof.
  intros Hw.
  assert (wps (grant_onboarding_credit uuid org amount)
    (λ r d' _, match r with Raise _ => d' = db w | Ok n => grant_outcome org amount n (db w) d' end)
    (db w) (ext w)) as H.
  { unfold grant_onboarding_credit. solo_step; [by solo_step|]. solo_step; [done|]. intros now.
    by apply grant_tx. }
  specialize (H w Hw eq_refl eq_refl). destruct (grant_onboarding_credit _ _ _ _) as [r w'].
  destruct H as [_ H]. destruct r as [n|e]; [|done].
  destruct H as [(-> & [g Hg] & ->)|(-> & row & d1 & Hi & Hr & Hp)]; [by rewrite Hg|].
  destruct (insert_grant_some _ _ _ _ _ Hi) as (_ & Hn & ->). rewrite Hn.
  pose proof (balance_posted _ _ _ org Hp) as Hb. pose proof (ledger_posted _ _ _ Hp) as Hl.
  destruct Hp as (d2 & (c & -> & _) & Hd' & _ & Hpos & _), Hr as (Ho & Hop & Hamt & Hrev).
  assert (grants (db w') !! org = Some (MkGrant amount (l_id row))) as Hg.
  { rewrite Hd'. cbn. by rewrite lookup_insert_eq. }
  split; [by rewrite Hg|]. split_and!; [done|lia| |].
  - rewrite Hb. unfold org_signed, signed. rewrite Ho, Hop, Hamt, bool_decide_true by done. done.
  - exists (MkGrant amount (l_id row)), row. rewrite Hl. split_and!; try done.
    apply elem_of_app. right. by left.
Qed.

(** ** The preflight check and the debit agree *)
Section verify.
Context (cfg : Settings) (uuid : nat → string).

Lemma outstanding_nonneg now org d :
  (∀ k s, pending_settlements d !! k = Some s → 0 ≤ s_amount s) → 0 ≤ org_outstanding now org d.
Proof. intros Hp. apply msum_nonneg. intros k s Hk. specialize (Hp k s Hk). case_match; lia. Qed.

Lemma principal_outstanding_nonneg now org p d :
  (∀ k s, pending_settlements d !! k = Some s → 0 ≤ s_amount s) → 0 ≤ principal_outstanding now org p d.
Proof. intros Hp. apply msum_nonneg. intros k s Hk. specialize (Hp k s Hk). case_match; lia. Qed.

Lemma verify_principal_quiet org m owed pid w r :
  quiet w → verify_principal org m owed pid w = (Ok None, r) → 0 ≤ owed → ∀ a, a ≤ m →
  principal_admits (sql_now w) org a pid (db w) = true ∧ r = w.
Proof.
  intros Hq Hv Howed a Ha. unfold verify_principal, principal_admits in *.
  destruct (truthy_id pid) as [p|]; [|by injection Hv as <-].
  unfold mbind, M_bind, mret, M_ret in Hv. rewrite quiet_query in Hv by done.
  destruct (principal_limits (db w) !! (org, p)) as [pl|]; [|by injection Hv as <-].
  destruct (principal_is_paused pl); [done|]. unfold _get_daily_principal_debit_spend in Hv.
  rewrite quiet_query in Hv by done. cbn. case_match; [done|]. case_bool. injection Hv as <-.
  split; [|done]. lia.
Qed.
End verify.

(** The preflight check is sound for the debit.  If [verify_credit] verifies a
    minimum balance, then from the same state every debit of at most that amount is
    admitted by the authoritative rule: unpaid charges still queued only make the
    preflight stricter. *)
Theorem verified_implies_debit_admissible (cfg : Settings) (org : string) (m a : Z)
    (pid : option string) (w w' : World Db Ext) (b : BillingResult) :
  quiet w →
  (∀ k s, pending_settlements (db w) !! k = Some s → 0 ≤ s_amount s) →
  verify_credit cfg org m pid w = (Ok b, w') → verified b = true → 0 < a ≤ m →
  debit_admissible cfg (sql_now w) org a pid (db w) = true.
Proof.
  intros Hq Hp Hv Hb [Ha Ham]. unfold verify_credit in Hv.
  pose proof (outstanding_nonneg (sql_now w) org (db w) Hp) as Hout.
  unfold mbind, M_bind, mret, M_ret in Hv. rewrite quiet_query in Hv by done. cbv beta iota zeta in Hv.
  unfold debit_admissible. destruct (credit_account org (db w)) as [[c source]|] eqn:Hacc; cbn in Hv |- *;
    [|rewrite ?quiet_query in Hv by done; case_match; [by injection Hv as <-|case_bool; cbn in *; lia]].
  destruct (credit_is_paused c); [by injection Hv as <-|]. rewrite quiet_query in Hv by done. cbn in Hv.
  case_match eqn:Hbal; [injection Hv as <- _; by destruct (is_machine_source _)|]. case_bool. cbn [negb andb].
  unfold _get_daily_debit_spend in Hv. fold (effective_limit cfg source (spending_limit_usdc c)) in Hv.
  assert (org_limit_admits (sql_now w) org a (effective_limit cfg source (spending_limit_usdc c)) (db w) = true
    ∧ (∃ r, verify_principal org m (match truthy_id pid with
        | Some _ => match pid with Some p => principal_outstanding (sql_now w) org p (db w) | None => 0 end
        | None => 0 end) pid w = (Ok None, r))) as [-> [r Hr]].
  { unfold org_limit_admits. destruct (0 <? effective_limit _ _ _) eqn:Hl; case_bool.
    - rewrite quiet_query in Hv by done. cbn in Hv. destruct (_ <? _) eqn:Hd; [by injection Hv as <-|].
      case_bool. split; [lia|].
      destruct (verify_principal _ _ _ _ _) as [[[msg|]|e] w1]; [by injection Hv as <-|by eexists|done].
    - split; [lia|]. cbn in Hv.
      destruct (verify_principal _ _ _ _ _) as [[[msg|]|e] w1]; [by injection Hv as <-|by eexists|done]. }
  apply verify_principal_quiet with (a := a) in Hr as [-> _]; [| |repeat case_match; try done;
    by apply principal_outstanding_nonneg|lia]; [cbn; lia|done].
Qed.

(** ** Progress: nothing but a fault can stop an admissible debit *)
Section debit_progress.
Context (cfg : Settings) (uuid : nat → string).

Lemma find_fresh {A} (f : A → bool) l : (∀ a, a ∈ l → f a = false) → find f l = None.
Proof. by rewrite find_none_spec. Qed.

Lemma debit_insert_ok now org amount reason pid d d1 id :
  books d → adjusted org (balance org d - amount) d d1 → is_Some (orgs d !! org) →
  0 < amount → is_bigint amount = true → (∀ r, r ∈ ledger d → l_id r ≠ id) →
  ∃ d2, insert_ledger (debit_entry now org amount reason pid d id) d1 = Ok (tt, d2).
Proof.
  intros Hbk (c & -> & _ & Hr & _) Horg Hpos Hbig Hfresh. unfold insert_ledger. cbn.
  rewrite Hbig. unfold is_bigint. rewrite (proj2 (Z.leb_le bigint_min _)), (proj2 (Z.leb_le _ bigint_max))
    by (unfold bigint_min; lia). cbn.
  rewrite (proj2 (Z.leb_gt _ _)), (proj2 (Z.ltb_ge _ _)) by lia. cbn.
  unfold ledger_conflict, ledger_row. cbn.
  rewrite find_fresh by (intros r Hin; apply bool_decide_eq_false; auto).
  rewrite bool_decide_false by (intros H; by destruct H). cbn. unfold ledger_references_ok. cbn.
  rewrite bool_decide_true by done. cbn. eauto.
Qed.

Lemma principal_blocks_quiet org amount pid w :
  principal_admits (sql_now w) org amount pid (db w) = true →
  wpq (principal_blocks org amount pid) (λ r w', r = Ok false ∧ w' = w) w.
Proof.
  unfold principal_blocks, principal_admits, _get_daily_principal_debit_spend. intros Had.
  destruct (truthy_id pid) as [p|]; [|by quiet_step]. quiet_step. quiet_step.
  destruct (principal_limits (db w) !! (org, p)) as [pl|]; [|by quiet_step]. case_bool. rewrite H.
  quiet_step. quiet_step. quiet_step. split; [|done]. f_equal. lia.
Qed.

Lemma debit_locked_quiet org amount reason pid w :
  books (db w) → debit_admissible cfg (sql_now w) org amount pid (db w) = true →
  0 < amount → is_bigint amount = true → (∀ r, r ∈ ledger (db w) → l_id r ≠ uuid (uuid_n w)) →
  wpq (_debit_credit_locked cfg uuid org amount reason pid)
    (λ r w', tx_now w' = tx_now w ∧ r = Ok (true, amount, Some (uuid (uuid_n w)))) w.
Proof.
  intros Hbk Had Hpos Hbig Hfresh. unfold debit_admissible in Had.
  unfold _debit_credit_locked, _get_daily_debit_spend. quiet_step. quiet_step.
  destruct (credit_account org (db w)) as [[c source]|] eqn:Hacc; [|done].
  destruct (credit_account_balance _ _ _ _ Hacc) as [Hc Hbal]. case_bool. rewrite H.
  quiet_step. eapply (wpq_mono _ (λ r w', r = Ok false ∧ w' = w)).
  { unfold org_limit_admits in H2. quiet_auto; case_bool; split; f_equal; lia. }
  intros r w' [-> ->]. quiet_step. eapply wpq_mono; [by apply principal_blocks_quiet|].
  intros r w' [-> ->]. rewrite (proj2 (Z.ltb_ge _ _)) by lia. quiet_step. quiet_step.
  pose proof (books_range (db w) Hbk org c Hc) as Hrange.
  destruct (set_balance org (balance_usdc c - amount) _ _) as [[[] d1]|e] eqn:Hset.
  2:{ unfold set_balance in Hset. rewrite Hc in Hset. unfold is_bigint, bigint_min in Hset.
      repeat case_match; try done; case_bool; lia. }
  pose proof (set_balance_ok _ _ _ _ _ _ Hset ltac:(eauto)) as Ha. rewrite <- Hbal in *.
  destruct (debit_insert_ok (sql_now w) org amount reason pid (db w) d1 (uuid (uuid_n w))) as [d2 Hins];
    try done.
  { unfold credit_account in Hacc. rewrite Hc in Hacc. cbn in Hacc. by destruct (orgs (db w) !! org). }
  quiet_step. quiet_step. quiet_step. quiet_step. unfold sql_now in *. cbn.
  unfold debit_entry in Hins. rewrite Hins. by quiet_step.
Qed.

Lemma invalidate_quietly_quiet org w : wpq (invalidate_quietly org) (λ r w', r = Ok tt ∧ db w' = db w) w.
Proof.
  unfold invalidate_quietly, invalidate_daily_spend, cache_invalidate, get_redis, redis_delete. quiet_auto.
Qed.
End debit_progress.

(** Progress of the debit: when nothing fails, a debit that the admission rule
    admits succeeds with the full amount.  (The supply of ids is fresh and the amount
    is a BIGINT.) *)
Theorem admissible_debit_succeeds (cfg : Settings) (uuid : nat → string) (org : string) (amount : Z)
    (reason : string) (pid : option string) (w : World Db Ext) :
  quiet w → tx_now w = None → books (db w) → 0 < amount ≤ bigint_max →
  (∀ r, r ∈ ledger (db w) → l_id r ≠ uuid (uuid_n w)) →
  debit_admissible cfg (clock w) org amount pid (db w) = true →
  (debit_credit cfg uuid org amount reason pid w).1 = Ok (true, amount).
Proof.
  intros Hq Hn Hbk Hpos Hfresh Had.
  assert (wpq (debit_credit cfg uuid org amount reason pid) (λ r _, r = Ok (true, amount)) w) as H.
  { unfold debit_credit. rewrite (proj2 (Z.leb_gt _ _)) by lia. quiet_step. quiet_step. quiet_step.
    eapply wpq_mono; [apply debit_locked_quiet; try done; [lia|]|].
    { unfold is_bigint, bigint_min in *. apply andb_true_iff. split; apply Z.leb_le; lia. }
    intros r w' [_ ->]. quiet_step. eapply wpq_mono; [apply invalidate_quietly_quiet|].
    intros r w2 [-> _]. by quiet_step. }
  specialize (H Hq). destruct (debit_credit _ _ _ _ _ _ _). apply H.
Qed.

(** ** A concrete organisation *)
Module CreditDemo.
Definition uuid (n : nat) : string := "id-" +:+ pretty n.
Definition hash (s : string) : string * string := ("h:" +:+ s, "salt").
Definition cfg : Settings := default_settings.
Definition orgs0 : Db := empty_db <| orgs := {["acme" := MkOrg "acme" "web"; "bot" := MkOrg "bot" "siwe"]} |>.
Definition seed : World Db Ext := initial_world orgs0 (days 100) [].
(** One top-up of a dollar for each organisation, then a principal limit. *)
Definition acme : World Db Ext := (admin_topup_credit uuid "acme" 1000000 "seed" (Some "ref-1") seed).2.
Definition bot : World Db Ext := (admin_topup_credit uuid "bot" 9000000 "seed" None acme).2.
Definition w0 : World Db Ext :=
  bot <| db ::= λ d, d <| principal_limits := {[("acme", "alice") := MkPrincipalLimit 300000 false]} |> |>.
(** The same with a statement that fails on the way. *)
Definition shaky : World Db Ext :=
  w0 <| sched := [MkEvent 5 FOk (λ d x, (d, x)); MkEvent 5 FFail (λ d x, (d, x))] |>.

Lemma books_w0 : books (db w0).
Proof.
  assert (∀ P, closed_under P (credit_step cfg) → P (db seed) → P (db bot)) as Hrun.
  { intros P HP H0.
    assert (good (on_db P) acme) as Hacme.
    { apply preserves_good; [by apply admin_topup_commits with (cfg := cfg)|]. by split. }
    apply (preserves_good (on_db P) (admin_topup_credit uuid "bot" 9000000 "seed" None) acme);
      [by apply admin_topup_commits with (cfg := cfg)|done]. }
  assert (books (db bot)) as Hbot.
  { apply Hrun; [intros d d' Hd Hs; by eapply credit_step_books|].
    by apply (books_same empty_db); [apply books_empty|done|]. }
  unfold w0. revert Hbot. generalize bot. intros b Hb. by apply (books_same (db b)).
Qed.

Lemma solo_shaky : solo shaky.
Proof. split; [done|]. repeat constructor; discriminate. Qed.
End CreditDemo.

Lemma debit_credit_all_or_nothing_witness :
  ∃ now id, posted (debit_entry now "acme" 250000 "run" (Some "alice") (db CreditDemo.w0) id)
    (db CreditDemo.w0)
    (db (debit_credit CreditDemo.cfg CreditDemo.uuid "acme" 250000 "run" (Some "alice") CreditDemo.w0).2).
Proof.
  assert (solo CreditDemo.w0 ∧ 0 < 250000) as [Hw Hpos] by (split; [split; [done|constructor]|lia]).
  pose proof (debit_credit_all_or_nothing CreditDemo.cfg CreditDemo.uuid "acme" 250000 "run" (Some "alice")
    CreditDemo.w0 Hw Hpos) as H.
  assert ((debit_credit CreditDemo.cfg CreditDemo.uuid "acme" 250000 "run" (Some "alice") CreditDemo.w0).1
    = Ok (true, 250000)) as Hr by (vm_compute; reflexivity).
  destruct (debit_credit _ _ _ _ _ _ _) as [r w']. cbn in Hr. subst r.
  destruct H as (ok & n & [= <- <-] & _ & _ & now & id & _ & Hp). exists now, id. exact Hp.
Defined.

Lemma debit_within_limits_witness :
  let w' := (debit_credit CreditDemo.cfg CreditDemo.uuid "bot" 5000000 "run" None CreditDemo.w0).2 in
  balance "bot" (db w') = 4000000 ∧
  ∃ now, daily_debit_spend now "bot" (db w') ≤ machine_org_daily_spend_limit_usdc CreditDemo.cfg.
Proof.
  assert (solo CreditDemo.w0 ∧ 0 < 5000000) as [Hw Hpos] by (split; [split; [done|constructor]|lia]).
  pose proof (debit_within_limits CreditDemo.cfg CreditDemo.uuid "bot" 5000000 "run" None
    CreditDemo.w0 Hw CreditDemo.books_w0 Hpos) as H.
  assert ((debit_credit CreditDemo.cfg CreditDemo.uuid "bot" 5000000 "run" None CreditDemo.w0).1
    = Ok (true, 5000000)) as Hr by (vm_compute; reflexivity).
  destruct (debit_credit _ _ _ _ _ _ _) as [r w']. cbn in Hr |- *. subst r.
  destruct (H eq_refl) as (now & c & source & Hacc & _ & Hb & _ & Hl & _). split.
  - rewrite Hb. vm_compute. reflexivity.
  - exists now. assert (credit_account "bot" (db CreditDemo.w0) = Some (MkCredit 9000000 0 false (days 100), "siwe"))
      as Hacc' by (vm_compute; reflexivity).
    rewrite Hacc' in Hacc. injection Hacc as <- <-. apply Hl. vm_compute. reflexivity.
Defined.

Lemma topup_exactly_once_witness :
  db (admin_topup_credit CreditDemo.uuid "acme" 1000000 "again" (Some "ref-1") CreditDemo.shaky).2
  = db CreditDemo.shaky.
Proof.
  pose proof (topup_exactly_once CreditDemo.uuid "acme" 1000000 "again" "ref-1" CreditDemo.shaky
    CreditDemo.solo_shaky) as H.
  destruct (admin_topup_credit _ _ _ _ _ _) as [r w'].
  assert (∃ row, ledger_by_ref "ref-1" (db CreditDemo.shaky) = Some row) as [row Hrow]
    by (eexists; vm_compute; reflexivity).
  rewrite Hrow in H. apply H.
Defined.

Lemma onboarding_credits_once_witness :
  let w' := (record_onboarding_settlement CreditDemo.uuid CreditDemo.uuid CreditDemo.hash "acme" 500000
    "pay-1" "0xabc" 8453 "0xdead" CreditDemo.w0).2 in
  balance "acme" (db w') = 1500000 ∧ balance "bot" (db w') = 9000000.
Proof.
  assert (solo CreditDemo.w0) as Hw by (split; [done|constructor]).
  pose proof (onboarding_credits_once CreditDemo.uuid CreditDemo.uuid CreditDemo.hash "acme" 500000
    "pay-1" "0xabc" 8453 "0xdead" CreditDemo.w0 Hw) as H.
  assert (∃ c, (record_onboarding_settlement CreditDemo.uuid CreditDemo.uuid CreditDemo.hash "acme" 500000
    "pay-1" "0xabc" 8453 "0xdead" CreditDemo.w0).1 = Ok c) as [c Hr] by (eexists; vm_compute; reflexivity).
  destruct (record_onboarding_settlement _ _ _ _ _ _ _ _ _ _) as [r w']. cbn in Hr |- *. subst r.
  destruct H as [_ H]. split; rewrite H; vm_compute; reflexivity.
Defined.

Lemma grant_at_most_once_witness :
  let w1 := (grant_onboarding_credit CreditDemo.uuid "acme" 20000 CreditDemo.w0).2 in
  db (grant_onboarding_credit CreditDemo.uuid "acme" 20000 w1).2 = db w1.
Proof.
  set (w1 := (grant_onboarding_credit CreditDemo.uuid "acme" 20000 CreditDemo.w0).2). cbv zeta.
  assert (solo w1) as Hw by (split; [done|constructor]).
  pose proof (grant_at_most_once CreditDemo.uuid "acme" 20000 w1 Hw) as H.
  assert (∃ g, grants (db w1) !! "acme" = Some g) as [g Hg] by (eexists; vm_compute; reflexivity).
  rewrite Hg in H. destruct (grant_onboarding_credit _ _ _ w1) as [[n|e] w'].
  - destruct H as (_ & _ & H). exact H.
  - exact H.
Defined.

Lemma verified_implies_debit_admissible_witness :
  debit_admissible CreditDemo.cfg (clock CreditDemo.w0) "acme" 300000 (Some "alice") (db CreditDemo.w0) = true.
Proof.
  assert (∃ b w', verify_credit CreditDemo.cfg "acme" 300000 (Some "alice") CreditDemo.w0 = (Ok b, w')
    ∧ verified b = true) as (b & w' & Hv & Hb)
    by (eexists _, _; split; [vm_compute; reflexivity|vm_compute; reflexivity]).
  apply (verified_implies_debit_admissible CreditDemo.cfg "acme" 300000 300000 (Some "alice")
    CreditDemo.w0 w' b); [done| |exact Hv|exact Hb|lia].
  intros k s Hk. vm_compute in Hk. discriminate.
Defined.

Lemma admissible_debit_succeeds_witness :
  (debit_credit CreditDemo.cfg CreditDemo.uuid "acme" 300000 "run" (Some "alice") CreditDemo.w0).1
  = Ok (true, 300000).
Proof.
  apply admissible_debit_succeeds; [done|done|apply CreditDemo.books_w0| | |vm_compute; reflexivity].
  - unfold bigint_max. lia.
  - apply Forall_forall. apply (bool_decide_eq_true_1 (Forall _ _)). vm_compute. reflexivity.
Defined.
