(* ===== verification/Delegation.v ===== *)
(** * billing/delegation.py: paying for outbound agent delegations

    A paid delegation is funded by a debit and an outbox row in one transaction;
    the row then moves through a refund status and a delivery status until it is
    cancelled (kept as revenue) or refunded by a ledger row that reverses the
    debit.  Handlers first, then the component as a transition system
    ([delegation_step]), its invariant [escrow] and the properties. *)

From S2P Require Export Credit.

Definition _DELEGATION_TASK_TYPES : list string :=
  ["general"; "research"; "analysis"; "data_retrieval"; "coding"; "transaction"; "automation"].

Definition _DELEGATION_FAILURE_ORIGINS : list string := ["unknown"; "local"; "remote"].

Definition _normalize_task_type (task_type : string) : string :=
  let normalized := py_lower (py_strip task_type) in
  if bool_decide (normalized ∈ _DELEGATION_TASK_TYPES) then normalized else "general".

Definition _normalize_failure_origin (failure_origin : string) : string :=
  let normalized := py_lower (py_strip failure_origin) in
  if bool_decide (normalized ∈ _DELEGATION_FAILURE_ORIGINS) then normalized else "unknown".

Definition is_hex_digit (c : Ascii.ascii) : bool :=
  let n := Ascii.nat_of_ascii c in
  ((48 <=? n)%nat && (n <=? 57)%nat) || ((65 <=? n)%nat && (n <=? 70)%nat)
  || ((97 <=? n)%nat && (n <=? 102)%nat).

(** [^0x[a-fA-F0-9]{64}$], matched in full *)
Definition delivery_transaction_pattern (s : string) : bool :=
  match String.list_ascii_of_string s with
  | z :: x :: digits =>
      bool_decide (z = "0"%char) && bool_decide (x = "x"%char)
      && (length digits =? 64)%nat && forallb is_hex_digit digits
  | _ => false
  end.

Definition _normalize_delivery_transaction (transaction : option string) : string :=
  let value := py_strip (default "" transaction) in
  if bool_decide (value = "") || delivery_transaction_pattern value then value else "".

(** The table's CHECK constraints: the amount is positive and [resolved_at] is set
    exactly when the refund status is final. *)
Definition outbox_check (o : OutboxRow) : bool :=
  (0 <? o_amount o)
  && match o_status o with
     | RPending | RRefundRequested => bool_decide (o_resolved_at o = None)
     | RRefunded | RCancelled => bool_decide (is_Some (o_resolved_at o))
     end.

(** [UPDATE a2a_delegation_refund_outbox SET f WHERE id AND org_id AND guard];
    returns the number of rows updated. *)
Definition update_outbox (org id : string) (guard : OutboxRow → bool) (f : Z → OutboxRow → OutboxRow)
    (now : Z) (d : Db) : res (Z * Db) :=
  match outbox_row org id d with
  | Some o =>
      if guard o then
        if outbox_check (f now o) then Ok (1, d <| outbox ::= <[id := f now o]> |>)
        else Raise CheckViolation
      else Ok (0, d)
  | None => Ok (0, d)
  end.

Definition always (o : OutboxRow) : bool := true.

Definition delivery_is (l : list delivery_status) (o : OutboxRow) : bool := bool_decide (o_delivery o ∈ l).
Definition status_is (l : list refund_status) (o : OutboxRow) : bool := bool_decide (o_status o ∈ l).

(** [debit.principal_id] of the joined debit row *)
Definition debit_principal (o : OutboxRow) (d : Db) : option string :=
  debit ← o_debit_ledger o; r ← ledger_row debit d;
  if bool_decide (l_org r = o_org o) then l_principal r else None.

(** [COALESCE(at, NOW())] *)
Definition coalesce_now (now : Z) (t : option Z) : option Z := Some (default now t).

Definition treasury_outflow_24h (now : Z) (d : Db) : Z :=
  msum (λ _ o, match o_started_at o with
               | Some t => if now - hours 24 <=? t then o_amount o else 0
               | None => 0 end) (outbox d).

Section delegation.
Context (cfg : Settings) (uuid : nat → string).

Definition check_delegation_budget (org : string) (estimated_cost : Z) (pid : option string)
    : Handler (option string) :=
  if negb (a2a_delegation_billing_enabled cfg) then mret None
  else
    let cap := a2a_delegation_max_cost_usdc cfg in
    if cap <? estimated_cost then
      mret (Some ("Estimated delegation cost (" +:+ pretty estimated_cost
                  +:+ " atomic USDC) exceeds global cap (" +:+ pretty cap +:+ ")."))
    else
      row ← query (λ _ d, credits d !! org);
      let balance := default 0 (balance_usdc <$> row) in
      let limit := default 0 (spending_limit_usdc <$> row) in
      let paused := default false (credit_is_paused <$> row) in
      if paused then mret (Some "Org billing is paused by admin. Contact your administrator.")
      else if balance <? estimated_cost then
        mret (Some ("Insufficient credit for delegation: balance " +:+ pretty balance
                    +:+ " atomic USDC, estimated cost " +:+ pretty estimated_cost +:+ "."))
      else
        org_refusal ←
          (if 0 <? limit then
             daily_spend ← _get_daily_debit_spend org;
             mret (if limit <? daily_spend + estimated_cost
                   then Some ("Daily spending limit reached: " +:+ pretty daily_spend +:+ " of "
                              +:+ pretty limit +:+ " atomic USDC used in the last 24 hours.")
                   else None)
           else mret None);
        match org_refusal with
        | Some msg => mret (Some msg)
        | None =>
            match truthy_id pid with
            | None => mret None
            | Some p =>
                principal_limit ← query (λ _ d, principal_limits d !! (org, p));
                match principal_limit with
                | None => mret None
                | Some pl =>
                    if principal_is_paused pl
                    then mret (Some "Principal billing is paused by an administrator.")
                    else
                      daily_spend ← _get_daily_principal_debit_spend org p;
                      mret (if daily_limit_usdc pl <? daily_spend + estimated_cost
                            then Some "Principal daily spending limit reached." else None)
                end
            end
        end.

Definition apply_platform_fee (cost : Z) : Z :=
  cost + (cost * a2a_delegation_platform_fee_bps cfg) / 10000.

Definition get_byok_platform_fee (is_byok : bool) : Z :=
  if is_byok then byok_platform_fee_usdc cfg else 0.

Definition fund_delegation (org : string) (cost : Z) (run_id agent_url delegation_id : string)
    (pid : option string) : Handler bool :=
  r ← debit_credit_with_delegation_refund cfg uuid org cost
        ("a2a_delegation run=" +:+ run_id +:+ " agent=" +:+ agent_url) delegation_id run_id pid;
  mret r.1.

Definition _credit_delegation_adjustment_locked (org delegation_id : string) (row : OutboxRow)
    (principal : option string) (amount : Z) : Handler unit :=
  credit_row ← stmt (credit_back org amount);
  match credit_row with
  | None => raise (RuntimeError "Credit account is missing for delegation adjustment")
  | Some balance =>
      ledger_id ← uuid4 uuid;
      stmt (λ now, insert_ledger
        (MkLedger ledger_id org Topup amount balance
           ("a2a:adjust delegation=" +:+ delegation_id +:+ " run=" +:+ o_run row)
           principal None None now))
  end.

(** The transaction of [mark_delegation_possibly_delivered]. *)
Definition mark_possibly_delivered_locked (org delegation_id : string) (charge : option Z) : Handler bool :=
  row ← query (λ _ d, (λ o, (o, debit_principal o d)) <$> outbox_row org delegation_id d);
  match row with
  | None => mret false
  | Some (o, principal) =>
      if delivery_is [PossiblyDelivered; Confirmed] o then mret true
      else if negb (delivery_is [NotAttempted] o) || negb (status_is [RPending; RRefundRequested] o)
      then mret false
      else
        let held := o_amount o in
        if match charge with Some c => (c <=? 0) || (held <? c) | None => false end then mret false
        else
          let final_charge := default held charge in
          signed_24h ← query (λ now d, treasury_outflow_24h now d);
          if a2a_treasury_daily_outflow_cap_usdc cfg <? signed_24h + final_charge then mret false
          else
            (if final_charge <? held
             then _credit_delegation_adjustment_locked org delegation_id o principal (held - final_charge)
             else mret tt);;
            stmt (update_outbox org delegation_id always (λ now o,
              o <| o_delivery := PossiblyDelivered |> <| o_started_at ::= coalesce_now now |>
                <| o_delivery_error := "" |> <| o_amount := final_charge |>));;
            mret true
  end.

Definition mark_delegation_possibly_delivered (org delegation_id : string) (charge : option Z) : Handler bool :=
  catch (transaction (mark_possibly_delivered_locked org delegation_id charge)) (λ _, mret false).

Definition set_refunded (org delegation_id : string) (at_time : Z → option Z → option Z) : Handler Z :=
  stmt (update_outbox org delegation_id
    (λ o, status_is [RRefundRequested] o && delivery_is [NotAttempted; Failed] o)
    (λ now o, o <| o_status := RRefunded |> <| o_resolved_at ::= at_time now |>)).

Definition _complete_refund_locked (org delegation_id : string) (row : OutboxRow)
    (principal : option string) : Handler bool :=
  let amount := o_amount row in
  let debit := match o_debit_ledger row with
               | Some l => if bool_decide (l = "") then None else Some l
               | None => None end in
  existing_reversal ←
    (match debit with
     | Some l => query (λ _ d, reversal_of l d)
     | None => mret None
     end);
  match existing_reversal with
  | Some _ => set_refunded org delegation_id coalesce_now;; mret true
  | None =>
      credit_row ← stmt (credit_back org amount);
      match credit_row with
      | None => raise (RuntimeError "Credit account is missing for delegation refund")
      | Some balance =>
          ledger_id ← uuid4 uuid;
          stmt (λ now, insert_ledger
            (MkLedger ledger_id org Topup amount balance
               ("a2a:refund delegation=" +:+ delegation_id +:+ " run=" +:+ o_run row)
               principal None (o_debit_ledger row) now));;
          set_refunded org delegation_id (λ now _, Some now);;
          mret true
      end
  end.

(** The transaction of [confirm_delegation_delivery]. *)
Definition confirm_delivery_locked (org delegation_id settlement_tx : string) : Handler bool :=
  row ← query (λ _ d, outbox_row org delegation_id d);
  match row with
  | None => mret false
  | Some o =>
      if delivery_is [Confirmed] o then mret (negb (status_is [RRefunded] o))
      else if delivery_is [Failed] o || status_is [RRefunded] o then mret false
      else if negb (delivery_is [NotAttempted; PossiblyDelivered] o) then mret false
      else
        stmt (update_outbox org delegation_id always (λ now o,
          o <| o_delivery := Confirmed |> <| o_delivery_resolved_at ::= coalesce_now now |>
            <| o_settlement_tx ::= λ tx, if bool_decide (settlement_tx = "") then tx else settlement_tx |>
            <| o_delivery_error := "" |>));;
        (if status_is [RPending; RRefundRequested] o then
           stmt (update_outbox org delegation_id (status_is [RPending; RRefundRequested]) (λ now o,
             o <| o_status := RCancelled |> <| o_resolved_at ::= coalesce_now now |>));;
           mret tt
         else mret tt);;
        mret true
  end.

Definition confirm_delegation_delivery (org delegation_id : string) (settlement_tx : option string)
    : Handler bool :=
  let settlement_tx := _normalize_delivery_transaction settlement_tx in
  catch (transaction (confirm_delivery_locked org delegation_id settlement_tx)) (λ _, mret false).

(** [if resolved: try invalidate ...; return resolved] *)
Definition invalidate_if (resolved : bool) (org : string) : Handler bool :=
  (if resolved then invalidate_quietly org else mret tt);; mret resolved.

(** The transaction of [fail_delegation_delivery]: [inl] is a return inside it
    (no cache invalidation), [inr] the result of the refund. *)
Definition fail_delivery_locked (org delegation_id safe_reason : string) : Handler (bool + bool) :=
  row ← query (λ _ d, (λ o, (o, debit_principal o d)) <$> outbox_row org delegation_id d);
  match row with
  | None => mret (inl false)
  | Some (o, principal) =>
      if delivery_is [Confirmed] o || status_is [RCancelled] o then mret (inl false)
      else if delivery_is [Failed] o && status_is [RRefunded] o then mret (inl true)
      else if status_is [RRefunded] o then mret (inl false)
      else if negb (delivery_is [PossiblyDelivered; Failed] o) then mret (inl false)
      else
        stmt (update_outbox org delegation_id always (λ now o,
          o <| o_delivery := Failed |> <| o_delivery_resolved_at ::= coalesce_now now |>
            <| o_delivery_error := safe_reason |>));;
        (if status_is [RPending] o then
           stmt (update_outbox org delegation_id (status_is [RPending]) (λ _ o,
             o <| o_status := RRefundRequested |>));;
           mret tt
         else mret tt);;
        resolved ← _complete_refund_locked org delegation_id o principal;
        mret (inr resolved)
  end.

Definition fail_delegation_delivery (org delegation_id reason : string) : Handler bool :=
  let safe_reason := String.substring 0 500 (py_strip reason) in
  catch
    (r ← transaction (fail_delivery_locked org delegation_id safe_reason);
     match r with
     | inl b => mret b
     | inr resolved => invalidate_if resolved org
     end)
    (λ _, mret false).

Definition request_delegation_refund (org delegation_id : string) : Handler bool :=
  catch
    (updated ← stmt (update_outbox org delegation_id
       (λ o, status_is [RPending] o && delivery_is [NotAttempted; Failed] o)
       (λ _ o, o <| o_status := RRefundRequested |>));
     if 0 <? updated then mret true
     else
       status ← query (λ _ d, o_status <$> outbox_row org delegation_id d);
       mret (match status with
             | Some RRefundRequested | Some RRefunded => true
             | _ => false end))
    (λ _, mret false).

Definition cancelled_row (now : Z) (o : OutboxRow) : OutboxRow :=
  let unresolved := delivery_is [NotAttempted; PossiblyDelivered] o in
  o <| o_status := RCancelled |> <| o_resolved_at ::= coalesce_now now |>
    <| o_delivery ::= λ s, if unresolved then Confirmed else s |>
    <| o_delivery_resolved_at ::= λ t, if unresolved then coalesce_now now t else t |>
    <| o_delivery_error := "" |>.

Definition cancel_delegation_refund (org delegation_id : string) : Handler bool :=
  catch
    (updated ← stmt (update_outbox org delegation_id
       (λ o, status_is [RPending; RRefundRequested] o
             && delivery_is [NotAttempted; PossiblyDelivered; Confirmed] o)
       cancelled_row);
     if updated =? 1 then mret true
     else
       status ← query (λ _ d, o_status <$> outbox_row org delegation_id d);
       mret (bool_decide (status = Some RCancelled)))
    (λ _, mret false).

(** The transaction of [complete_delegation_refund]. *)
Definition complete_refund_transaction (org delegation_id : string) : Handler (bool + bool) :=
  row ← query (λ _ d,
    o ← outbox_row org delegation_id d;
    if status_is [RRefundRequested] o && delivery_is [NotAttempted; Failed] o
    then Some (o, debit_principal o d) else None);
  match row with
  | None =>
      status ← query (λ _ d, o_status <$> outbox_row org delegation_id d);
      mret (inl (bool_decide (status = Some RRefunded)))
  | Some (o, principal) =>
      resolved ← _complete_refund_locked org delegation_id o principal;
      mret (inr resolved)
  end.

Definition complete_delegation_refund (org delegation_id : string) : Handler bool :=
  catch
    (r ← transaction (complete_refund_transaction org delegation_id);
     match r with
     | inl b => mret b
     | inr resolved => invalidate_if resolved org
     end)
    (λ _, mret false).

(** The terminal event of an outbox row, when it was recorded. *)
Definition event_of (id : string) (o : OutboxRow) (d : Db) : option DelegationEvent :=
  ev ← delegation_events d !! id; if bool_decide (ev_org ev = o_org o) then Some ev else None.

Definition reconcilable (d : Db) (id : string) (o : OutboxRow) : bool :=
  negb (delivery_is [PossiblyDelivered] o)
  && (status_is [RRefundRequested] o
      || (status_is [RPending] o
          && match event_of id o d with
             | Some ev => negb (bool_decide (ev_task_status ev = "possibly_delivered"))
             | None => false end)).

Definition reconciliation_batch (n : Z) (d : Db) : list (string * OutboxRow * option DelegationEvent) :=
  limit n (order_by (λ a b, o_created_at a.1.2 <=? o_created_at b.1.2)
    (map (λ kv, (kv.1, kv.2, event_of kv.1 kv.2 d))
       (filter (λ kv, reconcilable d kv.1 kv.2 = true) (map_to_list (outbox d))))).

Definition process_delegation_refund_outbox (n : Z) : Handler Z :=
  rows ← query (λ _ d, reconciliation_batch n d);
  for_each rows 0 (λ processed row,
    let '(id, o, event) := row in
    let task_status := ev_task_status <$> event in
    if delivery_is [PossiblyDelivered] o || bool_decide (task_status = Some "possibly_delivered")
    then mret processed
    else
      resolved ←
        (if bool_decide (task_status = Some "completed") && negb (bool_decide (ev_cost <$> event = Some 0))
         then cancel_delegation_refund (o_org o) id
         else
           request_delegation_refund (o_org o) id;;
           complete_delegation_refund (o_org o) id);
      mret (if resolved : bool then processed + 1 else processed)).

(** [INSERT INTO a2a_delegation_events ... ON CONFLICT (id) DO NOTHING] *)
Definition insert_delegation_event (id : string) (ev : DelegationEvent) (d : Db) : res (unit * Db) :=
  if negb (is_bigint (ev_cost ev)) then Raise DataError
  else match delegation_events d !! id with
       | Some _ => Ok (tt, d)
       | None =>
           match orgs d !! ev_org ev with
           | None => Raise ForeignKeyViolation
           | Some _ => Ok (tt, d <| delegation_events ::= <[id := ev]> |>)
           end
       end.

Definition record_delegation_event (org run_id agent_url agent_name task_status : string) (cost : Z)
    (billing_method settlement_tx err task_type : string) (delegation_id : option string)
    (failure_origin : string) : Handler bool :=
  catch
    (event_id ← (match truthy_id delegation_id with
                 | Some id => mret id
                 | None => uuid4 uuid end);
     stmt (λ now, insert_delegation_event event_id
       (MkDelegationEvent org run_id agent_url agent_name task_status cost billing_method settlement_tx
          err (_normalize_failure_origin failure_origin) (_normalize_task_type task_type) now));;
     mret true)
    (λ _, mret false).

(** [event LEFT JOIN outbox], newest first *)
Definition get_delegation_events (org : string) (n : Z) (cursor : option Z)
    : Handler (list (string * DelegationEvent * option OutboxRow)) :=
  query (λ _ d,
    limit n (order_by (λ a b, ev_created_at b.1.2 <=? ev_created_at a.1.2)
      (map (λ kv, (kv.1, kv.2, outbox_row (ev_org kv.2) kv.1 d))
         (filter (λ kv, bool_decide (ev_org kv.2 = org)
                        && match cursor with Some t => ev_created_at kv.2 <? t | None => true end = true)
            (map_to_list (delegation_events d)))))).

Definition get_possibly_delivered_delegations (org : option string) (n : Z)
    : Handler (list (string * OutboxRow * option DelegationEvent)) :=
  query (λ _ d,
    limit (Z.min (Z.max n 1) 200) (order_by (λ a b, o_created_at b.1.2 <=? o_created_at a.1.2)
      (map (λ kv, (kv.1, kv.2, event_of kv.1 kv.2 d))
         (filter (λ kv, delivery_is [PossiblyDelivered] kv.2
                        && match org with Some o => bool_decide (o_org kv.2 = o) | None => true end = true)
            (map_to_list (outbox d)))))).
End delegation.

(** ** The component as a transition system *)
Definition marked (now charge : Z) (o : OutboxRow) : OutboxRow :=
  o <| o_delivery := PossiblyDelivered |> <| o_started_at ::= coalesce_now now |>
    <| o_delivery_error := "" |> <| o_amount := charge |>.

(** The columns a later step may not touch. *)
Definition same_claim (o o' : OutboxRow) : Prop :=
  o_org o' = o_org o ∧ o_run o' = o_run o ∧ o_amount o' = o_amount o ∧
  o_debit_ledger o' = o_debit_ledger o ∧ o_created_at o' = o_created_at o ∧
  o_started_at o' = o_started_at o.

Definition open_refund (o : OutboxRow) : Prop := o_status o = RPending ∨ o_status o = RRefundRequested.

(** Rows whose refund may be paid: never confirmed, never possibly delivered
    unless declared failed in the same transaction. *)
Definition refundable (o o' : OutboxRow) : Prop :=
  open_refund o ∧ o_status o' = RRefunded ∧ same_claim o o' ∧ is_Some (o_resolved_at o') ∧
  (o_delivery o' = Failed ∧ (o_delivery o = PossiblyDelivered ∨ o_delivery o = Failed) ∨
   o_delivery o' = NotAttempted ∧ o_delivery o = NotAttempted ∧ o_status o = RRefundRequested).

Definition refund_row (o : OutboxRow) (r : LedgerRow) : Prop :=
  l_org r = o_org o ∧ l_op r = Topup ∧ l_amount r = o_amount o ∧ l_reverses r = o_debit_ledger o.

(** Changes of a row that move no money. *)
Inductive row_step : OutboxRow → OutboxRow → Prop :=
  | row_confirm now tx o :
      (o_delivery o = NotAttempted ∨ o_delivery o = PossiblyDelivered) → open_refund o →
      row_step o (o <| o_delivery := Confirmed |> <| o_delivery_resolved_at ::= coalesce_now now |>
        <| o_settlement_tx := tx |> <| o_delivery_error := "" |>
        <| o_status := RCancelled |> <| o_resolved_at ::= coalesce_now now |>)
  | row_confirm_cancelled now tx o :
      (o_delivery o = NotAttempted ∨ o_delivery o = PossiblyDelivered) → o_status o = RCancelled →
      row_step o (o <| o_delivery := Confirmed |> <| o_delivery_resolved_at ::= coalesce_now now |>
        <| o_settlement_tx := tx |> <| o_delivery_error := "" |>)
  | row_request o :
      o_status o = RPending → (o_delivery o = NotAttempted ∨ o_delivery o = Failed) →
      row_step o (o <| o_status := RRefundRequested |>)
  | row_cancel now o :
      open_refund o → o_delivery o ≠ Failed → row_step o (cancelled_row now o).

Inductive delegation_step (cfg : Settings) : Db → Db → Prop :=
  | step_fund now id o r d d1 :
      outbox d !! id = None →
      debit_admissible cfg now (o_org o) (o_amount o) (l_principal r) d = true →
      l_org r = o_org o → l_op r = Debit → l_amount r = o_amount o → l_reverses r = None →
      o_debit_ledger o = Some (l_id r) → o_status o = RPending → o_delivery o = NotAttempted →
      o_started_at o = None → o_resolved_at o = None →
      posted r d d1 → delegation_step cfg d (d1 <| outbox ::= <[id := o]> |>)
  | step_mark now org id o charge d d1 :
      outbox_row org id d = Some o → o_delivery o = NotAttempted → open_refund o →
      0 < charge ≤ o_amount o →
      treasury_outflow_24h now d + charge ≤ a2a_treasury_daily_outflow_cap_usdc cfg →
      (charge = o_amount o ∧ d1 = d ∨
       ∃ r, plain_topup org (o_amount o - charge) r ∧ posted r d d1) →
      delegation_step cfg d (d1 <| outbox ::= <[id := marked now charge o]> |>)
  | step_refund org id o o' r d d1 :
      outbox_row org id d = Some o → refundable o o' → refund_row o r → posted r d d1 →
      delegation_step cfg d (d1 <| outbox ::= <[id := o']> |>)
  | step_already_reversed org id o o' l d :
      outbox_row org id d = Some o → refundable o o' → o_debit_ledger o = Some l →
      is_Some (reversal_of l d) →
      delegation_step cfg d (d <| outbox ::= <[id := o']> |>)
  | step_row org id o o' d :
      outbox_row org id d = Some o → row_step o o' →
      delegation_step cfg d (d <| outbox ::= <[id := o']> |>)
  | step_event id ev d :
      delegation_events d !! id = None → is_Some (orgs d !! ev_org ev) →
      delegation_step cfg d (d <| delegation_events ::= <[id := ev]> |>).

(** ** The handlers take only these steps *)
Section delegation_commits.
Context (cfg : Settings) (uuid : nat → string).
Abbreviation G := (delegation_step cfg).

Lemma outbox_row_some org id d o :
  outbox_row org id d = Some o ↔ outbox d !! id = Some o ∧ o_org o = org.
Proof.
  unfold outbox_row. destruct (outbox d !! id) as [o'|]; cbn; [|naive_solver].
  case_bool_decide; naive_solver.
Qed.

Lemma outbox_row_insert org id o d :
  o_org o = org → outbox_row org id (d <| outbox ::= <[id := o]> |>) = Some o.
Proof. intros. apply outbox_row_some. cbn. by rewrite lookup_insert_eq. Qed.

Lemma outbox_posted r d d' : posted r d d' → outbox d' = outbox d.
Proof. intros Hp. by rewrite (posted_frame _ _ _ Hp). Qed.

Lemma outbox_row_posted r d d' org id : posted r d d' → outbox_row org id d' = outbox_row org id d.
Proof. intros Hp. unfold outbox_row. by rewrite (outbox_posted _ _ _ Hp). Qed.

Lemma wpt_update_outbox now org id guard f (E : exn → Prop) (Q : Z → Db → Prop) d o :
  (∀ e, E e) → outbox_row org id d = Some o → guard o = true →
  (outbox_check (f now o) = true → Q 1 (d <| outbox ::= <[id := f now o]> |>)) →
  wpt now (stmt (update_outbox org id guard f) : Handler Z) Q (λ e _, E e) d.
Proof.
  intros HE Ho Hg HQ. apply wpt_stmt; [done|]. unfold update_outbox. rewrite Ho, Hg.
  destruct (outbox_check (f now o)); auto.
Qed.

Lemma outbox_insert_twice id o1 o2 d :
  d <| outbox ::= <[id := o1]> |> <| outbox ::= <[id := o2]> |> = d <| outbox ::= <[id := o2]> |>.
Proof. destruct d. unfold upd_field. cbn. by rewrite insert_insert_eq. Qed.

Lemma delivery_is_elem l o b : delivery_is l o = b → if b then o_delivery o ∈ l else o_delivery o ∉ l.
Proof. intros <-. unfold delivery_is. by case_bool_decide. Qed.

Lemma status_is_elem l o b : status_is l o = b → if b then o_status o ∈ l else o_status o ∉ l.
Proof. intros <-. unfold status_is. by case_bool_decide. Qed.

Lemma status_membership o l s : o_status o = s → s ∈ l → status_is l o = true.
Proof. intros <- Hs. by apply bool_decide_eq_true. Qed.

Lemma delivery_membership o l s : o_delivery o = s → s ∈ l → delivery_is l o = true.
Proof. intros <- Hs. by apply bool_decide_eq_true. Qed.

Lemma coalesce_now_some now t : is_Some (coalesce_now now t).
Proof. by eexists. Qed.
End delegation_commits.

(** Turn the tests on statuses into memberships, then into equations. *)
Ltac row_tests :=
  repeat match goal with
  | H : delivery_is _ _ = _ |- _ => apply delivery_is_elem in H; cbv iota in H
  | H : status_is _ _ = _ |- _ => apply status_is_elem in H; cbv iota in H
  end;
  repeat match goal with
  | H : _ ∈ (_ :: _) |- _ => apply elem_of_cons in H as [H|H]
  | H : _ ∈ [] |- _ => by apply elem_of_nil in H
  | H : _ ∉ (_ :: _) |- _ => apply not_elem_of_cons in H as [? H]
  end.

#[export] Hint Resolve outbox_row_insert coalesce_now_some : teardrop.

Section delegation_specs.
Context (cfg : Settings) (uuid : nat → string).
Abbreviation G := (delegation_step cfg).

Lemma open_refund_is o : status_is [RPending; RRefundRequested] o = true ↔ open_refund o.
Proof. unfold status_is, open_refund. rewrite bool_decide_eq_true. set_solver. Qed.

Lemma not_attempted_is o : delivery_is [NotAttempted] o = true ↔ o_delivery o = NotAttempted.
Proof. unfold delivery_is. rewrite bool_decide_eq_true. set_solver. Qed.

Lemma adjustment_tx now org id o principal amount (E : exn → Prop) (Q : unit → Db → Prop) d :
  (∀ e, E e) → (∀ r d', plain_topup org amount r → posted r d d' → Q tt d') →
  wpt now (_credit_delegation_adjustment_locked uuid org id o principal amount) Q (λ e _, E e) d.
Proof.
  intros HE HQ. unfold _credit_delegation_adjustment_locked. tx_step.
  apply wpt_credit_back; [done| |by tx_step]. intros d1 Ha. tx_step. tx_step.
  eapply wpt_insert_ledger; [done|exact Ha|done|]. intros d2 Hp. eapply HQ; [|exact Hp]. done.
Qed.

(** What the claim of the ambiguous delivery state may do. *)
Definition mark_outcome (now : Z) (org id : string) (charge : option Z) (d : Db) (b : bool) (d' : Db) : Prop :=
  match outbox_row org id d with
  | None => b = false ∧ d' = d
  | Some o =>
      if delivery_is [PossiblyDelivered; Confirmed] o then b = true ∧ d' = d
      else if b then
        ∃ d1, let c := default (o_amount o) charge in
          o_delivery o = NotAttempted ∧ open_refund o ∧ 0 < c ≤ o_amount o ∧
          treasury_outflow_24h now d + c ≤ a2a_treasury_daily_outflow_cap_usdc cfg ∧
          (c = o_amount o ∧ d1 = d ∨ ∃ r, plain_topup org (o_amount o - c) r ∧ posted r d d1) ∧
          d' = d1 <| outbox ::= <[id := marked now c o]> |>
      else d' = d
  end.

Lemma mark_outcome_step now org id charge d b d' : mark_outcome now org id charge d b d' → d' = d ∨ G d d'.
Proof.
  unfold mark_outcome. destruct (outbox_row org id d) as [o|] eqn:Ho; [|by intros [_ ->]; left].
  case_match; [by intros [_ ->]; left|]. destruct b; [|by left].
  intros (d1 & Hd & Hopen & Hc & Hcap & Hadj & ->). right. by eapply step_mark.
Qed.

Lemma mark_spec now org id charge d :
  wpt now (mark_possibly_delivered_locked cfg uuid org id charge)
    (mark_outcome now org id charge d) (λ _ _, True) d.
Proof.
  unfold mark_possibly_delivered_locked, mark_outcome. tx_step. tx_step; [done|].
  destruct (outbox_row org id d) as [o|] eqn:Ho; cbn; [|by tx_step].
  destruct (delivery_is [PossiblyDelivered; Confirmed] o) eqn:Hpd; [by tx_step|].
  tx_step; [by tx_step|]. apply orb_false_iff in Heqb as [Hd Hs].
  apply negb_false_iff, not_attempted_is in Hd. apply negb_false_iff, open_refund_is in Hs.
  tx_step; [by tx_step|]. tx_step. tx_step; [done|]. tx_step; [by tx_step|].
  case_bool. set (c := default (o_amount o) charge) in *.
  assert (c ≤ o_amount o) as Hc.
  { unfold c. destruct charge; cbn; [|lia]. apply orb_false_iff in Heqb as [_ ?]. case_bool. lia. }
  tx_step. eapply (wpt_mono _ _ (λ _ d1, c = o_amount o ∧ d1 = d ∨
    ∃ r, plain_topup org (o_amount o - c) r ∧ posted r d d1) _ (λ _ _, True)); [| |done].
  { tx_step; case_bool; [|tx_step; left; split; [lia|done]].
    apply (adjustment_tx _ _ _ _ _ _ (λ _, True)); [done|]. intros. right. eauto. }
  intros [] d1 H1. tx_step.
  assert (outbox_row org id d1 = Some o) as Ho1.
  { destruct H1 as [[_ ->]|(r & _ & Hp)]; [done|]. by rewrite (outbox_row_posted _ _ _ _ _ Hp). }
  eapply (wpt_update_outbox _ _ _ _ _ (λ _, True)); [done|exact Ho1|done|].
  intros Hchk. tx_step. unfold outbox_check in Hchk. cbn in Hchk. case_bool. by exists d1.
Qed.

Lemma row_update_tx now org id guard f o d :
  outbox_row org id d = Some o → guard o = true → (row_step o (f now o)) →
  wpt now (stmt (update_outbox org id guard f) : Handler Z) (λ _ d', G d d') (λ _ _, True) d.
Proof.
  intros Ho Hg Hs. eapply (wpt_update_outbox _ _ _ _ _ (λ _, True)); [done|exact Ho|done|].
  intros _. by eapply step_row.
Qed.

Lemma confirm_spec now org id tx d :
  wpt now (confirm_delivery_locked org id tx) (λ _ d', d' = d ∨ G d d') (λ _ _, True) d.
Proof.
  unfold confirm_delivery_locked. tx_step. tx_step; [done|].
  destruct (outbox_row org id d) as [o|] eqn:Ho; [|tx_step; by left].
  apply outbox_row_some in Ho as Ho'. destruct Ho' as [Hin Horg].
  tx_step; [tx_step; by left|]. tx_step; [tx_step; by left|]. tx_step; [tx_step; by left|].
  clear Heqb. apply orb_false_iff in Heqb0 as [_ Hs]. apply negb_false_iff in Heqb1. rename Heqb1 into Hd.
  assert (o_delivery o = NotAttempted ∨ o_delivery o = PossiblyDelivered) as Hdel.
  { unfold delivery_is in Hd. case_bool. set_solver. }
  set (tx' := if bool_decide (tx = "") then o_settlement_tx o else tx).
  tx_step. eapply (wpt_update_outbox _ _ _ _ _ (λ _, True)); [done|exact Ho|done|]. intros _.
  lazymatch goal with |- context [<[id := ?x]>] => set (o1 := x) end.
  tx_step. destruct (status_is [RPending; RRefundRequested] o) eqn:Hopen.
  - apply open_refund_is in Hopen. tx_step.
    eapply (wpt_update_outbox _ _ _ _ _ (λ _, True) _ _ o1); [done|by apply outbox_row_insert| |].
    { by apply open_refund_is. }
    intros _. tx_step. tx_step. right. rewrite outbox_insert_twice.
    eapply step_row; [exact Ho|]. by apply (row_confirm now tx').
  - tx_step. tx_step. right. eapply step_row; [exact Ho|]. apply (row_confirm_cancelled now tx'); [done|].
    unfold status_is in *. case_bool. destruct (o_status o); set_solver.
Qed.

(** The refund of a row that is ready: either it was reversed before, or it is now. *)
Definition refund_effect (id : string) (o : OutboxRow) (d d' : Db) : Prop :=
  ∃ o' d1, o_status o' = RRefunded ∧ same_claim o o' ∧ is_Some (o_resolved_at o') ∧
    o_delivery o' = o_delivery o ∧ d' = d1 <| outbox ::= <[id := o']> |> ∧
    ((∃ l, o_debit_ledger o = Some l ∧ is_Some (reversal_of l d) ∧ d1 = d) ∨
     (∃ r, refund_row o r ∧ posted r d d1)).

Lemma complete_refund_locked_spec now org id o0 o principal (E : exn → Prop) d :
  (∀ e, E e) → outbox_row org id d = Some o → o_status o = RRefundRequested →
  (o_delivery o = NotAttempted ∨ o_delivery o = Failed) →
  same_claim o o0 →
  wpt now (_complete_refund_locked uuid org id o0 principal)
    (λ b d', b = true ∧ refund_effect id o d d') (λ e _, E e) d.
Proof.
  intros HE Ho Hs Hdel (Horg0 & Hrun0 & Hamt0 & Hdeb0 & _).
  apply outbox_row_some in Ho as Ho'. destruct Ho' as [Hin Horg].
  unfold _complete_refund_locked, set_refunded. rewrite Hamt0, Hdeb0.
  assert (status_is [RRefundRequested] o && delivery_is [NotAttempted; Failed] o = true) as Hg.
  { apply andb_true_iff. split; apply bool_decide_eq_true; set_solver. }
  tx_step. eapply (wpt_mono _ _ (λ rev d1, d1 = d ∧ (is_Some rev → ∃ l, o_debit_ledger o = Some l ∧
    is_Some (reversal_of l d))) _ (λ e _, E e)); [| |done].
  { destruct (o_debit_ledger o) as [l|]; [|tx_step; split; [done|by intros []]].
    case_bool_decide; [tx_step; split; [done|by intros []]|]. tx_step; [done|]. eauto. }
  intros rev d1 [-> Hrev]. destruct rev as [r0|].
  - destruct (Hrev ltac:(eauto)) as (l & Hl & Hr). tx_step.
    eapply wpt_update_outbox; [done|exact Ho|exact Hg|]. intros _. tx_step. split; [done|].
    exists (o <| o_status := RRefunded |> <| o_resolved_at ::= coalesce_now now |>), d.
    split_and!; [done|by split_and!|cbn; eauto with teardrop|done|done|left; eauto].
  - tx_step. apply wpt_credit_back; [done| |by tx_step]. intros d1 Ha. tx_step. tx_step. tx_step.
    eapply wpt_insert_ledger; [done|exact Ha|done|]. intros d2 Hp. tx_step.
    eapply wpt_update_outbox; [done|by rewrite (outbox_row_posted _ _ _ _ _ Hp)|exact Hg|]. intros _.
    tx_step. split; [done|]. exists (o <| o_status := RRefunded |> <| o_resolved_at := Some now |>), d2.
    split_and!; [done|by split_and!|cbn; eauto|done|done|right; eexists; split; [|exact Hp]].
    by rewrite <- Horg.
Qed.

Lemma refund_effect_step org id o0 o d d1 d' :
  outbox_row org id d = Some o0 →
  open_refund o0 → same_claim o0 o →
  (o_delivery o = Failed ∧ (o_delivery o0 = PossiblyDelivered ∨ o_delivery o0 = Failed) ∨
   o_delivery o = NotAttempted ∧ o_delivery o0 = NotAttempted ∧ o_status o0 = RRefundRequested) →
  d1 = d <| outbox ::= <[id := o]> |> ∨ d1 = d ∧ o = o0 →
  refund_effect id o d1 d' → G d d'.
Proof.
  intros Ho Hopen Hsame Hdel Hd1 (o' & d2 & Hs' & Hsame' & Hres & Hdel' & -> & Hcase).
  assert (refundable o0 o') as Hr.
  { unfold refundable, same_claim in *. rewrite Hdel'. intuition congruence. }
  destruct Hcase as [(l & Hl & Hrev & ->)|(r & Hrow & Hp)].
  - assert (o_debit_ledger o0 = Some l) as Hl0 by (destruct Hsame as (_ & _ & _ & E & _); congruence).
    destruct Hd1 as [->|[-> ->]]; [rewrite outbox_insert_twice|]; by eapply step_already_reversed.
  - assert (refund_row o0 r) as Hrow0.
    { unfold refund_row, same_claim in *. intuition congruence. }
    destruct Hd1 as [->|[-> ->]]; [|by eapply step_refund].
    assert (∃ d3, posted r d d3 ∧ d2 <| outbox ::= <[id := o']> |> = d3 <| outbox ::= <[id := o']> |>)
      as (d3 & Hp3 & ->); [|by eapply step_refund].
    destruct Hp as (dd & (c & -> & Hc) & -> & Hb & Hpos & Hcf & Hrf).
    exists (d <| credits ::= <[l_org r := c]> |> <| ledger ::= λ l, l ++ [r] |>). split.
    { eexists. split_and!; [by exists c|reflexivity|done..]. }
    destruct d. unfold upd_field. cbn. by rewrite insert_insert_eq.
Qed.

Lemma fail_spec now org id reason d :
  wpt now (fail_delivery_locked uuid org id reason) (λ _ d', d' = d ∨ G d d') (λ _ _, True) d.
Proof.
  unfold fail_delivery_locked. tx_step. tx_step; [done|].
  destruct (outbox_row org id d) as [o|] eqn:Ho; cbn; [|tx_step; by left].
  apply outbox_row_some in Ho as Ho'. destruct Ho' as [Hin Horg].
  do 4 (tx_step; [tx_step; by left|]). clear Heqb0.
  apply orb_false_iff in Heqb as [_ Hnc]. apply negb_false_iff in Heqb2.
  assert (open_refund o) as Hopen.
  { unfold status_is, open_refund in *. case_bool. destruct (o_status o); set_solver. }
  assert (o_delivery o = PossiblyDelivered ∨ o_delivery o = Failed) as Hdel.
  { unfold delivery_is in *. case_bool. set_solver. }
  tx_step. eapply (wpt_update_outbox _ _ _ _ _ (λ _, True)); [done|exact Ho|done|]. intros _.
  lazymatch goal with |- context [<[id := ?x]>] => set (o1 := x) end.
  tx_step.
  eapply (wpt_mono _ _ (λ _ d1, ∃ o2, d1 = d <| outbox ::= <[id := o2]> |> ∧ o_status o2 = RRefundRequested ∧
    o_delivery o2 = Failed ∧ same_claim o o2) _ (λ _ _, True)); [| |done].
  { destruct (status_is [RPending] o) eqn:Hp.
    - tx_step. eapply (wpt_update_outbox _ _ _ _ _ (λ _, True) _ _ o1); [done|by apply outbox_row_insert|done|].
      intros _. tx_step. eexists. rewrite outbox_insert_twice. split; [reflexivity|]. by split_and!.
    - tx_step. exists o1. split_and!; try done.
      unfold status_is, open_refund in *. case_bool. destruct Hopen as [Hx|Hx]; [set_solver|exact Hx]. }
  intros [] d1 (o2 & -> & Hs2 & Hd2 & Hsame). tx_step.
  eapply (wpt_mono _ _ (λ b d', b = true ∧ refund_effect id o2 (d <| outbox ::= <[id := o2]> |>) d')
    _ (λ _ _, True)); [| |done].
  { apply (complete_refund_locked_spec _ _ _ _ _ _ (λ _, True)); [done|..|done| |].
    - apply outbox_row_insert. destruct Hsame as (-> & _). done.
    - by right.
    - unfold same_claim in *. intuition congruence. }
  intros b d' [-> Heff]. tx_step. right.
  eapply (refund_effect_step org id o o2); [done..|by left|by left|exact Heff].
Qed.

Lemma complete_spec now org id d :
  wpt now (complete_refund_transaction uuid org id) (λ _ d', d' = d ∨ G d d') (λ _ _, True) d.
Proof.
  unfold complete_refund_transaction. tx_step. tx_step; [done|].
  destruct (outbox_row org id d) as [o|] eqn:Ho; cbn;
    [|repeat tx_step; [done|by left]].
  destruct (status_is [RRefundRequested] o && delivery_is [NotAttempted; Failed] o) eqn:Hg; cbn;
    [|repeat tx_step; [done|by left]].
  unfold status_is, delivery_is in Hg. case_bool.
  assert (o_status o = RRefundRequested) as Hs by set_solver.
  assert (o_delivery o = NotAttempted ∨ o_delivery o = Failed) as Hdel by set_solver.
  tx_step. eapply (wpt_mono _ _ (λ b d', b = true ∧ refund_effect id o d d') _ (λ _ _, True)); [| |done].
  { by apply (complete_refund_locked_spec _ _ _ _ _ _ (λ _, True)). }
  intros b d' [-> Heff]. tx_step. right. eapply (refund_effect_step org id o o); try done.
  - by right.
  - destruct Hdel; [right; by split_and!|left; auto].
  - by right.
Qed.
End delegation_specs.

Section delegation_commits.
Context (cfg : Settings) (uuid : nat → string).
Abbreviation G := (delegation_step cfg).

Definition fund_row (org run_id : string) (amount now : Z) (debit : option string) : OutboxRow :=
  MkOutbox org run_id amount debit RPending now None NotAttempted None None "" "".

Lemma outbox_row_none org id d :
  outbox_row org id d = None → outbox d !! id = None ∨ ∃ o, outbox d !! id = Some o ∧ o_org o ≠ org.
Proof.
  unfold outbox_row. destruct (outbox d !! id) as [o|]; cbn; [|auto]. case_bool_decide; [done|eauto].
Qed.

Lemma fund_insert now org amount reason pid run id lid d d1 u d2 :
  debit_admissible cfg now org amount pid d = true →
  posted (debit_entry now org amount reason pid d lid) d d1 →
  insert_outbox id (fund_row org run amount now (Some lid)) d1 = Ok (u, d2) → G d d2.
Proof.
  intros Had Hp Hi. unfold insert_outbox in Hi. rewrite (outbox_posted _ _ _ Hp) in Hi.
  destruct (outbox d !! id) eqn:Hid; repeat case_match; try done.
  injection Hi as <- <-.
  by apply (step_fund cfg now id (fund_row org run amount now (Some lid))
    (debit_entry now org amount reason pid d lid)).
Qed.

Lemma fund_commits org amount reason id run pid :
  commits G (debit_credit_with_delegation_refund cfg uuid org amount reason id run pid).
Proof.
  intros P HP. unfold debit_credit_with_delegation_refund. do 2 inv_step; [by inv_step|].
  do 3 inv_step; [by inv_step|]. intros now d x Hd.
  assert (∀ r, wpi (on_db P)
    (let '(success, actual, debited) := r in
     (if debited : bool then invalidate_quietly org else mret tt);; mret (success, actual))
    (λ r0 : res (bool * Z), match r0 with Ok _ => True | Raise _ => wpi (on_db P) (mret (false, 0)) (λ _, True) end))
    as Hk.
  { intros [[success actual] debited]. inv_step. destruct debited; [|by inv_auto].
    eapply wpi_mono; [apply invalidate_quietly_inv|]. intros r ->. by inv_step. }
  tx_step. tx_step; [by inv_step|]. tx_step.
  - tx_step; [tx_step; by inv_step|]. tx_step. by split.
  - tx_step. eapply wpt_mono; [apply debit_credit_locked_spec| |by intros; inv_step].
    intros r d1 Hr. unfold debit_outcome in Hr. destruct (debit_admissible _ _ _ _ _ _) eqn:Had.
    + destruct Hr as (lid & -> & Hp). cbn. tx_step. tx_step; [by inv_step|].
      destruct (insert_outbox _ _ _) as [[u d2]|e] eqn:Hi; [|by inv_step]. split; [|by inv_step].
      tx_step. split; [|apply (Hk (true, amount, true))]. eapply HP; [exact Hd|]. by eapply fund_insert.
    + destruct Hr as [-> ->]. cbn. tx_step. split; [done|apply (Hk (false, 0, false))].
Qed.

Lemma fund_delegation_commits org cost run url id pid :
  commits G (fund_delegation cfg uuid org cost run url id pid).
Proof.
  intros P HP. unfold fund_delegation. do 2 inv_step.
  eapply wpi_mono; [by apply fund_commits|]. intros [r|e] _; [by inv_step|done].
Qed.

Lemma commits_invalidate_if b org : commits G (invalidate_if b org).
Proof.
  intros P HP. unfold invalidate_if. do 2 inv_step. destruct b; [|by inv_auto].
  eapply wpi_mono; [apply invalidate_quietly_inv|]. intros r ->. by inv_step.
Qed.

Lemma update_outbox_step org id guard f now d n d' :
  update_outbox org id guard f now d = Ok (n, d') →
  (∀ o, outbox_row org id d = Some o → guard o = true → row_step o (f now o)) → d' = d ∨ G d d'.
Proof.
  intros Hu Hs. unfold update_outbox in Hu. destruct (outbox_row org id d) as [o|] eqn:Ho.
  - destruct (guard o) eqn:Hg; [|injection Hu as <- <-; by left].
    destruct (outbox_check _); [|done]. injection Hu as <- <-. right. eapply step_row; eauto.
  - injection Hu as <- <-. by left.
Qed.

Lemma mark_commits org id charge : commits G (mark_delegation_possibly_delivered cfg uuid org id charge).
Proof.
  apply commits_catch; [|intros; apply commits_ret]. apply commits_transaction. intros.
  eapply wpt_mono; [apply mark_spec| |done]. intros b d'. apply mark_outcome_step.
Qed.

Lemma confirm_commits org id tx : commits G (confirm_delegation_delivery org id tx).
Proof.
  apply commits_catch; [|intros; apply commits_ret]. apply commits_transaction. intros. apply confirm_spec.
Qed.

Lemma fail_commits org id reason : commits G (fail_delegation_delivery uuid org id reason).
Proof.
  apply commits_catch; [|intros; apply commits_ret].
  apply commits_bind; [apply commits_transaction; intros; apply fail_spec|].
  intros [b|b]; [apply commits_ret|apply commits_invalidate_if].
Qed.

Lemma request_commits org id : commits G (request_delegation_refund org id).
Proof.
  apply commits_catch; [|intros; apply commits_ret]. apply commits_bind.
  - apply commits_stmt. intros now d a d' Hu. eapply update_outbox_step; [exact Hu|].
    intros o _ Hg. unfold status_is, delivery_is in Hg. case_bool. apply row_request; set_solver.
  - intros n. case_match; [apply commits_ret|]. apply commits_bind; [apply commits_query|].
    intros. apply commits_ret.
Qed.

Lemma cancel_commits org id : commits G (cancel_delegation_refund org id).
Proof.
  apply commits_catch; [|intros; apply commits_ret]. apply commits_bind.
  - apply commits_stmt. intros now d a d' Hu. eapply update_outbox_step; [exact Hu|].
    intros o _ Hg. unfold status_is, delivery_is in Hg. case_bool. apply row_cancel.
    + unfold open_refund. set_solver.
    + intros Hf. rewrite Hf in *. set_solver.
  - intros n. case_match; [apply commits_ret|]. apply commits_bind; [apply commits_query|].
    intros. apply commits_ret.
Qed.

Lemma complete_commits org id : commits G (complete_delegation_refund uuid org id).
Proof.
  apply commits_catch; [|intros; apply commits_ret].
  apply commits_bind; [apply commits_transaction; intros; apply complete_spec|].
  intros [b|b]; [apply commits_ret|apply commits_invalidate_if].
Qed.

Lemma record_event_commits org run url name task cost bm tx err ty id fo :
  commits G (record_delegation_event uuid org run url name task cost bm tx err ty id fo).
Proof.
  apply commits_catch; [|intros; apply commits_ret]. apply commits_bind.
  - intros P HP. destruct (truthy_id id); by inv_auto.
  - intros i. apply commits_bind; [|intros; apply commits_ret]. apply commits_stmt.
    intros now d a d' Hi. unfold insert_delegation_event in Hi. repeat case_match; try done; injection Hi as <- <-.
    + by left.
    + right. apply step_event; [done|]. cbn in *. eauto.
Qed.

Lemma process_refund_outbox_commits n : commits G (process_delegation_refund_outbox uuid n).
Proof.
  apply commits_bind; [apply commits_query|]. intros rows. apply commits_for_each. intros acc [[id o] ev].
  cbv beta zeta iota. case_match; [apply commits_ret|]. apply commits_bind; [|intros; apply commits_ret].
  case_match; [apply cancel_commits|]. apply commits_bind; [apply request_commits|].
  intros. apply complete_commits.
Qed.
End delegation_commits.

(** ** The escrow invariant *)
Definition live_amount (org : string) (o : OutboxRow) : Z :=
  if bool_decide (o_org o = org) && negb (bool_decide (o_status o = RRefunded)) then o_amount o else 0.

(** What an organisation paid for delegations that were not refunded. *)
Definition held (org : string) (d : Db) : Z := msum (λ _ o, live_amount org o) (outbox d).

Definition credit_value (org : string) (d : Db) : Z := balance org d + held org d.

(** The reachable combinations of the two statuses. *)
Definition coherent (o : OutboxRow) : Prop :=
  match o_status o, o_delivery o with
  | (RPending | RRefundRequested), (NotAttempted | PossiblyDelivered) => True
  | RRefunded, (NotAttempted | Failed) => True
  | RCancelled, Confirmed => True
  | _, _ => False
  end ∧
  (o_delivery o = NotAttempted → o_started_at o = None) ∧
  (o_delivery o = PossiblyDelivered → is_Some (o_started_at o)).

Definition reversal_agrees (o : OutboxRow) (rev : option LedgerRow) : Prop :=
  match rev with
  | Some r => o_status o = RRefunded ∧ l_amount r = o_amount o ∧ l_org r = o_org o ∧ l_op r = Topup
  | None => o_status o ≠ RRefunded
  end.

Record escrow (d : Db) : Prop := {
  escrow_check : ∀ id o, outbox d !! id = Some o → outbox_check o = true;
  escrow_coherent : ∀ id o, outbox d !! id = Some o → coherent o;
  escrow_debit : ∀ id o l, outbox d !! id = Some o → o_debit_ledger o = Some l →
    ∃ r, ledger_row l d = Some r ∧ l_op r = Debit ∧ l_org r = o_org o ∧ o_amount o ≤ l_amount r;
  escrow_unique : ∀ id id' o o' l, outbox d !! id = Some o → outbox d !! id' = Some o' →
    o_debit_ledger o = Some l → o_debit_ledger o' = Some l → id = id';
  escrow_reversal : ∀ id o l, outbox d !! id = Some o → o_debit_ledger o = Some l →
    reversal_agrees o (reversal_of l d);
}.

(** Lookups in the ledger after a posting. *)
Lemma find_app_some {A} (p : A → bool) l1 l2 a : find p l1 = Some a → find p (l1 ++ l2) = Some a.
Proof. induction l1 as [|b l1 IH]; simpl; [done|]. by case_match. Qed.

Lemma find_app_none {A} (p : A → bool) l1 l2 : find p l1 = None → find p (l1 ++ l2) = find p l2.
Proof. induction l1 as [|b l1 IH]; simpl; [done|]. by case_match. Qed.

Lemma ledger_row_posted r d d' l q : posted r d d' → ledger_row l d = Some q → ledger_row l d' = Some q.
Proof. intros Hp Hq. unfold ledger_row. rewrite (ledger_posted _ _ _ Hp). by apply find_app_some. Qed.

Lemma posted_fresh r d d' : posted r d d' → ledger_row (l_id r) d = None ∧ ledger_row (l_id r) d' = Some r.
Proof.
  intros Hp. assert (ledger_row (l_id r) d = None) as Hn.
  { destruct Hp as (_ & _ & _ & _ & _ & Hc & _). unfold ledger_conflict in Hc. case_bool.
    by apply eq_None_not_Some. }
  split; [done|]. unfold ledger_row in *. rewrite (ledger_posted _ _ _ Hp), find_app_none by done.
  simpl. by rewrite bool_decide_true.
Qed.

Lemma reversal_posted r d d' l :
  posted r d d' →
  reversal_of l d' = if bool_decide (l_reverses r = Some l) then Some r else reversal_of l d.
Proof.
  intros Hp. unfold reversal_of. rewrite (ledger_posted _ _ _ Hp). case_bool_decide as Hr.
  - rewrite find_app_none; [simpl; by rewrite bool_decide_true|].
    destruct Hp as (_ & _ & _ & _ & _ & Hc & _). unfold ledger_conflict in Hc. rewrite Hr in Hc. case_bool.
    by apply eq_None_not_Some.
  - destruct (find _ (ledger d)) eqn:Hf; [by apply find_app_some|].
    rewrite find_app_none by done. simpl. by rewrite bool_decide_false.
Qed.

(** Postings that reverse nothing, by any component, leave the escrow alone. *)
Lemma escrow_posted r d d' : escrow d → posted r d d' → l_reverses r = None → escrow d'.
Proof.
  intros He Hp Hr. pose proof (outbox_posted _ _ _ Hp) as Ho. constructor; rewrite ?Ho; intros.
  - by eapply escrow_check.
  - by eapply escrow_coherent.
  - destruct (escrow_debit d He id o l H H0) as (q & Hq & ?). exists q. split; [|done].
    by eapply ledger_row_posted.
  - by eapply (escrow_unique d He).
  - rewrite (reversal_posted _ _ _ _ Hp), Hr, bool_decide_false by done. by eapply escrow_reversal.
Qed.

(** The escrow looks at two tables only. *)
Lemma escrow_same d d' : escrow d → outbox d' = outbox d → ledger d' = ledger d → escrow d'.
Proof.
  intros He Ho Hl. constructor; rewrite ?Ho; intros.
  - by eapply escrow_check.
  - by eapply escrow_coherent.
  - unfold ledger_row. rewrite Hl. by eapply escrow_debit.
  - by eapply (escrow_unique d He).
  - unfold reversal_of. rewrite Hl. by eapply escrow_reversal.
Qed.

(** Replacing a row by one with the same claim and the right reversal. *)
Lemma escrow_update id o o' d :
  escrow d → outbox d !! id = Some o → outbox_check o' = true → coherent o' →
  o_org o' = o_org o → o_debit_ledger o' = o_debit_ledger o → o_amount o' ≤ o_amount o →
  (∀ l, o_debit_ledger o = Some l → reversal_agrees o' (reversal_of l d)) →
  escrow (d <| outbox ::= <[id := o']> |>).
Proof.
  intros He Hid Hchk Hcoh Horg Hdeb Hamt Hrev.
  assert (∀ i q, outbox (d <| outbox ::= <[id := o']> |>) !! i = Some q →
    i = id ∧ q = o' ∨ i ≠ id ∧ outbox d !! i = Some q) as Hl.
  { intros i q Hq. cbn in Hq. apply lookup_insert_Some in Hq as [[<- <-]|[? ?]]; auto. }
  assert (∀ i q l, outbox (d <| outbox ::= <[id := o']> |>) !! i = Some q → o_debit_ledger q = Some l →
    ∃ q0, outbox d !! i = Some q0 ∧ o_debit_ledger q0 = Some l) as Hold.
  { intros i q l Hq Hd. destruct (Hl _ _ Hq) as [[-> ->]|[? ?]]; [|by exists q].
    exists o. split; [done|]. congruence. }
  constructor; intros.
  - destruct (Hl _ _ H) as [[-> ->]|[? ?]]; [done|by eapply escrow_check].
  - destruct (Hl _ _ H) as [[-> ->]|[? ?]]; [done|by eapply escrow_coherent].
  - destruct (Hl _ _ H) as [[-> ->]|[? ?]]; [|by eapply (escrow_debit d)].
    destruct (escrow_debit d He id o l Hid) as (r & ? & ? & ? & ?); [congruence|].
    exists r. split_and!; [done|done|congruence|lia].
  - destruct (Hold _ _ _ H H1) as (q0 & ? & ?), (Hold _ _ _ H0 H2) as (q1 & ? & ?).
    by eapply (escrow_unique d He).
  - destruct (Hl _ _ H) as [[-> ->]|[? ?]]; [apply Hrev; congruence|by eapply (escrow_reversal d)].
Qed.

Lemma held_update org id o o' d :
  outbox d !! id = Some o →
  held org (d <| outbox ::= <[id := o']> |>) = held org d - live_amount org o + live_amount org o'.
Proof. intros Hid. unfold held. cbn. by rewrite (msum_update _ _ _ o). Qed.

Lemma held_insert org id o d :
  outbox d !! id = None →
  held org (d <| outbox ::= <[id := o]> |>) = live_amount org o + held org d.
Proof. intros Hid. unfold held. cbn. by rewrite msum_insert. Qed.

Lemma held_posted org r d d' : posted r d d' → held org d' = held org d.
Proof. intros Hp. unfold held. by rewrite (outbox_posted _ _ _ Hp). Qed.

Lemma credit_value_posted org r d d' :
  posted r d d' → credit_value org d' = credit_value org d + org_signed org r.
Proof. intros Hp. unfold credit_value. rewrite (balance_posted _ _ _ _ Hp), (held_posted _ _ _ _ Hp). lia. Qed.

Section delegation_invariants.
Context (cfg : Settings).

Lemma live_amount_open org o : open_refund o → live_amount org o = if bool_decide (o_org o = org) then o_amount o else 0.
Proof. destruct o. unfold live_amount, open_refund. cbn. intros [->| ->]; by case_bool_decide. Qed.

Lemma live_amount_refunded org o : o_status o = RRefunded → live_amount org o = 0.
Proof. destruct o. unfold live_amount. cbn. intros ->. by rewrite andb_false_r. Qed.

Lemma org_signed_topup org o r : plain_topup o r.(l_amount) r → org_signed org r =
  if bool_decide (o = org) then l_amount r else 0.
Proof. intros (<- & Hop & _). unfold org_signed, signed. by rewrite Hop. Qed.

Lemma credit_value_row org id o o' d :
  outbox d !! id = Some o →
  credit_value org (d <| outbox ::= <[id := o']> |>) =
  credit_value org d - live_amount org o + live_amount org o'.
Proof.
  intros Hid. unfold credit_value. rewrite (held_update _ _ _ _ _ Hid).
  change (balance org (d <| outbox ::= <[id := o']> |>)) with (balance org d). lia.
Qed.

(** The row changes that move no money keep the row's claim and live amount. *)
Lemma row_step_facts o o' :
  row_step o o' → coherent o → outbox_check o = true →
  same_claim o o' ∧ coherent o' ∧ outbox_check o' = true ∧ o_status o ≠ RRefunded ∧ o_status o' ≠ RRefunded.
Proof.
  intros Hs Hc Hchk. unfold coherent, outbox_check, open_refund, cancelled_row, delivery_is in *.
  destruct Hs as [now tx o|now tx o|o|now o]; unfold open_refund, cancelled_row, delivery_is in *;
    destruct o as [org run amt deb st cr res del sta dr stx err]; cbn in *;
    repeat match goal with H : _ ∨ _ |- _ => destruct H end; subst; cbn in *; try done.
  all: repeat match goal with
    | s : refund_status |- _ => destruct s
    | s : delivery_status |- _ => destruct s
    end; cbn in *; try (by destruct Hc).
  all: case_bool; unfold same_claim; cbn; destruct Hc as (_ & Hs1 & Hs2).
  all: split_and?; try done; intros; try discriminate; auto.
  all: by apply andb_true_iff; split; [lia|].
Qed.

Lemma reversal_agrees_same o o' rev :
  same_claim o o' → o_status o ≠ RRefunded → o_status o' ≠ RRefunded →
  reversal_agrees o rev → reversal_agrees o' rev.
Proof. intros (Ho & _ & Ha & _) Hs Hs'. destruct rev; cbn; [|done]. by intros (? & _). Qed.

Lemma refundable_coherent o o' :
  refundable o o' → 0 < o_amount o → coherent o → coherent o' ∧ outbox_check o' = true.
Proof.
  intros (Hopen & Hs & (_ & _ & Ha & _ & _ & Hst) & Hres & Hd) Hpos [Hc [Hn Hp]].
  unfold coherent, outbox_check. rewrite Hs, Ha, Hst. split.
  - split; [by destruct Hd as [[-> _]|[-> _]]|]. split; intros Hx.
    + destruct Hd as [[Hf _]|(_ & Hna & _)]; [congruence|auto].
    + destruct Hd as [[Hf _]|(Hf & _ & _)]; congruence.
  - apply andb_true_iff. split; [lia|by apply bool_decide_eq_true].
Qed.

Lemma fund_keeps_escrow id o r d d1 :
  books d → escrow d → outbox d !! id = None →
  l_org r = o_org o → l_op r = Debit → l_amount r = o_amount o → l_reverses r = None →
  o_debit_ledger o = Some (l_id r) → o_status o = RPending → o_delivery o = NotAttempted →
  o_started_at o = None → o_resolved_at o = None → posted r d d1 →
  escrow (d1 <| outbox ::= <[id := o]> |>) ∧
  ∀ org, credit_value org (d1 <| outbox ::= <[id := o]> |>) = credit_value org d.
Proof.
  intros Hbk He Hid Horg Hop Hamt Hrev Hdeb Hst Hdel Hsta Hres Hp.
  pose proof (escrow_posted _ _ _ He Hp Hrev) as He1. pose proof (outbox_posted _ _ _ Hp) as Hob.
  destruct (posted_fresh _ _ _ Hp) as [Hfresh Hrow].
  assert (0 < l_amount r) as Hpos by (destruct Hp as (_ & _ & _ & _ & ? & _); done).
  assert (reversal_of (l_id r) d1 = None) as Hnr.
  { rewrite (reversal_posted _ _ _ _ Hp), Hrev, bool_decide_false by done.
    apply new_row_not_reversed; [done|]. by destruct Hp as (_ & _ & _ & _ & _ & ? & _). }
  assert (∀ i q, outbox (d1 <| outbox ::= <[id := o]> |>) !! i = Some q →
    i = id ∧ q = o ∨ i ≠ id ∧ outbox d1 !! i = Some q) as Hl.
  { intros i q Hq. cbn in Hq. apply lookup_insert_Some in Hq as [[<- <-]|[? ?]]; auto. }
  assert (∀ i q, outbox d1 !! i = Some q → o_debit_ledger q ≠ Some (l_id r)) as Hother.
  { rewrite Hob. intros i q Hq Hd. destruct (escrow_debit d He i q _ Hq Hd) as (x & Hx & _). congruence. }
  split.
  - constructor; intros.
    + destruct (Hl _ _ H) as [[-> ->]|[? ?]]; [|by eapply escrow_check].
      unfold outbox_check. rewrite Hst, Hres. apply andb_true_iff. split; [lia|done].
    + destruct (Hl _ _ H) as [[-> ->]|[? ?]]; [|by eapply escrow_coherent].
      unfold coherent. rewrite Hst, Hdel. split_and!; [done..|discriminate].
    + destruct (Hl _ _ H) as [[-> ->]|[? ?]]; [|by eapply (escrow_debit d1)].
      exists r. assert (l = l_id r) as -> by congruence. split_and!; [exact Hrow|done..|lia].
    + destruct (Hl _ _ H) as [[-> ->]|[? ?]], (Hl _ _ H0) as [[-> ->]|[? ?]]; try done.
      * exfalso. eapply Hother; [done|]. congruence.
      * exfalso. eapply Hother; [done|]. congruence.
      * by eapply (escrow_unique d1 He1).
    + destruct (Hl _ _ H) as [[-> ->]|[? ?]]; [|by eapply (escrow_reversal d1)].
      assert (l = l_id r) as -> by congruence.
      change (reversal_of (l_id r) (d1 <| outbox ::= _ |>)) with (reversal_of (l_id r) d1).
      rewrite Hnr. cbn. by rewrite Hst.
  - intros org. unfold credit_value. rewrite held_insert by (by rewrite Hob).
    rewrite (held_posted _ _ _ _ Hp), live_amount_open by (by left).
    change (balance org (d1 <| outbox ::= <[id := o]> |>)) with (balance org d1).
    rewrite (balance_posted _ _ _ org Hp). unfold org_signed, signed. rewrite Hop, Horg, Hamt.
    case_bool_decide; lia.
Qed.

Lemma mark_keeps_escrow now org id o c d d1 :
  escrow d → outbox_row org id d = Some o → o_delivery o = NotAttempted → open_refund o →
  0 < c ≤ o_amount o →
  (c = o_amount o ∧ d1 = d ∨ ∃ r, plain_topup org (o_amount o - c) r ∧ posted r d d1) →
  escrow (d1 <| outbox ::= <[id := marked now c o]> |>) ∧
  ∀ o0, credit_value o0 (d1 <| outbox ::= <[id := marked now c o]> |>) = credit_value o0 d.
Proof.
  intros He Ho Hdel Hopen Hc Hadj. apply outbox_row_some in Ho as [Hid Horg].
  assert (escrow d1 ∧ outbox d1 !! id = Some o ∧
    ∀ o0, credit_value o0 d1 = credit_value o0 d + if bool_decide (org = o0) then o_amount o - c else 0)
    as (He1 & Hid1 & Hv).
  { destruct Hadj as [[-> ->]|(r & Hr & Hp)].
    - split_and!; [done..|]. intros. case_bool_decide; lia.
    - destruct Hr as (Hro & Hrop & Hra & Hrr). split_and!.
      + by eapply escrow_posted.
      + by rewrite (outbox_posted _ _ _ Hp).
      + intros o0. rewrite (credit_value_posted _ _ _ _ Hp). unfold org_signed, signed.
        rewrite Hrop, Hra, Hro. done. }
  pose proof (escrow_check d1 He1 _ _ Hid1) as Hchk. pose proof (escrow_coherent d1 He1 _ _ Hid1) as Hcoh.
  split.
  - eapply escrow_update; try done.
    + unfold outbox_check in *. case_bool. apply andb_true_iff. split; [cbn; lia|].
      unfold marked. cbn. by destruct Hopen as [Hs|Hs]; rewrite Hs in *.
    + unfold coherent, marked. cbn. destruct Hopen as [-> | ->];
        split_and!; try done; by eauto with teardrop.
    + unfold marked. cbn. lia.
    + intros l Hl. pose proof (escrow_reversal d1 He1 _ _ _ Hid1 Hl) as Hag.
      destruct (reversal_of l d1) as [r|]; cbn in *; [|done].
      destruct Hag as [Hs _], Hopen; congruence.
  - intros o0. rewrite (credit_value_row _ _ _ _ _ Hid1), Hv.
    rewrite !live_amount_open by done. unfold marked. cbn. subst org.
    destruct (decide (o_org o = o0)); [rewrite !bool_decide_true by done|rewrite !bool_decide_false by done]; lia.
Qed.

Lemma refund_keeps_escrow org id o o' r d d1 :
  escrow d → outbox_row org id d = Some o → refundable o o' → refund_row o r → posted r d d1 →
  escrow (d1 <| outbox ::= <[id := o']> |>) ∧
  ∀ o0, credit_value o0 (d1 <| outbox ::= <[id := o']> |>) = credit_value o0 d.
Proof.
  intros He Ho Hr (Hro & Hrop & Hra & Hrr) Hp. apply outbox_row_some in Ho as [Hid Horg].
  pose proof (escrow_check d He _ _ Hid) as Hchk. unfold outbox_check in Hchk. case_bool.
  destruct (refundable_coherent _ _ Hr) as [Hcoh' Hchk']; [done|by eapply escrow_coherent|].
  destruct Hr as (Hopen & Hs' & (Horg' & _ & Hamt' & Hdeb' & _) & _).
  pose proof (outbox_posted _ _ _ Hp) as Hob.
  split.
  - constructor.
    + intros i q Hq. cbn in Hq. rewrite Hob in Hq.
      apply lookup_insert_Some in Hq as [[<- <-]|[? Hq]]; [done|by eapply escrow_check].
    + intros i q Hq. cbn in Hq. rewrite Hob in Hq.
      apply lookup_insert_Some in Hq as [[<- <-]|[? Hq]]; [done|by eapply escrow_coherent].
    + intros i q l Hq Hl. cbn in Hq. rewrite Hob in Hq.
      assert (∃ q0, outbox d !! i = Some q0 ∧ o_debit_ledger q0 = Some l ∧ o_org q0 = o_org q ∧
        o_amount q0 = o_amount q) as (q0 & Hq0 & Hl0 & Ho0 & Ha0).
      { apply lookup_insert_Some in Hq as [[<- <-]|[? Hq]]; [exists o|exists q]; split_and!; congruence. }
      destruct (escrow_debit d He i q0 l Hq0 Hl0) as (x & Hx & Hx1 & Hx2 & Hx3).
      exists x. split_and!; [|done|congruence|lia].
      change (ledger_row l (d1 <| outbox ::= _ |>)) with (ledger_row l d1). by eapply ledger_row_posted.
    + intros i i' q q' l Hq Hq' Hl Hl'. cbn in Hq, Hq'. rewrite Hob in Hq, Hq'.
      apply lookup_insert_Some in Hq as [[<- <-]|[? Hq]];
        apply lookup_insert_Some in Hq' as [[<- <-]|[? Hq']]; [done| | |].
      * exfalso. assert (id = i') by (eapply (escrow_unique d He); eauto; congruence). done.
      * exfalso. assert (i = id) by (eapply (escrow_unique d He); eauto; congruence). done.
      * by eapply (escrow_unique d He).
    + intros i q l Hq Hl. cbn in Hq. rewrite Hob in Hq.
      change (reversal_of l (d1 <| outbox ::= _ |>)) with (reversal_of l d1).
      rewrite (reversal_posted _ _ _ _ Hp), Hrr.
      apply lookup_insert_Some in Hq as [[<- <-]|[Hne Hq]].
      * rewrite bool_decide_true by congruence. cbn. split_and!; congruence.
      * rewrite bool_decide_false; [by eapply escrow_reversal|]. intros Hx.
        apply Hne. by eapply (escrow_unique d He).
  - intros o0. rewrite (credit_value_row _ _ o) by (by rewrite Hob).
    rewrite (credit_value_posted _ _ _ _ Hp), live_amount_open, live_amount_refunded by done.
    unfold org_signed, signed. rewrite Hrop, Hra, Hro. lia.
Qed.

Lemma delegation_step_escrow d d' :
  books d → escrow d → delegation_step cfg d d' →
  escrow d' ∧ ∀ org, credit_value org d' = credit_value org d.
Proof.
  intros Hbk He Hs. destruct Hs as [now id o r d d1 Hid _ Horg Hop Hamt Hrev Hdeb Hst Hdel Hsta Hres Hp
    |now org id o c d d1 Ho Hdel Hopen Hc Hcap Hadj|org id o o' r d d1 Ho Hr Hrow Hp
    |org id o o' l d Ho Hr Hl Hrev|org id o o' d Ho Hstep|id ev d Hid Horg].
  - by apply fund_keeps_escrow with (r := r) (d := d).
  - by eapply mark_keeps_escrow.
  - by eapply refund_keeps_escrow.
  - exfalso. apply outbox_row_some in Ho as [Hid _].
    pose proof (escrow_reversal d He id o l Hid Hl) as Hag. destruct Hrev as [r Hrev]. rewrite Hrev in Hag.
    destruct Hag as [Hs _], Hr as [[Ho|Ho] _]; congruence.
  - apply outbox_row_some in Ho as [Hid _].
    destruct (row_step_facts _ _ Hstep (escrow_coherent d He _ _ Hid) (escrow_check d He _ _ Hid))
      as (Hsame & Hcoh & Hchk & Hn & Hn').
    pose proof Hsame as (Horg & Hrun & Hamt & Hdeb & _). split.
    + eapply escrow_update; try done; [lia|]. intros l Hl.
      eapply reversal_agrees_same; [exact Hsame|exact Hn|done|]. by eapply escrow_reversal.
    + intros o0. rewrite (credit_value_row _ _ _ _ _ Hid). unfold live_amount. rewrite Horg, Hamt.
      rewrite !(bool_decide_false (_ = RRefunded)) by done. lia.
  - split; [by eapply escrow_same|]. done.
Qed.
End delegation_invariants.

(** ** All operations of the component *)
Inductive delegation_op :=
  | OpFund (org : string) (cost : Z) (run url id : string) (pid : option string)
  | OpMark (org id : string) (charge : option Z)
  | OpConfirm (org id : string) (tx : option string)
  | OpFail (org id reason : string)
  | OpRequest (org id : string)
  | OpCancel (org id : string)
  | OpComplete (org id : string)
  | OpReconcile (n : Z)
  | OpEvent (org run url name task : string) (cost : Z) (bm tx err ty : string) (id : option string) (fo : string).

Definition ignore {A} (m : Handler A) : Handler unit := m;; mret tt.

Section delegation_ops.
Context (cfg : Settings) (uuid : nat → string).

Definition perform_delegation (op : delegation_op) : Handler unit :=
  match op with
  | OpFund org cost run url id pid => ignore (fund_delegation cfg uuid org cost run url id pid)
  | OpMark org id charge => ignore (mark_delegation_possibly_delivered cfg uuid org id charge)
  | OpConfirm org id tx => ignore (confirm_delegation_delivery org id tx)
  | OpFail org id reason => ignore (fail_delegation_delivery uuid org id reason)
  | OpRequest org id => ignore (request_delegation_refund org id)
  | OpCancel org id => ignore (cancel_delegation_refund org id)
  | OpComplete org id => ignore (complete_delegation_refund uuid org id)
  | OpReconcile n => ignore (process_delegation_refund_outbox uuid n)
  | OpEvent org run url name task cost bm tx err ty id fo =>
      ignore (record_delegation_event uuid org run url name task cost bm tx err ty id fo)
  end.

Lemma perform_delegation_commits op : commits (delegation_step cfg) (perform_delegation op).
Proof.
  destruct op; (apply commits_bind; [|intros; apply commits_ret]).
  - apply fund_delegation_commits.
  - apply mark_commits.
  - apply confirm_commits.
  - apply fail_commits.
  - apply request_commits.
  - apply cancel_commits.
  - apply complete_commits.
  - apply process_refund_outbox_commits.
  - apply record_event_commits.
Qed.

Lemma delegation_step_books d d' : books d → delegation_step cfg d d' → books d'.
Proof.
  intros Hbk Hs.
  assert (∀ dd f, books dd → books (dd <| outbox ::= f |>)) as Hob by (intros dd f Hdd; by apply (books_same dd)).
  destruct Hs as [now id o r d d1 Hid Had Horg Hop Hamt Hrev Hdeb Hst Hdel Hsta Hres Hp
    |now org id o c d d1 Ho Hdel Hopen Hc Hcap Hadj|org id o o' r d d1 Ho Hr Hrow Hp
    |org id o o' l d Ho Hr Hl Hrev|org id o o' d Ho Hstep|id ev d Hid Horg]; try apply Hob; try done.
  - by eapply books_posted.
  - destruct Hadj as [[_ ->]|(r & _ & Hp)]; [done|by eapply books_posted].
  - by eapply books_posted.
  - by apply (books_same d).
Qed.

Definition sound (d : Db) : Prop := books d ∧ escrow d.

Lemma delegation_step_sound d d' : sound d → delegation_step cfg d d' → sound d'.
Proof.
  intros [Hbk He] Hs. split; [by eapply delegation_step_books|]. by apply (delegation_step_escrow cfg d d').
Qed.

(** Run an operation under an invariant its steps keep. *)
Lemma perform_delegation_keeps (P : Db → Prop) op w :
  closed_under P (delegation_step cfg) → good (on_db P) w → good (on_db P) (perform_delegation op w).2.
Proof. intros HP Hw. apply preserves_good; [|done]. by apply perform_delegation_commits. Qed.

Lemma escrow_rows_step d d' id o :
  sound d → delegation_step cfg d d' → outbox d !! id = Some o →
  ∃ o', outbox d' !! id = Some o' ∧
    (o' = o ∨ row_step o o' ∨ refundable o o' ∨
     o_delivery o = NotAttempted ∧ open_refund o ∧ ∃ now c, o' = marked now c o).
Proof.
  intros [Hbk He] Hs Hid.
  destruct Hs as [now id0 o0 r d d1 Hid0 Had Horg Hop Hamt Hrev Hdeb Hst Hdel Hsta Hres Hp
    |now org id0 o0 c d d1 Ho Hdel Hopen Hc Hcap Hadj|org id0 o0 o' r d d1 Ho Hr Hrow Hp
    |org id0 o0 o' l d Ho Hr Hl Hrev|org id0 o0 o' d Ho Hstep|id0 ev d Hid0 Horg].
  - exists o. cbn. rewrite (outbox_posted _ _ _ Hp), lookup_insert_ne by congruence. auto.
  - apply outbox_row_some in Ho as [Hid0 _]. assert (outbox d1 = outbox d) as Hob.
    { destruct Hadj as [[_ ->]|(r & _ & Hp)]; [done|by eapply outbox_posted]. }
    cbn. rewrite Hob. destruct (decide (id0 = id)) as [->|Hne];
      [rewrite lookup_insert_eq|rewrite lookup_insert_ne by done; eauto].
    eexists. split; [done|]. assert (o0 = o) as -> by congruence. eauto 10.
  - apply outbox_row_some in Ho as [Hid0 _]. cbn. rewrite (outbox_posted _ _ _ Hp).
    destruct (decide (id0 = id)) as [->|Hne]; [rewrite lookup_insert_eq|rewrite lookup_insert_ne by done; eauto].
    eexists. split; [done|]. assert (o0 = o) as -> by congruence. auto.
  - apply outbox_row_some in Ho as [Hid0 _]. cbn.
    destruct (decide (id0 = id)) as [->|Hne]; [rewrite lookup_insert_eq|rewrite lookup_insert_ne by done; eauto].
    eexists. split; [done|]. assert (o0 = o) as -> by congruence. auto.
  - apply outbox_row_some in Ho as [Hid0 _]. cbn.
    destruct (decide (id0 = id)) as [->|Hne]; [rewrite lookup_insert_eq|rewrite lookup_insert_ne by done; eauto].
    eexists. split; [done|]. assert (o0 = o) as -> by congruence. auto.
  - exists o. auto.
Qed.

Definition final (o : OutboxRow) : Prop := o_status o = RRefunded ∨ o_status o = RCancelled.

Lemma final_row_step d d' id o :
  sound d ∧ final o ∧ outbox d !! id = Some o → delegation_step cfg d d' →
  sound d' ∧ final o ∧ outbox d' !! id = Some o.
Proof.
  intros (Hs & Hf & Hid) Hstep. split; [by eapply delegation_step_sound|]. split; [done|].
  destruct (escrow_rows_step _ _ _ _ Hs Hstep Hid) as (o' & Hid' & Hcase).
  destruct Hs as [_ He]. destruct (escrow_coherent d He _ _ Hid) as [Hc _].
  destruct Hcase as [->|[Hr|[Hr|(_ & Hopen & _)]]]; [done|exfalso..].
  - destruct Hr as [? ? o Hd Ho|? ? o Hd Ho|o Ho|? o Ho]; unfold open_refund, final in *.
    + destruct Hf, Ho; congruence.
    + rewrite Ho in Hc. destruct Hd as [Hd|Hd]; by rewrite Hd in Hc.
    + destruct Hf; congruence.
    + destruct Hf, Ho; congruence.
  - destruct Hr as [[Ho|Ho] _], Hf; congruence.
  - destruct Hf, Hopen; congruence.
Qed.
End delegation_ops.

(** ** Properties *)

(** C29. Delegation handlers neither create nor destroy credit.  For every
    organisation, its balance plus the funds of its delegations that were not refunded
    is constant under every handler of the component, whatever fails and however other
    processes that respect the same invariant are interleaved; the books and the escrow
    stay sound. *)
Theorem delegation_conserves_credit (cfg : Settings) (uuid : nat → string) (op : delegation_op)
    (org : string) (total : Z) (w : World Db Ext) :
  good (on_db (λ d, sound d ∧ credit_value org d = total)) w →
  let w' := (perform_delegation cfg uuid op w).2 in
  sound (db w') ∧ balance org (db w') + held org (db w') = total.
Proof.
  intros Hw. assert (good (on_db (λ d, sound d ∧ credit_value org d = total)) (perform_delegation cfg uuid op w).2)
    as (_ & H & _); [|exact H].
  apply (perform_delegation_keeps cfg uuid); [|done]. intros d d' [[Hbk He] Hv] Hs.
  split; [by eapply delegation_step_sound|]. by rewrite (proj2 (delegation_step_escrow cfg d d' Hbk He Hs)).
Qed.

(** A resolved delegation is final.  Once a row is refunded or cancelled, no
    handler, in any interleaving, changes any column of it: it is never refunded
    twice, never cancelled after a refund, never refunded after being kept. *)
Theorem resolved_delegation_is_final (cfg : Settings) (uuid : nat → string) (op : delegation_op)
    (id : string) (o : OutboxRow) (w : World Db Ext) :
  good (on_db (λ d, sound d ∧ final o ∧ outbox d !! id = Some o)) w →
  outbox (db (perform_delegation cfg uuid op w).2) !! id = Some o.
Proof.
  intros Hw. apply (perform_delegation_keeps cfg uuid) with (op := op) in Hw; [apply Hw|].
  intros d d'. apply final_row_step.
Qed.

Definition reversals (debit : string) (d : Db) : list LedgerRow :=
  filter (λ r, bool_decide (l_reverses r = Some debit) = true) (ledger d).

Lemma reversals_unique debit d :
  books d → reversals debit d = match reversal_of debit d with Some r => [r] | None => [] end.
Proof.
  intros Hbk. unfold reversals, reversal_of. pose proof (books_reversals d Hbk) as Hnd.
  induction (ledger d) as [|r l IH]; [done|]. rewrite filter_cons. simpl in *.
  destruct (l_reverses r) as [q|] eqn:Hr; [apply NoDup_cons in Hnd as [Hq Hnd]|].
  - destruct (decide (q = debit)) as [->|Hne].
    + rewrite decide_True, bool_decide_true by (by apply bool_decide_eq_true || done).
      f_equal. rewrite (IH Hnd). destruct (find _ l) as [x|] eqn:Hf; [|done]. exfalso. apply Hq.
      apply find_some in Hf as [Hin Hx]. case_bool. apply list_elem_of_omap. exists x.
      split; [by apply list_elem_of_In|done].
    + rewrite decide_False by (rewrite bool_decide_eq_true; congruence).
      rewrite bool_decide_false by congruence. by apply IH.
  - rewrite decide_False by (rewrite bool_decide_eq_true; congruence).
    rewrite bool_decide_false by congruence. by apply IH.
Qed.

(** C30. Refunds happen exactly once.  After any handler, a delegation linked to its
    debit has exactly one reversing ledger row, a top-up of exactly the amount it
    holds to the same organisation, when its status is refunded, and none
    otherwise. *)
Theorem refund_exactly_once (cfg : Settings) (uuid : nat → string) (op : delegation_op) (w : World Db Ext) :
  good (on_db sound) w →
  let d := db (perform_delegation cfg uuid op w).2 in
  ∀ id o debit, outbox d !! id = Some o → o_debit_ledger o = Some debit →
    if bool_decide (o_status o = RRefunded)
    then ∃ r, reversals debit d = [r] ∧ l_op r = Topup ∧ l_amount r = o_amount o ∧ l_org r = o_org o
    else reversals debit d = [].
Proof.
  intros Hw d id o debit Hid Hdeb.
  assert (sound d) as [Hbk He].
  { apply (perform_delegation_keeps cfg uuid) with (op := op) in Hw; [apply Hw|].
    intros ? ?. apply delegation_step_sound. }
  rewrite (reversals_unique _ _ Hbk). pose proof (escrow_reversal d He id o debit Hid Hdeb) as Hag.
  destruct (reversal_of debit d) as [r|]; cbn in Hag.
  - destruct Hag as (Hs & ? & ? & ?). rewrite bool_decide_true by done. by exists r.
  - by rewrite bool_decide_false.
Qed.

(** The documented life of a row: the pair of its refund and delivery statuses. *)
Definition transition (s s' : refund_status * delivery_status) : bool :=
  match s, s' with
  | (RPending, NotAttempted), (RRefundRequested, NotAttempted)
  | (RPending, NotAttempted), (RPending, PossiblyDelivered)
  | (RRefundRequested, NotAttempted), (RRefundRequested, PossiblyDelivered)
  | ((RPending | RRefundRequested), (NotAttempted | PossiblyDelivered)), (RCancelled, Confirmed)
  | ((RPending | RRefundRequested), PossiblyDelivered), (RRefunded, Failed)
  | (RRefundRequested, NotAttempted), (RRefunded, NotAttempted) => true
  | _, _ => false
  end.

Definition row_state (o : OutboxRow) : refund_status * delivery_status := (o_status o, o_delivery o).

Lemma row_transition o o' :
  coherent o → coherent o' →
  o' = o ∨ row_step o o' ∨ refundable o o' ∨
    o_delivery o = NotAttempted ∧ open_refund o ∧ (∃ now c, o' = marked now c o) →
  row_state o' = row_state o ∨ transition (row_state o) (row_state o') = true.
Proof.
  intros [Hc _] [Hc' _] Hcase. unfold row_state.
  destruct Hcase as [->|[Hr|[Hr|(Hd & Ho & now & c & ->)]]]; [by left|right..].
  - destruct Hr as [now tx o Hd Ho|now tx o Hd Ho|o Ho Hd|now o Ho Hd];
      destruct o as [org run amt deb st cr res del sta dr stx err];
      unfold cancelled_row, delivery_is, open_refund in *; cbn in *.
    + by destruct Hd, Ho; subst.
    + by destruct Hd; subst.
    + by destruct Hd; subst.
    + by destruct Ho, del; subst.
  - destruct Hr as (Ho & Hs' & _ & _ & [[Hd' [Hd|Hd]]|(Hd' & Hd & Hs)]); rewrite Hs', Hd', Hd in *.
    + by destruct Ho as [-> | ->].
    + by destruct Ho as [Ho|Ho]; rewrite Ho in Hc.
    + by rewrite Hs.
  - cbn. rewrite Hd. by destruct Ho as [-> | ->].
Qed.

(** The delivery state machine.  Whatever handlers run, a delegation that started
    in some state is still on record and its state is reachable from there by the
    documented transitions only; in particular a delegation that may have been
    delivered is refunded only by declaring it failed, and a confirmed one never. *)
Theorem delivery_state_machine (cfg : Settings) (uuid : nat → string) (op : delegation_op) (id : string)
    (s0 : refund_status * delivery_status) (w : World Db Ext) :
  good (on_db (λ d, sound d ∧ ∃ o, outbox d !! id = Some o ∧
                    rtc (λ s s', transition s s' = true) s0 (row_state o))) w →
  ∃ o, outbox (db (perform_delegation cfg uuid op w).2) !! id = Some o ∧
       rtc (λ s s', transition s s' = true) s0 (row_state o).
Proof.
  intros Hw. apply (perform_delegation_keeps cfg uuid) with (op := op) in Hw; [apply Hw|].
  intros d d' (Hs & o & Hid & Hr) Hstep. assert (sound d') as Hs' by by eapply delegation_step_sound.
  split; [done|]. destruct (escrow_rows_step _ _ _ _ _ Hs Hstep Hid) as (o' & Hid' & Hcase).
  exists o'. split; [done|].
  destruct (row_transition o o') as [->|Ht]; [apply (escrow_coherent d (proj2 Hs) _ _ Hid)|
    apply (escrow_coherent d' (proj2 Hs') _ _ Hid')|exact Hcase|done|].
  eapply rtc_r; [exact Hr|exact Ht].
Qed.

Section delegation_solo.
Context (cfg : Settings) (uuid : nat → string).

Lemma outflow_marked now id o c d d1 :
  outbox d !! id = Some o → o_started_at o = None → outbox d1 = outbox d →
  treasury_outflow_24h now (d1 <| outbox ::= <[id := marked now c o]> |>) = treasury_outflow_24h now d + c.
Proof.
  intros Hid Hst Hob. unfold treasury_outflow_24h. cbn. rewrite Hob, (msum_update _ _ _ o) by done.
  cbn. rewrite Hst. cbn. rewrite (proj2 (Z.leb_le _ _)); [lia|].
  unfold hours, seconds, microsecond_per_second. lia.
Qed.

Lemma mark_solo org id charge d x :
  wps (mark_delegation_possibly_delivered cfg uuid org id charge)
    (λ r d' _, (r = Ok false ∧ d' = d) ∨ ∃ now b, r = Ok b ∧ mark_outcome cfg now org id charge d b d') d x.
Proof.
  unfold mark_delegation_possibly_delivered. solo_step. solo_step; [solo_step; by left|]. intros now.
  eapply wpt_mono; [apply mark_spec| |by intros; solo_step; left].
  intros b d' Hm. right. eauto.
Qed.

(** [debit_credit_with_delegation_refund] for an id already funded. *)
Lemma fund_existing_solo org amount reason id run pid o d x :
  outbox_row org id d = Some o → 0 < amount →
  wps (debit_credit_with_delegation_refund cfg uuid org amount reason id run pid)
    (λ r d' _, d' = d ∧ (r = Ok (false, 0) ∨
       o_amount o = amount ∧ r = Ok (bool_decide (o_status o = RPending), amount))) d x.
Proof.
  intros Ho Hpos. unfold debit_credit_with_delegation_refund. rewrite (proj2 (Z.leb_gt _ _)) by lia.
  solo_step. solo_step. solo_step; [solo_step; auto|]. intros now. tx_step. tx_step; [solo_step; auto|].
  rewrite Ho. tx_step.
  - tx_step. solo_step. auto.
  - tx_step. cbn. case_bool. subst amount. solo_auto. auto.
Qed.

Lemma set_refunded_quiet org id at_time w o :
  outbox_row org id (db w) = Some o → o_status o = RRefundRequested →
  (o_delivery o = NotAttempted ∨ o_delivery o = Failed) → 0 < o_amount o →
  (∀ now t, is_Some (at_time now t)) →
  wpq (set_refunded org id at_time) (λ r w', tx_now w' = tx_now w ∧ (∃ n, r = Ok n) ∧
    ∃ o', outbox (db w') !! id = Some o' ∧ o_status o' = RRefunded) w.
Proof.
  intros Ho Hs Hd Hpos Ht. unfold set_refunded. quiet_step. unfold update_outbox. rewrite Ho.
  rewrite (proj2 (andb_true_iff _ _)) by (split; apply bool_decide_eq_true; set_solver).
  unfold outbox_check. cbn. destruct (Ht (sql_now w) (o_resolved_at o)) as [t Htt]. rewrite Htt. cbn.
  rewrite (proj2 (Z.ltb_lt _ _)) by done. cbn. split; [done|]. split; [eauto|].
  rewrite lookup_insert_eq. eauto.
Qed.

Lemma refund_insert_ok r d d1 :
  books d → adjusted (l_org r) (l_balance_after r) d d1 → is_Some (orgs d !! l_org r) →
  0 < l_amount r ≤ bigint_max → l_external_ref r = None →
  ledger_row (l_id r) d = None →
  (∀ l, l_reverses r = Some l → reversal_of l d = None ∧ is_Some (ledger_row l d)) →
  ∃ d2, insert_ledger r d1 = Ok (tt, d2).
Proof.
  intros Hbk (c & -> & _ & Hr & _) Horg Hpos Href Hfresh Hrev. unfold insert_ledger, is_bigint.
  rewrite !(proj2 (Z.leb_le bigint_min _)), !(proj2 (Z.leb_le _ bigint_max)) by (unfold bigint_min; lia).
  cbn. rewrite (proj2 (Z.leb_gt _ _)), (proj2 (Z.ltb_ge _ _)) by lia. cbn.
  unfold ledger_conflict, ledger_references_ok. rewrite Href.
  unfold reversal_of, ledger_row in *. cbn.
  rewrite Hfresh, bool_decide_false by (intros H; by destruct H). cbn.
  destruct (l_reverses r) as [l|]; [|rewrite bool_decide_true by done; cbn; eauto].
  destruct (Hrev l eq_refl) as [Hn Hrow].
  rewrite Hn, bool_decide_false by (intros H; by destruct H). rewrite !bool_decide_true by done. cbn. eauto.
Qed.

Lemma complete_refund_quiet org id o p w :
  sound (db w) → outbox_row org id (db w) = Some o → o_status o = RRefundRequested →
  (o_delivery o = NotAttempted ∨ o_delivery o = Failed) →
  is_Some (credits (db w) !! org) → is_Some (orgs (db w) !! org) →
  balance org (db w) + o_amount o ≤ bigint_max → ledger_row (uuid (uuid_n w)) (db w) = None →
  wpq (_complete_refund_locked uuid org id o p) (λ r w', tx_now w' = tx_now w ∧ r = Ok true ∧
    ∃ o', outbox (db w') !! id = Some o' ∧ o_status o' = RRefunded) w.
Proof.
  intros [Hbk He] Ho Hs Hd [c Hc] Horg Hmax Hfresh.
  apply outbox_row_some in Ho as Ho'. destruct Ho' as [Hid Hoo].
  pose proof (escrow_check _ He _ _ Hid) as Hchk. unfold outbox_check in Hchk. case_bool. clear H0.
  assert (∀ l, o_debit_ledger o = Some l → reversal_of l (db w) = None ∧ is_Some (ledger_row l (db w))) as Hrev.
  { intros l Hl. pose proof (escrow_reversal _ He _ _ _ Hid Hl) as Hag. split.
    - destruct (reversal_of l (db w)); [|done]. destruct Hag; congruence.
    - destruct (escrow_debit _ He _ _ _ Hid Hl) as (r & Hr & _). eauto. }
  unfold _complete_refund_locked. quiet_step.
  eapply (wpq_mono _ (λ r w', r = Ok None ∧ w' = w)).
  { destruct (o_debit_ledger o) as [l|]; [|by quiet_step]. case_bool_decide; [by quiet_step|].
    quiet_step. destruct (Hrev l eq_refl) as [-> _]. done. }
  intros r w' [-> ->]. quiet_step. quiet_step.
  destruct (credit_back org (o_amount o) (sql_now w) (db w)) as [[[b|] d1]|e] eqn:Hcb.
  2:{ unfold credit_back in Hcb. rewrite Hc in Hcb. by repeat case_match. }
  2:{ unfold balance in Hmax. unfold credit_back, is_bigint, bigint_min in Hcb. rewrite Hc in *. cbn in Hmax.
      pose proof (books_range _ Hbk _ _ Hc). repeat case_match; try done; case_bool; lia. }
  apply credit_back_ok in Hcb as [-> Ha]. cbn. quiet_step. quiet_step. quiet_step. quiet_step.
  set (row := MkLedger _ _ _ _ _ _ _ _ _ _).
  destruct (refund_insert_ok row (db w) d1) as [d2 Hi]; try done; [|].
  { cbn. destruct Ha as (_ & _ & _ & Hr & _). pose proof (balance_nonneg org _ Hbk). lia. }
  pose proof (insert_ledger_posted row _ _ _ _ Hi Ha ltac:(cbn; lia)) as Hp.
  change (sql_now (w <| db := d1 |> <| uuid_n ::= S |>)) with (sql_now w). fold row. rewrite Hi. cbn.
  quiet_step. eapply wpq_mono.
  { eapply (set_refunded_quiet org id _ _ o); try done.
    cbn. by rewrite (outbox_row_posted _ _ _ _ _ Hp). }
  intros r w' (Htx & [n ->] & Hout). quiet_step. by split_and!.
Qed.
End delegation_solo.

(** The treasury's daily cap holds at every signature.  When a delegation is
    newly marked possibly delivered (a payment is about to be signed), everything
    signed in the last 24 hours, this payment included, is within the configured cap,
    and exactly the difference between the held funds and the final charge is returned
    to the organisation; a refused claim changes nothing. *)
Theorem treasury_cap_enforced (cfg : Settings) (uuid : nat → string) (org id : string)
    (charge : option Z) (o : OutboxRow) (w : World Db Ext) :
  solo w → escrow (db w) → outbox_row org id (db w) = Some o → o_delivery o = NotAttempted →
  let '(r, w') := mark_delegation_possibly_delivered cfg uuid org id charge w in
  (r = Ok false ∧ db w' = db w) ∨
  (r = Ok true ∧ ∃ now o', outbox (db w') !! id = Some o' ∧ o_delivery o' = PossiblyDelivered ∧
     o_amount o' = default (o_amount o) charge ∧
     balance org (db w') = balance org (db w) + (o_amount o - o_amount o') ∧
     treasury_outflow_24h now (db w') ≤ a2a_treasury_daily_outflow_cap_usdc cfg).
Proof.
  intros Hw He Ho Hd. pose proof (mark_solo cfg uuid org id charge (db w) (ext w) w Hw eq_refl eq_refl) as H.
  destruct (mark_delegation_possibly_delivered _ _ _ _ _ _) as [r w'].
  destruct H as (_ & [?|(now & b & -> & Hm)]); [by left|].
  unfold mark_outcome in Hm. rewrite Ho in Hm. unfold delivery_is in Hm. rewrite Hd, bool_decide_false in Hm
    by set_solver.
  destruct b; [|by left]. right. split; [done|]. apply outbox_row_some in Ho as [Hid Horg].
  destruct Hm as (d1 & _ & _ & Hc & Hcap & Hadj & ->). destruct (escrow_coherent _ He _ _ Hid) as (_ & Hst & _).
  exists now, (marked now (default (o_amount o) charge) o). cbn. rewrite lookup_insert_eq.
  assert (outbox d1 = outbox (db w)) as Hob.
  { destruct Hadj as [[_ ->]|(r & _ & Hp)]; [done|by eapply outbox_posted]. }
  split_and!; try done.
  - change (balance org (d1 <| outbox ::= _ |>)) with (balance org d1).
    destruct Hadj as [[-> ->]|(r & (Hro & Hrop & Hra & _) & Hp)]; [lia|].
    rewrite (balance_posted _ _ _ _ Hp). unfold org_signed, signed.
    rewrite Hro, Hrop, Hra, bool_decide_true by done. cbn. lia.
  - etrans; [apply Z.eq_le_incl|exact Hcap].
    exact (outflow_marked now id o _ (db w) d1 Hid (Hst Hd) Hob).
Qed.

(** Funding is idempotent.  Funding a delegation id that already has an outbox row
    debits nothing and changes nothing; it reports success exactly when the amount is
    the one funded and the refund is still pending. *)
Theorem funding_is_idempotent (cfg : Settings) (uuid : nat → string) (org : string) (cost : Z)
    (run url id : string) (pid : option string) (o : OutboxRow) (w : World Db Ext) :
  solo w → outbox_row org id (db w) = Some o → 0 < cost →
  let '(r, w') := fund_delegation cfg uuid org cost run url id pid w in
  db w' = db w ∧ ∃ b, r = Ok b ∧ (b = true → o_amount o = cost ∧ o_status o = RPending).
Proof.
  intros Hw Ho Hpos.
  assert (wps (fund_delegation cfg uuid org cost run url id pid)
    (λ r d' _, d' = db w ∧ ∃ b, r = Ok b ∧ (b = true → o_amount o = cost ∧ o_status o = RPending))
    (db w) (ext w)) as H.
  { unfold fund_delegation. solo_step. eapply wps_mono; [by apply fund_existing_solo|].
    intros r d' x' (-> & [->|[Ha ->]]); solo_step; (split; [done|]); cbn; eexists; (split; [done|]); [done|].
    intros Hs. case_bool. done. }
  specialize (H w Hw eq_refl eq_refl). destruct (fund_delegation _ _ _ _ _ _ _ _ _). apply H.
Qed.

(** Progress of refunds: when nothing fails, completing a requested refund of a
    delegation that was never delivered (or failed) succeeds and the row becomes
    refunded.  (The account exists, its balance stays a BIGINT, the next id is fresh.) *)
Theorem requested_refund_completes (uuid : nat → string) (org id : string) (o : OutboxRow) (w : World Db Ext) :
  quiet w → tx_now w = None → sound (db w) → outbox_row org id (db w) = Some o →
  o_status o = RRefundRequested → (o_delivery o = NotAttempted ∨ o_delivery o = Failed) →
  is_Some (credits (db w) !! org) → is_Some (orgs (db w) !! org) →
  balance org (db w) + o_amount o ≤ bigint_max → ledger_row (uuid (uuid_n w)) (db w) = None →
  let '(r, w') := complete_delegation_refund uuid org id w in
  r = Ok true ∧ ∃ o', outbox (db w') !! id = Some o' ∧ o_status o' = RRefunded.
Proof.
  intros Hq Hn Hs Ho Hst Hd Hc Horg Hmax Hfresh.
  assert (wpq (complete_delegation_refund uuid org id) (λ r w', r = Ok true ∧
    ∃ o', outbox (db w') !! id = Some o' ∧ o_status o' = RRefunded) w) as H.
  { unfold complete_delegation_refund, complete_refund_transaction. quiet_step. quiet_step. quiet_step.
    quiet_step. quiet_step. rewrite Ho. cbn.
    rewrite (proj2 (andb_true_iff _ _)) by (split; apply bool_decide_eq_true; set_solver).
    quiet_step. eapply wpq_mono; [by eapply complete_refund_quiet|].
    intros r w' (Htx & -> & o' & Ho' & Hs'). quiet_step. unfold invalidate_if. quiet_step.
    eapply wpq_mono; [apply invalidate_quietly_quiet|]. intros r w2 [-> Hdb]. quiet_step. cbn in Hdb.
    rewrite Hdb. eauto. }
  specialize (H Hq). destruct (complete_delegation_refund _ _ _ _). apply H.
Qed.

(** ** A concrete delegation *)
Module DelegationDemo.
Definition cfg : Settings := CreditDemo.cfg <| a2a_delegation_billing_enabled := true |>.
Definition uuid := CreditDemo.uuid.
Definition start : World Db Ext := CreditDemo.w0 <| uuid_n := 50%nat |>.
Definition run (op : delegation_op) (w : World Db Ext) : World Db Ext := (perform_delegation cfg uuid op w).2.
Definition fund : delegation_op := OpFund "acme" 100000 "run-1" "https://agent" "del-1" (Some "alice").
Definition funded : World Db Ext := run fund start.
Definition delivered : World Db Ext := run (OpMark "acme" "del-1" (Some 80000)) funded.
Definition refunded : World Db Ext := run (OpFail "acme" "del-1" "timeout") delivered.
Definition requested : World Db Ext := run (OpRequest "acme" "del-1") funded.
(** Another process cancels the delegation between two statements of this one. *)
Definition cancelling : event Db Ext :=
  MkEvent 1000 FOk (λ d x,
    let w := (perform_delegation cfg uuid (OpCancel "acme" "del-1") (MkWorld d x 0 None [] 90)).2 in (db w, x)).
Definition contend (w : World Db Ext) : World Db Ext :=
  w <| sched := [cancelling; MkEvent 0 FFail (λ d x, (d, x))] |>.

Lemma sound_start : sound (db start).
Proof.
  split; [exact CreditDemo.books_w0|].
  assert (outbox (db start) = ∅) as Ho by reflexivity.
  constructor; rewrite Ho; intros *; by rewrite lookup_empty.
Qed.

Lemma sound_run op w : tx_now w = None → sched w = [] → sound (db w) → sound (db (run op w)).
Proof.
  intros Hn Hs Hw. assert (good (on_db sound) w) as Hg by (split_and!; [done|done|by rewrite Hs]).
  apply (perform_delegation_keeps cfg uuid sound op) in Hg; [apply Hg|].
  intros d d'. apply delegation_step_sound.
Qed.

Lemma respects_cancelling P :
  closed_under P (delegation_step cfg) → respects (on_db P) cancelling.
Proof.
  intros HP d x Hd. cbn [ev_env cancelling].
  set (w := MkWorld d x 0 None [] 90%nat).
  assert (good (on_db P) w) as Hg by (split_and!; done).
  pose proof (perform_delegation_keeps cfg uuid P (OpCancel "acme" "del-1") w HP Hg) as (_ & H & _).
  exact H.
Qed.

Lemma sound_funded : sound (db funded).
Proof. apply sound_run; [done|done|exact sound_start]. Qed.

Lemma sound_delivered : sound (db delivered).
Proof. apply sound_run; [vm_compute; reflexivity|vm_compute; reflexivity|exact sound_funded]. Qed.

Lemma sound_requested : sound (db requested).
Proof. apply sound_run; [vm_compute; reflexivity|vm_compute; reflexivity|exact sound_funded]. Qed.

Lemma good_contend P w :
  closed_under P (delegation_step cfg) → tx_now w = None → P (db w) → good (on_db P) (contend w).
Proof.
  intros HP Hn H0. split_and!; [exact Hn|exact H0|].
  constructor; [by apply respects_cancelling|]. constructor; [|constructor]. by intros d x.
Qed.

Lemma funded_idle : tx_now funded = None.
Proof. vm_compute. reflexivity. Qed.
End DelegationDemo.

Lemma delegation_conserves_credit_witness :
  let w' := (perform_delegation DelegationDemo.cfg DelegationDemo.uuid (OpFail "acme" "del-1" "timeout")
    DelegationDemo.delivered).2 in
  balance "acme" (db w') + held "acme" (db w') = 1000000.
Proof.
  apply (delegation_conserves_credit DelegationDemo.cfg DelegationDemo.uuid (OpFail "acme" "del-1" "timeout")
    "acme" 1000000 DelegationDemo.delivered).
  split; [vm_compute; reflexivity|]. split; [split; [exact DelegationDemo.sound_delivered|]|].
  - vm_compute. reflexivity.
  - assert (sched DelegationDemo.delivered = []) as -> by (vm_compute; reflexivity). constructor.
Defined.

Lemma resolved_delegation_is_final_witness :
  ∃ o, o_status o = RRefunded ∧
    outbox (db (perform_delegation DelegationDemo.cfg DelegationDemo.uuid (OpCancel "acme" "del-1")
      (DelegationDemo.contend DelegationDemo.refunded)).2) !! "del-1" = Some o.
Proof.
  assert (∃ o, outbox (db DelegationDemo.refunded) !! "del-1" = Some o ∧ o_status o = RRefunded) as (o & Ho & Hs)
    by (eexists; split; vm_compute; reflexivity).
  exists o. split; [exact Hs|].
  apply (resolved_delegation_is_final DelegationDemo.cfg DelegationDemo.uuid (OpCancel "acme" "del-1") "del-1" o).
  apply DelegationDemo.good_contend; [intros d d'; apply final_row_step|vm_compute; reflexivity|].
  split_and!; [|by left|exact Ho].
  apply DelegationDemo.sound_run; [vm_compute; reflexivity|vm_compute; reflexivity|].
  exact DelegationDemo.sound_delivered.
Defined.

Lemma refund_exactly_once_witness :
  let d := db (perform_delegation DelegationDemo.cfg DelegationDemo.uuid (OpFail "acme" "del-1" "timeout")
    DelegationDemo.delivered).2 in
  ∃ debit r, reversals debit d = [r] ∧ l_amount r = 80000.
Proof.
  assert (good (on_db sound) DelegationDemo.delivered) as Hg.
  { split_and!; [vm_compute; reflexivity|exact DelegationDemo.sound_delivered|].
    assert (sched DelegationDemo.delivered = []) as -> by (vm_compute; reflexivity). constructor. }
  pose proof (refund_exactly_once DelegationDemo.cfg DelegationDemo.uuid (OpFail "acme" "del-1" "timeout")
    DelegationDemo.delivered Hg) as H. cbv zeta in *.
  assert (∃ o l, outbox (db (perform_delegation DelegationDemo.cfg DelegationDemo.uuid
    (OpFail "acme" "del-1" "timeout") DelegationDemo.delivered).2) !! "del-1" = Some o
    ∧ o_debit_ledger o = Some l ∧ o_status o = RRefunded ∧ o_amount o = 80000) as (o & l & Ho & Hl & Hs & Ha)
    by (eexists _, _; split_and!; vm_compute; reflexivity).
  specialize (H "del-1" o l Ho Hl). rewrite Hs in H. destruct H as (r & Hr & _ & Hra & _).
  exists l, r. split; [exact Hr|]. rewrite Hra. exact Ha.
Defined.

Lemma delivery_state_machine_witness :
  ∃ o, outbox (db (perform_delegation DelegationDemo.cfg DelegationDemo.uuid (OpMark "acme" "del-1" None)
         (DelegationDemo.contend DelegationDemo.funded)).2) !! "del-1" = Some o ∧
       rtc (λ s s', transition s s' = true) (RPending, NotAttempted) (row_state o).
Proof.
  apply delivery_state_machine. apply DelegationDemo.good_contend.
  - intros d d' (Hs & o & Hid & Hr) Hstep.
    assert (sound d') as Hs' by (apply (delegation_step_sound DelegationDemo.cfg d); [exact Hs|exact Hstep]).
    split; [exact Hs'|]. destruct (escrow_rows_step _ _ _ _ _ Hs Hstep Hid) as (o' & Hid' & Hcase).
    exists o'. split; [exact Hid'|].
    destruct (row_transition o o') as [Heq|Ht]; [apply (escrow_coherent d (proj2 Hs) _ _ Hid)|
      apply (escrow_coherent d' (proj2 Hs') _ _ Hid')|exact Hcase|rewrite Heq; exact Hr|].
    exact (rtc_r _ _ _ Hr Ht).
  - exact DelegationDemo.funded_idle.
  - split; [exact DelegationDemo.sound_funded|].
    eexists. split; [vm_compute; reflexivity|apply rtc_refl].
Defined.

Lemma treasury_cap_enforced_witness :
  let w' := (mark_delegation_possibly_delivered DelegationDemo.cfg DelegationDemo.uuid "acme" "del-1"
    (Some 80000) DelegationDemo.funded).2 in
  balance "acme" (db w') = 920000 ∧
  ∃ now, treasury_outflow_24h now (db w') ≤ a2a_treasury_daily_outflow_cap_usdc DelegationDemo.cfg.
Proof.
  assert (∃ o, outbox_row "acme" "del-1" (db DelegationDemo.funded) = Some o ∧ o_delivery o = NotAttempted
    ∧ o_amount o = 100000) as (o & Ho & Hd & Ha) by (eexists; split_and!; vm_compute; reflexivity).
  assert (solo DelegationDemo.funded) as Hw.
  { split; [exact DelegationDemo.funded_idle|].
    assert (sched DelegationDemo.funded = []) as -> by (vm_compute; reflexivity). constructor. }
  pose proof (treasury_cap_enforced DelegationDemo.cfg DelegationDemo.uuid "acme" "del-1" (Some 80000) o
    DelegationDemo.funded Hw (proj2 DelegationDemo.sound_funded) Ho Hd) as H.
  assert ((mark_delegation_possibly_delivered DelegationDemo.cfg DelegationDemo.uuid "acme" "del-1"
    (Some 80000) DelegationDemo.funded).1 = Ok true) as Hr by (vm_compute; reflexivity).
  assert (balance "acme" (db DelegationDemo.funded) = 900000) as Hb by (vm_compute; reflexivity).
  cbv zeta. destruct (mark_delegation_possibly_delivered _ _ _ _ _ _) as [r w']. cbn in Hr |- *. subst r.
  destruct H as [[? _]|(_ & now & o' & _ & _ & Ha' & Hbal & Hcap)]; [discriminate|].
  rewrite Hb, Ha, Ha' in Hbal. cbn in Hbal. split; [exact Hbal|]. exists now. exact Hcap.
Defined.

Lemma funding_is_idempotent_witness :
  db (fund_delegation DelegationDemo.cfg DelegationDemo.uuid "acme" 100000 "run-1" "https://agent" "del-1"
        (Some "alice") DelegationDemo.funded).2 = db DelegationDemo.funded.
Proof.
  assert (∃ o, outbox_row "acme" "del-1" (db DelegationDemo.funded) = Some o) as (o & Ho)
    by (eexists; vm_compute; reflexivity).
  assert (solo DelegationDemo.funded) as Hw.
  { split; [exact DelegationDemo.funded_idle|].
    assert (sched DelegationDemo.funded = []) as -> by (vm_compute; reflexivity). constructor. }
  pose proof (funding_is_idempotent DelegationDemo.cfg DelegationDemo.uuid "acme" 100000 "run-1" "https://agent"
    "del-1" (Some "alice") o DelegationDemo.funded Hw Ho ltac:(lia)) as H.
  destruct (fund_delegation _ _ _ _ _ _ _ _ _) as [r w']. apply H.
Defined.

Lemma requested_refund_completes_witness :
  (complete_delegation_refund DelegationDemo.uuid "acme" "del-1" DelegationDemo.requested).1 = Ok true.
Proof.
  assert (∃ o, outbox_row "acme" "del-1" (db DelegationDemo.requested) = Some o ∧
    o_status o = RRefundRequested ∧ o_delivery o = NotAttempted ∧ o_amount o = 100000)
    as (o & Ho & Hs & Hd & Ha) by (eexists; split_and!; vm_compute; reflexivity).
  pose proof (requested_refund_completes DelegationDemo.uuid "acme" "del-1" o DelegationDemo.requested) as H.
  destruct (complete_delegation_refund _ _ _ _) as [r w'].
  destruct H as [H _]; [vm_compute; reflexivity|vm_compute; reflexivity|exact DelegationDemo.sound_requested
    |exact Ho|exact Hs|left; exact Hd|vm_compute; eauto|vm_compute; eauto| |vm_compute; reflexivity|exact H].
  rewrite Ha. assert (balance "acme" (db DelegationDemo.requested) = 900000) as -> by (vm_compute; reflexivity).
  unfold bigint_max. lia.
Defined.

(** The preflight [check_delegation_budget] reads the stored spending limit only, so it
    can pass for a machine organisation whose default cap is used up; the funding
    debit, which applies the default, refuses. *)
Example budget_check_ignores_machine_cap :
  let w := (debit_credit DelegationDemo.cfg DelegationDemo.uuid "bot" 5000000 "run" None DelegationDemo.start).2 in
  (check_delegation_budget DelegationDemo.cfg "bot" 50000 None w).1 = Ok None ∧
  (fund_delegation DelegationDemo.cfg DelegationDemo.uuid "bot" 50000 "run-2" "https://agent" "del-2" None w).1
  = Ok false.
Proof. vm_compute. split; reflexivity. Qed.
