(* ===== verification/Earnings.v ===== *)
(** * marketplace/earnings.py: what tool authors earn

    A paid call of another organisation's tool adds one earnings row that splits
    the price between the author and the platform.  The insert runs on a pool or
    inside a caller's transaction. *)

From S2P Require Export Books.

(** The table's CHECKs, primary key and reference. *)
Definition insert_earning (id : string) (e : EarningRow) (d : Db) : res (unit * Db) :=
  if negb (is_bigint (e_amount e) && is_bigint (e_author_share e) && is_bigint (e_platform_share e))
  then Raise DataError
  else if (e_amount e <? 0) || (e_author_share e <? 0) || (e_platform_share e <? 0)
  then Raise CheckViolation
  else match earnings d !! id with
       | Some _ => Raise UniqueViolation
       | None =>
           match orgs d !! e_org e with
           | None => Raise ForeignKeyViolation
           | Some _ => Ok (tt, d <| earnings ::= <[id := e]> |>)
           end
       end.

Record AuthorEarningByTool := MkEarningByTool {
  by_tool_name : string;
  total_calls : Z;
  total_amount_usdc : Z;
  total_author_share_usdc : Z;
  pending_author_share_usdc : Z;
  settled_author_share_usdc : Z;
  total_platform_share_usdc : Z;
}.

Section earnings.
Context (cfg : Settings) (uuid : nat → string).

Definition author_share (total_cost : Z) : Z :=
  (total_cost * marketplace_default_revenue_share_bps cfg) / 10000.

Definition earning_row (author tool caller : string) (total_cost now : Z) : EarningRow :=
  MkEarning author tool caller total_cost (author_share total_cost)
    (total_cost - author_share total_cost) EPending None now.

Definition insert_tool_call_earnings (author tool caller : string) (total_cost : Z) : Handler bool :=
  if bool_decide (author = caller) || (total_cost <=? 0) then mret false
  else
    id ← uuid4 uuid;
    stmt (λ now, insert_earning id (earning_row author tool caller total_cost now));;
    mret true.

Definition record_tool_call_earnings (author tool caller : string) (total_cost : Z) : Handler unit :=
  if bool_decide (author = caller) then mret tt
  else catch (insert_tool_call_earnings author tool caller total_cost;; mret tt) (λ _, mret tt).

Definition author_balance (org : string) (d : Db) : Z :=
  msum (λ _ e, if bool_decide (e_org e = org) && bool_decide (e_status e = EPending)
               then e_author_share e else 0) (earnings d).

Definition get_author_balance (org : string) : Handler Z := query (λ _ d, author_balance org d).

(** The page and the cursor of the next one (the timestamp, as ISO text). *)
Definition get_author_earnings_history (isoformat : Z → string) (org : string) (n : Z)
    (cursor : option Z) (tool : option string) : Handler (list (string * EarningRow) * option string) :=
  rows ← query (λ _ d,
    limit n (order_by (λ a b, e_created_at b.2 <=? e_created_at a.2)
      (filter (λ kv, bool_decide (e_org kv.2 = org)
                     && match tool with Some t => bool_decide (e_tool kv.2 = t) | None => true end
                     && match cursor with Some t => e_created_at kv.2 <? t | None => true end = true)
         (map_to_list (earnings d)))));
  mret (rows, if Z.of_nat (length rows) =? n then (λ kv, isoformat (e_created_at kv.2)) <$> last rows else None).

(** [GROUP BY tool_name]; [collate] is the database's text ordering. *)
Definition earnings_by_tool (collate : string → string → bool) (org : string) (d : Db) : list AuthorEarningByTool :=
  let rows := filter (λ e, bool_decide (e_org e = org) = true) (map_to_list (earnings d)).*2 in
  let group t := filter (λ e, bool_decide (e_tool e = t) = true) rows in
  let share_of s e := if bool_decide (e_status e = s) then e_author_share e else 0 in
  order_by (λ a b, (total_author_share_usdc b <? total_author_share_usdc a)
                   || ((total_author_share_usdc b =? total_author_share_usdc a)
                       && collate (by_tool_name a) (by_tool_name b)))
    (map (λ t, MkEarningByTool t (Z.of_nat (length (group t))) (lsum e_amount (group t))
                 (lsum e_author_share (group t)) (lsum (share_of EPending) (group t))
                 (lsum (share_of ESettled) (group t)) (lsum e_platform_share (group t)))
       (remove_dups (map e_tool rows))).

Definition get_author_earnings_by_tool (collate : string → string → bool) (org : string)
    : Handler (list AuthorEarningByTool) :=
  query (λ _ d, earnings_by_tool collate org d).
End earnings.

(** ** The split *)
Section earnings_lemmas.
Context (cfg : Settings) (uuid : nat → string).

(** The configured share is a fraction; the setting itself declares no bounds. *)
Definition share_configured : Prop := 0 ≤ marketplace_default_revenue_share_bps cfg ≤ 10000.

Lemma author_share_bounds total : share_configured → 0 ≤ total → 0 ≤ author_share cfg total ≤ total.
Proof.
  intros Hs Ht. unfold author_share, share_configured in *. split.
  - apply Z.div_pos; nia.
  - apply Z.div_le_upper_bound; nia.
Qed.

Lemma insert_earning_ok id e d u d' :
  insert_earning id e d = Ok (u, d') →
  earnings d !! id = None ∧ d' = d <| earnings ::= <[id := e]> |> ∧ is_Some (orgs d !! e_org e).
Proof. unfold insert_earning. intros Hi. repeat case_match; try done. injection Hi as <- <-. eauto. Qed.

(** What one accepted call adds. *)
Definition earned (author tool caller : string) (total : Z) (now : Z) (d d' : Db) : Prop :=
  author ≠ caller ∧ 0 < total ∧
  ∃ id, earnings d !! id = None ∧
    d' = d <| earnings ::= <[id := earning_row cfg author tool caller total now]> |>.

Lemma insert_earnings_tx now author tool caller total (E : exn → Prop) (Q : bool → Db → Prop) d :
  (∀ e, E e) →
  (author = caller ∨ total ≤ 0 → Q false d) →
  (∀ d', earned author tool caller total now d d' → Q true d') →
  wpt now (insert_tool_call_earnings cfg uuid author tool caller total) Q (λ e _, E e) d.
Proof.
  intros HE Hskip HQ. unfold insert_tool_call_earnings. tx_step.
  - tx_step. apply Hskip. apply orb_true_iff in Heqb as [?|?]; case_bool; auto.
  - apply orb_false_iff in Heqb as [Hne Hpos]. case_bool. tx_step. tx_step. tx_step. tx_step; [done|].
    destruct (insert_earning _ _ _) as [[u d']|e] eqn:Hi; [|done]. split; [|done]. tx_step.
    apply HQ. apply insert_earning_ok in Hi as (Hn & -> & _). split_and!; [done..|]. eauto.
Qed.
End earnings_lemmas.
