(* ===== verification/Settlement.v ===== *)
(** * billing/settlement.py and billing/charges.py: the retry queue of unpaid charges

    A credit charge that could not be debited is queued in pending_settlements.
    The worker claims due rows under a five-minute lease, then, in one transaction
    per row, debits the account, pays the authors of the tools used and finalises
    the queue row, the usage event and the charge record. *)

From S2P Require Export Credit Earnings.

(** ** billing/charges.py *)
Section charges.
(** [uuid.uuid5(_CHARGE_NAMESPACE, name)] *)
Context (uuid5 : string → string).

Definition charge_id_for (source invocation_id : string) : string :=
  uuid5 (source +:+ ":" +:+ invocation_id).

(** [INSERT INTO billing_charges ... ON CONFLICT (source, invocation_id) DO NOTHING] *)
Definition insert_charge (id : string) (c : ChargeRow) (d : Db) : res (unit * Db) :=
  if negb (is_bigint (ch_amount c) && is_bigint (ch_settled c)) then Raise DataError
  else if (ch_amount c <? 0) || (ch_settled c <? 0)
          || negb (bool_decide (ch_source c ∈ ["api"; "schedule"; "trigger"; "a2a"; "mcp"; "mcp_v1"]))
          || negb (bool_decide (ch_method c ∈ ["credit"; "x402"; "mpp"]))
  then Raise CheckViolation
  else if existsb (λ kv, bool_decide (ch_source kv.2 = ch_source c)
                         && bool_decide (ch_invocation kv.2 = ch_invocation c)) (map_to_list (charges d))
  then Ok (tt, d)
  else match charges d !! id with
       | Some _ => Raise UniqueViolation
       | None => Ok (tt, d <| charges ::= <[id := c]> |>)
       end.

(** [lower] is [str.lower], [strip] [str.strip] of the payer address. *)
Context (lower : string → string).

Definition record_charge (has_pool : bool) (source invocation_id billing_method : string) (amount : Z)
    (status : charge_status) (settled_amount : Z) (settlement_tx org_id principal_id payer_address
    capability usage_event_id : string) : Handler string :=
  let charge_id := charge_id_for source invocation_id in
  if negb has_pool then mret charge_id
  else
    let settled := bool_decide (status = CSettled) in
    catch (stmt (λ now, insert_charge charge_id
             (MkCharge source invocation_id usage_event_id org_id principal_id
                (lower (py_strip payer_address)) capability billing_method (Z.max 0 amount)
                (if settled then Z.max 0 settled_amount else 0) status
                (if settled then settlement_tx else "") now)))
          (λ _, mret tt);;
    mret charge_id.
End charges.

(** [UPDATE billing_charges SET status = 'settled' ... WHERE id = $1 AND status = 'failed'] *)
Definition settle_charge (id : string) (settled_amount now : Z) (d : Db) : res (unit * Db) :=
  match charges d !! id with
  | Some c =>
      if bool_decide (ch_status c = CFailed) then
        if is_bigint settled_amount then
          Ok (tt, d <| charges ::= <[id := c <| ch_status := CSettled |> <| ch_settled := settled_amount |>
                                             <| ch_updated_at := now |>]> |>)
        else Raise DataError
      else Ok (tt, d)
  | None => Ok (tt, d)
  end.

Definition mark_charge_settled (id : string) (settled_amount : Z) : Handler unit :=
  stmt (settle_charge id (Z.max 0 settled_amount)).

Definition revert_charges (usage_event_id tx : string) (now : Z) (d : Db) : Db :=
  d <| charges ::= fmap (λ c,
    if bool_decide (ch_usage_event c = usage_event_id) && bool_decide (ch_tx c = tx)
       && bool_decide (ch_status c = CSettled)
    then c <| ch_status := CReverted |> <| ch_updated_at := now |> else c) |>.

Definition mark_charge_reverted (has_pool : bool) (usage_event_id settlement_tx : string) : Handler unit :=
  if bool_decide (usage_event_id = "") || bool_decide (settlement_tx = "") || negb has_pool then mret tt
  else catch (stmt (λ now d, Ok (tt, revert_charges usage_event_id settlement_tx now d))) (λ _, mret tt).

(** ** billing/settlement.py *)
Definition as_dict (j : json) : option (list (string * json)) :=
  match j with JObj kvs => Some kvs | _ => None end.

(** [None] is SQL NULL. *)
Definition _decode_earnings_allocations (raw : option json) : res (list (list (string * json))) :=
  match raw with
  | None => Ok []
  | Some (JArr items) => Ok (omap as_dict items)
  | Some _ => Raise (ValueError "earnings_allocations must be a JSON array")
  end.

Record Allocation := MkAllocation {
  a_author : string;
  a_tool : string;
  a_caller : string;
  a_total : Z;
}.

(** The four conversions of one allocation; [None] is a malformed one. *)
Definition parse_allocation (repr : json → string) (kvs : list (string * json)) : option Allocation :=
  author ← dict_get kvs "author_org_id";
  tool ← dict_get kvs "tool_name";
  caller ← dict_get kvs "caller_org_id";
  total ← dict_get kvs "total_cost_usdc" ≫= py_int;
  Some (MkAllocation (py_str repr author) (py_str repr tool) (py_str repr caller) total).

(** The claim is still ours: same lease, not expired. *)
Definition holds_lease (id : string) (lease now : Z) (d : Db) : bool :=
  match pending_settlements d !! id with
  | Some s => bool_decide (s_status s = SRetrying) && (s_next_retry_at s =? lease) && (now <? s_next_retry_at s)
  | None => false
  end.

(** [UPDATE pending_settlements SET f WHERE id AND status = 'retrying' AND next_retry_at = lease] *)
Definition update_claimed (id : string) (lease : Z) (f : Z → PendingRow → PendingRow) (now : Z) (d : Db)
    : res (unit * Db) :=
  match pending_settlements d !! id with
  | Some s =>
      if bool_decide (s_status s = SRetrying) && (s_next_retry_at s =? lease)
      then Ok (tt, d <| pending_settlements ::= <[id := f now s]> |>)
      else Ok (tt, d)
  | None => Ok (tt, d)
  end.

Definition settle_usage (id : string) (amount : Z) (d : Db) : Db :=
  d <| usage_events ::= alter (λ u,
    if bool_decide (u_settlement_status u = "settled") then u else MkUsage amount "" "settled") id |>.

Definition RETRY_LEASE : Z := minutes 5.

Definition due (now : Z) (s : PendingRow) : bool :=
  bool_decide (s_status s = SPending ∨ s_status s = SRetrying) && (s_next_retry_at s <=? now).

(** The claim: up to twenty due rows, earliest first, become ours for the lease. *)
Definition claim_candidates (now : Z) (d : Db) : list (string * PendingRow) :=
  limit 20 (order_by (λ a b, s_next_retry_at a.2 <=? s_next_retry_at b.2)
    (filter (λ kv, due now kv.2 = true) (map_to_list (pending_settlements d)))).

Definition lease_row (now : Z) (s : PendingRow) : PendingRow :=
  s <| s_status := SRetrying |> <| s_next_retry_at := now + RETRY_LEASE |>.

Definition update_rows (f : PendingRow → PendingRow) (ids : list string) (d : Db) : Db :=
  d <| pending_settlements ::= map_imap (λ id s, Some (if bool_decide (id ∈ ids) then f s else s)) |>.

Definition claim_due (now : Z) (d : Db) : list (string * PendingRow) * Db :=
  let candidates := claim_candidates now d in
  (map (λ kv, (kv.1, lease_row now kv.2)) candidates, update_rows (lease_row now) (map fst candidates) d).

Section settlement.
Context (cfg : Settings) (uuid : nat → string) (repr : json → string).

(** The authors' earnings of a recovered charge; a rejected allocation is skipped. *)
Definition pay_author (acc : unit) (kvs : list (string * json)) : Handler unit :=
  match parse_allocation repr kvs with
  | None => mret tt
  | Some a =>
      catch_if (λ e, is_integrity_error e || is_data_error e)
        (transaction (insert_tool_call_earnings cfg uuid (a_author a) (a_tool a) (a_caller a) (a_total a);; mret tt))
        (λ _, mret tt)
  end.

(** The transaction of [_settle_claimed_credit]. *)
Definition settle_claimed_locked (id : string) (row : PendingRow) (retry_count : Z) : Handler (bool * Z) :=
  let lease := s_next_retry_at row in
  claimed ← query (λ now d, holds_lease id lease now d);
  if negb claimed then raise (SettlementClaimLostError ("Settlement retry claim lost for id=" +:+ id))
  else
    debit ← _debit_credit_locked cfg uuid (s_org row) (s_amount row) ("run:" +:+ s_run row) (s_principal row);
    let '(success, settled_amount, _) := debit in
    if negb success then mret (false, 0)
    else
      let allocations := match _decode_earnings_allocations (Some (s_allocations row)) with
                         | Ok l => l
                         | Raise _ => [] end in
      for_each allocations tt pay_author;;
      stmt (update_claimed id lease (λ _ s,
        s <| s_status := SSettled |> <| s_retry_count := retry_count |> <| s_last_error := "" |>));;
      stmt (λ _ d, Ok (tt, settle_usage (s_usage_event row) settled_amount d));;
      (if bool_decide (s_charge_id row = "") then mret tt
       else mark_charge_settled (s_charge_id row) settled_amount);;
      mret (true, settled_amount).

Definition _settle_claimed_credit (id : string) (row : PendingRow) (retry_count : Z) : Handler (bool * Z) :=
  r ← transaction (settle_claimed_locked id row retry_count);
  let '(success, settled_amount) := r in
  if negb success then mret (false, 0)
  else invalidate_quietly (s_org row);; mret (true, settled_amount).

Definition insert_pending (id : string) (s : PendingRow) (d : Db) : res (unit * Db) :=
  if negb (is_bigint (s_amount s)) then Raise DataError
  else match pending_settlements d !! id with
       | Some _ => Raise UniqueViolation
       | None => Ok (tt, d <| pending_settlements ::= <[id := s]> |>)
       end.

Definition enqueue_failed_settlement (usage_event_id org run_id : string) (method : billing_method)
    (amount : Z) (payload pid : option string) (charge_id : string) (allocations : list json) : Handler unit :=
  if amount <=? 0 then mret tt
  else
    catch
      (id ← uuid4 uuid;
       stmt (λ now, insert_pending id
         (MkPending usage_event_id org run_id method amount payload pid 0 (settlement_max_retries cfg)
            (now + seconds 2) "" SPending now charge_id (JArr allocations))))
      (λ _, mret tt).

Definition backoff_seconds (retry_count : Z) : Z := Z.min (2 ^ retry_count) 300.

(** What one attempt reports: [None] when the claim was lost. *)
Definition attempt (id : string) (row : PendingRow) : Handler (option (bool * Z * string)) :=
  let retry_count := s_retry_count row + 1 in
  catch
    (match s_method row with
     | Credit =>
         r ← _settle_claimed_credit id row retry_count;
         mret (Some (r.1, retry_count, if r.1 : bool then "" else "debit_credit returned False"))
     | X402 =>
         mret (Some (false, s_max_retries row, "x402 settlements cannot be retried after initial failure"))
     end)
    (λ e, match e with
          | SettlementClaimLostError _ => mret None
          | _ => mret (Some (false, retry_count, exn_str e))
          end).

Definition process_row (processed : Z) (claimed : string * PendingRow) : Handler Z :=
  let '(id, row) := claimed in
  let lease := s_next_retry_at row in
  outcome ← attempt id row;
  match outcome with
  | None => mret processed
  | Some (success, retry_count, error_msg) =>
      if success : bool then mret (processed + 1)
      else if s_max_retries row <=? retry_count then
        stmt (update_claimed id lease (λ _ s,
          s <| s_status := SExhausted |> <| s_retry_count := retry_count |> <| s_last_error := error_msg |>));;
        mret processed
      else
        stmt (update_claimed id lease (λ now s,
          s <| s_status := SRetrying |> <| s_retry_count := retry_count |> <| s_last_error := error_msg |>
            <| s_next_retry_at := now + seconds (backoff_seconds retry_count) |>));;
        mret processed
  end.

Definition process_pending_settlements : Handler Z :=
  claimed ← catch (rows ← stmt (λ now d, Ok (claim_due now d)); mret (Some rows)) (λ _, mret None);
  match claimed with
  | None => mret 0
  | Some rows => for_each rows 0 process_row
  end.

Definition get_pending_settlements (status : option settlement_status) (n : Z)
    : Handler (list (string * PendingRow)) :=
  query (λ _ d,
    limit n (order_by (λ a b, s_created_at b.2 <=? s_created_at a.2)
      (filter (λ kv, status = None ∨ status = Some (s_status kv.2))
         (map_to_list (pending_settlements d))))).

Definition rearm_row (now : Z) (s : PendingRow) : PendingRow :=
  s <| s_status := SPending |> <| s_retry_count := 0 |> <| s_next_retry_at := now |>.

Definition reset_exhausted_settlement (id : string) : Handler (option bool) :=
  row ← query (λ _ d,
    s ← pending_settlements d !! id; if bool_decide (s_status s = SExhausted) then Some (s_method s) else None);
  match row with
  | None => mret (Some false)
  | Some X402 => mret None
  | Some Credit =>
      updated ← stmt (λ now d, Ok (
        match pending_settlements d !! id with
        | Some s => if bool_decide (s_status s = SExhausted)
                    then (true, d <| pending_settlements ::= <[id := rearm_row now s]> |>) else (false, d)
        | None => (false, d)
        end));
      mret (Some updated)
  end.

(** The window [SUM(amount) OVER (ORDER BY created_at, id)]: the peers of a row with
    equal keys are itself only, the id being unique.  Ids are lowercase uuid text,
    which every collation orders as bytes. *)
Definition rearm_candidates (now : Z) (org : string) (d : Db) : list (string * PendingRow) :=
  order_by (λ a b, (s_created_at a.2 <? s_created_at b.2)
                   || ((s_created_at a.2 =? s_created_at b.2) && String.leb a.1 b.1))
    (filter (λ kv, s_org kv.2 = org ∧ s_status kv.2 = SExhausted
                   ∧ s_method kv.2 = Credit ∧ now - days 7 ≤ s_created_at kv.2)
       (map_to_list (pending_settlements d))).

Fixpoint running_totals (acc : Z) (l : list (string * PendingRow)) : list (string * Z) :=
  match l with
  | [] => []
  | (id, s) :: l' => (id, acc + s_amount s) :: running_totals (acc + s_amount s) l'
  end.

Definition rearmed_ids (now : Z) (org : string) (cap : Z) (d : Db) : list string :=
  map fst (filter (λ it, it.2 ≤ cap) (running_totals 0 (rearm_candidates now org d))).

Definition rearm_exhausted_credit_settlements (org : string) (cap : Z) : Handler Z :=
  if bool_decide (org = "") || (cap <=? 0) then mret 0
  else
    catch
      (stmt (λ now d,
         let ids := rearmed_ids now org cap d in
         Ok (Z.of_nat (length ids), update_rows (rearm_row now) ids d)))
      (λ _, mret 0).
End settlement.

(** ** The queue as a transition system *)
Definition same_meta (s s' : PendingRow) : Prop :=
  s_usage_event s' = s_usage_event s ∧ s_org s' = s_org s ∧ s_run s' = s_run s ∧
  s_method s' = s_method s ∧ s_amount s' = s_amount s ∧ s_principal s' = s_principal s ∧
  s_max_retries s' = s_max_retries s ∧ s_created_at s' = s_created_at s ∧
  s_charge_id s' = s_charge_id s ∧ s_allocations s' = s_allocations s.

Definition active (s : PendingRow) : Prop := s_status s = SPending ∨ s_status s = SRetrying.

(** Moves of a queue row that move no money. *)
Inductive queue_step : PendingRow → PendingRow → Prop :=
  | queue_claim now s :
      active s → s_next_retry_at s ≤ now → queue_step s (lease_row now s)
  | queue_retry now rc err s :
      s_status s = SRetrying → rc < s_max_retries s →
      queue_step s (s <| s_status := SRetrying |> <| s_retry_count := rc |> <| s_last_error := err |>
                      <| s_next_retry_at := now + seconds (backoff_seconds rc) |>)
  | queue_exhaust rc err s :
      s_status s = SRetrying → s_max_retries s ≤ rc →
      queue_step s (s <| s_status := SExhausted |> <| s_retry_count := rc |> <| s_last_error := err |>)
  | queue_rearm now s :
      s_status s = SExhausted → s_method s = Credit → queue_step s (rearm_row now s).

Definition settled_row (rc : Z) (s : PendingRow) : PendingRow :=
  s <| s_status := SSettled |> <| s_retry_count := rc |> <| s_last_error := "" |>.

(** The writes that finalise a recovered charge. *)
Definition finalised (id : string) (s : PendingRow) (rc : Z) (d d' : Db) : Prop :=
  let d1 := settle_usage (s_usage_event s) (s_amount s) (d <| pending_settlements ::= <[id := settled_row rc s]> |>) in
  (s_charge_id s = "" ∧ d' = d1) ∨
  (∃ now u, settle_charge (s_charge_id s) (Z.max 0 (s_amount s)) now d1 = Ok (u, d')).

Definition author_paid (cfg : Settings) (d d' : Db) : Prop :=
  ∃ author tool caller total now, earned cfg author tool caller total now d d'.

Definition rows_related (S : PendingRow → PendingRow → Prop) (p p' : gmap string PendingRow) : Prop :=
  ∀ id, match p !! id, p' !! id with
        | Some s, Some s' => s' = s ∨ S s s'
        | None, None => True
        | _, _ => False
        end.

Inductive settlement_step (cfg : Settings) : Db → Db → Prop :=
  | step_enqueue id s d :
      pending_settlements d !! id = None → 0 < s_amount s → s_status s = SPending →
      s_retry_count s = 0 → s_max_retries s = settlement_max_retries cfg →
      settlement_step cfg d (d <| pending_settlements ::= <[id := s]> |>)
  | step_queue p d :
      rows_related queue_step (pending_settlements d) p →
      settlement_step cfg d (d <| pending_settlements := p |>)
  | step_settle now id s rc lid d d1 d2 d' :
      pending_settlements d !! id = Some s → s_status s = SRetrying → s_method s = Credit →
      now < s_next_retry_at s →
      debit_admissible cfg now (s_org s) (s_amount s) (s_principal s) d = true →
      posted (debit_entry now (s_org s) (s_amount s) ("run:" +:+ s_run s) (s_principal s) d lid) d d1 →
      rtc (author_paid cfg) d1 d2 → finalised id s rc d2 d' →
      settlement_step cfg d d'
  | step_earning d d' : author_paid cfg d d' → settlement_step cfg d d'
  | step_charges c d : settlement_step cfg d (d <| charges := c |>).

(** Interference may do anything to the queue but remove or rewrite a claim. *)
Definition keeps_meta (d d' : Db) : Prop :=
  ∀ id s, pending_settlements d !! id = Some s →
  ∃ s', pending_settlements d' !! id = Some s' ∧ same_meta s s'.

Definition tracks (id : string) (row : PendingRow) (d : Db) : Prop :=
  ∃ s, pending_settlements d !! id = Some s ∧ same_meta row s.

Lemma same_meta_trans s1 s2 s3 : same_meta s1 s2 → same_meta s2 s3 → same_meta s1 s3.
Proof. unfold same_meta. intuition congruence. Qed.

Lemma tracks_keeps id row d d' : tracks id row d → keeps_meta d d' → tracks id row d'.
Proof.
  intros (s & Hs & Hm) Hk. destruct (Hk id s Hs) as (s' & Hs' & Hm'). exists s'.
  split; [done|by eapply same_meta_trans].
Qed.

Lemma queue_step_meta s s' : queue_step s s' → same_meta s s'.
Proof. by destruct 1. Qed.

Lemma author_paid_frame cfg d d' : author_paid cfg d d' → d' = d <| earnings := earnings d' |>.
Proof. by intros (? & ? & ? & ? & ? & _ & _ & id & _ & ->). Qed.

Lemma authors_paid_frame cfg d d' : rtc (author_paid cfg) d d' → d' = d <| earnings := earnings d' |>.
Proof.
  induction 1 as [d|d d1 d2 H1 _ IH]; [by destruct d|]. rewrite IH, (author_paid_frame _ _ _ H1). done.
Qed.

Lemma finalised_frame id s rc d d' :
  finalised id s rc d d' →
  d' = d <| pending_settlements ::= <[id := settled_row rc s]> |>
         <| usage_events := usage_events d' |> <| charges := charges d' |>.
Proof.
  unfold finalised, settle_usage, settle_charge.
  intros [[_ ->]|(now & u & Hs)]; [by destruct d|].
  repeat case_match; try done; injection Hs as _ <-; by destruct d.
Qed.

Lemma settle_frame cfg id s rc r d d1 d2 d' :
  posted r d d1 → rtc (author_paid cfg) d1 d2 → finalised id s rc d2 d' →
  d' = d1 <| pending_settlements ::= <[id := settled_row rc s]> |> <| earnings := earnings d' |>
          <| usage_events := usage_events d' |> <| charges := charges d' |> ∧
  pending_settlements d1 = pending_settlements d.
Proof.
  intros Hp Ha Hf. split.
  - rewrite (finalised_frame _ _ _ _ _ Hf), (authors_paid_frame _ _ _ Ha). done.
  - destruct Hp as (dd & (c & -> & _) & -> & _). done.
Qed.

(** ** One claimed settlement *)
Section settle_spec.
Context (cfg : Settings) (uuid : nat → string) (repr : json → string).

(** What a successful retry commits. *)
Definition settled_effect (now : Z) (id : string) (row : PendingRow) (rc : Z) (d d' : Db) : Prop :=
  ∃ s lid d1 d2,
    pending_settlements d !! id = Some s ∧ same_meta row s ∧ s_status s = SRetrying ∧
    s_next_retry_at s = s_next_retry_at row ∧ now < s_next_retry_at s ∧
    debit_admissible cfg now (s_org s) (s_amount s) (s_principal s) d = true ∧
    posted (debit_entry now (s_org s) (s_amount s) ("run:" +:+ s_run s) (s_principal s) d lid) d d1 ∧
    rtc (author_paid cfg) d1 d2 ∧ finalised id s rc d2 d'.

Lemma holds_lease_true id lease now d :
  holds_lease id lease now d = true →
  ∃ s, pending_settlements d !! id = Some s ∧ s_status s = SRetrying ∧ s_next_retry_at s = lease ∧
       now < s_next_retry_at s.
Proof. unfold holds_lease. intros Hh. case_match; [|done]. case_bool. eauto 10. Qed.

Lemma pay_author_tx now kvs d0 d :
  rtc (author_paid cfg) d0 d →
  wpt now (pay_author cfg uuid repr tt kvs) (λ _ d', rtc (author_paid cfg) d0 d') (λ _ _, True) d.
Proof.
  intros Hr. unfold pay_author. destruct (parse_allocation repr kvs) as [a|]; [|by tx_step].
  do 3 tx_step. apply insert_earnings_tx; [|by intros; tx_step|].
  - intros e. by destruct (_ || _); tx_step.
  - intros d' He. tx_step. eapply rtc_r; [exact Hr|]. by eexists _, _, _, _, _.
Qed.

Lemma mark_charge_tx now id amount d (Q : unit → Db → Prop) :
  (∀ u d', settle_charge id (Z.max 0 amount) now d = Ok (u, d') → Q u d') →
  wpt now (mark_charge_settled id amount) Q (λ _ _, True) d.
Proof.
  intros HQ. unfold mark_charge_settled. tx_step; [done|].
  destruct (settle_charge _ _ _ _) as [[u d']|] eqn:Hs; [|done]. split; [by apply HQ|done].
Qed.

Lemma update_claimed_held id s f now d :
  pending_settlements d !! id = Some s → s_status s = SRetrying →
  update_claimed id (s_next_retry_at s) f now d = Ok (tt, d <| pending_settlements ::= <[id := f now s]> |>).
Proof. intros Hs Hst. unfold update_claimed. by rewrite Hs, Hst, Z.eqb_refl. Qed.

Lemma settle_claimed_spec now id row rc d :
  tracks id row d →
  wpt now (settle_claimed_locked cfg uuid repr id row rc)
    (λ r d', r.2 = (if r.1 then s_amount row else 0) ∧
             if r.1 : bool then settled_effect now id row rc d d' else d' = d) (λ _ _, True) d.
Proof.
  intros (s0 & Hs0 & Hm). unfold settle_claimed_locked. tx_step. tx_step; [done|].
  destruct (holds_lease _ _ _ _) eqn:Hl; cbn [negb]; [|by tx_step].
  apply holds_lease_true in Hl as (s & Hs & Hst & Hlease & Hnow).
  assert (s0 = s) as -> by congruence.
  pose proof Hm as (Hue & Horg & Hrun & Hmeth & Ham & Hpid & _ & _ & Hch & Hall).
  tx_step. eapply wpt_mono; [apply debit_credit_locked_spec| |done]. intros r d1 Hr.
  unfold debit_outcome in Hr. destruct (debit_admissible _ _ _ _ _ _) eqn:Had; cycle 1.
  { destruct Hr as [-> ->]. cbn. by tx_step. }
  destruct Hr as (lid & -> & Hp). cbn [negb].
  tx_step. eapply wpt_mono.
  { apply wpt_for_each with (I := λ _ d', rtc (author_paid cfg) d1 d'); [done|].
    intros [] kvs d' _ Hr. by apply pay_author_tx. }
  2: done.
  intros u0 d2 Hr. assert (pending_settlements d2 !! id = Some s) as Hs2.
  { by rewrite (authors_paid_frame _ _ _ Hr), (posted_frame _ _ _ Hp). }
  tx_step. tx_step; [done|]. rewrite <- Hlease, (update_claimed_held _ _ _ _ _ Hs2 Hst). split; [|done].
  tx_step. tx_step; [done|]. split; [|done]. rewrite <- Ham, <- Hue, <- Hch.
  assert (∀ d', finalised id s rc d2 d' → settled_effect now id row rc d d') as Hdone.
  { intros d' Hf. rewrite <- Horg, <- Ham, <- Hpid in Had. rewrite <- Horg, <- Ham, <- Hrun, <- Hpid in Hp. exists s, lid, d1, d2. by split_and!. }
  tx_step. tx_step. { tx_step. tx_step. split; [done|]. apply Hdone. left. by case_bool. }
  apply mark_charge_tx. intros u d' Hset. tx_step. split; [done|]. apply Hdone. right. eauto.
Qed.
End settle_spec.

(** ** What each handler commits *)
Lemma update_rows_related S f ids d :
  (∀ id s, id ∈ ids → pending_settlements d !! id = Some s → S s (f s)) →
  rows_related S (pending_settlements d) (pending_settlements (update_rows f ids d)).
Proof.
  intros Hf id. unfold update_rows. cbn. rewrite map_lookup_imap.
  destruct (pending_settlements d !! id) as [s|] eqn:Hs; cbn; [|done].
  case_bool_decide; [right; by eapply Hf|by left].
Qed.

Lemma rows_related_insert (S : PendingRow → PendingRow → Prop) id s s' d :
  pending_settlements d !! id = Some s → S s s' →
  rows_related S (pending_settlements d) (<[id := s']> (pending_settlements d)).
Proof.
  intros Hs HS id'. destruct (decide (id' = id)) as [->|Hne].
  - rewrite lookup_insert_eq, Hs. by right.
  - rewrite lookup_insert_ne by done. destruct (_ !! id'); [by left|done].
Qed.

Lemma claim_candidates_due now d id s :
  (id, s) ∈ claim_candidates now d → pending_settlements d !! id = Some s ∧ active s ∧ s_next_retry_at s ≤ now.
Proof.
  unfold claim_candidates. intros Hin%elem_of_limit. rewrite elem_of_order_by in Hin.
  apply list_elem_of_filter in Hin as [Hd Hin%elem_of_map_to_list]. unfold due in Hd. cbn in Hd. by case_bool.
Qed.

Lemma claim_due_related now d :
  rows_related queue_step (pending_settlements d) (pending_settlements (claim_due now d).2).
Proof.
  apply update_rows_related. intros id s ([id' s'] & -> & Hin)%list_elem_of_fmap Hs.
  apply claim_candidates_due in Hin as (Hs' & Ha & Hd). cbn in Hs. assert (s' = s) as -> by congruence.
  by apply queue_claim.
Qed.

Lemma claim_due_tracks now d id row : (id, row) ∈ (claim_due now d).1 → tracks id row (claim_due now d).2.
Proof.
  intros ([id' s] & Heq & Hin)%list_elem_of_fmap. cbn in Heq. injection Heq as -> ->.
  pose proof (claim_candidates_due _ _ _ _ Hin) as (Hs & _). exists (lease_row now s).
  split; [|by split_and!]. cbn. rewrite map_lookup_imap, Hs. cbn. rewrite bool_decide_true; [done|].
  apply list_elem_of_fmap. by exists (id', s).
Qed.

Lemma rows_related_keeps_meta d p :
  rows_related queue_step (pending_settlements d) p → keeps_meta d (d <| pending_settlements := p |>).
Proof.
  intros Hr id s Hs. specialize (Hr id). rewrite Hs in Hr. cbn. destruct (p !! id) as [s'|]; [|done].
  exists s'. split; [done|]. destruct Hr as [->|Hr]; [by split_and!|by apply queue_step_meta].
Qed.

Lemma insert_charge_ok id c d u d' :
  insert_charge id c d = Ok (u, d') → d' = d ∨ d' = d <| charges ::= <[id := c]> |>.
Proof. unfold insert_charge. intros Hi. repeat case_match; try done; injection Hi as _ <-; auto. Qed.

Lemma running_totals_keys acc l : (running_totals acc l).*1 = l.*1.
Proof. revert acc. induction l as [|[id s] l IH]; intros acc; simpl; [done|]. by rewrite IH. Qed.

Lemma rearm_candidates_spec now org d id s :
  (id, s) ∈ rearm_candidates now org d ↔
  pending_settlements d !! id = Some s ∧ s_org s = org ∧ s_status s = SExhausted ∧ s_method s = Credit ∧
  now - days 7 ≤ s_created_at s.
Proof.
  unfold rearm_candidates. rewrite elem_of_order_by, list_elem_of_filter, elem_of_map_to_list. cbn. tauto.
Qed.

Lemma rearmed_candidate now org cap d id :
  id ∈ rearmed_ids now org cap d → ∃ s, (id, s) ∈ rearm_candidates now org d.
Proof.
  intros ([id' t] & -> & [_ Hin]%list_elem_of_filter)%list_elem_of_fmap.
  apply (list_elem_of_fmap_2 fst) in Hin. rewrite running_totals_keys in Hin.
  apply list_elem_of_fmap in Hin as ([id s] & -> & Hin). by exists s.
Qed.

Section settlement_commits.
Context (cfg : Settings) (uuid : nat → string) (repr : json → string).
Abbreviation G := (settlement_step cfg).

Lemma settlement_step_keeps_meta d d' : G d d' → keeps_meta d d'.
Proof.
  intros [id s d0 Hn _ _ _ _|p d0 Hr|now id s rc lid d0 d1 d2 d0' Hs _ _ _ _ Hp Ha Hf|d0 d0' Ha|c d0].
  - intros id' s' Hs'. exists s'. cbn. rewrite lookup_insert_ne by congruence. by split_and!.
  - by apply rows_related_keeps_meta.
  - destruct (settle_frame cfg _ _ _ _ _ _ _ _ Hp Ha Hf) as [-> Hpd]. intros id' s' Hs'. cbn. rewrite Hpd.
    destruct (decide (id' = id)) as [->|Hne]; [rewrite lookup_insert_eq|rewrite lookup_insert_ne by done].
    + eexists. split; [done|]. assert (s' = s) as -> by congruence. by split_and!.
    + exists s'. by split_and!.
  - rewrite (author_paid_frame _ _ _ Ha). intros id' s' Hs'. exists s'. by split_and!.
  - intros id' s' Hs'. exists s'. by split_and!.
Qed.

Lemma claim_due_step now d : G d (claim_due now d).2.
Proof. apply step_queue, claim_due_related. Qed.

Lemma settled_effect_step now id row rc d d' :
  s_method row = Credit → settled_effect cfg now id row rc d d' → G d d'.
Proof.
  intros Hm (s & lid & d1 & d2 & Hs & Hmeta & Hst & _ & Hnow & Had & Hp & Ha & Hf).
  eapply step_settle; try done. destruct Hmeta as (_ & _ & _ & -> & _). done.
Qed.

Lemma update_claimed_step id lease f now d u d' :
  (∀ s, pending_settlements d !! id = Some s → s_status s = SRetrying → queue_step s (f now s)) →
  update_claimed id lease f now d = Ok (u, d') → d' = d ∨ G d d'.
Proof.
  intros Hf. unfold update_claimed. destruct (pending_settlements d !! id) as [s|] eqn:Hs; [|naive_solver].
  destruct (_ && _) eqn:Hc; intros [= <- <-]; [|by left]. case_bool. right.
  apply step_queue. apply rows_related_insert with (s := s); [done|]. by apply Hf.
Qed.

Section worker.
Context (R : Db → Db → Prop).
Context (P : Db → Prop) (HPG : closed_under P G) (HPR : stable (by_db R) (on_db P)).
Context (id : string) (row : PendingRow) (Htr : ∀ d, P d → tracks id row d).

Lemma settle_claimed_rg rc :
  s_method row = Credit → rg (by_db R) (on_db P) (_settle_claimed_credit cfg uuid repr id row rc) (λ _, on_db P).
Proof.
  intros Hm. unfold _settle_claimed_credit. eapply (rg_bind _ _ _ _ (λ _, on_db P)); [| |done].
  - apply rg_transaction; [done|done|]. intros now d x Hd.
    eapply wpt_mono; [apply settle_claimed_spec; by apply Htr| |done]. intros [[|] n] d' [_ Hr]; cbn in Hr.
    + pose proof (HPG _ _ Hd (settled_effect_step _ _ _ _ _ _ Hm Hr)). done.
    + by subst.
  - intros [[|] n]; cbn; [|by apply rg_ret]. eapply (rg_bind _ _ _ _ (λ _, on_db P)); [|by intros; apply rg_ret|done].
    apply rg_preserves; [done|]. eapply wpi_mono; [apply invalidate_quietly_inv|done].
Qed.

(** The bookkeeping after an attempt stays within the row's retry budget. *)
Lemma process_row_rg n : rg (by_db R) (on_db P) (process_row cfg uuid repr n (id, row)) (λ _, on_db P).
Proof.
  unfold process_row. eapply (rg_bind _ _ _ _ (λ _, on_db P)); [| |done].
  - unfold attempt. eapply (rg_catch _ _ _ _ (λ _, on_db P)); [|intros []; by apply rg_ret|done].
    destruct (s_method row) eqn:Hm; [|by apply rg_ret].
    eapply rg_bind; [by apply settle_claimed_rg|by intros; apply rg_ret|done].
  - intros [[[success rc] err]|]; [|by apply rg_ret]. destruct success; [by apply rg_ret|].
    assert (∀ f, (∀ now d s, P d → pending_settlements d !! id = Some s → s_status s = SRetrying →
        queue_step s (f now s)) →
      rg (by_db R) (on_db P) (stmt (update_claimed id (s_next_retry_at row) f);; mret n : Handler Z) (λ _, on_db P)) as Hupd.
    { intros f Hf. eapply (rg_bind _ _ _ _ (λ _, on_db P)); [|by intros; apply rg_ret|done].
      apply rg_stmt; [done|]. intros now d x Hd. split; [done|].
      destruct (update_claimed _ _ _ _ _) as [[u d']|] eqn:Hu; [|done].
      assert (P d'); [|done]. apply update_claimed_step in Hu; [|by intros; eapply Hf].
      destruct Hu as [->|Hs]; [done|by eapply HPG]. }
    assert (∀ d s, P d → pending_settlements d !! id = Some s → s_max_retries s = s_max_retries row) as Hmax.
    { intros d s Hd Hs. destruct (Htr d Hd) as (s' & Hs' & Hmeta). assert (s' = s) as -> by congruence. apply Hmeta. }
    destruct (s_max_retries row <=? rc) eqn:Hle; case_bool; apply Hupd.
    + intros now d s Hd Hs Hst. apply queue_exhaust; [done|]. by rewrite (Hmax d s Hd Hs).
    + intros now d s Hd Hs Hst. apply queue_retry; [done|]. by rewrite (Hmax d s Hd Hs).
Qed.
End worker.

(** The worker run: the rows it claimed stay its own to describe, whatever the rest of
    the system does to the queue short of dropping them. *)
Lemma process_commits (R : Db → Db → Prop) :
  (∀ d d', R d d' → keeps_meta d d') →
  commits_under R G (process_pending_settlements cfg uuid repr).
Proof.
  intros HR P HPG HPR. apply stable_by_db in HPR as HPS. unfold process_pending_settlements.
  set (mine := λ (rows : list (string * PendingRow)) d, P d ∧ ∀ c, c ∈ rows → tracks c.1 c.2 d).
  apply (rg_bind _ _ _ _ (λ r, on_db (match r with Ok (Some rows) => mine rows | _ => P end))); [| |done].
  - apply (rg_catch _ _ _ _ (λ r, on_db (match r with Ok (Some rows) => mine rows | _ => P end)));
      [|intros e; by apply rg_ret|done].
    apply (rg_bind _ _ _ _ (λ r, on_db (match r with Ok rows => mine rows | _ => P end)));
      [|intros rows; by apply rg_ret|done].
    apply rg_stmt; [done|]. intros now d x Hd. split; [done|].
    assert (P (claim_due now d).2) as Hd' by (eapply HPG; [exact Hd|apply claim_due_step]).
    destruct (claim_due now d) as [rows d'] eqn:Hc. split; [|done]. split; [done|].
    intros [id row] Hin. cbn. replace d' with (claim_due now d).2 by by rewrite Hc.
    apply claim_due_tracks. by rewrite Hc.
  - intros [rows|]; [|by apply rg_ret].
    assert (closed_under (mine rows) G) as HG.
    { intros d d' [Hd Ht] Hs. split; [by eapply HPG|]. intros c Hc.
      eapply tracks_keeps; [by apply Ht|by apply settlement_step_keeps_meta]. }
    assert (closed_under (mine rows) R) as HS.
    { intros d d' [Hd Ht] Hs. split; [by eapply HPR|]. intros c Hc.
      eapply tracks_keeps; [by apply Ht|by apply HR]. }
    apply stable_by_db in HS. eapply rg_mono;
      [apply (rg_for_each (by_db R) rows 0 (process_row cfg uuid repr) (λ _, on_db (mine rows))
         (λ _, on_db (mine rows))); [done|]|done|by intros r d x [Hd _]].
    intros n [id row] Hin. eapply rg_mono; [apply process_row_rg; [exact HG|exact HS|]|done|by intros [b|e] d x Hd].
    intros d [_ Ht]. by apply (Ht (id, row)).
Qed.

Lemma enqueue_commits ue org run m a payload pid ch allocs :
  commits G (enqueue_failed_settlement cfg uuid ue org run m a payload pid ch allocs).
Proof.
  unfold enqueue_failed_settlement. destruct (a <=? 0) eqn:Ha; [apply commits_ret|]. case_bool.
  apply commits_catch; [|intros; apply commits_ret]. apply commits_bind.
  - apply commits_pure. intros P. by inv_auto.
  - intros id. apply commits_stmt. intros now d u d' Hi. right. unfold insert_pending in Hi.
    repeat case_match; try done. injection Hi as _ <-. by apply step_enqueue.
Qed.

Lemma reset_commits (R : Db → Db → Prop) id :
  (∀ d d', R d d' → keeps_meta d d') → commits_under R G (reset_exhausted_settlement id).
Proof.
  intros HR P HPG HPR. apply stable_by_db in HPR as HPS. unfold reset_exhausted_settlement.
  set (credit_row := λ d, P d ∧ ∃ s, pending_settlements d !! id = Some s ∧ s_method s = Credit).
  apply (rg_bind _ _ _ _ (λ r, on_db (match r with Ok (Some Credit) => credit_row | _ => P end))); [| |done].
  - apply rg_query; [done|]. intros now d x Hd. split; [done|].
    destruct (pending_settlements d !! id) as [s|] eqn:Hs; [|done]. cbn.
    case_bool_decide; [|done]. destruct (s_method s) eqn:Hm; [|done]. split; [done|eauto].
  - intros [[|]|]; try by apply rg_ret.
    apply (rg_bind _ _ _ _ (λ _, on_db P)); [|by intros; apply rg_ret|done].
    apply rg_stmt; [apply stable_by_db|].
    + intros d d' (Hd & s & Hs & Hm) Hr. split; [by eapply HPR|].
      destruct (HR _ _ Hr id s Hs) as (s' & Hs' & Hmeta). exists s'. split; [done|].
      destruct Hmeta as (_ & _ & _ & -> & _). done.
    + intros now d x (Hd & s & Hs & Hm). split; [done|]. rewrite Hs.
      destruct (bool_decide (s_status s = SExhausted)) eqn:Hx; [|done]. case_bool.
      assert (P (d <| pending_settlements ::= <[id := rearm_row now s]> |>)); [|done].
      eapply HPG; [exact Hd|]. by eapply step_queue, rows_related_insert, queue_rearm.
Qed.

Lemma rearm_commits org cap : commits G (rearm_exhausted_credit_settlements org cap).
Proof.
  unfold rearm_exhausted_credit_settlements. destruct (_ || _); [apply commits_ret|].
  apply commits_catch; [|intros; apply commits_ret]. apply commits_stmt.
  intros now d n d' [= _ <-]. right. apply step_queue, update_rows_related.
  intros id s (s' & Hc)%rearmed_candidate Hs. apply rearm_candidates_spec in Hc as (Hs' & _ & Hst & Hm & _).
  assert (s' = s) as -> by congruence. by apply queue_rearm.
Qed.

Lemma record_charge_commits uuid5 lower pool src inv m a st sa tx org pr payer cap ue :
  commits G (record_charge uuid5 lower pool src inv m a st sa tx org pr payer cap ue).
Proof.
  unfold record_charge. destruct pool; [|apply commits_ret]. cbn [negb].
  apply commits_bind; [|intros; apply commits_ret]. apply commits_catch; [|intros; apply commits_ret].
  apply commits_stmt. intros now d u d' [-> | ->]%insert_charge_ok; [by left|right; apply step_charges].
Qed.

Lemma revert_charge_commits pool ue tx : commits G (mark_charge_reverted pool ue tx).
Proof.
  unfold mark_charge_reverted. destruct (_ || _); [apply commits_ret|].
  apply commits_catch; [|intros; apply commits_ret]. apply commits_stmt. intros now d u d' [= _ <-].
  right. apply step_charges.
Qed.

Lemma record_earnings_commits author tool caller total :
  commits G (record_tool_call_earnings cfg uuid author tool caller total).
Proof.
  unfold record_tool_call_earnings. destruct (bool_decide _) eqn:Hne; [apply commits_ret|]. case_bool.
  apply commits_catch; [|intros; apply commits_ret]. apply commits_bind; [|intros; apply commits_ret].
  unfold insert_tool_call_earnings. destruct (_ || _) eqn:Hc; [apply commits_ret|]. apply orb_false_iff in Hc as [_ Hc].
  case_bool. apply commits_bind; [apply commits_pure; intros P; by inv_auto|]. intros id.
  apply commits_bind; [|intros; apply commits_ret]. apply commits_stmt. intros now d u d' Hi. right.
  apply insert_earning_ok in Hi as (Hn & -> & _). apply step_earning.
  exists author, tool, caller, total, now. split_and!; [done..|]. eauto.
Qed.
End settlement_commits.

(** ** The operations of the queue, the charge records and the earnings *)
Inductive settlement_op :=
  | OpEnqueue (usage org run : string) (m : billing_method) (amount : Z) (payload pid : option string)
      (charge : string) (allocations : list json)
  | OpProcess
  | OpReset (id : string)
  | OpRearm (org : string) (cap : Z)
  | OpCharge (pool : bool) (source invocation m : string) (amount : Z) (st : charge_status) (settled : Z)
      (tx org pid payer capability usage : string)
  | OpRevert (pool : bool) (usage tx : string)
  | OpEarn (author tool caller : string) (total : Z).

Definition settled_amount (org : string) (s : PendingRow) : Z :=
  if bool_decide (s_status s = SSettled) && bool_decide (s_org s = org) then s_amount s else 0.

(** What the queue has collected from an organisation. *)
Definition collected (org : string) (d : Db) : Z := msum (λ _ s, settled_amount org s) (pending_settlements d).

(** The queue's own invariant: every row asks for something, and a row that is still
    tried has attempts left. *)
Definition row_ok (s : PendingRow) : Prop :=
  0 < s_amount s ∧ 0 < s_max_retries s ∧
  match s_status s with
  | SPending | SRetrying => s_retry_count s < s_max_retries s
  | SExhausted => s_max_retries s ≤ s_retry_count s
  | SSettled => True
  end.

Definition queue_ok (d : Db) : Prop := ∀ id s, pending_settlements d !! id = Some s → row_ok s.

Definition split_ok (e : EarningRow) : Prop :=
  0 ≤ e_author_share e ∧ 0 ≤ e_platform_share e ∧ e_author_share e + e_platform_share e = e_amount e.

Definition earnings_ok (d : Db) : Prop := ∀ id e, earnings d !! id = Some e → split_ok e.

Section settlement_ops.
Context (cfg : Settings) (uuid : nat → string) (uuid5 lower : string → string) (repr : json → string).
Abbreviation G := (settlement_step cfg).

Definition perform_settlement (op : settlement_op) : Handler unit :=
  match op with
  | OpEnqueue ue org run m a payload pid ch allocs =>
      enqueue_failed_settlement cfg uuid ue org run m a payload pid ch allocs
  | OpProcess => process_pending_settlements cfg uuid repr;; mret tt
  | OpReset id => reset_exhausted_settlement id;; mret tt
  | OpRearm org cap => rearm_exhausted_credit_settlements org cap;; mret tt
  | OpCharge pool src inv m a st sa tx org pr payer cap ue =>
      record_charge uuid5 lower pool src inv m a st sa tx org pr payer cap ue;; mret tt
  | OpRevert pool ue tx => mark_charge_reverted pool ue tx
  | OpEarn author tool caller total => record_tool_call_earnings cfg uuid author tool caller total
  end.

Lemma perform_settlement_commits (R : Db → Db → Prop) op :
  (∀ d d', R d d' → keeps_meta d d') → commits_under R G (perform_settlement op).
Proof.
  intros HR. destruct op; cbn [perform_settlement];
    try (apply commits_under_bind; [|intros; apply commits_commits_under, commits_ret]).
  - apply commits_commits_under, enqueue_commits.
  - by apply process_commits.
  - by apply reset_commits.
  - apply commits_commits_under, rearm_commits.
  - apply commits_commits_under, record_charge_commits.
  - apply commits_commits_under, revert_charge_commits.
  - apply commits_commits_under, record_earnings_commits.
Qed.

Lemma settlement_steps_keep_meta d d' : rtc G d d' → keeps_meta d d'.
Proof.
  induction 1 as [d|d d1 d2 H1 _ IH]; intros id s Hs; [exists s; by split_and!|].
  destruct (settlement_step_keeps_meta cfg d d1 H1 id s Hs) as (s1 & Hs1 & Hm1).
  destruct (IH id s1 Hs1) as (s2 & Hs2 & Hm2). exists s2. split; [done|by eapply same_meta_trans].
Qed.

(** Other workers run the same component. *)
Definition contended (w : World Db Ext) : Prop := tx_now w = None ∧ Forall (relies (by_db (rtc G))) (sched w).

(** A whole execution is a sequence of steps of the component. *)
Lemma perform_settlement_steps op w : contended w → rtc G (db w) (db (perform_settlement op w).2).
Proof.
  intros [Hn Hs].
  pose proof (perform_settlement_commits (rtc G) op settlement_steps_keep_meta (rtc G (db w))) as H.
  unshelve epose proof (H _ _ w Hn Hs (rtc_refl _ _)) as H'.
  - intros d d' Hd Hs'. by eapply rtc_r.
  - intros d d' Hd Hs'. by etrans.
  - destruct (perform_settlement op w). apply H'.
Qed.

Lemma perform_settlement_keeps (P : Db → Prop) op w :
  closed_under P G → contended w → P (db w) → P (db (perform_settlement op w).2).
Proof.
  intros HP Hw Hd. pose proof (perform_settlement_steps op w Hw) as Hr.
  induction Hr as [|d d1 d2 H1 _ IH]; [done|]. apply IH. by eapply HP.
Qed.

End settlement_ops.

Section settlement_invariants.
Context (cfg : Settings).
Abbreviation G := (settlement_step cfg).

Lemma settlement_step_books d d' : books d → G d d' → books d'.
Proof.
  intros Hbk Hs.
  destruct Hs as [id s d Hn _ _ _ _|p d Hr|now id s rc lid d d1 d2 d' Hs _ _ _ _ Hp Ha Hf|d d' Ha|c d];
    try (by apply (books_same d)).
  - destruct (settle_frame cfg _ _ _ _ _ _ _ _ Hp Ha Hf) as [-> _]. apply (books_same d1); [|done..].
    by eapply books_posted.
  - rewrite (author_paid_frame _ _ _ Ha). by apply (books_same d).
Qed.

Lemma queue_step_settled org s s' : queue_step s s' → settled_amount org s = settled_amount org s'.
Proof.
  destruct 1 as [now s [Ha|Ha] _|now rc err s Ha _|rc err s Ha _|now s Ha _];
    unfold settled_amount; cbn; by rewrite Ha.
Qed.

Lemma collected_queue org d p :
  rows_related queue_step (pending_settlements d) p → collected org (d <| pending_settlements := p |>) = collected org d.
Proof.
  intros Hr. apply msum_pointwise. intros id. specialize (Hr id). cbn.
  destruct (pending_settlements d !! id) as [s|], (p !! id) as [s'|]; try done.
  destruct Hr as [->|Hr]; [done|]. symmetry. by apply queue_step_settled.
Qed.

Lemma settlement_step_value org d d' :
  G d d' → balance org d' + collected org d' = balance org d + collected org d.
Proof.
  intros [id s d0 Hn _ Hst _ _|p d0 Hr|now id s rc lid d0 d1 d2 d0' Hs Hst _ _ _ Hp Ha Hf|d0 d0' Ha|c d0]; try done.
  - unfold collected. cbn. rewrite msum_insert by done. unfold settled_amount at 1. by rewrite Hst.
  - by rewrite collected_queue.
  - destruct (settle_frame cfg _ _ _ _ _ _ _ _ Hp Ha Hf) as [-> Hpd].
    change (balance org (_ <| charges := _ |>)) with (balance org d1).
    rewrite (balance_posted _ _ _ org Hp). unfold collected. cbn. rewrite Hpd, (msum_update _ _ _ s) by done.
    unfold settled_amount, org_signed, settled_row. cbn. rewrite Hst.
    repeat case_bool_decide; cbn; first [congruence|lia].
  - by rewrite (author_paid_frame _ _ _ Ha).
Qed.

(** Row by row: what the component may do to a queue row. *)
Lemma settlement_step_row d d' id s :
  G d d' → pending_settlements d !! id = Some s →
  ∃ s', pending_settlements d' !! id = Some s' ∧
    (s' = s ∨ queue_step s s' ∨ s_status s = SRetrying ∧ ∃ rc, s' = settled_row rc s).
Proof.
  intros [id0 s0 d0 Hn _ _ _ _|p d0 Hr|now id0 s0 rc lid d0 d1 d2 d0' Hs Hst _ _ _ Hp Ha Hf|d0 d0' Ha|c d0] Hid.
  - exists s. cbn. rewrite lookup_insert_ne by congruence. auto.
  - specialize (Hr id). rewrite Hid in Hr. cbn. destruct (p !! id) as [s'|]; [|done]. exists s'. tauto.
  - destruct (settle_frame cfg _ _ _ _ _ _ _ _ Hp Ha Hf) as [-> Hpd]. cbn. rewrite Hpd.
    destruct (decide (id = id0)) as [->|Hne]; [rewrite lookup_insert_eq|rewrite lookup_insert_ne by done; eauto].
    assert (s0 = s) as -> by congruence. eauto 10.
  - rewrite (author_paid_frame _ _ _ Ha). eauto.
  - eauto.
Qed.

Lemma queue_step_ok s s' : queue_step s s' → row_ok s → row_ok s'.
Proof.
  intros Hs (Ha & Hm & Hst). destruct Hs as [now s [H|H] _|now rc err s H Hrc|rc err s H Hrc|now s H _];
    rewrite H in Hst; unfold row_ok; cbn; by split_and!.
Qed.

Lemma settlement_step_queue_ok d d' :
  0 < settlement_max_retries cfg → queue_ok d → G d d' → queue_ok d'.
Proof.
  intros Hmax Hok Hs id s' Hs'.
  destruct (pending_settlements d !! id) as [s|] eqn:Hid.
  - destruct (settlement_step_row _ _ _ _ Hs Hid) as (s1 & Hs1 & Hcase). assert (s1 = s') as -> by congruence.
    specialize (Hok id s Hid). destruct Hcase as [->|[Hq|(_ & rc & ->)]]; [done|by eapply queue_step_ok|].
    destruct Hok as (? & ? & _). done.
  - destruct Hs as [id0 s0 d Hn Ham Hst Hrc Hmr|p d Hr|now id0 s0 rc lid d d1 d2 d' Hs Hst _ _ _ Hp Ha Hf|d d' Ha|c d].
    + cbn in Hs'. apply lookup_insert_Some in Hs' as [[_ <-]|[_ Hs']]; [|congruence].
      unfold row_ok. rewrite Hst, Hrc, Hmr. done.
    + specialize (Hr id). rewrite Hid in Hr. cbn in Hs'. by rewrite Hs' in Hr.
    + destruct (settle_frame cfg _ _ _ _ _ _ _ _ Hp Ha Hf) as [Heq Hpd]. rewrite Heq in Hs'. cbn in Hs'.
      rewrite Hpd in Hs'. apply lookup_insert_Some in Hs' as [[<- _]|[_ Hs']]; congruence.
    + rewrite (author_paid_frame _ _ _ Ha) in Hs'. cbn in Hs'. congruence.
    + cbn in Hs'. congruence.
Qed.
End settlement_invariants.

Section settlement_facts.
Context (cfg : Settings).

Lemma author_paid_ok d d' : share_configured cfg → earnings_ok d → author_paid cfg d d' → earnings_ok d'.
Proof.
  intros Hc Hok (author & tool & caller & total & now & _ & Ht & id & Hid & ->) id' e He. cbn in He.
  apply lookup_insert_Some in He as [[_ <-]|[_ He]]; [|by eapply Hok].
  unfold split_ok, earning_row. cbn. pose proof (author_share_bounds cfg total Hc ltac:(lia)). lia.
Qed.

Lemma settlement_step_earnings d d' :
  share_configured cfg → earnings_ok d → settlement_step cfg d d' → earnings_ok d'.
Proof.
  intros Hc Hok Hs.
  destruct Hs as [id s d Hn _ _ _ _|p d Hr|now id s rc lid d d1 d2 d' Hs _ _ _ _ Hp Ha Hf|d d' Ha|c d]; try done.
  - assert (earnings_ok d1) as H1 by (unfold earnings_ok; by rewrite (posted_frame _ _ _ Hp)).
    assert (earnings_ok d2) as H2.
    { clear Hf Hp. induction Ha as [|d1 d2 d3 H _ IH]; [done|]. apply IH. by eapply author_paid_ok. }
    unfold earnings_ok. rewrite (finalised_frame _ _ _ _ _ Hf). done.
  - by eapply author_paid_ok.
Qed.

Lemma settled_effect_row now id row rc d d' :
  settled_effect cfg now id row rc d d' →
  ∃ s, pending_settlements d' !! id = Some s ∧ s_status s = SSettled.
Proof.
  intros (s & lid & d1 & d2 & Hs & _ & _ & _ & _ & _ & Hp & Ha & Hf).
  destruct (settle_frame cfg _ _ _ _ _ _ _ _ Hp Ha Hf) as [-> _]. cbn. rewrite lookup_insert_eq. eauto.
Qed.

Lemma rearm_candidates_sorted now org d :
  Sorted (λ a b, s_created_at a.2 ≤ s_created_at b.2) (rearm_candidates now org d).
Proof.
  unfold rearm_candidates. set (le := λ a b : string * PendingRow, _ || _).
  assert (∀ a b, le a b = true → s_created_at a.2 ≤ s_created_at b.2) as Hle.
  { unfold le. intros a b [?|[? _]%andb_true_iff]%orb_true_iff; case_bool; lia. }
  eapply Sorted_mono; [apply Hle|]. apply order_by_sorted. unfold le. intros a b [Hlt Hrest]%orb_false_iff.
  apply orb_true_iff. case_bool. destruct (decide (s_created_at a.2 = s_created_at b.2)) as [He|Hne].
  - right. rewrite He, Z.eqb_refl in Hrest. rewrite He, Z.eqb_refl. by apply string_leb_total.
  - left. apply Z.ltb_lt. lia.
Qed.
End settlement_facts.

(** ** Executions without interference *)
Section settlement_solo.
Context (cfg : Settings) (uuid : nat → string) (repr : json → string).

Lemma settle_claimed_solo id row rc d x :
  tracks id row d →
  wps (_settle_claimed_credit cfg uuid repr id row rc)
    (λ r d' _, (∃ now, r = Ok (true, s_amount row) ∧ settled_effect cfg now id row rc d d') ∨
               ((r = Ok (false, 0) ∨ ∃ e, r = Raise e) ∧ d' = d)) d x.
Proof.
  intros Ht. unfold _settle_claimed_credit. solo_step. solo_step; [right; eauto|]. intros now.
  eapply wpt_mono; [apply settle_claimed_spec; exact Ht| |intros e _ _; right; eauto].
  intros [[|] n] d' [Hn Hr]; cbn in *.
  - subst n. solo_step. eapply wps_mono; [apply invalidate_quietly_solo|]. intros r d1 x1 (-> & -> & _).
    solo_step. left. eauto.
  - subst. solo_step. right. auto.
Qed.

(** The running totals of non-negative amounts never decrease, so the rows within the
    cap are a prefix. *)
Lemma running_totals_above cap acc l :
  (∀ kv, kv ∈ l → 0 ≤ s_amount kv.2) → cap < acc → filter (λ it, it.2 ≤ cap) (running_totals acc l) = [].
Proof.
  revert acc. induction l as [|[id s] l IH]; intros acc Hl Hacc; [done|]. cbn [running_totals].
  pose proof (Hl (id, s) ltac:(left)) as Ha. cbn in Ha. rewrite filter_cons, decide_False by (cbn; lia).
  apply IH; [|lia]. intros. apply Hl. by right.
Qed.

Definition total_amount (l : list (string * PendingRow)) : Z := lsum (λ kv, s_amount kv.2) l.

Lemma running_totals_prefix cap acc l :
  (∀ kv, kv ∈ l → 0 ≤ s_amount kv.2) → acc ≤ cap →
  ∃ k, (filter (λ it, it.2 ≤ cap) (running_totals acc l)).*1 = (take k l).*1 ∧
    acc + total_amount (take k l) ≤ cap ∧
    ((k < length l)%nat → cap < acc + total_amount (take (S k) l)).
Proof.
  revert acc. induction l as [|[id s] l IH]; intros acc Hl Hacc.
  { exists 0%nat. cbn. split_and!; [done|lia|lia]. }
  cbn [running_totals]. pose proof (Hl (id, s) ltac:(left)) as Ha. cbn in Ha.
  destruct (decide (acc + s_amount s ≤ cap)) as [Hle|Hgt].
  - rewrite filter_cons, decide_True by done. destruct (IH (acc + s_amount s)) as (k & Hk & Hs & Hn); [|done|].
    { intros. apply Hl. by right. }
    exists (S k). unfold total_amount in *. cbn [take fmap list_fmap length fst]. rewrite Hk, !lsum_cons.
    cbn [snd]. split_and!; [done|lia|]. intros Hlt. specialize (Hn ltac:(lia)). lia.
  - rewrite filter_cons, decide_False by done. rewrite running_totals_above; [|intros; apply Hl; by right|lia].
    exists 0%nat. unfold total_amount. cbn. split_and!; [done|lia|]. intros. rewrite take_0. cbn. lia.
Qed.

Lemma rearmed_prefix now org cap d :
  queue_ok d → 0 ≤ cap →
  let due := rearm_candidates now org d in
  ∃ k, rearmed_ids now org cap d = (take k due).*1 ∧ total_amount (take k due) ≤ cap ∧
    ((k < length due)%nat → cap < total_amount (take (S k) due)).
Proof.
  intros Hok Hcap due. apply (running_totals_prefix cap 0 due); [|done].
  intros [id s] Hin. apply rearm_candidates_spec in Hin as [Hs _]. destruct (Hok id s Hs) as [? _]. cbn. lia.
Qed.

Lemma insert_earning_fails id e d x :
  insert_earning id e d = Raise x → is_integrity_error x || is_data_error x = true.
Proof. unfold insert_earning. intros Hi. repeat case_match; try done; by injection Hi as <-. Qed.

(** In a transaction, with nothing failing: an author is paid or skipped. *)
Definition proceeds (now : Z) {A} (r : res A) (w : World Db Ext) : Prop := (∃ a, r = Ok a) ∧ tx_now w = Some now.

Lemma pay_author_quiet now kvs w :
  tx_now w = Some now → wpq (pay_author cfg uuid repr tt kvs) (proceeds now) w.
Proof.
  intros Hn. unfold pay_author, insert_tool_call_earnings, proceeds.
  destruct (parse_allocation repr kvs) as [a|]; [|quiet_step; eauto].
  quiet_step. eapply wpq_savepoint; [exact Hn|]. quiet_step. quiet_step; [quiet_step; quiet_step; eauto|].
  quiet_step. quiet_step. quiet_step. quiet_step. destruct (insert_earning _ _ _) as [[u d']|e] eqn:Hi.
  - quiet_step. quiet_step. eauto.
  - apply insert_earning_fails in Hi as ->. quiet_step. eauto.
Qed.

Lemma pay_authors_quiet now allocs w :
  tx_now w = Some now → wpq (for_each allocs tt (pay_author cfg uuid repr)) (proceeds now) w.
Proof.
  revert w. induction allocs as [|kvs allocs IH]; intros w Hn; simpl; [quiet_step; unfold proceeds; eauto|].
  quiet_step. eapply wpq_mono; [by apply pay_author_quiet|]. intros r w' [[[] ->] Hn'].
  by apply IH.
Qed.

Lemma update_claimed_total id lease f now d : ∃ d', update_claimed id lease f now d = Ok (tt, d').
Proof. unfold update_claimed. repeat case_match; eauto. Qed.

Lemma settle_charge_total id a now d : is_bigint a = true → ∃ d', settle_charge id a now d = Ok (tt, d').
Proof. unfold settle_charge. intros ->. repeat case_match; eauto. Qed.

Lemma settle_claimed_quiet id row rc w now :
  tx_now w = Some now → books (db w) → holds_lease id (s_next_retry_at row) now (db w) = true →
  0 < s_amount row ≤ bigint_max → (∀ r, r ∈ ledger (db w) → l_id r ≠ uuid (uuid_n w)) →
  debit_admissible cfg now (s_org row) (s_amount row) (s_principal row) (db w) = true →
  wpq (settle_claimed_locked cfg uuid repr id row rc)
    (λ r w', r = Ok (true, s_amount row) ∧ tx_now w' = Some now) w.
Proof.
  intros Hn Hbk Hl Ha Hf Had. assert (sql_now w = now) as Hnow by (unfold sql_now; by rewrite Hn).
  assert (is_bigint (s_amount row) = true) as Hbig.
  { unfold is_bigint, bigint_min in *. apply andb_true_iff. split; apply Z.leb_le; lia. }
  unfold settle_claimed_locked. quiet_step. quiet_step. rewrite Hnow, Hl. cbn [negb]. quiet_step.
  eapply wpq_mono; [apply debit_locked_quiet; try done; [by rewrite Hnow|lia]|].
  intros r w1 [Hn1 ->]. cbn [negb]. quiet_step. eapply wpq_mono; [by apply pay_authors_quiet; rewrite Hn1|].
  intros r w2 [[u ->] Hn2]. quiet_step. quiet_step.
  match goal with |- context [update_claimed ?i ?l ?f ?n ?d] =>
    destruct (update_claimed_total i l f n d) as [d2 ->] end.
  quiet_step. quiet_step. quiet_step. quiet_step; [quiet_step; by quiet_step|]. unfold mark_charge_settled.
  quiet_step. rewrite Z.max_r by lia.
  match goal with |- context [settle_charge ?i ?a ?n ?d] =>
    destruct (settle_charge_total i a n d Hbig) as [d3 ->] end.
  by quiet_step.
Qed.
End settlement_solo.

(** ** Properties *)

(** C31. The retry queue neither loses nor invents money.  However many workers run at
    once, whatever fails, an organisation's balance plus what the queue has collected
    from it is constant: a charge that is retried is debited exactly when its row
    becomes settled, once, and never otherwise.  The books stay sound. *)
Theorem retries_conserve_credit (cfg : Settings) (uuid : nat → string) (uuid5 lower : string → string)
    (repr : json → string) (op : settlement_op) (org : string) (w : World Db Ext) :
  contended cfg w → books (db w) →
  let d' := db (perform_settlement cfg uuid uuid5 lower repr op w).2 in
  books d' ∧ balance org d' + collected org d' = balance org (db w) + collected org (db w).
Proof.
  intros Hw Hbk.
  apply (perform_settlement_keeps cfg uuid uuid5 lower repr
    (λ d, books d ∧ balance org d + collected org d = balance org (db w) + collected org (db w))); [|done..].
  intros d d' [Hd Hv] Hs. split; [by eapply settlement_step_books|]. by rewrite (settlement_step_value cfg org d d' Hs).
Qed.

(** A retry is all or nothing.  The claimed row's debit, the authors' earnings, the
    queue row, the usage event and the charge record are committed together with the
    full amount, and only under an unexpired lease that is still this worker's; on any
    failure (refused debit, lost claim, lost connection at any statement) the database
    is untouched. *)
Theorem retry_all_or_nothing (cfg : Settings) (uuid : nat → string) (repr : json → string) (id : string)
    (row : PendingRow) (rc : Z) (w : World Db Ext) :
  solo w → tracks id row (db w) →
  let '(r, w') := _settle_claimed_credit cfg uuid repr id row rc w in
  (∃ now, r = Ok (true, s_amount row) ∧ settled_effect cfg now id row rc (db w) (db w')) ∨
  ((r = Ok (false, 0) ∨ ∃ e, r = Raise e) ∧ db w' = db w).
Proof.
  intros Hw Ht. pose proof (settle_claimed_solo cfg uuid repr id row rc (db w) (ext w) Ht w Hw eq_refl eq_refl) as H.
  destruct (_settle_claimed_credit _ _ _ _ _ _ _). apply H.
Qed.

(** A settled charge is final.  No worker, admin reset or top-up rearm, in any
    interleaving, changes a settled row: a charge is never collected twice. *)
Theorem settled_charge_is_final (cfg : Settings) (uuid : nat → string) (uuid5 lower : string → string)
    (repr : json → string) (op : settlement_op) (id : string) (s : PendingRow) (w : World Db Ext) :
  contended cfg w → pending_settlements (db w) !! id = Some s → s_status s = SSettled →
  pending_settlements (db (perform_settlement cfg uuid uuid5 lower repr op w).2) !! id = Some s.
Proof.
  intros Hw Hs Hst.
  apply (perform_settlement_keeps cfg uuid uuid5 lower repr (λ d, pending_settlements d !! id = Some s)); [|done..].
  intros d d' Hd Hstep. destruct (settlement_step_row cfg d d' id s Hstep Hd) as (s' & Hs' & Hcase).
  destruct Hcase as [->|[Hq|[H _]]]; [done| |congruence].
  destruct Hq as [? s [?|?] _|? ? ? s ? _|? ? s ? _|? s ? _]; congruence.
Qed.

(** Every row of the queue asks for a positive amount and stays within its retry
    budget: a row that is still tried has attempts left, and a row is exhausted only
    when the budget is used up.  This holds under every operation and interleaving. *)
Theorem retry_budget_respected (cfg : Settings) (uuid : nat → string) (uuid5 lower : string → string)
    (repr : json → string) (op : settlement_op) (w : World Db Ext) :
  contended cfg w → 0 < settlement_max_retries cfg → queue_ok (db w) →
  queue_ok (db (perform_settlement cfg uuid uuid5 lower repr op w).2).
Proof.
  intros Hw Hmax Hok. apply (perform_settlement_keeps cfg uuid uuid5 lower repr queue_ok); [|done..].
  intros d d' Hd Hs. by eapply settlement_step_queue_ok.
Qed.

(** A top-up rearms the oldest exhausted charges it can pay for, and no more: the
    rearmed rows are exactly the longest prefix, oldest first, of the organisation's
    exhausted credit charges of the last week whose total is within the amount topped
    up; they become pending with a fresh budget and nothing else changes. *)
Theorem rearm_oldest_within_cap (org : string) (cap : Z) (w : World Db Ext) :
  solo w → queue_ok (db w) → org ≠ "" → 0 < cap →
  let '(r, w') := rearm_exhausted_credit_settlements org cap w in
  (r = Ok 0 ∧ db w' = db w) ∨
  ∃ now k, let due := rearm_candidates now org (db w) in
    r = Ok (Z.of_nat (length (take k due))) ∧
    db w' = update_rows (rearm_row now) (take k due).*1 (db w) ∧
    total_amount (take k due) ≤ cap ∧
    ((k < length due)%nat → cap < total_amount (take (S k) due)) ∧
    Sorted (λ a b, s_created_at a.2 ≤ s_created_at b.2) due.
Proof.
  intros Hw Hok Ho Hcap.
  assert (wps (rearm_exhausted_credit_settlements org cap) (λ r d' _, (r = Ok 0 ∧ d' = db w) ∨
    ∃ now k, let due := rearm_candidates now org (db w) in
      r = Ok (Z.of_nat (length (take k due))) ∧ d' = update_rows (rearm_row now) (take k due).*1 (db w) ∧
      total_amount (take k due) ≤ cap ∧ ((k < length due)%nat → cap < total_amount (take (S k) due)) ∧
      Sorted (λ a b, s_created_at a.2 ≤ s_created_at b.2) due) (db w) (ext w)) as H.
  { unfold rearm_exhausted_credit_settlements. rewrite bool_decide_false, (proj2 (Z.leb_gt _ _)) by done.
    cbn [orb]. solo_step. solo_step; [solo_step; by left|]. intros now. cbv beta iota zeta. right.
    destruct (rearmed_prefix now org cap (db w) Hok ltac:(lia)) as (k & Hk & Hle & Hmax).
    exists now, k. cbn zeta. rewrite Hk, length_fmap. split_and!; [done..|]. apply rearm_candidates_sorted. }
  specialize (H w Hw eq_refl eq_refl). destruct (rearm_exhausted_credit_settlements org cap w). apply H.
Qed.

(** C32. Progress of the retry: when nothing fails, a claimed charge whose lease is
    still held and whose debit is admissible is settled with its full amount. *)
Theorem admissible_retry_settles (cfg : Settings) (uuid : nat → string) (repr : json → string) (id : string)
    (row : PendingRow) (rc : Z) (w : World Db Ext) :
  quiet w → tx_now w = None → books (db w) → tracks id row (db w) →
  holds_lease id (s_next_retry_at row) (clock w) (db w) = true → 0 < s_amount row ≤ bigint_max →
  (∀ r, r ∈ ledger (db w) → l_id r ≠ uuid (uuid_n w)) →
  debit_admissible cfg (clock w) (s_org row) (s_amount row) (s_principal row) (db w) = true →
  let '(r, w') := _settle_claimed_credit cfg uuid repr id row rc w in
  r = Ok (true, s_amount row) ∧
  ∃ s, pending_settlements (db w') !! id = Some s ∧ s_status s = SSettled.
Proof.
  intros Hq Hn Hbk Ht Hl Ha Hf Had.
  assert (solo w) as Hsolo by (split; [done|]; rewrite Hq; constructor).
  pose proof (settle_claimed_solo cfg uuid repr id row rc (db w) (ext w) Ht w Hsolo eq_refl eq_refl) as H.
  assert (wpq (_settle_claimed_credit cfg uuid repr id row rc) (λ r _, r = Ok (true, s_amount row)) w) as Hp.
  { unfold _settle_claimed_credit. quiet_step. quiet_step.
    eapply wpq_mono; [by apply settle_claimed_quiet with (now := clock w)|]. intros r w' [-> _].
    cbn [negb]. quiet_step.
    eapply wpq_mono; [apply invalidate_quietly_quiet|]. intros r w2 [-> _]. by quiet_step. }
  specialize (Hp Hq). destruct (_settle_claimed_credit _ _ _ _ _ _ _) as [r w']. destruct Hp as [_ ->].
  split; [done|]. destruct H as [_ [(now & _ & Heff)|[[?|[? ?]] _]]]; [|done..].
  by eapply settled_effect_row.
Qed.

(** Earnings split exactly.  Whatever runs concurrently, every earnings row divides
    the price of the call between author and platform with nothing lost to rounding and
    neither share negative. *)
Theorem earnings_split_exactly (cfg : Settings) (uuid : nat → string) (uuid5 lower : string → string)
    (repr : json → string) (op : settlement_op) (w : World Db Ext) :
  contended cfg w → share_configured cfg → earnings_ok (db w) →
  earnings_ok (db (perform_settlement cfg uuid uuid5 lower repr op w).2).
Proof.
  intros Hw Hcfg Hok. apply (perform_settlement_keeps cfg uuid uuid5 lower repr earnings_ok); [|done..].
  intros d d' Hd Hs. by eapply settlement_step_earnings.
Qed.

(** ** A concrete queue *)
Module SettlementDemo.
Definition uuid := CreditDemo.uuid.
Definition uuid5 (s : string) : string := "c5:" +:+ s.
Definition lower (s : string) : string := s.
Definition repr (j : json) : string := "?".
Definition cfg : Settings := CreditDemo.cfg.
Definition run (op : settlement_op) (w : World Db Ext) : World Db Ext :=
  (perform_settlement cfg uuid uuid5 lower repr op w).2.
Definition allocation : json :=
  JObj [("author_org_id", JStr "bot"); ("tool_name", JStr "search"); ("caller_org_id", JStr "acme");
        ("total_cost_usdc", JInt 5001)].
Definition enqueue (run_id : string) (amount : Z) : settlement_op :=
  OpEnqueue "usage-1" "acme" run_id Credit amount None (Some "alice") "" [allocation].
Definition start : World Db Ext := CreditDemo.w0 <| uuid_n := 50%nat |>.
(** One unpaid charge of 0.25 USDC, ten seconds later. *)
Definition queued : World Db Ext := (run (enqueue "run-7" 250000) start) <| clock ::= Z.add (seconds 10) |>.
Definition collected_once : World Db Ext := run OpProcess queued.
(** A second worker runs between the statements of this one, and one statement fails. *)
Definition other_worker : event Db Ext :=
  MkEvent 1000 FOk (λ d x, (db (run OpProcess (MkWorld d x (clock queued) None [] 90)), x)).
Definition contend (w : World Db Ext) : World Db Ext :=
  w <| sched := [other_worker; MkEvent 5 FOk (λ d x, (d, x)); MkEvent 0 FFail (λ d x, (d, x))] |>.

Lemma contended_idle w : tx_now w = None → sched w = [] → contended cfg w.
Proof. intros Hn Hs. split; [done|]. rewrite Hs. constructor. Qed.

Lemma contended_contend w : tx_now w = None → contended cfg (contend w).
Proof.
  intros Hn. split; [done|].
  apply Forall_cons. split; [|by repeat constructor].
  intros d x. cbn [ev_env other_worker fst].
  apply (perform_settlement_steps cfg uuid uuid5 lower repr OpProcess (MkWorld d x (clock queued) None [] 90)).
  by apply contended_idle.
Qed.

Lemma contend_db w : db (contend w) = db w.
Proof. done. Qed.

Lemma run_keeps (P : Db → Prop) op w :
  closed_under P (settlement_step cfg) → tx_now w = None → sched w = [] → P (db w) → P (db (run op w)).
Proof. intros HP Hn Hs. apply perform_settlement_keeps; [done|]. by apply contended_idle. Qed.

Lemma books_queued : books (db queued).
Proof.
  unfold queued. change (db (?w <| clock ::= _ |>)) with (db w).
  apply run_keeps; [intros d d' Hd Hs; by eapply settlement_step_books|done|done|exact CreditDemo.books_w0].
Qed.

Lemma queue_ok_queued : queue_ok (db queued).
Proof.
  unfold queued. change (db (?w <| clock ::= _ |>)) with (db w).
  apply run_keeps; [intros d d' Hd Hs; by eapply (settlement_step_queue_ok cfg d d' eq_refl)|done|done|].
  intros id s Hs. assert (pending_settlements (db start) = ∅) as He by reflexivity.
  rewrite He, lookup_empty in Hs. done.
Qed.

Lemma queued_idle : tx_now queued = None ∧ sched queued = [].
Proof. split; vm_compute; reflexivity. Qed.
End SettlementDemo.

(** The row as the worker claimed it, and the world right after. *)
Module SettlementClaim.
Import SettlementDemo.
Definition after_claim : list (string * PendingRow) * Db := claim_due (clock queued) (db queued).
Definition claimed : World Db Ext := MkWorld after_claim.2 (ext queued) (clock queued) None [] 60.
Definition row : PendingRow :=
  lease_row (clock queued) (default (MkPending "" "" "" Credit 0 None None 0 0 0 "" SPending 0 "" JNull)
    (pending_settlements (db queued) !! "id-50")).

Lemma after_claim_rows : after_claim.1 = [("id-50", row)].
Proof. vm_compute. reflexivity. Qed.

Lemma claim_tracks : tracks "id-50" row (claim_due (clock queued) (db queued)).2.
Proof.
  apply (claim_due_tracks (clock queued) (db queued) "id-50" row). fold after_claim. rewrite after_claim_rows. left.
Qed.

Lemma tracks_row : tracks "id-50" row (db claimed).
Proof. exact claim_tracks. Qed.

Lemma books_claimed : books (db claimed).
Proof.
  cbn [db claimed]. unfold after_claim.
  eapply settlement_step_books with (cfg := cfg); [exact books_queued|apply claim_due_step].
Qed.
End SettlementClaim.

Lemma retries_conserve_credit_witness :
  let d' := db (SettlementDemo.run OpProcess (SettlementDemo.contend SettlementDemo.queued)) in
  balance "acme" d' + collected "acme" d' = 1000000 ∧ collected "acme" d' = 250000.
Proof.
  split; [|vm_compute; reflexivity].
  etransitivity; [apply (retries_conserve_credit SettlementDemo.cfg SettlementDemo.uuid SettlementDemo.uuid5
    SettlementDemo.lower SettlementDemo.repr OpProcess "acme" (SettlementDemo.contend SettlementDemo.queued))|].
  - apply SettlementDemo.contended_contend. apply SettlementDemo.queued_idle.
  - exact SettlementDemo.books_queued.
  - vm_compute. reflexivity.
Defined.

Lemma retry_all_or_nothing_witness :
  ∃ now, settled_effect SettlementDemo.cfg now "id-50" SettlementClaim.row 1 (db SettlementClaim.claimed)
    (db (_settle_claimed_credit SettlementDemo.cfg SettlementDemo.uuid SettlementDemo.repr "id-50"
           SettlementClaim.row 1 SettlementClaim.claimed).2).
Proof.
  assert (solo SettlementClaim.claimed) as Hw by (split; [vm_compute; reflexivity|];
    assert (sched SettlementClaim.claimed = []) as -> by (vm_compute; reflexivity); constructor).
  pose proof (retry_all_or_nothing SettlementDemo.cfg SettlementDemo.uuid SettlementDemo.repr "id-50"
    SettlementClaim.row 1 SettlementClaim.claimed Hw SettlementClaim.tracks_row) as H.
  assert ((_settle_claimed_credit SettlementDemo.cfg SettlementDemo.uuid SettlementDemo.repr "id-50"
    SettlementClaim.row 1 SettlementClaim.claimed).1 = Ok (true, 250000)) as Hr by (vm_compute; reflexivity).
  destruct (_settle_claimed_credit _ _ _ _ _ _ _) as [r w']. cbn in Hr. subst r.
  destruct H as [(now & _ & H)|[[H|[e H]] _]]; [exists now; exact H|discriminate H|discriminate H].
Defined.

Lemma settled_charge_is_final_witness :
  ∃ s, s_status s = SSettled ∧
    pending_settlements (db (SettlementDemo.run (OpReset "id-50")
      (SettlementDemo.contend SettlementDemo.collected_once))) !! "id-50" = Some s.
Proof.
  assert (∃ s, pending_settlements (db SettlementDemo.collected_once) !! "id-50" = Some s ∧ s_status s = SSettled)
    as (s & Hs & Hst) by (eexists; split; vm_compute; reflexivity).
  exists s. split; [exact Hst|].
  apply (settled_charge_is_final SettlementDemo.cfg SettlementDemo.uuid SettlementDemo.uuid5 SettlementDemo.lower
    SettlementDemo.repr (OpReset "id-50") "id-50" s (SettlementDemo.contend SettlementDemo.collected_once));
    [|rewrite SettlementDemo.contend_db; exact Hs|exact Hst].
  apply SettlementDemo.contended_contend. vm_compute. reflexivity.
Defined.

Lemma retry_budget_respected_witness :
  queue_ok (db (SettlementDemo.run OpProcess (SettlementDemo.contend SettlementDemo.queued))).
Proof.
  apply (retry_budget_respected SettlementDemo.cfg SettlementDemo.uuid SettlementDemo.uuid5 SettlementDemo.lower
    SettlementDemo.repr OpProcess (SettlementDemo.contend SettlementDemo.queued)).
  - apply SettlementDemo.contended_contend. apply SettlementDemo.queued_idle.
  - reflexivity.
  - exact SettlementDemo.queue_ok_queued.
Defined.

Lemma admissible_retry_settles_witness :
  (_settle_claimed_credit SettlementDemo.cfg SettlementDemo.uuid SettlementDemo.repr "id-50"
     SettlementClaim.row 1 SettlementClaim.claimed).1 = Ok (true, 250000).
Proof.
  assert (s_amount SettlementClaim.row = 250000) as Ha by (vm_compute; reflexivity).
  pose proof (admissible_retry_settles SettlementDemo.cfg SettlementDemo.uuid SettlementDemo.repr "id-50"
    SettlementClaim.row 1 SettlementClaim.claimed) as H.
  destruct (_settle_claimed_credit _ _ _ _ _ _ _) as [r w']. cbn [fst]. rewrite <- Ha. apply H.
  - vm_compute. reflexivity.
  - vm_compute. reflexivity.
  - exact SettlementClaim.books_claimed.
  - exact SettlementClaim.tracks_row.
  - vm_compute. reflexivity.
  - rewrite Ha. unfold bigint_max. lia.
  - assert (ledger (db SettlementClaim.claimed) = ledger (db CreditDemo.w0)) as -> by (vm_compute; reflexivity).
    intros l Hl. apply (list_elem_of_fmap_2 l_id) in Hl. intros He. rewrite He in Hl. revert Hl.
    apply (bool_decide_unpack (_ ∉ _)). vm_compute. exact I.
  - vm_compute. reflexivity.
Defined.

(** Three exhausted charges; the top-up pays for the two oldest. *)
Module RearmDemo.
Definition exhausted (created amount : Z) : PendingRow :=
  MkPending "usage" "acme" "run" Credit amount None None 5 5 0 "insufficient" SExhausted created "" (JArr []).
Definition broke : World Db Ext :=
  SettlementDemo.start <| db ::= λ d, d <| pending_settlements :=
    {["p1" := exhausted (days 99) 40; "p2" := exhausted (days 98) 50; "p3" := exhausted (days 97) 20]} |> |>.

Lemma queue_ok_broke : queue_ok (db broke).
Proof.
  intros id s Hs. cbn in Hs. rewrite !lookup_insert_Some, lookup_singleton_Some in Hs.
  destruct Hs as [[_ <-]|[_ [[_ <-]|[_ [_ <-]]]]]; vm_compute; repeat split; discriminate.
Qed.
End RearmDemo.

Lemma rearm_oldest_within_cap_witness :
  let '(r, w') := rearm_exhausted_credit_settlements "acme" 100 RearmDemo.broke in
  r = Ok 2 ∧ (s_status <$> pending_settlements (db w') !! "p1") = Some SExhausted ∧
  (s_status <$> pending_settlements (db w') !! "p2") = Some SPending.
Proof.
  assert (solo RearmDemo.broke) as Hw by (split; [reflexivity|constructor]).
  pose proof (rearm_oldest_within_cap "acme" 100 RearmDemo.broke Hw RearmDemo.queue_ok_broke
    ltac:(discriminate) ltac:(lia)) as H.
  destruct (rearm_exhausted_credit_settlements _ _ _) as [r w'] eqn:He.
  assert (r = Ok 2) as -> by (apply (f_equal fst) in He; vm_compute in He; congruence).
  split; [reflexivity|]. destruct H as [[H _]|(now & k & H)]; [discriminate H|].
  apply (f_equal snd) in He. cbn in He. rewrite <- He. split; vm_compute; reflexivity.
Defined.

Lemma earnings_split_exactly_witness :
  earnings_ok (db SettlementDemo.collected_once) ∧
  (e_author_share <$> (map_to_list (earnings (db SettlementDemo.collected_once))).*2) = [3500].
Proof.
  split; [|vm_compute; reflexivity].
  apply (earnings_split_exactly SettlementDemo.cfg SettlementDemo.uuid SettlementDemo.uuid5 SettlementDemo.lower
    SettlementDemo.repr OpProcess SettlementDemo.queued).
  - apply SettlementDemo.contended_idle; apply SettlementDemo.queued_idle.
  - split; discriminate.
  - assert (earnings (db SettlementDemo.queued) = ∅) as He by (vm_compute; reflexivity).
    intros id e Hid. rewrite He, lookup_empty in Hid. discriminate Hid.
Defined.
