(* ===== verification/Withdrawals.v ===== *)
(** * marketplace/withdrawals.py: paying authors their earnings

    A withdrawal claims pending earnings rows and becomes in-flight in one
    transaction, pays outside any transaction, and is then settled, released or left
    in flight for reconciliation.  The settlement wallet (teardrop/agent_wallets.py)
    is the interface [Rail]. *)

From S2P Require Export Earnings.
From S2P Require Import Credit.

(** What [check_usdc_transfer] answers. *)
Inductive UsdcTransferOutcome := OConfirmed | OReverted | OMismatch | OPending.

(** ** The settlement wallet

    [transfer_usdc] hands a transfer to the custodian, which answers the hash of a new
    transaction or raises; [verify_usdc_transfer] and [check_usdc_transfer] read the
    chain.  [reverted tx] says how the transaction ends.  The laws are what the code
    relies on: the wallet says that a transaction reverted only when it did. *)
Class Rail := {
  transfer_usdc : Z → list Transfer → string → Z → res string;
  verify_usdc_transfer : Z → list Transfer → string → res bool;
  check_usdc_transfer : Z → list Transfer → string → string → Z → res UsdcTransferOutcome;
  wallet_balance : Z → list Transfer → res Z;
  reverted : string → bool;
  verify_false now log tx : verify_usdc_transfer now log tx = Ok false → reverted tx = true;
  check_reverted now log tx to amount :
    check_usdc_transfer now log tx to amount = Ok OReverted → reverted tx = true;
}.

(** [transfer_usdc] for a withdrawal; the log keeps what was broadcast. *)
Definition submit `{Rail} (id to : string) (amount : Z) : Handler string :=
  external (λ now x,
    match transfer_usdc now (transfers x) to amount with
    | Ok tx => (Ok tx, x <| transfers ::= λ l, l ++ [MkTransfer id to amount tx] |>)
    | Raise e => (Raise e, x)
    end).

(** ** Statements *)
Definition insert_withdrawal (id : string) (r : WithdrawalRow) (d : Db) : res (unit * Db) :=
  if negb (is_bigint (w_amount r)) then Raise DataError
  else if w_amount r <=? 0 then Raise CheckViolation
  else match withdrawals d !! id with
       | Some _ => Raise UniqueViolation
       | None =>
           match orgs d !! w_org r with
           | None => Raise ForeignKeyViolation
           | Some _ => Ok (tt, d <| withdrawals ::= <[id := r]> |>)
           end
       end.

(** [UPDATE tool_author_withdrawals SET f WHERE id = $1 AND g]: the number of rows. *)
Definition update_withdrawal (id : string) (g : WithdrawalRow → bool) (f : Z → WithdrawalRow → WithdrawalRow)
    (now : Z) (d : Db) : res (Z * Db) :=
  match withdrawals d !! id with
  | Some r => if g r then Ok (1, d <| withdrawals ::= <[id := f now r]> |>) else Ok (0, d)
  | None => Ok (0, d)
  end.

Definition has_status (s : withdrawal_status) (r : WithdrawalRow) : bool := bool_decide (w_status r = s).

(** [UPDATE tool_author_earnings SET status = 'settled', withdrawal_id = $1 ...] *)
Definition claim_earnings (id : string) (ids : list string) (d : Db) : Db :=
  d <| earnings ::= map_imap (λ k e, Some
    (if bool_decide (k ∈ ids) && bool_decide (e_status e = EPending) && bool_decide (e_withdrawal e = None)
     then e <| e_status := ESettled |> <| e_withdrawal := Some id |> else e)) |>.

(** [UPDATE tool_author_earnings SET status = 'pending', withdrawal_id = NULL ...] *)
Definition release_earnings (id : string) (d : Db) : Db :=
  d <| earnings ::= fmap (λ e,
    if bool_decide (e_withdrawal e = Some id) && bool_decide (e_status e = ESettled)
    then e <| e_status := EPending |> <| e_withdrawal := None |> else e) |>.

(** [SELECT ... WHERE org_id AND status = 'pending' AND withdrawal_id IS NULL ORDER BY created_at] *)
Definition claimable (org : string) (d : Db) : list (string * EarningRow) :=
  order_by (λ a b, e_created_at a.2 <=? e_created_at b.2)
    (filter (λ kv, e_org kv.2 = org ∧ e_status kv.2 = EPending ∧ e_withdrawal kv.2 = None)
       (map_to_list (earnings d))).

(** [last_withdrawal] *)
Definition latest_withdrawal (org : string) (d : Db) : option Z :=
  w_created_at ∘ snd <$>
    head (order_by (λ a b, w_created_at b.2 <=? w_created_at a.2)
            (filter (λ kv, w_org kv.2 = org) (map_to_list (withdrawals d)))).

(** The loop of [_select_earnings_to_settle]. *)
Fixpoint select_earnings (rows : list (string * EarningRow)) (remaining : Z) (ids : list string) (total : Z)
    : list string * Z :=
  match rows with
  | [] => (ids, total)
  | (id, e) :: rows =>
      if remaining <=? 0 then (ids, total)
      else if remaining <? e_author_share e then select_earnings rows remaining ids total
      else select_earnings rows (remaining - e_author_share e) (ids ++ [id]) (total + e_author_share e)
  end.

Inductive transfer_status := TSettled | TFailed | TInFlight.
Record _TransferResult := MkTransferResult { tr_tx : string; tr_status : transfer_status; tr_error : string }.

(** An [AuthorWithdrawal] is a row with its id. *)
Definition AuthorWithdrawal : Type := string * WithdrawalRow.

Section withdrawals.
Context (cfg : Settings) (uuid : nat → string) (usd : Z → string).

(** [get_author_config], as far as it is used: the settlement wallet. *)
Definition get_author_config (org : string) : Handler (option string) := query (λ _ d, author_configs d !! org).

Definition cooldown_remaining (now last : Z) : option Z :=
  let elapsed := now - last in
  if elapsed <? seconds (marketplace_withdrawal_cooldown_seconds cfg)
  then Some ((seconds (marketplace_withdrawal_cooldown_seconds cfg) - elapsed) / microsecond_per_second)
  else None.

Definition request_withdrawal (org : string) (amount : Z) : Handler AuthorWithdrawal :=
  if negb (agent_wallet_enabled cfg) then
    raise (ValueError "Withdrawals are unavailable: agent wallets are not enabled on this platform")
  else
    config ← get_author_config org;
    match config with
    | None => raise (ValueError "Author config not set — register a settlement wallet first")
    | Some wallet =>
        if amount <? marketplace_minimum_withdrawal_usdc cfg then
          raise (ValueError ("Minimum withdrawal amount is " +:+ usd (marketplace_minimum_withdrawal_usdc cfg)))
        else
          balance ← get_author_balance org;
          if balance <? amount then
            raise (ValueError ("Insufficient balance: requested " +:+ pretty amount +:+ " atomic USDC but only "
                               +:+ pretty balance +:+ " pending"))
          else
            last_withdrawal ← query (λ _ d, latest_withdrawal org d);
            checked ← datetime_now;
            match last_withdrawal ≫= cooldown_remaining checked with
            | Some remaining => raise (ValueError ("Withdrawal cooldown: " +:+ pretty remaining +:+ "s remaining"))
            | None =>
                now ← datetime_now;
                withdrawal_id ← uuid4 uuid;
                let row := MkWithdrawal org amount "" wallet WPending now None 0 "" None in
                stmt (λ _, insert_withdrawal withdrawal_id row);;
                mret (withdrawal_id, row)
            end
    end.

(** The transaction of [_claim_withdrawal]. *)
Definition claim_withdrawal_locked (id : string) : Handler (WithdrawalRow * Z) :=
  row ← query (λ _ d, withdrawals d !! id);
  match row with
  | None => raise (ValueError "Withdrawal not found or not in 'pending' status")
  | Some w =>
      if negb (has_status WPending w) then
        raise (ValueError "Withdrawal not found or not in 'pending' status")
      else
        rows ← query (λ _ d, claimable (w_org w) d);
        let '(settled_ids, settled_total) := select_earnings rows (w_amount w) [] 0 in
        if bool_decide (settled_ids = []) || (settled_total <=? 0) then
          let set r := r <| w_status := WFailed |> <| w_tx := "" |> <| w_settled_at := None |>
                         <| w_error := "No pending earnings available for withdrawal" |> in
          stmt (update_withdrawal id (has_status WPending) (λ _, set));;
          mret (set w, 0)
        else
          let set r := r <| w_status := WInFlight |> <| w_tx := "" |> <| w_settled_at := None |>
                         <| w_error := "" |> in
          stmt (λ _ d, Ok (tt, claim_earnings id settled_ids d));;
          stmt (update_withdrawal id (has_status WPending) (λ _, set));;
          mret (set w, settled_total)
  end.

Definition _claim_withdrawal (id : string) : Handler (WithdrawalRow * Z) := transaction (claim_withdrawal_locked id).

Section rail.
Context `{Rail}.

Definition _attempt_transfer (id wallet : string) (settled_total : Z) : Handler _TransferResult :=
  if (settled_total <=? 0) || negb (agent_wallet_enabled cfg) then
    mret (MkTransferResult "" TFailed "Transfer amount must be positive")
  else
    sent ← catch (tx ← submit id wallet settled_total; mret (Some tx)) (λ _, mret None);
    match sent with
    | None => mret (MkTransferResult "" TInFlight "Transfer outcome unknown; reconciliation required")
    | Some tx =>
        confirmed ← catch (b ← external (λ now x, (verify_usdc_transfer now (transfers x) tx, x)); mret (Some b))
                          (λ _, mret None);
        mret (match confirmed with
              | None => MkTransferResult tx TInFlight "Transaction submitted; confirmation unavailable"
              | Some false => MkTransferResult tx TFailed "Transaction reverted on-chain"
              | Some true => MkTransferResult tx TSettled ""
              end)
    end.
End rail.

(** [row is None or row["status"] != "in_flight"] *)
Definition awaiting_settlement (id : string) : Handler unit :=
  row ← query (λ _ d, withdrawals d !! id);
  match row with
  | Some w => if has_status WInFlight w then mret tt
              else raise (RuntimeError "Withdrawal is no longer awaiting settlement")
  | None => raise (RuntimeError "Withdrawal is no longer awaiting settlement")
  end.

Definition settle_row (tx : string) (now : Z) (r : WithdrawalRow) : WithdrawalRow :=
  r <| w_status := WSettled |> <| w_tx := tx |> <| w_settled_at := Some now |> <| w_error := "" |>.

Definition _settle_withdrawal (id tx : string) : Handler unit :=
  transaction
    (awaiting_settlement id;;
     stmt (update_withdrawal id (has_status WInFlight) (settle_row tx));;
     mret tt).

Definition release_row (err : string) (r : WithdrawalRow) : WithdrawalRow :=
  r <| w_status := WFailed |> <| w_tx := "" |> <| w_settled_at := None |> <| w_error := err |>.

Definition _release_withdrawal (id err : string) : Handler unit :=
  transaction
    (awaiting_settlement id;;
     stmt (λ _ d, Ok (tt, release_earnings id d));;
     stmt (update_withdrawal id (has_status WInFlight) (λ _, release_row err));;
     mret tt).

Definition _record_in_flight (id tx err : string) : Handler unit :=
  transaction
    (query (λ _ d, withdrawals d !! id);;
     stmt (update_withdrawal id (has_status WInFlight) (λ _ r, r <| w_tx := tx |> <| w_error := err |>));;
     mret tt).

(** The rest of [process], once the claim is made. *)
Definition finish_withdrawal `{Rail} (id : string) (claimed : WithdrawalRow) (settled_total : Z)
    : Handler AuthorWithdrawal :=
  result ← _attempt_transfer id (w_wallet claimed) settled_total;
  match tr_status result with
  | TSettled =>
      _settle_withdrawal id (tr_tx result);;
      now ← datetime_now;
      mret (id, claimed <| w_status := WSettled |> <| w_tx := tr_tx result |> <| w_settled_at := Some now |>)
  | TFailed =>
      _release_withdrawal id (tr_error result);;
      mret (id, release_row (tr_error result) claimed)
  | TInFlight =>
      _record_in_flight id (tr_tx result) (tr_error result);;
      mret (id, claimed <| w_status := WInFlight |> <| w_tx := tr_tx result |> <| w_error := tr_error result |>)
  end.

Definition process_withdrawal `{Rail} (id : string) : Handler AuthorWithdrawal :=
  if negb (agent_wallet_enabled cfg) then
    raise (RuntimeError
      "Cannot process withdrawal: AGENT_WALLET_ENABLED is false — enable agent wallets first")
  else
    claim ← _claim_withdrawal id;
    let '(claimed, settled_total) := claim in
    if has_status WFailed claimed then mret (id, claimed)
    else finish_withdrawal id claimed settled_total.

Definition different_hash (r : WithdrawalRow) (tx : string) : bool :=
  negb (bool_decide (w_tx r = "")) && negb (bool_decide (w_tx r = tx)).

Definition complete_withdrawal (id tx : string) : Handler unit :=
  transaction
    (row ← query (λ _ d, withdrawals d !! id);
     match row with
     | None => raise (ValueError "Withdrawal not found")
     | Some r =>
         if different_hash r tx then raise (ValueError "Withdrawal already has a different transaction hash")
         else if has_status WInFlight r then
           stmt (update_withdrawal id (has_status WInFlight) (settle_row tx));; mret tt
         else
           stmt (update_withdrawal id (λ _, true) (λ _ r, r <| w_tx := tx |>));; mret tt
     end).

Definition newest_first (rows : list AuthorWithdrawal) : list AuthorWithdrawal :=
  order_by (λ a b, w_created_at b.2 <=? w_created_at a.2) rows.

Definition list_pending_withdrawals (org : option string) : Handler (list AuthorWithdrawal) :=
  query (λ _ d, newest_first
    (filter (λ kv, w_status kv.2 = WPending ∧ (org = None ∨ org = Some (w_org kv.2))) (map_to_list (withdrawals d)))).

Definition list_org_withdrawals (isoformat : Z → string) (org : string) (n : Z) (cursor : option Z)
    : Handler (list AuthorWithdrawal * option string) :=
  rows ← query (λ _ d, limit n (newest_first
    (filter (λ kv, w_org kv.2 = org ∧ match cursor with Some t => w_created_at kv.2 <? t | None => true end = true)
       (map_to_list (withdrawals d)))));
  mret (rows, if Z.of_nat (length rows) =? n then (λ kv, isoformat (w_created_at kv.2)) <$> last rows else None).

Definition reset_row (r : WithdrawalRow) : WithdrawalRow :=
  r <| w_status := WPending |> <| w_tx := "" |> <| w_settled_at := None |> <| w_attempts := 0 |>
    <| w_error := "" |> <| w_next_sweep := None |>.

Definition resettable (r : WithdrawalRow) : bool :=
  bool_decide (w_status r ∈ [WFailed; WExhausted; WInFlight]).

Definition reset_withdrawal (id : string) : Handler bool :=
  transaction
    (row ← query (λ _ d, withdrawals d !! id);
     match row with
     | None => mret false
     | Some r =>
         if negb (resettable r) then mret false
         else
           (if has_status WInFlight r then stmt (λ _ d, Ok (tt, release_earnings id d)) else mret tt);;
           stmt (update_withdrawal id resettable (λ _, reset_row));;
           mret true
     end).

Definition list_in_flight_withdrawals (n : Z) : Handler (list AuthorWithdrawal) :=
  query (λ _ d, limit n (order_by (λ a b, w_created_at a.2 <=? w_created_at b.2)
    (filter (λ kv, w_status kv.2 = WInFlight) (map_to_list (withdrawals d))))).

Definition list_exhausted_withdrawals (n : Z) : Handler (list AuthorWithdrawal) :=
  query (λ _ d, limit n (newest_first
    (filter (λ kv, w_status kv.2 = WExhausted) (map_to_list (withdrawals d))))).
End withdrawals.

(** ** The money behind a withdrawal *)

(** What the withdrawal has claimed of its author's earnings. *)
Definition claimed_by (id : string) (d : Db) : Z :=
  msum (λ _ e, if bool_decide (e_withdrawal e = Some id) then e_author_share e else 0) (earnings d).

(** What was broadcast for it and did not revert. *)
Definition paid_by `{Rail} (id : string) (x : Ext) : Z :=
  lsum (λ t, if bool_decide (t_withdrawal t = id) && negb (reverted (t_tx t)) then t_amount t else 0) (transfers x).

Definition holds_claims (r : WithdrawalRow) : Prop := w_status r = WInFlight ∨ w_status r = WSettled.

(** Earnings rows: a claimed row is settled and its withdrawal exists. *)
Definition claims_ok (d : Db) : Prop :=
  ∀ k e, earnings d !! k = Some e →
    0 ≤ e_author_share e ∧
    ∀ id, e_withdrawal e = Some id → e_status e = ESettled ∧
      ∃ r, withdrawals d !! id = Some r ∧ holds_claims r ∧ w_org r = e_org e.

(** Payouts: nothing is broadcast beyond the claims of a row that holds them, and a hash
    on record is that of the only transfer that can still be alive. *)
Definition live `{Rail} (t : Transfer) : Prop := reverted (t_tx t) = false.

Definition payouts_ok `{Rail} (d : Db) (x : Ext) : Prop :=
  (∀ t, t ∈ transfers x → 0 < t_amount t ∧ is_Some (withdrawals d !! t_withdrawal t)) ∧
  (∀ id, paid_by id x ≤ claimed_by id d) ∧
  (∀ id r t, withdrawals d !! id = Some r → w_status r = WInFlight → w_tx r ≠ "" →
     t ∈ transfers x → t_withdrawal t = id → live t → t_tx t = w_tx r).

Definition market_ok `{Rail} (d : Db) (x : Ext) : Prop := claims_ok d ∧ payouts_ok d x.

Section market.
Context `{Rail}.

Definition no_claims (id : string) (d : Db) : Prop := ∀ k e, earnings d !! k = Some e → e_withdrawal e ≠ Some id.

Lemma no_claims_zero id d : no_claims id d → claimed_by id d = 0.
Proof. intros Hn. apply msum_zero. intros k e He. by rewrite bool_decide_false by by eapply Hn. Qed.

Lemma idle_no_claims id d :
  claims_ok d → (∀ r, withdrawals d !! id = Some r → ¬ holds_claims r) → no_claims id d.
Proof.
  intros Hc Hr k e He Hw. destruct (Hc k e He) as [_ Hl]. destruct (Hl id Hw) as (_ & r & Hid & Hh & _).
  by eapply Hr.
Qed.

Lemma paid_nonneg id d x : payouts_ok d x → 0 ≤ paid_by id x.
Proof.
  intros (Ht & _ & _). apply lsum_nonneg. intros t Hin. destruct (Ht t Hin) as [? _]. destruct (_ && _); lia.
Qed.

(** A withdrawal without claims has no live transfer. *)
Lemma idle_unpaid id d x : market_ok d x → no_claims id d → paid_by id x = 0.
Proof.
  intros [_ Hp] Hn. pose proof (paid_nonneg id d x Hp). destruct Hp as (_ & Hle & _).
  specialize (Hle id). rewrite (no_claims_zero id d Hn) in Hle. lia.
Qed.

Lemma unpaid_no_live id d x t :
  market_ok d x → paid_by id x = 0 → t ∈ transfers x → t_withdrawal t = id → ¬ live t.
Proof.
  intros [_ (Ht & _)] Hp Hin Hid Hl. destruct (Ht t Hin) as [Hpos _].
  pose proof (lsum_elem_le (λ t, if bool_decide (t_withdrawal t = id) && negb (reverted (t_tx t)) then t_amount t else 0)
    (transfers x) t) as Hle. cbn in Hle. rewrite bool_decide_true, Hl in Hle by done. cbn in Hle.
  unfold paid_by in Hp. rewrite Hp in Hle. assert (t_amount t ≤ 0); [|lia]. apply Hle; [|done].
  intros t' Hin'. destruct (Ht t' Hin') as [? _]. destruct (_ && _); lia.
Qed.

Lemma market_row id r r' d x :
  market_ok d x → withdrawals d !! id = Some r → w_org r' = w_org r →
  holds_claims r' ∨ no_claims id d →
  (w_status r' = WInFlight → w_tx r' ≠ "" → ∀ t, t ∈ transfers x → t_withdrawal t = id → live t → t_tx t = w_tx r') →
  market_ok (d <| withdrawals ::= <[id := r']> |>) x.
Proof.
  intros [Hc (Ht & Hp & Htx)] Hid Ho Hh Hl. split; [|split_and!].
  - intros k e He. destruct (Hc k e He) as [Hs Hw]. split; [done|]. intros id' Hid'.
    destruct (Hw id' Hid') as (Hst & r0 & Hr0 & Hh0 & Ho0). split; [done|]. cbn.
    destruct (decide (id' = id)) as [->|Hne]; [rewrite lookup_insert_eq|rewrite lookup_insert_ne by done; eauto].
    exists r'. assert (r0 = r) as -> by congruence. destruct Hh as [Hh|Hh]; [|by destruct (Hh k e He)].
    split_and!; [done|done|congruence].
  - intros t Hin. destruct (Ht t Hin) as [? [r0 ?]]. split; [done|]. cbn. apply lookup_insert_is_Some'. eauto.
  - exact Hp.
  - intros id' r0 t Hr0. cbn in Hr0. apply lookup_insert_Some in Hr0 as [[<- <-]|[_ Hr0]]; eauto.
Qed.

Lemma market_insert id r d x :
  market_ok d x → withdrawals d !! id = None → w_status r = WPending →
  market_ok (d <| withdrawals ::= <[id := r]> |>) x.
Proof.
  intros [Hc (Ht & Hp & Htx)] Hid Hst. split; [|split_and!].
  - intros k e He. destruct (Hc k e He) as [Hs Hw]. split; [done|]. intros id' Hid'.
    destruct (Hw id' Hid') as (Hst' & r0 & Hr0 & Hh0 & Ho0). split; [done|]. cbn.
    rewrite lookup_insert_ne by congruence. eauto.
  - intros t Hin. destruct (Ht t Hin) as [? ?]. split; [done|]. cbn. apply lookup_insert_is_Some'. auto.
  - exact Hp.
  - intros id' r0 t Hr0. cbn in Hr0. apply lookup_insert_Some in Hr0 as [[_ <-]|[_ Hr0]]; [congruence|eauto].
Qed.

Lemma claimed_release id id' d :
  claims_ok d → claimed_by id' (release_earnings id d) = if bool_decide (id' = id) then 0 else claimed_by id' d.
Proof.
  intros Hc. unfold claimed_by, release_earnings. cbn. rewrite msum_fmap.
  case_bool_decide as Hid; [apply msum_zero|apply msum_ext]; intros k e He; destruct (Hc k e He) as [_ Hw]; cbn.
  - subst id'. destruct (decide (e_withdrawal e = Some id)) as [Hl|Hl].
    + destruct (Hw id Hl) as [-> _]. rewrite Hl, (bool_decide_true (Some id = Some id)) by done. done.
    + rewrite (bool_decide_false (e_withdrawal e = Some id)) by done. cbn. by rewrite bool_decide_false.
  - destruct (decide (e_withdrawal e = Some id)) as [Hl|Hl].
    + destruct (Hw id Hl) as [-> _]. rewrite Hl, (bool_decide_true (Some id = Some id)) by done. cbn.
      repeat case_bool_decide; cbn in *; congruence.
    + by rewrite (bool_decide_false (e_withdrawal e = Some id)) by done.
Qed.

Lemma release_no_claims id d : claims_ok d → no_claims id (release_earnings id d).
Proof.
  intros Hc k e He. cbn in He. apply lookup_fmap_Some in He as (e0 & <- & He0). destruct (Hc k e0 He0) as [_ Hw].
  destruct (decide (e_withdrawal e0 = Some id)) as [Hl|Hl].
  - destruct (Hw id Hl) as [-> _]. by rewrite Hl, (bool_decide_true (Some id = Some id)).
  - by rewrite (bool_decide_false (e_withdrawal e0 = Some id)) by done.
Qed.

(** Releasing a withdrawal whose transfers, if any, reverted. *)
Lemma market_release id d x : market_ok d x → paid_by id x = 0 → market_ok (release_earnings id d) x.
Proof.
  intros [Hc (Ht & Hp & Htx)] Hpaid. split; [|split_and!]; [|done| |done].
  - intros k e He. cbn in He. apply lookup_fmap_Some in He as (e0 & <- & He0). destruct (Hc k e0 He0) as [Hs Hw].
    destruct (_ && _) eqn:Hg; [|by split]. by split.
  - intros id'. rewrite claimed_release by done. case_bool_decide; [subst; lia|done].
Qed.
End market.

(** ** The selection of earnings *)
Definition share_total (l : list (string * EarningRow)) : Z := lsum (λ kv, e_author_share kv.2) l.

(** The rows taken are some of the candidates, in order, within the amount; a row left
    out no longer fits, or nothing is missing. *)
Lemma select_earnings_spec rows remaining ids total :
  (∀ kv, kv ∈ rows → 0 ≤ e_author_share kv.2) →
  ∃ sel, sel `sublist_of` rows ∧
    select_earnings rows remaining ids total = (ids ++ sel.*1, total + share_total sel) ∧
    0 ≤ share_total sel ≤ Z.max 0 remaining ∧
    ∀ kv, kv ∈ rows → kv ∈ sel ∨ remaining - share_total sel < e_author_share kv.2 ∨ remaining ≤ share_total sel.
Proof.
  revert remaining ids total. induction rows as [|[id e] rows IH]; intros remaining ids total Hnn; cbn.
  { exists []. rewrite app_nil_r, Z.add_0_r. split_and!; [done|done|done|cbn; lia|]. intros kv Hin%elem_of_nil. done. }
  pose proof (Hnn (id, e) ltac:(left)) as He. cbn in He.
  assert (∀ kv, kv ∈ rows → 0 ≤ e_author_share kv.2) as Hnn' by (intros; apply Hnn; by right).
  destruct (Z.leb_spec remaining 0) as [Hz|Hz].
  { exists []. rewrite app_nil_r, Z.add_0_r. cbn. split_and!; [apply sublist_nil_l|done|done|lia|]. right. right. lia. }
  destruct (Z.ltb_spec remaining (e_author_share e)) as [Hlt|Hge].
  - destruct (IH remaining ids total Hnn') as (sel & Hsub & -> & Hle & Hmax). exists sel.
    split_and!; [by apply sublist_cons|done|lia|lia|]. intros kv [->|Hin]%elem_of_cons; [|by apply Hmax].
    right. left. cbn. lia.
  - destruct (IH (remaining - e_author_share e) (ids ++ [id]) (total + e_author_share e) Hnn')
      as (sel & Hsub & -> & Hle & Hmax). exists ((id, e) :: sel).
    assert (share_total ((id, e) :: sel) = e_author_share e + share_total sel) as Hs by done. rewrite Hs.
    split_and!; [by apply sublist_skip|by rewrite <- app_assoc, <- Z.add_assoc|lia|lia|].
    intros kv [->|Hin]%elem_of_cons; [left; left|]. destruct (Hmax kv Hin) as [?|[?|?]].
    + left. by right.
    + right. left. lia.
    + right. right. lia.
Qed.

Lemma claimable_spec org d kv :
  kv ∈ claimable org d ↔
  earnings d !! kv.1 = Some kv.2 ∧ e_org kv.2 = org ∧ e_status kv.2 = EPending ∧ e_withdrawal kv.2 = None.
Proof.
  destruct kv as [k e]. unfold claimable. rewrite elem_of_order_by, list_elem_of_filter, elem_of_map_to_list. cbn. tauto.
Qed.

Lemma claimable_nodup org d : NoDup (claimable org d).*1.
Proof.
  unfold claimable. rewrite order_by_perm.
  pose proof (NoDup_fst_map_to_list (earnings d)) as Hnd. revert Hnd. generalize (map_to_list (earnings d)).
  intros l. induction l as [|kv l IH]; intros Hnd; [constructor|]. apply NoDup_cons in Hnd as [Hk Hnd].
  rewrite filter_cons. destruct (decide _); [|by apply IH]. cbn. apply NoDup_cons. split; [|by apply IH].
  intros (kv' & Heq & [_ Hin]%list_elem_of_filter)%list_elem_of_fmap. apply Hk.
  rewrite Heq. by apply list_elem_of_fmap_2.
Qed.

(** What the claim does to the claims. *)
Lemma claimed_claim org id id' sel d :
  sel `sublist_of` claimable org d →
  claimed_by id' (claim_earnings id sel.*1 d) = claimed_by id' d + if bool_decide (id' = id) then share_total sel else 0.
Proof.
  intros Hsub. assert (NoDup sel.*1) as Hnd.
  { eapply sublist_NoDup; [apply claimable_nodup|]. by apply fmap_sublist. }
  assert (∀ k e, (k, e) ∈ sel → earnings d !! k = Some e ∧ e_status e = EPending ∧ e_withdrawal e = None) as Hsel.
  { intros k e Hin. eapply elem_of_sublist in Hin; [|done]. apply claimable_spec in Hin. naive_solver. }
  unfold claimed_by, claim_earnings. cbn.
  transitivity (msum (λ k e, (if bool_decide (e_withdrawal e = Some id') then e_author_share e else 0) +
    (if bool_decide (id' = id) then if bool_decide (k ∈ sel.*1) then e_author_share e else 0 else 0)) (earnings d)).
  - apply msum_pointwise. intros k. rewrite map_lookup_imap. destruct (earnings d !! k) as [e|] eqn:He; cbn; [|done].
    destruct (decide (k ∈ sel.*1)) as [Hk|Hk].
    + pose proof Hk as ([k0 e0] & Heq & Hin)%list_elem_of_fmap. cbn in Heq. subst k0.
      destruct (Hsel k e0 Hin) as (He0 & Hst & Hw). assert (e0 = e) as -> by congruence.
      rewrite Hst, Hw, !(bool_decide_true (_ ∈ _)) by done. cbn. repeat case_bool_decide; cbn in *; congruence || lia.
    + rewrite !(bool_decide_false (k ∈ _)) by done. cbn. repeat case_bool_decide; lia.
  - rewrite msum_add. f_equal. case_bool_decide; [|by apply msum_zero].
    apply (msum_keys (λ _ e, e_author_share e)); [done|]. intros k e Hin. by apply Hsel.
Qed.

Section market_steps.
Context `{Rail}.

Definition in_flight_row (r : WithdrawalRow) : WithdrawalRow :=
  r <| w_status := WInFlight |> <| w_tx := "" |> <| w_settled_at := None |> <| w_error := "" |>.

Lemma market_claim id r sel d x :
  market_ok d x → withdrawals d !! id = Some r → w_status r = WPending → sel `sublist_of` claimable (w_org r) d →
  let d' := (claim_earnings id sel.*1 d) <| withdrawals ::= <[id := in_flight_row r]> |> in
  market_ok d' x ∧ claimed_by id d' = share_total sel ∧ paid_by id x = 0.
Proof.
  intros Hok Hid Hst Hsub d'.
  assert (no_claims id d) as Hno.
  { apply idle_no_claims; [apply Hok|]. intros r0 Hr0 [?|?]; congruence. }
  pose proof (idle_unpaid id d x Hok Hno) as Hpaid. destruct Hok as [Hc (Ht & Hp & Htx)].
  assert (∀ id', claimed_by id' d' = claimed_by id' d + if bool_decide (id' = id) then share_total sel else 0) as Hcl.
  { intros id'. by apply (claimed_claim (w_org r)). }
  assert (0 ≤ share_total sel) as Hpos.
  { apply lsum_nonneg. intros [k e] Hin. eapply elem_of_sublist in Hin; [|exact Hsub].
    apply claimable_spec in Hin as [Hin _]. apply (Hc k e Hin). }
  split; [split; [|split_and!]|split; [|done]].
  - intros k e' He'. cbn in He'. rewrite map_lookup_imap in He'. destruct (earnings d !! k) as [e|] eqn:He; [|done].
    cbn in He'. injection He' as <-. destruct (Hc k e He) as [Hs Hw].
    destruct (_ && _ && _) eqn:Hg; (split; [done|]); intros id' Hid'; cbn in *.
    + apply andb_true_iff in Hg as [[Hk _]%andb_true_iff _]. apply bool_decide_eq_true in Hk. injection Hid' as <-. split; [done|]. rewrite lookup_insert_eq. eexists. split; [done|].
      split; [by left|]. apply list_elem_of_fmap in Hk as ([k0 e0] & Heq & Hin). cbn in Heq. subst k0.
      eapply elem_of_sublist in Hin; [|exact Hsub]. apply claimable_spec in Hin. cbn in Hin. naive_solver.
    + destruct (Hw id' Hid') as (Hst' & r0 & Hr0 & Hh0 & Ho0). split; [done|].
      rewrite lookup_insert_ne; [eauto|]. intros ->. by apply (Hno k e He).
  - intros t Hin. destruct (Ht t Hin). split; [done|]. cbn. apply lookup_insert_is_Some'. auto.
  - intros id'. rewrite Hcl. specialize (Hp id'). case_bool_decide; lia.
  - intros id' r0 t Hr0. cbn in Hr0. apply lookup_insert_Some in Hr0 as [[_ <-]|[_ Hr0]]; [done|eauto].
  - rewrite Hcl, bool_decide_true, no_claims_zero by done. lia.
Qed.

Lemma paid_snoc id x t :
  paid_by id (x <| transfers ::= λ l, l ++ [t] |>) =
  paid_by id x + if bool_decide (t_withdrawal t = id) && negb (reverted (t_tx t)) then t_amount t else 0.
Proof. apply lsum_snoc. Qed.

Lemma market_submit id r to amount tx d x :
  market_ok d x → withdrawals d !! id = Some r → w_tx r = "" → paid_by id x = 0 →
  0 < amount ≤ claimed_by id d →
  market_ok d (x <| transfers ::= λ l, l ++ [MkTransfer id to amount tx] |>).
Proof.
  intros [Hc (Ht & Hp & Htx)] Hid Hr Hpaid Ha. split; [done|split_and!]; cbn [transfers].
  - intros t [Hin|Hin%list_elem_of_singleton]%elem_of_app; [by apply Ht|]. subst. cbn. split; [lia|eauto].
  - intros id'. rewrite paid_snoc. cbn. specialize (Hp id'). case_bool_decide as He; cbn; [|lia].
    subst id'. destruct (reverted tx); cbn; lia.
  - intros id' r0 t Hr0 Hst0 Htx0 [Hin|Hin%list_elem_of_singleton]%elem_of_app Hid'; [by eapply Htx|].
    subst. cbn in Hr0. congruence.
Qed.

(** ** Interference

    Other processes may do anything that keeps the market consistent, but leave alone
    the withdrawals that are [owned] here: their rows (a missing one may be created,
    pending), their claims and their transfers. *)
Definition leaves_alone (owned : string → Prop) (d : Db) (x : Ext) (d' : Db) (x' : Ext) : Prop :=
  (market_ok d x → market_ok d' x') ∧
  ∀ id, owned id →
    (withdrawals d' !! id = withdrawals d !! id ∨
     withdrawals d !! id = None ∧ ∃ r, withdrawals d' !! id = Some r ∧ w_status r = WPending) ∧
    claimed_by id d' = claimed_by id d ∧
    ∀ t, t ∈ transfers x' → t_withdrawal t = id → t ∈ transfers x.

(** The transfers of a withdrawal that can still be alive have this hash, if any. *)
Definition only_live (tx : option string) (id : string) (x : Ext) : Prop :=
  ∀ t, t ∈ transfers x → t_withdrawal t = id → live t → Some (t_tx t) = tx.

(** What this process knows of a withdrawal it handles. *)
Definition mine (id : string) (r : WithdrawalRow) (claimed : Z) (tx : option string) (d : Db) (x : Ext) : Prop :=
  market_ok d x ∧ withdrawals d !! id = Some r ∧ claimed_by id d = claimed ∧ only_live tx id x.

Lemma stable_market owned : stable (leaves_alone owned) market_ok.
Proof. intros d x d' x' Hok [Hl _]. auto. Qed.

Lemma stable_mine owned id r c tx : owned id → stable (leaves_alone owned) (mine id r c tx).
Proof.
  intros Ho d x d' x' (Hok & Hr & Hc & Hp) [Hl Hown]. destruct (Hown id Ho) as (Hrow & Hc' & Ht).
  split_and!; [auto| |congruence|intros t Hin Hid; by apply Hp; [apply Ht|]].
  destruct Hrow as [->|[Hn _]]; congruence.
Qed.

Lemma only_live_none id d x : market_ok d x → only_live None id x ↔ paid_by id x = 0.
Proof.
  intros Hok. split; [|intros Hp t Hin Hid Hl; exfalso; by eapply unpaid_no_live].
  intros Ho. apply lsum_zero. intros t Hin. case_bool_decide as Hid; cbn; [|done].
  destruct (reverted (t_tx t)) eqn:Hl; cbn; [done|]. by specialize (Ho t Hin Hid Hl).
Qed.

Lemma only_live_reverted tx id x : only_live (Some tx) id x → reverted tx = true → only_live None id x.
Proof.
  intros Ho Hr t Hin Hid Hl. specialize (Ho t Hin Hid Hl). injection Ho as Ho.
  unfold live in Hl. congruence.
Qed.

(** A row of this process that holds no claims. *)
Definition idle (id : string) (d : Db) : Prop := ∃ r, withdrawals d !! id = Some r ∧ ¬ holds_claims r.

Lemma stable_idle owned id : owned id → stable (leaves_alone owned) (λ d x, market_ok d x ∧ idle id d).
Proof.
  intros Ho d x d' x' [Hok (r & Hr & Hh)] [Hl Hown]. split; [auto|]. destruct (Hown id Ho) as (Hrow & _).
  exists r. split; [|done]. destruct Hrow as [->|[Hn _]]; [done|congruence].
Qed.
End market_steps.

Section market_rg.
Context `{Rail} (cfg : Settings) (owned : string → Prop).
Abbreviation R := (leaves_alone owned).

Lemma wpt_update_withdrawal now id g f (E : exn → Prop) (Q : Z → Db → Prop) d :
  (∀ e, E e) →
  (∀ r, withdrawals d !! id = Some r → g r = true → Q 1 (d <| withdrawals ::= <[id := f now r]> |>)) →
  ((∀ r, withdrawals d !! id = Some r → g r = false) → Q 0 d) →
  wpt now (stmt (update_withdrawal id g f) : Handler Z) Q (λ e _, E e) d.
Proof.
  intros HE HS HN. apply wpt_stmt; [done|]. unfold update_withdrawal.
  destruct (withdrawals d !! id) as [r|]; [|split; [by apply HN|done]].
  destruct (g r) eqn:Hg; (split; [|done]); [by apply HS|]. apply HN. by intros r' [= <-].
Qed.

Lemma has_status_spec s r : has_status s r = true ↔ w_status r = s.
Proof. apply bool_decide_eq_true. Qed.

(** The claim: refused, empty-handed, or holding exactly what it will pay. *)
Definition claim_outcome (id : string) (r : WithdrawalRow) (claimed : WithdrawalRow) (total : Z) (d d' : Db) : Prop :=
  withdrawals d !! id = Some r ∧ w_status r = WPending ∧
  ((w_status claimed = WFailed ∧ total = 0 ∧ w_org claimed = w_org r ∧ d' = d <| withdrawals ::= <[id := claimed]> |>) ∨
   ∃ sel, sel `sublist_of` claimable (w_org r) d ∧ total = share_total sel ∧ 0 < total ≤ w_amount r ∧
     claimed = in_flight_row r ∧
     d' = (claim_earnings id sel.*1 d) <| withdrawals ::= <[id := claimed]> |>).

Lemma claim_spec now id d :
  claims_ok d →
  wpt now (claim_withdrawal_locked id)
    (λ c d', ∃ r, claim_outcome id r c.1 c.2 d d') (λ e _, True) d.
Proof.
  intros Hc. unfold claim_withdrawal_locked. tx_step. tx_step; [done|].
  destruct (withdrawals d !! id) as [r|] eqn:Hid; [|by tx_step].
  destruct (has_status WPending r) eqn:Hst; cbn [negb]; [|by tx_step].
  tx_step. tx_step; [done|].
  destruct (select_earnings_spec (claimable (w_org r) d) (w_amount r) [] 0) as (sel & Hsub & Hsel & Hle & _).
  { intros [k e] Hin. apply claimable_spec in Hin as [Hin _]. apply (Hc k e Hin). }
  rewrite Hsel. cbn [app]. rewrite Z.add_0_l. apply has_status_spec in Hst. tx_step.
  - tx_step. apply wpt_update_withdrawal; [done|..].
    + intros r0 Hr0 _. assert (r0 = r) as -> by congruence. tx_step. exists r. split_and!; [done..|]. left. done.
    + intros Hno. specialize (Hno r Hid). by apply bool_decide_eq_false in Hno.
  - apply orb_false_iff in Heqb as [_ Hpos]. case_bool. tx_step. tx_step; [done|]. split; [|done].
    tx_step. apply wpt_update_withdrawal; [done|..].
    + intros r0 Hr0 _. cbn in Hr0. assert (r0 = r) as -> by congruence. tx_step. exists r. split_and!; [done..|].
      right. exists sel. cbn. split_and!; first [done|lia].
    + intros Hno. specialize (Hno r Hid). by apply bool_decide_eq_false in Hno.
Qed.

(** The whole claim under interference. *)
Lemma claim_rg id :
  owned id →
  rg R (λ d x, market_ok d x) (_claim_withdrawal id)
    (λ r d x, match r with
              | Ok (claimed, total) =>
                  if has_status WFailed claimed
                  then market_ok d x ∧ idle id d
                  else mine id claimed total None d x ∧ w_status claimed = WInFlight ∧ w_tx claimed = "" ∧ 0 < total
              | Raise _ => market_ok d x end).
Proof.
  intros Ho. unfold _claim_withdrawal. apply rg_transaction; [apply stable_market|done|].
  intros now d x Hok. eapply wpt_mono; [apply claim_spec, Hok| |done].
  intros [claimed total] d' (r & Hid & Hst & Hcase). cbn in *.
  destruct Hcase as [(Hf & -> & Horg & ->)|(sel & Hsub & -> & Hpos & -> & ->)].
  - assert (market_ok (d <| withdrawals ::= <[id := claimed]> |>) x) as Hok'.
    { apply (market_row id r); [done|done|done|right|congruence].
      apply idle_no_claims; [apply Hok|]. intros r0 Hr0 [?|?]; congruence. }
    split; [|done]. rewrite (proj2 (has_status_spec _ _) Hf). split; [done|]. exists claimed. cbn.
    rewrite lookup_insert_eq. split; [done|]. intros [?|?]; congruence.
  - destruct (market_claim id r sel d x Hok Hid Hst Hsub) as (Hok' & Hcl & Hpaid). split; [|done].
    change (has_status WFailed (in_flight_row r)) with false. cbv iota.
    split; [|split_and!; [done|done|lia]]. split_and!; [exact Hok'| |exact Hcl|by eapply only_live_none].
    cbn. by rewrite lookup_insert_eq.
Qed.

(** Broadcasting: afterwards at most the claimed amount is on its way. *)
Lemma submit_rg id r total :
  owned id → w_tx r = "" → 0 < total →
  rg R (mine id r total None) (submit id (w_wallet r) total)
    (λ res d x, match res with
                | Ok tx => mine id r total (Some tx) d x
                | Raise _ => market_ok d x ∧ withdrawals d !! id = Some r end).
Proof.
  intros Ho Htx Hpos. unfold submit. apply rg_external; [by apply stable_mine|].
  intros now d x (Hok & Hid & Hcl & Hlive). split; [done|].
  destruct (transfer_usdc _ _ _ _) as [tx|e]; [|done].
  assert (market_ok d (x <| transfers ::= λ l, l ++ [MkTransfer id (w_wallet r) total tx] |>)) as Hok'.
  { apply (market_submit id r); [done..|by eapply only_live_none|lia]. }
  split; [|done]. split_and!; [done..|].
  intros t [Hin|Hin%list_elem_of_singleton]%elem_of_app Hw Hl; [|by subst].
  by specialize (Hlive t Hin Hw Hl).
Qed.

Lemma attempt_rg id r total :
  agent_wallet_enabled cfg = true → owned id → w_status r = WInFlight → w_tx r = "" → 0 < total →
  rg R (mine id r total None) (_attempt_transfer cfg id (w_wallet r) total)
    (λ res d x, match res with
                | Ok t => match tr_status t with
                          | TSettled => market_ok d x ∧ withdrawals d !! id = Some r
                          | TFailed => mine id r total None d x
                          | TInFlight => market_ok d x ∧ withdrawals d !! id = Some r ∧
                                         (tr_tx t ≠ "" → mine id r total (Some (tr_tx t)) d x)
                          end
                | Raise _ => market_ok d x end).
Proof.
  intros Hcfg Ho Hst Htx Hpos. unfold _attempt_transfer. rewrite Hcfg, (proj2 (Z.leb_gt _ _)) by lia. cbn [negb orb].
  apply (rg_bind _ _ _ _ (λ res d x, match res with
    | Ok (Some tx) => mine id r total (Some tx) d x
    | _ => market_ok d x ∧ withdrawals d !! id = Some r end)); [| |by intros e d x [? _]].
  { eapply (rg_catch _ _ _ _ (λ res d x, match res with
      | Ok (Some tx) => mine id r total (Some tx) d x
      | _ => market_ok d x ∧ withdrawals d !! id = Some r end)); [|intros e; by apply rg_ret|done].
    eapply rg_bind; [by apply submit_rg| |done]. intros tx. by apply rg_ret. }
  intros [tx|]; [|apply rg_ret; cbn; intros d x [? ?]; by split_and!].
  apply (rg_bind _ _ _ _ (λ res d x, match res with
    | Ok (Some false) => mine id r total None d x
    | _ => mine id r total (Some tx) d x end)); [| |by intros e d x [? _]].
  - eapply (rg_catch _ _ _ _ (λ res d x, match res with
      | Ok (Some false) => mine id r total None d x
      | _ => mine id r total (Some tx) d x end)); [|intros e; by apply rg_ret|done].
    apply (rg_bind _ _ _ _ (λ res d x, match res with
      | Ok false => mine id r total None d x
      | _ => mine id r total (Some tx) d x end)); [|intros []; by apply rg_ret|done].
    apply rg_external; [by apply stable_mine|]. intros now d x Hm. split; [done|]. split; [|done].
    destruct (verify_usdc_transfer _ _ _) as [[|]|e] eqn:Hv; [done| |done].
    destruct Hm as (Hok & Hid & Hcl & Hl). split_and!; [done..|].
    eapply only_live_reverted; [done|]. by eapply verify_false.
  - intros [[|]|]; apply rg_ret; cbn; intros d x Hm; [|done|].
    + by destruct Hm as (? & ? & _).
    + split_and!; [apply Hm|apply Hm|done].
Qed.

Lemma wpt_awaiting now id (Q : unit → Db → Prop) d :
  (∀ r, withdrawals d !! id = Some r → w_status r = WInFlight → Q tt d) →
  wpt now (awaiting_settlement id) Q (λ _ _, True) d.
Proof.
  intros HQ. unfold awaiting_settlement. tx_step. tx_step; [done|].
  destruct (withdrawals d !! id) as [r|]; [|by tx_step].
  destruct (has_status WInFlight r) eqn:Hst; [|by tx_step]. tx_step. eapply HQ; [done|by apply has_status_spec].
Qed.

Definition settles (id tx : string) (d : Db) : Db → Prop := λ d',
  ∃ r now, withdrawals d !! id = Some r ∧ w_status r = WInFlight ∧
    d' = d <| withdrawals ::= <[id := settle_row tx now r]> |>.

Lemma settle_spec now id tx d :
  wpt now (awaiting_settlement id;;
           stmt (update_withdrawal id (has_status WInFlight) (settle_row tx));; mret tt : Handler unit)
    (λ _, settles id tx d) (λ _ _, True) d.
Proof.
  tx_step. apply wpt_awaiting. intros r Hr Hst. tx_step. apply wpt_update_withdrawal; [done|..].
  - intros r0 Hr0 _. tx_step. exists r0, now. split_and!; [done|congruence|done].
  - intros Hno. specialize (Hno r Hr). by apply bool_decide_eq_false in Hno.
Qed.

Lemma settles_ok id tx d d' x : market_ok d x → settles id tx d d' → market_ok d' x.
Proof.
  intros Hok (r & now & Hr & Hst & ->). apply (market_row id r); [done..|left; by right|done].
Qed.

Lemma settle_rg (P : Db → Ext → Prop) id tx :
  stable R P → (∀ d x, P d x → market_ok d x) → rg R P (_settle_withdrawal id tx) (λ _, market_ok).
Proof.
  intros HP HPm. unfold _settle_withdrawal. apply rg_transaction; [done|done|].
  intros now d x Hd. eapply wpt_mono; [apply settle_spec| |intros; by apply HPm].
  intros u d' Hs. assert (market_ok d' x); [|done]. eapply settles_ok; [|exact Hs]; by apply HPm.
Qed.

Definition releases (id : string) (f : WithdrawalRow → WithdrawalRow) (d : Db) : Db → Prop := λ d',
  ∃ r, withdrawals d !! id = Some r ∧ w_status r = WInFlight ∧
    d' = (release_earnings id d) <| withdrawals ::= <[id := f r]> |>.

Lemma releases_ok id f d d' x :
  (∀ r, w_org (f r) = w_org r ∧ w_status (f r) ≠ WInFlight) →
  market_ok d x → only_live None id x → releases id f d d' → market_ok d' x.
Proof.
  intros Hf Hok Hl (r & Hr & Hst & ->). destruct (Hf r) as [Ho Hn].
  apply (market_row id r); [|done|done|right|done].
  - apply market_release; [done|]. by eapply only_live_none.
  - apply release_no_claims, Hok.
Qed.

Lemma release_spec now id err d :
  wpt now (awaiting_settlement id;;
           stmt (λ _ d, Ok (tt, release_earnings id d));;
           stmt (update_withdrawal id (has_status WInFlight) (λ _, release_row err));; mret tt : Handler unit)
    (λ _, releases id (release_row err) d) (λ _ _, True) d.
Proof.
  tx_step. apply wpt_awaiting. intros r Hr Hst. tx_step. tx_step; [done|]. split; [|done].
  tx_step. apply wpt_update_withdrawal; [done|..].
  - intros r0 Hr0 _. tx_step. exists r0. cbn in Hr0. split_and!; [done|congruence|done].
  - intros Hno. specialize (Hno r Hr). by apply bool_decide_eq_false in Hno.
Qed.

Lemma release_rg id r total err :
  owned id →
  rg R (mine id r total None) (_release_withdrawal id err)
    (λ res d x, market_ok d x ∧ match res with Ok _ => idle id d | Raise _ => True end).
Proof.
  intros Ho. unfold _release_withdrawal. apply rg_transaction; [by apply stable_mine|by intros d x [? _]|].
  intros now d x (Hok & Hid & Hcl & Hl). eapply wpt_mono; [apply release_spec| |by intros].
  intros u d' Hs. assert (market_ok d' x) as Hok'.
  { eapply releases_ok; [|exact Hok|exact Hl|exact Hs]. done. }
  split; [|done]. split; [done|]. destruct Hs as (r0 & _ & _ & ->). eexists. cbn. rewrite lookup_insert_eq.
  split; [done|]. by intros [?|?].
Qed.

Lemma record_rg id r total tx err :
  owned id → w_status r = WInFlight →
  rg R (λ d x, market_ok d x ∧ withdrawals d !! id = Some r ∧ (tx ≠ "" → mine id r total (Some tx) d x))
    (_record_in_flight id tx err) (λ _, market_ok).
Proof.
  intros Ho Hst. unfold _record_in_flight. apply rg_transaction; [|by intros d x (? & _)|].
  { intros d x d' x' (Hok & Hr & Hm) Hl. assert (market_ok d' x') by by apply Hl. split_and!; [done| |].
    - destruct Hl as [_ Hown]. destruct (Hown id Ho) as ([->|[? _]] & _); congruence.
    - intros Ht. eapply (stable_mine owned); [done|by apply Hm|done]. }
  intros now d x (Hok & Hr & Hm). tx_step. tx_step; [done|]. tx_step. apply wpt_update_withdrawal; [done|..].
  - intros r0 Hr0 _. assert (r0 = r) as -> by congruence. tx_step.
    assert (market_ok (d <| withdrawals ::= <[id := r <| w_tx := tx |> <| w_error := err |>]> |>) x); [|done].
    apply (market_row id r); [done..|left; by left|]. intros _ Ht t Hin Hid Hlive. cbn in *.
    destruct (Hm Ht) as (_ & _ & _ & Ho'). specialize (Ho' t Hin Hid Hlive). congruence.
  - intros _. by tx_step.
Qed.

(** Processing a withdrawal keeps the market consistent; one that ends failed is idle. *)
Lemma process_rg id :
  owned id →
  rg R market_ok (process_withdrawal cfg id)
    (λ res d x, market_ok d x ∧
       match res with
       | Ok (_, w) => match w_status w with WSettled | WInFlight => True | _ => idle id d end
       | Raise _ => True end).
Proof.
  intros Ho. unfold process_withdrawal. destruct (agent_wallet_enabled cfg) eqn:Hcfg; cbn [negb];
    [|by apply rg_raise].
  eapply (rg_bind _ _ _ _ (λ r d x, match r with
    | Ok (claimed, total) =>
        if has_status WFailed claimed then market_ok d x ∧ idle id d
        else mine id claimed total None d x ∧ w_status claimed = WInFlight ∧ w_tx claimed = "" ∧ 0 < total
    | Raise _ => market_ok d x end)); [by apply claim_rg| |done].
  intros [claimed total]. destruct (has_status WFailed claimed) eqn:Hf; [apply has_status_spec in Hf; apply rg_ret; cbn; by rewrite Hf|].
  apply (rg_pure _ _ (w_status claimed = WInFlight ∧ w_tx claimed = "" ∧ 0 < total)); [by intros d x [_ ?]|].
  intros (Hst & Htx & Hpos). unfold finish_withdrawal.
  eapply rg_bind; [eapply rg_mono; [by apply attempt_rg|by intros d x [? _]|intros r d x Hr; exact Hr]| |].
  2:{ by intros e d x Hok. }
  intros [tx [| |] err]; cbn [tr_status tr_tx tr_error].
  - apply (rg_bind _ _ _ _ (λ _, market_ok)); [| |by intros].
    + apply settle_rg; [|by intros d x [? _]]. intros d x d' x' [Hok Hr] Hl. split; [by apply Hl|].
      destruct Hl as [_ Hown]. destruct (Hown id Ho) as ([->|[? _]] & _); congruence.
    + intros u. apply (rg_bind _ _ _ _ (λ _, market_ok)); [by apply rg_datetime_now| |by intros].
      intros now. by apply rg_ret.
  - eapply rg_bind; [by apply release_rg| |by intros e d x [? _]].
    intros u. apply rg_ret. intros d x [? ?]. done.
  - apply (rg_bind _ _ _ _ (λ _, market_ok)); [by apply record_rg| |by intros].
    intros u. by apply rg_ret.
Qed.

(** The operator's reset: sound when no transfer of the withdrawal can be alive. *)
Lemma reset_rg id :
  owned id →
  rg R (λ d x, market_ok d x ∧ only_live None id x) (reset_withdrawal id) (λ _, market_ok).
Proof.
  intros Ho. unfold reset_withdrawal. apply rg_transaction; [|by intros d x [? _]|].
  { intros d x d' x' [Hok Hl] [Hm Hown]. split; [auto|]. destruct (Hown id Ho) as (_ & _ & Ht).
    intros t Hin Hid. by apply Hl; [apply Ht|]. }
  intros now d x [Hok Hl]. tx_step. tx_step; [done|].
  destruct (withdrawals d !! id) as [r|] eqn:Hr; [|by tx_step].
  destruct (resettable r) eqn:Hres; cbn [negb]; [|by tx_step]. tx_step.
  assert (∀ d0, market_ok d0 x → withdrawals d0 !! id = Some r → no_claims id d0 →
    wpt now (stmt (update_withdrawal id resettable (λ _, reset_row));; mret true : Handler bool)
      (λ _ d', market_ok d' x ∧ market_ok d' x) (λ _ _, market_ok d x) d0) as Hset.
  { intros d0 Hok0 Hr0 Hno. tx_step. apply wpt_update_withdrawal; [done|..]; [|by intros _; tx_step].
    intros r' Hr' _. assert (r' = r) as -> by congruence. tx_step.
    assert (market_ok (d0 <| withdrawals ::= <[id := reset_row r]> |>) x); [|done].
    by apply (market_row id r); [..|right|]. }
  tx_step.
  - tx_step; [done|]. split; [|done]. apply Hset; [|done|by apply release_no_claims, Hok].
    apply market_release; [done|]. by eapply only_live_none.
  - tx_step. apply Hset; [done..|]. apply idle_no_claims; [apply Hok|]. intros r0 Hr0 Hh.
    assert (r0 = r) as -> by congruence. apply bool_decide_eq_false in Heqb. destruct Hh as [?|Hh]; [done|].
    unfold resettable in Hres. rewrite Hh in Hres. by apply bool_decide_eq_true in Hres; set_solver.
Qed.

Lemma complete_rg id tx : rg R market_ok (complete_withdrawal id tx) (λ _, market_ok).
Proof.
  unfold complete_withdrawal. apply rg_transaction; [apply stable_market|done|].
  intros now d x Hok. tx_step. tx_step; [done|].
  destruct (withdrawals d !! id) as [r|] eqn:Hr; [|by tx_step].
  tx_step; [by tx_step|]. tx_step.
  - tx_step. apply wpt_update_withdrawal; [done|..]; [|by intros _; tx_step]. intros r0 Hr0 Hst. tx_step.
    assert (market_ok (d <| withdrawals ::= <[id := settle_row tx now r0]> |>) x); [|done].
    apply has_status_spec in Hst. by apply (market_row id r0); [..|left; right|].
  - tx_step. apply wpt_update_withdrawal; [done|..]; [|by intros _; tx_step]. intros r0 Hr0 _. tx_step.
    assert (r0 = r) as -> by congruence.
    assert (market_ok (d <| withdrawals ::= <[id := r <| w_tx := tx |>]> |>) x); [|done].
    apply bool_decide_eq_false in Heqb0. apply (market_row id r); [done..| |done].
    destruct (decide (w_status r = WSettled)) as [Hs|Hs]; [left; by right|right].
    apply idle_no_claims; [apply Hok|]. intros r1 Hr1 [?|?]; congruence.
Qed.

Lemma insert_withdrawal_ok id r d x :
  market_ok d x → w_status r = WPending →
  match insert_withdrawal id r d with
  | Ok (_, d') => market_ok d' x
  | Raise _ => True end.
Proof.
  intros Hok Hst. unfold insert_withdrawal. repeat case_match; try done. all: simplify_eq.
  by apply market_insert.
Qed.

Lemma request_rg uuid usd org amount : rg R market_ok (request_withdrawal cfg uuid usd org amount) (λ _, market_ok).
Proof.
  assert (∀ A (f : Z → Db → A), rg R market_ok (query f : Handler A) (λ _, market_ok)) as Hq.
  { intros A f. by apply rg_query; [apply stable_market|]. }
  assert (∀ A B (m : Handler A) (f : A → Handler B), rg R market_ok m (λ _, market_ok) →
    (∀ a, rg R market_ok (f a) (λ _, market_ok)) → rg R market_ok (m ≫= f) (λ _, market_ok)) as Hb.
  { intros A B m f Hm Hf. by eapply rg_bind; [exact Hm|exact Hf|]. }
  assert (∀ A e, rg R market_ok (raise e : Handler A) (λ _, market_ok)) as Hr by (intros; by apply rg_raise).
  unfold request_withdrawal, get_author_config, get_author_balance. destruct (negb _); [done|].
  apply Hb; [done|]. intros [wallet|]; [|done]. destruct (_ <? _); [done|]. apply Hb; [done|]. intros balance.
  destruct (_ <? _); [done|]. apply Hb; [done|]. intros last. apply Hb; [by apply rg_datetime_now|].
  intros checked. destruct (_ ≫= _); [done|]. apply Hb; [by apply rg_datetime_now|]. intros now.
  apply Hb; [by apply rg_uuid4|]. intros id. apply Hb; [|intros; by apply rg_ret].
  apply rg_stmt; [apply stable_market|]. intros t d x Hok. split; [done|].
  pose proof (insert_withdrawal_ok id (MkWithdrawal org amount "" wallet WPending now None 0 "" None) d x Hok eq_refl) as Hi.
  by destruct (insert_withdrawal _ _ _) as [[u d']|e].
Qed.
End market_rg.

(** ** Executions without interference *)
Section withdrawal_solo.
Context `{Rail} (cfg : Settings).

(** Releasing what was just claimed restores the earnings. *)
Lemma claim_release id ids d :
  no_claims id d → earnings (release_earnings id (claim_earnings id ids d)) = earnings d.
Proof.
  intros Hno. apply map_eq. intros k. cbn. rewrite lookup_fmap, map_lookup_imap.
  destruct (earnings d !! k) as [e|] eqn:He; cbn; [|done]. f_equal.
  destruct (_ && _ && _) eqn:Hg; cbn.
  - rewrite bool_decide_true by done. cbn. apply andb_true_iff in Hg as [[_ Hst]%andb_true_iff Hw]. case_bool.
    destruct e. cbn in *. by subst.
  - rewrite (bool_decide_false (e_withdrawal e = Some id)) by by eapply Hno. done.
Qed.

(** Everything [process_withdrawal] may do to the shared state. *)
Definition process_outcome (id : string) (d : Db) (x : Ext) (res : res AuthorWithdrawal) (d' : Db) (x' : Ext) : Prop :=
  match res with
  | Raise _ => (d' = d ∧ x' = x) ∨ ∃ r claimed total, claim_outcome id r claimed total d d' ∧ w_status claimed = WInFlight
  | Ok (id', w) =>
      id' = id ∧ ∃ r claimed total dc, claim_outcome id r claimed total d dc ∧
      match w_status w with
      | WSettled => ∃ tx now, transfers x' = transfers x ++ [MkTransfer id (w_wallet r) total tx] ∧ 0 < total ∧
                      d' = dc <| withdrawals ::= <[id := settle_row tx now claimed]> |>
      | WFailed => earnings d' = earnings d ∧
                   ∃ r', withdrawals d' !! id = Some r' ∧ w_status r' = WFailed ∧
                   (x' = x ∨ ∃ t, transfers x' = transfers x ++ [t] ∧ reverted (t_tx t) = true)
      | WInFlight => earnings d' = earnings dc ∧
                     (x' = x ∨ ∃ tx, transfers x' = transfers x ++ [MkTransfer id (w_wallet r) total tx])
      | _ => False
      end
  end.

Definition sent (id to : string) (total : Z) (tx : string) (x : Ext) : Ext :=
  x <| transfers ::= λ l, l ++ [MkTransfer id to total tx] |>.

Lemma attempt_solo id wallet total d x :
  agent_wallet_enabled cfg = true → 0 < total →
  wps (_attempt_transfer cfg id wallet total)
    (λ res d' x', d' = d ∧ ∃ t, res = Ok t ∧
       match tr_status t with
       | TSettled => x' = sent id wallet total (tr_tx t) x
       | TFailed => x' = sent id wallet total (tr_tx t) x ∧ reverted (tr_tx t) = true
       | TInFlight => x' = x ∨ ∃ tx, x' = sent id wallet total tx x
       end) d x.
Proof.
  intros Hcfg Hpos. unfold _attempt_transfer, submit. rewrite Hcfg, (proj2 (Z.leb_gt _ _)) by lia. cbn [negb orb].
  solo_step. solo_step. solo_step. solo_step.
  { solo_step. solo_step. split; [done|]. eexists. split; [done|]. by left. }
  intros now. destruct (transfer_usdc _ _ _ _) as [tx|e].
  2:{ solo_step. solo_step. split; [done|]. eexists. split; [done|]. by left. }
  solo_step. solo_step. solo_step. solo_step. solo_step.
  { solo_step. solo_step. split; [done|]. eexists. split; [done|]. right. eauto. }
  intros now'. destruct (verify_usdc_transfer _ _ _) as [[|]|e] eqn:Hv; cbn; repeat solo_step;
    (split; [done|]); eexists; (split; [done|]); cbn.
  - done.
  - split; [done|]. by eapply verify_false.
  - right. eauto.
Qed.

Lemma process_solo id d x :
  claims_ok d → wps (process_withdrawal cfg id) (process_outcome id d x) d x.
Proof.
  intros Hc. unfold process_withdrawal. solo_step; [solo_step; by left|].
  apply negb_false_iff in Heqb. unfold _claim_withdrawal. solo_step. solo_step; [by left|]. intros now.
  eapply wpt_mono; [by apply claim_spec| |by intros; left].
  intros [claimed total] dc (r & Hcl). cbn in Hcl. pose proof Hcl as (Hr & Hst & Hcase).
  solo_step.
  { solo_step. split; [done|]. exists r, claimed, total, dc. split; [done|]. apply has_status_spec in Heqb0.
    rewrite Heqb0. destruct Hcase as [(_ & _ & _ & ->)|(sel & _ & _ & _ & -> & _)]; [|done].
    split; [done|]. exists claimed. cbn. rewrite lookup_insert_eq. auto. }
  destruct Hcase as [(Hf & _)|(sel & Hsub & -> & Hpos & -> & ->)].
  { unfold has_status in Heqb0. by rewrite Hf in Heqb0. }
  assert (no_claims id d) as Hno by (apply idle_no_claims; [done|]; intros r0 Hr0 [?|?]; congruence).
  set (dc := (claim_earnings id sel.*1 d) <| withdrawals ::= <[id := in_flight_row r]> |>) in *.
  assert (∀ e x', process_outcome id d x (Raise e) dc x') as Hraise.
  { intros e x'. right. exists r, (in_flight_row r), (share_total sel). done. }
  assert (withdrawals dc !! id = Some (in_flight_row r)) as Hdc by apply lookup_insert_eq.
  unfold finish_withdrawal. solo_step. eapply wps_mono; [apply attempt_solo; [done|lia]|].
  intros res d1 x1 (-> & [tx [| |] err] & -> & Ht); cbn [tr_status tr_tx tr_error] in *.
  - unfold _settle_withdrawal. solo_step. solo_step; [apply Hraise|]. intros now1.
    eapply wpt_mono; [apply settle_spec| |intros; apply Hraise]. intros u d' (r1 & now2 & Hr1 & _ & ->).
    assert (r1 = in_flight_row r) as -> by congruence. solo_step. solo_step. solo_step.
    split; [done|]. exists r, (in_flight_row r), (share_total sel), dc. split; [done|].
    cbn. exists tx, now2. subst x1. split_and!; [done|lia|done].
  - unfold _release_withdrawal. solo_step. solo_step; [apply Hraise|]. intros now1.
    eapply wpt_mono; [apply release_spec| |intros; apply Hraise]. intros u d' (r1 & Hr1 & _ & ->).
    solo_step. split; [done|]. exists r, (in_flight_row r), (share_total sel), dc. split; [done|].
    cbn. destruct Ht as [-> Hrev]. split; [by apply claim_release|].
    eexists. rewrite lookup_insert_eq. split; [done|]. split; [done|]. right. eexists. by split.
  - unfold _record_in_flight. solo_step. solo_step; [apply Hraise|]. intros now1. tx_step. tx_step; [apply Hraise|].
    tx_step. apply wpt_update_withdrawal; [intros; apply Hraise|..].
    + intros r1 Hr1 _. tx_step. solo_step. split; [done|]. exists r, (in_flight_row r), (share_total sel), dc.
      split; [done|]. cbn. split; [done|]. destruct Ht as [->|[tx' ->]]; [by left|right; by exists tx'].
    + intros Hn. by specialize (Hn _ Hdc).
Qed.
End withdrawal_solo.

(** ** Requests *)
Section request_solo.
Context (cfg : Settings) (uuid : nat → string) (usd : Z → string).

(** An accepted request. *)
Definition request_accepted (org : string) (amount : Z) (d : Db) (id : string) (w : WithdrawalRow) (d' : Db) : Prop :=
  agent_wallet_enabled cfg = true ∧ author_configs d !! org = Some (w_wallet w) ∧
  marketplace_minimum_withdrawal_usdc cfg ≤ amount ≤ author_balance org d ∧
  (∃ now, ∀ last, latest_withdrawal org d = Some last →
     seconds (marketplace_withdrawal_cooldown_seconds cfg) ≤ now - last) ∧
  w_org w = org ∧ w_amount w = amount ∧ w_status w = WPending ∧ w_tx w = "" ∧
  withdrawals d !! id = None ∧ d' = d <| withdrawals ::= <[id := w]> |>.

Lemma request_solo org amount d x :
  wps (request_withdrawal cfg uuid usd org amount)
    (λ r d' _, match r with Ok (id, w) => request_accepted org amount d id w d' | Raise _ => d' = d end) d x.
Proof.
  unfold request_withdrawal, get_author_config, get_author_balance. solo_step; [by solo_step|].
  apply negb_false_iff in Heqb. solo_step. solo_step; [done|]. intros _.
  destruct (author_configs d !! org) as [wallet|] eqn:Hw; [|by solo_step]. solo_step; [by solo_step|].
  solo_step. solo_step; [done|]. intros _. solo_step; [by solo_step|]. solo_step. solo_step; [done|]. intros _.
  solo_step. solo_step. destruct (latest_withdrawal org d ≫= cooldown_remaining cfg t) as [rem|] eqn:Hcool; [by solo_step|].
  do 4 solo_step. solo_step. solo_step; [done|]. intros now.
  destruct (insert_withdrawal _ _ _) as [[u d']|e] eqn:Hi; [|done]. solo_step.
  unfold insert_withdrawal in Hi. repeat case_match; try done. injection Hi as _ <-. case_bool.
  split_and!; try done. exists t. intros last Hlast. rewrite Hlast in Hcool. cbn in Hcool.
  unfold cooldown_remaining in Hcool. case_match; [done|]. by case_bool.
Qed.
End request_solo.

(** ** Properties *)


(** The claim takes the oldest earnings that fit.  The rows selected are the
    author's unclaimed pending rows, oldest first, each at most once; their total never
    exceeds the requested amount, and no row left out would still fit. *)
Theorem claim_takes_oldest_that_fit (org : string) (amount : Z) (d : Db) :
  claims_ok d → 0 ≤ amount →
  let '(ids, total) := select_earnings (claimable org d) amount [] 0 in
  ∃ sel, sel `sublist_of` claimable org d ∧ ids = sel.*1 ∧ NoDup ids ∧ total = share_total sel ∧ 0 ≤ total ≤ amount ∧
    Sorted (λ a b, e_created_at a.2 ≤ e_created_at b.2) (claimable org d) ∧
    ∀ k e, earnings d !! k = Some e → e_org e = org → e_status e = EPending →
      k ∈ ids ∨ amount - total < e_author_share e ∨ total = amount.
Proof.
  intros Hc Ha. destruct (select_earnings_spec (claimable org d) amount [] 0) as (sel & Hsub & -> & Hle & Hmax).
  { intros [k e] Hin. apply claimable_spec in Hin as [Hin _]. apply (Hc k e Hin). }
  cbn [app]. rewrite Z.add_0_l. exists sel. split_and!; try done; try lia.
  - eapply sublist_NoDup; [apply claimable_nodup|by apply fmap_sublist].
  - unfold claimable. eapply Sorted_mono; [|apply order_by_sorted]; cbn.
    + intros a b ?. by case_bool.
    + intros a b ?. case_bool. apply Z.leb_le. lia.
  - intros k e Hk Ho Hs. destruct (Hmax (k, e)) as [Hin|[?|?]].
    + apply claimable_spec. cbn. split_and!; [done..|]. destruct (e_withdrawal e) as [id|] eqn:Hw; [|done].
      destruct (Hc k e Hk) as [_ Hl]. destruct (Hl id Hw) as [? _]. congruence.
    + left. by apply (list_elem_of_fmap_2 fst) in Hin.
    + right. left. done.
    + right. right. lia.
Qed.

(** A withdrawal request is accepted only within the rules: wallets enabled, a
    settlement wallet registered, the amount between the platform minimum and the
    author's pending balance, and the cooldown elapsed; it then adds exactly one
    pending row, and any refusal changes nothing. *)
Theorem withdrawal_request_validated (cfg : Settings) (uuid : nat → string) (usd : Z → string) (org : string)
    (amount : Z) (w : World Db Ext) :
  solo w →
  let '(r, w') := request_withdrawal cfg uuid usd org amount w in
  match r with
  | Ok (id, row) => request_accepted cfg org amount (db w) id row (db w')
  | Raise _ => db w' = db w
  end.
Proof.
  intros Hw. pose proof (request_solo cfg uuid usd org amount (db w) (ext w) w Hw eq_refl eq_refl) as Hr.
  destruct (request_withdrawal _ _ _ _ _ w). apply Hr.
Qed.

(** ** A concrete author *)
Module WithdrawalDemo.
Definition cfg : Settings := default_settings <| agent_wallet_enabled := true |>.
Definition uuid := CreditDemo.uuid.
Definition usd (z : Z) : string := "$" +:+ pretty z.
Definition earning (share created : Z) : EarningRow :=
  MkEarning "bot" "search" "acme" (share + 30) share 30 EPending None created.
Definition d0 : Db := (db CreditDemo.w0) <| author_configs := {["bot" := "0xBot"]} |>
  <| earnings := {["e1" := earning 90000 10; "e2" := earning 70000 20; "e3" := earning 20000 30]} |>.
Definition w0 : World Db Ext := initial_world d0 (days 200) [].

(** A chain on which every transfer confirms, and one on which all revert. *)
Definition rail (confirms : bool) : Rail.
Proof.
  refine {| transfer_usdc := λ _ log _ _, Ok ("0x" +:+ pretty (length log));
            verify_usdc_transfer := λ _ _ _, Ok confirms;
            check_usdc_transfer := λ _ _ _ _ _, Ok (if confirms then OConfirmed else OReverted);
            wallet_balance := λ _ _, Ok 0;
            reverted := λ _, negb confirms |}.
  - intros now log tx Hv. by injection Hv as ->.
  - intros now log tx to amount Hv. by destruct confirms.
Defined.

Lemma solo_w0 : solo w0.
Proof. split; [done|constructor]. Qed.

Lemma claims_ok_d0 : claims_ok d0.
Proof.
  intros k e He. change (earnings d0) with ({["e1" := earning 90000 10; "e2" := earning 70000 20;
    "e3" := earning 20000 30]} : gmap string EarningRow) in He.
  rewrite !lookup_insert_Some, lookup_singleton_Some in He. by destruct He as [[_ <-]|[_ [[_ <-]|[_ [_ <-]]]]].
Qed.

(** The author asks for 0.12 USDC: rows e1 and e3 fit, e2 does not. *)
Definition requested : World Db Ext := (request_withdrawal cfg uuid usd "bot" 120000 w0).2.
Definition request_id : string := uuid 0.

Lemma requested_claims : claims_ok (db requested).
Proof.
  assert (earnings (db requested) = earnings d0) as He by (vm_compute; reflexivity).
  intros k e Hk. rewrite He in Hk. destruct (claims_ok_d0 k e Hk) as [Hs Hw]. split; [done|].
  intros id Hid. destruct (Hw id Hid) as (_ & r & Hr & _).
  change (withdrawals d0) with (∅ : gmap string WithdrawalRow) in Hr. by rewrite lookup_empty in Hr.
Qed.

Lemma requested_solo : solo requested.
Proof. split; [vm_compute; reflexivity|]. assert (sched requested = []) as -> by (vm_compute; reflexivity). constructor. Qed.
End WithdrawalDemo.

Lemma withdrawal_request_validated_witness :
  ∃ row, w_amount row = 120000 ∧
    request_accepted WithdrawalDemo.cfg "bot" 120000 WithdrawalDemo.d0 WithdrawalDemo.request_id row
      (db WithdrawalDemo.requested).
Proof.
  pose proof (withdrawal_request_validated WithdrawalDemo.cfg WithdrawalDemo.uuid WithdrawalDemo.usd "bot" 120000
    WithdrawalDemo.w0 WithdrawalDemo.solo_w0) as Hr.
  change (db WithdrawalDemo.requested) with (db (request_withdrawal WithdrawalDemo.cfg WithdrawalDemo.uuid
    WithdrawalDemo.usd "bot" 120000 WithdrawalDemo.w0).2).
  destruct (request_withdrawal _ _ _ _ _ _) as [r w'] eqn:He.
  assert (∃ row, r = Ok (WithdrawalDemo.request_id, row)) as (row & ->).
  { apply (f_equal fst) in He. vm_compute in He. rewrite <- He. eexists. vm_compute. reflexivity. }
  exists row. split; [apply Hr|exact Hr].
Defined.

Lemma claim_takes_oldest_that_fit_witness :
  select_earnings (claimable "bot" WithdrawalDemo.d0) 120000 [] 0 = (["e1"; "e3"], 110000) ∧
  ∃ sel : list (string * EarningRow), sel `sublist_of` claimable "bot" WithdrawalDemo.d0 ∧ share_total sel = 110000.
Proof.
  pose proof (claim_takes_oldest_that_fit "bot" 120000 WithdrawalDemo.d0 WithdrawalDemo.claims_ok_d0 ltac:(lia)) as Hs.
  assert (select_earnings (claimable "bot" WithdrawalDemo.d0) 120000 [] 0 = (["e1"; "e3"], 110000)) as He
    by (vm_compute; reflexivity).
  rewrite He in Hs. split; [exact He|]. destruct Hs as (sel & Hsub & _ & _ & Ht & _). exists sel. by split.
Defined.

