(* ===== verification/Sweep.v ===== *)
(** * marketplace/worker.py: the settlement sweep and the reconciliation of transfers

    The sweep opens a withdrawal for every author above the minimum, retries failed
    ones with exponential backoff and gives up after a number of attempts.  The
    reconciliation resolves in-flight withdrawals whose recorded transaction is final.
    The reputation rollup of the same file is not modelled. *)

From S2P Require Export Withdrawals.
From S2P Require Import Credit.

Section ids.
(** The hexadecimal SHA-256 digest. *)
Context (sha256_hex : string → string).

Definition _sweep_withdrawal_id (org : string) (epoch_hour : Z) : string :=
  let hex := String.substring 0 32 (sha256_hex ("sweep:" +:+ org +:+ ":" +:+ pretty epoch_hour)) in
  String.substring 0 8 hex +:+ "-" +:+ String.substring 8 4 hex +:+ "-5" +:+ String.substring 13 3 hex
  +:+ "-" +:+ String.substring 16 4 hex +:+ "-" +:+ String.substring 20 12 hex.
End ids.

Definition _sweep_backoff_seconds (attempt : Z) : Z := Z.min (2 ^ attempt * 60) 86400.

Definition _RECONCILE_BATCH_LIMIT : Z := 20.
Definition _RECONCILE_MISMATCH_ERROR : string :=
  "Reconciliation mismatch: on-chain transaction does not match this withdrawal".

(** One row of the sweep query. *)
Record SweepCandidate := MkCandidate {
  sc_org : string;
  sc_total : Z;
  sc_withdrawal : option string;
  sc_created_at : Z;
}.

Definition open_status (s : withdrawal_status) : bool := negb (bool_decide (s = WSettled)).

(** The authors with pending earnings and no open withdrawal, with their totals. *)
Definition author_candidates (min_amount : Z) (d : Db) : list SweepCandidate :=
  let pending := filter (λ e, e_status e = EPending) (map_to_list (earnings d)).*2 in
  let busy org := existsb (λ kv, bool_decide (w_org kv.2 = org) && open_status (w_status kv.2))
                    (map_to_list (withdrawals d)) in
  let rows org := filter (λ e, e_org e = org) pending in
  let total org := lsum e_author_share (rows org) in
  map (λ org, MkCandidate org (total org) None
                (foldr (λ e t, Z.min (e_created_at e) t) (default 0 (e_created_at <$> head (rows org))) (rows org)))
    (filter (λ org, negb (busy org) && (min_amount <=? total org) = true) (remove_dups (map e_org pending))).

Definition retry_candidates (now : Z) (d : Db) : list SweepCandidate :=
  map (λ kv, MkCandidate (w_org kv.2) (w_amount kv.2) (Some kv.1) (w_created_at kv.2))
    (filter (λ kv, has_status WPending kv.2
                   || (has_status WFailed kv.2
                       && match w_next_sweep kv.2 with Some t => t <=? now | None => false end) = true)
       (map_to_list (withdrawals d))).

Definition sweep_candidates (min_amount now : Z) (d : Db) : list SweepCandidate :=
  limit 50 (order_by (λ a b, sc_created_at a <=? sc_created_at b)
    (retry_candidates now d ++ author_candidates min_amount d)).

(** [INSERT ... ON CONFLICT (id) DO NOTHING] *)
Definition open_withdrawal (id : string) (r : WithdrawalRow) (d : Db) : res (unit * Db) :=
  match withdrawals d !! id with
  | Some _ => if negb (is_bigint (w_amount r)) then Raise DataError
              else if w_amount r <=? 0 then Raise CheckViolation else Ok (tt, d)
  | None => insert_withdrawal id r d
  end.

(** [UPDATE ... SET status = 'pending', next_sweep_at = NULL WHERE status = 'failed' AND due] *)
Definition retry_due (now : Z) (r : WithdrawalRow) : bool :=
  has_status WFailed r && match w_next_sweep r with Some t => t <=? now | None => false end.

Definition retry_withdrawal (id : string) (now : Z) (d : Db) : res (Z * Db) :=
  update_withdrawal id (retry_due now) (λ _ r, r <| w_status := WPending |> <| w_next_sweep := None |>) now d.

Definition exhaust_row (attempt : Z) (err : string) (r : WithdrawalRow) : WithdrawalRow :=
  r <| w_status := WExhausted |> <| w_attempts := attempt |> <| w_error := err |> <| w_next_sweep := None |>.

Definition backoff_row (attempt : Z) (err : string) (now : Z) (r : WithdrawalRow) : WithdrawalRow :=
  r <| w_attempts := attempt |> <| w_error := err |>
    <| w_next_sweep := Some (now + seconds (_sweep_backoff_seconds attempt)) |>.

Section sweep.
Context (cfg : Settings) (sha256_hex : string → string) `{Rail}.

(** After a failed attempt: the attempt is counted and the withdrawal backs off or is
    given up.  Both updates select the row by id alone. *)
Definition count_failure (id : string) (result : WithdrawalRow) : Handler unit :=
  row ← query (λ _ d, withdrawals d !! id);
  let attempt := match row with Some r => w_attempts r + 1 | None => 1 end in
  let error_detail := if bool_decide (w_error result = "") then "CDP transfer failed" else w_error result in
  if marketplace_max_sweep_retries cfg <=? attempt then
    stmt (update_withdrawal id (λ _, true) (λ _, exhaust_row attempt error_detail));; mret tt
  else
    stmt (update_withdrawal id (λ _, true) (backoff_row attempt error_detail));; mret tt.

(** Get the withdrawal ready: [Some true] to process it, [Some false] if it is settled
    already, [None] to skip it. *)
Definition prepare_withdrawal (id : string) (c : SweepCandidate) : Handler (option bool) :=
  existing ← query (λ _ d, withdrawals d !! id);
  match existing with
  | None =>
      config ← get_author_config (sc_org c);
      match config with
      | None => mret None
      | Some wallet =>
          stmt (λ now, open_withdrawal id (MkWithdrawal (sc_org c) (sc_total c) "" wallet WPending now None 0 "" None));;
          mret (Some true)
      end
  | Some r =>
      if has_status WSettled r then mret (Some false)
      else if has_status WFailed r then
        n ← stmt (retry_withdrawal id);
        mret (if n =? 0 then None else Some true)
      else mret (Some true)
  end.

Definition sweep_row (epoch_hour processed : Z) (c : SweepCandidate) : Handler Z :=
  let id := default (_sweep_withdrawal_id sha256_hex (sc_org c) epoch_hour) (truthy_id (sc_withdrawal c)) in
  catch
    (ready ← prepare_withdrawal id c;
     match ready with
     | None => mret processed
     | Some false => mret (processed + 1)
     | Some true =>
         r ← process_withdrawal cfg id;
         match w_status r.2 with
         | WSettled => mret (processed + 1)
         | WInFlight => mret processed
         | _ => count_failure id r.2;; mret processed
         end
     end)
    (λ _, mret processed).

(** The balance warning at the end changes nothing. *)
Definition check_balance : Handler unit :=
  if agent_wallet_enabled cfg
  then catch (external (λ now x, (wallet_balance now (transfers x), x));; mret tt) (λ _, mret tt)
  else mret tt.

Definition marketplace_sweep_once : Handler Z :=
  now ← datetime_now;
  let epoch_hour := now / microsecond_per_second / 3600 in
  rows ← query (λ now d, sweep_candidates (marketplace_minimum_withdrawal_usdc cfg) now d);
  processed ← for_each rows 0 (sweep_row epoch_hour);
  check_balance;;
  mret processed.

(** [WHERE id AND status = 'in_flight' AND tx_hash = $2] *)
Definition recorded (tx : string) (r : WithdrawalRow) : bool := has_status WInFlight r && bool_decide (w_tx r = tx).

Definition _release_reverted_withdrawal (id : string) (row : WithdrawalRow) : Handler bool :=
  let tx := w_tx row in
  let attempt := w_attempts row + 1 in
  let err := "Transaction reverted on-chain tx=" +:+ tx in
  transaction
    (released ←
       (if marketplace_max_sweep_retries cfg <=? attempt then
          stmt (update_withdrawal id (recorded tx)
            (λ _ r, exhaust_row attempt err (r <| w_tx := "" |> <| w_settled_at := None |>)))
        else
          stmt (update_withdrawal id (recorded tx)
            (λ now r, backoff_row attempt err now
               (r <| w_status := WFailed |> <| w_tx := "" |> <| w_settled_at := None |>))));
     if released =? 0 then mret false
     else stmt (λ _ d, Ok (tt, release_earnings id d));; mret true).

(** The reconciliation query: flagged mismatches last, then oldest first. *)
Definition reconcile_rows (d : Db) : list (string * WithdrawalRow * Z) :=
  let flagged r := bool_decide (w_error r = _RECONCILE_MISMATCH_ERROR) in
  let claimed id := msum (λ _ e, if bool_decide (e_withdrawal e = Some id) && bool_decide (e_status e = ESettled)
                                 then e_author_share e else 0) (earnings d) in
  map (λ kv, (kv.1, kv.2, claimed kv.1))
    (limit _RECONCILE_BATCH_LIMIT
      (order_by (λ a b, (negb (flagged a.2) && flagged b.2)
                        || (Bool.eqb (flagged a.2) (flagged b.2) && (w_created_at a.2 <=? w_created_at b.2)))
        (filter (λ kv, w_status kv.2 = WInFlight ∧ w_tx kv.2 ≠ "") (map_to_list (withdrawals d))))).

Definition reconcile_row (resolved : Z) (item : string * WithdrawalRow * Z) : Handler Z :=
  let '(id, row, claimed_usdc) := item in
  let tx := w_tx row in
  catch
    (outcome ← external (λ now x, (check_usdc_transfer now (transfers x) tx (w_wallet row) claimed_usdc, x));
     match outcome with
     | OConfirmed =>
         n ← stmt (update_withdrawal id (recorded tx)
               (λ now r, r <| w_status := WSettled |> <| w_settled_at := Some now |> <| w_error := "" |>));
         mret (if n =? 0 then resolved else resolved + 1)
     | OReverted =>
         released ← _release_reverted_withdrawal id row;
         mret (if released : bool then resolved + 1 else resolved)
     | OMismatch =>
         if bool_decide (w_error row = _RECONCILE_MISMATCH_ERROR) then mret resolved
         else
           stmt (update_withdrawal id (recorded tx) (λ _ r, r <| w_error := _RECONCILE_MISMATCH_ERROR |>));;
           mret resolved
     | OPending => mret resolved
     end)
    (λ _, mret resolved).

Definition reconcile_in_flight_withdrawals_once : Handler Z :=
  if negb (agent_wallet_enabled cfg) then mret 0
  else
    rows ← query (λ _ d, reconcile_rows d);
    for_each rows 0 reconcile_row.
End sweep.

(** ** The sweep under interference *)
Section sweep_rg.
Context (cfg : Settings) (sha256_hex : string → string) `{Rail} (owned : string → Prop).
Abbreviation R := (leaves_alone owned).

Lemma rg_market_bind {A B} (m : Handler A) (f : A → Handler B) :
  rg R market_ok m (λ _, market_ok) → (∀ a, rg R market_ok (f a) (λ _, market_ok)) →
  rg R market_ok (m ≫= f) (λ _, market_ok).
Proof. intros Hm Hf. by eapply rg_bind; [exact Hm|exact Hf|]. Qed.

Lemma rg_market_catch {A} (m : Handler A) h :
  rg R market_ok m (λ _, market_ok) → (∀ e, rg R market_ok (h e) (λ _, market_ok)) →
  rg R market_ok (catch m h) (λ _, market_ok).
Proof. intros Hm Hh. by eapply rg_catch; [exact Hm|exact Hh|]. Qed.

Lemma rg_market_query {A} (f : Z → Db → A) : rg R market_ok (query f : Handler A) (λ _, market_ok).
Proof. by apply rg_query; [apply stable_market|]. Qed.

Lemma rg_market_read {A} (f : Z → Ext → res A) :
  rg R market_ok (external (λ now x, (f now x, x)) : Handler A) (λ _, market_ok).
Proof. by apply rg_external; [apply stable_market|]. Qed.

(** A row update that keeps the market consistent. *)
Lemma rg_market_update id g f :
  (∀ now d x r, market_ok d x → withdrawals d !! id = Some r → g now r = true →
     market_ok (d <| withdrawals ::= <[id := f now r]> |>) x) →
  rg R market_ok (stmt (λ now, update_withdrawal id (g now) f now) : Handler Z) (λ _, market_ok).
Proof.
  intros Hf. apply rg_stmt; [apply stable_market|]. intros now d x Hok. split; [done|].
  unfold update_withdrawal. destruct (withdrawals d !! id) as [r|] eqn:Hr; [|done].
  destruct (g now r) eqn:Hg; [|done]. assert (market_ok (d <| withdrawals ::= <[id := f now r]> |>) x); [|done].
  by apply Hf.
Qed.

Lemma idle_row_update id r r' d x :
  market_ok d x → withdrawals d !! id = Some r → ¬ holds_claims r → w_org r' = w_org r →
  w_status r' ≠ WInFlight → market_ok (d <| withdrawals ::= <[id := r']> |>) x.
Proof.
  intros Hok Hr Hh Ho Hs. apply (market_row id r); [done..|right|done].
  apply idle_no_claims; [apply Hok|]. intros r0 Hr0. by replace r0 with r by congruence.
Qed.

Lemma prepare_rg id c : rg R market_ok (prepare_withdrawal id c) (λ _, market_ok).
Proof.
  unfold prepare_withdrawal. apply rg_market_bind; [apply rg_market_query|]. intros [r|].
  - destruct (has_status WSettled r); [by apply rg_ret|]. destruct (has_status WFailed r); [|by apply rg_ret].
    apply rg_market_bind; [|by intros; apply rg_ret].
    apply (rg_market_update id retry_due). intros now d x r0 Hok Hr0 Hg.
    apply andb_true_iff in Hg as [Hf _]. apply has_status_spec in Hf.
    apply (idle_row_update id r0); try done. intros [?|?]; congruence.
  - apply rg_market_bind; [apply rg_market_query|]. intros [wallet|]; [|by apply rg_ret].
    apply rg_market_bind; [|by intros; apply rg_ret].
    apply rg_stmt; [apply stable_market|]. intros now d x Hok. split; [done|]. unfold open_withdrawal.
    destruct (withdrawals d !! id) as [r|]; [by repeat case_match; simplify_eq|].
    match goal with |- context [insert_withdrawal id ?r d] =>
      pose proof (insert_withdrawal_ok id r d x Hok eq_refl) as Hi; by destruct (insert_withdrawal id r d) as [[u d']|e] end.
Qed.

Lemma count_failure_rg id result :
  owned id → rg R (λ d x, market_ok d x ∧ idle id d) (count_failure cfg id result) (λ _, market_ok).
Proof.
  intros Ho. unfold count_failure.
  apply (rg_bind _ _ _ _ (λ _ d x, market_ok d x ∧ idle id d)); [| |by intros e d x [? _]].
  { by apply rg_query; [apply stable_idle|]. }
  intros row.
  assert (∀ f, (∀ now r, w_org (f now r) = w_org r ∧ (w_status r ≠ WInFlight → w_status (f now r) ≠ WInFlight)) →
    rg R (λ d x, market_ok d x ∧ idle id d) (stmt (update_withdrawal id (λ _, true) f);; mret tt : Handler unit)
      (λ _, market_ok)) as Hupd.
  { intros f Hf. apply (rg_bind _ _ _ _ (λ _, market_ok)); [|by intros; apply rg_ret|done].
    apply rg_stmt; [by apply stable_idle|]. intros now d x [Hok (r & Hr & Hh)]. split; [done|].
    unfold update_withdrawal. rewrite Hr. assert (market_ok (d <| withdrawals ::= <[id := f now r]> |>) x); [|done].
    destruct (Hf now r) as [Horg Hst]. apply (idle_row_update id r); try done. apply Hst. intros ?. apply Hh. by left. }
  destruct (_ <=? _); apply Hupd; intros now r; by split.
Qed.

Lemma sweep_row_rg hour n c :
  (∀ id, owned id) → rg R market_ok (sweep_row cfg sha256_hex hour n c) (λ _, market_ok).
Proof.
  intros Ho. unfold sweep_row. set (id := default _ _). apply rg_market_catch; [|by intros; apply rg_ret].
  apply rg_market_bind; [apply prepare_rg|]. intros [[|]|]; [|by apply rg_ret..].
  eapply rg_bind; [by apply process_rg| |by intros e d x [? _]]. intros [id' w]. cbn.
  destruct (w_status w); try by apply rg_ret; intros d x [? _].
  all: (eapply rg_bind; [by apply count_failure_rg|by intros; apply rg_ret|done]).
Qed.

Lemma sweep_rg : (∀ id, owned id) → rg R market_ok (marketplace_sweep_once cfg sha256_hex) (λ _, market_ok).
Proof.
  intros Ho. unfold marketplace_sweep_once, check_balance. apply rg_market_bind; [by apply rg_datetime_now|]. intros now.
  apply rg_market_bind; [apply rg_market_query|]. intros rows. apply rg_market_bind.
  { eapply rg_mono; [apply (rg_for_each R rows 0 (sweep_row cfg sha256_hex (now / microsecond_per_second / 3600))
      (λ _, market_ok) (λ _, market_ok)); [done|]|done|done].
    intros n c _. eapply rg_mono; [by apply sweep_row_rg|done|by intros [?|?]]. }
  intros n. apply rg_market_bind; [|by intros; apply rg_ret]. destruct (agent_wallet_enabled cfg); [|by apply rg_ret].
  apply rg_market_catch; [|by intros; apply rg_ret].
  apply rg_market_bind; [apply (rg_market_read (λ now x, wallet_balance now (transfers x)))|by intros; apply rg_ret].
Qed.

(** ** The reconciliation needs no ownership: the recorded hash identifies the transfer *)
Lemma recorded_only_live id tx r d x :
  market_ok d x → withdrawals d !! id = Some r → recorded tx r = true → tx ≠ "" →
  w_status r = WInFlight ∧ only_live (Some tx) id x.
Proof.
  intros [_ (_ & _ & Htx)] Hr Hrec Hne. unfold recorded in Hrec. apply andb_true_iff in Hrec as [Hst Ht].
  apply has_status_spec in Hst. case_bool. split; [done|]. intros t Hin Hid Hl. f_equal. subst tx. by eapply Htx.
Qed.

Lemma release_reverted_rg id row :
  w_tx row ≠ "" → reverted (w_tx row) = true →
  rg R market_ok (_release_reverted_withdrawal cfg id row) (λ _, market_ok).
Proof.
  intros Hne Hrev. unfold _release_reverted_withdrawal. apply rg_transaction; [apply stable_market|done|].
  intros now d x Hok.
  assert (∀ f, (∀ now r, w_org (f now r) = w_org r ∧ w_status (f now r) ≠ WInFlight) →
    wpt now (stmt (update_withdrawal id (recorded (w_tx row)) f) : Handler Z)
      (λ n d', wpt now (if n =? 0 then mret false
                        else stmt (λ _ d, Ok (tt, release_earnings id d));; mret true : Handler bool)
                 (λ _ d', market_ok d' x ∧ market_ok d' x) (λ _ _, market_ok d x) d')
      (λ _ _, market_ok d x) d) as Hstep.
  { intros f Hf. apply wpt_update_withdrawal; [done|..]; [|by intros _; cbn; tx_step].
    intros r Hr Hrec. cbn. destruct (recorded_only_live _ _ _ _ _ Hok Hr Hrec Hne) as [Hst Hl].
    apply only_live_reverted in Hl; [|done]. tx_step. tx_step; [done|]. split; [|done]. tx_step.
    assert (market_ok (release_earnings id (d <| withdrawals ::= <[id := f now r]> |>)) x); [|done].
    eapply (releases_ok id (f now)); [intros r0; apply Hf|exact Hok|exact Hl|]. by exists r. }
  tx_step. destruct (_ <=? _); apply Hstep; intros now' r; by split.
Qed.

Lemma reconcile_row_rg n id row c :
  w_tx row ≠ "" → rg R market_ok (reconcile_row cfg n (id, row, c)) (λ _, market_ok).
Proof.
  intros Hne. unfold reconcile_row. apply rg_market_catch; [|by intros; apply rg_ret].
  apply (rg_bind _ _ _ _ (λ r d x, market_ok d x ∧ (r = Ok OReverted → reverted (w_tx row) = true)));
    [| |by intros e d x [? _]].
  { apply rg_external; [apply stable_market|]. intros now d x Hok. split; [done|]. split; [|done]. split; [done|].
    by apply check_reverted. }
  assert (∀ f, (∀ now r, w_org (f now r) = w_org r ∧ (w_status r = WInFlight → holds_claims (f now r)) ∧
      w_tx (f now r) = w_tx r) →
    rg R market_ok (stmt (update_withdrawal id (recorded (w_tx row)) f) : Handler Z) (λ _, market_ok)) as Hupd.
  { intros f Hf. apply (rg_market_update id (λ _, recorded (w_tx row))). intros now d x r Hok Hr Hrec.
    destruct (recorded_only_live _ _ _ _ _ Hok Hr Hrec Hne) as [Hst Hl]. destruct (Hf now r) as (Ho & Hh & Ht).
    apply (market_row id r); [done..|left; auto|]. intros _ _ t Hin Hid Hlive. specialize (Hl t Hin Hid Hlive).
    apply andb_true_iff in Hrec as [_ Hrec]. case_bool. congruence. }
  intros outcome. eapply (rg_pure _ _ (outcome = OReverted → reverted (w_tx row) = true)).
  { intros d x [_ Hr] ->. by apply Hr. }
  intros Hrev. apply (rg_mono _ market_ok _ _ (λ _, market_ok)); [|by intros d x [? _]|done]. destruct outcome.
  - apply rg_market_bind; [|by intros; apply rg_ret]. apply Hupd. intros now r. split_and!; [done|intros _; by right|done].
  - apply rg_market_bind; [|by intros; apply rg_ret]. apply release_reverted_rg; auto.
  - destruct (bool_decide _); [by apply rg_ret|]. apply rg_market_bind; [|by intros; apply rg_ret].
    apply Hupd. intros now r. split_and!; [done|intros ?; by left|done].
  - by apply rg_ret.
Qed.

Lemma reconcile_rg : rg R market_ok (reconcile_in_flight_withdrawals_once cfg) (λ _, market_ok).
Proof.
  unfold reconcile_in_flight_withdrawals_once. destruct (negb _); [by apply rg_ret|].
  apply (rg_bind _ _ _ _ (λ r d x, market_ok d x ∧
    match r with Ok rows => ∀ it, it ∈ rows → w_tx it.1.2 ≠ "" | Raise _ => True end)); [| |by intros e d x [? _]].
  { apply rg_query; [apply stable_market|]. intros now d x Hok. split; [done|]. split; [done|].
    intros it ([id r] & -> & Hin%elem_of_limit)%list_elem_of_fmap. rewrite elem_of_order_by in Hin.
    apply list_elem_of_filter in Hin as [[_ Hne] _]. exact Hne. }
  intros rows. eapply (rg_pure _ _ (∀ it, it ∈ rows → w_tx it.1.2 ≠ "")); [by intros d x [_ Hr]|]. intros Hrows.
  eapply rg_mono; [apply (rg_for_each R rows 0 (reconcile_row cfg) (λ _, market_ok) (λ _, market_ok)); [done|]|by intros d x [? _]|done].
  intros n [[id row] c] Hin. eapply rg_mono; [apply reconcile_row_rg; by apply (Hrows _ Hin)|done|by intros [?|?]].
Qed.
End sweep_rg.

(** ** Payouts and earnings of an author *)
Section payouts.
Context `{Rail}.

(** What was broadcast for an organisation's withdrawals and did not revert. *)
Definition org_paid (org : string) (d : Db) (x : Ext) : Z :=
  lsum (λ t, if bool_decide (w_org <$> withdrawals d !! t_withdrawal t = Some org) && negb (reverted (t_tx t))
             then t_amount t else 0) (transfers x).

Definition org_earned (org : string) (d : Db) : Z :=
  msum (λ _ e, if bool_decide (e_org e = org) then e_author_share e else 0) (earnings d).

(** A sum over a table in which only the row of one key can count. *)
Lemma msum_at {V} (f : string → V → Z) (m : gmap string V) k0 :
  (∀ k v, m !! k = Some v → k ≠ k0 → f k v = 0) →
  msum f m = match m !! k0 with Some v => f k0 v | None => 0 end.
Proof.
  intros Hf. destruct (m !! k0) as [v|] eqn:Hk.
  - rewrite (msum_delete f m k0 v Hk), msum_zero; [lia|]. intros k v' [Hne Hin]%lookup_delete_Some. by apply Hf.
  - apply msum_zero. intros k v Hin. apply Hf; [done|]. congruence.
Qed.

Lemma org_paid_by org d x :
  org_paid org d x = msum (λ id r, if bool_decide (w_org r = org) then paid_by id x else 0) (withdrawals d).
Proof.
  transitivity (lsum (λ t, msum (λ id r, if bool_decide (w_org r = org) then
    if bool_decide (t_withdrawal t = id) && negb (reverted (t_tx t)) then t_amount t else 0 else 0) (withdrawals d))
    (transfers x)).
  - apply lsum_ext. intros t _. rewrite (msum_at _ _ (t_withdrawal t)).
    + destruct (withdrawals d !! t_withdrawal t) as [r|]; cbn; [|done]. rewrite (bool_decide_true (_ = t_withdrawal t)) by done.
      rewrite (bool_decide_ext (Some (w_org r) = Some org) (w_org r = org)) by (split; congruence).
      by destruct (bool_decide _).
    + intros id r _ Hne. rewrite (bool_decide_false (t_withdrawal t = id)) by congruence. by destruct (bool_decide _).
  - rewrite lsum_msum_exchange. apply msum_ext. intros id r _. destruct (bool_decide _); [done|by apply lsum_zero].
Qed.

Lemma claimed_by_org org d :
  claims_ok d →
  msum (λ id r, if bool_decide (w_org r = org) then claimed_by id d else 0) (withdrawals d) ≤ org_earned org d.
Proof.
  intros Hc. transitivity (lsum (λ kv, msum (λ id r, if bool_decide (w_org r = org) then
    if bool_decide (e_withdrawal kv.2 = Some id) then e_author_share kv.2 else 0 else 0) (withdrawals d))
    (map_to_list (earnings d))).
  - rewrite lsum_msum_exchange. apply Z.eq_le_incl, msum_ext. intros id r _.
    destruct (bool_decide _); [done|symmetry; by apply lsum_zero].
  - apply lsum_le. intros [k e] Hin%elem_of_map_to_list. cbn [fst snd]. destruct (Hc k e Hin) as [Hs Hw].
    destruct (e_withdrawal e) as [id0|] eqn:He.
    + rewrite (msum_at _ _ id0).
      * destruct (Hw id0 eq_refl) as (_ & r & -> & _ & <-). rewrite (bool_decide_true (Some id0 = Some id0)) by done.
        done.
      * intros id r _ Hne. rewrite (bool_decide_false (Some id0 = Some id)) by congruence. by destruct (bool_decide _).
    + rewrite msum_zero; [by destruct (bool_decide _)|]. intros id r _. by destruct (bool_decide _).
Qed.

Lemma payouts_within_org org d x : market_ok d x → org_paid org d x ≤ org_earned org d.
Proof.
  intros [Hc (_ & Hp & _)]. rewrite org_paid_by. etrans; [|by apply claimed_by_org].
  apply msum_le. intros id r _. case_bool_decide; [apply Hp|done].
Qed.
End payouts.

(** ** The operations of the component *)
Inductive market_op :=
  | OpRequestWithdrawal (org : string) (amount : Z)
  | OpProcessWithdrawal (id : string)
  | OpCompleteWithdrawal (id tx : string)
  | OpResetWithdrawal (id : string)
  | OpSweep
  | OpReconcileWithdrawals.

(** The withdrawals an operation must have to itself while it runs. *)
Definition handles (op : market_op) (id : string) : Prop :=
  match op with
  | OpProcessWithdrawal id' | OpResetWithdrawal id' => id = id'
  | OpSweep => True
  | _ => False
  end.

(** The operator resets a withdrawal only once no transfer of it can be alive. *)
Definition operator_checked `{Rail} (op : market_op) (x : Ext) : Prop :=
  match op with OpResetWithdrawal id => only_live None id x | _ => True end.

Section market_ops.
Context (cfg : Settings) (uuid : nat → string) (usd : Z → string) (sha256_hex : string → string) `{Rail}.

Definition perform_market (op : market_op) : Handler unit :=
  match op with
  | OpRequestWithdrawal org amount => request_withdrawal cfg uuid usd org amount;; mret tt
  | OpProcessWithdrawal id => process_withdrawal cfg id;; mret tt
  | OpCompleteWithdrawal id tx => complete_withdrawal id tx
  | OpResetWithdrawal id => reset_withdrawal id;; mret tt
  | OpSweep => marketplace_sweep_once cfg sha256_hex;; mret tt
  | OpReconcileWithdrawals => reconcile_in_flight_withdrawals_once cfg;; mret tt
  end.

Lemma perform_market_rg op :
  rg (leaves_alone (handles op)) (λ d x, market_ok d x ∧ operator_checked op x) (perform_market op) (λ _, market_ok).
Proof.
  assert (∀ (R : Db → Ext → Db → Ext → Prop) A (m : Handler A) P Q, rg R P m Q → (∀ r d x, Q r d x → market_ok d x) →
    rg R P (m;; mret tt) (λ _, market_ok)) as Htail.
  { intros R A m P Q Hm HQ. eapply rg_bind; [exact Hm| |by intros; eapply HQ]. intros a. apply rg_ret. eauto. }
  destruct op; cbn [perform_market].
  - apply (rg_mono _ market_ok _ _ (λ _, market_ok)); [|by intros d x [? _]|done]. eapply Htail; [apply request_rg|done].
  - apply (rg_mono _ market_ok _ _ (λ _, market_ok)); [|by intros d x [? _]|done]. eapply Htail; [by apply process_rg|by intros r d x [? _]].
  - eapply rg_mono; [apply complete_rg|by intros d x [? _]|done].
  - eapply Htail; [by apply reset_rg|done].
  - apply (rg_mono _ market_ok _ _ (λ _, market_ok)); [|by intros d x [? _]|done]. eapply Htail; [by apply sweep_rg|done].
  - apply (rg_mono _ market_ok _ _ (λ _, market_ok)); [|by intros d x [? _]|done]. eapply Htail; [apply reconcile_rg|done].
Qed.
End market_ops.

(** ** Properties *)


(** ** A concrete sweep *)
Module SweepDemo.
Import WithdrawalDemo.
Definition sha (s : string) : string := "0123456789abcdef0123456789abcdef0123456789abcdef0123456789abcdef".
Definition quiet_event (f : fault) : event Db Ext := MkEvent 1000 f (λ d x, (d, x)).
(** The custodian's answer to the transfer, the eleventh statement, is lost. *)
Definition lossy : World Db Ext :=
  w0 <| sched := map quiet_event [FOk; FOk; FOk; FOk; FOk; FOk; FOk; FOk; FOk; FOk; FLost] |>.

Lemma leaves_refl `{Rail} owned d x : leaves_alone owned d x d x.
Proof. split; [done|]. intros id _. split_and!; [by left|done|done]. Qed.

Lemma market_ok_w0 b : @market_ok (rail b) (db w0) (ext w0).
Proof.
  split; [exact claims_ok_d0|]. split_and!.
  - intros t Ht. by apply elem_of_nil in Ht.
  - intros id. apply msum_nonneg. intros k e He. destruct (claims_ok_d0 k e He) as [? _]. by destruct (bool_decide _).
  - intros id r t _ _ _ Ht. by apply elem_of_nil in Ht.
Qed.
End SweepDemo.


(** The two updates of [count_failure] select the row by its id alone, so the ownership
    that the theorem asks for is needed.  Here the operator resets the failed withdrawal
    and a second worker pays it between the two statements of the first worker, whose
    update then marks the in-flight withdrawal exhausted: its earnings stay claimed and
    its transfer alive, where neither the reconciliation nor a reset will find them. *)
Module SweepRace.
Import WithdrawalDemo SweepDemo.
Definition cfg1 : Settings := cfg <| marketplace_max_sweep_retries := 1 |>.

(** The first transfer reverts, the second is not mined yet. *)
#[local] Instance two_attempts : Rail.
Proof.
  refine {| transfer_usdc := λ _ log _ _, Ok ("0x" +:+ pretty (length log));
            verify_usdc_transfer := λ _ _ tx, if bool_decide (tx = "0x0") then Ok false
                                              else Raise (RuntimeError "not mined");
            check_usdc_transfer := λ _ _ _ _ _, Ok OPending;
            wallet_balance := λ _ _, Ok 0;
            reverted := λ tx, bool_decide (tx = "0x0") |}.
  - intros now log tx. by case_bool_decide.
  - done.
Defined.

Definition id : string := _sweep_withdrawal_id sha "bot" 4800.
Definition second_worker : event Db Ext :=
  MkEvent 1000 FOk (λ d x,
    let w := (reset_withdrawal id;; process_withdrawal cfg1 id) (MkWorld d x (days 200) None [] 90) in
    (db w.2, ext w.2)).
Definition raced : World Db Ext :=
  (marketplace_sweep_once cfg1 sha (w0 <| sched := repeat (quiet_event FOk) 18 ++ [second_worker] |>)).2.
End SweepRace.

Example sweep_may_exhaust_a_withdrawal_in_flight :
  (w_status <$> withdrawals (db SweepRace.raced) !! SweepRace.id) = Some WExhausted ∧
  claimed_by SweepRace.id (db SweepRace.raced) = 180000 ∧
  @paid_by SweepRace.two_attempts SweepRace.id (ext SweepRace.raced) = 180000.
Proof. split_and!; vm_compute; reflexivity. Qed.
