(* ===== verification/Pricing.v ===== *)
(** * Pricing (billing/pricing.py, marketplace/_catalog_pricing.py)

    The effective pricing rule of a model, the price of a tool call and the cost
    of a run, behind their caches.  The theorems: the rule query picks the most
    specific rule in force; the cost of a run is the one a reference definition
    gives for the price table the state shows, whatever is cached; the rounding of
    token costs is exact.

    Pydantic's text of a rule and of the override table are parameters (a
    [TextCodec]); the caches behind Redis only need them to round trip. *)

From S2P Require Export Cache Json.

Record PricingRule := MkPricingRule {
  rule_id : string;
  rule_name : string;
  run_price_usdc : Z;
  tokens_in_cost_per_1k : Z;
  tokens_out_cost_per_1k : Z;
  tool_call_cost : Z;
  effective_from : Z;
  rule_created_at : Z;
}.

#[export] Instance PricingRule_eq_dec : EqDecision PricingRule.
Proof. solve_decision. Defined.

(** ** Tables *)
Record RuleRow := MkRuleRow {
  rr_rule : PricingRule;
  rr_provider : string;
  rr_model : string;
  rr_is_byok : bool;
}.

Record OrgToolRow := MkOrgToolRow {
  ot_slug : string;
  ot_name : string;
  ot_price : option Z;
  ot_publish : bool;
  ot_active : bool;
}.

Record PricingDb := MkPricingDb {
  pricing_rules : list RuleRow;
  tool_overrides : gmap string (Z * string);
  platform_tools : gmap string (Z * bool);
  org_tools : list OrgToolRow;
}.
#[export] Instance eta_PricingDb : Eta PricingDb := λ d,
  MkPricingDb (pricing_rules d) (tool_overrides d) (platform_tools d) (org_tools d).

Record PricingExt := MkPricingExt {
  live_slot : TTL PricingRule;
  overrides_slot : TTL (gmap string Z);
  model_pricing_cache : gmap string (option PricingRule * Z);
  platform_slots : gmap string (TTL Z);
  org_tool_slots : gmap string (TTL (option Z));
  pricing_redis : Redis;
}.
#[export] Instance eta_PricingExt : Eta PricingExt := λ x,
  MkPricingExt (live_slot x) (overrides_slot x) (model_pricing_cache x) (platform_slots x) (org_tool_slots x)
    (pricing_redis x).
#[export] Instance redis_PricingExt : HasRedis PricingExt :=
  {| redis_of := pricing_redis; on_redis f x := x <| pricing_redis ::= f |> |}.

Abbreviation PH := (M PricingDb PricingExt).

(** ** Decimals: a coefficient and a power of ten, rounded to 28 digits half to even *)
Record decimal := MkDecimal { coef : Z; exponent : Z }.

Fixpoint excess_digits (fuel : nat) (c : Z) : Z :=
  match fuel with
  | O => 0
  | S fuel => if c <? 10 ^ 28 then 0 else 1 + excess_digits fuel (c / 10)
  end.

Definition half_even (c p : Z) : Z :=
  let q := c / p in
  let r := c mod p in
  if (2 * r <? p) || ((2 * r =? p) && Z.even q) then q else q + 1.

Definition dec_round (d : decimal) : decimal :=
  let k := excess_digits (Z.to_nat (Z.log2 (Z.abs (coef d)) + 1)) (Z.abs (coef d)) in
  MkDecimal (Z.sgn (coef d) * half_even (Z.abs (coef d)) (10 ^ k)) (exponent d + k).

Definition dec_mul (a b : decimal) : decimal := dec_round (MkDecimal (coef a * coef b) (exponent a + exponent b)).

Definition dec_add (a b : decimal) : decimal :=
  let e := Z.min (exponent a) (exponent b) in
  dec_round (MkDecimal (coef a * 10 ^ (exponent a - e) + coef b * 10 ^ (exponent b - e)) e).

Definition dec_int (z : Z) : decimal := MkDecimal z 0.

(** [int(d.to_integral_value(rounding=ROUND_CEILING))] *)
Definition dec_ceiling (d : decimal) : Z :=
  if 0 <=? exponent d then coef d * 10 ^ exponent d else ceil_div (coef d) (10 ^ (- exponent d)).

(** ** Settings *)
Record PricingSettings := MkPricingSettings {
  pricing_cache_ttl_seconds : Z;
  marketplace_enabled : bool;
  openrouter_actual_cost_billing_enabled : bool;
  llm_cost_markup : decimal;
  openrouter_credit_fee_rate : decimal;
  byok_platform_fee_usdc : Z;
  has_pool : bool;
}.

(** A turn of the run's usage record; [upstream_cost_usd] is [Decimal(str(cost))] when
    the gateway reported a number. *)
Record Turn := MkTurn {
  t_provider : string;
  t_model : string;
  t_tokens_in : Z;
  t_tokens_out : Z;
  t_cache_creation_tokens : Z;
  upstream_cost_usd : option decimal;
}.

Record Usage := MkUsage {
  u_tokens_in : Z;
  u_tokens_out : Z;
  u_cache_creation_tokens : Z;
  billable_tool_calls : Z;
  billable_tool_names : list string;
}.

(** ** The pure part of the code *)
Definition is_flat_rate (rule : PricingRule) : bool :=
  (tokens_in_cost_per_1k rule <=? 0) && (tokens_out_cost_per_1k rule <=? 0) && (tool_call_cost rule <=? 0).

Definition per_unit_token_cost (rule : PricingRule) (tokens_in tokens_out cache_creation_tokens : Z) : Z :=
  let scaled := 4 * (tokens_in * tokens_in_cost_per_1k rule + tokens_out * tokens_out_cost_per_1k rule) in
  let scaled := scaled + Z.max 0 cache_creation_tokens * tokens_in_cost_per_1k rule in
  ceil_div scaled 4000.

(** ** Rule queries *)
Definition rule_matches (provider model : string) (byok exact : bool) (now : Z) (r : RuleRow) : bool :=
  let exactly := bool_decide (rr_provider r = provider) && bool_decide (rr_model r = model) in
  (effective_from (rr_rule r) <=? now) && Bool.eqb (rr_is_byok r) byok
  && (negb exact || exactly)
  && (exactly
      || (bool_decide (rr_provider r = provider) && bool_decide (rr_model r = ""))
      || (bool_decide (rr_provider r = "") && bool_decide (rr_model r = ""))).

(** The [CASE] of the ordering. *)
Definition specificity (provider model : string) (r : RuleRow) : Z :=
  if bool_decide (rr_provider r = provider) && bool_decide (rr_model r = model) then 0
  else if bool_decide (rr_provider r = provider) && bool_decide (rr_model r = "") then 1
  else 2.

Definition rule_leb (provider model : string) (a b : RuleRow) : bool :=
  (specificity provider model a <? specificity provider model b)
  || ((specificity provider model a =? specificity provider model b)
      && (effective_from (rr_rule b) <=? effective_from (rr_rule a))).

Definition model_rule (provider model : string) (byok exact : bool) (now : Z) (d : PricingDb) : option PricingRule :=
  rr_rule <$> head (limit 1 (order_by (rule_leb provider model)
    (filter (λ r, rule_matches provider model byok exact now r = true) (pricing_rules d)))).

Definition later_first (a b : RuleRow) : bool := effective_from (rr_rule b) <=? effective_from (rr_rule a).

Definition global_rule (now : Z) (d : PricingDb) : option PricingRule :=
  rr_rule <$> head (limit 1 (order_by later_first
    (filter (λ r, (effective_from (rr_rule r) <=? now) && bool_decide (rr_provider r = "")
                  && bool_decide (rr_model r = "") && negb (rr_is_byok r) = true) (pricing_rules d)))).

Definition org_tool_row (slug name : string) (d : PricingDb) : option OrgToolRow :=
  find (λ t, bool_decide (ot_slug t = slug) && bool_decide (ot_name t = name) && ot_publish t && ot_active t)
    (org_tools d).

Definition override_costs (d : PricingDb) : gmap string Z := fst <$> tool_overrides d.
Definition platform_price (name : string) (d : PricingDb) : option Z :=
  '(price, active) ← platform_tools d !! name; if active : bool then Some price else None.

Section pricing.
Context `{!TextCodec PricingRule, !TextCodec (gmap string Z)} (cfg : PricingSettings).

Definition get_current_pricing : PH (option PricingRule) :=
  if has_pool cfg then query global_rule else raise (RuntimeError "Billing DB not initialised").

Definition get_current_pricing_for_model (provider model : string) (is_byok exact_match : bool)
    : PH (option PricingRule) :=
  if has_pool cfg then query (model_rule provider model is_byok exact_match)
  else raise (RuntimeError "Billing DB not initialised").

Definition get_current_tool_overrides : PH (gmap string Z) :=
  if has_pool cfg then query (λ _, override_costs) else raise (RuntimeError "Billing DB not initialised").

(** ** The caches *)
Definition _load_live_pricing : PH (option PricingRule) :=
  if has_pool cfg then get_current_pricing else mret None.

Definition _load_tool_overrides : PH (option (gmap string Z)) :=
  if has_pool cfg then costs ← get_current_tool_overrides; mret (Some costs) else mret (Some ∅).

Definition _live_pricing_cache : CacheSpec PricingDb PricingExt PricingRule := {|
  redis_key := "teardrop:pricing:active";
  ttl_seconds := pricing_cache_ttl_seconds cfg;
  loader := _load_live_pricing;
  serialize := to_text;
  deserialize := of_text;
  cache_when := is_some;
  stale_default := None;
  slot := live_slot;
  set_slot := λ s x, x <| live_slot := s |>;
|}.

Definition _tool_overrides_cache_obj : CacheSpec PricingDb PricingExt (gmap string Z) := {|
  redis_key := "teardrop:pricing:tool_overrides";
  ttl_seconds := pricing_cache_ttl_seconds cfg;
  loader := _load_tool_overrides;
  serialize := to_text;
  deserialize := of_text;
  cache_when := is_some;
  stale_default := Some ∅;
  slot := overrides_slot;
  set_slot := λ s x, x <| overrides_slot := s |>;
|}.

Definition get_live_pricing : PH (option PricingRule) := cache_get _live_pricing_cache.

Definition get_tool_pricing_overrides : PH (gmap string Z) :=
  result ← cache_get _tool_overrides_cache_obj; mret (default ∅ result).

Definition int_of_text (raw : string) : res Z :=
  match py_int_of_string raw with
  | Some z => Ok z
  | None => Raise (ValueError "invalid literal for int()")
  end.

Definition _PLATFORM_TOOL_PRICE_TTL_SECONDS : Z := 60.
Definition _ORG_TOOL_PRICE_TTL_SECONDS : Z := 60.

Definition _load_platform_tool_price (tool_name : string) : PH (option Z) :=
  query (λ _, platform_price tool_name).

Definition _get_platform_tool_cache (tool_name : string) : CacheSpec PricingDb PricingExt Z := {|
  redis_key := "teardrop:platform_tool_price:" ++ tool_name;
  ttl_seconds := _PLATFORM_TOOL_PRICE_TTL_SECONDS;
  loader := _load_platform_tool_price tool_name;
  serialize := pretty;
  deserialize := λ raw, z ← int_of_text raw; Ok (Some z);
  cache_when := is_some;
  stale_default := None;
  slot := λ x, default empty_slot (platform_slots x !! tool_name);
  set_slot := λ s x, x <| platform_slots ::= <[tool_name := s]> |>;
|}.

Definition get_platform_tool_price (tool_name : string) : PH (option Z) :=
  cache_get (_get_platform_tool_cache tool_name).

(** The price is boxed: [Some None] is a published tool at the platform default. *)
Definition _load_org_tool_price (qualified_name : string) : PH (option (option Z)) :=
  let '(slug, name) := split_slash qualified_name in
  query (λ _ d, ot_price <$> org_tool_row slug name d).

Definition _get_org_tool_price_cache (qualified_name : string) : CacheSpec PricingDb PricingExt (option Z) := {|
  redis_key := "teardrop:org_tool_price:v2:" ++ qualified_name;
  ttl_seconds := _ORG_TOOL_PRICE_TTL_SECONDS;
  loader := _load_org_tool_price qualified_name;
  serialize := λ v, match v with Some z => pretty z | None => "null" end;
  deserialize := λ raw, if String.eqb raw "null" then Ok (Some None) else z ← int_of_text raw; Ok (Some (Some z));
  cache_when := is_some;
  stale_default := None;
  slot := λ x, default empty_slot (org_tool_slots x !! qualified_name);
  set_slot := λ s x, x <| org_tool_slots ::= <[qualified_name := s]> |>;
|}.

Definition _PLATFORM_SLUG : string := "platform".

Definition get_org_tool_price_by_qualified_name (qualified_name : string) : PH (option Z) :=
  if negb (str_in "/" qualified_name) then mret None
  else
    let '(org_slug, tool_name) := split_slash qualified_name in
    if is_empty org_slug || is_empty tool_name then mret None
    else if String.eqb org_slug _PLATFORM_SLUG then mret None
    else cached ← cache_get (_get_org_tool_price_cache qualified_name); mret (default None cached).

(** ** Model pricing: a keyed cache that also stores the absence of a rule *)
Definition model_rkey (provider model : string) (is_byok : bool) : string :=
  "teardrop:pricing:" ++ provider ++ ":" ++ model ++ ":" ++ (if is_byok then "byok" else "std").
Definition cache_key (provider model : string) (is_byok : bool) : string :=
  provider ++ ":" ++ model ++ ":" ++ (if is_byok then "True" else "False").

Definition rule_text (rule : option PricingRule) : string :=
  match rule with Some r => to_text r | None => "null" end.
Definition rule_of_text (raw : string) : res (option PricingRule) :=
  if String.eqb raw "null" then Ok None else of_text raw.

Definition model_redis_read (rkey : string) : PH (option (option PricingRule)) :=
  connected ← get_redis;
  if connected : bool then
    catch (raw ← redis_get rkey;
           match raw with
           | Some raw => rule ← lift (rule_of_text raw); mret (Some rule)
           | None => mret None
           end)
          (λ _, mret None)
  else mret None.

Definition model_redis_write (rkey : string) (rule : option PricingRule) : PH unit :=
  connected ← get_redis;
  if connected : bool
  then catch (redis_setex rkey (pricing_cache_ttl_seconds cfg) (rule_text rule)) (λ _, mret tt)
  else mret tt.

Definition fresh_entry (key : string) : PH (option (option PricingRule)) :=
  x ← get_ext; now ← datetime_now;
  mret (match model_pricing_cache x !! key with
        | Some (rule, expires) => if now <? expires then Some rule else None
        | None => None
        end).

Definition get_live_pricing_for_model (provider model : string) (is_byok : bool) : PH (option PricingRule) :=
  if is_empty provider && is_empty model then get_live_pricing
  else
    let key := cache_key provider model is_byok in
    let rkey := model_rkey provider model is_byok in
    hit ← model_redis_read rkey;
    match hit with
    | Some rule => mret rule
    | None =>
        entry ← fresh_entry key;
        match entry with
        | Some rule => mret rule
        | None =>
            if negb (has_pool cfg) then mret None
            else
              yield_point;;
              entry ← fresh_entry key;
              match entry with
              | Some rule => mret rule
              | None =>
                  x ← get_ext;
                  catch
                    (rule ← get_current_pricing_for_model provider model is_byok false;
                     now ← datetime_now;
                     modify_ext (λ x, x <| model_pricing_cache ::=
                       <[key := (rule, now + seconds (pricing_cache_ttl_seconds cfg))]> |>);;
                     model_redis_write rkey rule;;
                     mret rule)
                    (λ _, mret (match model_pricing_cache x !! key with Some (rule, _) => rule | None => None end))
              end
        end
    end.

(** ** Tool prices *)
Definition upsert_tool_pricing_override (tool_name : string) (cost_usdc : Z) (description : string) : PH unit :=
  stmt (λ _ d, if negb (is_bigint cost_usdc) then Raise DataError
               else if cost_usdc <? 0 then Raise CheckViolation
               else Ok (tt, d <| tool_overrides ::= <[tool_name := (cost_usdc, description)]> |>));;
  cache_invalidate _tool_overrides_cache_obj.

Definition delete_tool_pricing_override (tool_name : string) : PH bool :=
  deleted ← stmt (λ _ d, Ok (bool_decide (is_Some (tool_overrides d !! tool_name)),
                             d <| tool_overrides ::= delete tool_name |>));
  cache_invalidate _tool_overrides_cache_obj;;
  mret deleted.

Definition resolve_tool_cost (tool_name : string) (overrides : gmap string Z) (default_cost : Z)
    (marketplace : bool) : PH Z :=
  match overrides !! tool_name with
  | Some cost => mret cost
  | None =>
      if str_in "/" tool_name then
        let bare_tool_name := (split_slash tool_name).2 in
        match overrides !! bare_tool_name with
        | Some cost => mret cost
        | None =>
            if marketplace then
              author_price ← get_org_tool_price_by_qualified_name tool_name;
              mret (default default_cost author_price)
            else mret default_cost
        end
      else if str_in "__" tool_name then mret 0
      else if marketplace then
        platform_price ← get_platform_tool_price tool_name;
        mret (default 0 platform_price)
      else mret default_cost
  end.

Definition calculate_tool_cost_usdc (tool_calls : Z) (tool_names : list string) : PH Z :=
  if (tool_calls <=? 0) && bool_decide (tool_names = []) then mret 0
  else
    rule ← get_live_pricing;
    let default_cost := match rule with Some r => tool_call_cost r | None => 0 end in
    if bool_decide (tool_names = []) then mret (tool_calls * default_cost)
    else
      overrides ← get_tool_pricing_overrides;
      named_cost ← for_each tool_names 0 (λ named_cost name,
        cost ← resolve_tool_cost name overrides default_cost (marketplace_enabled cfg);
        mret (named_cost + cost));
      mret (named_cost + Z.max 0 (tool_calls - len tool_names) * default_cost).

(** ** Runs *)
Definition upstream_turn_cost_usdc (turn : Turn) : option Z :=
  match upstream_cost_usd turn with
  | Some cost_usd =>
      if negb (openrouter_actual_cost_billing_enabled cfg) || negb (String.eqb (t_provider turn) "openrouter")
         || (coef cost_usd <? 0)
      then None
      else
        let multiplier := dec_mul (llm_cost_markup cfg) (dec_add (dec_int 1) (openrouter_credit_fee_rate cfg)) in
        Some (dec_ceiling (dec_mul (dec_mul cost_usd multiplier) (dec_int 1000000)))
  | None => None
  end.

Definition calculate_turns_token_cost_usdc (turns : list Turn) : PH Z :=
  '(per_unit_cost, flat_prices) ← for_each turns (0, (∅ : gmap string Z)) (λ '(per_unit_cost, flat_prices) turn,
    match upstream_turn_cost_usdc turn with
    | Some upstream_cost => mret (per_unit_cost + upstream_cost, flat_prices)
    | None =>
        rule ← get_live_pricing_for_model (t_provider turn) (t_model turn) false;
        match rule with
        | None => mret (per_unit_cost, flat_prices)
        | Some rule =>
            if is_flat_rate rule
            then mret (per_unit_cost, <[rule_id rule := run_price_usdc rule]> flat_prices)
            else mret (per_unit_cost + per_unit_token_cost rule (t_tokens_in turn) (t_tokens_out turn)
                         (t_cache_creation_tokens turn), flat_prices)
        end
    end);
  mret (per_unit_cost + msum (λ _ price, price) flat_prices).

Definition calculate_run_cost_usdc (usage_data : Usage) (provider model : string) : PH Z :=
  rule ← (if negb (is_empty provider) && negb (is_empty model)
          then get_live_pricing_for_model provider model false else get_live_pricing);
  let token_cost :=
    match rule with
    | None => 0
    | Some rule =>
        if is_flat_rate rule then run_price_usdc rule
        else per_unit_token_cost rule (u_tokens_in usage_data) (u_tokens_out usage_data)
               (u_cache_creation_tokens usage_data)
    end in
  tool_cost ← calculate_tool_cost_usdc (billable_tool_calls usage_data) (billable_tool_names usage_data);
  mret (token_cost + tool_cost).

(** [DelegationService.calculate_byok_orchestration_cost] *)
Definition calculate_byok_orchestration_cost (tokens_in tokens_out : Z) (provider model : string) : PH Z :=
  let floor := byok_platform_fee_usdc cfg in
  rule ← get_live_pricing_for_model provider model true;
  match rule with
  | None => mret floor
  | Some rule =>
      let computed := ceil_div (tokens_in * tokens_in_cost_per_1k rule + tokens_out * tokens_out_cost_per_1k rule) 1000 in
      mret (Z.max computed floor)
  end.
End pricing.

(** ** The price table a state shows

    A cache is a view of its loader: what the next read returns.  [model_spec]
    describes the model cache in the same terms. *)
Section table.
Context `{!TextCodec PricingRule, !TextCodec (gmap string Z)} (cfg : PricingSettings).

Definition model_slot (key : string) (x : PricingExt) : TTL (option PricingRule) :=
  match model_pricing_cache x !! key with
  | Some (rule, expires) => MkTTL (Some rule) expires
  | None => empty_slot
  end.

Definition set_model_slot (key : string) (s : TTL (option PricingRule)) (x : PricingExt) : PricingExt :=
  match ttl_value s with
  | Some rule => x <| model_pricing_cache ::= <[key := (rule, ttl_expires s)]> |>
  | None => x <| model_pricing_cache ::= delete key |>
  end.

Definition model_spec (provider model : string) (is_byok : bool)
    : CacheSpec PricingDb PricingExt (option PricingRule) := {|
  redis_key := model_rkey provider model is_byok;
  ttl_seconds := pricing_cache_ttl_seconds cfg;
  loader := rule ← get_current_pricing_for_model cfg provider model is_byok false; mret (Some rule);
  serialize := rule_text;
  deserialize := λ raw, rule ← rule_of_text raw; Ok (Some rule);
  cache_when := is_some;
  stale_default := None;
  slot := model_slot (cache_key provider model is_byok);
  set_slot := set_model_slot (cache_key provider model is_byok);
|}.

(** What a read of each cache returns. *)
Definition live_view (now : Z) (d : PricingDb) (x : PricingExt) : option PricingRule :=
  cache_view (_live_pricing_cache cfg) now x (if has_pool cfg then global_rule now d else None).
Definition overrides_view (now : Z) (d : PricingDb) (x : PricingExt) : gmap string Z :=
  default ∅ (cache_view (_tool_overrides_cache_obj cfg) now x (Some (if has_pool cfg then override_costs d else ∅))).
Definition loaded_model (provider model : string) (byok : bool) (now : Z) (d : PricingDb) : option (option PricingRule) :=
  if has_pool cfg then Some (model_rule provider model byok false now d) else None.
Definition model_view (now : Z) (d : PricingDb) (x : PricingExt) (provider model : string) (byok : bool)
    : option PricingRule :=
  default None (cache_view (model_spec provider model byok) now x (loaded_model provider model byok now d)).
Definition platform_view (now : Z) (d : PricingDb) (x : PricingExt) (name : string) : option Z :=
  cache_view (_get_platform_tool_cache name) now x (platform_price name d).
Definition loaded_org_tool (qualified : string) (d : PricingDb) : option (option Z) :=
  ot_price <$> org_tool_row (split_slash qualified).1 (split_slash qualified).2 d.
Definition org_tool_view (now : Z) (d : PricingDb) (x : PricingExt) (qualified : string) : option Z :=
  default None (cache_view (_get_org_tool_price_cache qualified) now x (loaded_org_tool qualified d)).
End table.

Definition no_colon (s : string) : bool := forallb (λ c, negb (bool_decide (c = ":"%char))) (chars s).

Lemma chars_app s t : chars (s +:+ t) = chars s ++ chars t.
Proof. induction s as [|c s IH]; [done|]. change (chars (String c s +:+ t)) with (c :: chars (s +:+ t)). by rewrite IH. Qed.

Lemma chars_inj s t : chars s = chars t → s = t.
Proof. intros H. by rewrite <- (String.string_of_list_ascii_of_string s), H, String.string_of_list_ascii_of_string. Qed.

(** Two texts with the same separator after a part without it. *)
Lemma colon_split (l l' r r' : list Ascii.ascii) :
  forallb (λ c, negb (bool_decide (c = ":"%char))) l = true →
  forallb (λ c, negb (bool_decide (c = ":"%char))) l' = true →
  l ++ ":"%char :: r = l' ++ ":"%char :: r' → l = l' ∧ r = r'.
Proof.
  revert l'. induction l as [|c l IH]; intros [|c' l'] Hl Hl' Heq; cbn in *.
  - by injection Heq.
  - injection Heq as <- _. by apply andb_true_iff in Hl' as [? _].
  - injection Heq as -> _. by apply andb_true_iff in Hl as [? _].
  - injection Heq as <- Heq. apply andb_true_iff in Hl as [_ Hl], Hl' as [_ Hl'].
    destruct (IH l' Hl Hl' Heq) as [<- <-]. done.
Qed.

Lemma keyed_inj (a a' z1 z2 m m' : string) (b b' : bool) :
  no_colon a = true → no_colon a' = true → (∀ l l', l ++ chars z1 ≠ l' ++ chars z2) →
  a +:+ ":" +:+ m +:+ ":" +:+ (if b then z1 else z2) = a' +:+ ":" +:+ m' +:+ ":" +:+ (if b' then z1 else z2) →
  a = a' ∧ m = m' ∧ b = b'.
Proof.
  intros Ha Ha' Hz Heq. apply (f_equal String.list_ascii_of_string) in Heq. rewrite !chars_app in Heq.
  cbn [chars String.list_ascii_of_string app] in Heq. apply colon_split in Heq as [->%chars_inj Heq]; [|done..].
  split; [done|]. assert (b = b') as <-.
  { destruct b, b'; [done| | |done]; exfalso; [|symmetry in Heq].
    - eapply (Hz (chars m ++ [":"%char]) (chars m' ++ [":"%char])). by rewrite <- !app_assoc.
    - eapply (Hz (chars m' ++ [":"%char]) (chars m ++ [":"%char])). by rewrite <- !app_assoc. }
  split; [|done]. apply app_inv_tail in Heq. by apply chars_inj.
Qed.

#[export] Instance redis_PricingExt_ok : RedisOk PricingExt.
Proof. done. Qed.

Section quiet.
Context `{TextCodecOk PricingRule, TextCodecOk (gmap string Z)} (cfg : PricingSettings).

#[export] Instance live_cache_ok : CacheOk (_live_pricing_cache cfg).
Proof. split; [done..|exact text_roundtrip]. Qed.
#[export] Instance overrides_cache_ok : CacheOk (_tool_overrides_cache_obj cfg).
Proof. split; [done..|exact text_roundtrip]. Qed.

Lemma int_of_text_pretty z : int_of_text (pretty z) = Ok z.
Proof. unfold int_of_text. by rewrite py_int_pretty. Qed.

#[export] Instance platform_cache_ok name : CacheOk (_get_platform_tool_cache name).
Proof.
  split; [|done..|].
  - intros now s x. cbn. by rewrite lookup_insert_eq.
  - intros v. cbn [deserialize serialize _get_platform_tool_cache]. by rewrite int_of_text_pretty.
Qed.
#[export] Instance org_tool_cache_ok name : CacheOk (_get_org_tool_price_cache name).
Proof.
  split; [|done..|].
  - intros now s x. cbn. by rewrite lookup_insert_eq.
  - intros [v|]; [|done]. cbn [deserialize serialize _get_org_tool_price_cache].
    rewrite int_of_text_pretty. destruct (String.eqb_spec (pretty v) "null") as [Hv|]; [|done].
    pose proof (py_int_pretty v) as Hp. rewrite Hv in Hp. discriminate Hp.
Qed.
#[export] Instance model_cache_ok p m b : CacheOk (model_spec cfg p m b).
Proof.
  split.
  - intros now [[rule|] e] x; cbn; unfold model_slot, set_model_slot, fresh_value; cbn.
    + by rewrite lookup_insert_eq.
    + rewrite lookup_delete_eq. cbn. by destruct (_ <? _), (_ <? _).
  - done.
  - intros [[?|] ?] x; done.
  - intros [rule|]; [|done]. cbn. unfold rule_of_text.
    destruct (String.eqb_spec (to_text rule) "null") as [Hn|]; [by apply text_not_null in Hn|]. by rewrite text_roundtrip.
Qed.

(** *** Independence of the five kinds of caches *)
Lemma model_rkey_end p m b : ∃ l c, chars (model_rkey p m b) = l ++ [c] ∧ (c = "k" ∨ c = "d")%char.
Proof.
  unfold model_rkey. exists (chars (("teardrop:pricing:" +:+ p +:+ ":" +:+ m +:+ ":") +:+ (if b then "byo" else "st"))).
  exists (if b then "k" else "d")%char. split; [|destruct b; auto].
  destruct b; rewrite !chars_app, <- ?app_assoc; cbn [chars String.list_ascii_of_string app]; rewrite <- ?app_assoc; done.
Qed.

Lemma model_rkey_ne p m b key c l :
  chars key = l ++ [c] → c ≠ "k"%char → c ≠ "d"%char → model_rkey p m b ≠ key.
Proof.
  intros Hk ?? <-. destruct (model_rkey_end p m b) as (l' & c' & Heq & Hc). rewrite Heq in Hk.
  apply app_inj_tail in Hk as [_ ->]. by destruct Hc.
Qed.

Lemma live_ne_model p m b : model_rkey p m b ≠ "teardrop:pricing:active".
Proof. by apply (model_rkey_ne _ _ _ _ "e"%char (chars "teardrop:pricing:activ")). Qed.
Lemma overrides_ne_model p m b : model_rkey p m b ≠ "teardrop:pricing:tool_overrides".
Proof. by apply (model_rkey_ne _ _ _ _ "s"%char (chars "teardrop:pricing:tool_override")). Qed.

Lemma model_rkey_inj p m b p' m' b' :
  no_colon p = true → no_colon p' = true → model_rkey p m b = model_rkey p' m' b' → (p, m, b) = (p', m', b').
Proof.
  unfold model_rkey. intros Hp Hp' Heq%(inj (String.app "teardrop:pricing:")).
  apply keyed_inj in Heq as (-> & -> & ->); [done..|].
  intros l l' Hl. apply (f_equal (@rev _)) in Hl. rewrite !rev_app_distr in Hl. by cbn in Hl.
Qed.
Lemma cache_key_inj p m b p' m' b' :
  no_colon p = true → no_colon p' = true → cache_key p m b = cache_key p' m' b' → (p, m, b) = (p', m', b').
Proof.
  unfold cache_key. intros Hp Hp' Heq. apply keyed_inj in Heq as (-> & -> & ->); [done..|].
  intros l l' Hl. apply (f_equal (@rev _)) in Hl. rewrite !rev_app_distr in Hl. by cbn in Hl.
Qed.

(** The prices shown do not change. *)
Record same_prices (now : Z) (d : PricingDb) (x x' : PricingExt) : Prop := {
  same_live : live_view cfg now d x' = live_view cfg now d x;
  same_overrides : overrides_view cfg now d x' = overrides_view cfg now d x;
  same_model : ∀ p m b, no_colon p = true → model_view cfg now d x' p m b = model_view cfg now d x p m b;
  same_platform : ∀ n, platform_view now d x' n = platform_view now d x n;
  same_org_tool : ∀ q, org_tool_view now d x' q = org_tool_view now d x q;
}.

#[export] Instance same_prices_preorder now d : PreOrder (same_prices now d).
Proof.
  split; [by intros x|]. intros x1 x2 x3 [H1 H2 H3 H4 H5] [G1 G2 G3 G4 G5].
  split; [congruence|congruence|intros; by rewrite G3, H3|intros; by rewrite G4|intros; by rewrite G5].
Qed.

Lemma model_slot_set key key' s x : key ≠ key' → model_slot key' (set_model_slot key s x) = model_slot key' x.
Proof.
  intros Hne. unfold model_slot, set_model_slot. destruct (ttl_value s); cbn.
  - by rewrite lookup_insert_ne.
  - by rewrite lookup_delete_ne.
Qed.

Lemma set_model_slot_other key s x :
  live_slot (set_model_slot key s x) = live_slot x ∧ overrides_slot (set_model_slot key s x) = overrides_slot x ∧
  platform_slots (set_model_slot key s x) = platform_slots x ∧ org_tool_slots (set_model_slot key s x) = org_tool_slots x.
Proof. unfold set_model_slot. by destruct (ttl_value s). Qed.

Ltac indep :=
  apply cache_view_independent; [apply _..|]; split;
  [ first [ done | by apply live_ne_model | by apply not_eq_sym, live_ne_model
          | by apply overrides_ne_model | by apply not_eq_sym, overrides_ne_model ]
  | intros s y; first [ done | cbn; by rewrite ?(proj1 (set_model_slot_other _ _ _)), ?(proj1 (proj2 (set_model_slot_other _ _ _))),
      ?(proj1 (proj2 (proj2 (set_model_slot_other _ _ _)))), ?(proj2 (proj2 (proj2 (set_model_slot_other _ _ _)))) ] ].

Lemma fill_live now d x :
  same_prices now d x (cache_fill (_live_pricing_cache cfg) now x (if has_pool cfg then global_rule now d else None)).
Proof.
  split; intros; unfold live_view, overrides_view, model_view, platform_view, org_tool_view; try apply (f_equal (default _));
    first [apply cache_view_fill; apply _ | indep].
Qed.

Lemma fill_overrides now d x :
  same_prices now d x (cache_fill (_tool_overrides_cache_obj cfg) now x (Some (if has_pool cfg then override_costs d else ∅))).
Proof.
  split; intros; unfold live_view, overrides_view, model_view, platform_view, org_tool_view; try apply (f_equal (default _));
    first [apply cache_view_fill; apply _ | indep].
Qed.

Lemma fill_model now d x p m b :
  no_colon p = true →
  same_prices now d x (cache_fill (model_spec cfg p m b) now x (loaded_model cfg p m b now d)).
Proof.
  intros Hp.
  split; intros; unfold live_view, overrides_view, model_view, platform_view, org_tool_view; try apply (f_equal (default _)); try indep.
  destruct (decide ((p, m, b) = (p0, m0, b0))) as [[= <- <- <-]|Hne]; [apply cache_view_fill; apply _|].
  apply cache_view_independent; [apply _..|]. split; cbn.
  - intros Heq%model_rkey_inj; auto.
  - intros s y. apply model_slot_set. intros Heq%cache_key_inj; auto.
Qed.

Lemma fill_platform now d x n :
  same_prices now d x (cache_fill (_get_platform_tool_cache n) now x (platform_price n d)).
Proof.
  split; intros; unfold live_view, overrides_view, model_view, platform_view, org_tool_view; try apply (f_equal (default _)); try indep.
  destruct (decide (n = n0)) as [<-|Hne]; [apply cache_view_fill; apply _|].
  apply cache_view_independent; [apply _..|]. split; cbn.
  - intros Heq%(inj (String.app "teardrop:platform_tool_price:")); auto.
  - intros s y. by rewrite lookup_insert_ne.
Qed.

Lemma fill_org_tool now d x q :
  same_prices now d x (cache_fill (_get_org_tool_price_cache q) now x (loaded_org_tool q d)).
Proof.
  split; intros; unfold live_view, overrides_view, model_view, platform_view, org_tool_view; try apply (f_equal (default _)); try indep.
  destruct (decide (q = q0)) as [<-|Hne]; [apply cache_view_fill; apply _|].
  apply cache_view_independent; [apply _..|]. split; cbn.
  - intros Heq%(inj (String.app "teardrop:org_tool_price:v2:")); auto.
  - intros s y. by rewrite lookup_insert_ne.
Qed.
End quiet.

(** ** The reference: costs as a function of the prices shown *)
Record PriceTable := MkPriceTable {
  pt_live : option PricingRule;
  pt_overrides : gmap string Z;
  pt_model : string → string → bool → option PricingRule;
  pt_platform : string → option Z;
  pt_author : string → option Z;
}.

Section reference.
Context (cfg : PricingSettings) (t : PriceTable).

Definition rule_of_model (provider model : string) (byok : bool) : option PricingRule :=
  if is_empty provider && is_empty model then pt_live t else pt_model t provider model byok.

Definition default_tool_cost : Z := match pt_live t with Some r => tool_call_cost r | None => 0 end.

(** The author's price of a qualified name that is listed. *)
Definition author_price (name : string) : option Z :=
  let '(org_slug, tool_name) := split_slash name in
  if is_empty org_slug || is_empty tool_name || String.eqb org_slug _PLATFORM_SLUG then None else pt_author t name.

Definition tool_cost (name : string) : Z :=
  match pt_overrides t !! name with
  | Some cost => cost
  | None =>
      if str_in "/" name then
        match pt_overrides t !! (split_slash name).2 with
        | Some cost => cost
        | None => if marketplace_enabled cfg then default default_tool_cost (author_price name) else default_tool_cost
        end
      else if str_in "__" name then 0
      else if marketplace_enabled cfg then default 0 (pt_platform t name) else default_tool_cost
  end.

(** Every named call at the price of its tool, the others at the default. *)
Definition tools_cost (calls : Z) (names : list string) : Z :=
  lsum tool_cost names + Z.max 0 (calls - len names) * default_tool_cost.

Definition token_cost (rule : option PricingRule) (tokens_in tokens_out cache_creation : Z) : Z :=
  match rule with
  | None => 0
  | Some rule =>
      if is_flat_rate rule then run_price_usdc rule
      else per_unit_token_cost rule tokens_in tokens_out cache_creation
  end.

Definition run_cost (u : Usage) (provider model : string) : Z :=
  let rule := if negb (is_empty provider) && negb (is_empty model) then pt_model t provider model false else pt_live t in
  token_cost rule (u_tokens_in u) (u_tokens_out u) (u_cache_creation_tokens u)
  + tools_cost (billable_tool_calls u) (billable_tool_names u).

(** The rule a turn is priced by, unless the gateway's cost is. *)
Definition turn_rule (turn : Turn) : option PricingRule :=
  match upstream_turn_cost_usdc cfg turn with
  | Some _ => None
  | None => rule_of_model (t_provider turn) (t_model turn) false
  end.

Definition flat_rule (turn : Turn) : option PricingRule :=
  rule ← turn_rule turn; if is_flat_rate rule then Some rule else None.

Definition metered_cost (turn : Turn) : Z :=
  match upstream_turn_cost_usdc cfg turn, turn_rule turn with
  | Some cost, _ => cost
  | None, Some rule =>
      if is_flat_rate rule then 0
      else per_unit_token_cost rule (t_tokens_in turn) (t_tokens_out turn) (t_cache_creation_tokens turn)
  | None, None => 0
  end.

(** Each metered turn, and each distinct flat rule once. *)
Definition turns_cost (turns : list Turn) : Z :=
  lsum metered_cost turns + lsum run_price_usdc (remove_dups (omap flat_rule turns)).
End reference.

(** The dictionary [flat_prices] holds each distinct rule once, when ids name rules. *)
Definition ids_name_rules (rules : list PricingRule) : Prop :=
  ∀ r r', r ∈ rules → r' ∈ rules → rule_id r = rule_id r' → r = r'.

Definition add_flat (prices : gmap string Z) (r : PricingRule) : gmap string Z :=
  <[rule_id r := run_price_usdc r]> prices.

Lemma flat_prices_lookup rules r :
  ids_name_rules rules → r ∈ rules → foldl add_flat ∅ rules !! rule_id r = Some (run_price_usdc r).
Proof.
  revert r. induction rules as [|r' rules IH] using rev_ind; intros r Hids Hr; [by apply elem_of_nil in Hr|].
  rewrite foldl_app. cbn. unfold add_flat at 1. destruct (decide (rule_id r' = rule_id r)) as [Heq|Hne].
  - rewrite Heq, lookup_insert_eq. assert (r' = r) as ->; [|done]. apply Hids; [set_solver|done..].
  - rewrite lookup_insert_ne by done. apply IH; [intros ?????; apply Hids; set_solver|].
    apply elem_of_app in Hr as [?|?%list_elem_of_singleton]; [done|congruence].
Qed.

Lemma flat_prices_fresh rules id :
  id ∉ map rule_id rules → foldl add_flat ∅ rules !! id = None.
Proof.
  induction rules as [|r rules IH] using rev_ind; intros Hid; [done|]. rewrite foldl_app. cbn. unfold add_flat at 1.
  rewrite map_app in Hid. apply not_elem_of_app in Hid as [Hid Hr]. rewrite lookup_insert_ne; [by apply IH|].
  intros <-. apply Hr. left.
Qed.

Lemma flat_prices_sum rules :
  ids_name_rules rules →
  msum (λ _ price, price) (foldl add_flat ∅ rules) = lsum run_price_usdc (remove_dups rules).
Proof.
  induction rules as [|r rules IH] using rev_ind; intros Hids; [apply msum_empty|].
  assert (ids_name_rules rules) as Hids' by (intros ?????; apply Hids; set_solver).
  rewrite foldl_app. cbn [foldl]. unfold add_flat at 1. destruct (decide (r ∈ rules)) as [Hr|Hr].
  - rewrite insert_id by (by apply flat_prices_lookup). rewrite IH by done. apply lsum_perm, NoDup_Permutation.
    + apply NoDup_remove_dups.
    + apply NoDup_remove_dups.
    + intros r'. rewrite !elem_of_remove_dups, elem_of_app, list_elem_of_singleton. naive_solver.
  - rewrite msum_insert, IH by (done || (apply flat_prices_fresh; intros (r' & Heq & Hr')%list_elem_of_In%in_map_iff;
      apply list_elem_of_In in Hr'; apply Hr; replace r with r'; [done|]; apply Hids; set_solver)).
    rewrite <- lsum_cons. apply lsum_perm, NoDup_Permutation.
    + constructor; [by rewrite elem_of_remove_dups|apply NoDup_remove_dups].
    + apply NoDup_remove_dups.
    + intros r'. rewrite elem_of_cons, !elem_of_remove_dups, elem_of_app, list_elem_of_singleton. naive_solver.
Qed.

(** ** Reading prices

    [reads m v]: in every quiet state that shows the same prices as [(now, d, x)],
    [m] returns [v] and leaves a state that still shows them. *)
Section reads.
Context `{TextCodecOk PricingRule, TextCodecOk (gmap string Z)} (cfg : PricingSettings).
Context (now : Z) (d : PricingDb) (x : PricingExt).

Definition shows (w : World PricingDb PricingExt) : Prop :=
  clock w = now ∧ db w = d ∧ tx_now w = None ∧ same_prices cfg now d x (ext w).

Definition reads {A} (m : PH A) (v : A) : Prop :=
  ∀ w, shows w → wpq m (λ r w', r = Ok v ∧ shows w') w.

Definition shown : PriceTable :=
  MkPriceTable (live_view cfg now d x) (overrides_view cfg now d x) (model_view cfg now d x) (platform_view now d x)
    (org_tool_view now d x).

Lemma reads_ret {A} (v : A) : reads (mret v) v.
Proof. intros w Hw. by apply wpq_ret. Qed.

Lemma reads_bind {A B} (m : PH A) (f : A → PH B) v b : reads m v → reads (f v) b → reads (m ≫= f) b.
Proof.
  intros Hm Hf w Hw. apply wpq_bind. eapply wpq_mono; [by apply Hm|]. intros r w' [-> Hw']. by apply Hf.
Qed.

Lemma reads_for_each {A B} (l : list A) (acc : B) body (step : B → A → B) :
  (∀ acc a, a ∈ l → reads (body acc a) (step acc a)) → reads (for_each l acc body) (foldl step acc l).
Proof.
  revert acc. induction l as [|a l IH]; intros acc Hb; [apply reads_ret|]. cbn.
  eapply reads_bind; [apply Hb; left|]. apply IH. intros; apply Hb; by right.
Qed.

Lemma reads_cache {T} (c : CacheSpec PricingDb PricingExt T) (loaded : Z → PricingDb → option T) :
  (∀ w, wpq (loader c) (λ r w', r = Ok (loaded (sql_now w) (db w)) ∧ w' = w) w) →
  (∀ y, same_prices cfg now d y (cache_fill c now y (loaded now d))) →
  (∀ y, same_prices cfg now d x y → cache_view c now y (loaded now d) = cache_view c now x (loaded now d)) →
  reads (cache_get c) (cache_view c now x (loaded now d)).
Proof.
  intros Hload Hfill Hview w (Hc & Hd & Hn & Hs). eapply wpq_mono; [by apply cache_get_quiet|].
  rewrite Hc, Hd. intros r w' [-> ->]. split; [by rewrite Hview|].
  split_and!; [done..|]. cbn. etrans; [exact Hs|apply Hfill].
Qed.

Lemma loader_query {A} (f : Z → PricingDb → option A) (w : World PricingDb PricingExt) :
  wpq (query f) (λ r w', r = Ok (f (sql_now w) (db w)) ∧ w' = w) w.
Proof. by apply wpq_query. Qed.

Lemma reads_live : reads (get_live_pricing cfg) (pt_live shown).
Proof.
  apply (reads_cache _ (λ now d, if has_pool cfg then global_rule now d else None)).
  - intros w. cbn. unfold _load_live_pricing, get_current_pricing. destruct (has_pool cfg); [apply loader_query|by apply wpq_ret].
  - intros y. apply fill_live.
  - intros y Hy. apply Hy.
Qed.

Lemma reads_overrides : reads (get_tool_pricing_overrides cfg) (pt_overrides shown).
Proof.
  intros w (Hc & Hd & Hn & Hs). unfold get_tool_pricing_overrides. apply wpq_bind.
  eapply wpq_mono; [apply (cache_get_quiet _ (λ _ d, Some (if has_pool cfg then override_costs d else ∅)));
    [|done]|].
  { intros w'. cbn. unfold _load_tool_overrides, get_current_tool_overrides.
    destruct (has_pool cfg); [|by apply wpq_ret]. apply wpq_bind, wpq_query, wpq_ret. done. }
  rewrite Hc, Hd. intros r w' [-> ->]. apply wpq_ret. split.
  - f_equal. exact (same_overrides _ _ _ _ _ Hs).
  - split_and!; [done..|]. cbn. etrans; [exact Hs|apply fill_overrides].
Qed.

Lemma reads_platform n : reads (get_platform_tool_price n) (pt_platform shown n).
Proof.
  apply (reads_cache _ (λ _ d, platform_price n d)).
  - intros w. apply loader_query.
  - intros y. apply fill_platform.
  - intros y Hy. apply Hy.
Qed.

Lemma str_in_slash_false q : str_in "/" q = false → split_slash q = (q, "").
Proof. unfold str_in, split_slash. destruct (String.index 0 "/" q); [|done]. by rewrite bool_decide_true. Qed.

Lemma reads_author q : reads (get_org_tool_price_by_qualified_name q) (author_price shown q).
Proof.
  unfold get_org_tool_price_by_qualified_name, author_price.
  destruct (str_in "/" q) eqn:Hq; cbn [negb].
  2: { rewrite (str_in_slash_false q Hq), orb_true_r. apply reads_ret. }
  destruct (split_slash q) as [slug name] eqn:Hsplit. destruct (is_empty slug || is_empty name); [apply reads_ret|].
  cbn [orb]. destruct (String.eqb slug _); [apply reads_ret|].
  intros w (Hc & Hd & Hn & Hs). apply wpq_bind.
  eapply wpq_mono; [apply (cache_get_quiet _ (λ _ d, loaded_org_tool q d)); [|done]|].
  { intros w'. cbn. unfold _load_org_tool_price, loaded_org_tool. rewrite Hsplit. by apply loader_query. }
  rewrite Hc, Hd. intros r w' [-> ->]. apply wpq_ret. split.
  - f_equal. exact (same_org_tool _ _ _ _ _ Hs q).
  - split_and!; [done..|]. cbn. etrans; [exact Hs|apply fill_org_tool].
Qed.

(** The model cache reads as its [model_spec]. *)
Lemma model_redis_read_quiet p m b w :
  wpq (model_redis_read (model_rkey p m b))
    (λ r w', r = Ok (default None <$> redis_hit (model_spec cfg p m b) (clock w) (ext w)) ∧ w' = w) w.
Proof.
  assert (∀ x', x' = ext w → w <| ext := x' |> = w) as Hid by (intros ? ->; by destruct w).
  unfold model_redis_read, get_redis, redis_get, redis_hit. do 4 quiet_step.
  destruct (redis_of (ext w)) as [rm|] eqn:Hm; [|rewrite bool_decide_false by (by intros [? ?]); by quiet_step].
  rewrite bool_decide_true by done. do 3 quiet_step. cbn -[rule_of_text]. cbn in Hm. rewrite Hm. cbn -[rule_of_text].
  destruct (rm !! model_rkey p m b) as [[raw expires]|]; cbn -[rule_of_text]; [|quiet_step; by rewrite Hid].
  destruct (_ <? _); [|quiet_step; by rewrite Hid].
  quiet_step. destruct (rule_of_text raw) as [rule|e]; cbn [lift]; do 2 quiet_step; by rewrite Hid.
Qed.

Lemma fresh_entry_quiet p m b w :
  wpq (fresh_entry (cache_key p m b)) (λ r w', r = Ok (fresh_value (clock w) (slot (model_spec cfg p m b) (ext w))) ∧ w' = w) w.
Proof.
  unfold fresh_entry. do 5 quiet_step. split; [|done]. f_equal. cbn. unfold model_slot, fresh_value.
  destruct (model_pricing_cache (ext w) !! cache_key p m b) as [[rule expires]|]; cbn; by destruct (_ <? _).
Qed.

Lemma model_redis_write_quiet p m b rule w :
  wpq (model_redis_write cfg (model_rkey p m b) rule)
    (λ r w', r = Ok tt ∧ w' = w <| ext := store_redis (model_spec cfg p m b) (clock w) (Some rule) (ext w) |>) w.
Proof. exact (redis_write_quiet (model_spec cfg p m b) (Some rule) w). Qed.

Lemma model_pricing_quiet p m b w :
  is_empty p && is_empty m = false → tx_now w = None →
  wpq (get_live_pricing_for_model cfg p m b) (λ r w', let l := loaded_model cfg p m b (clock w) (db w) in
    r = Ok (default None (cache_view (model_spec cfg p m b) (clock w) (ext w) l)) ∧
    w' = w <| ext := cache_fill (model_spec cfg p m b) (clock w) (ext w) l |>) w.
Proof.
  intros Hpm Hn. unfold get_live_pricing_for_model, cache_view, cache_fill, loaded_model. rewrite Hpm.
  assert (∀ x', x' = ext w → w = w <| ext := x' |>) as Hid by (intros ? ->; by destruct w).
  apply wpq_bind. eapply wpq_mono; [apply model_redis_read_quiet|]. intros r w' [-> ->].
  destruct (redis_hit _ _ _) as [v|]; [apply wpq_ret; split; [done|by apply Hid]|].
  apply wpq_bind. eapply wpq_mono; [apply fresh_entry_quiet|]. intros r w' [-> ->].
  destruct (fresh_value _ _) as [v|] eqn:Hf; [apply wpq_ret; split; [done|by apply Hid]|].
  destruct (has_pool cfg) eqn:Hpool; cbn [negb]; [|apply wpq_ret; split; [done|by apply Hid]].
  apply wpq_bind, wpq_yield_point, wpq_bind. eapply wpq_mono; [apply fresh_entry_quiet|]. intros r w' [-> ->].
  rewrite Hf. apply wpq_bind, wpq_get_ext, wpq_catch, wpq_bind. unfold get_current_pricing_for_model. rewrite Hpool.
  apply wpq_query. unfold sql_now. rewrite Hn. cbn [from_option].
  apply wpq_bind, wpq_datetime_now, wpq_bind, wpq_modify_ext, wpq_bind.
  eapply wpq_mono; [apply model_redis_write_quiet|]. intros r w' [-> ->]. apply wpq_ret. split; [done|]. cbn. by destruct w.
Qed.

Lemma reads_model p m b :
  no_colon p = true → reads (get_live_pricing_for_model cfg p m b) (rule_of_model shown p m b).
Proof.
  intros Hp. unfold rule_of_model. destruct (is_empty p && is_empty m) eqn:Hpm.
  { unfold get_live_pricing_for_model. rewrite Hpm. apply reads_live. }
  intros w (Hc & Hd & Hn & Hs). eapply wpq_mono; [by apply model_pricing_quiet|]. rewrite Hc, Hd.
  intros r w' [-> ->]. split.
  - f_equal. exact (same_model _ _ _ _ _ Hs p m b Hp).
  - split_and!; [done..|]. cbn. etrans; [exact Hs|by apply fill_model].
Qed.

Lemma reads_tool_cost name :
  reads (resolve_tool_cost name (pt_overrides shown) (default_tool_cost shown) (marketplace_enabled cfg))
    (tool_cost cfg shown name).
Proof.
  unfold resolve_tool_cost, tool_cost. destruct (pt_overrides shown !! name); [apply reads_ret|].
  destruct (str_in "/" name).
  - destruct (pt_overrides shown !! _); [apply reads_ret|]. destruct (marketplace_enabled cfg); [|apply reads_ret].
    eapply reads_bind; [apply reads_author|apply reads_ret].
  - destruct (str_in "__" name); [apply reads_ret|]. destruct (marketplace_enabled cfg); [|apply reads_ret].
    eapply reads_bind; [apply reads_platform|apply reads_ret].
Qed.

Lemma foldl_add {A} (f : A → Z) l acc : foldl (λ acc a, acc + f a) acc l = acc + lsum f l.
Proof. revert acc. induction l as [|a l IH]; intros acc; cbn [foldl]; [by rewrite lsum_nil, Z.add_0_r|]. rewrite IH, lsum_cons. lia. Qed.

Lemma reads_tools_cost calls names : reads (calculate_tool_cost_usdc cfg calls names) (tools_cost cfg shown calls names).
Proof.
  unfold calculate_tool_cost_usdc, tools_cost. case_bool_decide as Hnames.
  - subst names. rewrite andb_true_r. cbn [lsum foldr len length Z.of_nat]. rewrite Z.sub_0_r, Z.add_0_l.
    destruct (calls <=? 0) eqn:Hc; case_bool.
    + rewrite Z.max_l by done. apply reads_ret.
    + rewrite Z.max_r by lia. eapply reads_bind; [apply reads_live|]. apply reads_ret.
  - rewrite andb_false_r. eapply reads_bind; [apply reads_live|]. eapply reads_bind; [apply reads_overrides|].
    rewrite <- (Z.add_0_l (lsum _ _)), <- foldl_add. eapply reads_bind; [apply reads_for_each|apply reads_ret].
    intros acc name _. cbv beta. eapply reads_bind; [apply reads_tool_cost|apply reads_ret].
Qed.

Lemma reads_run_cost u provider model :
  no_colon provider = true →
  reads (calculate_run_cost_usdc cfg u provider model) (run_cost cfg shown u provider model).
Proof.
  intros Hp. unfold calculate_run_cost_usdc, run_cost.
  apply (reads_bind _ _ (if negb (is_empty provider) && negb (is_empty model)
    then pt_model shown provider model false else pt_live shown)).
  - destruct (is_empty provider) eqn:Hpe, (is_empty model) eqn:Hme; cbn [negb andb]; try apply reads_live.
    pose proof (reads_model provider model false Hp) as Hr. unfold rule_of_model in Hr. by rewrite Hpe, Hme in Hr.
  - eapply reads_bind; [apply reads_tools_cost|]. apply reads_ret.
Qed.

(** The accumulators of a run's turns. *)
Definition turn_step (acc : Z * gmap string Z) (turn : Turn) : Z * gmap string Z :=
  (acc.1 + metered_cost cfg shown turn,
   match flat_rule cfg shown turn with Some r => add_flat acc.2 r | None => acc.2 end).

Lemma turn_steps turns acc prices :
  foldl turn_step (acc, prices) turns
  = (acc + lsum (metered_cost cfg shown) turns, foldl add_flat prices (omap (flat_rule cfg shown) turns)).
Proof.
  revert acc prices. induction turns as [|turn turns IH]; intros acc prices; cbn [foldl omap list_omap].
  { by rewrite lsum_nil, Z.add_0_r. }
  unfold turn_step at 2. cbn [fst snd]. rewrite IH, lsum_cons. f_equal; [lia|].
  by destruct (flat_rule cfg shown turn).
Qed.

Lemma reads_turns_cost turns :
  (∀ turn, turn ∈ turns → no_colon (t_provider turn) = true) →
  ids_name_rules (omap (flat_rule cfg shown) turns) →
  reads (calculate_turns_token_cost_usdc cfg turns) (turns_cost cfg shown turns).
Proof.
  intros Hp Hids. unfold calculate_turns_token_cost_usdc, turns_cost. rewrite <- flat_prices_sum by done.
  eapply reads_bind.
  - apply (reads_for_each _ _ _ turn_step). intros [cost prices] turn Hturn. unfold turn_step, metered_cost, flat_rule, turn_rule.
    cbn [fst snd]. destruct (upstream_turn_cost_usdc cfg turn); [apply reads_ret|].
    eapply reads_bind; [by apply reads_model, Hp|].
    destruct (rule_of_model shown _ _ _) as [rule|]; cbn; [|rewrite Z.add_0_r; apply reads_ret].
    destruct (is_flat_rate rule); [rewrite Z.add_0_r|]; apply reads_ret.
  - rewrite turn_steps. cbn. apply reads_ret.
Qed.
End reads.

(** ** Claims *)
Section claims.
Context `{TextCodecOk PricingRule, TextCodecOk (gmap string Z)} (cfg : PricingSettings).

Definition prices_of (w : World PricingDb PricingExt) : PriceTable := shown cfg (clock w) (db w) (ext w).

Definition repriced (w w' : World PricingDb PricingExt) : Prop :=
  db w' = db w ∧ clock w' = clock w ∧ same_prices cfg (clock w) (db w) (ext w) (ext w').

Lemma reads_quiet {A} (m : PH A) v w :
  tx_now w = None → reads cfg (clock w) (db w) (ext w) m v → wpq m (λ r w', r = Ok v ∧ repriced w w') w.
Proof.
  intros Hn Hm. eapply wpq_mono; [apply Hm; by split_and!|]. intros r w' (-> & ? & ? & ? & ?). by split_and!.
Qed.

(** The cost of a run is the reference cost of the prices shown: whatever the
    caches and Redis hold, [calculate_run_cost_usdc] returns the tokens at the rule of
    the model plus every named tool call at the price of its tool and every other call
    at the default, and leaves all prices as they were.  A model's rule never changes a
    tool's price. *)
Theorem run_cost_matches_prices u provider model w :
  tx_now w = None → no_colon provider = true →
  wpq (calculate_run_cost_usdc cfg u provider model)
    (λ r w', r = Ok (run_cost cfg (prices_of w) u provider model) ∧ repriced w w') w.
Proof. intros Hn Hp. by apply reads_quiet, reads_run_cost. Qed.

(** The token cost of a run's turns is the sum of its metered turns plus each
    distinct flat rule once, however many turns used it and in whatever order: it
    equals the reference, which is the same for every reordering of the turns. *)
Theorem turns_cost_matches_prices turns w :
  tx_now w = None → (∀ turn, turn ∈ turns → no_colon (t_provider turn) = true) →
  ids_name_rules (omap (flat_rule cfg (prices_of w)) turns) →
  wpq (calculate_turns_token_cost_usdc cfg turns)
    (λ r w', r = Ok (turns_cost cfg (prices_of w) turns) ∧ repriced w w') w ∧
  ∀ turns', turns ≡ₚ turns' → turns_cost cfg (prices_of w) turns' = turns_cost cfg (prices_of w) turns.
Proof.
  intros Hn Hp Hids. split; [by apply reads_quiet, reads_turns_cost|]. intros turns' Hperm. unfold turns_cost. f_equal.
  - symmetry. by apply lsum_perm.
  - apply lsum_perm, NoDup_Permutation; [apply NoDup_remove_dups..|]. intros r.
    rewrite !elem_of_remove_dups, !list_elem_of_omap. by setoid_rewrite Hperm.
Qed.
End claims.

(** ** The rule query *)

Lemma rule_leb_spec p m a b :
  rule_leb p m a b = true ↔
  specificity p m a < specificity p m b ∨
  (specificity p m a = specificity p m b ∧ effective_from (rr_rule b) ≤ effective_from (rr_rule a)).
Proof. unfold rule_leb. by rewrite orb_true_iff, andb_true_iff, Z.ltb_lt, Z.eqb_eq, Z.leb_le. Qed.

Lemma rule_leb_total p m a b : rule_leb p m a b = false → rule_leb p m b a = true.
Proof. intros Hab. apply rule_leb_spec. apply not_true_iff_false in Hab. rewrite rule_leb_spec in Hab. lia. Qed.

(** The head of a sorted query is below every row. *)
Lemma order_by_head {A} (leb : A → A → bool) l a b :
  (∀ x y, leb x y = false → leb y x = true) → (∀ x y z, leb x y = true → leb y z = true → leb x z = true) →
  head (order_by leb l) = Some a → b ∈ l → b = a ∨ leb a b = true.
Proof.
  intros Htot Htrans Hh Hb. rewrite <- (elem_of_order_by leb) in Hb.
  pose proof (order_by_sorted leb l Htot) as Hs. apply Sorted_StronglySorted in Hs; [|intros x y z; apply Htrans].
  destruct (order_by leb l) as [|a' l']; [done|]. injection Hh as ->. apply StronglySorted_inv in Hs as [_ Hs].
  apply elem_of_cons in Hb as [->|Hb]; [by left|right]. rewrite List.Forall_forall in Hs. apply Hs. by apply list_elem_of_In.
Qed.

Lemma head_limit_one {A} (l : list A) : head (limit 1 l) = head l.
Proof. by destruct l. Qed.

(** The rule query returns a rule in force for the model, the provider or everyone,
    in this order of preference, and among equally specific rules the one that took
    effect last; it returns nothing only when no rule applies, and with [exact_match]
    only the model's own. *)
Theorem rule_query_most_specific cfg provider model is_byok exact_match w :
  has_pool cfg = true →
  wpq (get_current_pricing_for_model cfg provider model is_byok exact_match)
    (λ r w', w' = w ∧
      let applies row := rule_matches provider model is_byok exact_match (sql_now w) row = true in
      match r with
      | Ok None => ∀ row, row ∈ pricing_rules (db w) → ¬ applies row
      | Ok (Some rule) => ∃ row, row ∈ pricing_rules (db w) ∧ rr_rule row = rule ∧ applies row ∧
          (exact_match = true → rr_provider row = provider ∧ rr_model row = model) ∧
          ∀ row', row' ∈ pricing_rules (db w) → applies row' →
            specificity provider model row ≤ specificity provider model row' ∧
            (specificity provider model row = specificity provider model row' →
             effective_from (rr_rule row') ≤ effective_from rule)
      | Raise _ => False
      end) w.
Proof.
  intros Hpool. unfold get_current_pricing_for_model. rewrite Hpool. apply wpq_query. split; [done|]. unfold model_rule.
  rewrite head_limit_one. set (rows := filter _ _).
  assert (∀ row, row ∈ rows ↔ rule_matches provider model is_byok exact_match (sql_now w) row = true ∧
    row ∈ pricing_rules (db w)) as Hrows by (intros r; unfold rows; by rewrite list_elem_of_filter).
  destruct (head (order_by (rule_leb provider model) rows)) as [row|] eqn:Hh; cbn.
  - assert (row ∈ rows) as Hrow by (by eapply elem_of_order_by, head_Some_elem_of).
    apply Hrows in Hrow as [Happ Hin]. exists row. split_and!; [done..| |].
    + intros ->. unfold rule_matches in Happ. cbn in Happ. case_bool. done.
    + intros row' Hin' Happ'. assert (row' ∈ rows) as Hrow' by (by apply Hrows).
      destruct (order_by_head _ _ _ _ (rule_leb_total provider model)
        ltac:(intros x y z; rewrite !rule_leb_spec; lia) Hh Hrow') as [->|Hle]; [done|].
      apply rule_leb_spec in Hle. lia.
  - intros row Hin Happ. assert (row ∈ rows) as Hrow by (by apply Hrows).
    apply (elem_of_order_by (rule_leb provider model)) in Hrow. destruct (order_by _ _); [by apply elem_of_nil in Hrow|done].
Qed.

(** ** A table with a model rule, a provider fallback and a global flat rule *)
Module PricingDemo.
Fixpoint pos_text (p : positive) : string :=
  match p with
  | xH => "1"
  | xO p => String "0"%char (pos_text p)
  | xI p => String "2"%char (pos_text p)
  end.
Fixpoint text_pos (s : string) : option positive :=
  match s with
  | EmptyString => None
  | String c EmptyString => if bool_decide (c = "1"%char) then Some xH else None
  | String c s =>
      if bool_decide (c = "0"%char) then xO <$> text_pos s
      else if bool_decide (c = "2"%char) then xI <$> text_pos s else None
  end.
Lemma text_pos_text p : text_pos (pos_text p) = Some p.
Proof.
  induction p as [p IH|p IH|]; [| |done].
  - change (text_pos (pos_text p~1)) with (match pos_text p with EmptyString => None | _ => xI <$> text_pos (pos_text p) end).
    rewrite IH. by destruct p.
  - change (text_pos (pos_text p~0)) with (match pos_text p with EmptyString => None | _ => xO <$> text_pos (pos_text p) end).
    rewrite IH. by destruct p.
Qed.

#[export] Instance countable_text T `{Countable T} : TextCodec T := {|
  to_text v := pos_text (encode v);
  of_text s := match text_pos s with Some p => Ok (decode p) | None => Raise (ValueError "text") end |}.
#[export] Instance countable_text_ok T `{Countable T} : TextCodecOk T.
Proof.
  split; intros v; cbn.
  - by rewrite text_pos_text, decode_encode.
  - by destruct (encode v).
Qed.
#[export] Instance rule_countable : Countable PricingRule.
Proof.
  apply (inj_countable'
    (λ r, (rule_id r, rule_name r, run_price_usdc r, tokens_in_cost_per_1k r, tokens_out_cost_per_1k r, tool_call_cost r,
           effective_from r, rule_created_at r))
    (λ '(a, b, c, d, e, f, g, h), MkPricingRule a b c d e f g h)).
  by intros [].
Defined.

Definition flat := MkPricingRule "flat" "Flat run" 10000 0 0 0 0 0.
Definition sonnet := MkPricingRule "sonnet" "Sonnet" 0 3000 15000 100 10 10.
Definition sonnet_old := MkPricingRule "sonnet-0" "Sonnet" 0 9000 9000 100 5 5.
Definition rules : list RuleRow :=
  [MkRuleRow flat "" "" false; MkRuleRow sonnet_old "anthropic" "sonnet" false; MkRuleRow sonnet "anthropic" "sonnet" false].
Definition pricing_db : PricingDb :=
  MkPricingDb rules {["web_search" := (15000, "")]} {["get_price" := (2000, true)]}
    [MkOrgToolRow "acme" "my__tool" (Some 700) true true].
Definition settings : PricingSettings :=
  MkPricingSettings 60 true true (MkDecimal 12 (-1)) (MkDecimal 55 (-3)) 500 true.
Definition empty_caches : PricingExt := MkPricingExt empty_slot empty_slot ∅ ∅ ∅ (Some ∅).
Definition start : World PricingDb PricingExt := MkWorld pricing_db empty_caches 1000 None [] 0%nat.
Definition usage : Usage := MkUsage 1500 301 40 4 ["web_search"; "acme/my__tool"; "server__tool"].
Definition turns : list Turn :=
  [MkTurn "anthropic" "sonnet" 1000 100 0 None; MkTurn "" "" 5 5 0 None; MkTurn "openrouter" "x:free" 9 9 0 (Some (MkDecimal 1 (-9)));
   MkTurn "google" "flash" 7 7 0 None].

Example run_price : (calculate_run_cost_usdc settings usage "anthropic" "sonnet" start).1 = Ok (9045 + 15000 + 700 + 0).
Proof. vm_compute. reflexivity. Qed.
Example turns_price : (calculate_turns_token_cost_usdc settings turns start).1 = Ok (4500 + 1 + 10000).
Proof. vm_compute. reflexivity. Qed.
End PricingDemo.
Import PricingDemo.

Lemma run_cost_matches_prices_witness :
  run_cost PricingDemo.settings (prices_of PricingDemo.settings PricingDemo.start) PricingDemo.usage "anthropic" "sonnet" = 24745 ∧
  wpq (calculate_run_cost_usdc PricingDemo.settings PricingDemo.usage "anthropic" "sonnet")
    (λ r w', r = Ok (run_cost PricingDemo.settings (prices_of PricingDemo.settings PricingDemo.start) PricingDemo.usage "anthropic" "sonnet")
       ∧ repriced PricingDemo.settings PricingDemo.start w') PricingDemo.start.
Proof.
  split; [vm_compute; reflexivity|].
  exact (run_cost_matches_prices PricingDemo.settings PricingDemo.usage "anthropic" "sonnet" PricingDemo.start eq_refl eq_refl).
Defined.

Lemma turns_cost_matches_prices_witness :
  turns_cost PricingDemo.settings (prices_of PricingDemo.settings PricingDemo.start) (rev PricingDemo.turns) = 14501.
Proof.
  assert (omap (flat_rule PricingDemo.settings (prices_of PricingDemo.settings PricingDemo.start)) PricingDemo.turns
    = [PricingDemo.flat; PricingDemo.flat]) as Hflat by (vm_compute; reflexivity).
  rewrite (proj2 (turns_cost_matches_prices PricingDemo.settings PricingDemo.turns PricingDemo.start eq_refl
    ltac:(intros t Ht; repeat (apply elem_of_cons in Ht as [->|Ht]; [reflexivity|]); by apply elem_of_nil in Ht)
    ltac:(rewrite Hflat; intros r r' Hr Hr' _; set_solver))); [vm_compute; reflexivity|apply Permutation_rev].
Defined.

Lemma rule_query_most_specific_witness :
  wpq (get_current_pricing_for_model PricingDemo.settings "anthropic" "sonnet" false true)
    (λ r w', r = Ok (Some PricingDemo.sonnet)) PricingDemo.start.
Proof.
  intros Hq. pose proof (rule_query_most_specific PricingDemo.settings "anthropic" "sonnet" false true PricingDemo.start eq_refl Hq) as H.
  assert (get_current_pricing_for_model PricingDemo.settings "anthropic" "sonnet" false true PricingDemo.start
    = (Ok (Some PricingDemo.sonnet), PricingDemo.start)) as Hrun by (vm_compute; reflexivity).
  rewrite Hrun in *. split; [exact (proj1 H)|reflexivity].
Defined.
