(* ===== verification/Templating.v ===== *)
(** * Prompt templates of event triggers (scheduling/templating.py)

    [render_event_prompt] replaces the [{{name}}] slots of a stored template by
    values of an untrusted payload.  The regular expression is a scanner over the
    characters; the theorem of this file is that the slots are those of the
    template alone: text of the payload is never scanned for slots. *)

From S2P Require Export Canonical.

Definition _VALUE_MAX_CHARS : Z := 4000.

(** [s[:n]] *)
Definition py_take {A} (n : Z) (l : list A) : list A :=
  if n <? 0 then take (length l - Z.to_nat (- n)) l else take (Z.to_nat n) l.

(** [\s] and [[a-zA-Z0-9_]] *)
Definition re_space (c : Ascii.ascii) : bool :=
  let n := byte_val c in is_space c || (n =? 133) || (n =? 160).
Definition re_word (c : Ascii.ascii) : bool :=
  let n := byte_val c in
  ((97 <=? n) && (n <=? 122)) || ((65 <=? n) && (n <=? 90)) || ((48 <=? n) && (n <=? 57)) || (n =? 95).

(** The longest prefix of characters of a class, and the rest. *)
Fixpoint span (p : Ascii.ascii → bool) (l : text) : text * text :=
  match l with
  | c :: l' => if p c then let '(a, b) := span p l' in (c :: a, b) else ([], l)
  | [] => ([], [])
  end.

Definition open_brace : Ascii.ascii := byte_of 123.
Definition close_brace : Ascii.ascii := byte_of 125.

(** [_PLACEHOLDER.match(l)]: the group and the length of the match. *)
Definition match_placeholder (l : text) : option (text * nat) :=
  match l with
  | a :: b :: l1 =>
      if bool_decide (a = open_brace) && bool_decide (b = open_brace) then
        let '(sp1, l2) := span re_space l1 in
        let '(name, l3) := span re_word l2 in
        let '(sp2, l4) := span re_space l3 in
        match l4 with
        | c :: d :: _ =>
            if bool_decide (c = close_brace) && bool_decide (d = close_brace) && negb (bool_decide (name = []))
            then Some (name, 4 + length sp1 + length name + length sp2)%nat
            else None
        | _ => None
        end
      else None
  | _ => None
  end.

(** [_PLACEHOLDER.sub(f, l)], left to right; [skip] characters of a match remain. *)
Fixpoint placeholder_sub (f : text → text) (skip : nat) (l : text) : text :=
  match l with
  | [] => []
  | c :: l' =>
      match skip with
      | S n => placeholder_sub f n l'
      | O =>
          match match_placeholder l with
          | Some (name, n) => f name ++ placeholder_sub f (n - 1) l'
          | None => c :: placeholder_sub f 0 l'
          end
      end
  end.

Section render.
Context (float_repr : Z → positive → string).

Definition _coerce_scalar (value : option json) : text :=
  match value with
  | Some (JBool b) => if b then encode_ascii "true" else encode_ascii "false"
  | Some (JInt z) => encode_ascii (pretty z)
  | Some (JFloat n d) => encode_ascii (float_repr n d)
  | Some (JStr s) => py_take _VALUE_MAX_CHARS (encode_ascii s)
  | _ => []
  end.

Definition payload_items (payload : json) : list (string * json) :=
  match payload with JObj kvs => kvs | _ => [] end.

Definition event_json (payload : json) : text := py_take _VALUE_MAX_CHARS (print float_repr payload).

Definition slot_value (payload : json) (name : text) : text :=
  if bool_decide (name = encode_ascii "event_json") then event_json payload
  else _coerce_scalar (dict_get (payload_items payload) (String.string_of_list_ascii name)).

Definition render_event_prompt (template : string) (payload : json) (max_chars : Z) : string :=
  String.string_of_list_ascii
    (py_take max_chars (placeholder_sub (slot_value payload) 0 (encode_ascii template))).
End render.

(** ** The segments of a template *)
Inductive segment := Literal (c : Ascii.ascii) | Slot (name source : text).

Fixpoint segments (skip : nat) (l : text) : list segment :=
  match l with
  | [] => []
  | c :: l' =>
      match skip with
      | S n => segments n l'
      | O =>
          match match_placeholder l with
          | Some (name, n) => Slot name (take n l) :: segments (n - 1) l'
          | None => Literal c :: segments 0 l'
          end
      end
  end.

Definition source (s : segment) : text := match s with Literal c => [c] | Slot _ t => t end.
Definition value_of (f : text → text) (s : segment) : text := match s with Literal c => [c] | Slot name _ => f name end.

(** [{{] spaces name spaces [}}], as the regular expression has it. *)
Definition slot_shape (s : segment) : Prop :=
  match s with
  | Literal _ => True
  | Slot name t =>
      ∃ sp1 sp2, t = [open_brace; open_brace] ++ sp1 ++ name ++ sp2 ++ [close_brace; close_brace] ∧
                 name ≠ [] ∧ Forall (λ c, re_word c = true) name ∧ Forall (λ c, re_space c = true) (sp1 ++ sp2)
  end.

Lemma span_spec p l : let '(a, b) := span p l in l = a ++ b ∧ Forall (λ c, p c = true) a.
Proof.
  induction l as [|c l IH]; [done|]. cbn. destruct (p c) eqn:Hp; [|done].
  destruct (span p l) as [a b]. destruct IH as [-> Ha]. split; [done|]. by constructor.
Qed.

Lemma match_placeholder_spec l name n :
  match_placeholder l = Some (name, n) →
  (1 ≤ n ≤ length l)%nat ∧ slot_shape (Slot name (take n l)).
Proof.
  destruct l as [|a [|b l1]]; [done..|]. cbn.
  destruct (bool_decide _ && bool_decide _) eqn:Hb; [|done]. case_bool. subst.
  pose proof (span_spec re_space l1) as H1. destruct (span re_space l1) as [sp1 l2]. destruct H1 as [-> H1].
  pose proof (span_spec re_word l2) as H2. destruct (span re_word l2) as [nm l3]. destruct H2 as [-> H2].
  pose proof (span_spec re_space l3) as H3. destruct (span re_space l3) as [sp2 l4]. destruct H3 as [-> H3].
  destruct l4 as [|c [|d l5]]; [done..|]. destruct (_ && _) eqn:Hc; [|done]. intros [= <- <-]. case_bool. subst.
  split; [rewrite !length_app; cbn; lia|]. exists sp1, sp2.
  split_and!; [|done..|by apply Forall_app]. cbn. do 2 f_equal.
  replace (S (S (length sp1 + length nm + length sp2))) with (length (sp1 ++ nm ++ sp2) + 2)%nat
    by (rewrite !length_app; lia).
  rewrite !app_assoc, <- (app_assoc sp1 nm sp2), take_app_add. done.
Qed.

Lemma placeholder_sub_segments f skip l : placeholder_sub f skip l = segments skip l ≫= value_of f.
Proof.
  revert skip. induction l as [|c l IH]; intros [|skip]; cbn [placeholder_sub segments]; [done..| |apply IH].
  destruct (match_placeholder (c :: l)) as [[name n]|]; cbn; by rewrite IH.
Qed.

Lemma segments_source skip l : (skip ≤ length l)%nat → segments skip l ≫= source = drop skip l.
Proof.
  revert skip. induction l as [|c l IH]; intros skip Hskip; [by destruct skip|].
  destruct skip as [|skip]; cbn [segments]; [|apply IH; cbn in Hskip; lia].
  destruct (match_placeholder (c :: l)) as [[name n]|] eqn:Hm; [|cbn; by rewrite IH by lia].
  apply match_placeholder_spec in Hm as [Hn _]. cbn [length] in Hn. destruct n as [|n]; [lia|].
  cbn. rewrite Nat.sub_0_r, IH by lia. by rewrite take_drop.
Qed.

Lemma segments_shape skip l : Forall slot_shape (segments skip l).
Proof.
  revert skip. induction l as [|c l IH]; intros [|skip]; cbn [segments]; [done..| |apply IH].
  destruct (match_placeholder (c :: l)) as [[name n]|] eqn:Hm; constructor; [|apply IH|done|apply IH].
  by apply match_placeholder_spec in Hm as [_ ?].
Qed.

Lemma length_py_take {A} n (l : list A) : 0 ≤ n → (length (py_take n l) ≤ Z.to_nat n)%nat.
Proof. intros. unfold py_take. destruct (n <? 0) eqn:E; case_bool; [lia|]. rewrite length_take. lia. Qed.

(** A prompt is rendered slot by slot: the template splits, by itself, into
    literal characters and [{{name}}] slots whose sources concatenate back to it;
    the prompt is, up to [max_chars], the concatenation of the literals and of the
    slots' values.  So whatever a payload contains, its text is copied and never
    scanned for slots, and a text value or the payload's JSON contributes at most
    [_VALUE_MAX_CHARS] characters per slot. *)
Theorem render_is_single_pass (float_repr : Z → positive → string) (template : string) :
  ∃ segs, segs ≫= source = encode_ascii template ∧ Forall slot_shape segs ∧
    ∀ payload max_chars,
      encode_ascii (render_event_prompt float_repr template payload max_chars)
        = py_take max_chars (segs ≫= value_of (slot_value float_repr payload)) ∧
      (0 ≤ max_chars → len (encode_ascii (render_event_prompt float_repr template payload max_chars)) ≤ max_chars) ∧
      len (slot_value float_repr payload (encode_ascii "event_json")) ≤ _VALUE_MAX_CHARS ∧
      ∀ name s, dict_get (payload_items payload) name = Some (JStr s) →
        len (slot_value float_repr payload (encode_ascii name)) ≤ _VALUE_MAX_CHARS.
Proof.
  exists (segments 0 (encode_ascii template)). split_and!; [by apply segments_source; lia|apply segments_shape|].
  intros payload max_chars.
  assert (encode_ascii (render_event_prompt float_repr template payload max_chars)
    = py_take max_chars (segments 0 (encode_ascii template) ≫= value_of (slot_value float_repr payload))) as Hr.
  { unfold render_event_prompt, encode_ascii at 1. rewrite String.list_ascii_of_string_of_list_ascii.
    by rewrite placeholder_sub_segments. }
  assert (∀ n (l : text), 0 ≤ n → len (py_take n l) ≤ n) as Htake.
  { intros n l Hn. unfold len. pose proof (length_py_take n l Hn). lia. }
  split_and!; [done| | |].
  - intros Hmax. rewrite Hr. by apply Htake.
  - unfold slot_value. rewrite bool_decide_true by done. by apply Htake.
  - intros name s Hget. unfold slot_value. case_bool_decide; [by apply Htake|].
    unfold encode_ascii. rewrite String.string_of_list_ascii_of_string, Hget. by apply Htake.
Qed.

Example render_ex :
  render_event_prompt (λ _ _, "") "{{{ a }}|{{b}}|{{c}}|{{ d}"
    (JObj [("a", JStr "{{b}}"); ("b", JInt (-7)); ("event_json", JNull)]) 100 = "{{{b}}|-7||{{ d}".
Proof. reflexivity. Qed.
Example render_event_json :
  render_event_prompt (λ _ _, "") "<{{event_json}}>" (JObj [("k", JArr [JBool true; JStr "x"])]) 100
  = String.string_of_list_ascii (encode_ascii "<" ++ print (λ _ _, "") (JObj [("k", JArr [JBool true; JStr "x"])])
      ++ encode_ascii ">").
Proof. reflexivity. Qed.

Lemma render_is_single_pass_witness :
  ∃ segs, segs ≫= source = encode_ascii "Hi {{name}}!" ∧
    encode_ascii (render_event_prompt (λ _ _, "") "Hi {{name}}!" (JObj [("name", JStr "{{x}}")]) 9)
      = py_take 9 (segs ≫= value_of (slot_value (λ _ _, "") (JObj [("name", JStr "{{x}}")]))) ∧
    len (encode_ascii (render_event_prompt (λ _ _, "") "Hi {{name}}!" (JObj [("name", JStr "{{x}}")]) 9)) ≤ 9.
Proof.
  destruct (render_is_single_pass (λ _ _, "") "Hi {{name}}!") as (segs & Hsrc & _ & H).
  destruct (H (JObj [("name", JStr "{{x}}")]) 9) as (Hr & Hlen & _). exists segs.
  split; [exact Hsrc|]. split; [exact Hr|]. apply Hlen. lia.
Defined.
