(* ===== verification/Scheduling.v ===== *)
(** * Scheduled runs and event dispatch (scheduling/crud.py, scheduling/runner.py,
      teardrop/routers/agent_event_triggers.py)

    Interval schedules are claimed when due; event triggers are dispatched at most
    once per idempotency key under a lease, and may chain to another trigger.  The
    theorems: dispatches are settled at most once, whatever fails and whoever
    recovers them; chains end even when triggers point back to each other; what a
    reservation, a recovery and a claim of due schedules do, on every branch.

    The agent run itself, its credit check, the callback, labelling ingestion and the
    X client are parameters with arbitrary answers. *)

From S2P Require Export Templating.

(** ** Tables *)
Inductive schedule_kind := Interval | EventTrigger.
#[export] Instance schedule_kind_eq_dec : EqDecision schedule_kind.
Proof. solve_decision. Defined.

Record ScheduleRow := MkScheduleRow {
  sr_org : string;
  sr_user : string;
  sr_name : string;
  sr_prompt : string;
  sr_kind : schedule_kind;
  sr_interval : option Z;
  sr_enabled : bool;
  sr_callback_url : option string;
  sr_callback_format : string;
  sr_trigger_token : option string;
  sr_secret_hash : option string;
  sr_next_trigger : option string;
  sr_next_run : option Z;
  sr_last_run : option Z;
  sr_failures : Z;
  sr_created : Z;
  sr_updated : Z;
}.
#[export] Instance eta_ScheduleRow : Eta ScheduleRow := λ r,
  MkScheduleRow (sr_org r) (sr_user r) (sr_name r) (sr_prompt r) (sr_kind r) (sr_interval r) (sr_enabled r)
    (sr_callback_url r) (sr_callback_format r) (sr_trigger_token r) (sr_secret_hash r) (sr_next_trigger r)
    (sr_next_run r) (sr_last_run r) (sr_failures r) (sr_created r) (sr_updated r).

Record RunResult := MkRunResult {
  rr_id : string;
  rr_schedule : string;
  rr_org : string;
  rr_run : string;
  rr_status : string;
  rr_output : string;
  rr_cost : Z;
  rr_error : string;
  rr_created : Z;
}.

Record KeyRow := MkKeyRow { k_run : string; k_chain : string; k_hop : Z }.

Inductive lease_status := LReserved | LRunning | LCompleted | LFailed.
#[export] Instance lease_status_eq_dec : EqDecision lease_status.
Proof. solve_decision. Defined.

Record LeaseRow := MkLeaseRow {
  le_schedule : string;
  le_org : string;
  le_key : string;
  le_owner : string;
  le_status : lease_status;
  le_expires : Z;
  le_started : option Z;
  le_finished : option Z;
  le_error : string;
}.
#[export] Instance eta_LeaseRow : Eta LeaseRow := λ r,
  MkLeaseRow (le_schedule r) (le_org r) (le_key r) (le_owner r) (le_status r) (le_expires r) (le_started r)
    (le_finished r) (le_error r).

Inductive event_type :=
  TriggerCreated | TriggerUpdated | TriggerDeleted | SecretRotated | SecretRejected
  | DispatchAccepted | DispatchDuplicate | RunSettled | ChainDispatchSkipped.
#[export] Instance event_type_eq_dec : EqDecision event_type.
Proof. solve_decision. Defined.

Record EventRow := MkEventRow {
  ev_id : string;
  ev_schedule : string;
  ev_org : string;
  ev_run : string;
  ev_type : event_type;
  ev_status : string;
  ev_cost : Z;
  ev_error : string;
}.

(** A reserved X broadcast: its schedule, organisation and tweet. *)
Record BroadcastRow := MkBroadcastRow { bc_schedule : string; bc_org : string; bc_tweet : string }.

Record SchedDb := MkSchedDb {
  schedules : gmap string ScheduleRow;
  run_results : list RunResult;
  dispatch_keys : gmap (string * string) KeyRow;
  leases : gmap string LeaseRow;
  trigger_events : list EventRow;
  broadcasts : gmap string BroadcastRow;
}.
#[export] Instance eta_SchedDb : Eta SchedDb := λ d,
  MkSchedDb (schedules d) (run_results d) (dispatch_keys d) (leases d) (trigger_events d) (broadcasts d).

(** [ScheduledRun] as the code passes it around: a row with its id. *)
Abbreviation ScheduledRun := (string * ScheduleRow)%type.

(** A background task of [_pending_event_tasks] that has not started yet, and the
    tweets that reached X (run and text). *)
Record Task := MkTask {
  t_schedule : ScheduledRun;
  t_prompt : string;
  t_run : string;
  t_lease_seconds : Z;
  t_chain : string;
  t_hop : Z;
}.

Record Process := MkProcess { tasks : list Task; tweets : list (string * string) }.
#[export] Instance eta_Process : Eta Process := λ p, MkProcess (tasks p) (tweets p).

Abbreviation SH := (M SchedDb Process).

(** ** Statements *)
Definition schedule_checks (r : ScheduleRow) : bool :=
  match sr_interval r with Some n => 0 <? n | None => true end
  && (bool_decide (sr_kind r ≠ EventTrigger) || (bool_decide (is_Some (sr_trigger_token r)) && bool_decide (is_Some (sr_secret_hash r))))
  && (bool_decide (sr_next_trigger r = None) || bool_decide (sr_kind r = EventTrigger))
  && bool_decide (sr_callback_format r ∈ ["json"; "text"; "x"])
  && (bool_decide (sr_callback_format r ≠ "x") || bool_decide (sr_callback_url r = None)).

Definition token_taken (d : SchedDb) (token : option string) : bool :=
  match token with
  | Some t => existsb (λ kv, bool_decide (sr_trigger_token kv.2 = Some t)) (map_to_list (schedules d))
  | None => false
  end.

Definition insert_schedule (id : string) (r : ScheduleRow) (d : SchedDb) : res (ScheduleRow * SchedDb) :=
  if negb (schedule_checks r) then Raise CheckViolation
  else if bool_decide (is_Some (schedules d !! id)) || token_taken d (sr_trigger_token r) then Raise UniqueViolation
  else
    match sr_next_trigger r with
    | Some next =>
        if bool_decide (is_Some (schedules d !! next)) then Ok (r, d <| schedules ::= <[id := r]> |>)
        else Raise ForeignKeyViolation
    | None => Ok (r, d <| schedules ::= <[id := r]> |>)
    end.

(** [UPDATE scheduled_runs SET ... WHERE id = ... AND guard RETURNING ...] *)
Definition update_schedule (id : string) (guard : ScheduleRow → bool) (f : ScheduleRow → ScheduleRow) (d : SchedDb)
    : res (option ScheduleRow * SchedDb) :=
  match schedules d !! id with
  | Some r =>
      if guard r then
        if negb (schedule_checks (f r)) then Raise CheckViolation
        else
          match sr_next_trigger (f r) with
          | Some next =>
              if bool_decide (is_Some (schedules d !! next)) then Ok (Some (f r), d <| schedules ::= <[id := f r]> |>)
              else Raise ForeignKeyViolation
          | None => Ok (Some (f r), d <| schedules ::= <[id := f r]> |>)
          end
      else Ok (None, d)
  | None => Ok (None, d)
  end.

(** [ON DELETE CASCADE] of results, keys and leases, [SET NULL] of chained triggers. *)
Definition delete_schedule (id : string) (d : SchedDb) : SchedDb :=
  MkSchedDb
    ((λ r, if bool_decide (sr_next_trigger r = Some id) then r <| sr_next_trigger := None |> else r)
       <$> delete id (schedules d))
    (filter (λ r, rr_schedule r ≠ id) (run_results d))
    (filter (λ kv, kv.1.1 ≠ id) (dispatch_keys d))
    (filter (λ kv, le_schedule kv.2 ≠ id) (leases d))
    (trigger_events d) (broadcasts d).

Definition RESULT_STATUSES : list string := ["completed"; "failed"; "timeout"; "skipped"].

Definition find_result (schedule run : string) (d : SchedDb) : option RunResult :=
  find (λ r, bool_decide (rr_schedule r = schedule) && bool_decide (rr_run r = run)) (run_results d).

(** [WHERE schedule_id = ... AND org_id = ... AND run_id = ...], at most one row by the
    unique index on (schedule_id, run_id). *)
Definition find_org_result (schedule org run : string) (d : SchedDb) : option RunResult :=
  r ← find_result schedule run d; if bool_decide (rr_org r = org) then Some r else None.

Definition insert_result (r : RunResult) (d : SchedDb) : res (RunResult * SchedDb) :=
  if negb (bool_decide (rr_status r ∈ RESULT_STATUSES)) then Raise CheckViolation
  else if negb (is_bigint (rr_cost r)) then Raise DataError
  else if existsb (λ r', bool_decide (rr_id r' = rr_id r)) (run_results d)
          || bool_decide (is_Some (find_result (rr_schedule r) (rr_run r) d)) then Raise UniqueViolation
  else if negb (bool_decide (is_Some (schedules d !! rr_schedule r))) then Raise ForeignKeyViolation
  else Ok (r, d <| run_results ::= λ l, l ++ [r] |>).

(** [ON CONFLICT (schedule_id, run_id) DO NOTHING RETURNING ...] *)
Definition insert_result_once (r : RunResult) (d : SchedDb) : res (option RunResult * SchedDb) :=
  if bool_decide (is_Some (find_result (rr_schedule r) (rr_run r) d)) then Ok (None, d)
  else '(r, d) ← insert_result r d; Ok (Some r, d).

Definition insert_event (e : EventRow) (d : SchedDb) : res (unit * SchedDb) :=
  if ev_cost e <? 0 then Raise CheckViolation
  else if negb (is_bigint (ev_cost e)) then Raise DataError
  else if existsb (λ e', bool_decide (ev_id e' = ev_id e)) (trigger_events d) then Raise UniqueViolation
  else Ok (tt, d <| trigger_events ::= λ l, l ++ [e] |>).

Definition key_conflict (schedule key : string) (k : KeyRow) (d : SchedDb) : bool :=
  bool_decide (is_Some (dispatch_keys d !! (schedule, key)))
  || existsb (λ kv, bool_decide (k_chain kv.2 = k_chain k) && (k_hop kv.2 =? k_hop k)) (map_to_list (dispatch_keys d)).

Definition insert_key (schedule key : string) (k : KeyRow) (d : SchedDb) : res (unit * SchedDb) :=
  if negb ((0 <=? k_hop k) && ((0 <? k_hop k) || String.eqb (k_chain k) (k_run k))) then Raise CheckViolation
  else if 32767 <? k_hop k then Raise DataError
  else if key_conflict schedule key k d then Raise UniqueViolation
  else if negb (bool_decide (is_Some (schedules d !! schedule))) then Raise ForeignKeyViolation
  else Ok (tt, d <| dispatch_keys ::= <[(schedule, key) := k]> |>).

Definition insert_lease (run : string) (l : LeaseRow) (d : SchedDb) : res (unit * SchedDb) :=
  if bool_decide (is_Some (leases d !! run)) then Raise UniqueViolation
  else if negb (bool_decide (is_Some (dispatch_keys d !! (le_schedule l, le_key l)))) then Raise ForeignKeyViolation
  else Ok (tt, d <| leases ::= <[run := l]> |>).

(** [UPDATE event_dispatch_leases SET ... WHERE run_id = ... AND guard] *)
Definition update_lease (run : string) (guard : LeaseRow → bool) (f : LeaseRow → LeaseRow) (d : SchedDb)
    : bool * SchedDb :=
  match leases d !! run with
  | Some l => if guard l then (true, d <| leases ::= <[run := f l]> |>) else (false, d)
  | None => (false, d)
  end.

Definition lease_open (l : LeaseRow) : bool :=
  match le_status l with LReserved | LRunning => true | _ => false end.

Definition lease_active (now : Z) (l : LeaseRow) : bool := lease_open l && (now <? le_expires l).

Definition count_active (now : Z) (d : SchedDb) : Z :=
  msum (λ _ l, if lease_active now l then 1 else 0) (leases d).
Definition count_org_active (org : string) (now : Z) (d : SchedDb) : Z :=
  msum (λ _ l, if lease_active now l && bool_decide (le_org l = org) then 1 else 0) (leases d).

(** ** scheduling/crud.py *)
Inductive LeaseOutcome := Accepted | Duplicate | Saturated.

(** The keyword arguments of [update_scheduled_run]; [None] is [_UNSET]. *)
Record Updates := MkUpdates {
  u_name : option string;
  u_prompt : option string;
  u_interval : option Z;
  u_enabled : option bool;
  u_callback_url : option (option string);
  u_callback_format : option string;
  u_next_trigger : option (option string);
}.

Definition set_opt {A R} (v : option A) (f : A → R → R) (r : R) : R :=
  match v with Some a => f a r | None => r end.

(** The [SET] list; the expressions on the right of an assignment see the old row. *)
Definition updated_row (now : Z) (u : Updates) (r : ScheduleRow) : ScheduleRow :=
  let next :=
    match u_interval u with
    | Some n => Some (now + seconds n)
    | None =>
        match u_enabled u, sr_kind r with
        | Some true, Interval => (λ n, now + seconds n) <$> sr_interval r
        | _, _ => sr_next_run r
        end
    end in
  set_opt (u_name u) (λ v r, r <| sr_name := v |>)
    (set_opt (u_prompt u) (λ v r, r <| sr_prompt := v |>)
    (set_opt (u_interval u) (λ v r, r <| sr_interval := Some v |>)
    (set_opt (u_enabled u) (λ v r, r <| sr_enabled := v |>)
    (set_opt (u_callback_url u) (λ v r, r <| sr_callback_url := v |>)
    (set_opt (u_callback_format u) (λ v r, r <| sr_callback_format := v |>)
    (set_opt (u_next_trigger u) (λ v r, r <| sr_next_trigger := v |>)
    r)))))) <| sr_next_run := next |> <| sr_updated := now |>.

Definition no_updates (u : Updates) : bool :=
  match u with MkUpdates None None None None None None None => true | _ => false end.

Section crud.
Variable uuids : nat → string.

Definition audit_row (id schedule org run : string) (typ : event_type) (status : string) (cost : Z) (error : string)
    : EventRow :=
  MkEventRow id schedule org run typ status cost error.

(** [insert_event_row(pool, _EVENT_TRIGGER_EVENT_INSERT_SQL, values)] *)
Definition insert_event_row (schedule org run : string) (typ : event_type) (status : string) (cost : Z)
    (error : string) : SH unit :=
  id ← uuid4 uuids; stmt (λ _, insert_event (audit_row id schedule org run typ status cost error)).

Definition record_event_trigger_event (schedule org run : string) (typ : event_type) (status : string) (cost : Z)
    (error : string) : SH unit :=
  catch (insert_event_row schedule org run typ status (Z.max 0 cost) (String.substring 0 1024 error))
    (λ _, mret tt).

Definition count_scheduled_runs (org : string) (kind : schedule_kind) : SH Z :=
  query (λ _ d, msum (λ _ r, if bool_decide (sr_org r = org) && bool_decide (sr_kind r = kind) then 1 else 0)
                  (schedules d)).

Definition create_scheduled_run (org user name prompt : string) (interval : Z) (callback_url : option string)
    (callback_format : string) (first_run_at : option Z) : SH ScheduledRun :=
  run_id ← uuid4 uuids;
  now ← datetime_now;
  let next := default (now + seconds interval) first_run_at in
  row ← stmt (λ _, insert_schedule run_id
                (MkScheduleRow org user name prompt Interval (Some interval) true callback_url callback_format
                   None None None (Some next) None 0 now now));
  mret (run_id, row).

Definition create_event_trigger (org user name prompt : string) (callback_url : option string)
    (trigger_token secret_hash : string) (callback_format : string) (next_trigger : option string)
    : SH ScheduledRun :=
  run_id ← uuid4 uuids;
  now ← datetime_now;
  row ← stmt (λ _, insert_schedule run_id
                (MkScheduleRow org user name prompt EventTrigger None true callback_url callback_format
                   (Some trigger_token) (Some secret_hash) next_trigger None None 0 now now));
  mret (run_id, row).

(** [ORDER BY created_at DESC, id DESC] *)
Definition newest_schedule (a b : ScheduledRun) : bool :=
  (sr_created b.2 <? sr_created a.2) || ((sr_created b.2 =? sr_created a.2) && String.leb b.1 a.1).

Definition list_kind (kind : schedule_kind) (org : string) : SH (list ScheduledRun) :=
  query (λ _ d, order_by newest_schedule
                  (filter (λ kr, sr_org kr.2 = org ∧ sr_kind kr.2 = kind) (map_to_list (schedules d)))).

Definition list_scheduled_runs (org : string) : SH (list ScheduledRun) := list_kind Interval org.
Definition list_event_triggers (org : string) : SH (list ScheduledRun) := list_kind EventTrigger org.

Definition get_scheduled_run (id org : string) : SH (option ScheduledRun) :=
  query (λ _ d, r ← schedules d !! id; if bool_decide (sr_org r = org) then Some (id, r) else None).

Definition get_event_trigger_for_dispatch (token : string) : SH (option (ScheduledRun * option string)) :=
  query (λ _ d,
    kr ← head (filter (λ kr, sr_trigger_token kr.2 = Some token ∧ sr_kind kr.2 = EventTrigger)
                 (map_to_list (schedules d)));
    Some (kr, sr_secret_hash kr.2)).

Definition with_id (id : string) (r : option ScheduleRow) : option ScheduledRun := pair id <$> r.

Definition update_scheduled_run (id org : string) (u : Updates) : SH (option ScheduledRun) :=
  if no_updates u then get_scheduled_run id org
  else
    row ← stmt (λ now, update_schedule id (λ r, bool_decide (sr_org r = org)) (updated_row now u));
    mret (with_id id row).

Definition queue_scheduled_run_now (id org : string) : SH (option ScheduledRun) :=
  row ← stmt (λ now, update_schedule id
                (λ r, bool_decide (sr_org r = org) && bool_decide (sr_kind r = Interval) && sr_enabled r)
                (λ r, r <| sr_next_run := Some now |> <| sr_updated := now |>));
  mret (with_id id row).

(** [LEAST(next_run_at, x)] ignores a NULL. *)
Definition requeue_scheduled_run_after_capacity (id : string) : SH unit :=
  stmt (λ now, update_schedule id (λ r, bool_decide (sr_kind r = Interval) && sr_enabled r)
          (λ r, r <| sr_next_run := Some (match sr_next_run r with
                                          | Some t => Z.min t (now + seconds 60)
                                          | None => now + seconds 60 end) |>
                  <| sr_updated := now |>));;
  mret tt.

Definition rotate_event_trigger_secret (id org secret_hash : string) : SH bool :=
  row ← stmt (λ now, update_schedule id
                (λ r, bool_decide (sr_org r = org) && bool_decide (sr_kind r = EventTrigger))
                (λ r, r <| sr_secret_hash := Some secret_hash |> <| sr_updated := now |>));
  mret (bool_decide (is_Some row)).

Definition delete_scheduled_run (id org : string) : SH bool :=
  stmt (λ _ d, match schedules d !! id with
               | Some r => if bool_decide (sr_org r = org) then Ok (true, delete_schedule id d) else Ok (false, d)
               | None => Ok (false, d)
               end).

Definition get_scheduled_run_result (schedule org run : string) : SH (option RunResult) :=
  query (λ _, find_org_result schedule org run).

Definition record_scheduled_run_result (schedule org run status output : string) (cost : Z) (error : string)
    : SH RunResult :=
  result_id ← uuid4 uuids;
  now ← datetime_now;
  stmt (λ _, insert_result (MkRunResult result_id schedule org run status output cost error now)).

Definition reserve_x_broadcast (run schedule org : string) : SH bool :=
  stmt (λ _ d, match broadcasts d !! run with
               | Some _ => Ok (false, d)
               | None => Ok (true, d <| broadcasts ::= <[run := MkBroadcastRow schedule org ""]> |>)
               end).

Definition record_x_broadcast_tweet (run tweet : string) : SH unit :=
  stmt (λ _ d, Ok (tt, d <| broadcasts ::= alter (λ b, MkBroadcastRow (bc_schedule b) (bc_org b) tweet) run |>)).

(** [SELECT pg_advisory_xact_lock(_EVENT_LEASE_LOCK_KEY)] *)
Definition lock_event_leases : SH unit := query (λ _ _, tt).

Definition reserve_event_dispatch_lease (schedule org key run owner : string)
    (lease_seconds global_limit org_limit : Z) (chain : string) (hop : Z) : SH (string * LeaseOutcome) :=
  transaction (
    lock_event_leases;;
    existing ← query (λ _ d, k_run <$> dispatch_keys d !! (schedule, key));
    match existing with
    | Some r => mret (r, Duplicate)
    | None =>
        active_global ← query count_active;
        if global_limit <=? active_global then mret (run, Saturated)
        else
          active_org ← query (count_org_active org);
          if org_limit <=? active_org then mret (run, Saturated)
          else
            stmt (λ _, insert_key schedule key (MkKeyRow run chain hop));;
            stmt (λ now, insert_lease run
                    (MkLeaseRow schedule org key owner LReserved (now + seconds lease_seconds) None None ""));;
            insert_event_row schedule org run DispatchAccepted "" 0 "";;
            mret (run, Accepted)
    end).

Definition start_event_dispatch_lease (run owner : string) (lease_seconds : Z) : SH bool :=
  stmt (λ now d, Ok (update_lease run
          (λ l, bool_decide (le_owner l = owner) && bool_decide (le_status l = LReserved))
          (λ l, l <| le_status := LRunning |> <| le_started := Some (default now (le_started l)) |>
                  <| le_expires := now + seconds lease_seconds |>) d)).

Definition renew_event_dispatch_lease (run owner : string) (lease_seconds : Z) : SH bool :=
  stmt (λ now d, Ok (update_lease run
          (λ l, bool_decide (le_owner l = owner) && bool_decide (le_status l = LRunning))
          (λ l, l <| le_expires := now + seconds lease_seconds |>) d)).

Definition terminal_status (status : string) : lease_status :=
  if String.eqb status "completed" then LCompleted else LFailed.

(** [status = terminal, finished_at = NOW(), lease_expires_at = NOW(), last_error = ...] *)
Definition closed_lease (now : Z) (status : lease_status) (error : string) (l : LeaseRow) : LeaseRow :=
  l <| le_status := status |> <| le_finished := Some now |> <| le_expires := now |> <| le_error := error |>.

Definition run_failed : string := "Event run failed.".
Definition recovery_timed_out : string := "Event run recovery timed out.".

Definition error_unless_completed (status : lease_status) (error : string) : string :=
  match status with LCompleted => "" | _ => error end.

Definition finish_event_dispatch_lease (schedule org run owner : string) (result : RunResult) : SH bool :=
  let status := terminal_status (rr_status result) in
  transaction (
    updated ← stmt (λ now d, Ok (update_lease run (λ l, bool_decide (le_owner l = owner) && lease_open l)
                     (closed_lease now status (error_unless_completed status run_failed)) d));
    if negb updated then mret false
    else
      insert_event_row schedule org run RunSettled (rr_status result) (Z.max 0 (rr_cost result))
        (error_unless_completed status run_failed);;
      mret true).

(** [consecutive_failures + 1, enabled = CASE WHEN ... THEN FALSE ELSE enabled END] *)
Definition failed_run (now max_failures : Z) (r : ScheduleRow) : ScheduleRow :=
  r <| sr_last_run := Some now |> <| sr_failures ::= Z.add 1 |>
    <| sr_enabled := if max_failures <=? sr_failures r + 1 then false else sr_enabled r |> <| sr_updated := now |>.

Definition count_run_failure (schedule : string) (max_failures : Z) : SH unit :=
  stmt (λ now, update_schedule schedule (λ _, true) (failed_run now max_failures));; mret tt.

(** [_row_to_scheduled_run_result(row)]: [dict(None)] raises. *)
Definition _row_to_scheduled_run_result (row : option RunResult) : SH RunResult :=
  match row with
  | Some r => mret r
  | None => raise (TypeError "'NoneType' object is not iterable")
  end.

(** The result of a run that will not report one: the stored result, else a failed
    one, which counts against the schedule. *)
Definition stored_or_failed (schedule org run : string) (max_failures : Z) (error : string) : SH RunResult :=
  row ← query (λ _, find_org_result schedule org run);
  row ← match row with
        | Some r => mret (Some r)
        | None =>
            result_id ← uuid4 uuids;
            inserted ← stmt (λ now, insert_result_once
                               (MkRunResult result_id schedule org run "failed" "" 0 error now));
            match inserted with
            | None => query (λ _, find_org_result schedule org run)
            | Some r => count_run_failure schedule max_failures;; mret (Some r)
            end
        end;
  _row_to_scheduled_run_result row.

Definition fail_event_dispatch (schedule org run owner : string) (max_failures : Z) (error : string)
    : SH (option RunResult) :=
  transaction (
    lease ← query (λ _ d, l ← leases d !! run; if bool_decide (le_owner l = owner) then Some l else None);
    match lease with
    | Some l =>
        if lease_open l then
          stored ← stored_or_failed schedule org run max_failures (String.substring 0 1024 error);
          let status := terminal_status (rr_status stored) in
          stmt (λ now d, Ok (update_lease run (λ l, bool_decide (le_owner l = owner))
                  (closed_lease now status (error_unless_completed status (String.substring 0 1024 error))) d));;
          insert_event_row schedule org run RunSettled (rr_status stored) (Z.max 0 (rr_cost stored))
            (String.substring 0 1024 error);;
          mret (Some stored)
        else mret None
    | None => mret None
    end).

(** [ORDER BY lease_expires_at, run_id] *)
Definition lease_leb (a b : string * LeaseRow) : bool :=
  (le_expires a.2 <? le_expires b.2) || ((le_expires a.2 =? le_expires b.2) && String.leb a.1 b.1).

Definition expired (now : Z) (l : LeaseRow) : bool := lease_open l && (le_expires l <=? now).

Definition expired_leases (n now : Z) (d : SchedDb) : list (string * LeaseRow) :=
  limit n (order_by lease_leb (filter (λ kl, expired now kl.2 = true) (map_to_list (leases d)))).

(** The body of the loop over the expired leases. *)
Definition recover_lease (max_failures : Z) (kl : string * LeaseRow) : SH unit :=
  let '(run, l) := kl in
  stored ← stored_or_failed (le_schedule l) (le_org l) run max_failures recovery_timed_out;
  let status := terminal_status (rr_status stored) in
  stmt (λ now d, Ok (update_lease run (λ _, true)
          (closed_lease now status (error_unless_completed status recovery_timed_out)) d));;
  insert_event_row (le_schedule l) (le_org l) run RunSettled (rr_status stored) (Z.max 0 (rr_cost stored))
    (error_unless_completed status recovery_timed_out).

Definition recover_expired_event_dispatches (n max_failures : Z) : SH Z :=
  transaction (
    rows ← query (expired_leases n);
    for_each rows 0 (λ recovered kl, recover_lease max_failures kl;; mret (recovered + 1))).

Definition get_existing_dispatch (schedule key : string) : SH (option string) :=
  query (λ _ d, k_run <$> dispatch_keys d !! (schedule, key)).

Definition get_event_dispatch_lineage (schedule run : string) : SH (option (string * Z)) :=
  query (λ _ d,
    kv ← head (filter (λ kv, kv.1.1 = schedule ∧ k_run kv.2 = run) (map_to_list (dispatch_keys d)));
    Some (k_chain kv.2, k_hop kv.2)).

Definition mark_scheduled_run_skipped (id : string) : SH unit :=
  stmt (λ now, update_schedule id (λ _, true) (λ r, r <| sr_last_run := Some now |> <| sr_updated := now |>));; mret tt.

Definition mark_scheduled_run_succeeded (id : string) : SH unit :=
  stmt (λ now, update_schedule id (λ _, true)
          (λ r, r <| sr_last_run := Some now |> <| sr_failures := 0 |> <| sr_updated := now |>));;
  mret tt.

Definition mark_scheduled_run_failed (id : string) (max_failures : Z) : SH (option ScheduledRun) :=
  row ← stmt (λ now, update_schedule id (λ _, true) (failed_run now max_failures)); mret (with_id id row).

(** [ORDER BY next_run_at ASC, id ASC], a NULL last *)
Definition next_run_leb (a b : ScheduledRun) : bool :=
  match sr_next_run a.2, sr_next_run b.2 with
  | Some t, Some t' => (t <? t') || ((t =? t') && String.leb a.1 b.1)
  | Some _, None => true
  | None, Some _ => false
  | None, None => String.leb a.1 b.1
  end.

Definition is_due (now : Z) (r : ScheduleRow) : bool :=
  sr_enabled r && bool_decide (sr_kind r = Interval)
  && match sr_next_run r with Some t => t <=? now | None => false end.

Definition due_schedules (n now : Z) (d : SchedDb) : list ScheduledRun :=
  limit n (order_by next_run_leb (filter (λ kr, is_due now kr.2 = true) (map_to_list (schedules d)))).

Definition claimed_row (now : Z) (r : ScheduleRow) : ScheduleRow :=
  r <| sr_next_run := (λ n, now + seconds n) <$> sr_interval r |> <| sr_updated := now |>.

(** Every due row, updated; the checks of the table do not read the columns written. *)
Definition advance_due (now : Z) (due : list ScheduledRun) (d : SchedDb) : SchedDb :=
  d <| schedules := foldr (λ kr m, <[kr.1 := claimed_row now kr.2]> m) (schedules d) due |>.

Definition claim_due_schedules (n : Z) : SH (list ScheduledRun) :=
  transaction (
    stmt (λ now d,
      let due := due_schedules n now d in
      Ok (map (λ kr, (kr.1, claimed_row now kr.2)) due, advance_due now due d))).
End crud.

(** ** scheduling/runner.py and the event tasks of agent_event_triggers.py *)
Record SchedulingSettings := MkSchedulingSettings {
  event_chain_max_hops : Z;
  event_triggers_max_concurrency : Z;
  event_triggers_max_concurrency_per_org : Z;
  event_triggers_max_per_org : Z;
  event_triggers_prompt_max_chars : Z;
  scheduled_runs_execution_timeout_seconds : Z;
  scheduled_runs_max_consecutive_failures : Z;
  labeling_enabled : bool;
  x_broadcast_enabled : bool;
  x_broadcast_configured : bool;
  x_broadcast_org_id : string;
}.

(** [BillingResult] as the runner reads it, and the outcome of [run_agent_once]. *)
Record Billing := MkBilling { bl_verified : bool; bl_error : string }.
Record AgentResult := MkAgentResult { ar_state : string; ar_output : string; ar_cost : Z; ar_error : string }.
Inductive AgentOutcome := AgentDone (r : AgentResult) | AgentCapacity.

(** What the runner calls outside scheduling: the answers are arbitrary. *)
Class Services := {
  admission : Z → string → res Billing;
  run_agent_once : Z → ScheduledRun → string → string → res AgentOutcome;
  ingest_labeling : Z → string → res unit;
  deliver_callback : Z → string → RunResult → res unit;
  post_tweet : Z → string → res string;
  x_post_text : string → option string;
  float_repr : Z → positive → string;
}.

Definition call {A} (f : Z → res A) : SH A := external (λ now x, (f now, x)).

Inductive DispatchResponse := RespAccepted (run : string) | RespDuplicate (run : string).

(** [HTTPException(status_code, detail)] *)
Definition http_exception (detail : string) : exn := RuntimeError detail.

Section runner.
Context `{!Services}.
Variables (settings : SchedulingSettings) (uuids : nat → string) (_EVENT_WORKER_ID : string).

Definition _publish_x_broadcast (schedule : ScheduledRun) (stored : RunResult) : SH unit :=
  if negb (x_broadcast_enabled settings) || negb (x_broadcast_configured settings) then mret tt
  else if negb (String.eqb (x_broadcast_org_id settings) (sr_org schedule.2)) then mret tt
  else if negb (String.eqb (rr_status stored) "completed") then mret tt
  else
    match x_post_text (rr_output stored) with
    | None => mret tt
    | Some text =>
        reserved ← reserve_x_broadcast (rr_run stored) schedule.1 (sr_org schedule.2);
        if negb reserved then mret tt
        else
          catch (
            tweet_id ← external (λ now x, (post_tweet now text, x <| tweets ::= λ l, l ++ [(rr_run stored, text)] |>));
            record_x_broadcast_tweet (rr_run stored) tweet_id)
            (λ _, mret tt)
    end.

Definition _ingest_labeling_prediction (run : string) : SH unit :=
  catch (call (λ now, ingest_labeling now run)) (λ _, mret tt).

Definition capacity_error : string := "Agent run capacity is temporarily exhausted.".

(** [result.error or (result.output_text if result.task_state != "completed" else "")] *)
Definition error_text (r : AgentResult) : string :=
  if is_empty (ar_error r) then (if String.eqb (ar_state r) "completed" then "" else ar_output r) else ar_error r.

Definition _run_and_record (schedule : ScheduledRun) (prompt run_id : string) : SH RunResult :=
  let '(id, row) := schedule in
  billing ← call (λ now, admission now (sr_org row));
  if negb (bl_verified billing) then
    result ← record_scheduled_run_result uuids id (sr_org row) run_id "skipped" "" 0 (bl_error billing);
    mark_scheduled_run_skipped id;;
    mret result
  else
    outcome ← call (λ now, run_agent_once now schedule prompt run_id);
    match outcome with
    | AgentCapacity =>
        stored ← record_scheduled_run_result uuids id (sr_org row) run_id "skipped" "" 0 capacity_error;
        requeue_scheduled_run_after_capacity id;;
        mret stored
    | AgentDone result =>
        stored ← record_scheduled_run_result uuids id (sr_org row) run_id (ar_state result) (ar_output result)
                   (ar_cost result) (error_text result);
        (if labeling_enabled settings && bool_decide (ar_state result ∈ ["completed"; "timeout"])
         then _ingest_labeling_prediction run_id else mret tt);;
        (if String.eqb (ar_state result) "completed" then mark_scheduled_run_succeeded id
         else mark_scheduled_run_failed id (scheduled_runs_max_consecutive_failures settings);; mret tt);;
        (if String.eqb (sr_callback_format row) "x" then _publish_x_broadcast schedule stored
         else match sr_callback_url row with
              | Some url => if is_empty url then mret tt else call (λ now, deliver_callback now url stored)
              | None => mret tt
              end);;
        mret stored
    end.

Definition execute_scheduled_run (schedule : ScheduledRun) : SH RunResult :=
  run_id ← uuid4 uuids; _run_and_record schedule (sr_prompt schedule.2) run_id.

Definition execute_event_run (schedule : ScheduledRun) (prompt run_id : string) : SH RunResult :=
  _run_and_record schedule prompt run_id.

(** The claimed schedules run concurrently; the model runs them one after the other,
    and what the others do in between is interference. *)
Definition _CLAIM_LIMIT : Z := 25.
Definition _execute_isolated (schedule : ScheduledRun) : SH unit :=
  catch (execute_scheduled_run schedule;; mret tt) (λ _, mret tt).
Definition scheduled_runs_tick : SH unit :=
  claimed ← claim_due_schedules _CLAIM_LIMIT;
  for_each claimed tt (λ _ s, _execute_isolated s).

Definition fail_event (schedule : ScheduledRun) (run : string) : SH unit :=
  fail_event_dispatch uuids schedule.1 (sr_org schedule.2) run _EVENT_WORKER_ID
    (scheduled_runs_max_consecutive_failures settings) run_failed;;
  mret tt.

Definition _spawn_event_run (t : Task) : SH unit := modify_ext (λ x, x <| tasks ::= λ l, l ++ [t] |>).

(** The dispatch of the next trigger of a chain: [None] when spawned, else the reason. *)
Definition dispatch_child (schedule : ScheduledRun) (next : string) (result : RunResult) (lease_seconds : Z)
    (chain : string) (hop : Z) : SH (option string) :=
  if event_chain_max_hops settings <? hop + 1 then mret (Some "Chain hop limit reached.")
  else
    child ← get_scheduled_run next (sr_org schedule.2);
    match child with
    | None => mret (Some "Chain target unavailable.")
    | Some child =>
        if negb (bool_decide (sr_org child.2 = sr_org schedule.2)) || negb (bool_decide (sr_kind child.2 = EventTrigger))
           || negb (sr_enabled child.2) then mret (Some "Chain target unavailable.")
        else
          let prompt := render_event_prompt float_repr (sr_prompt child.2)
                          (JObj [("output_text", JStr (rr_output result)); ("parent_run_id", JStr (rr_run result));
                                 ("parent_trigger_id", JStr schedule.1); ("chain_id", JStr chain)])
                          (event_triggers_prompt_max_chars settings) in
          run_id ← uuid4 uuids;
          '(child_run, outcome) ← reserve_event_dispatch_lease uuids child.1 (sr_org schedule.2)
                                    ("chain:" +:+ rr_run result) run_id _EVENT_WORKER_ID lease_seconds
                                    (event_triggers_max_concurrency settings)
                                    (event_triggers_max_concurrency_per_org settings) chain (hop + 1);
          match outcome with
          | Accepted => _spawn_event_run (MkTask child prompt child_run lease_seconds chain (hop + 1));; mret None
          | Saturated => mret (Some "Chain capacity unavailable.")
          | Duplicate => mret (Some "Chain dispatch already reserved.")
          end
    end.

Definition _dispatch_chain_child (schedule : ScheduledRun) (result : RunResult) (lease_seconds : Z) (chain : string)
    (hop : Z) : SH unit :=
  match sr_next_trigger schedule.2 with
  | Some next =>
      if negb (String.eqb (rr_status result) "completed") then mret tt
      else
        reason ← catch (dispatch_child schedule next result lease_seconds chain hop)
                   (λ _, mret (Some "Chain dispatch failed."));
        match reason with
        | None => mret tt
        | Some reason =>
            record_event_trigger_event uuids schedule.1 (sr_org schedule.2) (rr_run result) ChainDispatchSkipped
              "" 0 reason
        end
  | None => mret tt
  end.

(** The heartbeat renews the lease from another task: interference here. *)
Definition _run_event_in_background (t : Task) : SH unit :=
  catch (
    started ← start_event_dispatch_lease (t_run t) _EVENT_WORKER_ID (t_lease_seconds t);
    if negb started then fail_event (t_schedule t) (t_run t)
    else
      result ← execute_event_run (t_schedule t) (t_prompt t) (t_run t);
      finalized ← finish_event_dispatch_lease uuids (t_schedule t).1 (sr_org (t_schedule t).2) (t_run t)
                    _EVENT_WORKER_ID result;
      if (finalized : bool) then _dispatch_chain_child (t_schedule t) result (t_lease_seconds t) (t_chain t) (t_hop t)
      else mret tt)
    (λ _, fail_event (t_schedule t) (t_run t)).

(** The event loop takes the oldest task; a task that raises ends alone. *)
Definition next_task : SH (option Task) :=
  x ← get_ext;
  match tasks x with
  | [] => mret None
  | t :: rest => modify_ext (λ x, x <| tasks := rest |>);; mret (Some t)
  end.

Fixpoint event_loop (fuel : nat) : SH nat :=
  match fuel with
  | O => mret O
  | S fuel =>
      t ← next_task;
      match t with
      | None => mret O
      | Some t => catch (_run_event_in_background t) (λ _, mret tt);; n ← event_loop fuel; mret (S n)
      end
  end.

(** [dispatch_event] from the reservation on.  [_spawn_event_run] cannot raise, so the
    handler that fails the reserved run is never entered. *)
Definition dispatch_reserved (schedule : ScheduledRun) (rendered : string) (idempotency_key : option string)
    : SH DispatchResponse :=
  run_id ← uuid4 uuids;
  let lease_seconds := scheduled_runs_execution_timeout_seconds settings + 60 in
  '(run, outcome) ← reserve_event_dispatch_lease uuids schedule.1 (sr_org schedule.2)
                      (default ("run:" +:+ run_id) idempotency_key) run_id _EVENT_WORKER_ID lease_seconds
                      (event_triggers_max_concurrency settings) (event_triggers_max_concurrency_per_org settings)
                      run_id 0;
  match outcome with
  | Saturated => raise (http_exception "Too many concurrent event runs; retry later.")
  | Duplicate =>
      record_event_trigger_event uuids schedule.1 (sr_org schedule.2) run DispatchDuplicate "" 0 "";;
      mret (RespDuplicate run)
  | Accepted => _spawn_event_run (MkTask schedule rendered run lease_seconds run 0);; mret (RespAccepted run)
  end.

Definition _MAX_EVENT_BODY_BYTES : Z := 64 * 1024.
Definition _MAX_IDEMPOTENCY_KEY_CHARS : Z := 256.

Definition _hash_secret (secret : string) : string := sha256_hex (encode_ascii secret).
Definition _verify_secret (provided stored_hash : string) : bool := String.eqb (_hash_secret provided) stored_hash.

(** The inbound request after its rate limits: its headers, the length of its body
    and what [json.loads] makes of it ([None] when it is not JSON, [{}] when empty). *)
Record EventRequest := MkEventRequest {
  q_token : string;
  q_secret : option string;
  q_key : option string;
  q_length : Z;
  q_body : option json;
}.

(** [x_idempotency_key], else the body's ["idempotency_key"] when it is a non-empty string. *)
Definition request_key (header : option string) (body : list (string * json)) : option string :=
  match header with
  | Some key => if is_empty key then None else Some key
  | None => None
  end ∪
  match dict_get body "idempotency_key" with
  | Some (JStr key) => if is_empty key then None else Some key
  | _ => None
  end.

Definition secret_ok (provided : option string) (stored : option string) : bool :=
  match stored, provided with
  | Some h, Some s => negb (is_empty h) && negb (is_empty s) && _verify_secret s h
  | _, _ => false
  end.

Definition dispatch_rendered (schedule : ScheduledRun) (rendered : string) (idempotency_key : option string)
    : SH DispatchResponse :=
  match idempotency_key with
  | Some key =>
      existing ← get_existing_dispatch schedule.1 key;
      match existing with
      | Some run =>
          record_event_trigger_event uuids schedule.1 (sr_org schedule.2) run DispatchDuplicate "" 0 "";;
          mret (RespDuplicate run)
      | None => dispatch_reserved schedule rendered idempotency_key
      end
  | None => dispatch_reserved schedule rendered None
  end.

Definition dispatch_event (q : EventRequest) : SH DispatchResponse :=
  found ← get_event_trigger_for_dispatch (q_token q);
  match found with
  | None => raise (http_exception "Event trigger not found.")
  | Some (schedule, secret_hash) =>
      if negb (secret_ok (q_secret q) secret_hash) then
        record_event_trigger_event uuids schedule.1 (sr_org schedule.2) "" SecretRejected "" 0 "";;
        raise (http_exception "Invalid trigger secret.")
      else if negb (sr_enabled schedule.2) then raise (http_exception "Event trigger not found.")
      else if _MAX_EVENT_BODY_BYTES <? q_length q then raise (http_exception "Event payload too large.")
      else
        match q_body q with
        | None => raise (http_exception "Event payload must be valid JSON.")
        | Some (JObj body) =>
            let key := request_key (q_key q) body in
            if match key with Some k => _MAX_IDEMPOTENCY_KEY_CHARS <? Z.of_nat (String.length k) | None => false end
            then raise (http_exception "Idempotency key is too long.")
            else
              let rendered := render_event_prompt float_repr (sr_prompt schedule.2) (JObj body)
                                (event_triggers_prompt_max_chars settings) in
              if is_empty (py_strip rendered)
              then raise (http_exception "Rendered prompt is empty after interpolation.")
              else dispatch_rendered schedule rendered key
        | Some _ => raise (http_exception "Event payload must be a JSON object.")
        end
  end.
End runner.

(** ** Every dispatch is settled at most once *)
Definition count_events (typ : event_type) (run : string) (l : list EventRow) : Z :=
  lsum (λ e, if bool_decide (ev_type e = typ) && bool_decide (ev_run e = run) then 1 else 0) l.

Definition open_count (run : string) (m : gmap string LeaseRow) : Z :=
  match m !! run with Some l => if lease_open l then 1 else 0 | None => 0 end.

(** A closed lease is explained by a settlement with a status of its kind. *)
Definition explained (l : LeaseRow) (run : string) (e : EventRow) : Prop :=
  ev_type e = RunSettled ∧ ev_run e = run ∧ le_status l = terminal_status (ev_status e).

Record settled_once (m : gmap string LeaseRow) (evs : list EventRow) : Prop := {
  so_count : ∀ run, count_events RunSettled run evs + open_count run m ≤ count_events DispatchAccepted run evs;
  so_closed : ∀ run l, m !! run = Some l → lease_open l = false → ∃ e, e ∈ evs ∧ explained l run e;
}.

Definition dispatch_inv (d : SchedDb) : Prop := settled_once (leases d) (trigger_events d).
Definition dispatch_ok (d : SchedDb) (_ : Process) : Prop := dispatch_inv d.

Lemma count_events_snoc typ run l e :
  count_events typ run (l ++ [e])
  = count_events typ run l + (if bool_decide (ev_type e = typ) && bool_decide (ev_run e = run) then 1 else 0).
Proof. apply lsum_snoc. Qed.

Lemma so_closed_app m evs e run l :
  settled_once m evs → m !! run = Some l → lease_open l = false → ∃ e', e' ∈ evs ++ [e] ∧ explained l run e'.
Proof.
  intros Hs Hm Ho. destruct (so_closed m evs Hs run l Hm Ho) as (e' & Hin & He). exists e'.
  split; [|done]. rewrite elem_of_app. by left.
Qed.

(** The steps on the two tables. *)
Lemma settled_once_event m evs e : settled_once m evs → ev_type e ≠ RunSettled → settled_once m (evs ++ [e]).
Proof.
  intros Hs Hne. split; [|intros; by eapply so_closed_app].
  intros run. pose proof (so_count m evs Hs run). rewrite !count_events_snoc.
  rewrite (bool_decide_false (ev_type e = RunSettled)) by done. cbn [andb].
  destruct (bool_decide (ev_type e = DispatchAccepted) && _); lia.
Qed.

Lemma settled_once_accept m evs run l e :
  settled_once m evs → m !! run = None → lease_open l = true → ev_type e = DispatchAccepted → ev_run e = run →
  settled_once (<[run := l]> m) (evs ++ [e]).
Proof.
  intros Hs Hm Hl Ht Hr. split.
  - intros run'. pose proof (so_count m evs Hs run') as Hc. rewrite !count_events_snoc, Ht, Hr.
    rewrite (bool_decide_false (DispatchAccepted = RunSettled)), (bool_decide_true (DispatchAccepted = DispatchAccepted)) by done.
    cbn [andb]. unfold open_count in *. destruct (decide (run' = run)) as [->|Hne].
    + rewrite lookup_insert_eq, Hl, bool_decide_true by done. rewrite Hm in Hc. lia.
    + rewrite lookup_insert_ne, bool_decide_false by done. lia.
  - intros run' l' Hl' Ho. destruct (decide (run' = run)) as [->|Hne].
    + rewrite lookup_insert_eq in Hl'. congruence.
    + rewrite lookup_insert_ne in Hl' by done. by eapply so_closed_app.
Qed.

Lemma settled_once_settle m evs run l l' e :
  settled_once m evs → m !! run = Some l → lease_open l = true → lease_open l' = false → explained l' run e →
  settled_once (<[run := l']> m) (evs ++ [e]).
Proof.
  intros Hs Hm Hl Hl' He. pose proof He as (Ht & Hr & _). split.
  - intros run'. pose proof (so_count m evs Hs run') as Hc. rewrite !count_events_snoc, Ht, Hr.
    rewrite (bool_decide_false (RunSettled = DispatchAccepted)), (bool_decide_true (RunSettled = RunSettled)) by done.
    cbn [andb]. unfold open_count in *. destruct (decide (run' = run)) as [->|Hne].
    + rewrite lookup_insert_eq, Hl', bool_decide_true by done. rewrite Hm, Hl in Hc. lia.
    + rewrite lookup_insert_ne, bool_decide_false by done. lia.
  - intros run' l2 Hl2 Ho. destruct (decide (run' = run)) as [->|Hne].
    + rewrite lookup_insert_eq in Hl2. injection Hl2 as <-. exists e. split; [|done].
      rewrite elem_of_app, list_elem_of_singleton. by right.
    + rewrite lookup_insert_ne in Hl2 by done. by eapply so_closed_app.
Qed.

Lemma settled_once_keep m evs run l l' :
  settled_once m evs → m !! run = Some l → lease_open l = true → lease_open l' = true →
  settled_once (<[run := l']> m) evs.
Proof.
  intros Hs Hm Hl Hl'. split.
  - intros run'. pose proof (so_count m evs Hs run') as Hc. unfold open_count in *.
    destruct (decide (run' = run)) as [->|Hne].
    + rewrite lookup_insert_eq, Hl'. by rewrite Hm, Hl in Hc.
    + by rewrite lookup_insert_ne by done.
  - intros run' l2 Hl2 Ho. destruct (decide (run' = run)) as [->|Hne].
    + rewrite lookup_insert_eq in Hl2. congruence.
    + rewrite lookup_insert_ne in Hl2 by done. by eapply so_closed.
Qed.

Lemma settled_once_filter m evs (P : string * LeaseRow → Prop) `{!∀ x, Decision (P x)} :
  settled_once m evs → settled_once (filter P m) evs.
Proof.
  intros Hs. split.
  - intros run. pose proof (so_count m evs Hs run) as Hc. unfold open_count in *.
    destruct (filter P m !! run) as [l|] eqn:Hf.
    + apply map_lookup_filter_Some in Hf as [Hm _]. by rewrite Hm in Hc.
    + destruct (m !! run) as [l|]; [destruct (lease_open l)|]; lia.
  - intros run l [Hm _]%map_lookup_filter_Some. by eapply so_closed.
Qed.

(** Statements that leave both tables alone. *)
Definition same_dispatch (d d' : SchedDb) : Prop := leases d' = leases d ∧ trigger_events d' = trigger_events d.

#[export] Instance same_dispatch_preorder : PreOrder same_dispatch.
Proof. split; [done|]. intros d1 d2 d3 [H1 H2] [H3 H4]. split; congruence. Qed.

Lemma same_dispatch_inv d d' : same_dispatch d d' → dispatch_inv d → dispatch_inv d'.
Proof. unfold dispatch_inv. by intros [-> ->]. Qed.

Lemma insert_schedule_same id r d r' d' : insert_schedule id r d = Ok (r', d') → same_dispatch d d'.
Proof.
  unfold insert_schedule. destruct (negb _); [done|]. destruct (_ || _); [done|].
  destruct (sr_next_trigger r); [case_bool_decide; [|done]|]; by intros [= <- <-].
Qed.

Lemma update_schedule_same id g f d o d' : update_schedule id g f d = Ok (o, d') → same_dispatch d d'.
Proof.
  unfold update_schedule. destruct (schedules d !! id) as [r|]; [|by intros [= <- <-]].
  destruct (g r); [|by intros [= <- <-]]. destruct (negb _); [done|].
  destruct (sr_next_trigger (f r)); [case_bool_decide; [|done]|]; by intros [= <- <-].
Qed.

Lemma update_schedule_alter id f d :
  match update_schedule id (λ _, true) f d with
  | Ok (_, d') => d' = d <| schedules ::= alter f id |>
  | Raise _ => True
  end.
Proof.
  unfold update_schedule. destruct (schedules d !! id) as [r|] eqn:Hr.
  - assert (d <| schedules ::= <[id := f r]> |> = d <| schedules ::= alter f id |>) as Heq.
    { unfold upd_field. f_equal. apply map_eq. intros k. destruct (decide (k = id)) as [->|Hne].
      - by rewrite lookup_alter_eq, lookup_insert_eq, Hr.
      - by rewrite lookup_alter_ne, lookup_insert_ne. }
    destruct (negb _); [done|]. by destruct (sr_next_trigger (f r)); [case_bool_decide|].
  - destruct d. unfold upd_field. cbn in *. f_equal. apply map_eq. intros k. destruct (decide (k = id)) as [->|Hne].
    + by rewrite lookup_alter_eq, Hr.
    + by rewrite lookup_alter_ne.
Qed.

Lemma insert_result_spec r d :
  match insert_result r d with
  | Ok (r', d') => r' = r ∧ is_Some (schedules d !! rr_schedule r) ∧ d' = d <| run_results ::= λ l, l ++ [r] |>
  | Raise _ => True
  end.
Proof.
  unfold insert_result. destruct (negb _); [done|]. destruct (negb _); [done|]. destruct (_ || _); [done|].
  destruct (negb _) eqn:Hs; [done|]. by case_bool.
Qed.

Lemma insert_event_spec e d :
  match insert_event e d with
  | Ok (_, d') => d' = d <| trigger_events ::= λ l, l ++ [e] |>
  | Raise _ => True
  end.
Proof. unfold insert_event. destruct (_ <? _); [done|]. destruct (negb _); [done|]. by destruct (existsb _ _). Qed.

Lemma insert_key_spec s k r d :
  match insert_key s k r d with
  | Ok (_, d') => key_conflict s k r d = false ∧ d' = d <| dispatch_keys ::= <[(s, k) := r]> |>
  | Raise _ => True
  end.
Proof. unfold insert_key. destruct (negb _); [done|]. destruct (_ <? _); [done|]. destruct (key_conflict _ _ _ _); [done|].
  by destruct (negb _). Qed.

Lemma insert_lease_spec run l d :
  match insert_lease run l d with
  | Ok (_, d') => leases d !! run = None ∧ d' = d <| leases ::= <[run := l]> |>
  | Raise _ => True
  end.
Proof.
  unfold insert_lease. case_bool_decide as Hl; [done|]. destruct (negb _); [done|].
  split; [|done]. destruct (leases d !! run) eqn:E; [|done]. by destruct Hl.
Qed.

Lemma wpi_same {A} (f : Z → SchedDb → res (A * SchedDb)) (Q : res A → Prop) :
  (∀ now d a d', f now d = Ok (a, d') → same_dispatch d d') → (∀ r, Q r) → wpi dispatch_ok (stmt f) Q.
Proof.
  intros Hf HQ. apply wpi_stmt; [done|]. intros now d x Hd. destruct (f now d) as [[a d']|e] eqn:E; [|done].
  split; [|done]. by eapply same_dispatch_inv; [eapply Hf|].
Qed.

Lemma wpt_same {A} now (f : Z → SchedDb → res (A * SchedDb)) d0 d :
  (∀ now d a d', f now d = Ok (a, d') → same_dispatch d d') → same_dispatch d0 d →
  wpt now (stmt f : SH A) (λ _ d', same_dispatch d0 d') (λ _ _, True) d.
Proof.
  intros Hf Hd. apply wpt_stmt; [done|]. destruct (f now d) as [[a d']|e] eqn:E; [|done].
  split; [|done]. etrans; [done|]. by eapply Hf.
Qed.

Lemma insert_result_same r d r' d' : insert_result r d = Ok (r', d') → same_dispatch d d'.
Proof. intros H. pose proof (insert_result_spec r d) as Hs. rewrite H in Hs. by destruct Hs as (-> & _ & ->). Qed.

Lemma insert_result_once_same r d r' d' : insert_result_once r d = Ok (r', d') → same_dispatch d d'.
Proof.
  unfold insert_result_once. case_bool_decide; [by intros [= <- <-]|]. cbn.
  destruct (insert_result r d) as [[r0 d0]|] eqn:E; [|done]. intros [= <- <-]. by eapply insert_result_same.
Qed.

Lemma delete_schedule_inv id d : dispatch_inv d → dispatch_inv (delete_schedule id d).
Proof. intros Hd. by apply (settled_once_filter _ _ (λ kv, le_schedule kv.2 ≠ id)). Qed.

(** An update of open leases that keeps them open. *)
Lemma update_lease_keep run g f d :
  (∀ l, g l = true → lease_open l = true ∧ lease_open (f l) = true) → dispatch_inv d →
  dispatch_inv (update_lease run g f d).2.
Proof.
  intros Hg Hd. unfold update_lease. destruct (leases d !! run) as [l|] eqn:Hl; [|done].
  destruct (g l) eqn:E; [|done]. destruct (Hg l E). by eapply settled_once_keep.
Qed.

(** What [stored_or_failed] returns and does: the stored result, else a new failed
    one, counted against the schedule. *)
Inductive settled_result (now : Z) (schedule org run : string) (max : Z) (error : string) (d : SchedDb)
    : RunResult → SchedDb → Prop :=
  | ResultStored s : find_org_result schedule org run d = Some s → settled_result now schedule org run max error d s d
  | ResultFailed id :
      find_org_result schedule org run d = None → find_result schedule run d = None →
      is_Some (schedules d !! schedule) →
      settled_result now schedule org run max error d
        (MkRunResult id schedule org run "failed" "" 0 error now)
        (d <| run_results ::= λ l, l ++ [MkRunResult id schedule org run "failed" "" 0 error now] |>
           <| schedules ::= alter (failed_run now max) schedule |>).

Section preserved.
Context `{!Services}.
Variables (settings : SchedulingSettings) (uuids : nat → string) (owner : string).

Ltac same_step :=
  first
    [ done
    | apply wpi_same; [intros ????; first [apply update_schedule_same|apply insert_schedule_same
                                          |apply insert_result_same]|intros [?|?]]
    | inv_step ].
Ltac same_auto := repeat (intros; same_step).

Lemma insert_event_row_ok schedule org run typ status cost error :
  typ ≠ RunSettled → preserves dispatch_ok (insert_event_row uuids schedule org run typ status cost error).
Proof.
  intros Ht. unfold insert_event_row. do 3 inv_step. inv_step; [done|]. intros now d x Hd.
  pose proof (insert_event_spec (audit_row s schedule org run typ status cost error) d) as Hs.
  destruct (insert_event _ d) as [[[] d']|]; [|done]. subst d'. split; [|done]. by apply settled_once_event.
Qed.

Lemma record_event_ok schedule org run typ status cost error :
  typ ≠ RunSettled → preserves dispatch_ok (record_event_trigger_event uuids schedule org run typ status cost error).
Proof.
  intros Ht. unfold record_event_trigger_event. do 2 inv_step. eapply wpi_mono; [by apply insert_event_row_ok|].
  intros [?|?] _; [done|]. by apply wpi_ret.
Qed.

Lemma create_scheduled_run_ok org user name prompt n url fmt first :
  preserves dispatch_ok (create_scheduled_run uuids org user name prompt n url fmt first).
Proof. unfold create_scheduled_run. same_auto. Qed.

Lemma create_event_trigger_ok org user name prompt url token hash fmt next :
  preserves dispatch_ok (create_event_trigger uuids org user name prompt url token hash fmt next).
Proof. unfold create_event_trigger. same_auto. Qed.

Lemma update_scheduled_run_ok id org u : preserves dispatch_ok (update_scheduled_run id org u).
Proof. unfold update_scheduled_run, get_scheduled_run. same_auto. Qed.

Lemma queue_scheduled_run_now_ok id org : preserves dispatch_ok (queue_scheduled_run_now id org).
Proof. unfold queue_scheduled_run_now. same_auto. Qed.

Lemma requeue_ok id : preserves dispatch_ok (requeue_scheduled_run_after_capacity id).
Proof. unfold requeue_scheduled_run_after_capacity. same_auto. Qed.

Lemma rotate_ok id org hash : preserves dispatch_ok (rotate_event_trigger_secret id org hash).
Proof. unfold rotate_event_trigger_secret. same_auto. Qed.

Lemma delete_scheduled_run_ok id org : preserves dispatch_ok (delete_scheduled_run id org).
Proof.
  unfold delete_scheduled_run. inv_step. inv_step; [done|]. intros now d x Hd.
  destruct (schedules d !! id) as [r|]; [case_bool_decide|]; (split; [|done]); [by apply delete_schedule_inv|done..].
Qed.

Lemma record_result_ok schedule org run status output cost error :
  preserves dispatch_ok (record_scheduled_run_result uuids schedule org run status output cost error).
Proof. unfold record_scheduled_run_result. same_auto. Qed.

Lemma marks_ok id n :
  preserves dispatch_ok (mark_scheduled_run_skipped id) ∧ preserves dispatch_ok (mark_scheduled_run_succeeded id) ∧
  preserves dispatch_ok (mark_scheduled_run_failed id n).
Proof.
  unfold mark_scheduled_run_skipped, mark_scheduled_run_succeeded, mark_scheduled_run_failed. split_and!; same_auto. Qed.

Lemma claim_due_schedules_ok n : preserves dispatch_ok (claim_due_schedules n).
Proof.
  unfold claim_due_schedules. inv_step. inv_step; [done|]. intros now d x Hd. by apply wpt_stmt.
Qed.

Lemma wpt_insert_event_row now schedule org run typ status cost error (Q : unit → SchedDb → Prop) d :
  (∀ id, Q tt (d <| trigger_events ::= λ l, l ++ [audit_row id schedule org run typ status cost error] |>)) →
  wpt now (insert_event_row uuids schedule org run typ status cost error) Q (λ _ _, True) d.
Proof.
  intros HQ. unfold insert_event_row. do 3 tx_step; [done|].
  pose proof (insert_event_spec (audit_row s schedule org run typ status cost error) d) as He.
  destruct (insert_event _ _) as [[[] d']|]; [|done]. subst d'. by split.
Qed.

Lemma wpt_update_lease now run l g f (Q : bool → SchedDb → Prop) d :
  leases d !! run = Some l → g l = true → Q true (d <| leases ::= <[run := f now l]> |>) →
  wpt now (stmt (λ now d, Ok (update_lease run g (f now) d)) : SH bool) Q (λ _ _, True) d.
Proof. intros Hl Hg HQ. apply wpt_stmt; [done|]. unfold update_lease. rewrite Hl, Hg. by split. Qed.

Lemma terminal_status_closed status now error l :
  lease_open (closed_lease now (terminal_status status) error l) = false.
Proof. unfold terminal_status. by destruct (String.eqb _ _). Qed.

Lemma reserve_ok schedule org key run owner' n gl ol chain hop :
  preserves dispatch_ok (reserve_event_dispatch_lease uuids schedule org key run owner' n gl ol chain hop).
Proof.
  unfold reserve_event_dispatch_lease. inv_step. inv_step; [done|]. intros now d x Hd. unfold lock_event_leases.
  do 2 tx_step; [done|]. do 2 tx_step; [done|]. tx_step; [tx_step; by split|].
  do 2 tx_step; [done|]. tx_step; [tx_step; by split|]. do 2 tx_step; [done|]. tx_step; [tx_step; by split|].
  do 2 tx_step; [done|].
  pose proof (insert_key_spec schedule key (MkKeyRow run chain hop) d) as Hk.
  destruct (insert_key _ _ _ d) as [[[] d1]|]; [|done]. destruct Hk as [_ ->]. split; [|done].
  do 2 tx_step; [done|].
  set (l := MkLeaseRow _ _ _ _ _ _ _ _ _).
  pose proof (insert_lease_spec run l (d <| dispatch_keys ::= <[(schedule, key) := MkKeyRow run chain hop]> |>)) as Hl.
  destruct (insert_lease _ _ _) as [[[] d2]|]; [|done]. destruct Hl as [Hl ->]. split; [|done].
  tx_step. apply wpt_insert_event_row. intros eid. tx_step. split; [|done]. by apply settled_once_accept.
Qed.

Lemma start_renew_ok run owner' n :
  preserves dispatch_ok (start_event_dispatch_lease run owner' n) ∧
  preserves dispatch_ok (renew_event_dispatch_lease run owner' n).
Proof.
  split; (inv_step; apply wpi_stmt; [done|]; intros now d x Hd;
    match goal with |- context [update_lease run ?g ?f d] =>
      pose proof (update_lease_keep run g f d) as Hk; destruct (update_lease run g f d) as [b d'] end;
    (split; [|done]); apply Hk; [|done]; intros l; unfold lease_open; intros Hg; case_bool;
    cbn; by repeat match goal with H : le_status l = _ |- _ => rewrite H end).
Qed.

Lemma finish_ok schedule org run owner' r :
  preserves dispatch_ok (finish_event_dispatch_lease uuids schedule org run owner' r).
Proof.
  unfold finish_event_dispatch_lease. inv_step. inv_step; [done|]. intros now d x Hd.
  do 2 tx_step; [done|]. unfold update_lease. destruct (leases d !! run) as [l|] eqn:Hl; cbn [andb].
  2: { split; [|done]. cbn. tx_step. by split. }
  destruct (bool_decide (le_owner l = owner') && lease_open l) eqn:Hg.
  2: { split; [|done]. cbn. tx_step. by split. }
  split; [|done]. cbn [negb]. tx_step. apply wpt_insert_event_row. intros eid. tx_step. split; [|done]. case_bool.
  eapply settled_once_settle; [done|exact Hl|done|apply terminal_status_closed|done].
Qed.

Lemma stored_or_failed_spec now schedule org run max error d :
  wpt now (stored_or_failed uuids schedule org run max error) (settled_result now schedule org run max error d)
    (λ _ _, True) d.
Proof.
  unfold stored_or_failed. do 2 tx_step; [done|]. destruct (find_org_result schedule org run d) as [r|] eqn:Hf.
  { do 2 tx_step. cbn. apply wpt_ret. by constructor. }
  do 5 tx_step; [done|]. unfold insert_result_once. case_bool_decide as Hr; cbn.
  { split; [|done]. tx_step; [done|]. rewrite Hf. cbn. by apply wpt_raise. }
  set (r := MkRunResult s schedule org run "failed" "" 0 error now).
  pose proof (insert_result_spec r d) as Hi. destruct (insert_result r d) as [[r' d1]|] eqn:Hir; [|done].
  destruct Hi as (-> & Hs & ->). cbn. split; [|done]. unfold count_run_failure. do 3 tx_step; [done|].
  match goal with |- context [update_schedule ?i _ ?f ?d] => pose proof (update_schedule_alter i f d) as Hu end.
  destruct (update_schedule _ _ _ _) as [[o d2]|]; [|done]. subst d2. split; [|done]. do 2 tx_step. cbn.
  apply wpt_ret. constructor; [done| |done]. destruct (find_result schedule run d) eqn:E; [|done]. by destruct Hr.
Qed.

Lemma settled_result_same now schedule org run max error d s d' :
  settled_result now schedule org run max error d s d' → same_dispatch d d'.
Proof. by intros []. Qed.

Lemma fail_event_dispatch_ok schedule org run owner' n error :
  preserves dispatch_ok (fail_event_dispatch uuids schedule org run owner' n error).
Proof.
  unfold fail_event_dispatch. inv_step. inv_step; [done|]. intros now d x Hd.
  do 2 tx_step; [done|]. destruct (leases d !! run) as [l|] eqn:Hl; cbn; [|tx_step; by split].
  destruct (bool_decide (le_owner l = owner')) eqn:Ho; [|tx_step; by split].
  destruct (lease_open l) eqn:Hopen; [|tx_step; by split]. tx_step.
  eapply wpt_mono; [apply stored_or_failed_spec| |done]. cbv beta.
  intros stored d1 [Hl1 He1]%settled_result_same. tx_step.
  eapply wpt_update_lease; [by rewrite Hl1|done|]. tx_step. apply wpt_insert_event_row. intros eid. tx_step.
  split; [|done]. unfold dispatch_ok, dispatch_inv. cbn. rewrite Hl1, He1.
  eapply settled_once_settle; [done|exact Hl|done|apply terminal_status_closed|done].
Qed.

(** One round of the recovery, and the rounds in order. *)
Definition recovery_event (now : Z) (run : string) (l : LeaseRow) (s : RunResult) (id : string) : EventRow :=
  audit_row id (le_schedule l) (le_org l) run RunSettled (rr_status s) (Z.max 0 (rr_cost s))
    (error_unless_completed (terminal_status (rr_status s)) recovery_timed_out).

Definition recovered_lease (now : Z) (l : LeaseRow) (s : RunResult) : LeaseRow :=
  closed_lease now (terminal_status (rr_status s))
    (error_unless_completed (terminal_status (rr_status s)) recovery_timed_out) l.

Inductive recovered (now max : Z) : list (string * LeaseRow) → SchedDb → SchedDb → Prop :=
  | RecoveredNone d : recovered now max [] d d
  | RecoveredOne run l rows d s d1 eid d2 :
      leases d !! run = Some l →
      settled_result now (le_schedule l) (le_org l) run max recovery_timed_out d s d1 →
      recovered now max rows
        (d1 <| leases ::= <[run := recovered_lease now l s]> |>
            <| trigger_events ::= λ evs, evs ++ [recovery_event now run l s eid] |>) d2 →
      recovered now max ((run, l) :: rows) d d2.

Lemma recover_loop_spec now max rows acc d :
  NoDup rows.*1 → (∀ run l, (run, l) ∈ rows → leases d !! run = Some l) →
  wpt now (for_each rows acc (λ n kl, recover_lease uuids max kl;; mret (n + 1)))
    (λ n d', n = acc + len rows ∧ recovered now max rows d d') (λ _ _, True) d.
Proof.
  revert acc d. induction rows as [|[run l] rows IH]; intros acc d Hnd Hrows; cbn [for_each].
  { apply wpt_ret. split; [unfold len; cbn; lia|constructor]. }
  apply NoDup_cons in Hnd as [Hrun Hnd]. pose proof (Hrows run l ltac:(left)) as Hl.
  unfold recover_lease. do 3 tx_step. eapply wpt_mono; [apply stored_or_failed_spec| |done].
  cbv beta. intros s d1 Hs. destruct (settled_result_same _ _ _ _ _ _ _ _ _ Hs) as [Hl1 _]. tx_step.
  eapply wpt_update_lease; [by rewrite Hl1|done|]. apply wpt_insert_event_row. intros eid. tx_step.
  eapply wpt_mono; [apply IH; [done|]| |done].
  - intros run' l' Hin. cbn. rewrite lookup_insert_ne, Hl1; [apply Hrows; by right|].
    intros <-. apply Hrun. apply list_elem_of_fmap. by exists (run, l').
  - intros n d2 [-> Hr]. split; [unfold len; cbn [length]; lia|]. by econstructor.
Qed.

Lemma recovered_inv now max rows d d' :
  recovered now max rows d d' → Forall (λ kl, lease_open kl.2 = true) rows → dispatch_inv d → dispatch_inv d'.
Proof.
  induction 1 as [|run l rows d s d1 eid d2 Hl Hs Hr IH]; intros Ho Hd; [done|].
  apply Forall_cons in Ho as [Ho Hrest]. apply IH; [done|].
  destruct (settled_result_same _ _ _ _ _ _ _ _ _ Hs) as [Hl1 He1]. unfold dispatch_inv. cbn. rewrite Hl1, He1.
  eapply settled_once_settle; [done|exact Hl|done|apply terminal_status_closed|done].
Qed.

Lemma expired_leases_spec n now d :
  NoDup (expired_leases n now d).*1 ∧
  ∀ run l, (run, l) ∈ expired_leases n now d → leases d !! run = Some l ∧ expired now l = true.
Proof.
  unfold expired_leases, limit. split.
  - eapply sublist_NoDup; [|apply (fmap_sublist fst), sublist_take]. rewrite (order_by_perm lease_leb).
    eapply sublist_NoDup; [|apply (fmap_sublist fst), sublist_filter]. apply NoDup_fst_map_to_list.
  - intros run l Hin. apply (elem_of_limit n), elem_of_order_by, list_elem_of_filter in Hin as [He Hin].
    by apply elem_of_map_to_list in Hin.
Qed.

Lemma recover_spec now n max d :
  wpt now (rows ← query (expired_leases n);
           for_each rows 0 (λ recovered kl, recover_lease uuids max kl;; mret (recovered + 1)))
    (λ k d', k = len (expired_leases n now d) ∧ recovered now max (expired_leases n now d) d d') (λ _ _, True) d.
Proof.
  do 2 tx_step; [done|]. destruct (expired_leases_spec n now d) as [Hnd Hrows].
  apply recover_loop_spec; [done|]. intros run l Hin. by apply Hrows.
Qed.

Lemma recover_ok n max : preserves dispatch_ok (recover_expired_event_dispatches uuids n max).
Proof.
  unfold recover_expired_event_dispatches. inv_step. inv_step; [done|]. intros now d x Hd.
  eapply wpt_mono; [apply recover_spec| |done]. cbv beta. intros k d' [_ Hr]. split; [|done].
  eapply recovered_inv; [done| |done]. apply Forall_forall. intros [run l] Hin.
  destruct (expired_leases_spec n now d) as [_ Hrows]. destruct (Hrows run l Hin) as [_ He].
  by apply andb_true_iff in He as [? _].
Qed.

Lemma modify_process_ok f : preserves dispatch_ok (modify_ext f : SH unit).
Proof. by apply wpi_modify_ext. Qed.

Lemma call_ok {A} (f : Z → res A) : preserves dispatch_ok (call f).
Proof. by apply preserves_external. Qed.

Lemma broadcasts_ok run schedule org tweet :
  preserves dispatch_ok (reserve_x_broadcast run schedule org) ∧
  preserves dispatch_ok (record_x_broadcast_tweet run tweet).
Proof.
  split; (inv_step; apply wpi_stmt; [done|]; intros now d x Hd); [destruct (broadcasts d !! run)|]; by split.
Qed.

Lemma marks_skipped_ok id : preserves dispatch_ok (mark_scheduled_run_skipped id).
Proof. apply (marks_ok id 0). Qed.
Lemma marks_succeeded_ok id : preserves dispatch_ok (mark_scheduled_run_succeeded id).
Proof. apply (marks_ok id 0). Qed.
Lemma marks_failed_ok id n : preserves dispatch_ok (mark_scheduled_run_failed id n).
Proof. apply (marks_ok id n). Qed.
Lemma start_ok run owner' n : preserves dispatch_ok (start_event_dispatch_lease run owner' n).
Proof. apply start_renew_ok. Qed.
Lemma reserve_x_ok run schedule org : preserves dispatch_ok (reserve_x_broadcast run schedule org).
Proof. by apply broadcasts_ok. Qed.
Lemma record_x_ok run tweet : preserves dispatch_ok (record_x_broadcast_tweet run tweet).
Proof. by apply (broadcasts_ok run "" "" tweet). Qed.

Create HintDb sched.
Hint Resolve insert_event_row_ok record_event_ok create_scheduled_run_ok create_event_trigger_ok
  update_scheduled_run_ok queue_scheduled_run_now_ok requeue_ok rotate_ok delete_scheduled_run_ok record_result_ok
  marks_skipped_ok marks_succeeded_ok marks_failed_ok claim_due_schedules_ok reserve_ok start_ok finish_ok
  fail_event_dispatch_ok recover_ok modify_process_ok call_ok reserve_x_ok record_x_ok : sched.

Lemma publish_ok schedule stored : preserves dispatch_ok (_publish_x_broadcast settings schedule stored).
Proof. unfold _publish_x_broadcast. preserve with sched. by apply preserves_external. Qed.

Lemma run_and_record_ok schedule prompt run : preserves dispatch_ok (_run_and_record settings uuids schedule prompt run).
Proof.
  destruct schedule as [id row]. unfold _run_and_record, _ingest_labeling_prediction.
  pose proof publish_ok. preserve with sched.
Qed.

Lemma tick_ok : preserves dispatch_ok (scheduled_runs_tick settings uuids).
Proof.
  unfold scheduled_runs_tick, _execute_isolated, execute_scheduled_run. pose proof run_and_record_ok.
  preserve with sched.
Qed.

Lemma dispatch_child_ok schedule next result n chain hop :
  preserves dispatch_ok (dispatch_child settings uuids owner schedule next result n chain hop).
Proof. unfold dispatch_child, get_scheduled_run, _spawn_event_run. preserve with sched. Qed.

Lemma dispatch_chain_child_ok schedule result n chain hop :
  preserves dispatch_ok (_dispatch_chain_child settings uuids owner schedule result n chain hop).
Proof.
  unfold _dispatch_chain_child. pose proof dispatch_child_ok. preserve with sched. by apply record_event_ok.
Qed.

Lemma background_ok t : preserves dispatch_ok (_run_event_in_background settings uuids owner t).
Proof.
  unfold _run_event_in_background, fail_event, execute_event_run. pose proof run_and_record_ok.
  pose proof dispatch_chain_child_ok. preserve with sched.
Qed.

Lemma event_loop_ok fuel : preserves dispatch_ok (event_loop settings uuids owner fuel).
Proof.
  pose proof background_ok. induction fuel as [|fuel IH]; cbn [event_loop]; unfold next_task; preserve with sched.
Qed.

Lemma dispatch_event_ok q : preserves dispatch_ok (dispatch_event settings uuids owner q).
Proof.
  unfold dispatch_event, get_event_trigger_for_dispatch, dispatch_rendered, get_existing_dispatch, dispatch_reserved,
    _spawn_event_run.
  preserve with sched; by apply record_event_ok.
Qed.
End preserved.

(** ** What the recovery of expired leases does *)
Lemma find_snoc {A} (f : A → bool) (l : list A) a :
  find f (l ++ [a]) = match find f l with Some b => Some b | None => if f a then Some a else None end.
Proof. induction l as [|b l IH]; [done|]. cbn. by destruct (f b). Qed.

Lemma settled_result_find now schedule org run max error d s d1 :
  settled_result now schedule org run max error d s d1 →
  find_org_result schedule org run d1 = Some s ∧
  match find_org_result schedule org run d with Some s0 => s = s0 | None => rr_status s = "failed" ∧ rr_cost s = 0 end ∧
  ∀ schedule' org' run', run' ≠ run → find_org_result schedule' org' run' d1 = find_org_result schedule' org' run' d.
Proof.
  intros [s0 Hf|id Hf Hr Hs]; [by rewrite Hf|]. rewrite Hf. unfold find_org_result, find_result in *. cbn.
  split_and!; [|done..|].
  - rewrite find_snoc, Hr. cbn. rewrite !bool_decide_true by done. cbn. by rewrite bool_decide_true.
  - intros schedule' org' run' Hne. rewrite find_snoc.
    cbn. rewrite (bool_decide_false (run = run')), andb_false_r by congruence. clear. by destruct (find _ (run_results d)).
Qed.

(** The failures a schedule is charged with: its leases without a stored result. *)
Definition unreported (id : string) (rows : list (string * LeaseRow)) (d : SchedDb) : nat :=
  length (filter (λ kl, le_schedule kl.2 = id ∧ find_org_result id (le_org kl.2) kl.1 d = None) rows).

Lemma unreported_ext id rows d d' :
  (∀ run l, (run, l) ∈ rows → find_org_result id (le_org l) run d' = find_org_result id (le_org l) run d) →
  unreported id rows d' = unreported id rows d.
Proof.
  intros Hf. unfold unreported. induction rows as [|[run l] rows IH]; [done|]. rewrite !filter_cons. cbn [fst snd].
  rewrite (Hf run l) by left. case_decide; cbn [length]; [f_equal|]; apply IH; intros; apply Hf; by right.
Qed.

Lemma recovered_frame now max rows d d' run :
  recovered now max rows d d' → run ∉ rows.*1 →
  leases d' !! run = leases d !! run ∧
  ∀ schedule org, find_org_result schedule org run d' = find_org_result schedule org run d.
Proof.
  induction 1 as [|run0 l rows d s d1 eid d2 Hl Hs Hr IH]; intros Hrun; [done|].
  cbn in Hrun. apply not_elem_of_cons in Hrun as [Hne Hrun]. destruct (IH Hrun) as [Hl2 Hf2].
  destruct (settled_result_find _ _ _ _ _ _ _ _ _ Hs) as (_ & _ & Hf).
  destruct (settled_result_same _ _ _ _ _ _ _ _ _ Hs) as [Hl1 _].
  split; [rewrite Hl2; cbn; by rewrite lookup_insert_ne, Hl1|]. intros schedule org. rewrite Hf2. by apply Hf.
Qed.

(** A recovered lease is closed with the stored result of its run: the one that was
    there, else a failure that cost nothing. *)
Definition lease_recovered (now : Z) (d d' : SchedDb) (run : string) (l : LeaseRow) : Prop :=
  ∃ s, find_org_result (le_schedule l) (le_org l) run d' = Some s ∧
       leases d' !! run = Some (recovered_lease now l s) ∧
       match find_org_result (le_schedule l) (le_org l) run d with
       | Some s0 => s = s0
       | None => rr_status s = "failed" ∧ rr_cost s = 0
       end.

Lemma recovered_leases now max rows d d' :
  recovered now max rows d d' → NoDup rows.*1 → ∀ run l, (run, l) ∈ rows → lease_recovered now d d' run l.
Proof.
  induction 1 as [|run0 l0 rows d s d1 eid d2 Hl Hs Hr IH]; intros Hnd run l Hin; [by apply elem_of_nil in Hin|].
  apply NoDup_cons in Hnd as [Hrun0 Hnd]. destruct (settled_result_find _ _ _ _ _ _ _ _ _ Hs) as (Hf1 & Hs0 & Hf).
  apply elem_of_cons in Hin as [[= -> ->]|Hin].
  - destruct (recovered_frame _ _ _ _ _ run0 Hr Hrun0) as [Hl2 Hf2]. exists s. split_and!; [|by rewrite Hl2; cbn; rewrite lookup_insert_eq|done].
    rewrite Hf2. exact Hf1.
  - assert (run ≠ run0) as Hne.
    { intros ->. apply Hrun0. apply list_elem_of_fmap. by exists (run0, l). }
    destruct (IH Hnd run l Hin) as (s' & Hs1 & Hs2 & Hs3). exists s'. split_and!; [done..|].
    revert Hs3. change (find_org_result (le_schedule l) (le_org l) run (d1 <| leases ::= <[run0 := recovered_lease now l0 s]> |> <| trigger_events ::= λ evs, evs ++ [recovery_event now run0 l0 s eid] |>))
      with (find_org_result (le_schedule l) (le_org l) run d1). by rewrite Hf.
Qed.

Lemma settled_result_schedules now schedule org run max error d s d1 id :
  settled_result now schedule org run max error d s d1 →
  schedules d1 !! id = (if decide (schedule = id ∧ find_org_result schedule org run d = None)
                        then failed_run now max <$> schedules d !! id else schedules d !! id).
Proof.
  intros [s0 Hf|i Hf Hr Hs]; rewrite Hf.
  - rewrite decide_False; [done|]. by intros [_ ?].
  - cbn. case_decide as Hd.
    + destruct Hd as [<- _]. by rewrite lookup_alter_eq.
    + rewrite lookup_alter_ne; [done|]. intros ->. by apply Hd.
Qed.

Lemma recovered_schedules now max rows d d' id :
  recovered now max rows d d' → NoDup rows.*1 →
  schedules d' !! id = Nat.iter (unreported id rows d) (failed_run now max) <$> schedules d !! id.
Proof.
  induction 1 as [|run0 l rows d s d1 eid d2 Hl Hs Hr IH]; intros Hnd.
  { cbn. by destruct (schedules d !! id). }
  apply NoDup_cons in Hnd as [Hrun0 Hnd]. rewrite IH by done. cbn [schedules].
  destruct (settled_result_find _ _ _ _ _ _ _ _ _ Hs) as (_ & _ & Hf).
  rewrite (unreported_ext id rows d).
  2: { intros run l' Hin. apply (Hf id (le_org l') run). intros ->. apply Hrun0, list_elem_of_fmap. by exists (run0, l'). }
  change (schedules (d1 <| leases ::= <[run0 := recovered_lease now l s]> |> <| trigger_events ::= λ evs, evs ++ [recovery_event now run0 l s eid] |>))
    with (schedules d1).
  rewrite (settled_result_schedules _ _ _ _ _ _ _ _ _ id Hs). unfold unreported at 2. rewrite filter_cons. cbn [fst snd].
  repeat case_decide; cbn [length]; try naive_solver.
  - destruct (schedules d !! id) as [r|]; [|done]. cbn [fmap option_fmap option_map]. by rewrite Nat.iter_succ_r.
Qed.

Lemma recovered_settled now max rows d d' run :
  recovered now max rows d d' → NoDup rows.*1 →
  count_events RunSettled run (trigger_events d')
  = count_events RunSettled run (trigger_events d) + (if decide (run ∈ rows.*1) then 1 else 0).
Proof.
  induction 1 as [|run0 l rows d s d1 eid d2 Hl Hs Hr IH]; intros Hnd.
  { rewrite decide_False by apply not_elem_of_nil. lia. }
  apply NoDup_cons in Hnd as [Hrun0 Hnd]. rewrite IH by done.
  change (trigger_events (d1 <| leases ::= <[run0 := recovered_lease now l s]> |> <| trigger_events ::= λ evs, evs ++ [recovery_event now run0 l s eid] |>))
    with (trigger_events d1 ++ [recovery_event now run0 l s eid]).
  rewrite count_events_snoc. cbn [ev_type ev_run recovery_event audit_row].
  destruct (settled_result_same _ _ _ _ _ _ _ _ _ Hs) as [_ ->].
  change (((run0, l) :: rows).*1) with (run0 :: rows.*1).
  rewrite (decide_ext (run ∈ run0 :: rows.*1) (run = run0 ∨ run ∈ rows.*1)) by apply elem_of_cons.
  rewrite (bool_decide_true (RunSettled = RunSettled)) by done. cbn [andb].
  destruct (decide (run = run0)) as [->|Hne].
  - rewrite bool_decide_true, (decide_False (P := run0 ∈ rows.*1)), decide_True by (done || by left). lia.
  - rewrite bool_decide_false by done.
    rewrite (decide_ext (run = run0 ∨ run ∈ rows.*1) (run ∈ rows.*1)) by naive_solver. lia.
Qed.

(** Everything a recovery at the time [now] of the [n] oldest expired leases promises. *)
Record recovery (n max now : Z) (d : SchedDb) (k : Z) (d' : SchedDb) : Prop := {
  rv_count : k = len (expired_leases n now d);
  rv_oldest : ∀ run l run' l', (run, l) ∈ expired_leases n now d → (run', l') ∉ expired_leases n now d →
    leases d !! run' = Some l' → expired now l' = true → le_expires l ≤ le_expires l';
  rv_lease : ∀ run l, (run, l) ∈ expired_leases n now d → lease_recovered now d d' run l;
  rv_other : ∀ run, run ∉ (expired_leases n now d).*1 → leases d' !! run = leases d !! run;
  rv_complete : k < n → ∀ run l, leases d' !! run = Some l → expired now l = false;
  rv_schedules : ∀ id, schedules d' !! id
    = Nat.iter (unreported id (expired_leases n now d) d) (failed_run now max) <$> schedules d !! id;
  rv_settled : ∀ run, count_events RunSettled run (trigger_events d')
    = count_events RunSettled run (trigger_events d) + (if decide (run ∈ (expired_leases n now d).*1) then 1 else 0);
}.

Lemma expired_leases_all n now d run l :
  len (expired_leases n now d) < n → leases d !! run = Some l → expired now l = true →
  (run, l) ∈ expired_leases n now d.
Proof.
  unfold expired_leases, limit, len. intros Hlen Hl He. rewrite length_take in Hlen. rewrite take_ge by lia.
  apply elem_of_order_by, list_elem_of_filter. split; [done|]. by apply elem_of_map_to_list.
Qed.

Lemma lease_leb_total a b : lease_leb a b = false → lease_leb b a = true.
Proof.
  unfold lease_leb. intros [Ht Hs]%orb_false_iff. case_bool. destruct (decide (le_expires b.2 = le_expires a.2)) as [He|Hne].
  - rewrite He, Z.eqb_refl in *. rewrite (string_leb_total _ _ Hs). by rewrite orb_true_r.
  - apply orb_true_iff. left. apply Z.ltb_lt. lia.
Qed.

Lemma lease_leb_trans a b c : lease_leb a b = true → lease_leb b c = true → lease_leb a c = true.
Proof.
  unfold lease_leb. rewrite !orb_true_iff, !andb_true_iff, !Z.ltb_lt, !Z.eqb_eq.
  intros [?|[-> ?]] [?|[? ?]]; [left; lia|left; lia|left; lia|right; split; [done|by eapply string_leb_trans]].
Qed.

Lemma expired_leases_oldest n now d run l run' l' :
  (run, l) ∈ expired_leases n now d → (run', l') ∉ expired_leases n now d → leases d !! run' = Some l' →
  expired now l' = true → le_expires l ≤ le_expires l'.
Proof.
  intros Hin Hout Hl He. assert (lease_leb (run, l) (run', l') = true) as Hle.
  { eapply limit_order_by_precedes; [apply lease_leb_total|apply lease_leb_trans|exact Hin| |exact Hout].
    apply list_elem_of_filter. split; [done|]. by apply elem_of_map_to_list. }
  unfold lease_leb in Hle. apply orb_true_iff in Hle as [?|[??]%andb_true_iff]; cbn in *; case_bool; lia.
Qed.

Lemma recovered_recovery n max now d k d' :
  k = len (expired_leases n now d) → recovered now max (expired_leases n now d) d d' → recovery n max now d k d'.
Proof.
  intros Hk Hr. destruct (expired_leases_spec n now d) as [Hnd _].
  pose proof (recovered_leases _ _ _ _ _ Hr Hnd) as Hleases.
  split; [done|apply expired_leases_oldest|done| | |intros; by apply recovered_schedules|intros; by eapply recovered_settled].
  - intros run Hrun. by apply (recovered_frame _ _ _ _ _ _ Hr).
  - intros Hlt run l Hl. destruct (decide (run ∈ (expired_leases n now d).*1)) as [Hin|Hout].
    + apply list_elem_of_fmap in Hin as ([run0 l0] & -> & Hin). destruct (Hleases run0 l0 Hin) as (s & _ & Hl0 & _).
      cbn in Hl. rewrite Hl0 in Hl. injection Hl as <-. unfold expired, recovered_lease.
      by rewrite terminal_status_closed.
    + destruct (recovered_frame _ _ _ _ _ _ Hr Hout) as [Hsame _]. rewrite Hsame in Hl.
      destruct (expired now l) eqn:He; [|done]. destruct Hout. apply list_elem_of_fmap. exists (run, l).
      split; [done|]. apply expired_leases_all; [lia|done..].
Qed.

(** ** What a reservation does *)
Definition reserved_lease (schedule org key owner : string) (expires : Z) : LeaseRow :=
  MkLeaseRow schedule org key owner LReserved expires None None "".

Definition reserved_db (schedule org key run owner chain : string) (hop expires : Z) (eid : string) (d : SchedDb)
    : SchedDb :=
  d <| dispatch_keys ::= <[(schedule, key) := MkKeyRow run chain hop]> |>
    <| leases ::= <[run := reserved_lease schedule org key owner expires]> |>
    <| trigger_events ::= λ l, l ++ [audit_row eid schedule org run DispatchAccepted "" 0 ""] |>.

(** The outcome at the time [now]: a duplicate or a saturated request writes nothing, an
    accepted one takes a free key, a free run and a slot within both limits. *)
Definition reservation (schedule org key run owner : string) (n gl ol : Z) (chain : string) (hop : Z) (d : SchedDb)
    (now : Z) (r : string * LeaseOutcome) (d' : SchedDb) : Prop :=
  match r.2 with
  | Duplicate => d' = d ∧ k_run <$> dispatch_keys d !! (schedule, key) = Some r.1
  | Saturated => d' = d ∧ r.1 = run ∧ dispatch_keys d !! (schedule, key) = None ∧
                 (gl ≤ count_active now d ∨ ol ≤ count_org_active org now d)
  | Accepted =>
      r.1 = run ∧ dispatch_keys d !! (schedule, key) = None ∧ leases d !! run = None ∧
      count_active now d < gl ∧ count_org_active org now d < ol ∧
      count_active now d' ≤ gl ∧ count_org_active org now d' ≤ ol ∧
      (∀ key' k', dispatch_keys d !! key' = Some k' → (k_chain k', k_hop k') ≠ (chain, hop)) ∧
      ∃ eid, d' = reserved_db schedule org key run owner chain hop (now + seconds n) eid d
  end.

Lemma key_conflict_false s k r d :
  key_conflict s k r d = false →
  dispatch_keys d !! (s, k) = None ∧
  ∀ key' k', dispatch_keys d !! key' = Some k' → (k_chain k', k_hop k') ≠ (k_chain r, k_hop r).
Proof.
  unfold key_conflict. intros [Hk He]%orb_false_iff. split.
  - case_bool. destruct (dispatch_keys d !! (s, k)); [|done]. by destruct Hk.
  - intros key' k' Hk' [= Hc Hh]. assert (existsb (λ kv, bool_decide (k_chain kv.2 = k_chain r) && (k_hop kv.2 =? k_hop r))
      (map_to_list (dispatch_keys d)) = true); [|congruence].
    apply existsb_exists. exists (key', k'). split; [by apply list_elem_of_In, elem_of_map_to_list|].
    cbn. rewrite bool_decide_true, Hh by done. apply Z.eqb_refl.
Qed.

Lemma msum_step {V} (f : V → Z) (m : gmap string V) k v :
  m !! k = None → msum (λ _ v, f v) (<[k := v]> m) = f v + msum (λ _ v, f v) m.
Proof. apply msum_insert. Qed.

Lemma reserve_spec uuids schedule org key run owner n gl ol chain hop now d :
  wpt now (reserve_event_dispatch_lease uuids schedule org key run owner n gl ol chain hop)
    (reservation schedule org key run owner n gl ol chain hop d now) (λ _ _, True) d.
Proof.
  apply wpt_savepoint. unfold lock_event_leases.
  do 2 tx_step; [done|]. do 2 tx_step; [done|].
  destruct (dispatch_keys d !! (schedule, key)) as [k|] eqn:Hkey; cbn [fmap option_fmap option_map].
  { tx_step. split; [done|]. cbn. by rewrite Hkey. }
  do 2 tx_step; [done|]. tx_step; [tx_step; case_bool; cbn; by auto|].
  do 2 tx_step; [done|]. tx_step; [tx_step; case_bool; cbn; by auto|].
  case_bool. do 2 tx_step; [done|]. pose proof (insert_key_spec schedule key (MkKeyRow run chain hop) d) as Hk.
  destruct (insert_key _ _ _ d) as [[[] d1]|]; [|done]. destruct Hk as [[_ Hfree]%key_conflict_false ->]. split; [|done].
  do 2 tx_step; [done|]. fold (reserved_lease schedule org key owner (now + seconds n)).
  set (l := reserved_lease _ _ _ _ _).
  pose proof (insert_lease_spec run l (d <| dispatch_keys ::= <[(schedule, key) := MkKeyRow run chain hop]> |>)) as Hl.
  destruct (insert_lease _ _ _) as [[[] d2]|]; [|done]. destruct Hl as [Hl ->]. split; [|done]. cbn in Hl.
  tx_step. apply wpt_insert_event_row. intros eid. tx_step. cbn. split_and!; try done.
  - unfold count_active. cbn. rewrite (msum_step (λ l, if lease_active now l then 1 else 0)) by done.
    fold (count_active now d). destruct (lease_active now l); lia.
  - unfold count_org_active. cbn. rewrite (msum_step (λ l, if lease_active now l && bool_decide (le_org l = org) then 1 else 0)) by done.
    fold (count_org_active org now d). destruct (lease_active now l && _); lia.
  - by exists eid.
Qed.

(** ** Chains end *)
Section chains.
Context `{!Services}.
Variables (settings : SchedulingSettings) (uuids : nat → string) (owner : string).

(** The others leave the tasks of this process alone. *)
Definition tasks_rely (d : SchedDb) (x : Process) (d' : SchedDb) (x' : Process) : Prop := tasks x' = tasks x.

Definition tasks_are (l : list Task) : SchedDb → Process → Prop := on_ext (λ x, tasks x = l).

Lemma tasks_stable l : stable tasks_rely (tasks_are l).
Proof. intros d x d' x' Hx Hr. unfold tasks_are, on_ext in *. by rewrite Hr. Qed.

Create HintDb tasks.

Lemma run_and_record_tasks l schedule prompt run :
  preserves (tasks_are l) (_run_and_record settings uuids schedule prompt run).
Proof.
  destruct schedule as [id row]. unfold tasks_are, _run_and_record, _ingest_labeling_prediction, call,
    record_scheduled_run_result, mark_scheduled_run_skipped, mark_scheduled_run_succeeded, mark_scheduled_run_failed,
    requeue_scheduled_run_after_capacity, _publish_x_broadcast, reserve_x_broadcast, record_x_broadcast_tweet.
  preserve with tasks; by apply preserves_external.
Qed.

Lemma fail_event_tasks l schedule run : preserves (tasks_are l) (fail_event settings uuids owner schedule run).
Proof.
  unfold tasks_are, fail_event, fail_event_dispatch, stored_or_failed, count_run_failure, _row_to_scheduled_run_result,
    insert_event_row.
  preserve with tasks.
Qed.

Lemma record_event_tasks l schedule org run typ status cost error :
  preserves (tasks_are l) (record_event_trigger_event uuids schedule org run typ status cost error).
Proof. unfold tasks_are, record_event_trigger_event, insert_event_row. preserve with tasks. Qed.

Lemma finish_tasks l schedule org run result :
  preserves (tasks_are l) (finish_event_dispatch_lease uuids schedule org run owner result).
Proof. unfold tasks_are, finish_event_dispatch_lease, insert_event_row. preserve with tasks. Qed.

Lemma reserve_tasks l schedule org key run n gl ol chain hop :
  preserves (tasks_are l) (reserve_event_dispatch_lease uuids schedule org key run owner n gl ol chain hop).
Proof. unfold tasks_are, reserve_event_dispatch_lease, lock_event_leases, insert_event_row. preserve with tasks. Qed.

(** At most one child, one hop further, within the limit. *)
Definition spawned_at_most_one (l : list Task) (hop : Z) (x : Process) : Prop :=
  tasks x = l ∨ ∃ t, tasks x = l ++ [t] ∧ t_hop t = hop + 1 ∧ hop + 1 ≤ event_chain_max_hops settings.

Lemma dispatch_child_spawns l schedule next result n chain hop :
  rg tasks_rely (tasks_are l) (dispatch_child settings uuids owner schedule next result n chain hop)
    (λ r _ x, match r with Ok None => spawned_at_most_one l hop x | _ => tasks x = l end).
Proof.
  unfold dispatch_child. destruct (_ <? _) eqn:Hhop; [by apply rg_ret|]. case_bool.
  apply rg_preserves_bind; [apply tasks_stable|apply preserves_query| |done].
  intros [child|]; [|by apply rg_ret]. destruct (_ || _); [by apply rg_ret|].
  apply rg_preserves_bind; [apply tasks_stable|by apply wpi_uuid4| |done]. intros run_id.
  apply rg_preserves_bind; [apply tasks_stable|apply reserve_tasks| |done].
  intros [child_run []]; [|by apply rg_ret..].
  eapply rg_bind; [by apply (rg_modify_ext _ _ _ (λ r _ x, match r with Ok _ =>
    tasks x = l ++ [MkTask child (render_event_prompt float_repr (sr_prompt child.2)
      (JObj [("output_text", JStr (rr_output result)); ("parent_run_id", JStr (rr_run result));
             ("parent_trigger_id", JStr schedule.1); ("chain_id", JStr chain)])
      (event_triggers_prompt_max_chars settings)) child_run n chain (hop + 1)] | Raise _ => False end));
    intros d x Hx; cbn; unfold tasks_are, on_ext in Hx; by rewrite Hx| |done].
  intros ?. apply rg_ret. intros d x Hx. right. by eexists.
Qed.

Lemma chain_child_spawns l schedule result n chain hop :
  rg tasks_rely (tasks_are l) (_dispatch_chain_child settings uuids owner schedule result n chain hop)
    (λ _ _ x, spawned_at_most_one l hop x).
Proof.
  unfold _dispatch_chain_child. destruct (sr_next_trigger _) as [next|]; [|apply rg_ret; by left].
  destruct (negb _); [apply rg_ret; by left|].
  eapply (rg_bind _ _ _ _ (λ r _ x, match r with Ok None => spawned_at_most_one l hop x | _ => tasks x = l end)).
  - eapply rg_catch; [apply dispatch_child_spawns| |done]. intros e. by apply rg_ret.
  - intros [reason|]; [|by apply rg_ret].
    eapply rg_mono; [apply rg_preserves; [apply tasks_stable|apply record_event_tasks]|done|]. intros. by left.
  - intros e d x Hx. by left.
Qed.

Lemma background_spawns l t :
  rg tasks_rely (tasks_are l) (_run_event_in_background settings uuids owner t)
    (λ _ _ x, spawned_at_most_one l (t_hop t) x).
Proof.
  assert (∀ l', stable tasks_rely (tasks_are l')) as Hstable by apply tasks_stable.
  assert (∀ e d x, tasks_are l d x → (λ (r : res unit) d x, match r with Ok _ => spawned_at_most_one l (t_hop t) x
            | Raise _ => spawned_at_most_one l (t_hop t) x end) (Raise e) d x) as Hraise by (intros; by left).
  unfold _run_event_in_background.
  eapply (rg_catch _ _ _ _ (λ _ _ x, spawned_at_most_one l (t_hop t) x)); [| |done].
  - apply rg_preserves_bind; [done|apply ext_only_stmt| |by intros; left]. intros [].
    2: { eapply rg_mono; [apply rg_preserves; [done|apply fail_event_tasks]|done|]. intros. by left. }
    apply rg_preserves_bind; [done|apply run_and_record_tasks| |by intros; left]. intros result.
    apply rg_preserves_bind; [done|apply finish_tasks| |by intros; left]. intros []; [apply chain_child_spawns|].
    apply rg_ret. by left.
  - intros e.
    intros w Hn Hs [Hx|(t' & Hx & Hhop)].
    + pose proof (rg_preserves _ _ _ (Hstable l) (fail_event_tasks l (t_schedule t) (t_run t)) w Hn Hs Hx) as Hrun.
      destruct (fail_event _ _ _ _ _ w). destruct Hrun as (? & ? & ?). split_and!; [done..|by left].
    + pose proof (rg_preserves _ _ _ (Hstable _) (fail_event_tasks (l ++ [t']) (t_schedule t) (t_run t)) w Hn Hs Hx) as Hrun.
      destruct (fail_event _ _ _ _ _ w). destruct Hrun as (? & ? & ?). split_and!; [done..|right; by exists t'].
Qed.

(** The runs a task can still cause, itself included. *)
Definition chain_budget (t : Task) : nat := S (Z.to_nat (event_chain_max_hops settings - t_hop t)).
Definition budget (l : list Task) : nat := sum_list_with chain_budget l.

Lemma event_loop_drains_aux l fuel :
  (budget l < fuel)%nat →
  rg tasks_rely (tasks_are l) (event_loop settings uuids owner fuel)
    (λ r _ x, tasks x = [] ∧ ∃ n, r = Ok n ∧ (n ≤ budget l)%nat).
Proof.
  revert l. induction fuel as [|fuel IH]; intros l Hfuel; [lia|]. cbn [event_loop].
  destruct l as [|t l].
  - eapply (rg_bind _ _ _ _ (λ r d x, tasks_are [] d x ∧ r = Ok None)); [| |by intros ??? [_ ?]].
    + unfold next_task. eapply (rg_bind _ _ _ _ (λ r d x, tasks_are [] d x ∧ r = Ok x)); [by apply rg_get_ext| |by intros ??? [_ ?]].
      intros x0. eapply (rg_pure _ _ (tasks x0 = [])); [by intros d x [Hx [= ->]]|]. intros ->.
      apply rg_ret. by intros d x [Hx _].
    + intros o. eapply (rg_pure _ _ (o = None)); [by intros d x [_ [= ?]]|]. intros ->. apply rg_ret.
      intros d x [Hx _]. split; [done|]. exists 0%nat. split; [done|lia].
  - eapply (rg_bind _ _ _ _ (λ r d x, tasks_are l d x ∧ r = Ok (Some t))); [| |by intros ??? [_ ?]].
    + unfold next_task. eapply (rg_bind _ _ _ _ (λ r d x, tasks_are (t :: l) d x ∧ r = Ok x)); [by apply rg_get_ext| |by intros ??? [_ ?]].
      intros x0. eapply (rg_pure _ _ (tasks x0 = t :: l)); [by intros d x [Hx [= ->]]|]. intros ->.
      eapply (rg_bind _ _ _ _ (λ r d x, tasks_are l d x ∧ r = Ok tt)); [by apply rg_modify_ext| |by intros ??? [_ ?]].
      intros []. apply rg_ret. by intros d x [Hx _].
    + intros o. eapply (rg_pure _ _ (o = Some t)); [by intros d x [_ [= ?]]|]. intros ->.
      eapply (rg_bind _ _ _ _ (λ r _ x, spawned_at_most_one l (t_hop t) x ∧ r = Ok tt)); [| |by intros ??? [_ ?]].
      * eapply (rg_mono _ (tasks_are l)); [|by intros d x [? _]|intros r d x Hr; exact Hr].
        eapply rg_catch; [apply (background_spawns l t)|intros e; by apply rg_ret|]. by intros [] d x Hx.
      * intros [] w Hn Hs [Hx _]. 
        assert (budget (t :: l) = S (Z.to_nat (event_chain_max_hops settings - t_hop t) + budget l)) as Hcons by done.
        assert (∃ l', tasks (ext w) = l' ∧ (budget l' < fuel)%nat ∧ (budget l' ≤ budget l + Z.to_nat (event_chain_max_hops settings - t_hop t))%nat)
          as (l' & Hl' & Hlt & Hle).
        { destruct Hx as [Hx|(t' & Hx & Hhop & Hmax)].
          - exists l. split_and!; [done|lia..].
          - exists (l ++ [t']). split; [done|].
            assert (budget (l ++ [t']) = budget l + S (Z.to_nat (event_chain_max_hops settings - t_hop t')))%nat as ->
              by (unfold budget; rewrite sum_list_with_app; cbn; unfold chain_budget; lia).
            rewrite Hhop. lia. }
        cut (rg tasks_rely (tasks_are l') (n ← event_loop settings uuids owner fuel; mret (S n))
          (λ r _ x, tasks x = [] ∧ ∃ n, r = Ok n ∧ (n ≤ budget (t :: l))%nat)); [intros Hrg; exact (Hrg w Hn Hs Hl')|].
        eapply (rg_bind tasks_rely (tasks_are l') _ _ (λ r _ x, tasks x = [] ∧ ∃ n, r = Ok n ∧ (n ≤ budget l')%nat)); [by apply IH| |].
        { intros n. apply rg_ret. intros d x [Hx' (m & [= ->] & Hm)]. split; [done|]. exists (S m). split; [done|].
          lia. }
        { by intros e d x (_ & n & ? & _). }
Qed.
End chains.

(** ** What a claim of due schedules does *)
Lemma next_run_leb_total a b : next_run_leb a b = false → next_run_leb b a = true.
Proof.
  unfold next_run_leb. destruct (sr_next_run a.2) as [t|], (sr_next_run b.2) as [t'|]; [|done..|apply string_leb_total].
  intros [Ht Hs]%orb_false_iff. case_bool. destruct (decide (t' = t)) as [->|Hne].
  - rewrite Z.eqb_refl in *. rewrite (string_leb_total _ _ Hs). by rewrite orb_true_r.
  - apply orb_true_iff. left. apply Z.ltb_lt. lia.
Qed.

Lemma next_run_leb_trans a b c : next_run_leb a b = true → next_run_leb b c = true → next_run_leb a c = true.
Proof.
  unfold next_run_leb.
  destruct (sr_next_run a.2) as [t|], (sr_next_run b.2) as [t'|], (sr_next_run c.2) as [t''|]; try done;
    [|apply string_leb_trans].
  rewrite !orb_true_iff, !andb_true_iff, !Z.ltb_lt, !Z.eqb_eq.
  intros [?|[-> ?]] [?|[-> ?]]; [left; lia|left; lia|left; lia|right; split; [done|by eapply string_leb_trans]].
Qed.

Lemma due_schedules_spec n now d :
  NoDup (due_schedules n now d).*1 ∧
  ∀ id r, (id, r) ∈ due_schedules n now d → schedules d !! id = Some r ∧ is_due now r = true.
Proof.
  unfold due_schedules, limit. split.
  - eapply sublist_NoDup; [|apply (fmap_sublist fst), sublist_take]. rewrite (order_by_perm next_run_leb).
    eapply sublist_NoDup; [|apply (fmap_sublist fst), sublist_filter]. apply NoDup_fst_map_to_list.
  - intros id r Hin. apply (elem_of_limit n), elem_of_order_by, list_elem_of_filter in Hin as [He Hin].
    by apply elem_of_map_to_list in Hin.
Qed.

Lemma foldr_insert_lookup {A} (f : A → A) (rows : list (string * A)) (m : gmap string A) id :
  (∀ k a, (k, a) ∈ rows → m !! k = Some a) →
  foldr (λ kr m, <[kr.1 := f kr.2]> m) m rows !! id = (if decide (id ∈ rows.*1) then f <$> m !! id else m !! id).
Proof.
  induction rows as [|[k a] rows IH]; intros Hrows; [by rewrite decide_False by apply not_elem_of_nil|].
  cbn [foldr fst snd]. change (((k, a) :: rows).*1) with (k :: rows.*1). destruct (decide (id = k)) as [->|Hne].
  - rewrite lookup_insert_eq, decide_True by left. by rewrite (Hrows k a) by left.
  - rewrite lookup_insert_ne, IH by (congruence || (intros; apply Hrows; by right)).
    rewrite (decide_ext (id ∈ k :: rows.*1) (id ∈ rows.*1)); [done|]. rewrite elem_of_cons. naive_solver.
Qed.

(** A claim at the time [now] of the [n] longest-due schedules. *)
Record claim (n : Z) (d : SchedDb) (now : Z) (rows : list ScheduledRun) (d' : SchedDb) : Prop := {
  cl_rows : rows = map (λ kr, (kr.1, claimed_row now kr.2)) (due_schedules n now d);
  cl_fair : ∀ a b t t', a ∈ due_schedules n now d → b ∉ due_schedules n now d →
    schedules d !! b.1 = Some b.2 → is_due now b.2 = true →
    sr_next_run a.2 = Some t → sr_next_run b.2 = Some t' → t ≤ t';
  cl_lookup : ∀ id, schedules d' !! id =
    (if decide (id ∈ rows.*1) then claimed_row now <$> schedules d !! id else schedules d !! id);
  cl_rest : d' = d <| schedules := schedules d' |>;
  cl_future : ∀ id r, (id, r) ∈ rows → schedules d' !! id = Some r ∧ ∃ t, sr_next_run r = Some t ∧ now < t;
  cl_complete : len rows < n → ∀ id r, schedules d' !! id = Some r → is_due now r = false;
}.

(** An interval schedule has a positive interval. *)
Definition intervals_ok (d : SchedDb) : Prop :=
  ∀ id r, schedules d !! id = Some r → sr_kind r = Interval → ∃ n, sr_interval r = Some n ∧ 0 < n.

Lemma claimed_row_future now d id r :
  intervals_ok d → schedules d !! id = Some r → is_due now r = true →
  ∃ t, sr_next_run (claimed_row now r) = Some t ∧ now < t.
Proof.
  intros Hok Hr [[_ Hk]%andb_true_iff _]%andb_true_iff. case_bool. destruct (Hok id r Hr Hk) as (n & Hn & Hpos).
  exists (now + seconds n). cbn. rewrite Hn. split; [done|]. unfold seconds, microsecond_per_second. lia.
Qed.

Lemma claim_due_spec n now d :
  intervals_ok d → wpt now (claim_due_schedules n) (claim n d now) (λ _ _, True) d.
Proof.
  intros Hok. apply wpt_savepoint, wpt_stmt; [done|]. cbv zeta. split; [|done].
  destruct (due_schedules_spec n now d) as [Hnd Hdue].
  assert (∀ id, schedules (advance_due now (due_schedules n now d) d) !! id =
    (if decide (id ∈ (due_schedules n now d).*1) then claimed_row now <$> schedules d !! id else schedules d !! id)) as Hlook.
  { intros id. unfold advance_due. cbn. apply (foldr_insert_lookup (claimed_row now)). intros k a Hin. by apply Hdue. }
  assert ((map (λ kr, (kr.1, claimed_row now kr.2)) (due_schedules n now d)).*1 = (due_schedules n now d).*1) as Hfst.
  { rewrite <- list_fmap_compose. done. }
  split; [done| |by intros id; rewrite Hlook, Hfst|done| |].
  - intros a [id r] t t' Ha Hb Hr Hd Ht Ht'. assert (next_run_leb a (id, r) = true) as Hle.
    { eapply limit_order_by_precedes; [apply next_run_leb_total|apply next_run_leb_trans|exact Ha| |exact Hb].
      apply list_elem_of_filter. split; [done|]. by apply elem_of_map_to_list. }
    unfold next_run_leb in Hle. rewrite Ht, Ht' in Hle. apply orb_true_iff in Hle as [?|[??]%andb_true_iff]; case_bool; lia.
  - intros id r Hin. apply list_elem_of_fmap in Hin as ([id0 r0] & [= -> ->] & Hin).
    destruct (Hdue id0 r0 Hin) as [Hr Hd]. split; [|by eapply claimed_row_future].
    rewrite Hlook, decide_True, Hr; [done|]. apply list_elem_of_fmap. by exists (id0, r0).
  - unfold len. rewrite length_map. intros Hlt id r. rewrite Hlook. case_decide as Hin.
    + apply list_elem_of_fmap in Hin as ([id0 r0] & -> & Hin). destruct (Hdue id0 r0 Hin) as [Hr Hd]. cbn.
      rewrite Hr. intros [= <-]. destruct (claimed_row_future now d id0 r0) as (t & Ht & Hlate); [done..|].
      unfold is_due. rewrite Ht. apply andb_false_iff. right. apply Z.leb_gt. lia.
    + intros Hr. destruct (is_due now r) eqn:Hd; [|done]. destruct Hin. apply list_elem_of_fmap. exists (id, r).
      split; [done|]. unfold due_schedules, limit in *. rewrite length_take in Hlt. rewrite take_ge by lia.
      apply elem_of_order_by, list_elem_of_filter. split; [done|]. by apply elem_of_map_to_list.
Qed.

(** ** Properties *)
Section properties.
Context `{!Services}.
Variables (settings : SchedulingSettings) (uuids : nat → string) (owner : string).

(** The operations of the component, with every argument they can be called with. *)
Inductive sched_op : ∀ {A}, SH A → Prop :=
  | OpCreate org user name prompt n url fmt first :
      sched_op (create_scheduled_run uuids org user name prompt n url fmt first)
  | OpCreateTrigger org user name prompt url token hash fmt next :
      sched_op (create_event_trigger uuids org user name prompt url token hash fmt next)
  | OpUpdate id org u : sched_op (update_scheduled_run id org u)
  | OpQueueNow id org : sched_op (queue_scheduled_run_now id org)
  | OpRotate id org hash : sched_op (rotate_event_trigger_secret id org hash)
  | OpDelete id org : sched_op (delete_scheduled_run id org)
  | OpTick : sched_op (scheduled_runs_tick settings uuids)
  | OpDispatch q : sched_op (dispatch_event settings uuids owner q)
  | OpEventLoop fuel : sched_op (event_loop settings uuids owner fuel)
  | OpRenew run n : sched_op (renew_event_dispatch_lease run owner n)
  | OpRecover n max : sched_op (recover_expired_event_dispatches uuids n max).

Lemma sched_op_ok {A} (m : SH A) : sched_op m → preserves dispatch_ok m.
Proof.
  intros []; [apply create_scheduled_run_ok|apply create_event_trigger_ok|apply update_scheduled_run_ok
    |apply queue_scheduled_run_now_ok|apply rotate_ok|apply delete_scheduled_run_ok|apply tick_ok|apply dispatch_event_ok
    |apply event_loop_ok|apply start_renew_ok|apply recover_ok].
Qed.

(** C33. A dispatched run is settled at most once, whoever settles it.  Whatever fails
    and whatever the other processes do (as long as they keep the same invariant: the
    other workers run the same operations), after every operation each run id has at
    most as many [run_settled] events as [dispatch_accepted] ones; strictly fewer while
    its lease is open; and a closed lease has a settlement whose status is of the
    lease's kind, completed or failed. *)
Theorem dispatches_settle_once {A} (m : SH A) w :
  sched_op m → good dispatch_ok w →
  let w' := (m w).2 in
  good dispatch_ok w' ∧
  ∀ run,
    let settled := count_events RunSettled run (trigger_events (db w')) in
    let accepted := count_events DispatchAccepted run (trigger_events (db w')) in
    settled ≤ accepted ∧
    match leases (db w') !! run with
    | Some l => if lease_open l then settled < accepted
                else ∃ e, e ∈ trigger_events (db w') ∧ explained l run e
    | None => True
    end.
Proof.
  intros Hm Hw w'. assert (good dispatch_ok w') as Hw' by (apply preserves_good; [by apply sched_op_ok|done]).
  split; [done|]. intros run settled accepted. destruct Hw' as (_ & Hinv & _).
  pose proof (so_count _ _ Hinv run) as Hc. fold settled accepted in Hc. unfold open_count in Hc.
  destruct (leases (db w') !! run) as [l|] eqn:Hl; [|split; [lia|done]].
  destruct (lease_open l) eqn:Ho; (split; [lia|]); [lia|]. by eapply so_closed.
Qed.

(** [reserve_event_dispatch_lease], undisturbed, whatever fails: at some time of
    the call a request whose key is taken is a duplicate of the run that took it, a
    request that finds one of the limits reached is refused, and neither writes
    anything; an accepted one had a free key, run id and (chain, hop), found both
    limits not reached and, with its own lease counted, leaves them respected.  A raise
    means that nothing was written, or that the acknowledgement was lost. *)
Theorem reservation_outcome schedule org key run n gl ol chain hop w :
  undisturbed w →
  let '(r, w') := reserve_event_dispatch_lease uuids schedule org key run owner n gl ol chain hop w in
  happened (reservation schedule org key run owner n gl ol chain hop (db w)) w r w'.
Proof.
  intros Hw. apply transaction_happened; [done|]. intros now.
  apply wpt_savepoint_body, reserve_spec.
Qed.

(** [recover_expired_event_dispatches], undisturbed, whatever fails: at some time
    of the call it closes the [n] oldest expired leases and no other lease, each with
    the stored result of its run (the result that was there, else a failure that cost
    nothing); each gets one settlement; a schedule's failures grow by the number of
    its recovered runs that had no result, and it is disabled when they reach the
    limit; when fewer than [n] were recovered no expired lease remains. *)
Theorem recovery_outcome n max w :
  undisturbed w →
  let '(r, w') := recover_expired_event_dispatches uuids n max w in
  happened (λ now k d', recovery n max now (db w) k d') w r w'.
Proof.
  intros Hw. apply transaction_happened; [done|]. intros now.
  eapply wpt_mono; [apply recover_spec| |done]. intros k d' [Hk Hr]. by apply recovered_recovery.
Qed.

(** [claim_due_schedules], undisturbed, whatever fails: the claimed schedules are the
    longest due ones, a due schedule left out was due no earlier than any claimed one,
    each claimed schedule is next due in the future, the others and every other table
    are unchanged, and when fewer than [n] were claimed none is due any more. *)
Theorem claim_due_schedules_outcome n w :
  undisturbed w → intervals_ok (db w) →
  let '(r, w') := claim_due_schedules n w in happened (claim n (db w)) w r w'.
Proof.
  intros Hw Hok. apply transaction_happened; [done|]. intros now. by apply wpt_savepoint_body, claim_due_spec.
Qed.

(** C34. Chains of triggers end, even when the triggers point back to each other: while
    nobody else adds tasks, whatever fails, the event loop runs dry after at most
    [event_chain_max_hops - hop + 1] runs per pending task, so one dispatched event
    causes at most [event_chain_max_hops + 1] runs. *)
Theorem event_chains_end fuel w :
  tx_now w = None → Forall (relies tasks_rely) (sched w) → (budget settings (tasks (ext w)) < fuel)%nat →
  let '(r, w') := event_loop settings uuids owner fuel w in
  tasks (ext w') = [] ∧ ∃ n, r = Ok n ∧ (n ≤ budget settings (tasks (ext w)))%nat.
Proof.
  intros Hn Hs Hfuel.
  pose proof (event_loop_drains_aux settings uuids owner (tasks (ext w)) fuel Hfuel w Hn Hs eq_refl) as Hrun.
  destruct (event_loop _ _ _ _ w) as [r w']. by destruct Hrun as (_ & _ & ?).
Qed.
End properties.

(** ** Two triggers that point at each other, and a recovery *)
Module SchedDemo.
#[local] Instance services : Services := {
  admission := λ _ _, Ok (MkBilling true "");
  run_agent_once := λ _ s prompt run, Ok (AgentDone (MkAgentResult "completed" ("did " +:+ prompt) 7 ""));
  ingest_labeling := λ _ _, Ok tt;
  deliver_callback := λ _ _ _, Ok tt;
  post_tweet := λ _ _, Ok "tweet";
  x_post_text := λ s, Some s;
  float_repr := λ _ _, "";
}.

Definition settings : SchedulingSettings := MkSchedulingSettings 2 4 2 10 1000 300 5 false false false "".
Definition uuids (n : nat) : string := "id-" +:+ pretty n.

Definition trigger (name next token : string) : ScheduleRow :=
  MkScheduleRow "org" "user" name "{{output_text}}{{x}}" EventTrigger None true None "json" (Some token)
    (Some (_hash_secret "secret")) (Some next) None None 0 0 0.

Definition every_minute (next_run : Z) : ScheduleRow :=
  MkScheduleRow "org" "user" "poll" "go" Interval (Some 60) true None "json" None None None (Some next_run) None 0 0 0.

Definition db0 : SchedDb :=
  MkSchedDb {["a" := trigger "A" "b" "tok-a"; "b" := trigger "B" "a" "tok-b"; "p1" := every_minute 5; "p2" := every_minute 3]}
    [] ∅ ∅ [] ∅.
Definition w0 : World SchedDb Process := MkWorld db0 (MkProcess [] []) (seconds 10) None [] 0.

Definition request : EventRequest :=
  MkEventRequest "tok-a" (Some "secret") (Some "key") 10 (Some (JObj [("x", JInt 1)])).

Definition w1 : World SchedDb Process := Eval vm_compute in (dispatch_event settings uuids "worker" request w0).2.
Definition w2 : World SchedDb Process := Eval vm_compute in (event_loop settings uuids "worker" 10 w1).2.
(** Later, the worker having died after the dispatch. *)
Definition w_late : World SchedDb Process := w1 <| clock := seconds 1000 |>.

Example chain_runs :
  (event_loop settings uuids "worker" 10 w1).1 = Ok 3%nat ∧
  map (λ r, (rr_schedule r, rr_status r, rr_output r)) (run_results (db w2))
    = [("a", "completed", "did 1"); ("b", "completed", "did did 1"); ("a", "completed", "did did did 1")].
Proof. by vm_compute. Qed.

Example duplicate_request :
  (dispatch_event settings uuids "worker" request w2).1 = Ok (RespDuplicate "id-0").
Proof. by vm_compute. Qed.

Lemma sched_good0 : good dispatch_ok w0.
Proof.
  split; [done|]. split; [|done]. split; [done|]. intros run l Hl.
  change ((∅ : gmap string LeaseRow) !! run = Some l) in Hl. by rewrite lookup_empty in Hl.
Qed.

Lemma sched_good1 : good dispatch_ok w1.
Proof.
  assert (w1 = (dispatch_event settings uuids "worker" request w0).2) as -> by by vm_compute.
  apply preserves_good; [apply dispatch_event_ok|apply sched_good0].
Qed.

Lemma intervals0 : intervals_ok db0.
Proof.
  intros id r Hr. apply elem_of_map_to_list in Hr.
  assert (Forall (λ kr, sr_kind kr.2 = Interval → ∃ n, sr_interval kr.2 = Some n ∧ 0 < n) (map_to_list (schedules db0))) as Hall.
  { vm_compute. repeat (constructor; [cbn; intros; by first [done|exists 60]|]). constructor. }
  rewrite Forall_forall in Hall. exact (Hall (id, r) Hr).
Qed.

Lemma undisturbed_quiet w : tx_now w = None → sched w = [] → undisturbed (w : World SchedDb Process).
Proof. intros Hn Hs. split; [done|]. by rewrite Hs. Qed.
Lemma dispatches_settle_once_witness :
  let w' := (event_loop settings uuids "worker" 10 w1).2 in
  count_events RunSettled "id-0" (trigger_events (db w')) ≤ count_events DispatchAccepted "id-0" (trigger_events (db w')).
Proof.
  exact (proj1 (proj2 (dispatches_settle_once settings uuids "worker"
    (event_loop settings uuids "worker" 10) w1 (OpEventLoop _ _ _ 10) sched_good1) "id-0")).
Defined.

Lemma reservation_outcome_witness :
  (reserve_event_dispatch_lease uuids "a" "org" "key" "other" "worker" 300 4 2 "other" 0 w1).1 = Ok ("id-0", Duplicate) ∧
  let '(r, w') := reserve_event_dispatch_lease uuids "a" "org" "key" "other" "worker" 300 4 2 "other" 0 w1 in
  happened (reservation "a" "org" "key" "other" "worker" 300 4 2 "other" 0 (db w1)) w1 r w'.
Proof.
  split; [by vm_compute|].
  exact (reservation_outcome uuids "worker" "a" "org" "key" "other" 300 4 2 "other" 0 w1 (undisturbed_quiet w1 eq_refl eq_refl)).
Defined.

Lemma recovery_outcome_witness :
  (recover_expired_event_dispatches uuids 100 5 w_late).1 = Ok 1 ∧
  let '(r, w') := recover_expired_event_dispatches uuids 100 5 w_late in
  happened (λ now k d', recovery 100 5 now (db w_late) k d') w_late r w'.
Proof.
  split; [by vm_compute|].
  exact (recovery_outcome uuids 100 5 w_late (undisturbed_quiet w_late eq_refl eq_refl)).
Defined.

Lemma claim_due_schedules_outcome_witness :
  map fst (match (claim_due_schedules 1 w0).1 with Ok rows => rows | _ => [] end) = ["p2"] ∧
  let '(r, w') := claim_due_schedules 1 w0 in happened (claim 1 (db w0)) w0 r w'.
Proof.
  split; [by vm_compute|].
  exact (claim_due_schedules_outcome 1 w0 (undisturbed_quiet w0 eq_refl eq_refl) intervals0).
Defined.

Lemma event_chains_end_witness :
  budget settings (tasks (ext w1)) = 3%nat ∧
  let '(r, w') := event_loop settings uuids "worker" 4 w1 in
  tasks (ext w') = [] ∧ ∃ n, r = Ok n ∧ (n ≤ budget settings (tasks (ext w1)))%nat.
Proof.
  split; [reflexivity|].
  assert (budget settings (tasks (ext w1)) < 4)%nat as Hfuel by (vm_compute; lia).
  assert (sched w1 = []) as Hs by reflexivity.
  assert (Forall (relies tasks_rely) (sched w1)) as Hq by (rewrite Hs; constructor).
  pose proof (event_chains_end settings uuids "worker" 4 w1 eq_refl Hq Hfuel) as Hw.
  exact Hw.
Defined.
End SchedDemo.
