(* ===== verification/ToolSchema.v ===== *)
(** * Tool input schemas (tools/schema.py)

    The safe JSON-Schema subset an organisation's tool may declare: the
    normaliser that lowers an imported schema into it, the validator that
    admits a schema, the builder that turns an admitted schema into the fields
    of an argument model, and the inliner of local references.  The judgement
    [safe_schema] is the type system of the subset; the normaliser lands in
    it, is the identity on it, and a schema inside it builds without error.

    JSON-Schema's own well-formedness check (the jsonschema package) is the
    parameter [check_schema]. *)

From S2P Require Export Json Monad.

#[local] Set Warnings "-register-all".

(** ** Operations of Python dicts and sets used on schemas *)

Definition has_key (kvs : list (string * json)) (key : string) : bool := bool_decide (is_Some (dict_get kvs key)).

(** [f(d.get(key))] when the key is present; written as a scan so that a
    recursion through it stays structural. *)
Definition child_map {B} (f : json → B) (key : string) : list (string * json) → option B :=
  fix go kvs :=
    match kvs with
    | [] => None
    | (k, v) :: rest =>
        match go rest with
        | Some b => Some b
        | None => if bool_decide (k = key) then Some (f v) else None
        end
    end.

(** [x in S] for a set or dict of strings; unhashable values raise. *)
Definition in_set (j : json) (s : list string) : res bool :=
  match j with
  | JArr _ | JObj _ => Raise (TypeError "unhashable type")
  | JStr t => Ok (bool_decide (t ∈ s))
  | _ => Ok false
  end.

Definition res_filter {A} (p : A → res bool) : list A → res (list A) :=
  fix go l :=
    match l with
    | [] => Ok []
    | a :: rest => b ← p a; r ← go rest; Ok (if (b : bool) then a :: r else r)
    end.

(** [{k: f(k, v) for k, v in d.items()}] with the messages [f] appends *)
Definition map_items (f : string → json → res (json * list string)) :
    list (string * json) → res (list (string * json) * list string) :=
  fix go kvs :=
    match kvs with
    | [] => Ok ([], [])
    | (k, v) :: rest =>
        '(n, d) ← f k v; '(ns, ds) ← go rest; Ok ((k, n) :: ns, d ++ ds)
    end.

Definition _SAFE_SCHEMA_KEYS : list string :=
  ["type"; "properties"; "required"; "description"; "title"; "default"; "enum"; "minimum"; "maximum";
   "minLength"; "maxLength"; "pattern"; "items"].

Definition _SAFE_SCHEMA_TYPES : list string := ["object"; "string"; "integer"; "number"; "boolean"; "array"].

Definition annotation_keys : list string := ["description"; "title"; "default"; "enum"].

(** Keys of [source] picked in the given order. *)
Definition pick (keys : list string) (source : list (string * json)) : list (string * json) :=
  keys ≫= λ k, match dict_get source k with Some v => [(k, v)] | None => [] end.

(** ** Normalisation into the safe subset *)

Section normalize.
(** The text of a list inside a message is Python's [repr]. *)
Context (repr : json → string).

Definition unsupported_keys (path : string) (allowed : list string) (kvs : list (string * json)) : list string :=
  kvs ≫= λ kv, if bool_decide (kv.1 ∈ allowed) then [] else [path +:+ "." +:+ kv.1 +:+ ": keyword not supported"].

Definition _normalize_type (raw : option json) (path fallback : string) : res (string * list string) :=
  match raw with
  | Some (JStr t) =>
      if bool_decide (t ∈ _SAFE_SCHEMA_TYPES) then Ok (t, [])
      else Ok (fallback, [path +:+ ".type=" +:+ t +:+ ": type not supported"])
  | Some (JArr l) =>
      supported ← res_filter (λ t, in_set t _SAFE_SCHEMA_TYPES) l;
      removed ← res_filter (λ t, negb <$> in_set t _SAFE_SCHEMA_TYPES) l;
      let msgs := match removed with
                  | [] => []
                  | _ => [path +:+ ".type=" +:+ repr (JArr removed) +:+ ": type not supported"]
                  end in
      Ok (match supported with JStr t :: _ => t | _ => fallback end, msgs)
  | None | Some JNull => Ok (fallback, [])
  | Some _ => Ok (fallback, [path +:+ ".type: invalid type declaration"])
  end.

Definition _copy_common_keys (source : list (string * json)) : list (string * json) := pick annotation_keys source.

Definition bound_keys (schema_type : string) : list string :=
  if bool_decide (schema_type ∈ ["integer"; "number"]) then ["minimum"; "maximum"]
  else if bool_decide (schema_type = "string") then ["minLength"; "maxLength"; "pattern"]
  else [].

(** The [required] list keeps only declared properties. *)
Definition normalize_required (kvs props : list (string * json)) (path : string) :
    res (list (string * json) * list string) :=
  match default (JArr []) (dict_get kvs "required") with
  | JArr names =>
      filtered ← res_filter (λ name, in_set name props.*1) names;
      Ok (match filtered with [] => [] | _ => [("required", JArr filtered)] end,
          if bool_decide (length filtered = length names) then []
          else [path +:+ ".required: removed unknown property references"])
  | JNull => Ok ([], [])
  | _ => Ok ([], [path +:+ ".required: expected array"])
  end.

Fixpoint _normalize_node (node : json) (path : string) (root : bool) {struct node} : res (json * list string) :=
  match node with
  | JObj kvs =>
      let fallback :=
        if root then "object"
        else if has_key kvs "properties" then "object"
        else if has_key kvs "items" then "array"
        else "string" in
      '(schema_type, d_type) ← _normalize_type (dict_get kvs "type") path fallback;
      if bool_decide (schema_type = "object") then
        '(props, d_props) ← default (Ok ([], [])) (child_map (λ v,
            match v with
            | JObj properties =>
                map_items (λ key value, _normalize_node value (path +:+ ".properties." +:+ key) false) properties
            | JNull => Ok ([], [])
            | _ => Ok ([], [path +:+ ".properties: expected object"])
            end) "properties" kvs);
        '(required, d_req) ← normalize_required kvs props path;
        Ok (JObj ([("type", JStr "object"); ("properties", JObj props)] ++ _copy_common_keys kvs ++ required),
            d_type ++ d_props ++ d_req ++ unsupported_keys path (["type"; "properties"; "required"] ++ annotation_keys) kvs)
      else if bool_decide (schema_type = "array") then
        '(items, d_items) ← default (Ok (JObj [("type", JStr "string")], [])) (child_map (λ v,
            match v with
            | JNull => Ok (JObj [("type", JStr "string")], [])
            | _ => _normalize_node v (path +:+ ".items") false
            end) "items" kvs);
        Ok (JObj (("type", JStr "array") :: _copy_common_keys kvs ++ [("items", items)]),
            d_type ++ d_items ++ unsupported_keys path (["type"; "items"] ++ annotation_keys) kvs)
      else
        Ok (JObj (("type", JStr schema_type) :: _copy_common_keys kvs ++ pick (bound_keys schema_type) kvs),
            d_type ++ unsupported_keys path (("type" :: annotation_keys)
              ++ ["minimum"; "maximum"; "minLength"; "maxLength"; "pattern"]) kvs)
  | _ =>
      Ok (if root then JObj [("type", JStr "object"); ("properties", JObj [])] else JObj [("type", JStr "string")],
          [path +:+ ": schema node replaced with safe default"])
  end.

(** [schema or {}] *)
Definition normalize_to_safe_schema_subset (schema : json) : res (json * list string) :=
  _normalize_node (if truthy schema then schema else JObj []) "$" true.
End normalize.

(** ** The validator at tool creation *)

Section validate.
Context (repr : json → string) (check_schema : json → bool).

Definition type_errors (value : json) (path : string) : res (list string) :=
  match value with
  | JStr t => Ok (if bool_decide (t ∈ _SAFE_SCHEMA_TYPES) then [] else [path +:+ ".type=" +:+ t +:+ ": type not supported"])
  | JArr l =>
      bad ← res_filter (λ t, negb <$> in_set t _SAFE_SCHEMA_TYPES) l;
      Ok (match bad with [] => [] | _ => [path +:+ ".type=" +:+ repr (JArr bad) +:+ ": type not supported"] end)
  | _ => Ok [path +:+ ".type: invalid type declaration"]
  end.

(** Concatenated messages of the parts *)
Definition concat_res {A} (f : A → res (list string)) : list A → res (list string) :=
  fix go l := match l with [] => Ok [] | a :: rest => e ← f a; es ← go rest; Ok (e ++ es) end.

Definition concat_index {A} (f : Z → A → res (list string)) : Z → list A → res (list string) :=
  fix go i l := match l with [] => Ok [] | a :: rest => e ← f i a; es ← go (i + 1) rest; Ok (e ++ es) end.

Fixpoint _walk (node : json) (path : string) (in_properties_map : bool) {struct node} : res (list string) :=
  match node with
  | JObj kvs =>
      concat_res (λ kv,
        match kv with
        | (key, value) =>
            if in_properties_map then _walk value (path +:+ "." +:+ key) false
            else
              let e_key := if bool_decide (key ∈ _SAFE_SCHEMA_KEYS) then []
                           else [path +:+ "." +:+ key +:+ ": keyword not supported"] in
              e_type ← (if bool_decide (key = "type") then type_errors value path else Ok []);
              e_rec ← _walk value (path +:+ "." +:+ key) (bool_decide (key = "properties"));
              Ok (e_key ++ e_type ++ e_rec)
        end) kvs
  | JArr l => concat_index (λ i item, _walk item (path +:+ "[" +:+ pretty i +:+ "]") false) 0 l
  | _ => Ok []
  end.

Definition validate_safe_schema_subset (schema : json) : res (list string) :=
  if check_schema schema then _walk schema "$" false else Ok ["$.schema: invalid JSON Schema"].
End validate.

(** ** The argument model built for a tool *)

Inductive py_type :=
  | PyDict | PyStr | PyInt | PyFloat | PyBool | PyList
  | PyListOf (item : py_type)
  | PyLiteral (values : list json).

Record field_spec := FieldSpec {
  field_name : string;
  field_type : py_type;
  field_optional : bool;
  field_description : json;
  field_constraints : list (string * json)
}.

Definition _JSON_SCHEMA_TYPE_MAP (key : string) : py_type :=
  if bool_decide (key = "object") then PyDict
  else if bool_decide (key = "integer") then PyInt
  else if bool_decide (key = "number") then PyFloat
  else if bool_decide (key = "boolean") then PyBool
  else if bool_decide (key = "array") then PyList
  else PyStr.

(** [_JSON_SCHEMA_TYPE_MAP.get(t, str)]: the key must be hashable. *)
Definition py_type_of (json_type : json) : res py_type :=
  match json_type with
  | JArr _ | JObj _ => Raise (TypeError "unhashable type")
  | JStr t => Ok (_JSON_SCHEMA_TYPE_MAP t)
  | _ => Ok PyStr
  end.

Definition rename_keys (names : list (string * string)) (source : list (string * json)) : list (string * json) :=
  names ≫= λ p, match dict_get source p.1 with Some v => [(p.2, v)] | None => [] end.

Definition _build_field_constraints (field_def : list (string * json)) (json_type : json) : list (string * json) :=
  if bool_decide (json_type = JStr "integer") || bool_decide (json_type = JStr "number") then
    rename_keys [("minimum", "ge"); ("maximum", "le")] field_def
  else if bool_decide (json_type = JStr "string") then
    rename_keys [("minLength", "min_length"); ("maxLength", "max_length")] field_def
    ++ match dict_get field_def "pattern" with
       | Some p => if truthy p then [("pattern", p)] else []
       | None => []
       end
  else [].

(** [set(x)]: the elements must be hashable; a string is its characters. *)
Definition required_set (required : json) : res (list json) :=
  match required with
  | JArr l =>
      if forallb (λ j, match j with JArr _ | JObj _ => false | _ => true end) l then Ok l
      else Raise (TypeError "unhashable type")
  | JObj kvs => Ok (JStr <$> kvs.*1)
  | JStr s => Ok ((λ c, JStr (String c "")) <$> chars s)
  | _ => Raise (TypeError "object is not iterable")
  end.

Definition build_field (required : list json) (name : string) (field_def : json) : res field_spec :=
  match field_def with
  | JObj def =>
      let json_type := default (JStr "string") (dict_get def "type") in
      base ← py_type_of json_type;
      array_type ←
        (if bool_decide (json_type = JStr "array") then
           match dict_get def "items" with
           | Some (JObj (kv :: items)) =>
               item ← py_type_of (default (JStr "string") (dict_get (kv :: items) "type"));
               Ok (PyListOf item)
           | _ => Ok (PyListOf PyStr)
           end
         else Ok base);
      let py_type := match dict_get def "enum" with Some (JArr (v :: vs)) => PyLiteral (v :: vs) | _ => array_type end in
      Ok (FieldSpec name py_type (negb (bool_decide (JStr name ∈ required)))
            (default (JStr "") (dict_get def "description"))
            (_build_field_constraints def json_type))
  | _ => Raise (AttributeError "get")
  end.

(** The fields handed to pydantic's [create_model] *)
Definition build_pydantic_model (schema : json) : res (list field_spec) :=
  match schema with
  | JObj kvs =>
      required ← required_set (default (JArr []) (dict_get kvs "required"));
      match default (JObj []) (dict_get kvs "properties") with
      | JObj props => mapM (λ p, build_field required p.1 p.2) props
      | _ => Raise (AttributeError "items")
      end
  | _ => Raise (AttributeError "get")
  end.

(** ** Looking keys up *)

#[local] Arguments dict_get : simpl never.
#[local] Arguments unsupported_keys : simpl never.
#[local] Arguments _copy_common_keys : simpl never.

Lemma dict_get_snoc kvs k v key :
  dict_get (kvs ++ [(k, v)]) key = if bool_decide (k = key) then Some v else dict_get kvs key.
Proof. unfold dict_get. by rewrite foldl_snoc. Qed.

Lemma dict_get_app l1 l2 key :
  dict_get (l1 ++ l2) key = match dict_get l2 key with Some v => Some v | None => dict_get l1 key end.
Proof.
  induction l2 as [|[k v] l2 IH] using rev_ind; [by rewrite app_nil_r|].
  rewrite app_assoc, !dict_get_snoc, IH. by case_bool_decide.
Qed.

Lemma dict_get_cons k v kvs key :
  dict_get ((k, v) :: kvs) key =
    match dict_get kvs key with Some w => Some w | None => if bool_decide (k = key) then Some v else None end.
Proof. exact (dict_get_app [(k, v)] kvs key). Qed.

Lemma dict_get_elem kvs key v : dict_get kvs key = Some v → (key, v) ∈ kvs.
Proof.
  induction kvs as [|[k w] kvs IH]; [done|]. rewrite dict_get_cons.
  destruct (dict_get kvs key) eqn:E; [intros [= ->]; right; by apply IH|].
  case_bool_decide; [|done]. intros [= ->]. subst. by left.
Qed.

Lemma dict_get_not_in kvs key : key ∉ kvs.*1 → dict_get kvs key = None.
Proof.
  intros Hk. destruct (dict_get kvs key) as [v|] eqn:E; [|done].
  destruct Hk. apply dict_get_elem in E. by apply list_elem_of_fmap_2 with (f := fst) in E.
Qed.

Lemma child_map_get {B} (f : json → B) key kvs : child_map f key kvs = f <$> dict_get kvs key.
Proof.
  induction kvs as [|[k v] kvs IH]; [done|]. rewrite dict_get_cons. cbn [child_map]. rewrite IH.
  destruct (dict_get kvs key); [done|]. cbn. by case_bool_decide.
Qed.

Lemma pick_ext keys l l' : (∀ k, k ∈ keys → dict_get l k = dict_get l' k) → pick keys l = pick keys l'.
Proof.
  unfold pick. induction keys as [|k keys IH]; intros H; [done|]. cbn.
  rewrite (H k) by left. f_equal. apply IH. intros. apply H. by right.
Qed.

Lemma pick_sublist keys l : (pick keys l).*1 `sublist_of` keys.
Proof.
  unfold pick. induction keys as [|k keys IH]; [constructor|]. cbn.
  destruct (dict_get l k); cbn; by constructor.
Qed.

Lemma pick_self keys common : NoDup keys → common.*1 `sublist_of` keys → pick keys common = common.
Proof.
  intros Hnd. revert common. induction Hnd as [|k keys Hk Hnd IH]; intros common Hsub.
  { destruct common; [done|]. by apply sublist_nil_r in Hsub. }
  assert (∀ l, l.*1 `sublist_of` keys → dict_get l k = None) as Hno.
  { intros l Hl. apply dict_get_not_in. intros H. by apply Hk, (sublist_subseteq _ _ Hl). }
  apply sublist_cons_r in Hsub as [Hsub|(l' & Heq & Hsub)].
  - unfold pick. cbn. rewrite (Hno common) by done. by apply IH.
  - destruct common as [|[k' v] common]; [done|]. cbn in Heq. injection Heq as -> <-.
    unfold pick. cbn [mbind list_bind]. rewrite dict_get_cons, (Hno common), bool_decide_true by done. cbn. f_equal.
    etrans; [|exact (IH common Hsub)]. apply (pick_ext keys ((k, v) :: common) common). intros k' Hk'.
    rewrite dict_get_cons, (bool_decide_false (k = k')) by (intros ->; done). by destruct (dict_get common k').
Qed.

(** ** The typing judgement of the subset *)

Definition annotations (common : list (string * json)) : Prop := common.*1 `sublist_of` annotation_keys.

Definition required_names (props required : list (string * json)) : Prop :=
  required = [] ∨ ∃ names, names ≠ [] ∧ names ⊆ props.*1 ∧ required = [("required", JArr (JStr <$> names))].

Inductive safe_schema : json → Prop :=
  | safe_object common props required :
      annotations common → Forall (λ kv, safe_schema kv.2) props → required_names props required →
      safe_schema (JObj ([("type", JStr "object"); ("properties", JObj props)] ++ common ++ required))
  | safe_array common items :
      annotations common → safe_schema items →
      safe_schema (JObj (("type", JStr "array") :: common ++ [("items", items)]))
  | safe_scalar t common bounds :
      t ∈ ["string"; "integer"; "number"; "boolean"] → annotations common → bounds.*1 `sublist_of` bound_keys t →
      safe_schema (JObj (("type", JStr t) :: common ++ bounds)).
#[export] Hint Constructors safe_schema : teardrop.

(** A property of a value that also holds of the values inside an object. *)
Lemma json_two_level (P : json → Prop) :
  (∀ j, (∀ kvs, j = JObj kvs → Forall (λ kv, P kv.2 ∧ ∀ kvs', kv.2 = JObj kvs' → Forall (λ kv', P kv'.2) kvs') kvs) → P j) →
  ∀ j, P j.
Proof.
  intros H j. assert (P j ∧ ∀ kvs, j = JObj kvs → Forall (λ kv, P kv.2) kvs) as [? _]; [|done].
  induction j as [| | | | |l _|kvs IH] using json_nested_ind; (split; [|intros ? [=]]); try (apply H; intros ? [=]).
  - by subst.
  - subst. eapply Forall_impl; [done|]. by intros ? [? _].
Qed.

Lemma res_filter_in (keys : list string) (names : list json) l :
  res_filter (λ j, in_set j keys) names = Ok l → ∃ ss, l = JStr <$> ss ∧ ss ⊆ keys.
Proof.
  revert l. induction names as [|j names IH]; intros l; cbn [res_filter].
  { intros [= <-]. exists []. split; [done|]. intros x Hx. by apply elem_of_nil in Hx. }
  destruct (in_set j keys) as [b|e] eqn:Ej; [|done]. cbn.
  destruct (res_filter _ names) as [r|e]; [|done]. cbn. intros [= <-].
  destruct (IH r eq_refl) as (ss & -> & Hss). destruct b; [|by exists ss].
  destruct j; try done. cbn in Ej. injection Ej as Ej. apply bool_decide_eq_true in Ej.
  exists (s :: ss). split; [done|]. intros x. rewrite elem_of_cons. intros [->|Hx]; auto.
Qed.

Lemma res_filter_all (keys names : list string) :
  names ⊆ keys → res_filter (λ j, in_set j keys) (JStr <$> names) = Ok (JStr <$> names).
Proof.
  induction names as [|n names IH]; intros Hsub; [done|]. cbn [fmap list_fmap res_filter in_set].
  rewrite bool_decide_true by (apply Hsub; left). cbn. fold (@fmap list _ string json).
  rewrite IH by (intros x Hx; apply Hsub; by right). done.
Qed.

Lemma normalize_required_ok kvs props path required d :
  normalize_required kvs props path = Ok (required, d) → required_names props required.
Proof.
  unfold normalize_required. destruct (default _ _); cbn; try (intros [= <- _]; by left).
  destruct (res_filter _ _) as [names|] eqn:E; [|done]. cbn. intros [= <- _].
  apply res_filter_in in E as (ss & -> & Hss). destruct ss as [|s ss]; [by left|]. right. exists (s :: ss). auto.
Qed.

(** ** Normalisation lands in the subset *)

Section normalize_safe.
Context (repr : json → string).
Abbreviation normalize_node := (_normalize_node repr).

Lemma map_items_safe (f : string → json → res (json * list string)) kvs ns d :
  Forall (λ kv, ∀ k n d', f k kv.2 = Ok (n, d') → safe_schema n) kvs →
  map_items f kvs = Ok (ns, d) → Forall (λ kv, safe_schema kv.2) ns.
Proof.
  intros HF. revert ns d. induction HF as [|[k v] kvs Hv HF IH]; intros ns d; cbn.
  { intros [= <- _]. constructor. }
  destruct (f k v) as [[n d1]|] eqn:E; [|done]. cbn.
  destruct (map_items f kvs) as [[ns' d2]|]; [|done]. cbn. intros [= <- _].
  constructor; [by eapply Hv|by eapply IH].
Qed.

Lemma annotations_copy kvs : annotations (_copy_common_keys kvs).
Proof. apply pick_sublist. Qed.
#[local] Hint Resolve annotations_copy : core.

Lemma normalize_type_scalar raw path fallback t d :
  _normalize_type repr raw path fallback = Ok (t, d) → fallback ∈ _SAFE_SCHEMA_TYPES → t ∈ _SAFE_SCHEMA_TYPES.
Proof.
  destruct raw as [[| | | |s|l|]|]; cbn; try (by intros [= <- _]).
  - case_bool_decide; by intros [= <- _].
  - destruct (res_filter (λ t, in_set t _SAFE_SCHEMA_TYPES) l) as [sup|] eqn:E; [|done]. cbn.
    destruct (res_filter (λ t, negb <$> in_set t _SAFE_SCHEMA_TYPES) l) as [bad|]; [|done]. cbn. intros [= <- _] Hf.
    apply res_filter_in in E as (ss & -> & Hss). destruct ss as [|x ss]; [done|]. apply Hss. left.
Qed.

Lemma normalize_node_safe node path root n d : normalize_node node path root = Ok (n, d) → safe_schema n.
Proof.
  revert path root n d. induction node as [node IH] using json_two_level. intros path root n d.
  assert (∀ k, k ∈ ["string"; "integer"; "number"; "boolean"] → safe_schema (JObj [("type", JStr k)])) as Hscalar.
  { intros k Hk. apply (safe_scalar k [] []); [done|apply sublist_nil_l..]. }
  assert (safe_schema (JObj [("type", JStr "string")])) as Hdefault by (apply Hscalar; left).
  assert (∀ common, annotations common →
    safe_schema (JObj ([("type", JStr "object"); ("properties", JObj [])] ++ common ++ []))) as Hempty.
  { intros common Hc. apply safe_object; [done|constructor|by left]. }
  destruct node as [| | | | | |kvs]; try (cbn; intros [= <- _]; destruct root;
    [apply (Hempty []), sublist_nil_l|exact Hdefault]).
  specialize (IH kvs eq_refl). cbn [_normalize_node]. rewrite !child_map_get.
  destruct (_normalize_type _ _ _ _) as [[t d1]|] eqn:Et; [|done].
  apply normalize_type_scalar in Et; [|by destruct root; [|repeat case_match]; compute_done].
  cbn [mbind res_bind]. case_bool_decide as Eo; [|case_bool_decide as Ea].
  - destruct (default _ _) as [[props d2]|] eqn:Ep; [|done]. cbn [mbind res_bind].
    destruct (normalize_required _ _ _) as [[req d3]|] eqn:Er; [|done]. cbn. intros [= <- _].
    apply (safe_object (_copy_common_keys kvs) props req); [done| |by eapply normalize_required_ok].
    destruct (dict_get kvs "properties") as [v|] eqn:Eg; cbn in Ep; [|injection Ep as <- _; constructor].
    apply dict_get_elem in Eg. rewrite Forall_forall in IH. destruct (IH _ Eg) as [_ IH2]. cbn in IH2.
    destruct v as [| | | | | |properties]; try (injection Ep as <- _; constructor).
    eapply map_items_safe; [|exact Ep]. eapply Forall_impl; [by apply IH2|]. intros kv Hv k n d'. apply Hv.
  - destruct (default _ _) as [[items d2]|] eqn:Ei; [|done]. cbn. intros [= <- _].
    apply (safe_array (_copy_common_keys kvs) items); [done|].
    destruct (dict_get kvs "items") as [v|] eqn:Eg; cbn in Ei; [|by injection Ei as <- _].
    apply dict_get_elem in Eg. rewrite Forall_forall in IH. destruct (IH _ Eg) as [IH1 _]. cbn in IH1.
    destruct v; try (by injection Ei as <- _); by eapply IH1.
  - cbn. intros [= <- _]. apply (safe_scalar t (_copy_common_keys kvs) (pick (bound_keys t) kvs)); [|done|apply pick_sublist].
    unfold _SAFE_SCHEMA_TYPES in Et. set_solver.
Qed.

(** ** ... and is the identity on it *)

Lemma annotations_none common key : annotations common → key ∉ annotation_keys → dict_get common key = None.
Proof. intros Hc Hk. apply dict_get_not_in. intros H. by apply Hk, (sublist_subseteq _ _ Hc). Qed.

Lemma unsupported_none path allowed kvs : Forall (λ k, k ∈ allowed) kvs.*1 → unsupported_keys path allowed kvs = [].
Proof.
  unfold unsupported_keys. induction kvs as [|[k v] kvs IH]; intros H; [done|]. cbn in H |- *.
  apply Forall_cons in H as [Hk H]. rewrite bool_decide_true by done. by apply IH.
Qed.

Lemma unsupported_between path allowed pre common post :
  annotations common → bool_decide (Forall (λ k, k ∈ allowed) (annotation_keys ++ pre.*1)) = true →
  Forall (λ k, k ∈ allowed) post.*1 → unsupported_keys path allowed (pre ++ common ++ post) = [].
Proof.
  intros Hc [Hall Hpre]%bool_decide_eq_true%Forall_app Hpost. apply unsupported_none. rewrite !fmap_app, !Forall_app.
  split_and!; [done| |done]. rewrite Forall_forall in *. intros k Hk. by apply Hall, (sublist_subseteq _ _ Hc).
Qed.

Lemma copy_between pre common post :
  annotations common → bool_decide (Forall (λ k, k ∉ pre.*1) annotation_keys) = true →
  Forall (λ k, k ∉ annotation_keys) post.*1 →
  _copy_common_keys (pre ++ common ++ post) = common.
Proof.
  intros Hc Hpre%bool_decide_eq_true Hpost.
  etrans; [|apply (pick_self annotation_keys common); [by apply (bool_decide_unpack _)|done]].
  rewrite Forall_forall in *. apply pick_ext. intros k Hk.
  rewrite !dict_get_app, (dict_get_not_in post), (dict_get_not_in pre); [by destruct (dict_get common k)|by apply Hpre|].
  intros H. by apply (Hpost k).
Qed.

Lemma map_items_id (f : string → json → res (json * list string)) (kvs : list (string * json)) :
  Forall (λ kv, f kv.1 kv.2 = Ok (kv.2, [])) kvs → map_items f kvs = Ok (kvs, []).
Proof. induction 1 as [|[k v] kvs Hv _ IH]; [done|]. cbn in *. rewrite Hv. cbn. by rewrite IH. Qed.

Lemma normalize_required_id props required kvs path :
  required_names props required → dict_get kvs "required" = dict_get required "required" →
  normalize_required kvs props path = Ok (required, []).
Proof.
  unfold normalize_required. intros [->|(names & Hne & Hsub & ->)] ->; [done|].
  replace (dict_get _ _) with (Some (JArr (JStr <$> names))) by done. cbn [default from_option id].
  rewrite res_filter_all by done. cbn [mbind res_bind].
  rewrite bool_decide_true by done. by destruct names.
Qed.

Lemma required_fst props required : required_names props required → required.*1 ⊆ ["required"].
Proof. intros [->|(names & _ & _ & ->)]; set_solver. Qed.

Lemma bound_keys_sub t : bound_keys t ⊆ ["minimum"; "maximum"; "minLength"; "maxLength"; "pattern"].
Proof. unfold bound_keys. repeat case_bool_decide; set_solver. Qed.

Lemma get_outside pre common post k :
  annotations common → k ∉ annotation_keys → dict_get (pre ++ common ++ post) k = dict_get (pre ++ post) k.
Proof. intros Hc Hk. rewrite !dict_get_app, (annotations_none common) by done. by destruct (dict_get post k). Qed.

Lemma get_pre pre (post : list (string * json)) k : k ∉ post.*1 → dict_get (pre ++ post) k = dict_get pre k.
Proof. intros Hk. by rewrite dict_get_app, (dict_get_not_in post). Qed.

Lemma not_elem_bool (k : string) (l : list string) : bool_decide (k ∈ l) = false → k ∉ l.
Proof. by intros ?%bool_decide_eq_false. Qed.

(** The normal form of each kind of node *)

Lemma normalize_object_id common props required path root :
  annotations common → required_names props required →
  Forall (λ kv, ∀ path, normalize_node kv.2 path false = Ok (kv.2, [])) props →
  let node := JObj ([("type", JStr "object"); ("properties", JObj props)] ++ common ++ required) in
  normalize_node node path root = Ok (node, []).
Proof.
  intros Hc Hreq Hprops node. subst node. cbn [_normalize_node]. rewrite !child_map_get.
  pose proof (required_fst _ _ Hreq) as Hr.
  rewrite !(get_outside _ common required) by (done || by apply not_elem_bool).
  rewrite !(get_pre _ required) by (intros ?%Hr; set_solver).
  replace (dict_get _ "type") with (Some (JStr "object")) by done.
  replace (dict_get _ "properties") with (Some (JObj props)) by done. cbn.
  rewrite map_items_id by (eapply Forall_impl; [exact Hprops|]; auto). cbn.
  rewrite (normalize_required_id props required); [|done|].
  - pose proof (copy_between [("type", JStr "object"); ("properties", JObj props)] common required Hc eq_refl) as Hcopy.
    cbn in Hcopy |- *. rewrite Hcopy by (apply Forall_forall; intros k Hk%Hr; set_solver).
    pose proof (unsupported_between path (["type"; "properties"; "required"] ++ annotation_keys)
      [("type", JStr "object"); ("properties", JObj props)] common required Hc eq_refl) as Hun.
    cbn in Hun. rewrite Hun; [done|]. apply Forall_forall. intros k Hk%Hr. set_solver.
  - pose proof (get_outside [("type", JStr "object"); ("properties", JObj props)] common required "required" Hc) as Hout.
    etrans; [apply Hout; by apply not_elem_bool|]. rewrite dict_get_app. by destruct (dict_get required _).
Qed.

Lemma normalize_array_id common items path root :
  annotations common → (∀ path, normalize_node items path false = Ok (items, [])) → is_dict items = true →
  let node := JObj ([("type", JStr "array")] ++ common ++ [("items", items)]) in
  normalize_node node path root = Ok (node, []).
Proof.
  intros Hc Hitems Hdict node. subst node. cbn [_normalize_node]. rewrite !child_map_get.
  rewrite !(get_outside _ common [("items", items)]) by (done || by apply not_elem_bool).
  replace (dict_get _ "type") with (Some (JStr "array")) by done.
  replace (dict_get _ "items") with (Some items) by done. cbn.
  rewrite (bool_decide_true ("array" ∈ _SAFE_SCHEMA_TYPES)) by (by apply (bool_decide_unpack _)). cbn. destruct items as [| | | | | |kvs]; try done. rewrite Hitems. cbn.
  pose proof (copy_between [("type", JStr "array")] common [("items", JObj kvs)] Hc eq_refl) as Hcopy.
  pose proof (unsupported_between path (["type"; "items"] ++ annotation_keys)
    [("type", JStr "array")] common [("items", JObj kvs)] Hc eq_refl) as Hun.
  cbn in Hcopy, Hun |- *. rewrite !bool_decide_false, Hcopy by (done || by apply (bool_decide_unpack _)).
  rewrite Hun; [done|]. repeat constructor.
Qed.

Lemma normalize_scalar_id t common bounds path root :
  t ∈ ["string"; "integer"; "number"; "boolean"] → annotations common → bounds.*1 `sublist_of` bound_keys t →
  let node := JObj ([("type", JStr t)] ++ common ++ bounds) in
  normalize_node node path root = Ok (node, []).
Proof.
  intros Ht Hc Hb node. subst node. cbn [_normalize_node].
  pose proof (sublist_subseteq _ _ Hb) as Hbk. pose proof (bound_keys_sub t) as Hbs.
  pose proof (sublist_subseteq _ _ Hc) as Hcs.
  rewrite !(get_outside _ common bounds), (get_pre _ bounds) by (done || (by apply not_elem_bool) || set_solver).
  replace (dict_get _ "type") with (Some (JStr t)) by done. cbn.
  rewrite (bool_decide_true (t ∈ _SAFE_SCHEMA_TYPES)) by (unfold _SAFE_SCHEMA_TYPES; set_solver). cbn.
  rewrite !bool_decide_false by set_solver.
  pose proof (copy_between [("type", JStr t)] common bounds Hc eq_refl) as Hcopy.
  cbn in Hcopy |- *. rewrite Hcopy.
  2: { apply Forall_forall. intros k Hk%Hbk%Hbs. set_solver. }
  pose proof (unsupported_between path (("type" :: annotation_keys) ++ ["minimum"; "maximum"; "minLength"; "maxLength"; "pattern"])
    [("type", JStr t)] common bounds Hc eq_refl) as Hun.
  cbn in Hun. rewrite Hun.
  2: { apply Forall_forall. intros k Hk%Hbk%Hbs. by apply (elem_of_app ("type" :: annotation_keys)); right. }
  assert (pick (bound_keys t) (("type", JStr t) :: common ++ bounds) = bounds) as ->; [|done].
  etrans; [|apply (pick_self (bound_keys t) bounds)]; [|by unfold bound_keys; repeat case_bool_decide; apply (bool_decide_unpack _)|done].
  apply pick_ext. intros k Hk. change (_ :: common ++ bounds) with ([("type", JStr t)] ++ common ++ bounds).
  rewrite get_outside, dict_get_app by (done || set_solver). destruct (dict_get bounds k); [done|].
  apply dict_get_not_in. set_solver.
Qed.

Lemma safe_is_dict j : safe_schema j → is_dict j = true.
Proof. by destruct 1. Qed.

Lemma safe_normalize node path root : safe_schema node → normalize_node node path root = Ok (node, []).
Proof.
  revert path root. induction node as [node IH] using json_two_level. intros path root Hsafe.
  destruct Hsafe as [common props required Hc Hprops Hreq|common items Hc Hitems|t common bounds Ht Hc Hb];
    specialize (IH _ eq_refl).
  - apply (normalize_object_id common props required); [done..|].
    apply Forall_cons in IH as [_ [[_ IH] _]%Forall_cons]. specialize (IH _ eq_refl).
    rewrite Forall_forall in *. intros kv Hkv p. apply IH; auto.
  - apply (normalize_array_id common items); [done| |by apply safe_is_dict].
    intros p. apply Forall_cons in IH as [_ IH]. rewrite Forall_forall in IH.
    apply (IH ("items", items)); [set_solver|done].
  - by apply (normalize_scalar_id t common bounds).
Qed.
End normalize_safe.

(** ** Values that carry no object, so that the validator finds no keyword in them *)

Fixpoint object_free (j : json) : bool :=
  match j with
  | JArr l => forallb object_free l
  | JObj _ => false
  | _ => true
  end.

(** Every annotation and bound of a schema is such a value. *)
Fixpoint plain_values (j : json) : bool :=
  match j with
  | JObj kvs => forallb (λ kv, match kv with (key, v) =>
      if bool_decide (key = "properties") then
        match v with JObj props => forallb (λ p, match p with (_, s) => plain_values s end) props | _ => true end
      else if bool_decide (key = "items") then plain_values v
      else object_free v end) kvs
  | _ => true
  end.

Section validation.
Context (repr : json → string) (check_schema : json → bool).

Lemma walk_object_free j path in_map : object_free j = true → _walk repr j path in_map = Ok [].
Proof.
  revert path in_map. induction j as [| | | | |l IH|kvs IH] using json_nested_ind; intros path in_map Hj; try done.
  cbn in Hj |- *. generalize 0. induction IH as [|a l Ha _ IHl]; intros i; [done|].
  cbn in Hj |- *. apply andb_true_iff in Hj as [Ha' Hl]. rewrite Ha by done. cbn. by rewrite IHl.
Qed.

(** A keyword of the subset contributes only what its value does. *)
Lemma concat_walk_ok (f : string * json → res (list string)) kvs :
  Forall (λ kv, f kv = Ok []) kvs → concat_res f kvs = Ok [].
Proof. induction 1 as [|kv kvs Hkv _ IH]; [done|]. cbn. rewrite Hkv. cbn. by rewrite IH. Qed.

Lemma walk_keyword kvs path :
  Forall (λ kv, kv.1 ∈ _SAFE_SCHEMA_KEYS ∧
    (kv.1 = "type" → ∃ t, kv.2 = JStr t ∧ t ∈ _SAFE_SCHEMA_TYPES) ∧
    ∀ p, _walk repr kv.2 p (bool_decide (kv.1 = "properties")) = Ok []) kvs →
  _walk repr (JObj kvs) path false = Ok [].
Proof.
  intros H. cbn. apply concat_walk_ok. eapply Forall_impl; [exact H|]. cbn. intros [k v] (Hk & Ht & Hv). cbn in *.
  rewrite (bool_decide_true (k ∈ _SAFE_SCHEMA_KEYS)) by done. destruct (decide (k = "type")) as [E|E].
  - destruct (Ht E) as (t & -> & Hts). rewrite (bool_decide_true (k = "type")) by done. cbn.
    by rewrite bool_decide_true.
  - rewrite (bool_decide_false (k = "type")) by done. cbn. by rewrite Hv.
Qed.

Lemma walk_properties props path :
  Forall (λ kv, ∀ p, _walk repr kv.2 p false = Ok []) props → _walk repr (JObj props) path true = Ok [].
Proof. intros H. cbn. apply concat_walk_ok. eapply Forall_impl; [exact H|]. intros [k v] Hv. apply Hv. Qed.

Definition leaf_keys : list string :=
  annotation_keys ++ ["required"; "minimum"; "maximum"; "minLength"; "maxLength"; "pattern"].

Lemma walk_leaves kvs :
  Forall (λ k, k ∈ leaf_keys) kvs.*1 → plain_values (JObj kvs) = true →
  Forall (λ kv, kv.1 ∈ _SAFE_SCHEMA_KEYS ∧
    (kv.1 = "type" → ∃ t, kv.2 = JStr t ∧ t ∈ _SAFE_SCHEMA_TYPES) ∧
    ∀ p, _walk repr kv.2 p (bool_decide (kv.1 = "properties")) = Ok []) kvs.
Proof.
  induction kvs as [|[k v] kvs IH]; intros Hk Hp; [constructor|]. cbn in Hk. apply Forall_cons in Hk as [Hk Hks].
  cbn in Hp. apply andb_true_iff in Hp as [Hv Hp]. constructor; [|by apply IH]. cbn.
  assert (Forall (λ k, k ∈ _SAFE_SCHEMA_KEYS ∧ k ≠ "type" ∧ k ≠ "properties" ∧ k ≠ "items") leaf_keys) as HF
    by by apply (bool_decide_unpack _).
  rewrite Forall_forall in HF. destruct (HF k Hk) as (Hsafe & Hty & Hpr & Hit).
  rewrite !bool_decide_false in Hv by done. split_and!; [done|done|]. intros p. by apply walk_object_free.
Qed.

Lemma safe_leaves common : annotations common → Forall (λ k, k ∈ leaf_keys) common.*1.
Proof. intros Hc. apply Forall_forall. intros k Hk%(sublist_subseteq _ _ Hc). unfold leaf_keys. apply elem_of_app. by left. Qed.

Definition entry_ok (kv : string * json) : Prop :=
  kv.1 ∈ _SAFE_SCHEMA_KEYS ∧ (kv.1 = "type" → ∃ t, kv.2 = JStr t ∧ t ∈ _SAFE_SCHEMA_TYPES) ∧
  ∀ p, _walk repr kv.2 p (bool_decide (kv.1 = "properties")) = Ok [].

Lemma type_entry_ok t : t ∈ _SAFE_SCHEMA_TYPES → entry_ok ("type", JStr t).
Proof. intros Ht. split; [left|]. split; [|done]. intros _. by exists t. Qed.

Lemma bound_leaves t (bounds : list (string * json)) :
  bounds.*1 `sublist_of` bound_keys t → Forall (λ k, k ∈ leaf_keys) bounds.*1.
Proof.
  intros Hb. apply Forall_forall. intros k Hk%(sublist_subseteq _ _ Hb)%bound_keys_sub.
  unfold leaf_keys. apply elem_of_app. right. by right.
Qed.

Lemma required_leaves props required : required_names props required → Forall (λ k, k ∈ leaf_keys) required.*1.
Proof.
  intros Hreq. apply Forall_forall. intros k Hk%(required_fst _ _ Hreq)%list_elem_of_singleton. subst.
  unfold leaf_keys. apply elem_of_app. right. left.
Qed.

Lemma safe_walk n path : safe_schema n → plain_values n = true → _walk repr n path false = Ok [].
Proof.
  revert path. induction n as [n IH] using json_two_level. intros path Hsafe Hplain.
  destruct Hsafe as [common props required Hc Hprops Hreq|common items Hc Hitems|t common bounds Ht Hc Hb];
    specialize (IH _ eq_refl); cbn in Hplain; apply walk_keyword; fold entry_ok.
  - apply Forall_cons in IH as [_ [[_ IH] _]%Forall_cons]. specialize (IH _ eq_refl).
    apply andb_true_iff in Hplain as [_ [Hpp Hleaves]%andb_true_iff]. rewrite bool_decide_true in Hpp by done.
    apply Forall_cons; split; [apply type_entry_ok; left|]. apply Forall_cons; split.
    + split; [right; left|]. split; [done|]. intros p. apply walk_properties. rewrite Forall_forall in *.
      intros kv Hkv p'. apply IH; [done|by apply Hprops|]. 
      pose proof (proj1 (forallb_forall _ _) Hpp kv (proj1 (list_elem_of_In _ _) Hkv)) as Hkvp. by destruct kv.
    + apply walk_leaves; [|done]. rewrite fmap_app. apply Forall_app. split; [by apply safe_leaves|by eapply required_leaves].
  - apply andb_true_iff in Hplain as [_ Hplain]. rewrite forallb_app in Hplain. apply andb_true_iff in Hplain as [Hcp Hip].
    cbn in Hip. apply andb_true_iff in Hip as [Hip _].
    rewrite (bool_decide_false ("items" = "properties")), (bool_decide_true ("items" = "items")) in Hip by done.
    apply Forall_cons; split; [apply type_entry_ok; by apply (bool_decide_unpack _)|].
    apply Forall_app; split; [apply walk_leaves; [by apply safe_leaves|done]|]. apply Forall_singleton.
    split; [by apply (bool_decide_unpack _)|]. split; [done|]. intros p.
    apply Forall_cons in IH as [_ IH]. rewrite Forall_forall in IH.
    apply (IH ("items", items)); [set_solver|done|done].
  - apply andb_true_iff in Hplain as [_ Hplain].
    apply Forall_cons; split; [apply type_entry_ok; unfold _SAFE_SCHEMA_TYPES; set_solver|].
    apply walk_leaves; [|done]. rewrite fmap_app. apply Forall_app. split; [by apply safe_leaves|by eapply bound_leaves].
Qed.
End validation.

(** ** Building the argument model of a typed schema *)

Definition schema_properties (schema : json) : list (string * json) :=
  match schema with
  | JObj kvs => match dict_get kvs "properties" with Some (JObj props) => props | _ => [] end
  | _ => []
  end.

Definition schema_required (schema : json) : list json :=
  match schema with
  | JObj kvs => match dict_get kvs "required" with Some (JArr names) => names | _ => [] end
  | _ => []
  end.

Lemma mapM_ok {A B} (f : A → res B) (P : A → B → Prop) l :
  Forall (λ a, ∃ b, f a = Ok b ∧ P a b) l → ∃ bs, mapM f l = Ok bs ∧ Forall2 P l bs.
Proof.
  induction 1 as [|a l (b & Hb & HP) _ (bs & Hbs & HF)]; [by exists []|].
  exists (b :: bs). cbn. rewrite Hb. cbn. rewrite Hbs. by split; [|constructor].
Qed.

Lemma safe_type_key n : safe_schema n → ∃ kvs t, n = JObj kvs ∧ kvs ≠ [] ∧ dict_get kvs "type" = Some (JStr t) ∧
  (t = "array" → ∃ items, dict_get kvs "items" = Some items ∧ safe_schema items).
Proof.
  destruct 1 as [common props required Hc Hprops Hreq|common items Hc Hitems|t common bounds Ht Hc Hb].
  - exists ([("type", JStr "object"); ("properties", JObj props)] ++ common ++ required), "object".
    rewrite get_outside, get_pre; [done| |done|by apply not_elem_bool]. intros H%(required_fst _ _ Hreq). set_solver.
  - exists ([("type", JStr "array")] ++ common ++ [("items", items)]), "array".
    rewrite !get_outside by (done || by apply not_elem_bool). split_and!; [done..|]. intros _. by exists items.
  - exists ([("type", JStr t)] ++ common ++ bounds), t.
    rewrite (get_outside _ common bounds "type"), get_pre; [| |done|by apply not_elem_bool].
    + split_and!; [done..|]. intros ->. by apply (not_elem_bool "array") in Ht.
    + intros H%(sublist_subseteq _ _ Hb)%bound_keys_sub. by apply (not_elem_bool "type") in H.
Qed.

Lemma build_field_safe required name def : safe_schema def →
  ∃ f, build_field required name def = Ok f ∧ field_name f = name ∧
    (field_optional f = false ↔ JStr name ∈ required).
Proof.
  intros Hsafe. destruct (safe_type_key _ Hsafe) as (kvs & t & -> & _ & Ht & Harr). cbn. rewrite Ht. cbn.
  assert (∀ ty : py_type, ∃ f, Ok (FieldSpec name ty (negb (bool_decide (JStr name ∈ required)))
      (default (JStr "") (dict_get kvs "description")) (_build_field_constraints kvs (JStr t))) = Ok f ∧
    field_name f = name ∧ (field_optional f = false ↔ JStr name ∈ required)) as Hok.
  { intros ty. eexists. split; [done|]. cbn. split; [done|]. by rewrite negb_false_iff, bool_decide_eq_true. }
  destruct (decide (JStr t = JStr "array")) as [E|E];
    [rewrite (bool_decide_true (JStr t = _)) by done|rewrite (bool_decide_false (JStr t = _)) by done; apply Hok].
  injection E as ->.
  destruct (Harr eq_refl) as (items & -> & Hitems). destruct (safe_type_key _ Hitems) as (ikvs & it & -> & Hne & Hit & _).
  destruct ikvs as [|ikv ikvs]; [done|]. rewrite Hit. cbn. apply Hok.
Qed.

Lemma required_set_strings names : required_set (JArr (JStr <$> names)) = Ok (JStr <$> names).
Proof.
  cbn. fold (@fmap list _ string json). assert (forallb (λ j, match j with JArr _ | JObj _ => false | _ => true end) (JStr <$> names) = true) as ->; [|done].
  by induction names.
Qed.

Lemma safe_builds n : safe_schema n →
  ∃ fields, build_pydantic_model n = Ok fields ∧ field_name <$> fields = (schema_properties n).*1 ∧
    ∀ f, f ∈ fields → field_optional f = false ↔ JStr (field_name f) ∈ schema_required n.
Proof.
  intros Hsafe.
  assert (∃ kvs props names, n = JObj kvs ∧ Forall (λ kv, safe_schema kv.2) props ∧
    schema_properties n = props ∧ schema_required n = JStr <$> names ∧
    default (JObj []) (dict_get kvs "properties") = JObj props ∧
    default (JArr []) (dict_get kvs "required") = JArr (JStr <$> names)) as (kvs & props & names & -> & Hprops & Hp & Hr & Hpd & Hrd).
  { destruct Hsafe as [common props required Hc Hprops Hreq|common items Hc Hitems|t common bounds Ht Hc Hb].
    - set (kvs := [("type", JStr "object"); ("properties", JObj props)] ++ common ++ required).
      assert (dict_get kvs "properties" = Some (JObj props)) as Hgp.
      { unfold kvs. rewrite get_outside, get_pre; [done| |done|by apply not_elem_bool].
        intros H%(required_fst _ _ Hreq). set_solver. }
      assert (dict_get kvs "required" = dict_get required "required") as Hgr.
      { unfold kvs. rewrite get_outside by (done || by apply not_elem_bool). rewrite dict_get_app. by destruct (dict_get required _). }
      destruct Hreq as [->|(names & _ & _ & ->)]; [exists kvs, props, []|exists kvs, props, names];
        unfold schema_properties, schema_required; by rewrite Hgp, Hgr.
    - exists (("type", JStr "array") :: common ++ [("items", items)]), [], [].
      assert (∀ k, k ∉ annotation_keys → k ∉ ["type"; "items"] →
        dict_get ([("type", JStr "array")] ++ common ++ [("items", items)]) k = None) as Hn.
      { intros k Hk Hk'. rewrite get_outside by done. apply dict_get_not_in. set_solver. }
      cbn in Hn. unfold schema_properties, schema_required.
      by rewrite !Hn by by apply not_elem_bool.
    - exists (("type", JStr t) :: common ++ bounds), [], [].
      assert (∀ k, k ∉ annotation_keys → k ∉ ["type"; "minimum"; "maximum"; "minLength"; "maxLength"; "pattern"] →
        dict_get ([("type", JStr t)] ++ common ++ bounds) k = None) as Hn.
      { intros k Hk Hk'. rewrite get_outside by done. apply dict_get_not_in. rewrite fmap_app. cbn.
        intros [->|H%(sublist_subseteq _ _ Hb)%bound_keys_sub]%elem_of_cons; set_solver. }
      cbn in Hn. unfold schema_properties, schema_required.
      by rewrite !Hn by by apply not_elem_bool. }
  cbn [build_pydantic_model]. rewrite Hrd, Hpd, Hp, Hr. rewrite required_set_strings. cbn.
  destruct (mapM_ok (λ p, build_field (JStr <$> names) p.1 p.2)
    (λ p f, field_name f = p.1 ∧ (field_optional f = false ↔ JStr p.1 ∈ JStr <$> names)) props) as (fields & Hm & HF).
  { eapply Forall_impl; [exact Hprops|]. intros p Hsp. by apply build_field_safe. }
  exists fields. split; [done|]. clear -HF. induction HF as [|p f ps fs [Hn Ho] _ [IH1 IH2]].
  { split; [done|]. intros f Hf. by apply elem_of_nil in Hf. }
  cbn. split; [by rewrite Hn, IH1|]. intros g [->|Hg]%elem_of_cons; [by rewrite Hn|by apply IH2].
Qed.

(** ** What the three operations promise together *)


(** A normalised schema whose annotations and bounds hold no object goes
    through tool creation: the validator reports nothing as soon as the
    schema passes JSON-Schema's own check, and the argument model is built
    with one field per declared property, mandatory exactly when the schema
    lists it as required. *)
Theorem normalized_schema_builds repr check_schema schema n dropped
    (Hnorm : normalize_to_safe_schema_subset repr schema = Ok (n, dropped))
    (Hplain : plain_values n = true) (Hcheck : check_schema n = true) :
  validate_safe_schema_subset repr check_schema n = Ok [] ∧
  ∃ fields, build_pydantic_model n = Ok fields ∧ field_name <$> fields = (schema_properties n).*1 ∧
    ∀ f, f ∈ fields → field_optional f = false ↔ JStr (field_name f) ∈ schema_required n.
Proof.
  apply normalize_node_safe in Hnorm. split; [|by apply safe_builds].
  unfold validate_safe_schema_subset. rewrite Hcheck. by apply safe_walk.
Qed.

(** An imported schema with an unsupported composition keyword, a union type,
    an untyped array and a [required] name that is not declared. *)
Definition imported_schema : json :=
  JObj [("$schema", JStr "http://json-schema.org/draft-07/schema#"); ("type", JStr "object");
        ("properties", JObj [
           ("wallet", JObj [("type", JArr [JStr "null"; JStr "string"]); ("minLength", JInt 42); ("format", JStr "hex")]);
           ("tags", JObj [("type", JStr "array"); ("description", JStr "labels")])]);
        ("required", JArr [JStr "wallet"; JStr "chain"])].

Definition normalized_import : json :=
  JObj [("type", JStr "object");
        ("properties", JObj [
           ("wallet", JObj [("type", JStr "string"); ("minLength", JInt 42)]);
           ("tags", JObj [("type", JStr "array"); ("description", JStr "labels"); ("items", JObj [("type", JStr "string")])])]);
        ("required", JArr [JStr "wallet"])].


Lemma normalized_schema_builds_witness :
  validate_safe_schema_subset (λ _, "") is_dict normalized_import = Ok [] ∧
  ∃ fields, build_pydantic_model normalized_import = Ok fields ∧
    field_name <$> fields = (schema_properties normalized_import).*1 ∧
    ∀ f, f ∈ fields → field_optional f = false ↔ JStr (field_name f) ∈ schema_required normalized_import.
Proof.
  eapply (normalized_schema_builds (λ _, "") is_dict imported_schema); vm_compute; reflexivity.
Defined.

(** A union type is admitted by the validator, and the builder then raises:
    the type is looked up in a dict, and a list is not hashable. *)
Definition union_schema : json :=
  JObj [("type", JStr "object"); ("properties", JObj [("a", JObj [("type", JArr [JStr "string"; JStr "integer"])])])].

Lemma admitted_schema_may_not_build :
  validate_safe_schema_subset (λ _, "") is_dict union_schema = Ok [] ∧
  build_pydantic_model union_schema = Raise (TypeError "unhashable type").
Proof. vm_compute. done. Qed.

(** A default that is an object survives normalisation and is then rejected. *)
Definition object_default : json := JObj [("type", JStr "object"); ("default", JObj [("a", JInt 1)])].

Lemma normalized_schema_may_be_rejected :
  ∃ n, normalize_to_safe_schema_subset (λ _, "") object_default = Ok (n, []) ∧
    validate_safe_schema_subset (λ _, "") is_dict n = Ok ["$.default.a: keyword not supported"].
Proof. eexists. split; vm_compute; reflexivity. Qed.
