(* ===== verification/SchemaRefs.v ===== *)
(** * Inlining local schema references (tools/schema.py,
    [flatten_embedded_json_schema])

    A schema with [$defs] is rewritten so that no local reference is left in
    it.  The recursion of the code follows references as well as structure;
    [seen] is what bounds it, and the depth bound of the model, the number of
    definitions, is shown never to be the reason it stops. *)

From S2P Require Export ToolSchema.

#[local] Set Warnings "-register-all".

Definition slash : Ascii.ascii := "/"%char.

(** [ref.rsplit("/", 1)[-1]] *)
Fixpoint last_part (l : list Ascii.ascii) : list Ascii.ascii :=
  match l with
  | [] => []
  | c :: rest =>
      if bool_decide (slash ∈ rest) then last_part rest
      else if bool_decide (c = slash) then rest else c :: rest
  end.
Definition last_segment (ref : string) : string := String.string_of_list_ascii (last_part (chars ref)).

Definition reference_name (ref : string) : string :=
  if String.prefix "#/$defs/" ref then last_segment ref
  else if String.prefix "#/definitions/" ref then last_segment ref
  else "".

(** The definition a [$ref] key names, when it is a local one that exists *)
Definition local_ref (defs kvs : list (string * json)) : option (string * json) :=
  match dict_get kvs "$ref" with
  | Some (JStr ref) =>
      let ref_name := reference_name ref in
      if bool_decide (ref_name = "") then None else pair ref_name <$> dict_get defs ref_name
  | _ => None
  end.

Definition res_map {A B} (f : A → res B) : list A → res (list B) :=
  fix go l := match l with [] => Ok [] | a :: rest => b ← f a; bs ← go rest; Ok (b :: bs) end.

(** The keys of an object other than the definition tables *)
Definition flatten_items (f : json → res json) : list (string * json) → res (list (string * json)) :=
  fix go kvs :=
    match kvs with
    | [] => Ok []
    | (k, v) :: rest =>
        if bool_decide (k ∈ ["$defs"; "definitions"]) then go rest
        else v' ← f v; rest' ← go rest; Ok ((k, v') :: rest')
    end.

(** The siblings of [$ref] override the definition's keys. *)
Definition override_items (f : json → res json) : list (string * json) → list (string * json) → res (list (string * json)) :=
  fix go kvs resolved :=
    match kvs with
    | [] => Ok resolved
    | (k, v) :: rest =>
        if bool_decide (k = "$ref") then go rest resolved
        else v' ← f v; go rest (dict_set resolved k v')
    end.

Definition recursive_reference (name : string) : exn := ValueError ("Recursive schema reference: " +:+ name).
Definition depth_exceeded : exn := RuntimeError "maximum recursion depth exceeded".

Fixpoint _resolve (defs : list (string * json)) (depth : nat) {struct depth} : json → list string → res json :=
  fix go (node : json) (seen : list string) {struct node} : res json :=
    match node with
    | JArr l => JArr <$> res_map (λ item, go item seen) l
    | JObj kvs =>
        match local_ref defs kvs with
        | Some (ref_name, definition) =>
            if bool_decide (ref_name ∈ seen) then Raise (recursive_reference ref_name)
            else
              resolved ← match depth with
                         | O => Raise depth_exceeded
                         | S depth' => _resolve defs depth' definition (seen ++ [ref_name])
                         end;
              match resolved with
              | JObj items => JObj <$> override_items (λ v, go v seen) kvs items
              | _ => Ok resolved
              end
        | None => JObj <$> flatten_items (λ v, go v seen) kvs
        end
    | _ => Ok node
    end.

Definition definitions_of (kvs : list (string * json)) : list (string * json) :=
  let table key := match dict_get kvs key with Some (JObj d) => d | _ => [] end in
  table "$defs" ++ table "definitions".

Definition flatten_embedded_json_schema (schema : json) : res json :=
  match schema with
  | JObj kvs =>
      let defs := definitions_of kvs in
      let root := filter (λ kv, kv.1 ∉ ["$defs"; "definitions"]) kvs in
      _resolve defs (length defs) (JObj root) []
  | _ => Raise (AttributeError "pop")
  end.

Example flatten_ex :
  flatten_embedded_json_schema (JObj [
    ("$defs", JObj [("Leg", JObj [("type", JStr "object"); ("title", JStr "Leg")])]);
    ("items", JObj [("$ref", JStr "#/$defs/Leg"); ("title", JStr "First leg")])]) =
  Ok (JObj [("items", JObj [("type", JStr "object"); ("title", JStr "First leg")])]).
Proof. vm_compute. reflexivity. Qed.

(** ** References between definitions *)

(** All the objects inside a value, the value included *)
Fixpoint objects (j : json) : list (list (string * json)) :=
  match j with
  | JArr l => concat (map objects l)
  | JObj kvs => kvs :: concat (map (λ kv, match kv with (_, v) => objects v end) kvs)
  | _ => []
  end.

Definition mentions (defs : list (string * json)) (j : json) (name : string) : Prop :=
  ∃ kvs definition, kvs ∈ objects j ∧ local_ref defs kvs = Some (name, definition).

Definition refers (defs : list (string * json)) (a b : string) : Prop :=
  ∃ definition, dict_get defs a = Some definition ∧ mentions defs definition b.

Definition self_contained (defs : list (string * json)) (j : json) : Prop :=
  Forall (λ kvs, local_ref defs kvs = None) (objects j).

#[local] Arguments dict_get : simpl never.

Section resolve.
Context (defs : list (string * json)).
Implicit Types (j : json) (kvs : list (string * json)).

Lemma local_ref_get kvs name definition : local_ref defs kvs = Some (name, definition) → dict_get defs name = Some definition.
Proof.
  unfold local_ref. destruct (dict_get kvs "$ref") as [[]|]; try done. case_bool_decide; [done|].
  destruct (dict_get defs (reference_name s)) eqn:E; [|done]. cbn. by intros [= <- <-].
Qed.

Lemma outcome_res_map {A B} (P : B → Prop) E (f : A → res B) l :
  Forall (λ a, outcome P E (f a)) l → outcome (Forall P) E (res_map f l).
Proof.
  induction 1 as [|a l Ha _ IH]; [constructor|]. cbn. eapply outcome_bind; [exact Ha|]. intros b _ Hb.
  eapply outcome_bind; [exact IH|]. intros bs _ Hbs. by constructor.
Qed.

(** *** Being self-contained *)

Definition resolved (node out : json) : Prop := self_contained defs out ∧ ∀ s, out = JStr s → node = JStr s.

(** The exception raised names a definition that reaches itself. *)
Definition cyclic (e : exn) : Prop := ∃ name, e = recursive_reference name ∧ tc (refers defs) name name.

Lemma self_contained_obj kvs :
  self_contained defs (JObj kvs) ↔ local_ref defs kvs = None ∧ Forall (λ kv, self_contained defs kv.2) kvs.
Proof.
  unfold self_contained. cbn. rewrite Forall_cons. f_equiv. induction kvs as [|[k v] kvs IH]; cbn; [by split|].
  by rewrite Forall_app, Forall_cons, IH.
Qed.

Lemma self_contained_arr l : self_contained defs (JArr l) ↔ Forall (self_contained defs) l.
Proof. unfold self_contained. cbn. induction l as [|v l IH]; cbn; [by split|]. by rewrite Forall_app, Forall_cons, IH. Qed.

Lemma elem_of_concat {A} (x : A) ls : x ∈ concat ls ↔ ∃ l, l ∈ ls ∧ x ∈ l.
Proof.
  rewrite list_elem_of_In, in_concat. split; intros (l & H1 & H2); exists l; rewrite ?list_elem_of_In in *; auto.
Qed.

Lemma mentions_item j l name : j ∈ l → mentions defs j name → mentions defs (JArr l) name.
Proof.
  intros Hj (kvs & d & Hk & Hl). exists kvs, d. split; [|done]. cbn. apply elem_of_concat.
  exists (objects j). split; [|done]. apply list_elem_of_In, in_map, list_elem_of_In, Hj.
Qed.

Lemma mentions_value k j kvs name : (k, j) ∈ kvs → mentions defs j name → mentions defs (JObj kvs) name.
Proof.
  intros Hj (kvs' & d & Hk & Hl). exists kvs', d. split; [|done]. cbn. right. apply elem_of_concat.
  exists (objects j). split; [|done]. apply list_elem_of_In in Hj.
  apply list_elem_of_In, (in_map (λ kv : string * json, match kv with (_, v) => objects v end) kvs (k, j) Hj).
Qed.

Lemma local_ref_ext kvs kvs' : dict_get kvs "$ref" = dict_get kvs' "$ref" → local_ref defs kvs = local_ref defs kvs'.
Proof. unfold local_ref. by intros ->. Qed.

Lemma dict_get_set_ne kvs k k' v : k ≠ k' → dict_get (dict_set kvs k v) k' = dict_get kvs k'.
Proof.
  intros Hk. unfold dict_set. case_bool_decide as E; clear E.
  - induction kvs as [|[q w] kvs IH]; [done|]. cbn [map]. rewrite dict_get_cons, <- IH. case_bool_decide as E; cbn in E.
    + subst. rewrite dict_get_cons. by rewrite !(bool_decide_false (k = k')).
    + by rewrite dict_get_cons.
  - rewrite dict_get_snoc. by rewrite bool_decide_false.
Qed.

Lemma dict_set_Forall (P : json → Prop) kvs k v :
  Forall (λ kv, P kv.2) kvs → P v → Forall (λ kv, P kv.2) (dict_set kvs k v).
Proof.
  intros HF Hv. unfold dict_set. case_bool_decide; [|by apply Forall_app; split; [|constructor]].
  apply Forall_map. eapply Forall_impl; [exact HF|]. intros [q w] Hw. cbn. by case_bool_decide.
Qed.

Lemma flatten_items_ref (f : json → res json) kvs :
  Forall (λ kv, outcome (resolved kv.2) cyclic (f kv.2)) kvs →
  outcome (λ kvs', Forall (λ kv, self_contained defs kv.2) kvs' ∧
    match dict_get kvs' "$ref" with
    | Some v' => ∃ v, dict_get kvs "$ref" = Some v ∧ ∀ s, v' = JStr s → v = JStr s
    | None => dict_get kvs "$ref" = None
    end) cyclic (flatten_items f kvs).
Proof.
  induction 1 as [|[k v] kvs Hv _ IH]; [by split; [constructor|]|]. cbn in Hv |- *. case_bool_decide as Ek.
  { eapply outcome_mono; [exact IH|]. intros kvs' [HF Href]. split; [done|]. rewrite dict_get_cons, bool_decide_false by (intros ->; set_solver).
    cbn. destruct (dict_get kvs' "$ref"); [|by rewrite Href]. destruct Href as (w & -> & Hw). eauto. }
  eapply outcome_bind; [exact Hv|]. intros v' _ [Hsc Hs]. eapply outcome_bind; [exact IH|]. intros kvs' _ [HF Href]. cbn.
  split; [by constructor|]. rewrite !dict_get_cons. destruct (dict_get kvs' "$ref").
  { destruct Href as (w & -> & Hw). eauto. }
  rewrite Href. case_bool_decide; [|done]. eauto.
Qed.

Lemma flatten_items_outcome (f : json → res json) kvs :
  local_ref defs kvs = None → Forall (λ kv, outcome (resolved kv.2) cyclic (f kv.2)) kvs →
  outcome (λ kvs', self_contained defs (JObj kvs')) cyclic (flatten_items f kvs).
Proof.
  intros Hnone HF%flatten_items_ref. destruct (flatten_items f kvs) as [kvs'|e]; [|done].
  destruct HF as [HF Href]. apply self_contained_obj. split; [|done]. unfold local_ref in *.
  destruct (dict_get kvs' "$ref") as [v'|]; [|done]. destruct Href as (v & Hv & Hs). rewrite Hv in Hnone.
  destruct v'; try done. by rewrite (Hs _ eq_refl) in Hnone.
Qed.

Lemma override_items_outcome (f : json → res json) kvs items :
  Forall (λ kv, outcome (resolved kv.2) cyclic (f kv.2)) kvs → self_contained defs (JObj items) →
  outcome (λ kvs', self_contained defs (JObj kvs')) cyclic (override_items f kvs items).
Proof.
  intros HF. revert items. induction HF as [|[k v] kvs Hv _ IH]; intros items Hitems; [done|]. cbn in Hv |- *.
  case_bool_decide as Ek; [by apply IH|]. eapply outcome_bind; [exact Hv|]. intros v' _ [Hsc _]. apply IH.
  apply self_contained_obj in Hitems as [Hnone HF]. apply self_contained_obj. split; [|by apply dict_set_Forall].
  rewrite <- Hnone. by apply local_ref_ext, dict_get_set_ne.
Qed.

(** *** The resolver *)

Lemma seen_bound seen name : NoDup seen → seen ⊆ defs.*1 → name ∉ seen → name ∈ defs.*1 → (length seen < length defs)%nat.
Proof.
  intros Hnd Hsub Hn Hin. rewrite <- (length_fmap fst defs).
  apply (submseteq_length (name :: seen)), NoDup_submseteq; [by constructor|].
  intros x [->|Hx]%elem_of_cons; auto.
Qed.

(** What holds of the names met on the way to a node *)
Record trail (node : json) (seen : list string) : Prop := {
  trail_distinct : NoDup seen;
  trail_known : seen ⊆ defs.*1;
  trail_reaches : ∀ s name, s ∈ seen → mentions defs node name → tc (refers defs) s name
}.

Lemma trail_sub node node' seen :
  trail node seen → (∀ name, mentions defs node' name → mentions defs node name) → trail node' seen.
Proof. intros [Hnd Hk Hr] Hm. split; [done..|]. intros s name Hs Hn. by apply Hr, Hm. Qed.

Lemma mentions_here kvs name definition : local_ref defs kvs = Some (name, definition) → mentions defs (JObj kvs) name.
Proof. intros H. exists kvs, definition. split; [left|done]. Qed.

Lemma trail_follow kvs seen name definition :
  trail (JObj kvs) seen → local_ref defs kvs = Some (name, definition) → name ∉ seen →
  trail definition (seen ++ [name]).
Proof.
  intros [Hnd Hk Hr] Hl Hn. pose proof (local_ref_get _ _ _ Hl) as Hg. split.
  - apply NoDup_app. split_and!; [done| |apply NoDup_singleton]. intros x Hx Heq%list_elem_of_singleton. by subst.
  - intros x [Hx|Hx%list_elem_of_singleton]%elem_of_app; [auto|]. subst x.
    apply dict_get_elem in Hg. by apply list_elem_of_fmap_2 with (f := fst) in Hg.
  - intros s q Hs Hq. assert (refers defs name q) as Hstep by by exists definition.
    apply elem_of_app in Hs as [Hs|Hs%list_elem_of_singleton]; [|subst s; by apply tc_once].
    eapply tc_r; [|exact Hstep]. apply Hr; [done|]. by eapply mentions_here.
Qed.

Context (defs_no_string : ∀ name s, dict_get defs name ≠ Some (JStr s)).

Lemma resolve_arr depth l seen :
  _resolve defs depth (JArr l) seen = JArr <$> res_map (λ item, _resolve defs depth item seen) l.
Proof. by destruct depth. Qed.

Lemma resolve_obj depth kvs seen :
  _resolve defs depth (JObj kvs) seen =
    match local_ref defs kvs with
    | Some (ref_name, definition) =>
        if bool_decide (ref_name ∈ seen) then Raise (recursive_reference ref_name)
        else
          r ← match depth with
              | O => Raise depth_exceeded
              | S depth' => _resolve defs depth' definition (seen ++ [ref_name])
              end;
          match r with
          | JObj items => JObj <$> override_items (λ v, _resolve defs depth v seen) kvs items
          | _ => Ok r
          end
    | None => JObj <$> flatten_items (λ v, _resolve defs depth v seen) kvs
    end.
Proof. by destruct depth. Qed.

Lemma resolve_scalar depth node seen :
  match node with JArr _ | JObj _ => False | _ => True end → outcome (resolved node) cyclic (_resolve defs depth node seen).
Proof. destruct depth, node; try done; intros _; (split; [constructor|naive_solver]). Qed.

Lemma resolve_outcome depth node seen :
  trail node seen → (length defs ≤ depth + length seen)%nat →
  outcome (resolved node) cyclic (_resolve defs depth node seen).
Proof.
  revert node seen. induction depth as [depth IHd] using lt_wf_ind. intros node.
  induction node as [| | | | |l IH|kvs IH] using json_nested_ind; intros seen Htrail Hlen; try by apply resolve_scalar.
  - rewrite resolve_arr. apply outcome_fmap with (Forall (self_contained defs)).
    + apply outcome_res_map. rewrite Forall_forall in *. intros item Hi.
      apply outcome_mono with (resolved item); [|by intros a [? _]]. apply (IH item Hi); [|done].
      eapply trail_sub; [exact Htrail|]. intros name. by apply mentions_item.
    + intros out _ Hout. split; [by apply self_contained_arr|done].
  - assert (Forall (λ kv, outcome (resolved kv.2) cyclic (_resolve defs depth kv.2 seen)) kvs) as Hvalues.
    { rewrite Forall_forall in *. intros [k v] Hkv. apply (IH (k, v) Hkv); [|done].
      eapply trail_sub; [exact Htrail|]. intros name. by apply (mentions_value k). }
    rewrite resolve_obj. destruct (local_ref defs kvs) as [[name definition]|] eqn:Hl.
    2: { eapply outcome_fmap; [by apply flatten_items_outcome|]. intros out _ Hout. by split. }
    case_bool_decide as Hseen.
    { exists name. split; [done|]. apply (trail_reaches _ _ Htrail); [done|by eapply mentions_here]. }
    pose proof (local_ref_get _ _ _ Hl) as Hg. destruct depth as [|depth].
    { exfalso. destruct Htrail as [Hnd Hk _]. apply dict_get_elem, list_elem_of_fmap_2 with (f := fst) in Hg.
      pose proof (seen_bound seen name Hnd Hk Hseen Hg). lia. }
    apply outcome_bind with (resolved definition).
    { apply IHd; [lia|by eapply trail_follow|]. rewrite length_app. cbn. lia. }
    intros r _ [Hr Hstr]. assert (∀ s, r ≠ JStr s) as Hns by (intros s ->; by apply (defs_no_string name s); rewrite Hg, (Hstr s)).
    destruct r as [| | | |s| |items]; try (by split; [|intros s' [=]]); [by destruct (Hns s)|].
    eapply outcome_fmap; [by apply override_items_outcome|]. intros out _ Hout. by split.
Qed.
End resolve.

(** No definition is a bare string (a schema is an object or a boolean). *)
Definition definitions_are_schemas (defs : list (string * json)) : bool :=
  forallb (λ kv, match kv.2 with JStr _ => false | _ => true end) defs.

Lemma definitions_are_schemas_get defs name s : definitions_are_schemas defs = true → dict_get defs name ≠ Some (JStr s).
Proof.
  intros H Hg%dict_get_elem%list_elem_of_In. unfold definitions_are_schemas in H. rewrite forallb_forall in H.
  by specialize (H _ Hg).
Qed.

(** Flattening an embedded schema always ends: its result mentions no
    definition any more, and it raises only when some definition really
    refers to itself through references; the recursion depth never runs out. *)
Theorem flatten_terminates kvs (Hdefs : definitions_are_schemas (definitions_of kvs) = true) :
  match flatten_embedded_json_schema (JObj kvs) with
  | Ok out => self_contained (definitions_of kvs) out
  | Raise e => ∃ name, e = recursive_reference name ∧ tc (refers (definitions_of kvs)) name name
  end.
Proof.
  cbn. set (root := JObj _). pose proof (resolve_outcome (definitions_of kvs)
    (λ name s, definitions_are_schemas_get _ name s Hdefs) (length (definitions_of kvs)) root []) as H.
  destruct (_resolve _ _ root []) as [out|e]; apply H; cbn; try lia; (split; [constructor|set_solver|]);
    intros s name Hs; by apply elem_of_nil in Hs.
Qed.

Definition tree_defs : list (string * json) :=
  [("$defs", JObj [("Node", JObj [("properties", JObj [("left", JObj [("$ref", JStr "#/$defs/Leaf")])])]);
                   ("Leaf", JObj [("type", JStr "string")])]);
   ("$ref", JStr "#/$defs/Node")].

Lemma flatten_terminates_witness :
  flatten_embedded_json_schema (JObj tree_defs) =
    Ok (JObj [("properties", JObj [("left", JObj [("type", JStr "string")])])]) ∧
  match flatten_embedded_json_schema (JObj tree_defs) with
  | Ok out => self_contained (definitions_of tree_defs) out
  | Raise e => ∃ name, e = recursive_reference name ∧ tc (refers (definitions_of tree_defs)) name name
  end.
Proof. split; [vm_compute; reflexivity|]. apply (flatten_terminates tree_defs). vm_compute. reflexivity. Defined.

(** A cycle is reported, not followed. *)
Example flatten_cycle :
  flatten_embedded_json_schema (JObj [("$defs", JObj [("Node", JObj [("next", JObj [("$ref", JStr "#/$defs/Node")])])]);
                                      ("$ref", JStr "#/$defs/Node")]) = Raise (recursive_reference "Node").
Proof. vm_compute. reflexivity. Qed.

(** A property that happens to be called [definitions] is lost. *)
Example flatten_drops_property :
  flatten_embedded_json_schema (JObj [("properties", JObj [("definitions", JObj [("type", JStr "string")]);
                                                            ("name", JObj [("type", JStr "string")])])]) =
  Ok (JObj [("properties", JObj [("name", JObj [("type", JStr "string")])])]).
Proof. vm_compute. reflexivity. Qed.
