(* ===== verification/Planner.v ===== *)
(** * Compiler-mode plans (agent/planner_ir.py)

    A plan is the staged set of tool calls the model may emit inside a
    [<plan>] tag: its extraction from the text, its validation, and the
    substitution of earlier outputs into later arguments.  [json.loads] and
    pydantic's [Plan.model_validate] are parameters.

    The theorem is that validation accepts exactly the plans whose calls are
    named, distinct, closed under [depends_on] and free of cycles; the depth
    the search may reach, the number of calls, is never exceeded. *)

From S2P Require Export Templating Monad.

(** ** Plans *)

Record PlanCall := MkPlanCall {
  call_id : string;
  tool : string;
  args : list (string * json);
  depends_on : list string;
}.

Record PlanStage := MkPlanStage {
  stage_id : Z;
  calls : list PlanCall;
}.

Record Plan := MkPlan {
  stages : list PlanStage;
  synthesizer_after_stage : option Z;
  current_stage_index : Z;
  completed_call_ids : list string;
}.
#[export] Instance eta_Plan : Eta Plan := λ p,
  MkPlan (stages p) (synthesizer_after_stage p) (current_stage_index p) (completed_call_ids p).

Definition is_done (p : Plan) : bool := len (stages p) <=? current_stage_index p.

Definition plan_calls (p : Plan) : list PlanCall := concat (map calls (stages p)).

(** ** References to earlier outputs *)

(** [s.split(c)] *)
Fixpoint split_on (sep : Ascii.ascii) (l : text) : list text :=
  match l with
  | [] => [[]]
  | c :: l' =>
      match split_on sep l' with
      | part :: parts => if bool_decide (c = sep) then [] :: part :: parts else (c :: part) :: parts
      | [] => [[c]]
      end
  end.

(** [l[i]] with Python's negative indices *)
Definition py_index {A} (l : list A) (i : Z) : option A :=
  let i := if i <? 0 then i + len l else i in
  if i <? 0 then None else l !! Z.to_nat i.

(** [None] is the exception the caller turns into an unresolved reference. *)
Fixpoint lookup_parts (cur : json) (parts : list text) : option json :=
  match parts with
  | [] => Some cur
  | part :: parts' =>
      let part := String.string_of_list_ascii part in
      match cur with
      | JObj kvs => v ← dict_get kvs part; lookup_parts v parts'
      | JArr l => i ← py_int_of_string part; v ← py_index l i; lookup_parts v parts'
      | _ => None
      end
  end.

Definition _lookup_path (root : json) (path : option text) : option json :=
  match path with
  | None | Some [] => Some root
  | Some p => lookup_parts root (split_on "."%char p)
  end.

Definition re_id (c : Ascii.ascii) : bool := re_word c || bool_decide (c = "-"%char).
Definition re_path (c : Ascii.ascii) : bool :=
  re_id c || bool_decide (c = "."%char) || bool_decide (c = "["%char) || bool_decide (c = "]"%char).

(** [_REF_RE.match(l)]: the two groups.  Each repetition is followed by a
    character outside its class, so the match has nothing to backtrack on. *)
Definition match_reference (l : text) : option (text * option text) :=
  match l with
  | a :: b :: l1 =>
      if bool_decide (a = open_brace) && bool_decide (b = open_brace) then
        let '(_, l2) := span re_space l1 in
        let '(name, l3) := span re_id l2 in
        let '(path, l4) :=
          match l3 with
          | c :: l3' =>
              if bool_decide (c = "."%char) then
                let '(p, rest) := span re_path l3' in
                match p with [] => (None, l3) | _ => (Some p, rest) end
              else (None, l3)
          | [] => (None, l3)
          end in
        let '(_, l5) := span re_space l4 in
        match name, l5 with
        | _ :: _, [c; d] => if bool_decide (c = close_brace) && bool_decide (d = close_brace) then Some (name, path) else None
        | _, _ => None
        end
      else None
  | _ => None
  end.

Definition resolve_string (outputs_by_call_id : list (string * json)) (value : string) : json :=
  match match_reference (strip_chars (chars value)) with
  | None => JStr value
  | Some (name, path) =>
      match dict_get outputs_by_call_id (String.string_of_list_ascii name) with
      | None | Some JNull => JStr value
      | Some base => default (JStr value) (_lookup_path base path)
      end
  end.

Fixpoint resolve_plan_references (outputs_by_call_id : list (string * json)) (value : json) : json :=
  match value with
  | JObj kvs => JObj (map (λ kv, match kv with (k, v) => (k, resolve_plan_references outputs_by_call_id v) end) kvs)
  | JArr l => JArr (map (resolve_plan_references outputs_by_call_id) l)
  | JStr s => resolve_string outputs_by_call_id s
  | _ => value
  end.

Example resolve_ex :
  resolve_plan_references [("c1", JObj [("rows", JArr [JObj [("price", JInt 7)]; JObj [("price", JInt 9)]])])]
    (JObj [("a", JStr " {{ c1.rows.-1.price }} "); ("b", JStr "{{c1.rows.5}}"); ("c", JStr "x {{c1}}"); ("d", JStr "{{c2}}")]) =
  JObj [("a", JInt 9); ("b", JStr "{{c1.rows.5}}"); ("c", JStr "x {{c1}}"); ("d", JStr "{{c2}}")].
Proof. vm_compute. reflexivity. Qed.

(** ** Validation *)

(** [for x in l: acc = f(acc, x)] with exceptions *)
Fixpoint fold_res {A B} (f : B → A → res B) (l : list A) (acc : B) : res B :=
  match l with
  | [] => Ok acc
  | a :: l' => acc' ← f acc a; fold_res f l' acc'
  end.

Definition check_call (call_ids : list string) (c : PlanCall) : res (list string) :=
  if is_empty (call_id c) then Raise (ValueError "Plan call_id must be non-empty")
  else if is_empty (tool c) then Raise (ValueError ("Plan call '" +:+ call_id c +:+ "' is missing tool name"))
  else if bool_decide (call_id c ∈ call_ids) then Raise (ValueError ("Duplicate plan call_id '" +:+ call_id c +:+ "'"))
  else Ok (call_id c :: call_ids).

Definition check_dependencies (call_ids : list string) (c : PlanCall) : res unit :=
  fold_res (λ _ dep,
    if bool_decide (dep ∈ call_ids) then Ok tt
    else Raise (ValueError ("Plan call '" +:+ call_id c +:+ "' depends on unknown call_id '" +:+ dep +:+ "'")))
    (depends_on c) tt.

(** [graph.get(node, [])] *)
Definition neighbours (graph : list (string * list string)) (node : string) : list string :=
  match find (λ kv, bool_decide (kv.1 = node)) graph with Some (_, deps) => deps | None => [] end.

Record visit := MkVisit { visiting : list string; visited : list string }.

Definition cycle_error : exn := ValueError "Plan contains a dependency cycle".

Fixpoint _dfs (fuel : nat) (graph : list (string * list string)) (node : string) (st : visit) : res visit :=
  match fuel with
  | O => Raise (RuntimeError "maximum recursion depth exceeded")
  | S fuel' =>
      if bool_decide (node ∈ visited st) then Ok st
      else if bool_decide (node ∈ visiting st) then Raise cycle_error
      else
        st' ← fold_res (λ st dep, _dfs fuel' graph dep st) (neighbours graph node)
                (MkVisit (node :: visiting st) (visited st));
        Ok (MkVisit (filter (λ x, x ≠ node) (visiting st')) (node :: visited st'))
  end.

Definition call_graph (all_calls : list PlanCall) : list (string * list string) :=
  map (λ c, (call_id c, depends_on c)) all_calls.

Definition validate_plan_dag (plan : Plan) : res unit :=
  let all_calls := plan_calls plan in
  call_ids ← fold_res check_call all_calls [];
  _ ← fold_res (λ _ c, check_dependencies call_ids c) all_calls tt;
  let graph := call_graph all_calls in
  _ ← fold_res (λ st node, _dfs (S (length graph)) graph node st) graph.*1 (MkVisit [] []);
  Ok tt.

(** ** Extraction from the planner's text *)

Definition _MAX_PLAN_BLOCK_CHARS : Z := 4096.

(** The rest of [l] after the literal [p], letters compared without case *)
Fixpoint strip_prefix_ci (p l : text) : option text :=
  match p, l with
  | [], _ => Some l
  | a :: p', c :: l' => if bool_decide (lower_char c = a) then strip_prefix_ci p' l' else None
  | _, [] => None
  end.

(** [(\{.*?\})\s*</plan>]: the shortest body that is followed by the closing tag *)
Fixpoint plan_body (l : text) : option text :=
  match l with
  | [] => None
  | c :: l' =>
      if bool_decide (c = close_brace) &&
         bool_decide (is_Some (strip_prefix_ci (chars "</plan>") (span re_space l').2)) then Some [c]
      else cons c <$> plan_body l'
  end.

Definition match_plan (l : text) : option text :=
  l1 ← strip_prefix_ci (chars "<plan>") l;
  match (span re_space l1).2 with
  | c :: l2 => if bool_decide (c = open_brace) then cons c <$> plan_body l2 else None
  | [] => None
  end.

(** [_PLAN_TAG_RE.search]: the leftmost match *)
Fixpoint search_plan (l : text) : option text :=
  match match_plan l with
  | Some raw => Some raw
  | None => match l with [] => None | _ :: l' => search_plan l' end
  end.

Definition parse_plan_from_text (loads : string → res json) (model_validate : json → res Plan) (txt : string) :
    res (option Plan) :=
  match search_plan (chars txt) with
  | None => Ok None
  | Some group =>
      let raw := strip_chars group in
      if _MAX_PLAN_BLOCK_CHARS <? len raw then Raise (ValueError "Plan block exceeds maximum allowed size")
      else
        payload ← loads (String.string_of_list_ascii raw);
        plan ← model_validate payload;
        _ ← validate_plan_dag plan;
        Ok (Some plan)
  end.

Example search_plan_ex :
  search_plan (chars ("First. <plan>{not closed <PLAN> {a: {b: 1}} </Plan> {c}</plan>")) =
  Some (chars "{not closed <PLAN> {a: {b: 1}}").
Proof. vm_compute. reflexivity. Qed.

(** ** The search decides acyclicity *)

Lemma outcome_fold_res {A B} (I : B → Prop) (P : A → B → Prop) (E : exn → Prop) (f : B → A → res B) l acc :
  (∀ a b, a ∈ l → I b → outcome (λ b', I b' ∧ P a b' ∧ ∀ a', P a' b → P a' b') E (f b a)) →
  I acc → outcome (λ b, I b ∧ (∀ a, a ∈ l → P a b) ∧ ∀ a', P a' acc → P a' b) E (fold_res f l acc).
Proof.
  revert acc. induction l as [|a l IH]; intros acc Hf Hacc.
  { cbn. split_and!; [done| |done]. intros a Ha. by apply elem_of_nil in Ha. }
  cbn. eapply outcome_bind; [apply Hf; [left|done]|]. intros b _ (Hb & HP & Hkeep).
  eapply outcome_mono; [apply IH; [|done]; intros; apply Hf; [by right|done]|].
  intros b' (Hb' & HPl & Hkeep'). split_and!; [done| |auto]. intros x [->|Hx]%elem_of_cons; auto.
Qed.

Section search.
Context (graph : list (string * list string)).

Definition edge (a b : string) : Prop := b ∈ neighbours graph a.

(** Every edge of a listed node leads further down the list. *)
Fixpoint ordered (l : list string) : Prop :=
  match l with
  | [] => True
  | a :: rest => (∀ b, edge a b → b ∈ rest) ∧ ordered rest
  end.

Lemma ordered_closed l a b : ordered l → a ∈ l → edge a b → b ∈ l.
Proof.
  induction l as [|x l IH]; intros Ho Ha Hab; [by apply elem_of_nil in Ha|]. destruct Ho as [Hx Ho].
  apply elem_of_cons in Ha as [->|Ha]; right; auto.
Qed.

Lemma ordered_tc l a b : ordered l → a ∈ l → tc edge a b → b ∈ l.
Proof. intros Ho Ha Htc. revert Ha. induction Htc; eauto using ordered_closed. Qed.

Lemma ordered_acyclic l a : ordered l → NoDup l → a ∈ l → ¬ tc edge a a.
Proof.
  induction l as [|x l IH]; intros Ho Hnd Ha Htc; [by apply elem_of_nil in Ha|].
  destruct Ho as [Hx Ho]. apply NoDup_cons in Hnd as [Hxl Hnd]. apply elem_of_cons in Ha as [->|Ha]; [|by apply (IH Ho Hnd Ha)].
  apply Hxl. inversion Htc; subst; [by apply Hx|]. eapply ordered_tc; [done|by apply Hx|done].
Qed.

Record search_state (st : visit) : Prop := {
  ss_ordered : ordered (visited st);
  ss_visited : NoDup (visited st);
  ss_visiting : NoDup (visiting st);
  ss_apart : ∀ x, x ∈ visiting st → x ∈ visited st → False;
  ss_known : visiting st ⊆ graph.*1
}.

Definition is_cycle (e : exn) : Prop := e = cycle_error ∧ ∃ a, tc edge a a.

Context (graph_closed : ∀ a b, edge a b → b ∈ graph.*1).

Lemma room_left st node :
  search_state st → node ∉ visiting st → node ∈ graph.*1 → (length (visiting st) < length graph)%nat.
Proof.
  intros Hst Hn Hin. rewrite <- (length_fmap fst graph).
  apply (submseteq_length (node :: visiting st)), NoDup_submseteq; [constructor; [done|apply Hst]|].
  intros x [->|Hx]%elem_of_cons; [done|by apply Hst].
Qed.

Lemma dfs_outcome fuel node st :
  search_state st → node ∈ graph.*1 → (∀ v, v ∈ visiting st → tc edge v node) →
  (length graph < fuel + length (visiting st))%nat →
  outcome (λ st', search_state st' ∧ visiting st' = visiting st ∧ node ∈ visited st' ∧ visited st ⊆ visited st')
    is_cycle (_dfs fuel graph node st).
Proof.
  revert node st. induction fuel as [|fuel IH]; intros node st Hst Hin Hpath Hfuel.
  { exfalso. destruct (decide (node ∈ visiting st)) as [Hv|Hv]; [|pose proof (room_left st node Hst Hv Hin); lia].
    pose proof (submseteq_length (visiting st) graph.*1 (NoDup_submseteq _ _ (ss_visiting _ Hst) (ss_known _ Hst))) as Hl.
    rewrite length_fmap in Hl. lia. }
  cbn. case_bool_decide as Hvd; [by split_and!|]. case_bool_decide as Hvi; [split; [done|]; exists node; auto|].
  pose proof (room_left st node Hst Hvi Hin) as Hroom.
  set (I := λ st', search_state st' ∧ visiting st' = node :: visiting st ∧ visited st ⊆ visited st').
  eapply outcome_bind; [apply (outcome_fold_res I (λ dep st', dep ∈ visited st'))|].
  - intros dep st1 Hdep (Hst1 & Hvis1 & Hsub1). eapply outcome_mono; [apply IH|].
    + done.
    + by apply (graph_closed node).
    + rewrite Hvis1. intros v [->|Hv]%elem_of_cons; [by apply tc_once|]. eapply tc_r; [by apply Hpath|done].
    + rewrite Hvis1. cbn. lia.
    + intros st2 (Hst2 & Hvis2 & Hd & Hsub2). unfold I. rewrite Hvis2.
      split_and!; [done|done|by etrans|done|]. intros a. apply Hsub2.
  - split_and!; [|done|done]. destruct Hst. split; cbn; [done|done|by constructor| |].
    + intros x [->|Hx]%elem_of_cons; eauto.
    + intros x [->|Hx]%elem_of_cons; auto.
  - intros st1 _ ((Hst1 & Hvis1 & Hsub1) & Hdeps & _). cbn. rewrite Hvis1, filter_cons_False by tauto.
    assert (filter (λ x, x ≠ node) (visiting st) = visiting st) as ->.
    { clear -Hvi. induction (visiting st) as [|x l IHl]; [done|]. rewrite filter_cons_True by set_solver.
      f_equal. apply IHl. set_solver. }
    destruct Hst1 as [Ho Hnd _ Hap _]. rewrite Hvis1 in Hap. split_and!; [|done|left|by right; apply Hsub1].
    split; cbn; [by split|constructor; [intros Hx; by apply (Hap node); [left|]|done]|apply Hst| |apply Hst].
    intros x Hx [->|Hx']%elem_of_cons; [done|]. apply (Hap x); [by right|done].
Qed.

(** The whole search: every node ends visited, unless there is a cycle. *)
Lemma search_outcome :
  outcome (λ st, search_state st ∧ ∀ a, a ∈ graph.*1 → a ∈ visited st) is_cycle
    (fold_res (λ st node, _dfs (S (length graph)) graph node st) graph.*1 (MkVisit [] [])).
Proof.
  eapply outcome_mono; [apply (outcome_fold_res (λ st, search_state st ∧ visiting st = []) (λ a st, a ∈ visited st))|].
  - intros node st Hn (Hst & Hv). eapply outcome_mono; [apply dfs_outcome; [done|done| |]|].
    + rewrite Hv. intros v Hx. by apply elem_of_nil in Hx.
    + rewrite Hv. cbn. lia.
    + intros st' (Hst' & Hv' & Hin & Hsub). rewrite Hv', Hv. split_and!; [done..|]. intros a. apply Hsub.
  - split; [|done]. split; cbn; [done|constructor|constructor|set_solver|set_solver].
  - intros st ((Hst & _) & Hall & _). by split.
Qed.
End search.

(** ** What validation accepts *)

(** A plan the executor can run: named calls, distinct ids, known
    dependencies, and no call that waits for itself. *)
Record runnable (plan : Plan) : Prop := {
  run_named : ∀ c, c ∈ plan_calls plan → call_id c ≠ "" ∧ tool c ≠ "";
  run_distinct : NoDup (call_id <$> plan_calls plan);
  run_closed : ∀ c dep, c ∈ plan_calls plan → dep ∈ depends_on c → dep ∈ call_id <$> plan_calls plan;
  run_acyclic : ∀ a, ¬ tc (λ a b, ∃ c, c ∈ plan_calls plan ∧ call_id c = a ∧ b ∈ depends_on c) a a
}.

Lemma check_call_ok ids c ids' :
  check_call ids c = Ok ids' ↔ call_id c ≠ "" ∧ tool c ≠ "" ∧ (call_id c ∉ ids) ∧ ids' = call_id c :: ids.
Proof.
  unfold check_call, is_empty. repeat case_bool_decide; split; try done; try tauto.
  - by intros [= <-].
  - by intros (_ & _ & _ & ->).
Qed.

Lemma check_calls_ok l ids ids' :
  fold_res check_call l ids = Ok ids' ↔
  (∀ c, c ∈ l → call_id c ≠ "" ∧ tool c ≠ "") ∧ NoDup (call_id <$> l) ∧
  (∀ c, c ∈ l → call_id c ∉ ids) ∧ ids' = rev (call_id <$> l) ++ ids.
Proof.
  revert ids. induction l as [|c l IH]; intros ids; cbn.
  { split; [intros [= <-]; split_and!; [set_solver|constructor|set_solver|done]|by intros (_ & _ & _ & ->)]. }
  rewrite res_bind_ok. setoid_rewrite check_call_ok. setoid_rewrite IH. clear IH. rewrite NoDup_cons. split.
  - intros (b & (Hc & Ht & Hn & ->) & Hl & Hnd & Hout & ->). split_and!; [set_solver|set_solver|done|set_solver|].
    by rewrite <- app_assoc.
  - intros (Hl & [Hc Hnd] & Hout & ->). exists (call_id c :: ids). destruct (Hl c) as [? ?]; [left|].
    split_and!; [done|done|set_solver|done|set_solver|done| |by rewrite <- app_assoc].
    intros c' Hc' [Heq|Hin]%elem_of_cons; [|by apply (Hout c'); [right|]]. apply Hc. rewrite <- Heq. by apply list_elem_of_fmap_2.
Qed.

Lemma fold_unit_ok {A} (f : unit → A → res unit) (l : list A) :
  (fold_res f l tt = Ok tt) ↔ (∀ a, a ∈ l → f tt a = Ok tt).
Proof.
  induction l as [|a l IH]; cbn; [split; [|done]; intros _ a Ha; by apply elem_of_nil in Ha|].
  rewrite res_bind_ok. split.
  - intros ([] & Ha & Hl) x [->|Hx]%elem_of_cons; [done|]. by apply IH.
  - intros H. exists tt. split; [apply H; left|]. apply IH. intros x Hx. apply H. by right.
Qed.

Lemma check_dependencies_ok ids c : check_dependencies ids c = Ok tt ↔ ∀ dep, dep ∈ depends_on c → dep ∈ ids.
Proof.
  unfold check_dependencies. rewrite fold_unit_ok. split; intros H dep Hd; specialize (H dep Hd); cbn in *; by case_bool_decide.
Qed.

Lemma neighbours_call l a b : NoDup (call_id <$> l) →
  (b ∈ neighbours (call_graph l) a) ↔ ∃ c, c ∈ l ∧ call_id c = a ∧ b ∈ depends_on c.
Proof.
  unfold neighbours, call_graph. induction l as [|c l IH]; cbn; [set_solver|].
  rewrite NoDup_cons. intros [Hc Hnd]. case_bool_decide as E.
  - split; [intros Hb; exists c; split_and!; [left|done|done]|]. intros (c' & [->|Hin]%elem_of_cons & Hid & Hb); [done|].
    destruct Hc. rewrite E, <- Hid. by apply list_elem_of_fmap_2.
  - rewrite IH by done. split; [intros (c' & Hin & ?); exists c'; split; [by right|done]|].
    intros (c' & [->|Hin]%elem_of_cons & Hid & Hb); [done|]. by exists c'.
Qed.

Lemma elem_of_rev {A} (x : A) l : x ∈ rev l ↔ x ∈ l.
Proof. by rewrite !list_elem_of_In, <- in_rev. Qed.

Lemma tc_mono {A} (R S : relation A) a b : (∀ x y, R x y → S x y) → tc R a b → tc S a b.
Proof. intros H. induction 1; [apply tc_once|eapply tc_l]; eauto. Qed.

Lemma graph_ids l : (call_graph l).*1 = call_id <$> l.
Proof. unfold call_graph. by induction l as [|c l IH]; cbn; [|f_equal]. Qed.

(** C40. Validation accepts a plan exactly when its calls have non-empty and
    distinct ids and a tool, every dependency names a call of the plan, and no
    call depends on itself through others; otherwise it raises, and the search
    always ends. *)
Theorem validate_plan_dag_exact plan : validate_plan_dag plan = Ok tt ↔ runnable plan.
Proof.
  unfold validate_plan_dag. set (l := plan_calls plan). set (graph := call_graph l).
  assert (∀ ids, NoDup (call_id <$> l) → (∀ c dep, c ∈ l → dep ∈ depends_on c → dep ∈ ids) →
    ids ⊆ call_id <$> l → outcome (λ st, search_state graph st ∧ ∀ a, a ∈ graph.*1 → a ∈ visited st) (is_cycle graph)
      (fold_res (λ st node, _dfs (S (length graph)) graph node st) graph.*1 (MkVisit [] []))) as Hsearch.
  { intros ids Hnd Hids Hsub. apply search_outcome. intros a b (c & Hc & _ & Hb)%neighbours_call; [|done].
    unfold graph. rewrite graph_ids. by apply Hsub, (Hids c). }
  assert (NoDup (call_id <$> l) → ∀ a, tc (edge graph) a a ↔ tc (λ a b, ∃ c, c ∈ l ∧ call_id c = a ∧ b ∈ depends_on c) a a) as Htc.
  { intros Hnd a. split; apply tc_mono; intros x y; unfold edge, graph; by rewrite neighbours_call. }
  split.
  - rewrite res_bind_ok. intros (ids & (Hnamed & Hnd & _ & ->)%check_calls_ok & H). rewrite app_nil_r in H.
    apply res_bind_ok in H as ([] & Hdeps & H). rewrite fold_unit_ok in Hdeps. setoid_rewrite check_dependencies_ok in Hdeps.
    setoid_rewrite elem_of_rev in Hdeps. apply res_bind_ok in H as (st & Hst & _).
    pose proof (Hsearch (call_id <$> l) Hnd (λ c dep Hc, Hdeps c Hc dep) ltac:(done)) as Hout. rewrite Hst in Hout. destruct Hout as [[Ho Hv _ _ _] Hall].
    split; [done|done|by intros c dep Hc; apply Hdeps|]. intros a Ha. assert (a ∈ visited st) as Hav.
    { apply Hall. unfold graph. rewrite graph_ids.
      inversion Ha as [x y (c & Hc & <- & _)|x y z (c & Hc & <- & _)]; subst; by apply list_elem_of_fmap_2. }
    apply (ordered_acyclic graph (visited st) a Ho Hv Hav). by apply Htc.
  - intros [Hnamed Hnd Hclosed Hac].
    replace (fold_res check_call l []) with (Ok (rev (call_id <$> l))).
    2: { symmetry. apply check_calls_ok. rewrite app_nil_r. split_and!; [done|done|set_solver|done]. }
    cbn. replace (fold_res _ l tt) with (Ok tt).
    2: { symmetry. apply fold_unit_ok. intros c Hc. apply check_dependencies_ok. intros dep Hd. apply elem_of_rev. by apply (Hclosed c). }
    cbn. pose proof (Hsearch (call_id <$> l) Hnd Hclosed ltac:(done)) as Hout.
    destruct (fold_res _ graph.*1 _) as [st|e]; [done|]. destruct Hout as (_ & a & Ha). exfalso. apply (Hac a). by apply Htc.
Qed.
