(* ===== verification/Executor.v ===== *)
(** * The tool executor of an agent run (tools/executor.py,
    agent/node_executor.py, agent/node_usage.py)

    One execution of [tool_executor_node]: which of the requested calls run
    (availability, custom and per-tool caps, redundancy and duplicate
    suppression), what each outcome becomes (the result envelope, its billing
    class), how the run's usage counters move, and how a compiler-mode plan
    advances.

    What a tool answers, how long it takes and which tasks are unfinished at
    the batch timeout is the parameter [fate], one value per accepted call;
    [json.dumps], [json.loads], [repr] and the slot summary are parameters. *)

From S2P Require Export Planner Bytes.

(** ** The result envelope (tools/executor.py) *)

Record ToolResult := MkToolResult {
  success : bool;
  content : string;
  elapsed_ms : Z;
  error_class : option string;
  retry_safe : bool;
  billable : bool;
}.

(** How the awaited invocation of a tool ends *)
Inductive invocation :=
  | Returned (result : json)
  | RaisedTimeout
  | RaisedPydanticValidation
  | RaisedClientError
  | RaisedOther.

Definition _UPSTREAM_ERROR_TYPES : list string :=
  ["upstream_error"; "upstream_unavailable"; "rate_limited"; "authentication_error"; "malformed_response";
   "non_json_response"; "invalid_json"].

Section envelope.
Context (json_dumps : json → string) (repr : json → string).

Definition _error_content (cls message : string) (retry bill : bool) : string :=
  json_dumps (JObj [("status", JStr "error"); ("error_class", JStr cls); ("message", JStr message);
                    ("retry_safe", JBool retry); ("billable", JBool bill)]).

(** [x or ""], then [str] and [lower] *)
Definition lower_or_empty (v : option json) : string :=
  py_lower (match v with Some j => if truthy j then py_str repr j else "" | None => "" end).

Definition server_status (status : option json) : bool :=
  match status with Some (JInt n) => (500 <=? n) || (n =? 429) | _ => false end.

Definition _classify_embedded_error (result : list (string * json)) : string * bool * bool * string :=
  let error_type := lower_or_empty (dict_get result "error_type") in
  if bool_decide (error_type = "timeout") then ("timeout", true, false, "Tool timed out")
  else if bool_decide (error_type ∈ _UPSTREAM_ERROR_TYPES) || server_status (dict_get result "status") then
    ("upstream_unavailable", true, false, "Tool upstream is unavailable")
  else
    let raw := py_lower (py_str repr (default (JStr "tool execution failed") (dict_get result "error"))) in
    if str_in "timeout" raw || str_in "timed out" raw then ("timeout", true, false, "Tool timed out")
    else if str_in "temporarily unavailable" raw || str_in "circuit breaker" raw then
      ("upstream_unavailable", true, false, "Tool is temporarily unavailable")
    else if str_in "url blocked" raw || str_in "decrypt" raw || str_in "request failed" raw || str_in "connection" raw then
      ("upstream_unavailable", true, false, "Tool upstream is unavailable")
    else if str_in "non-json" raw || str_in "invalid json" raw then
      ("upstream_unavailable", true, false, "Tool returned an invalid upstream response")
    else ("business_error", false, true, py_str repr (default (JStr "Tool execution failed") (dict_get result "error"))).

Definition _serialize_content (result : json) : string :=
  match result with JStr s => s | _ => json_dumps result end.

Definition tool_failure (elapsed : Z) (cls message : string) (retry bill : bool) : ToolResult :=
  MkToolResult false (_error_content cls message retry bill) elapsed (Some cls) retry bill.

(** [result.get("error")] is truthy *)
Definition embedded_error (result : json) : option (list (string * json)) :=
  match result with
  | JObj kvs => match dict_get kvs "error" with Some e => if truthy e then Some kvs else None | None => None end
  | _ => None
  end.

(** [invokable] is [tool is not None or invoke is not None].  Output-schema
    validation only logs. *)
Definition execute_tool (tool_name : string) (invokable : bool) (outcome : invocation) (elapsed : Z) : ToolResult :=
  if negb invokable then tool_failure 0 "blocked" ("Tool '" +:+ tool_name +:+ "' not found.") false false
  else
    match outcome with
    | Returned result =>
        match embedded_error result with
        | Some kvs =>
            let '(cls, retry, bill, message) := _classify_embedded_error kvs in tool_failure elapsed cls message retry bill
        | None => MkToolResult true (_serialize_content result) elapsed None false true
        end
    | RaisedTimeout => tool_failure elapsed "timeout" "Tool timed out" true false
    | RaisedPydanticValidation =>
        tool_failure elapsed "validation_error" ("Invalid arguments for tool '" +:+ tool_name +:+ "'") false false
    | RaisedClientError => tool_failure elapsed "upstream_unavailable" "Tool upstream is unavailable" true false
    | RaisedOther => tool_failure elapsed "business_error" "Tool execution failed" false false
    end.

(** Infrastructure failures are never billable. *)
Lemma classify_billable result :
  (_classify_embedded_error result).1.2 = bool_decide ((_classify_embedded_error result).1.1.1 = "business_error").
Proof. unfold _classify_embedded_error. by repeat case_match. Qed.

(** A call is billable exactly when the tool answered, with a success or with
    a business error of its own. *)
Lemma execute_tool_billable tool_name invokable outcome elapsed :
  billable (execute_tool tool_name invokable outcome elapsed) = true ↔
  invokable = true ∧ ∃ result, outcome = Returned result ∧
    (embedded_error result = None ∨
     ∃ kvs, embedded_error result = Some kvs ∧ (_classify_embedded_error kvs).1.1.1 = "business_error").
Proof.
  unfold execute_tool. destruct invokable; cbn; [|by split; [|intros [? _]]].
  destruct outcome as [result| | | |]; cbn; try (split; [done|by intros (_ & ? & [=] & _)]).
  destruct (embedded_error result) as [kvs|] eqn:E; cbn.
  2: { split; [intros _|done]. split; [done|]. exists result. auto. }
  pose proof (classify_billable kvs) as H.
  destruct (_classify_embedded_error kvs) as [[[cls retry] bill] message] eqn:Ec. cbn in *. rewrite H, bool_decide_eq_true. split.
  - intros ->. split; [done|]. exists result. split; [done|]. right. exists kvs. by rewrite E, Ec.
  - intros (_ & r & [= <-] & [Hn|(k & Hk & Hc)]); [by rewrite E in Hn|]. rewrite E in Hk. injection Hk as <-. by rewrite Ec in Hc.
Qed.
End envelope.

(** ** Messages and the state of a run (agent/state.py) *)

Record Call := MkCall { c_id : string; c_name : string; c_args : list (string * json) }.

Inductive message :=
  | Human (text : string)
  | System (text : string)
  | AI (text : string) (tool_calls : list Call)
  | ToolMsg (text : string) (tool_call_id : string).

Inductive TaskStatus := IDLE | PLANNING | EXECUTING | GENERATING_UI | COMPLETED | FAILED.
#[export] Instance TaskStatus_eq_dec : EqDecision TaskStatus.
Proof. solve_decision. Defined.

Record LogEntry := MkLogEntry {
  log_tool : string;
  log_success : bool;
  log_error_class : string;
  log_elapsed_ms : Z;
  log_billable : bool;
  log_args_hash : string;
  log_args_json : option json;  (** the arguments whose compact text is stored *)
}.

(** One LLM turn as [_accumulate_usage] records it *)
Record TurnRecord := MkTurn {
  turn_provider : string;
  turn_model : string;
  turn_in : Z;
  turn_out : Z;
  turn_cache_read : Z;
  turn_cache_creation : Z;
}.

(** [metadata["_usage"]]; an absent counter is 0 and an absent list empty. *)
Record RunUsage := MkUsage {
  tokens_in : Z;
  tokens_out : Z;
  cache_read_tokens : Z;
  cache_creation_tokens : Z;
  turns : list TurnRecord;
  tool_calls : Z;
  custom_tool_calls : Z;
  billable_tool_calls : Z;
  failed_tool_calls : Z;
  tool_iterations : Z;
  tool_names : list string;
  failed_tool_names : list string;
  _tool_call_counts : gmap string Z;
  _completed_calls : list string;
  _defi_positions_covered : list string;
  _tool_call_log : list LogEntry;
  delegation_spend_usdc : Z;
  delegation_count : Z;
}.
#[export] Instance eta_Usage : Eta RunUsage := λ u,
  MkUsage (tokens_in u) (tokens_out u) (cache_read_tokens u) (cache_creation_tokens u) (turns u)
    (tool_calls u) (custom_tool_calls u) (billable_tool_calls u) (failed_tool_calls u) (tool_iterations u)
    (tool_names u) (failed_tool_names u) (_tool_call_counts u) (_completed_calls u)
    (_defi_positions_covered u) (_tool_call_log u) (delegation_spend_usdc u) (delegation_count u).

Definition no_usage : RunUsage := MkUsage 0 0 0 0 [] 0 0 0 0 0 [] [] ∅ [] [] [] 0 0.

Record Metadata := MkMetadata {
  _usage : RunUsage;
  _plan_outputs : list (string * json);
  _synthesis_forced : bool;
  _excluded_tool_names : list string;
}.
#[export] Instance eta_Metadata : Eta Metadata := λ m,
  MkMetadata (_usage m) (_plan_outputs m) (_synthesis_forced m) (_excluded_tool_names m).

Record AgentState := MkAgentState {
  messages : list message;
  task_status : TaskStatus;
  metadata : Metadata;
  slots : json;
  plan : option Plan;
}.
#[export] Instance eta_AgentState : Eta AgentState := λ s,
  MkAgentState (messages s) (task_status s) (metadata s) (slots s) (plan s).

(** The fields a node returns; the others keep their value. *)
Record Patch := MkPatch {
  p_messages : list message;
  p_status : TaskStatus;
  p_metadata : option Metadata;
  p_slots : option json;
  p_plan : option (option Plan);
}.

(** A tool as the executor sees it: its metadata dict, if it has one *)
Record Tool := MkTool { tool_metadata : option (list (string * json)) }.

Record ExecutorSettings := MkExecutorSettings {
  agent_tool_max_calls_per_run : list (string * Z);
  max_custom_tool_calls_per_run : Z;
  agent_single_tool_timeout_seconds : Z;
  agent_tool_executor_timeout_seconds : Z;
  agent_max_tool_result_chars : Z;
  a2a_delegation_max_per_run : Z;
}.

(** How one accepted call of the batch ends *)
Inductive call_fate :=
  | Finished (outcome : invocation) (elapsed : Z)
  | PerToolTimeout (elapsed : Z)
  | Crashed (exc_type : string) (elapsed : Z)
  | Unfinished (elapsed : Z).

(** The result dict of a call *)
Record CallResult := MkCallResult {
  r_message : message;
  r_name : string;
  r_elapsed : Z;
  r_content : string;
  r_full_content : string;
  r_billable : bool;
  r_error_class : option string;
}.

Definition chain_key (repr : json → string) (chain_id : Z) (addr : json) : string :=
  pretty chain_id +:+ ":" +:+ py_lower (py_str repr addr).

Section executor.
Context (json_dumps : json → string) (json_loads : string → option json) (repr : json → string).
Context (summarize_into_slots : string → string → json → json).
Context (cfg : ExecutorSettings) (platform_tools org_tools : list (string * Tool)).
Context (fate : nat → Call → call_fate).

(** *** Signatures and semantic redundancy *)

Definition args_hash (args : list (string * json)) : string :=
  String.substring 0 16 (sha256_hex (encode_ascii (json_dumps (sort_keys (JObj args))))).

Definition _call_signature (tool_name : string) (args : list (string * json)) : string :=
  tool_name +:+ ":" +:+ args_hash args.

(** [int(x)] or the exception it raises *)
Definition int_or_raise (j : json) : res Z :=
  match py_int j with Some z => Ok z | None => Raise (ValueError "invalid literal for int()") end.

Definition _get_liquidation_risk_targets (args : list (string * json)) : res (list string) :=
  let wallets := match dict_get args "wallet_addresses" with Some w => if truthy w then w else JArr [] | None => JArr [] end in
  match dict_get args "chain_id", wallets with
  | None, _ | Some JNull, _ => Ok []
  | Some chain_id, JArr addrs =>
      mapM (λ addr, z ← int_or_raise chain_id; Ok (chain_key repr z addr)) (filter (λ a, truthy a = true) addrs)
  | _, _ => Ok []
  end.

Definition _covered_defi_keys_from_result (content : string) : res (list string) :=
  match json_loads content with
  | None => Ok []
  | Some (JObj payload) =>
      match dict_get payload "wallet_address", dict_get payload "chain_id" with
      | Some wallet, Some chain_id =>
          if negb (truthy wallet) || bool_decide (chain_id = JNull) then Ok []
          else
            let errors := match dict_get payload "errors" with Some e => if truthy e then e else JArr [] | None => JArr [] end in
            match errors with
            | JArr errs =>
                let failed := errs ≫= λ err,
                  match err with
                  | JObj e => match dict_get e "protocol" with Some p => if truthy p then [py_lower (py_str repr p)] else [] | None => [] end
                  | _ => []
                  end in
                if bool_decide ("aave_v3" ∈ failed) || bool_decide ("compound_v3" ∈ failed) then Ok []
                else z ← int_or_raise chain_id; Ok [chain_key repr z wallet]
            | JObj _ | JStr _ => z ← int_or_raise chain_id; Ok [chain_key repr z wallet]
            | _ => Raise (TypeError "object is not iterable")
            end
      | _, _ => Ok []
      end
  | Some _ => Raise (AttributeError "get")
  end.

(** *** Tool lookup and caps *)

Definition assoc {A} (l : list (string * A)) (key : string) : option A :=
  foldl (λ acc kv, if bool_decide (kv.1 = key) then Some kv.2 else acc) None l.

Definition is_platform (name : string) : bool := bool_decide (name ∈ platform_tools.*1).

(** [{**platform_tools, **org_tools}] without the excluded names *)
Definition find_tool (excluded : list string) (name : string) : option Tool :=
  if bool_decide (name ∈ excluded) then None else assoc (platform_tools ++ org_tools) name.

(** [isinstance(x, int) and x > 0]; a bool is an int *)
Definition positive_int (j : json) : option Z :=
  match j with
  | JInt z => if 0 <? z then Some z else None
  | JBool true => Some 1
  | _ => None
  end.

Definition max_calls (excluded : list string) (name : string) : option Z :=
  let configured := assoc (agent_tool_max_calls_per_run cfg) name in
  match find_tool excluded name ≫= tool_metadata with
  | Some meta => match dict_get meta "max_calls_per_run" ≫= positive_int with Some cap => Some cap | None => configured end
  | None => configured
  end.

(** All requested tokens are bare addresses *)
Definition address_only (args : list (string * json)) : bool :=
  match dict_get args "tokens" with
  | Some (JArr (t :: ts)) =>
      let normalized := (t :: ts) ≫= λ tok,
        match tok with JStr s => if is_empty (py_strip s) then [] else [py_lower (py_strip s)] | _ => [] end in
      negb (bool_decide (normalized = [])) && forallb (String.prefix "0x") normalized
  | _ => false
  end.

(** *** Admission of the calls of a batch *)

Record Admission := MkAdmission { dedup_calls : list Call; skipped_messages : list message; seen_this_batch : list string }.
#[local] Instance eta_Admission : Eta Admission := λ a, MkAdmission (dedup_calls a) (skipped_messages a) (seen_this_batch a).

Definition skip (a : Admission) (c : Call) (text : string) : Admission :=
  a <| skipped_messages ::= λ l, l ++ [ToolMsg text (c_id c)] |>.

Definition accept (a : Admission) (c : Call) : Admission := a <| dedup_calls ::= λ l, l ++ [c] |>.

Definition count_calls (p : string → bool) (l : list Call) : Z := len (filter (λ c, p (c_name c) = true) l).

Definition cap_reached (excluded : list string) (u : RunUsage) (a : Admission) (name : string) : option Z :=
  match max_calls excluded name with
  | Some cap =>
      if cap <=? default 0 (_tool_call_counts u !! name) + count_calls (λ n, bool_decide (n = name)) (dedup_calls a)
      then Some cap else None
  | None => None
  end.

Definition admit_call (excluded : list string) (u : RunUsage) (a : Admission) (c : Call) : res Admission :=
  let name := c_name c in
  match find_tool excluded name with
  | None => Ok (skip a c ("[TOOL_UNAVAILABLE] Tool '" +:+ name +:+ "' is not configured in this run. Synthesize from existing data."))
  | Some _ =>
      if negb (is_platform name) then
        if max_custom_tool_calls_per_run cfg <=? custom_tool_calls u + count_calls (λ n, negb (is_platform n)) (dedup_calls a) then
          Ok (skip a c ("[CUSTOM_TOOL_CAP_EXCEEDED] custom tool calls exceeded per-run cap ("
                          +:+ pretty (max_custom_tool_calls_per_run cfg) +:+ ")."))
        else Ok (accept a c)
      else
        match cap_reached excluded u a name with
        | Some cap =>
            Ok (skip a c ("[TOOL_CALL_CAP_EXCEEDED] '" +:+ name +:+ "' exceeded the per-run cap (" +:+ pretty cap
                            +:+ "). Reuse prior results already in the conversation."))
        | None =>
            redundant ←
              (if bool_decide (name = "get_liquidation_risk") then
                 targets ← _get_liquidation_risk_targets (c_args c);
                 Ok (negb (bool_decide (targets = [])) && bool_decide (Forall (λ t, t ∈ _defi_positions_covered u) targets))
               else Ok false);
            if (redundant : bool) then
              Ok (skip a c ("[SEMANTIC_REDUNDANCY_BLOCKED] get_defi_positions already returned risk-relevant data for the requested wallet(s)/chain. "
                              +:+ "Use those results instead of re-calling get_liquidation_risk."))
            else if bool_decide (name = "get_token_price") && address_only (c_args c) then
              Ok (skip a c ("[GET_TOKEN_PRICE_BLOCKED] All requested tokens are bare 0x addresses. CoinGecko cannot resolve address-only identifiers. "
                              +:+ "Report these as unrecognized (address-only) and continue synthesis."))
            else
              let sig := _call_signature name (c_args c) in
              if bool_decide (sig ∈ _completed_calls u) || bool_decide (sig ∈ seen_this_batch a) then
                Ok (skip a c ("[DUPLICATE_CALL_BLOCKED] '" +:+ name +:+ "' was already called with identical arguments this session. "
                                +:+ "Use the prior result already present in the conversation."))
              else Ok (accept (a <| seen_this_batch ::= cons sig |>) c)
        end
  end.

Definition admit_all (excluded : list string) (u : RunUsage) (incoming : list Call) : res Admission :=
  fold_res (admit_call excluded u) incoming (MkAdmission [] [] []).

(** *** Running one call *)

Definition delegation_quota_content : string :=
  json_dumps (JObj [("agent_name", JStr "unknown"); ("status", JStr "failed"); ("result", JStr "");
    ("error", JStr ("Delegation quota exceeded: max " +:+ pretty (a2a_delegation_max_per_run cfg) +:+ " per run"));
    ("cost_usdc", JInt 0)]).

Definition truncate (text : string) : string :=
  let max_chars := agent_max_tool_result_chars cfg in
  if (0 <? max_chars) && (max_chars <? Z.of_nat (String.length text)) then
    String.substring 0 (Z.to_nat max_chars) text +:+ "...[TRUNCATED: " +:+ pretty (Z.of_nat (String.length text)) +:+ " chars total]"
  else text.

(** The delegation quota is checked against the usage before the batch; the
    metadata dict of a run is never empty, so the delegation branch applies. *)
Definition over_quota (u : RunUsage) (c : Call) : bool :=
  bool_decide (c_name c = "delegate_to_agent") && (a2a_delegation_max_per_run cfg <=? delegation_count u).

Definition _execute_single_tool (c : Call) (outcome : invocation) (elapsed : Z) : CallResult :=
    let result := execute_tool json_dumps repr (c_name c) true outcome elapsed in
    let text := truncate (content result) in
    MkCallResult (ToolMsg text (c_id c)) (c_name c) elapsed text (content result) (billable result) (error_class result).

Definition failed_call (c : Call) (elapsed : Z) (text cls : string) : CallResult :=
  MkCallResult (ToolMsg text (c_id c)) (c_name c) elapsed text text false (Some cls).

Definition run_call (u : RunUsage) (i : nat) (c : Call) : CallResult :=
  if over_quota u c then
    MkCallResult (ToolMsg delegation_quota_content (c_id c)) (c_name c) 0 delegation_quota_content delegation_quota_content false None
  else
  match fate i c with
  | Finished outcome elapsed => _execute_single_tool c outcome elapsed
  | PerToolTimeout elapsed =>
      failed_call c elapsed ("[TOOL_TIMEOUT] '" +:+ c_name c +:+ "' exceeded the "
        +:+ pretty (agent_single_tool_timeout_seconds cfg) +:+ ".0s per-tool timeout. Continue synthesis with available data.") "timeout"
  | Crashed exc_type elapsed =>
      failed_call c elapsed ("[TOOL_ERROR] '" +:+ c_name c +:+ "' failed unexpectedly (" +:+ exc_type
        +:+ "). Continue synthesis with available data.") "unexpected_error"
  | Unfinished elapsed =>
      failed_call c elapsed ("[TOOL_TIMEOUT] '" +:+ c_name c +:+ "' exceeded the "
        +:+ pretty (agent_tool_executor_timeout_seconds cfg) +:+ "s batch timeout. Continue synthesis with available data.") "timeout"
  end.

Definition unfinished (u : RunUsage) (i : nat) (c : Call) : bool :=
  negb (over_quota u c) && match fate i c with Unfinished _ => true | _ => false end.

(** *** Usage accounting *)

(** [s.split(":", 1)[-1]] *)
Fixpoint after_colon (s : string) : option string :=
  match s with
  | EmptyString => None
  | String.String c s' => if bool_decide (c = ":"%char) then Some s' else after_colon s'
  end.

Definition log_entry (excluded : list string) (c : Call) (r : CallResult) : LogEntry :=
  MkLogEntry (r_name r) (bool_decide (r_error_class r = None)) (default "" (r_error_class r)) (r_elapsed r) (r_billable r)
    (let sig := _call_signature (c_name c) (c_args c) in default sig (after_colon sig))
    (match find_tool excluded (r_name r) with
     | Some (MkTool (Some meta)) =>
         if truthy (default JNull (dict_get meta "capture_args")) then Some (sort_keys (JObj (c_args c))) else None
     | _ => None
     end).

(** [covered.update(keys)] *)
Definition cover (u : RunUsage) (r : CallResult) : res RunUsage :=
  if bool_decide (r_name r = "get_defi_positions") then
    keys ← _covered_defi_keys_from_result (r_content r);
    Ok (u <| _defi_positions_covered ::= app keys |>)
  else Ok u.

Definition record_call (excluded : list string) (u : RunUsage) (cr : Call * CallResult) : res RunUsage :=
  u ← cover (u <| _tool_call_counts ::= λ m, <[r_name cr.2 := default 0 (m !! r_name cr.2) + 1]> m |>) cr.2;
  Ok (u <| _tool_call_log ::= λ l, l ++ [log_entry excluded cr.1 cr.2] |>).

(** [int(json.loads(msg.content).get("cost_usdc", 0))], 0 when it raises one of
    the caught exceptions *)
Definition delegation_cost (r : CallResult) : res Z :=
  match json_loads (r_content r) with
  | None => Ok 0
  | Some (JObj data) => Ok (default 0 (py_int (default (JInt 0) (dict_get data "cost_usdc"))))
  | Some _ => Raise (AttributeError "get")
  end.

Definition record_delegation (u : RunUsage) (r : CallResult) : res RunUsage :=
  if bool_decide (r_name r = "delegate_to_agent") then
    cost ← delegation_cost r;
    Ok (u <| delegation_count ::= Z.add 1 |> <| delegation_spend_usdc ::= Z.add cost |>)
  else Ok u.

Definition account (excluded : list string) (u : RunUsage) (accepted : list Call) (results : list CallResult) : res RunUsage :=
  let names p := r_name <$> filter (λ r, p (r_billable r) = true) results in
  u ← fold_res (record_call excluded) (combine accepted results)
        (u <| _completed_calls ::= λ l, l ++ ((λ c, _call_signature (c_name c) (c_args c)) <$>
                                              filter (λ c, is_platform (c_name c) = true) accepted) |>);
  let u := u <| _defi_positions_covered ::= λ l, order_by String.leb (remove_dups l) |>
             <| tool_calls ::= Z.add (len accepted) |>
             <| custom_tool_calls ::= Z.add (count_calls (λ n, negb (is_platform n)) accepted) |>
             <| billable_tool_calls ::= Z.add (len (names id)) |>
             <| failed_tool_calls ::= Z.add (len (names negb)) |>
             <| tool_iterations ::= Z.add 1 |>
             <| tool_names ::= λ l, l ++ names id |>
             <| failed_tool_names ::= λ l, l ++ names negb |> in
  fold_res record_delegation results u.

(** *** The node *)

(** The calls of the current stage whose dependencies are completed *)
Definition stage_incoming (p : Plan) (stage : PlanStage) (outputs : list (string * json)) : list Call :=
  map (λ c, MkCall (call_id c) (tool c)
              (match resolve_plan_references outputs (JObj (args c)) with JObj kvs => kvs | _ => [] end))
    (filter (λ c, Forall (λ dep, dep ∈ completed_call_ids p) (depends_on c)) (calls stage)).

Definition complete_calls (ids : list string) (p : Plan) : Plan :=
  p <| completed_call_ids ::= λ done, foldl (λ acc id, if is_empty id || bool_decide (id ∈ acc) then acc else acc ++ [id]) done ids |>
    <| current_stage_index ::= Z.add 1 |>.

Definition active_plan (s : AgentState) : option Plan :=
  match plan s with Some p => if is_done p then None else Some p | None => None end.

(** The calls to run, or the early return *)
Definition incoming_calls (s : AgentState) : res (option (list Call)) :=
  match active_plan s with
  | Some p =>
      match py_index (stages p) (current_stage_index p) with
      | Some stage => Ok (Some (stage_incoming p stage (_plan_outputs (metadata s))))
      | None => Raise (IndexError "list index out of range")
      end
  | None =>
      match last (messages s) with
      | Some (AI _ []) => Ok None
      | Some (AI _ cs) => Ok (Some cs)
      | Some _ => Ok None
      | None => Raise (IndexError "list index out of range")
      end
  end.

(** The parsed output of a call of a plan, the raw text when it is not JSON *)
Definition plan_output (r : CallResult) : json := default (JStr (r_content r)) (json_loads (r_content r)).

Definition tool_executor_node (s : AgentState) : res Patch :=
  incoming ← incoming_calls s;
  match incoming with
  | None => Ok (MkPatch [] GENERATING_UI None None None)
  | Some calls =>
      let m := metadata s in
      let u := _usage m in
      let excluded := _excluded_tool_names m in
      a ← admit_all excluded u calls;
      match dedup_calls a with
      | [] =>
          let u' := u <| tool_iterations ::= Z.add 1 |> in
          match active_plan s with
          | Some p =>
              Ok (MkPatch (skipped_messages a) PLANNING (Some (m <| _usage := u' |> <| _synthesis_forced := false |>))
                    (Some (slots s)) (Some (Some (complete_calls (c_id <$> calls) p))))
          | None =>
              Ok (MkPatch (skipped_messages a) PLANNING (Some (m <| _usage := u' |> <| _synthesis_forced := true |>)) None None)
          end
      | accepted =>
          let results := imap (run_call u) accepted in
          u' ← account excluded u accepted results;
          if existsb id (imap (unfinished u) accepted) then
            Ok (MkPatch [AI "Tool execution timed out. Some tools took too long to respond." []] FAILED
                  (Some (m <| _usage := u' |>)) None None)
          else
            let slots' := foldl (λ acc r, summarize_into_slots (r_name r) (r_full_content r) acc) (slots s) results in
            let replies := skipped_messages a ++ (r_message <$> results) in
            match active_plan s with
            | Some p =>
                let outputs := foldl (λ acc cr, dict_set acc (c_id cr.1) (plan_output cr.2)) (_plan_outputs m) (combine accepted results) in
                Ok (MkPatch replies PLANNING (Some (m <| _usage := u' |> <| _plan_outputs := outputs |>)) (Some slots')
                      (Some (Some (complete_calls (c_id <$> calls) p))))
            | None =>
                Ok (MkPatch replies PLANNING (Some (m <| _usage := u' |>)) (Some slots') (Some (plan s)))
            end
      end
  end.
(** ** Admission *)

(** How one call extends an admission *)
Inductive admitted (excluded : list string) (u : RunUsage) (a : Admission) (c : Call) : Admission → Prop :=
  | adm_skip text : admitted excluded u a c (skip a c text)
  | adm_custom :
      is_platform (c_name c) = false →
      custom_tool_calls u + count_calls (λ n, negb (is_platform n)) (dedup_calls a) < max_custom_tool_calls_per_run cfg →
      admitted excluded u a c (accept a c)
  | adm_platform :
      is_platform (c_name c) = true → cap_reached excluded u a (c_name c) = None →
      (_call_signature (c_name c) (c_args c) ∉ _completed_calls u) →
      (_call_signature (c_name c) (c_args c) ∉ seen_this_batch a) →
      admitted excluded u a c (accept (a <| seen_this_batch ::= cons (_call_signature (c_name c) (c_args c)) |>) c).

Lemma admit_admitted excluded u a c a' : admit_call excluded u a c = Ok a' → admitted excluded u a c a'.
Proof.
  unfold admit_call. destruct (find_tool excluded (c_name c)); [|intros [= <-]; constructor].
  destruct (is_platform (c_name c)) eqn:Ep; cbn [negb].
  2: { destruct (Z.leb_spec (max_custom_tool_calls_per_run cfg)
         (custom_tool_calls u + count_calls (λ n, negb (is_platform n)) (dedup_calls a))); intros [= <-];
       [constructor|by apply adm_custom]. }
  destruct (cap_reached _ _ _ _) eqn:Ec; [intros [= <-]; constructor|]. intros H. apply res_bind_ok in H as (red & _ & H).
  destruct red; [injection H as <-; constructor|]. destruct (_ && _); [injection H as <-; constructor|].
  destruct (bool_decide_reflect (_call_signature (c_name c) (c_args c) ∈ _completed_calls u)); [injection H as <-; constructor|].
  destruct (bool_decide_reflect (_call_signature (c_name c) (c_args c) ∈ seen_this_batch a)); [injection H as <-; constructor|].
  injection H as <-. by constructor.
Qed.

(** An invariant of admissions that every call preserves holds of a batch. *)
Lemma admit_all_ind (I : list Call → Admission → Prop) excluded u incoming a :
  I [] (MkAdmission [] [] []) →
  (∀ done c a0 a1, I done a0 → admitted excluded u a0 c a1 → I (done ++ [c]) a1) →
  admit_all excluded u incoming = Ok a → I incoming a.
Proof.
  intros H0 Hstep. unfold admit_all.
  assert (∀ l done a0, I done a0 → fold_res (admit_call excluded u) l a0 = Ok a → I (done ++ l) a) as Hgen.
  { induction l as [|c l IH]; intros done a0 Ha0; cbn; [intros [= <-]; by rewrite app_nil_r|].
    intros H. apply res_bind_ok in H as (a1 & Ha1%admit_admitted & H). rewrite cons_middle, app_assoc.
    eapply IH; [|exact H]. by eapply Hstep. }
  by apply (Hgen incoming []).
Qed.

Definition reply_id (m : message) : list string := match m with ToolMsg _ id => [id] | _ => [] end.

Lemma admit_all_answered excluded u incoming a : admit_all excluded u incoming = Ok a →
  (skipped_messages a ≫= reply_id) ++ (c_id <$> dedup_calls a) ≡ₚ c_id <$> incoming.
Proof.
  apply (admit_all_ind (λ done a, (skipped_messages a ≫= reply_id) ++ (c_id <$> dedup_calls a) ≡ₚ c_id <$> done)); [done|].
  intros done c a0 a1 IH Had. rewrite fmap_app. cbn. rewrite <- IH.
  destruct Had; cbn; unfold upd_field; cbn; rewrite ?bind_app, ?fmap_app; cbn; solve_Permutation.
Qed.

Lemma count_calls_nil p : count_calls p [] = 0.
Proof. done. Qed.

Lemma count_calls_snoc p l c : count_calls p (l ++ [c]) = count_calls p l + (if p (c_name c) then 1 else 0).
Proof. unfold count_calls, len. rewrite filter_app, length_app, filter_cons, filter_nil. case_decide as E; [rewrite E|destruct (p (c_name c)); [done|]]; cbn; lia. Qed.

Lemma admit_all_custom excluded u incoming a : admit_all excluded u incoming = Ok a →
  custom_tool_calls u + count_calls (λ n, negb (is_platform n)) (dedup_calls a) ≤
    Z.max (custom_tool_calls u) (max_custom_tool_calls_per_run cfg).
Proof.
  apply (admit_all_ind (λ _ a, custom_tool_calls u + count_calls (λ n, negb (is_platform n)) (dedup_calls a) ≤
    Z.max (custom_tool_calls u) (max_custom_tool_calls_per_run cfg))); [cbn [dedup_calls]; rewrite count_calls_nil; lia|].
  intros _ c a0 a1 IH Had. destruct Had as [|Hp Hc|Hp Hc _ _]; cbn; unfold upd_field; cbn; [done| |];
    rewrite count_calls_snoc, Hp; cbn; lia.
Qed.

Lemma admit_all_capped excluded u incoming a name cap :
  admit_all excluded u incoming = Ok a → is_platform name = true → max_calls excluded name = Some cap →
  default 0 (_tool_call_counts u !! name) + count_calls (λ n, bool_decide (n = name)) (dedup_calls a) ≤
    Z.max (default 0 (_tool_call_counts u !! name)) cap.
Proof.
  intros H Hname Hcap. revert H.
  apply (admit_all_ind (λ _ a, default 0 (_tool_call_counts u !! name) + count_calls (λ n, bool_decide (n = name)) (dedup_calls a) ≤
    Z.max (default 0 (_tool_call_counts u !! name)) cap)); [cbn [dedup_calls]; rewrite count_calls_nil; lia|].
  intros _ c a0 a1 IH Had. destruct Had as [|Hp Hc|Hp Hc _ _]; cbn; unfold upd_field; cbn; [done| |];
    rewrite count_calls_snoc; case_bool_decide as E; try lia.
  - congruence.
  - subst name. unfold cap_reached in Hc. rewrite Hcap in Hc. case_match eqn:El; [done|]. apply Z.leb_gt in El. lia.
Qed.

Definition platform_signatures (l : list Call) : list string :=
  (λ c, _call_signature (c_name c) (c_args c)) <$> filter (λ c, is_platform (c_name c) = true) l.

Lemma admit_all_fresh excluded u incoming a : admit_all excluded u incoming = Ok a →
  NoDup (_completed_calls u) → NoDup (_completed_calls u ++ platform_signatures (dedup_calls a)).
Proof.
  intros H Hnd. revert H.
  apply (admit_all_ind (λ _ a, (platform_signatures (dedup_calls a) ⊆ seen_this_batch a) ∧
    NoDup (_completed_calls u ++ platform_signatures (dedup_calls a)))).
  { cbn. rewrite app_nil_r. split; [set_solver|done]. }
  intros _ c a0 a1 [Hsub IH] Had. unfold platform_signatures in *.
  destruct Had as [|Hp Hc|Hp Hc Hn1 Hn2]; cbn; unfold upd_field; cbn; [done| |].
  - rewrite filter_app. cbn. rewrite Hp. cbn. by rewrite app_nil_r.
  - rewrite filter_app, fmap_app. cbn. rewrite Hp. cbn. split; [set_solver|].
    rewrite app_assoc. apply NoDup_app. split_and!; [done| |apply NoDup_singleton].
    intros x Hx Heq%list_elem_of_singleton. subst x. apply elem_of_app in Hx as [Hx|Hx]; [done|]. by apply Hn2, Hsub.
Qed.
(** ** Accounting *)

Lemma run_call_name u i c : r_name (run_call u i c) = c_name c.
Proof. unfold run_call. destruct (over_quota u c); [done|]. by destruct (fate i c). Qed.

Lemma run_call_reply u i c : reply_id (r_message (run_call u i c)) = [c_id c].
Proof. unfold run_call. destruct (over_quota u c); [done|]. by destruct (fate i c). Qed.

(** The tool answered: with a result, or with a business error of its own. *)
Definition answered (u : RunUsage) (i : nat) (c : Call) : bool :=
  negb (over_quota u c) &&
  match fate i c with
  | Finished (Returned result) _ =>
      match embedded_error result with
      | Some kvs => bool_decide ((_classify_embedded_error repr kvs).1.1.1 = "business_error")
      | None => true
      end
  | _ => false
  end.

Lemma run_call_billable u i c : r_billable (run_call u i c) = answered u i c.
Proof.
  unfold run_call, answered. destruct (over_quota u c); [done|]. cbn.
  destruct (fate i c) as [[result| | | |] elapsed| | |]; try done. cbn [_execute_single_tool r_billable]. unfold execute_tool.
  cbn [negb]. destruct (embedded_error result) as [kvs|]; [|done]. rewrite <- classify_billable.
  by destruct (_classify_embedded_error repr kvs) as [[[cls retry] bill] message].
Qed.

(** The names, the billing classes and the replies of a batch *)
Lemma results_names u accepted : r_name <$> imap (run_call u) accepted = c_name <$> accepted.
Proof.
  generalize (run_call_name u). generalize (run_call u) as f. induction accepted as [|c l IH]; intros f Hf; [done|].
  cbn. rewrite Hf. f_equal. apply (IH (f ∘ S)). intros i x. apply Hf.
Qed.

Lemma results_replies u accepted : (r_message <$> imap (run_call u) accepted) ≫= reply_id = c_id <$> accepted.
Proof.
  generalize (run_call_reply u). generalize (run_call u) as f. induction accepted as [|c l IH]; intros f Hf; [done|].
  cbn. rewrite Hf. cbn. f_equal. apply (IH (f ∘ S)). intros i x. apply Hf.
Qed.
(** What a batch does to the usage *)
Record accounted (excluded : list string) (u : RunUsage) (accepted : list Call) (results : list CallResult) (u' : RunUsage) : Prop := {
  ac_tokens : (tokens_in u', tokens_out u', cache_read_tokens u', cache_creation_tokens u', turns u') =
              (tokens_in u, tokens_out u, cache_read_tokens u, cache_creation_tokens u, turns u);
  ac_iterations : tool_iterations u' = 1 + tool_iterations u;
  ac_calls : tool_calls u' = len accepted + tool_calls u;
  ac_custom : custom_tool_calls u' = count_calls (λ n, negb (is_platform n)) accepted + custom_tool_calls u;
  ac_names : tool_names u' = tool_names u ++ (r_name <$> filter (λ r, r_billable r = true) results);
  ac_failed_names : failed_tool_names u' = failed_tool_names u ++ (r_name <$> filter (λ r, negb (r_billable r) = true) results);
  ac_billable : billable_tool_calls u' = len (r_name <$> filter (λ r, r_billable r = true) results) + billable_tool_calls u;
  ac_failed : failed_tool_calls u' = len (r_name <$> filter (λ r, negb (r_billable r) = true) results) + failed_tool_calls u;
  ac_counts name : default 0 (_tool_call_counts u' !! name) =
                   default 0 (_tool_call_counts u !! name) + count_calls (λ n, bool_decide (n = name)) accepted;
  ac_total : msum (λ _ n, n) (_tool_call_counts u') = msum (λ _ n, n) (_tool_call_counts u) + len accepted;
  ac_log : _tool_call_log u' = _tool_call_log u ++ zip_with (log_entry excluded) accepted results;
  ac_completed : _completed_calls u' = _completed_calls u ++ platform_signatures accepted;
  ac_delegations : delegation_count u' = len (filter (λ r, r_name r = "delegate_to_agent") results) + delegation_count u;
}.

Lemma cover_only u r u' : cover u r = Ok u' → ∃ cv, u' = u <| _defi_positions_covered := cv |>.
Proof.
  unfold cover. case_bool_decide; [|intros [= <-]; exists (_defi_positions_covered u); by destruct u].
  destruct (_covered_defi_keys_from_result _) as [keys|]; [|done]. cbn. intros [= <-]. eexists. reflexivity.
Qed.

Lemma bump_msum (m : gmap string Z) k : msum (λ _ n, n) (<[k := default 0 (m !! k) + 1]> m) = msum (λ _ n, n) m + 1.
Proof. destruct (m !! k) as [n|] eqn:E; cbn; [rewrite (msum_update _ _ _ n) by done|rewrite msum_insert by done]; lia. Qed.

Definition set_calls (u : RunUsage) (m : gmap string Z) (cv : list string) (lg : list LogEntry) : RunUsage :=
  u <| _tool_call_counts := m |> <| _defi_positions_covered := cv |> <| _tool_call_log := lg |>.

Lemma set_calls_twice u m cv lg m' cv' lg' : set_calls (set_calls u m cv lg) m' cv' lg' = set_calls u m' cv' lg'.
Proof. by destruct u. Qed.

Lemma record_call_spec excluded u c r u' : r_name r = c_name c → record_call excluded u (c, r) = Ok u' →
  ∃ cv, u' = set_calls u (<[c_name c := default 0 (_tool_call_counts u !! c_name c) + 1]> (_tool_call_counts u)) cv
               (_tool_call_log u ++ [log_entry excluded c r]).
Proof.
  unfold record_call. cbn [fst snd]. intros <- H. apply res_bind_ok in H as (u2 & [cv Hcv]%cover_only & [= <-]).
  exists cv. subst u2. generalize (log_entry excluded c r) as e. intros e. by destruct u.
Qed.

Lemma count_calls_cons p c l : count_calls p (c :: l) = (if p (c_name c) then 1 else 0) + count_calls p l.
Proof.
  unfold count_calls, len. rewrite filter_cons. case_decide as E; [rewrite E; cbn [length]; lia|].
  destruct (p (c_name c)); [done|lia].
Qed.

Lemma record_calls_spec excluded (l : list (Call * CallResult)) u u' :
  Forall (λ cr, r_name cr.2 = c_name cr.1) l → fold_res (record_call excluded) l u = Ok u' →
  ∃ m cv, u' = set_calls u m cv (_tool_call_log u ++ map (λ cr, log_entry excluded cr.1 cr.2) l) ∧
    (∀ name, default 0 (m !! name) = default 0 (_tool_call_counts u !! name) + count_calls (λ n, bool_decide (n = name)) l.*1) ∧
    msum (λ _ n, n) m = msum (λ _ n, n) (_tool_call_counts u) + len l.
Proof.
  intros HF. revert u u'. induction HF as [|[c r] l Hcr HF IH]; intros u u' H.
  { injection H as <-. exists (_tool_call_counts u), (_defi_positions_covered u). cbn [map]. rewrite app_nil_r.
    split_and!; [by destruct u| |unfold len; cbn; lia]. intros name. cbn [fmap list_fmap]. rewrite count_calls_nil. lia. }
  cbn [fold_res] in H. apply res_bind_ok in H as (u1 & [cv1 ->]%record_call_spec & H); [|done].
  destruct (IH _ _ H) as (m & cv & -> & Hm & Hs). exists m, cv. rewrite set_calls_twice. split_and!.
  - cbn [map fst snd]. generalize (log_entry excluded c r) as e. intros e. by destruct u; unfold set_calls, upd_field; cbn; rewrite <- app_assoc.
  - intros name. rewrite Hm. cbn [fmap list_fmap fst]. rewrite count_calls_cons. unfold set_calls, upd_field. cbn [_tool_call_counts].
    case_bool_decide as E; [subst name; rewrite lookup_insert_eq|rewrite lookup_insert_ne by done]; cbn; lia.
  - rewrite Hs. unfold set_calls, upd_field. cbn [_tool_call_counts]. rewrite bump_msum. unfold len. cbn [length]. lia.
Qed.

Lemma record_delegations_spec results u u' : fold_res record_delegation results u = Ok u' →
  ∃ s, u' = u <| delegation_count ::= Z.add (len (filter (λ r, r_name r = "delegate_to_agent") results)) |>
              <| delegation_spend_usdc := s |>.
Proof.
  revert u. induction results as [|r l IH]; intros u H.
  { injection H as <-. exists (delegation_spend_usdc u). by destruct u. }
  cbn [fold_res] in H. apply res_bind_ok in H as (u1 & H1 & H). destruct (IH _ H) as [s ->]. exists s. unfold record_delegation in H1.
  rewrite filter_cons. case_bool_decide as E; case_decide; try done.
  - apply res_bind_ok in H1 as (cost & _ & [= <-]). destruct u. unfold upd_field, len. cbn. f_equal. lia.
  - injection H1 as <-. by destruct u.
Qed.

Lemma account_spec excluded u accepted results u' :
  r_name <$> results = c_name <$> accepted → account excluded u accepted results = Ok u' →
  accounted excluded u accepted results u'.
Proof.
  intros Hnames H. assert (length accepted = length results) as Hlen by (rewrite <- (length_fmap r_name results), Hnames; by rewrite length_fmap).
  assert (Forall (λ cr, r_name cr.2 = c_name cr.1) (combine accepted results)) as HF.
  { clear H. revert results Hnames Hlen. induction accepted as [|c l IH]; intros [|r rs] Hn Hl; [constructor|done|done|].
    cbn in Hn. injection Hn as Hr Hn. injection Hl as Hl. constructor; [done|]. by apply IH. }
  assert ((combine accepted results).*1 = accepted) as Hfst.
  { clear -Hlen. revert results Hlen. induction accepted as [|c l IH]; intros [|r rs] Hl; [done|done|done|].
    injection Hl as Hl. cbn. f_equal. by apply IH. }
  assert (map (λ cr, log_entry excluded cr.1 cr.2) (combine accepted results) = zip_with (log_entry excluded) accepted results) as Hzip.
  { clear -Hlen. revert results Hlen. induction accepted as [|c l IH]; intros [|r rs] Hl; [done|done|done|].
    injection Hl as Hl. cbn. f_equal. by apply IH. }
  unfold account in H. apply res_bind_ok in H as (u1 & H1 & H).
  destruct (record_calls_spec _ _ _ _ HF H1) as (m & cv & -> & Hm & Hs). clear H1.
  apply record_delegations_spec in H as [s ->]. rewrite Hzip. rewrite Hfst in Hm.
  assert (len (combine accepted results) = len accepted) as Hlc by (unfold len; rewrite <- Hfst at 2; by rewrite length_fmap).
  split; [..|exact Hm|rewrite <- Hlc; exact Hs| | |]; reflexivity.
Qed.
(** ** The node *)

Definition usage_of (s : AgentState) : RunUsage := _usage (metadata s).
Definition excluded_of (s : AgentState) : list string := _excluded_tool_names (metadata s).

(** The usage in the patch of a node, when the patch has one *)
Definition patch_usage (p : Patch) : option RunUsage := _usage <$> p_metadata p.

Inductive node_outcome (s : AgentState) (p : Patch) : Prop :=
  | out_idle : incoming_calls s = Ok None → p = MkPatch [] GENERATING_UI None None None → node_outcome s p
  | out_suppressed calls a :
      incoming_calls s = Ok (Some calls) → admit_all (excluded_of s) (usage_of s) calls = Ok a → dedup_calls a = [] →
      p_status p = PLANNING → p_messages p = skipped_messages a →
      patch_usage p = Some ((usage_of s) <| tool_iterations ::= Z.add 1 |>) → node_outcome s p
  | out_ran calls a u' :
      incoming_calls s = Ok (Some calls) → admit_all (excluded_of s) (usage_of s) calls = Ok a →
      accounted (excluded_of s) (usage_of s) (dedup_calls a) (imap (run_call (usage_of s)) (dedup_calls a)) u' →
      patch_usage p = Some u' →
      (p_status p = PLANNING → p_messages p = skipped_messages a ++ (r_message <$> imap (run_call (usage_of s)) (dedup_calls a))) →
      node_outcome s p.

Lemma node_cases s p : tool_executor_node s = Ok p → node_outcome s p.
Proof.
  unfold tool_executor_node. intros H. apply res_bind_ok in H as ([calls|] & Hin & H); [|injection H as <-; by apply out_idle].
  apply res_bind_ok in H as (a & Ha & H). fold (usage_of s) (excluded_of s) in *.
  destruct (dedup_calls a) as [|c l] eqn:Ed.
  - destruct (active_plan s); injection H as <-; by eapply out_suppressed.
  - rewrite <- Ed in *. clear Ed c l. apply res_bind_ok in H as (u' & Hu & H). apply account_spec in Hu; [|apply results_names].
    destruct (existsb id _); [injection H as <-; by eapply out_ran|].
    destruct (active_plan s); injection H as <-; by eapply out_ran.
Qed.

(** C25. Every tool call the model requested gets exactly one reply: when the
    node hands control back to the planner, the tool messages it appends carry
    the ids of the requested calls, each as often as it was requested,
    suppressed calls and failed tools included. *)
Theorem every_call_answered (s : AgentState) (p : Patch) (calls : list Call)
    (Hnode : tool_executor_node s = Ok p) (Hin : incoming_calls s = Ok (Some calls)) (Hstatus : p_status p = PLANNING) :
  (p_messages p ≫= reply_id) ≡ₚ c_id <$> calls.
Proof.
  destruct (node_cases s p Hnode) as [Hidle|calls' a Hin' Ha Hd _ Hm _|calls' a u' Hin' Ha _ _ Hm].
  - by rewrite Hin in Hidle.
  - rewrite Hin in Hin'. injection Hin' as <-. apply admit_all_answered in Ha. rewrite Hd, app_nil_r in Ha. by rewrite Hm.
  - rewrite Hin in Hin'. injection Hin' as <-. apply admit_all_answered in Ha. rewrite <- Ha.
    by rewrite (Hm Hstatus), bind_app, results_replies.
Qed.

(** *** The invariant of a run's usage *)

(** The counters agree with the lists they count. *)
Record accounts (u : RunUsage) : Prop := {
  acc_total : tool_calls u = billable_tool_calls u + failed_tool_calls u;
  acc_billable : billable_tool_calls u = len (tool_names u);
  acc_failed : failed_tool_calls u = len (failed_tool_names u);
  acc_log : tool_calls u = len (_tool_call_log u);
  acc_log_billable : billable_tool_calls u = len (filter (λ e, log_billable e = true) (_tool_call_log u));
  acc_counts : tool_calls u = msum (λ _ n, n) (_tool_call_counts u);
}.

(** No tool ran more often than its cap, over the whole run. *)
Definition within_caps (excluded : list string) (u : RunUsage) : Prop :=
  custom_tool_calls u ≤ Z.max 0 (max_custom_tool_calls_per_run cfg) ∧
  ∀ name cap, is_platform name = true → max_calls excluded name = Some cap →
    default 0 (_tool_call_counts u !! name) ≤ Z.max 0 cap.

Record usage_ok (excluded : list string) (u : RunUsage) : Prop := {
  ok_accounts : accounts u;
  ok_caps : within_caps excluded u;
  ok_fresh : NoDup (_completed_calls u)
}.

Lemma usage_ok_start excluded : usage_ok excluded no_usage.
Proof.
  split; [by split| |constructor]. split; [cbn; lia|]. intros name cap _ _. change (_tool_call_counts no_usage) with (∅ : gmap string Z). rewrite lookup_empty. cbn. lia.
Qed.

Lemma len_partition {A} (p : A → bool) (l : list A) :
  len (filter (λ x, p x = true) l) + len (filter (λ x, negb (p x) = true) l) = len l.
Proof.
  unfold len. induction l as [|x l IH]; [done|]. rewrite !filter_cons. destruct (p x); cbn;
    case_decide; try done; case_decide; try done; cbn [length]; lia.
Qed.

Lemma log_billable_zip excluded accepted results : length accepted = length results →
  len (filter (λ e, log_billable e = true) (zip_with (log_entry excluded) accepted results)) =
  len (filter (λ r, r_billable r = true) results).
Proof.
  unfold len. revert results. induction accepted as [|c l IH]; intros [|r rs] Hl; [done|done|done|]. injection Hl as Hl.
  specialize (IH rs Hl). cbn [zip_with]. rewrite !filter_cons. change (log_billable (log_entry excluded c r)) with (r_billable r).
  destruct (decide (r_billable r = true)); cbn [length]; lia.
Qed.

Lemma accounted_accounts excluded u accepted results u' : length accepted = length results →
  accounts u → accounted excluded u accepted results u' → accounts u'.
Proof.
  intros Hlen [Ht Hb Hf Hl Hlb Hc] H. pose proof (len_partition r_billable results) as Hpart.
  assert (len accepted = len results) as Hlr by (unfold len; by rewrite Hlen).
  pose proof (ac_billable _ _ _ _ _ H) as Eb. pose proof (ac_failed _ _ _ _ _ H) as Ef. unfold len in Eb, Ef. rewrite length_fmap in Eb, Ef.
  split.
  - rewrite (ac_calls _ _ _ _ _ H). unfold len in *. lia.
  - rewrite (ac_names _ _ _ _ _ H). unfold len in *. rewrite length_app, length_fmap. lia.
  - rewrite (ac_failed_names _ _ _ _ _ H). unfold len in *. rewrite length_app, length_fmap. lia.
  - rewrite (ac_log _ _ _ _ _ H), (ac_calls _ _ _ _ _ H). unfold len in *. rewrite length_app, length_zip_with_l_eq by done. lia.
  - rewrite (ac_log _ _ _ _ _ H), filter_app. pose proof (log_billable_zip excluded accepted results Hlen) as Hz.
    unfold len in *. rewrite length_app. lia.
  - rewrite (ac_total _ _ _ _ _ H), (ac_calls _ _ _ _ _ H). lia.
Qed.

Lemma usage_ok_iteration excluded u : usage_ok excluded u → usage_ok excluded (u <| tool_iterations ::= Z.add 1 |>).
Proof. intros [[] [] ?]. destruct u. split; [by split|by split|done]. Qed.
Lemma accounted_caps excluded u calls a u' : admit_all excluded u calls = Ok a → within_caps excluded u →
  accounted excluded u (dedup_calls a) (imap (run_call u) (dedup_calls a)) u' → within_caps excluded u'.
Proof.
  intros Ha [Hcustom Hcaps] H. split.
  - rewrite (ac_custom _ _ _ _ _ H). pose proof (admit_all_custom _ _ _ _ Ha). lia.
  - intros name cap Hname Hcap. rewrite (ac_counts _ _ _ _ _ H). specialize (Hcaps name cap Hname Hcap).
    pose proof (admit_all_capped _ _ _ _ _ _ Ha Hname Hcap). lia.
Qed.

Lemma node_usage_ok s p u' : usage_ok (excluded_of s) (usage_of s) → tool_executor_node s = Ok p →
  patch_usage p = Some u' → usage_ok (excluded_of s) u'.
Proof.
  intros Hok Hnode Hu. destruct (node_cases s p Hnode) as [_ ->|calls a _ _ _ _ _ Hp|calls a u'' _ Ha Hacc Hp _]; [done| |].
  - rewrite Hp in Hu. injection Hu as <-. by apply usage_ok_iteration.
  - rewrite Hp in Hu. injection Hu as <-. destruct Hok as [Hacc' Hcaps Hfresh]. split.
    + eapply accounted_accounts; [|done|done]. by rewrite length_imap.
    + by eapply accounted_caps.
    + rewrite (ac_completed _ _ _ _ _ Hacc). by eapply admit_all_fresh.
Qed.

Lemma node_iterations s p : tool_executor_node s = Ok p →
  patch_usage p = None ∧ p_status p = GENERATING_UI ∨
  ∃ u', patch_usage p = Some u' ∧ tool_iterations u' = 1 + tool_iterations (usage_of s).
Proof.
  intros Hnode. destruct (node_cases s p Hnode) as [_ ->|calls a _ _ _ _ _ Hp|calls a u' _ _ Hacc Hp _]; [by left| |].
  - right. eexists. split; [exact Hp|]. by destruct (usage_of s).
  - right. exists u'. split; [done|]. apply (ac_iterations _ _ _ _ _ Hacc).
Qed.

(** The token counters and the turns *)
Definition meter (u : RunUsage) : Z * Z * Z * Z * list TurnRecord :=
  (tokens_in u, tokens_out u, cache_read_tokens u, cache_creation_tokens u, turns u).

Lemma node_meter s p u : tool_executor_node s = Ok p → patch_usage p = Some u → meter u = meter (usage_of s).
Proof.
  intros Hnode Hu. destruct (node_cases s p Hnode) as [_ ->|calls a _ _ _ _ _ Hp|calls a u' _ _ Hacc Hp _]; [done| |];
    rewrite Hp in Hu; injection Hu as <-; [by destruct (usage_of s)|apply (ac_tokens _ _ _ _ _ Hacc)].
Qed.

(** The node keeps the exclusions, and without a plan makes none. *)
Lemma node_context s p : tool_executor_node s = Ok p →
  (∀ m, p_metadata p = Some m → _excluded_tool_names m = excluded_of s) ∧ (plan s = None → default (plan s) (p_plan p) = None).
Proof.
  unfold tool_executor_node. intros H. apply res_bind_ok in H as ([calls|] & _ & H); [|by injection H as <-].
  apply res_bind_ok in H as (a & _ & H).
  assert (plan s = None → active_plan s = None) as Hap by (unfold active_plan; by intros ->).
  destruct (dedup_calls a).
  - destruct (active_plan s); injection H as <-; (split; [by intros m [= <-]|]); [|done]. intros Hp. by apply Hap in Hp.
  - apply res_bind_ok in H as (u' & _ & H). destruct (existsb id _); [by injection H as <-; split; [intros m [= <-]|]|].
    destruct (active_plan s); injection H as <-; (split; [by intros m [= <-]|]); [|done]. intros Hp. by apply Hap in Hp.
Qed.

(** The names of the calls whose tool answered, in order *)
Definition answered_names (u : RunUsage) (accepted : list Call) : list string :=
  concat (imap (λ i c, if answered u i c then [c_name c] else []) accepted).

Lemma billable_names u accepted :
  r_name <$> filter (λ r, r_billable r = true) (imap (run_call u) accepted) = answered_names u accepted.
Proof.
  unfold answered_names.
  assert (∀ (g : nat → Call → CallResult) (h : nat → Call → bool),
    (∀ i c, r_billable (g i c) = h i c) → (∀ i c, r_name (g i c) = c_name c) →
    r_name <$> filter (λ r, r_billable r = true) (imap g accepted) =
    concat (imap (λ i c, if h i c then [c_name c] else []) accepted)) as Hgen.
  { induction accepted as [|c l IH]; intros g h Hb Hn; [done|]. cbn [imap concat]. rewrite filter_cons.
    specialize (IH (g ∘ S) (h ∘ S) (λ i c, Hb (S i) c) (λ i c, Hn (S i) c)). rewrite <- (Hb 0%nat c).
    case_decide as E; [rewrite E; cbn; f_equal; [apply Hn|exact IH]|]. destruct (r_billable (g 0%nat c)); [done|]. exact IH. }
  apply Hgen; [apply run_call_billable|apply run_call_name].
Qed.

(** Only answered calls are billed: the names added to the billable list
    are those of the accepted calls whose tool answered within its time, with
    a result or a business error of its own, in order and once each; a
    timeout, an upstream failure, invalid arguments, a crash, an exceeded
    delegation quota or an unfinished task adds nothing. *)
Theorem only_answered_calls_billed (s : AgentState) (p : Patch) (calls : list Call) (a : Admission) (u' : RunUsage)
    (Hnode : tool_executor_node s = Ok p) (Hin : incoming_calls s = Ok (Some calls))
    (Hadmit : admit_all (excluded_of s) (usage_of s) calls = Ok a) (Hu : patch_usage p = Some u') :
  tool_names u' = tool_names (usage_of s) ++ answered_names (usage_of s) (dedup_calls a) ∧
  billable_tool_calls u' = billable_tool_calls (usage_of s) + len (answered_names (usage_of s) (dedup_calls a)).
Proof.
  destruct (node_cases s p Hnode) as [Hidle _|calls' a' Hin' Ha Hd _ _ Hp|calls' a' u'' Hin' Ha Hacc Hp _]; [by rewrite Hin in Hidle|..];
    rewrite Hin in Hin'; injection Hin' as <-; rewrite Hadmit in Ha; injection Ha as <-; rewrite Hp in Hu; injection Hu as <-.
  - rewrite Hd. unfold answered_names, len. cbn [imap concat length]. rewrite app_nil_r.
    destruct (usage_of s); unfold upd_field; cbn. split; [done|lia].
  - rewrite <- billable_names. split; [apply (ac_names _ _ _ _ _ Hacc)|]. rewrite (ac_billable _ _ _ _ _ Hacc). lia.
Qed.
End executor.

(** ** A concrete batch: a platform tool that answers, the same call again, a
    tool nobody configured, a tool that fails upstream, two delegations. *)
Module ExecutorDemo.

Definition demo_dumps (j : json) : string := match j with JStr s => s | JObj (kv :: _) => kv.1 | _ => "{}" end.
Definition cfg : ExecutorSettings := MkExecutorSettings [("search", 3)] 5 20 60 1000 1.
Definition platform : list (string * Tool) := [("search", MkTool None); ("delegate_to_agent", MkTool None); ("price", MkTool None)].
Definition fate (i : nat) (c : Call) : call_fate :=
  if bool_decide (c_name c = "price") then Finished RaisedClientError 5 else Finished (Returned (JStr "found")) 7.

Definition node : AgentState → res Patch :=
  tool_executor_node demo_dumps (λ _, Some (JObj [])) (λ _, "") (λ _ _ s, s) cfg platform [] fate.

Definition state_with (calls : list Call) : AgentState :=
  MkAgentState [Human "hi"; AI "" calls] EXECUTING (MkMetadata no_usage [] false []) (JObj []) None.

Definition calls : list Call :=
  [MkCall "1" "search" []; MkCall "2" "search" []; MkCall "3" "nosuch" []; MkCall "4" "price" []].

Definition admission : res Admission := admit_all demo_dumps (λ _, "") cfg platform [] [] no_usage calls.

Definition planning (x : res Patch) : bool := match x with Ok p => bool_decide (p_status p = PLANNING) | Raise _ => false end.

Lemma batch_runs : planning (node (state_with calls)) = true.
Proof. vm_compute. reflexivity. Qed.

(** Two of the four calls run; one reply each. *)
Lemma every_call_answered_witness :
  match node (state_with calls) with
  | Ok p => (p_messages p ≫= reply_id) ≡ₚ ["1"; "2"; "3"; "4"]
  | Raise _ => False
  end.
Proof.
  pose proof batch_runs as H. destruct (node (state_with calls)) as [p|e] eqn:E; [|discriminate]. cbn [planning] in H. apply bool_decide_eq_true in H.
  exact (every_call_answered _ _ _ _ _ _ _ _ (state_with calls) p calls E eq_refl H).
Defined.

Definition patched (x : res Patch) : bool := match x with Ok p => match patch_usage p with Some _ => true | None => false end | Raise _ => false end.
Definition admitted_names (x : res Admission) : list string := match x with Ok a => c_name <$> dedup_calls a | Raise _ => [] end.
Definition answered_of (x : res Admission) : list string := match x with Ok a => answered_names (λ _, "") cfg fate no_usage (dedup_calls a) | Raise _ => [] end.

Lemma batch_patched : patched (node (state_with calls)) = true.
Proof. vm_compute. reflexivity. Qed.

Lemma batch_admitted : (admitted_names admission, answered_of admission) = (["search"; "price"], ["search"]).
Proof. vm_compute. reflexivity. Qed.

Lemma only_answered_calls_billed_witness :
  match node (state_with calls), admission with
  | Ok p, Ok a => match patch_usage p with
                  | Some u => (c_name <$> dedup_calls a) = ["search"; "price"] ∧ tool_names u = ["search"] ∧ billable_tool_calls u = 1
                  | None => False
                  end
  | _, _ => False
  end.
Proof.
  pose proof batch_patched as H. pose proof batch_admitted as Hadm.
  destruct (node (state_with calls)) as [p|e] eqn:E; [|discriminate H]. destruct admission as [a|e] eqn:Ea; [|discriminate Hadm].
  cbn [patched] in H. destruct (patch_usage p) as [u|] eqn:Eu; [|discriminate H].
  destruct (only_answered_calls_billed _ _ _ _ _ _ _ _ (state_with calls) p calls a u E eq_refl Ea Eu) as [Hn Hb].
  assert (c_name <$> dedup_calls a = ["search"; "price"]) as H1 by (exact (f_equal fst Hadm)).
  assert (answered_of (Ok a) = ["search"]) as H2 by (exact (f_equal snd Hadm)). cbn [answered_of] in H2.
  change (usage_of (state_with calls)) with no_usage in Hn, Hb. rewrite H2 in Hn, Hb.
  split; [exact H1|]. split; [exact Hn|exact Hb].
Defined.

(** With a quota of one delegation per run, a batch of two runs both: the
    quota looks at the delegations of earlier batches only. *)
Lemma delegation_quota_exceeded_in_batch :
  delegation_count no_usage < a2a_delegation_max_per_run cfg ∧
  match node (state_with [MkCall "1" "delegate_to_agent" []; MkCall "2" "delegate_to_agent" [("task", JStr "b")]]) with
  | Ok p => match patch_usage p with Some u => delegation_count u = 2 ∧ billable_tool_calls u = 2 | None => False end
  | Raise _ => False
  end.
Proof. vm_compute. split; [reflexivity|split; reflexivity]. Qed.

End ExecutorDemo.
