(* ===== verification/AgentGraph.v ===== *)
(** * The agent graph (agent/graph.py, agent/nodes.py, agent/_provider.py)

    planner → (tool executor ↩) → UI generator → END.  The planner's turn with
    its fallback, retry and repair invocations, the routing between the nodes,
    and the run as the iteration of the steps.

    The model is [llm]: the answer to the i-th invocation of a language model
    in the run, whatever it is.  What the planner decides from text (output
    contracts, the API keys at hand, which providers are cooling down) and
    LangGraph's [add_messages] reducer are parameters too.  Building the prompt
    does not touch the state and is not modelled.

    The theorems: a run meters every answer once, keeps the executor's
    invariant at every point, and without compiler mode ends after a number of
    steps bounded by the iteration cap, whatever model and tools do. *)

From S2P Require Export Executor.

(** ** One LLM invocation (agent/_provider.py) *)

Record TurnUsage := MkTurnUsage { in_tokens : Z; out_tokens : Z; cache_read : Z; cache_creation : Z }.

Inductive llm_answer :=
  | Reply (text : string) (calls : list Call) (usage : TurnUsage)
  | LlmTimeout
  | LlmError (msg : string).

Definition _RATE_LIMIT_MARKERS : list string :=
  ["429"; "rate limit"; "rate-limited"; "too many requests"; "exceeded"; "throttl"; "quanta"].

Definition _is_rate_limit_error (msg : string) : bool := existsb (λ m, str_in m (py_lower msg)) _RATE_LIMIT_MARKERS.

Record PlannerSettings := MkPlannerSettings {
  agent_provider : string;
  agent_model : string;
  agent_planner_provider : string;
  agent_planner_model : string;
  agent_synthesis_provider : string;
  agent_synthesis_model : string;
  default_model_pool : list (string * string);
  agent_ui_generator_provider : string;
  agent_ui_generator_model : string;
  agent_compiler_mode_enabled : bool;
  agent_max_tool_iterations : Z;
}.

(** The patch of a failed invocation: an explanation and FAILED *)
Definition failure_patch (a : llm_answer) : Patch :=
  let text := match a with
              | LlmError msg => "I encountered an error: " +:+ msg
              | _ => "The AI model timed out. Please try again."
              end in
  MkPatch [AI text []] FAILED None None None.

Definition turn_of (provider model : string) (t : TurnUsage) : TurnRecord :=
  MkTurn provider model (in_tokens t) (out_tokens t) (cache_read t) (cache_creation t).

Definition no_tokens : TurnUsage := MkTurnUsage 0 0 0 0.

(** agent/node_usage.py *)
Definition _accumulate_usage (u : RunUsage) (t : TurnUsage) (provider model : string) : RunUsage :=
  u <| tokens_in ::= Z.add (in_tokens t) |>
    <| tokens_out ::= Z.add (out_tokens t) |>
    <| cache_read_tokens ::= Z.add (cache_read t) |>
    <| cache_creation_tokens ::= Z.add (cache_creation t) |>
    <| turns ::= λ l, l ++ [turn_of provider model t] |>.

(** ** Text tests of the UI generator (agent/node_ui.py) *)

Definition is_digit (c : Ascii.ascii) : bool := (48 <=? byte_val c) && (byte_val c <=? 57).

(** [\w] of a string pattern, over Latin-1 *)
Definition re_uword (c : Ascii.ascii) : bool :=
  let n := byte_val c in
  re_word c || bool_decide (n ∈ [170; 178; 179; 181; 185; 186; 188; 189; 190]) ||
  ((192 <=? n) && negb (n =? 215) && negb (n =? 247)).

Definition is_newline (c : Ascii.ascii) : bool := byte_val c =? 10.

(** [(\{.*?\})\s*] and the closing fence: the shortest such body *)
Fixpoint fenced_body (l : text) : option text :=
  match l with
  | [] => None
  | c :: l' =>
      if bool_decide (c = close_brace) && bool_decide (take 3 (span re_space l').2 = chars "```") then Some [c]
      else cons c <$> fenced_body l'
  end.

Definition match_a2ui (l : text) : option text :=
  if bool_decide (take 7 l = chars "```a2ui") then
    match (span re_space (drop 7 l)).2 with
    | c :: l2 => if bool_decide (c = open_brace) then cons c <$> fenced_body l2 else None
    | [] => None
    end
  else None.

Fixpoint search_a2ui (l : text) : option text :=
  match match_a2ui l with
  | Some raw => Some raw
  | None => match l with [] => None | _ :: l' => search_a2ui l' end
  end.

(** [\|.*\|]: two bars on a line; [seen] when the line has one already *)
Fixpoint has_table (seen : bool) (l : text) : bool :=
  match l with
  | [] => false
  | c :: l' =>
      if bool_decide (c = "|"%char) then seen || has_table true l' else has_table (seen && negb (is_newline c)) l'
  end.

(** [^\s*[-*]\s+] at the start of a line *)
Fixpoint has_bullet (line_start : bool) (l : text) : bool :=
  match l with
  | [] => false
  | c :: l' =>
      (line_start && match (span re_space l).2 with
                     | b :: d :: _ => (bool_decide (b = "-"%char) || bool_decide (b = "*"%char)) && re_space d
                     | _ => false
                     end) || has_bullet (is_newline c) l'
  end.

(** [\d+\.\s+\w+] *)
Fixpoint has_numbered (l : text) : bool :=
  match l with
  | [] => false
  | c :: l' =>
      (is_digit c && match l' with
                     | d :: l2 => bool_decide (d = "."%char) && let '(sp, rest) := span re_space l2 in
                                  negb (bool_decide (sp = [])) && match rest with w :: _ => re_uword w | [] => false end
                     | [] => false
                     end) || has_numbered l'
  end.

(** [\b\d+[.,]\d+\b]; [inside] when the previous character is a word character *)
Fixpoint has_decimal (inside : bool) (l : text) : bool :=
  match l with
  | [] => false
  | c :: l' =>
      (negb inside && is_digit c &&
       match (span is_digit l).2 with
       | s :: l2 => (bool_decide (s = "."%char) || bool_decide (s = ","%char)) &&
                    let '(ds, rest) := span is_digit l2 in
                    negb (bool_decide (ds = [])) && match rest with w :: _ => negb (re_uword w) | [] => true end
       | [] => false
       end) || has_decimal (re_uword c) l'
  end.

Definition _contains_structured_data (s : string) : bool :=
  let l := chars s in has_table false l || has_bullet true l || has_numbered l || has_decimal false l.

Example structured_ex :
  map _contains_structured_data
    ["a | b"; "a | b | c"; "- item"; "x - y"; "Steps: 1. go"; "1.x"; "costs 3.50 now"; "v3.50"; "3.50x"; "plain"] =
  [false; true; true; false; true; false; true; false; false; false].
Proof. vm_compute. reflexivity. Qed.

Section planner.
Context (psettings : PlannerSettings) (llm_config : option (string * string)).
Context (llm : nat → llm_answer) (has_key : string → bool) (cooled_down : nat → string → string → bool).
Context (contract : Type) (detect_output_contract : list message → option contract).
Context (normalize_output : contract → string → option string) (build_contract_failure : contract → string).
Context (loads : string → res json) (model_validate : json → res Plan).
Context (planner_tools : list string).

(** The first usable model of the pool other than the failed one *)
Definition _get_fallback_llm (n : nat) (failed_provider failed_model : string) : option (string * string) :=
  find (λ pm, negb (is_empty pm.1 || is_empty pm.2)
              && negb (bool_decide (pm.1 = failed_provider) && bool_decide (pm.2 = failed_model))
              && negb (cooled_down n pm.1 pm.2) && has_key pm.1) (default_model_pool psettings).

(** [provider] and [model] of a role, when both are set, there is a key and the model is not cooling down *)
Definition role_override (n : nat) (provider model : string) (current : string * string) : string * string :=
  let p := py_strip provider in
  let m := py_strip model in
  if negb (is_empty p || is_empty m) && has_key p && negb (cooled_down n p m) then (p, m) else current.

Definition _resolve_planner_llm (n : nat) (iterations : Z) : string * string :=
  match llm_config with
  | Some pm => pm
  | None =>
      let primary := (agent_provider psettings, agent_model psettings) in
      let current := if cooled_down n primary.1 primary.2 then default primary (_get_fallback_llm n primary.1 primary.2) else primary in
      if 0 <? iterations then role_override n (agent_synthesis_provider psettings) (agent_synthesis_model psettings) current
      else if iterations =? 0 then role_override n (agent_planner_provider psettings) (agent_planner_model psettings) current
      else current
  end.

(** The failed invocation was a rate limit, and the organisation uses the shared models. *)
Definition falls_back (pm : string * string) (a : llm_answer) : bool :=
  match llm_config, a with
  | None, LlmError msg => negb (is_empty pm.1 || is_empty pm.2) && _is_rate_limit_error msg
  | _, _ => false
  end.

Lemma falls_back_timeout pm : falls_back pm LlmTimeout = false.
Proof. unfold falls_back. by destruct llm_config. Qed.

(** The response under construction *)
Record Draft := MkDraft { d_text : string; d_calls : list Call; d_tokens : TurnUsage; d_usage : RunUsage; d_next : nat }.
#[local] Instance eta_Draft : Eta Draft := λ d, MkDraft (d_text d) (d_calls d) (d_tokens d) (d_usage d) (d_next d).

(** A synthesis turn that asks for tools is retried once without them. *)
Definition retry_synthesis (iterations : Z) (pm : string * string) (d : Draft) : Draft :=
  match d_calls d with
  | [] => d
  | _ =>
      if 0 <? iterations then
        match llm (d_next d) with
        | Reply text cs tokens =>
            MkDraft text (if is_empty (py_strip text) then cs else []) tokens
              (_accumulate_usage (d_usage d) (d_tokens d) pm.1 pm.2) (S (d_next d))
        | _ => d <| d_next ::= S |>
        end
      else d
  end.

(** An active output contract is validated, and repaired once. *)
Definition apply_contract (msgs : list message) (pm : string * string) (d : Draft) : Draft :=
  match detect_output_contract msgs, d_calls d with
  | Some c, [] =>
      match normalize_output c (d_text d) with
      | Some text => d <| d_text := text |>
      | None =>
          match llm (d_next d) with
          | Reply text _ tokens =>
              MkDraft (match normalize_output c text with Some _ => text | None => build_contract_failure c end) [] tokens
                (_accumulate_usage (d_usage d) (d_tokens d) pm.1 pm.2) (S (d_next d))
          | _ => d <| d_text := build_contract_failure c |> <| d_next ::= S |>
          end
      end
  | _, _ => d
  end.

(** The plan a compiler-mode answer carries; an invalid one is ignored. *)
Definition planned (current : option Plan) (text : string) : option Plan :=
  if agent_compiler_mode_enabled psettings then
    match parse_plan_from_text loads model_validate text with
    | Ok (Some p) => if forallb (λ c, bool_decide (tool c ∈ planner_tools)) (plan_calls p) then Some p else current
    | _ => current
    end
  else current.

Definition has_work (p : option Plan) : bool := match p with Some p => negb (is_done p) | None => false end.

Definition no_synthesis_text : string := "The available tool results were gathered, but the model did not produce a synthesis.".

(** A reply is in: the rest of the turn *)
Definition finish_turn (s : AgentState) (pm : string * string) (d : Draft) : Patch * nat :=
  let iterations := tool_iterations (usage_of s) in
  let d := match d_calls d with
           | [] => if _synthesis_forced (metadata s) && is_empty (py_strip (d_text d)) then d <| d_text := no_synthesis_text |> else d
           | _ => d
           end in
  let d := apply_contract (messages s) pm (retry_synthesis iterations pm d) in
  let usage := _accumulate_usage (d_usage d) (d_tokens d) pm.1 pm.2 in
  let next_plan := planned (plan s) (d_text d) in
  let status := match d_calls d with [] => if has_work next_plan then EXECUTING else GENERATING_UI | _ => EXECUTING end in
  (MkPatch [AI (d_text d) (d_calls d)] status
     (Some ((metadata s) <| _usage := usage |> <| _synthesis_forced := false |>)) None (Some next_plan), d_next d).

Definition planner_node (n : nat) (s : AgentState) : Patch * nat :=
  let u := usage_of s in
  let pm := _resolve_planner_llm n (tool_iterations u) in
  match llm n with
  | Reply text cs tokens => finish_turn s pm (MkDraft text cs tokens u (S n))
  | a =>
      if falls_back pm a then
        (* The failed turn is recorded before the retry. *)
        let u' := _accumulate_usage u no_tokens pm.1 pm.2 in
        match _get_fallback_llm (S n) pm.1 pm.2 with
        | Some pm' =>
            match llm (S n) with
            | Reply text cs tokens => finish_turn s pm' (MkDraft text cs tokens u' (S (S n)))
            | a' => (failure_patch a', S (S n))
            end
        | None => (failure_patch a, S n)
        end
      else (failure_patch a, S n)
  end.

(** ** Metering *)

Definition answer_tokens (f : TurnUsage → Z) (a : llm_answer) : Z :=
  match a with Reply _ _ t => f t | _ => 0 end.

Definition is_reply (a : llm_answer) : bool := match a with Reply _ _ _ => true | _ => false end.

(** The tokens of the answers from the [n]-th up to the [n']-th *)
Definition answered_tokens (f : TurnUsage → Z) (n n' : nat) : Z := lsum (λ i, answer_tokens f (llm i)) (seq n (n' - n)).

Lemma answered_tokens_S f n n' : (n ≤ n')%nat → answered_tokens f n (S n') = answered_tokens f n n' + answer_tokens f (llm n').
Proof.
  intros H. unfold answered_tokens. replace (S n' - n)%nat with (S (n' - n)) by lia. rewrite seq_S, lsum_snoc.
  by replace (n + (n' - n))%nat with n' by lia.
Qed.

(** What the draft has metered and holds unmetered adds up to the answers so far. *)
Definition metered (f : TurnUsage → Z) (g : RunUsage → Z) (u : RunUsage) (n : nat) (d : Draft) : Prop :=
  (n ≤ d_next d)%nat ∧ g (d_usage d) + f (d_tokens d) = g u + answered_tokens f n (d_next d).

Section metering.
Context (f : TurnUsage → Z) (g : RunUsage → Z).
Context (Hfg : ∀ u t p m, g (_accumulate_usage u t p m) = g u + f t) (Hf : f no_tokens = 0).

Lemma metered_reply u n d d' text cs tokens pm : metered f g u n d → llm (d_next d) = Reply text cs tokens →
  d_usage d' = _accumulate_usage (d_usage d) (d_tokens d) pm.1 pm.2 → d_tokens d' = tokens → d_next d' = S (d_next d) →
  metered f g u n d'.
Proof.
  intros [Hn Hd] E Hu Ht Hnext. unfold metered. rewrite Hu, Ht, Hnext, answered_tokens_S, E, Hfg by done. cbn [answer_tokens]. lia.
Qed.

Lemma metered_failure u n d d' : metered f g u n d → (∀ text cs tokens, llm (d_next d) ≠ Reply text cs tokens) →
  d_usage d' = d_usage d → d_tokens d' = d_tokens d → d_next d' = S (d_next d) → metered f g u n d'.
Proof.
  intros [Hn Hd] E Hu Ht Hnext. unfold metered. rewrite Hu, Ht, Hnext, answered_tokens_S by done.
  assert (answer_tokens f (llm (d_next d)) = 0) by (destruct (llm (d_next d)) as [t c k| |]; [by destruct (E t c k)|done|done]). lia.
Qed.

Lemma retry_metered u n iterations pm d : metered f g u n d → metered f g u n (retry_synthesis iterations pm d).
Proof.
  intros Hd. unfold retry_synthesis. destruct (d_calls d); [done|]. destruct (0 <? iterations); [|done].
  destruct (llm (d_next d)) as [text cs tokens| |msg] eqn:E;
    [eapply metered_reply; done|eapply metered_failure; try done; by rewrite E..].
Qed.

Lemma contract_metered u n msgs pm d : metered f g u n d → metered f g u n (apply_contract msgs pm d).
Proof.
  intros Hd. unfold apply_contract. destruct (detect_output_contract msgs) as [c|]; [|done]. destruct (d_calls d); [|done].
  destruct (normalize_output c (d_text d)); [by destruct d|].
  destruct (llm (d_next d)) as [text cs tokens| |msg] eqn:E;
    [eapply metered_reply; done|eapply metered_failure; try done; by rewrite E..].
Qed.

Lemma finish_metered s pm d u n p n' : metered f g u n d → finish_turn s pm d = (p, n') →
  ∃ m, p_metadata p = Some m ∧ (n ≤ n')%nat ∧ g (_usage m) = g u + answered_tokens f n n'.
Proof.
  intros Hd. unfold finish_turn.
  set (d1 := match d_calls d with [] => _ | _ => _ end). assert (metered f g u n d1) as H1.
  { unfold d1. destruct (d_calls d); [|done]. destruct (_ && _); [by destruct d|done]. }
  pose proof (contract_metered u n (messages s) pm _ (retry_metered u n (tool_iterations (usage_of s)) pm d1 H1)) as [Hn H2].
  intros [= <- <-]. eexists. split; [reflexivity|]. split; [done|]. unfold upd_field. cbn [_usage]. rewrite Hfg. done.
Qed.

Lemma first_metered n text cs tokens u : llm n = Reply text cs tokens → metered f g u n (MkDraft text cs tokens u (S n)).
Proof.
  intros E. split; [cbn [d_next]; lia|]. cbn [d_usage d_tokens d_next]. rewrite answered_tokens_S, E by done.
  unfold answered_tokens. rewrite Nat.sub_diag. cbn. lia.
Qed.

Lemma second_metered n text cs tokens u pm : is_reply (llm n) = false → llm (S n) = Reply text cs tokens →
  metered f g u n (MkDraft text cs tokens (_accumulate_usage u no_tokens pm.1 pm.2) (S (S n))).
Proof.
  intros E0 E. split; [cbn [d_next]; lia|]. cbn [d_usage d_tokens d_next]. rewrite !answered_tokens_S, E, Hfg by lia.
  destruct (llm n); [done|..]; unfold answered_tokens; rewrite Nat.sub_diag; cbn; lia.
Qed.

Lemma planner_metered n s u : patch_usage (planner_node n s).1 = Some u →
  g u = g (usage_of s) + answered_tokens f n (planner_node n s).2.
Proof.
  assert (∀ pm d, metered f g (usage_of s) n d → patch_usage (finish_turn s pm d).1 = Some u →
    g u = g (usage_of s) + answered_tokens f n (finish_turn s pm d).2) as Hfin.
  { intros pm d Hd. destruct (finish_turn s pm d) as [p n'] eqn:E. destruct (finish_metered _ _ _ _ _ _ _ Hd E) as (m & Hm & _ & Hg).
    unfold patch_usage. cbn [fst snd]. rewrite Hm. by intros [= <-]. }
  unfold planner_node. destruct (llm n) as [text cs tokens| |msg] eqn:E.
  - by apply Hfin, first_metered.
  - by rewrite falls_back_timeout.
  - destruct (falls_back _ _); [|done]. destruct (_get_fallback_llm _ _ _); [|done].
    destruct (llm (S n)) eqn:E'; [|done..]. apply Hfin, second_metered; [by rewrite E|done].
Qed.
End metering.

Lemma planner_next n s : (n < (planner_node n s).2 ≤ n + 4)%nat ∧
  (patch_usage (planner_node n s).1 = None → p_status (planner_node n s).1 = FAILED ∧
   ∀ i, (n ≤ i < (planner_node n s).2)%nat → is_reply (llm i) = false).
Proof.
  assert (∀ iterations pm d, (d_next d ≤ d_next (retry_synthesis iterations pm d) ≤ S (d_next d))%nat) as Hretry.
  { intros. unfold retry_synthesis. destruct (d_calls d); [lia|]. destruct (0 <? iterations); [|lia].
    destruct (llm (d_next d)); destruct d; unfold upd_field; cbn [d_next]; lia. }
  assert (∀ msgs pm d, (d_next d ≤ d_next (apply_contract msgs pm d) ≤ S (d_next d))%nat) as Hcontract.
  { intros. unfold apply_contract. destruct (detect_output_contract msgs); [|lia]. destruct (d_calls d); [|lia].
    destruct (normalize_output _ _); [|destruct (llm (d_next d))]; destruct d; unfold upd_field; cbn [d_next]; lia. }
  assert (∀ pm d, (d_next d ≤ (finish_turn s pm d).2 ≤ d_next d + 2)%nat ∧ patch_usage (finish_turn s pm d).1 ≠ None) as Hfin.
  { intros pm d. split; [|done]. unfold finish_turn. cbn [snd]. set (d1 := match d_calls d with [] => _ | _ => _ end).
    assert (d_next d1 = d_next d) as H1 by (unfold d1; destruct (d_calls d); [destruct (_ && _)|]; by destruct d).
    rewrite <- H1. pose proof (Hretry (tool_iterations (usage_of s)) pm d1).
    pose proof (Hcontract (messages s) pm (retry_synthesis (tool_iterations (usage_of s)) pm d1)). lia. }
  assert (∀ i, (n ≤ i < S n)%nat → i = n) as H1 by lia. assert (∀ i, (n ≤ i < S (S n))%nat → i = n ∨ i = S n) as H2 by lia.
  unfold planner_node. destruct (llm n) as [text cs tokens| |msg] eqn:E.
  - destruct (Hfin (_resolve_planner_llm n (tool_iterations (usage_of s))) (MkDraft text cs tokens (usage_of s) (S n))) as [? ?].
    cbn [d_next] in *. split; [lia|done].
  - rewrite falls_back_timeout. cbn [fst snd]. split; [lia|]. intros _. split; [done|]. by intros i ->%H1; rewrite E.
  - set (pm := _resolve_planner_llm _ _). assert (is_reply (llm n) = false) as Hn by by rewrite E.
    assert (n < S n ≤ n + 4 ∧ ∀ i, n ≤ i < S n → is_reply (llm i) = false)%nat as [? ?] by (split; [lia|]; by intros i ->%H1).
    destruct (falls_back _ _); [|done]. destruct (_get_fallback_llm _ _ _) as [pm'|]; [|done].
    destruct (llm (S n)) as [text' cs' tokens'| |msg'] eqn:E'.
    + destruct (Hfin pm' (MkDraft text' cs' tokens' (_accumulate_usage (usage_of s) no_tokens pm.1 pm.2) (S (S n)))) as [? ?].
      cbn [d_next] in *. split; [lia|done].
    + split; [cbn [snd]; lia|]. intros _. split; [done|]. by intros i [->| ->]%H2; [|rewrite E'].
    + split; [cbn [snd]; lia|]. intros _. split; [done|]. by intros i [->| ->]%H2; [|rewrite E'].
Qed.

(** One turn of the planner invokes the model between one and four times
    and meters every reply exactly once: when the turn ends with a message,
    the input tokens it adds to the usage are those of all its replies, the
    discarded first attempts of a retry or a repair included, and the same
    holds of output and cache tokens; when it ends in failure, no reply was
    received. *)
Theorem planner_meters_every_reply (n : nat) (s : AgentState) :
  let '(p, n') := planner_node n s in
  (n < n' ≤ n + 4)%nat ∧
  match patch_usage p with
  | Some u =>
      tokens_in u = tokens_in (usage_of s) + answered_tokens in_tokens n n' ∧
      tokens_out u = tokens_out (usage_of s) + answered_tokens out_tokens n n' ∧
      cache_read_tokens u = cache_read_tokens (usage_of s) + answered_tokens cache_read n n' ∧
      cache_creation_tokens u = cache_creation_tokens (usage_of s) + answered_tokens cache_creation n n'
  | None => p_status p = FAILED ∧ ∀ i, (n ≤ i < n')%nat → is_reply (llm i) = false
  end.
Proof.
  pose proof (planner_next n s) as [Hn Hfail]. pose proof (λ f g Hfg Hf, planner_metered f g Hfg Hf n s) as Hm.
  destruct (planner_node n s) as [p n']. cbn [fst snd] in *. split; [done|]. destruct (patch_usage p) as [u|]; [|by apply Hfail].
  split_and!; (apply Hm; [|done|done]); intros [] *; apply Z.add_comm.
Qed.

(** ** The UI generator (agent/node_ui.py) *)
Section graph.
Context (add_messages : list message → list message → list message).
Context (emit_ui : bool) (parse_components : text → list json).
Context (tools_node : nat → AgentState → res Patch).

(** [content] of the message the UI is made from, "" when there is none *)
Definition last_ai_text (msgs : list message) : string :=
  match last msgs with
  | Some (AI t _) => t
  | _ => default "" (last (omap (λ m, match m with AI t _ => if is_empty t then None else Some t | _ => None end) msgs))
  end.

Definition _extract_a2ui_from_text (s : string) : list json :=
  match search_a2ui (chars s) with Some raw => parse_components raw | None => [] end.

Definition ui_generator_node (n : nat) (s : AgentState) : Patch * nat :=
  let done_ := MkPatch [] COMPLETED None None None in
  let text := last_ai_text (messages s) in
  if is_empty text then (done_, n)
  else
    match _extract_a2ui_from_text text with
    | _ :: _ => (done_, n)
    | [] =>
        if emit_ui && _contains_structured_data text then
          let pm := default (agent_ui_generator_provider psettings, agent_ui_generator_model psettings) llm_config in
          match llm n with
          | Reply _ _ tokens =>
              (MkPatch [] COMPLETED
                 (Some ((metadata s) <| _usage := _accumulate_usage (usage_of s) tokens pm.1 pm.2 |>)) None None, S n)
          | _ => (done_, S n)
          end
        else (done_, n)
    end.

(** ** The graph (agent/graph.py) *)

Inductive GraphNode := planner | tool_executor | ui_generator | END.
#[export] Instance GraphNode_eq_dec : EqDecision GraphNode.
Proof. solve_decision. Defined.

Definition _route_after_planner (s : AgentState) : GraphNode :=
  if bool_decide (task_status s = EXECUTING) then tool_executor else ui_generator.

Definition _route_after_tools (s : AgentState) : GraphNode :=
  if bool_decide (task_status s = PLANNING) then
    match plan s with
    | Some p => if is_done p then ui_generator else planner
    | None => if agent_max_tool_iterations psettings <=? tool_iterations (usage_of s) then ui_generator else planner
    end
  else ui_generator.

(** The state after a node: messages through the reducer, the other returned fields replaced *)
Definition apply_patch (s : AgentState) (p : Patch) : AgentState :=
  MkAgentState (match p_messages p with [] => messages s | ms => add_messages (messages s) ms end) (p_status p)
    (default (metadata s) (p_metadata p)) (default (slots s) (p_slots p)) (default (plan s) (p_plan p)).

(** A run between two nodes: the state, and how many invocations and batches there have been *)
Record Run := MkRun { state : AgentState; invocations : nat; batches : nat }.

Definition graph_step (cur : GraphNode) (r : Run) : res (GraphNode * Run) :=
  match cur with
  | planner =>
      let '(p, n) := planner_node (invocations r) (state r) in
      let s := apply_patch (state r) p in
      Ok (_route_after_planner s, MkRun s n (batches r))
  | tool_executor =>
      p ← tools_node (batches r) (state r);
      let s := apply_patch (state r) p in
      Ok (_route_after_tools s, MkRun s (invocations r) (S (batches r)))
  | ui_generator =>
      let '(p, n) := ui_generator_node (invocations r) (state r) in
      Ok (END, MkRun (apply_patch (state r) p) n (batches r))
  | END => Ok (END, r)
  end.

(** [steps] nodes from [cur] on *)
Fixpoint graph_run (steps : nat) (cur : GraphNode) (r : Run) : res (GraphNode * Run) :=
  match steps with
  | O => Ok (cur, r)
  | S steps' => next ← graph_step cur r; graph_run steps' next.1 next.2
  end.

(** ** Laws of the steps *)

Lemma usage_apply s p : usage_of (apply_patch s p) = default (usage_of s) (patch_usage p).
Proof. unfold usage_of, patch_usage, apply_patch. by destruct (p_metadata p). Qed.

Lemma answered_tokens_app f n1 n2 n3 : (n1 ≤ n2 ≤ n3)%nat →
  answered_tokens f n1 n3 = answered_tokens f n1 n2 + answered_tokens f n2 n3.
Proof.
  intros H. unfold answered_tokens. replace (n3 - n1)%nat with ((n2 - n1) + (n3 - n2))%nat by lia.
  rewrite seq_app, lsum_app. by replace (n1 + (n2 - n1))%nat with n2 by lia.
Qed.

Lemma answered_tokens_nil f n : answered_tokens f n n = 0.
Proof. unfold answered_tokens. by rewrite Nat.sub_diag. Qed.

(** An invariant of states that every node keeps holds wherever a run gets. *)
Lemma run_ind (I : Run → Prop) steps cur r cur' r' :
  (∀ cur r cur' r', I r → graph_step cur r = Ok (cur', r') → I r') → I r → graph_run steps cur r = Ok (cur', r') → I r'.
Proof.
  intros Hstep. revert cur r. induction steps as [|steps IH]; intros cur r Hr; cbn; [by intros [= _ <-]|].
  intros H. apply res_bind_ok in H as ([c1 r1] & H1 & H). eapply IH; [|exact H]. by eapply Hstep.
Qed.

(** What one node does to the usage *)
Inductive stepped (r r' : Run) : Prop :=
  | stepped_llm p n : (p, n) = planner_node (invocations r) (state r) → state r' = apply_patch (state r) p →
      invocations r' = n → stepped r r'
  | stepped_tools p : tools_node (batches r) (state r) = Ok p → state r' = apply_patch (state r) p →
      invocations r' = invocations r → stepped r r'
  | stepped_ui p n : (p, n) = ui_generator_node (invocations r) (state r) → state r' = apply_patch (state r) p →
      invocations r' = n → stepped r r'
  | stepped_end : r' = r → stepped r r'.

Lemma graph_step_stepped cur r cur' r' : graph_step cur r = Ok (cur', r') → stepped r r'.
Proof.
  destruct cur; cbn.
  - destruct (planner_node _ _) as [p n] eqn:E. intros [= _ <-]. by eapply stepped_llm.
  - intros H. apply res_bind_ok in H as (p & Hp & [= _ <-]). by eapply stepped_tools.
  - destruct (ui_generator_node _ _) as [p n] eqn:E. intros [= _ <-]. by eapply stepped_ui.
  - intros [= _ <-]. by apply stepped_end.
Qed.

Lemma ui_cases n s : ui_generator_node n s = (MkPatch [] COMPLETED None None None, n) ∨
  (ui_generator_node n s = (MkPatch [] COMPLETED None None None, S n) ∧ is_reply (llm n) = false) ∨
  ∃ text cs tokens pm, llm n = Reply text cs tokens ∧ ui_generator_node n s =
    (MkPatch [] COMPLETED (Some ((metadata s) <| _usage := _accumulate_usage (usage_of s) tokens pm.1 pm.2 |>)) None None, S n).
Proof.
  unfold ui_generator_node. destruct (is_empty _); [by left|]. destruct (_extract_a2ui_from_text _); [|by left].
  destruct (_ && _); [|by left]. right. destruct (llm n) as [text cs tokens| |msg] eqn:E; [right|by left..].
  by exists text, cs, tokens, (default (agent_ui_generator_provider psettings, agent_ui_generator_model psettings) llm_config).
Qed.

Section meter.
Context (f : TurnUsage → Z) (g : RunUsage → Z).
Context (Hfg : ∀ u t p m, g (_accumulate_usage u t p m) = g u + f t) (Hf : f no_tokens = 0).
Context (Hg : ∀ b s p u, tools_node b s = Ok p → patch_usage p = Some u → g u = g (usage_of s)).

Lemma step_metered r r' : stepped r r' → (invocations r ≤ invocations r')%nat ∧
  g (usage_of (state r')) = g (usage_of (state r)) + answered_tokens f (invocations r) (invocations r').
Proof.
  intros [p n E Hs Hn|p E Hs Hn|p n E Hs Hn|E]; [| | |subst r'].
  - pose proof (planner_next (invocations r) (state r)) as [Hnext Hfail]. pose proof (planner_metered f g Hfg Hf (invocations r) (state r)) as Hm.
    rewrite <- E in *. cbn [fst snd] in *. rewrite Hs, Hn, usage_apply. split; [lia|]. destruct (patch_usage p) as [u|]; [by apply Hm|].
    destruct Hfail as [_ Hfail]; [done|]. cbn [from_option id]. unfold answered_tokens. rewrite lsum_zero; [cbn; lia|].
    intros i [? ?]%elem_of_seq. specialize (Hfail i ltac:(lia)). by destruct (llm i).
  - rewrite Hs, Hn, usage_apply, answered_tokens_nil. split; [lia|]. destruct (patch_usage p) as [u|] eqn:Eu; cbn [from_option id]; [|lia].
    rewrite (Hg _ _ _ _ E Eu). lia.
  - rewrite Hs, Hn, usage_apply. destruct (ui_cases (invocations r) (state r)) as [Eu|[[Eu Hr]|(text & cs & tokens & pm & Er & Eu)]];
      rewrite Eu in E; injection E as -> ->; cbn [patch_usage p_metadata fmap option_fmap option_map from_option id].
    + rewrite answered_tokens_nil. split; lia.
    + rewrite answered_tokens_S, answered_tokens_nil by done. split; [lia|]. destruct (llm (invocations r)); [done|cbn; lia..].
    + rewrite answered_tokens_S, answered_tokens_nil, Er by done. split; [lia|]. unfold upd_field. cbn [_usage answer_tokens]. rewrite Hfg. lia.
  - rewrite answered_tokens_nil. split; lia.
Qed.

Lemma run_metered steps cur r cur' r' : graph_run steps cur r = Ok (cur', r') → (invocations r ≤ invocations r')%nat ∧
  g (usage_of (state r')) = g (usage_of (state r)) + answered_tokens f (invocations r) (invocations r').
Proof.
  apply (run_ind (λ r', (invocations r ≤ invocations r')%nat ∧
    g (usage_of (state r')) = g (usage_of (state r)) + answered_tokens f (invocations r) (invocations r'))).
  - intros c1 r1 c2 r2 [Hn1 Hg1] Hstep. destruct (step_metered r1 r2) as [Hn2 Hg2]; [by eapply graph_step_stepped|].
    split; [lia|]. rewrite (answered_tokens_app f _ (invocations r1)) by lia. lia.
  - rewrite answered_tokens_nil. split; lia.
Qed.
End meter.

(** *** Invariants of the usage *)
Section invariant.
Context (I : list string → RunUsage → Prop).
Context (HI : ∀ e u t p m, I e u → I e (_accumulate_usage u t p m)).
Context (Htools : ∀ b s p u, I (excluded_of s) (usage_of s) → tools_node b s = Ok p → patch_usage p = Some u → I (excluded_of s) u).
Context (Hexcluded : ∀ b s p m, tools_node b s = Ok p → p_metadata p = Some m → _excluded_tool_names m = excluded_of s).

Lemma draft_keeps e iterations msgs pm d : I e (d_usage d) → I e (d_usage (apply_contract msgs pm (retry_synthesis iterations pm d))).
Proof.
  intros Hd. assert (I e (d_usage (retry_synthesis iterations pm d))) as Hr.
  { unfold retry_synthesis. destruct (d_calls d); [done|]. destruct (0 <? iterations); [|done].
    destruct (llm (d_next d)); [by apply HI|done..]. }
  revert Hr. generalize (retry_synthesis iterations pm d). intros d' Hd'. unfold apply_contract.
  destruct (detect_output_contract msgs); [|done]. destruct (d_calls d'); [|done].
  destruct (normalize_output _ _); [done|]. destruct (llm (d_next d')); [by apply HI|done..].
Qed.

Lemma planner_keeps n s m : I (excluded_of s) (usage_of s) → p_metadata (planner_node n s).1 = Some m →
  I (excluded_of s) (_usage m) ∧ _excluded_tool_names m = excluded_of s.
Proof.
  intros Hs. assert (∀ pm d, I (excluded_of s) (d_usage d) → p_metadata (finish_turn s pm d).1 = Some m →
    I (excluded_of s) (_usage m) ∧ _excluded_tool_names m = excluded_of s) as Hfin.
  { intros pm d Hd. unfold finish_turn. cbn [fst p_metadata]. intros [= <-]. split; [|done]. unfold upd_field. cbn [_usage].
    apply HI, draft_keeps. destruct (d_calls d); [|done]. by destruct (_ && _). }
  unfold planner_node. destruct (llm n); [by apply Hfin|by rewrite falls_back_timeout|].
  destruct (falls_back _ _); [|done]. destruct (_get_fallback_llm _ _ _); [|done]. destruct (llm (S n)); [|done..]. by apply Hfin, HI.
Qed.

Lemma patch_keeps s p : I (excluded_of s) (usage_of s) →
  (∀ m, p_metadata p = Some m → I (excluded_of s) (_usage m) ∧ _excluded_tool_names m = excluded_of s) →
  I (excluded_of (apply_patch s p)) (usage_of (apply_patch s p)) ∧ excluded_of (apply_patch s p) = excluded_of s.
Proof.
  unfold excluded_of, usage_of, apply_patch. intros Hs Hp. cbn [metadata]. destruct (p_metadata p) as [m|]; [|done].
  destruct (Hp m) as [Hm He]; [done|]. cbn [from_option id]. by rewrite He.
Qed.

Lemma graph_run_keeps steps cur r cur' r' : I (excluded_of (state r)) (usage_of (state r)) → graph_run steps cur r = Ok (cur', r') →
  I (excluded_of (state r')) (usage_of (state r')) ∧ excluded_of (state r') = excluded_of (state r).
Proof.
  intros Hr. apply (run_ind (λ r', I (excluded_of (state r')) (usage_of (state r')) ∧ excluded_of (state r') = excluded_of (state r))); [|done].
  intros c1 r1 c2 r2 [H1 He] Hstep%graph_step_stepped. rewrite <- He.
  destruct Hstep as [p n E Hs _|p E Hs _|p n E Hs _|E]; [rewrite Hs; apply patch_keeps; [done|]..|by subst r2].
  - intros m Hm. apply (planner_keeps (invocations r1)); [done|]. by rewrite <- E.
  - intros m Hm. split; [|by eapply Hexcluded]. eapply Htools; [done|exact E|]. unfold patch_usage. by rewrite Hm.
  - intros m Hm. destruct (ui_cases (invocations r1) (state r1)) as [Eu|[[Eu _]|(text & cs & tokens & pm & _ & Eu)]];
      rewrite Eu in E; injection E as -> ->; [done|done|]. injection Hm as <-. split; [|done]. by apply HI.
Qed.
End invariant.

(** *** Termination *)

Definition no_plan (s : AgentState) (p : Patch) : Prop := default (plan s) (p_plan p) = None.

Lemma planner_quiet n s : agent_compiler_mode_enabled psettings = false → plan s = None →
  let s' := apply_patch s (planner_node n s).1 in
  plan s' = None ∧ tool_iterations (usage_of s') = tool_iterations (usage_of s).
Proof.
  intros Hmode Hplan. cbn zeta. assert (∀ pm d, p_plan (finish_turn s pm d).1 = Some None) as Hfin.
  { intros. unfold finish_turn. cbn [fst p_plan]. unfold planned. by rewrite Hmode, Hplan. }
  assert (no_plan s (planner_node n s).1) as Hnp.
  { unfold no_plan, planner_node. destruct (llm n); [by rewrite Hfin|by rewrite falls_back_timeout|].
    destruct (falls_back _ _); [|done]. destruct (_get_fallback_llm _ _ _); [|done]. destruct (llm (S n)); [by rewrite Hfin|done..]. }
  split; [exact Hnp|]. rewrite usage_apply. unfold patch_usage.
  destruct (p_metadata (planner_node n s).1) as [m|] eqn:E; [|done].
  by destruct (planner_keeps (λ _ u, tool_iterations u = tool_iterations (usage_of s)) (λ _ _ _ _ _ H, H) n s m eq_refl E).
Qed.

Context (Hiterates : ∀ b s p, tools_node b s = Ok p → patch_usage p = None ∧ p_status p = GENERATING_UI ∨
  ∃ u, patch_usage p = Some u ∧ tool_iterations u = 1 + tool_iterations (usage_of s)).
Context (Hquiet : ∀ b s p, plan s = None → tools_node b s = Ok p → no_plan s p).

Lemma run_S steps cur r : graph_run (S steps) cur r = (next ← graph_step cur r; graph_run steps next.1 next.2).
Proof. done. Qed.

Lemma run_END steps r : graph_run steps END r = Ok (END, r).
Proof. by induction steps. Qed.

Lemma ui_ends steps r cur' r' : graph_run (S steps) ui_generator r = Ok (cur', r') →
  cur' = END ∧ task_status (state r') = COMPLETED ∧ tool_iterations (usage_of (state r')) = tool_iterations (usage_of (state r)).
Proof.
  cbn. destruct (ui_generator_node _ _) as [p n] eqn:E. cbn. rewrite run_END. intros [= <- <-]. cbn [state]. split; [done|].
  rewrite usage_apply. destruct (ui_cases (invocations r) (state r)) as [Eu|[[Eu _]|(text & cs & tokens & pm & _ & Eu)]];
    rewrite Eu in E; injection E as <- <-; done.
Qed.

Lemma run_bounded (k : nat) r cur' r' : agent_compiler_mode_enabled psettings = false → plan (state r) = None → (1 ≤ k)%nat →
  agent_max_tool_iterations psettings - tool_iterations (usage_of (state r)) ≤ Z.of_nat k →
  graph_run (2 * k + 1) planner r = Ok (cur', r') →
  cur' = END ∧ task_status (state r') = COMPLETED ∧
  tool_iterations (usage_of (state r')) ≤ tool_iterations (usage_of (state r)) + Z.of_nat k.
Proof.
  intros Hmode. revert r. induction k as [|k IH]; intros r Hplan Hk Hcap; [lia|].
  replace (2 * S k + 1)%nat with (S (S (2 * k + 1))) by lia. set (steps := (2 * k + 1)%nat) in *.
  destruct (planner_quiet (invocations r) (state r) Hmode Hplan) as [Hplan1 Hit1].
  rewrite run_S. cbn [graph_step]. destruct (planner_node _ _) as [p n]. cbn [fst] in *. cbn [res_bind mbind fst snd].
  generalize dependent (apply_patch (state r) p). intros s1 Hplan1 Hit1. unfold _route_after_planner. case_bool_decide.
  2: { intros H1. apply (ui_ends steps) in H1 as (-> & Hst & Hit). cbn [state] in Hit. split_and!; [done..|]. rewrite Hit, Hit1. lia. }
  rewrite run_S. intros H1. apply res_bind_ok in H1 as ([c2 r2] & H2 & H1). apply res_bind_ok in H2 as (p2 & Hp2 & [= <- <-]).
  cbn [state invocations batches fst snd] in *. pose proof (Hquiet _ _ _ Hplan1 Hp2) as Hplan2.
  destruct (Hiterates _ _ _ Hp2) as [[Hu Hst]|(u & Hu & Hit2)].
  { unfold _route_after_tools in H1. cbn [apply_patch task_status] in H1. rewrite Hst in H1.
    replace steps with (S (2 * k)) in H1 by (subst steps; lia). apply ui_ends in H1 as (-> & ? & Hit). split_and!; [done..|].
    cbn [state] in Hit. rewrite Hit, usage_apply, Hu. cbn [from_option]. lia. }
  assert (tool_iterations (usage_of (apply_patch s1 p2)) = 1 + tool_iterations (usage_of (state r))) as Hit3.
  { rewrite usage_apply, Hu. cbn [from_option id]. lia. }
  unfold _route_after_tools in H1. case_bool_decide.
  2: { replace steps with (S (2 * k)) in H1 by (subst steps; lia). apply ui_ends in H1 as (-> & ? & Hit). cbn [state] in Hit. split_and!; [done..|]. lia. }
  replace (plan (apply_patch s1 p2)) with (@None Plan) in H1 by done.
  destruct (Z.leb_spec (agent_max_tool_iterations psettings) (tool_iterations (usage_of (apply_patch s1 p2)))).
  - replace steps with (S (2 * k)) in H1 by (subst steps; lia). apply ui_ends in H1 as (-> & ? & Hit). cbn [state] in Hit. split_and!; [done..|]. lia.
  - apply IH in H1 as (-> & ? & Hit); cbn [state] in *; [split_and!; [done..|]; lia|done|lia|lia].
Qed.
End graph.

(** ** The run of an agent: the graph with the tool executor *)
Section agent_run.
Context (add_messages : list message → list message → list message).
Context (emit_ui : bool) (parse_components : text → list json).
Context (json_dumps : json → string) (json_loads : string → option json) (repr : json → string).
Context (summarize_into_slots : string → string → json → json).
Context (cfg : ExecutorSettings) (platform_tools org_tools : list (string * Tool)).
Context (fates : nat → nat → Call → call_fate).

(** The [b]-th batch of a run *)
Definition tools_node (b : nat) (s : AgentState) : res Patch :=
  tool_executor_node json_dumps json_loads repr summarize_into_slots cfg platform_tools org_tools (fates b) s.

Definition agent_run (steps : nat) (r : Run) : res (GraphNode * Run) :=
  graph_run add_messages emit_ui parse_components tools_node steps planner r.

Definition usage_ok_of (r : Run) : Prop :=
  usage_ok cfg platform_tools org_tools (excluded_of (state r)) (usage_of (state r)).

(** C23. Wherever a run that starts with no usage gets, after any number of
    nodes and whatever model and tools do: the counters of calls, billable
    calls and failed calls agree with the name lists, the log and the per-tool
    counts; no tool ran more often than its cap nor the organisation's tools
    more often than theirs; and no signature is recorded as completed twice. *)
Theorem run_keeps_accounts (steps : nat) (r r' : Run) (cur : GraphNode)
    (Hstart : usage_of (state r) = no_usage) (Hrun : agent_run steps r = Ok (cur, r')) : usage_ok_of r'.
Proof.
  apply (graph_run_keeps add_messages emit_ui parse_components tools_node (usage_ok cfg platform_tools org_tools)) in Hrun as [H _];
    [exact H|..].
  - intros e u t p m [[] [] ?]. split; [by destruct u|by destruct u|by destruct u].
  - intros b s p u Hs Hnode Hu. by eapply node_usage_ok.
  - intros b s p m Hnode. by apply (node_context _ _ _ _ _ _ _ _ _ _ Hnode).
  - rewrite Hstart. apply usage_ok_start.
Qed.

Lemma run_meters_field (f : TurnUsage → Z) (g : RunUsage → Z) steps r cur r' :
  (∀ u t p m, g (_accumulate_usage u t p m) = g u + f t) → f no_tokens = 0 → (∀ u u', meter u = meter u' → g u = g u') →
  agent_run steps r = Ok (cur, r') →
  g (usage_of (state r')) = g (usage_of (state r)) + answered_tokens f (invocations r) (invocations r').
Proof.
  intros Hfg Hf Hg. apply run_metered; [done|done|]. intros b s p u Hnode Hu. apply Hg. by eapply node_meter.
Qed.

(** A run meters every reply of the model exactly once: wherever a run
    that starts with no usage gets, its token counters are the sums over all
    replies so far (planner turns, discarded first attempts of a retry or a
    repair, fallbacks and the UI generator's), and so are the sums over the
    turns recorded for pricing. *)
Theorem run_meters_every_reply (steps : nat) (r r' : Run) (cur : GraphNode)
    (Hstart : usage_of (state r) = no_usage) (Hrun : agent_run steps r = Ok (cur, r')) :
  let u := usage_of (state r') in
  let answered f := answered_tokens f (invocations r) (invocations r') in
  (tokens_in u, tokens_out u, cache_read_tokens u, cache_creation_tokens u) =
    (answered in_tokens, answered out_tokens, answered cache_read, answered cache_creation) ∧
  (lsum turn_in (turns u), lsum turn_out (turns u), lsum turn_cache_read (turns u), lsum turn_cache_creation (turns u)) =
    (answered in_tokens, answered out_tokens, answered cache_read, answered cache_creation).
Proof.
  pose proof (λ f g H1 H2 H3, run_meters_field f g steps r cur r' H1 H2 H3 Hrun) as H. rewrite Hstart in H.
  assert (∀ (f : TurnUsage → Z) (h : TurnRecord → Z) u t p m, (∀ p m t, h (turn_of p m t) = f t) →
    lsum h (turns (_accumulate_usage u t p m)) = lsum h (turns u) + f t) as Hturns.
  { intros f h u t p m Hh. replace (turns (_accumulate_usage u t p m)) with (turns u ++ [turn_of p m t]) by (by destruct u).
    by rewrite lsum_snoc, Hh. }
  cbn zeta. split; f_equal; [f_equal; [f_equal|]| |f_equal; [f_equal|]|].
  all: match goal with
       | |- lsum ?h _ = answered_tokens ?f _ _ =>
           apply (H f (λ u, lsum h (turns u))); [by intros; apply Hturns|done|intros u u' [= ? ? ? ? Ht]; by rewrite ?Ht]
       | |- ?g _ = answered_tokens ?f _ _ => apply (H f g); [intros [] *; apply Z.add_comm|done|intros u u' [= ? ? ? ? Ht]; by rewrite ?Ht]
       end.
Qed.

(** C24. Without compiler mode a run ends, whatever the model answers and the
    tools do: with k the larger of 1 and the iteration cap, it is at END after
    at most 2k + 1 nodes unless a node raises, has executed at most k batches,
    and its status is then COMPLETED, also when the planner or the executor
    reported FAILED. *)
Theorem run_ends (r : Run) (Hmode : agent_compiler_mode_enabled psettings = false) (Hplan : plan (state r) = None)
    (Hstart : usage_of (state r) = no_usage) :
  let k := Z.max 1 (agent_max_tool_iterations psettings) in
  outcome (λ '(cur, r'), cur = END ∧ task_status (state r') = COMPLETED ∧ tool_iterations (usage_of (state r')) ≤ k)
    (λ _, True) (agent_run (2 * Z.to_nat k + 1) r).
Proof.
  cbn zeta. set (k := Z.max 1 _). destruct (agent_run _ r) as [[cur r']|e] eqn:E; [|done]. cbn.
  assert (tool_iterations (usage_of (state r)) = 0) as H0 by by rewrite Hstart.
  apply run_bounded in E as (? & ? & Hit); [split_and!; [done..|]; lia| | |done|done|lia|lia].
  - intros b s p Hnode. by apply (node_iterations _ _ _ _ _ _ _ _ _ _ Hnode).
  - intros b s p Hs Hnode. by apply (node_context _ _ _ _ _ _ _ _ _ _ Hnode).
Qed.
End agent_run.
End planner.

(** ** Concrete runs *)
Module RunDemo.

Definition psettings (compiler : bool) : PlannerSettings :=
  MkPlannerSettings "openrouter" "m" "" "" "" "" [("google", "g")] "openrouter" "ui" compiler 2.

Definition one : TurnUsage := MkTurnUsage 10 3 0 0.

(** A tool call, the answer, the components *)
Definition llm (i : nat) : llm_answer :=
  match i with
  | O => Reply "" [MkCall "1" "search" []] one
  | 1%nat => Reply "costs 3.50 today" [] one
  | _ => Reply "{}" [] one
  end.

Definition start : Run :=
  MkRun (MkAgentState [Human "hi"] PLANNING (MkMetadata no_usage [] false []) (JObj []) None) 0 0.

Notation run_with compiler answers validate steps :=
  (agent_run (psettings compiler) None answers (λ _, true) (λ _ _ _, false) unit (λ _, None) (λ _ _, None) (λ _, "")
    (λ _, Ok (JObj [])) validate ["search"] app true (λ _, []) ExecutorDemo.demo_dumps (λ _, Some (JObj [])) (λ _, "")
    (λ _ _ s, s) ExecutorDemo.cfg ExecutorDemo.platform [] (λ _, ExecutorDemo.fate) steps start).

Definition no_plans : json → res Plan := λ _, Raise (ValueError "no plan").

(** The run is at END after [n] invocations. *)
Definition ended (n : nat) (x : res (GraphNode * Run)) : bool :=
  match x with Ok (cur, r') => bool_decide (cur = END) && Nat.eqb (invocations r') n | Raise _ => false end.

Lemma demo_ends : ended 3 (run_with false llm no_plans 4) = true.
Proof. vm_compute. reflexivity. Qed.

Lemma run_keeps_accounts_witness :
  match run_with false llm no_plans 4 with
  | Ok (_, r') => usage_ok_of ExecutorDemo.cfg ExecutorDemo.platform [] r'
  | Raise _ => False
  end.
Proof.
  pose proof demo_ends as H. destruct (run_with false llm no_plans 4) as [[cur r']|e] eqn:E; [|discriminate].
  exact (run_keeps_accounts _ _ _ _ _ _ _ _ _ _ _ _ _ _ _ _ _ _ _ _ _ _ _ 4%nat start r' cur eq_refl E).
Defined.

(** Three replies of ten input tokens each, the UI generator's included *)
Lemma run_meters_every_reply_witness :
  match run_with false llm no_plans 4 with
  | Ok (_, r') => tokens_in (usage_of (state r')) = 30 ∧ lsum turn_out (turns (usage_of (state r'))) = 9
  | Raise _ => False
  end.
Proof.
  pose proof demo_ends as H. destruct (run_with false llm no_plans 4) as [[cur r']|e] eqn:E; [|discriminate].
  destruct (run_meters_every_reply _ _ _ _ _ _ _ _ _ _ _ _ _ _ _ _ _ _ _ _ _ _ _ 4%nat start r' cur eq_refl E) as [H1 H2].
  injection H1 as -> _ _ _. injection H2 as _ -> _ _. apply andb_prop in H as [_ H%Nat.eqb_eq]. rewrite H. split; reflexivity.
Defined.

Lemma demo_ends_late : ended 3 (run_with false llm no_plans 5) = true.
Proof. vm_compute. reflexivity. Qed.

Lemma run_ends_witness :
  match run_with false llm no_plans 5 with
  | Ok (cur, r') => cur = END ∧ task_status (state r') = COMPLETED
  | Raise _ => False
  end.
Proof.
  pose proof (run_ends (psettings false) None llm (λ _, true) (λ _ _ _, false) unit (λ _, None) (λ _ _, None) (λ _, "")
    (λ _, Ok (JObj [])) no_plans ["search"] app true (λ _, []) ExecutorDemo.demo_dumps (λ _, Some (JObj [])) (λ _, "")
    (λ _ _ s, s) ExecutorDemo.cfg ExecutorDemo.platform [] (λ _, ExecutorDemo.fate) start eq_refl eq_refl eq_refl) as H.
  change (outcome (λ '(cur, r'), cur = END ∧ task_status (state r') = COMPLETED ∧ tool_iterations (usage_of (state r')) ≤ 2)
    (λ _, True) (run_with false llm no_plans 5)) in H.
  pose proof demo_ends_late as Hok. destruct (run_with false llm no_plans 5) as [[cur r']|e]; [|discriminate].
  destruct H as (Hcur & Hst & _). split; assumption.
Defined.

(** The model is down: the planner reports FAILED, and the run's final status
    is COMPLETED all the same. *)
Lemma failed_run_completes :
  match run_with false (λ _, LlmTimeout) no_plans 1, run_with false (λ _, LlmTimeout) no_plans 2 with
  | Ok (cur, r), Ok (cur', r') =>
      cur = ui_generator ∧ task_status (state r) = FAILED ∧ cur' = END ∧ task_status (state r') = COMPLETED
  | _, _ => False
  end.
Proof. vm_compute. split; [reflexivity|split; [reflexivity|split; reflexivity]]. Qed.

(** In compiler mode the cap is not consulted: a model that emits a fresh plan
    of two stages in every turn runs six batches where the cap is two. *)
Definition fresh_plan : Plan :=
  MkPlan [MkPlanStage 0 [MkPlanCall "a" "search" [] []]; MkPlanStage 1 [MkPlanCall "b" "search" [] []]] None 0 [].

Lemma compiler_mode_ignores_cap :
  agent_max_tool_iterations (psettings true) = 2 ∧
  match run_with true (λ _, Reply "<plan>{}</plan>" [] one) (λ _, Ok fresh_plan) 12 with
  | Ok (cur, r') => cur = planner ∧ tool_iterations (usage_of (state r')) = 6
  | Raise _ => False
  end.
Proof. vm_compute. split; [reflexivity|split; reflexivity]. Qed.

End RunDemo.
