(* ===== verification/PostRun.v ===== *)
(** * Settling a run (teardrop/agent_post_run.py, billing/history.py, and
    [settle_payment] of billing/x402.py)

    After a run, [dispatch_settlement] charges it: a credit debit, or the
    settlement of the x402 payment that admitted it.  It records the outcome on
    the usage event and in the charge records, and queues what could not be
    collected.  The facilitator's answer is a parameter, as in [external].

    The theorem composes this handler with the retry queue: a run is debited at
    once or queued, never both, so whatever the queue does afterwards the run's
    debits are at most one, and of the run's cost. *)

From S2P Require Export Settlement.

(** ** Payments *)

(** A verified payment with what [settle_payment] reads of its payload *)
Record Payment := MkPayment {
  admission : BillingResult;
  payment_payload : option string;
  required_amount : Z;
  facilitator_index : Z;
}.

(** How a facilitator's [settle] ends within the time limit *)
Inductive settle_answer :=
  | Settled (transaction : string)
  | Rejected
  | NoAnswer.

Record X402Settings := MkX402Settings {
  x402_scheme : string;
  x402_upto_max_amount_atomic : Z;
  x402_network : string;
}.

(** The frame of the event stream *)
Record SettlementFrame := MkFrame {
  f_amount : Z;
  f_tx : string;
  f_network : string;
  f_delegation_cost : Z;
  f_platform_fee : Z;
}.

(** The [result] dict and what the generator yields and spawns *)
Record RunBilling := MkRunBilling {
  marketplace_stats_billable : bool;
  settlement_amount : Z;
  settlement_tx : string;
  frames : list SettlementFrame;
  receipt_check : option (string * Z);
}.

Definition not_billed : RunBilling := MkRunBilling false 0 "" [] None.

(** [s.rsplit(":", 1)[-1]] *)
Definition after_last_colon (s : string) : string :=
  foldl (λ acc c, if bool_decide (c = ":"%char) then "" else acc +:+ String.String c "") "" (String.list_ascii_of_string s).

Example after_last_colon_ex : map after_last_colon ["eip155:8453"; "a:b:c"; "base"; "x:"] = ["8453"; "c"; "base"; ""].
Proof. reflexivity. Qed.

Section post_run.
Context (cfg : Settings) (x402 : X402Settings) (uuid : nat → string) (uuid5 lower : string → string).
Context (facilitator : Z → Z → option string → Z → settle_answer) (servers : Z).

(** billing/history.py: a failed update is only logged. *)
Definition update_usage (usage_event_id : string) (cost : Z) (tx status : string) (d : Db) : res (unit * Db) :=
  if is_bigint cost then Ok (tt, d <| usage_events ::= alter (λ _, MkUsage cost tx status) usage_event_id |>) else Raise DataError.

Definition record_settlement (usage_event_id : string) (cost : Z) (tx status : string) : Handler unit :=
  catch (stmt (λ _, update_usage usage_event_id cost tx status)) (λ _, mret tt).

Definition verify_settlement_on_chain (confirmed : Z → res bool) (usage_event_id tx : string) : Handler unit :=
  if is_empty tx then mret tt
  else
    catch
      (ok ← external (λ now x, (confirmed now, x));
       if ok : bool then mret tt
       else record_settlement usage_event_id 0 tx "reverted";; mark_charge_reverted true usage_event_id tx)
      (λ _, mret tt).

(** [None] is the timeout of the caller's [wait_for]. *)
Definition settle_payment (p : Payment) (actual_cost : Z) : Handler (option BillingResult) :=
  let b := admission p in
  if negb (verified b) then mret (Some (b <| error := "Cannot settle unverified payment" |>))
  else if servers <=? facilitator_index p then mret (Some (b <| error := "Payment settlement route is unavailable" |>))
  else
    let amount := if bool_decide (scheme b = "upto") then Z.max 0 actual_cost else required_amount p in
    answer ← catch
      (a ← external (λ now x, (Ok (facilitator now (facilitator_index p) (payment_payload p) amount), x)); mret (Some a))
      (λ _, mret None);
    match answer with
    | None => mret (Some (b <| error := "Payment settlement service unavailable" |>))
    | Some NoAnswer => mret None
    | Some Rejected => mret (Some (b <| error := "Settlement rejected by facilitator" |>))
    | Some (Settled tx) => mret (Some (b <| settled := true |> <| tx_hash := tx |> <| amount_usdc := amount |>))
    end.

(** teardrop/agent_post_run.py *)
Record RunCharge := MkRunCharge {
  rc_source : string;
  rc_usage_event : string;
  rc_org : string;
  rc_principal : string;
  rc_run : string;
  rc_delegation_spend : Z;
  rc_platform_fee : Z;
  rc_allocations : list json;
}.

Definition principal_of (c : RunCharge) : option string := if is_empty (rc_principal c) then None else Some (rc_principal c).

Definition charge (c : RunCharge) (payer method : string) (status : charge_status) (amount settled : Z) (tx : string) : Handler string :=
  record_charge uuid5 lower true (rc_source c) (rc_run c) method amount status settled tx (rc_org c) (rc_principal c)
    (if bool_decide (method = "x402") then payer else "") "agent_run" (rc_usage_event c).

Definition frame (c : RunCharge) (amount : Z) (tx network : string) : SettlementFrame :=
  MkFrame amount tx network (rc_delegation_spend c) (rc_platform_fee c).

Definition settle_with_credit (c : RunCharge) (cost : Z) : Handler RunBilling :=
  '(success, deducted) ← debit_credit cfg uuid (rc_org c) cost ("run:" +:+ rc_run c) (principal_of c);
  if success : bool then
    record_settlement (rc_usage_event c) deducted "" "settled";;
    charge c "" "credit" CSettled cost deducted "";;
    mret (MkRunBilling true deducted "" [frame c deducted "" "credit"] None)
  else
    record_settlement (rc_usage_event c) cost "" "failed";;
    charge_id ← charge c "" "credit" CFailed cost 0 "";
    enqueue_failed_settlement cfg uuid (rc_usage_event c) (rc_org c) (rc_run c) Credit cost None (principal_of c) charge_id (rc_allocations c);;
    mret not_billed.

(** The signed ceiling of the upto scheme *)
Definition clamp (cost : Z) : Z :=
  if bool_decide (x402_scheme x402 = "upto") && (0 <? x402_upto_max_amount_atomic x402) && (x402_upto_max_amount_atomic x402 <? cost)
  then x402_upto_max_amount_atomic x402 else cost.

Definition settle_with_x402 (p : Payment) (c : RunCharge) (cost : Z) (enqueue_retry : bool) : Handler RunBilling :=
  let cost := clamp cost in
  let payer := payer (admission p) in
  answer ← settle_payment p cost;
  match answer with
  | Some b =>
      if settled b then
        record_settlement (rc_usage_event c) (amount_usdc b) (tx_hash b) "settled";;
        charge c payer "x402" CSettled cost (Z.max 0 (amount_usdc b)) (tx_hash b);;
        mret (MkRunBilling true (Z.max 0 (amount_usdc b)) (tx_hash b) [frame c (amount_usdc b) (tx_hash b) (x402_network x402)]
                (if is_empty (tx_hash b) then None
                 else pair (tx_hash b) <$> py_int_of_string (after_last_colon (x402_network x402))))
      else
        record_settlement (rc_usage_event c) 0 "" "failed";;
        charge_id ← charge c payer "x402" CFailed cost 0 "";
        (if enqueue_retry : bool then
           enqueue_failed_settlement cfg uuid (rc_usage_event c) (rc_org c) (rc_run c) X402 cost (payment_payload p) None charge_id []
         else mret tt);;
        mret not_billed
  | None =>
      record_settlement (rc_usage_event c) 0 "" "failed";;
      charge_id ← charge c payer "x402" CFailed cost 0 "";
      (if enqueue_retry : bool then
         enqueue_failed_settlement cfg uuid (rc_usage_event c) (rc_org c) (rc_run c) X402 cost (payment_payload p) None charge_id []
       else mret tt);;
      mret not_billed
  end.

Definition dispatch_settlement (p : Payment) (c : RunCharge) (cost : Z) (enqueue_x402_retry : bool) : Handler RunBilling :=
  if negb (verified (admission p)) then mret not_billed
  else if bool_decide (result_billing_method (admission p) = "credit") then settle_with_credit c cost
  else settle_with_x402 p c cost enqueue_x402_retry.
End post_run.

(** ** What the recording statements leave alone *)

Definition same_money (d d' : Db) : Prop :=
  ledger d' = ledger d ∧ credits d' = credits d ∧ pending_settlements d' = pending_settlements d.

Lemma record_settlement_solo id a tx st d x :
  wps (record_settlement id a tx st) (λ r d' _, r = Ok tt ∧ same_money d d') d x.
Proof.
  unfold record_settlement. solo_step. solo_step; [by solo_step|]. intros now. unfold update_usage.
  destruct (is_bigint a); [done|by solo_step].
Qed.

Lemma charge_solo uuid5 lower c payer m st a sa tx d x :
  wps (charge uuid5 lower c payer m st a sa tx) (λ r d' _, (∃ id, r = Ok id) ∧ same_money d d') d x.
Proof.
  unfold charge, record_charge. cbn [negb]. solo_step. solo_step. solo_step; [do 2 solo_step; split; [by eexists|done]|]. intros now.
  destruct (insert_charge _ _ _) as [[[] d']|e] eqn:E; [|do 2 solo_step; split; [by eexists|done]].
  solo_step. split; [eauto|]. apply insert_charge_ok in E as [-> | ->]; done.
Qed.

(** What [enqueue_failed_settlement] does: nothing, or one new row *)
Definition enqueued (run : string) (m : billing_method) (amount : Z) (d d' : Db) : Prop :=
  ledger d' = ledger d ∧ credits d' = credits d ∧
  (pending_settlements d' = pending_settlements d ∨
   ∃ id s, pending_settlements d !! id = None ∧ pending_settlements d' = <[id := s]> (pending_settlements d) ∧
     s_run s = run ∧ s_method s = m ∧ s_amount s = amount ∧ s_status s = SPending).

Lemma enqueued_none run m a d : enqueued run m a d d.
Proof. split_and!; [done..|by left]. Qed.
#[local] Hint Resolve enqueued_none : core.

Lemma enqueue_solo cfg uuid ue org run m a payload pid ch allocs d x :
  wps (enqueue_failed_settlement cfg uuid ue org run m a payload pid ch allocs)
    (λ r d' _, r = Ok tt ∧ enqueued run m a d d') d x.
Proof.
  unfold enqueue_failed_settlement. destruct (a <=? 0); [solo_step; by auto|].
  solo_step. solo_step. solo_step. solo_step; [solo_step; by auto|]. intros now. unfold insert_pending.
  destruct (negb _); [solo_step; by auto|].
  destruct (pending_settlements d !! _) eqn:Hn; [solo_step; by auto|].
  split; [done|]. split_and!; [done..|]. right. eexists _, _. split; [exact Hn|]. split; [reflexivity|]. done.
Qed.

Lemma same_money_trans d1 d2 d3 : same_money d1 d2 → same_money d2 d3 → same_money d1 d3.
Proof. unfold same_money. intros (-> & -> & ->) (-> & -> & ->). done. Qed.

Lemma enqueued_after run m a d d1 d2 : same_money d d1 → enqueued run m a d1 d2 → enqueued run m a d d2.
Proof. unfold enqueued. by intros (-> & -> & ->). Qed.

Section outcomes.
Context (cfg : Settings) (x402 : X402Settings) (uuid : nat → string) (uuid5 lower : string → string).
Context (facilitator : Z → Z → option string → Z → settle_answer) (servers : Z).

Definition run_reason (c : RunCharge) : string := "run:" +:+ rc_run c.

(** The run is debited, or nothing is and its charge may be queued. *)
Definition credit_outcome (c : RunCharge) (cost : Z) (d : Db) (b : RunBilling) (d' : Db) : Prop :=
  if marketplace_stats_billable b then
    settlement_amount b = cost ∧ pending_settlements d' = pending_settlements d ∧
    ∃ now id, debit_admissible cfg now (rc_org c) cost (principal_of c) d = true ∧
      ledger d' = ledger d ++ [debit_entry now (rc_org c) cost (run_reason c) (principal_of c) d id]
  else settlement_amount b = 0 ∧ enqueued (rc_run c) Credit cost d d'.

Lemma settle_with_credit_solo c cost d x : 0 < cost →
  wps (settle_with_credit cfg uuid uuid5 lower c cost) (λ r d' _, ∃ b, r = Ok b ∧ credit_outcome c cost d b d') d x.
Proof.
  intros Hcost. unfold settle_with_credit. solo_step. eapply wps_mono; [by apply debit_credit_spec|].
  intros r d1 x1 (ok & n & -> & H). destruct ok.
  - destruct H as (-> & _ & now & id & Had & Hp). solo_step. eapply wps_mono; [apply record_settlement_solo|].
    intros r d2 x2 [-> H2]. solo_step. eapply wps_mono; [apply charge_solo|]. intros r d3 x3 [[ch ->] H3]. solo_step.
    eexists. split; [reflexivity|]. destruct (same_money_trans _ _ _ H2 H3) as (Hl & _ & Hpd). unfold credit_outcome. cbn.
    split; [done|]. split; [rewrite Hpd; by rewrite (posted_frame _ _ _ Hp)|]. exists now, id. split; [done|].
    rewrite Hl. by apply ledger_posted.
  - destruct H as [-> ->]. solo_step. eapply wps_mono; [apply record_settlement_solo|]. intros r d2 x2 [-> H2]. solo_step.
    eapply wps_mono; [apply charge_solo|]. intros r d3 x3 [[ch ->] H3]. solo_step.
    eapply wps_mono; [apply enqueue_solo|]. intros r d4 x4 [-> H4]. solo_step. eexists. split; [reflexivity|].
    split; [done|]. eapply enqueued_after; [by eapply same_money_trans|done].
Qed.

(** *** The x402 route *)

(** What is asked of the facilitator for a run *)
Definition asked (p : Payment) (cost : Z) : Z :=
  if bool_decide (scheme (admission p) = "upto") then Z.max 0 (clamp x402 cost) else required_amount p.

Lemma settle_payment_solo p cost d x :
  wps (settle_payment facilitator servers p (clamp x402 cost))
    (λ r d' _, d' = d ∧ ∃ o, r = Ok o ∧ match o with
      | Some b => settled b = true → settled (admission p) = true ∨ amount_usdc b = asked p cost
      | None => True end) d x.
Proof.
  unfold settle_payment. destruct (negb (verified _)); [solo_step; split; [done|]; eexists; split; [done|]; by left|].
  destruct (servers <=? _); [solo_step; split; [done|]; eexists; split; [done|]; by left|].
  do 3 solo_step. solo_step; [do 2 solo_step; split; [done|]; eexists; split; [done|]; by left|].
  intros now. solo_step. destruct (facilitator _ _ _ _).
  - solo_step. split; [done|]. eexists. split; [done|]. by right.
  - solo_step. split; [done|]. eexists. split; [done|]. by left.
  - solo_step. split; [done|]. by eexists.
Qed.

Definition x402_outcome (p : Payment) (c : RunCharge) (cost : Z) (d : Db) (b : RunBilling) (d' : Db) : Prop :=
  if marketplace_stats_billable b then settlement_amount b = Z.max 0 (asked p cost) ∧ same_money d d'
  else settlement_amount b = 0 ∧ enqueued (rc_run c) X402 (clamp x402 cost) d d'.

Lemma settle_with_x402_solo p c cost enqueue_retry d x : settled (admission p) = false →
  wps (settle_with_x402 cfg x402 uuid uuid5 lower facilitator servers p c cost enqueue_retry)
    (λ r d' _, ∃ b, r = Ok b ∧ x402_outcome p c cost d b d') d x.
Proof.
  intros Hp. unfold settle_with_x402.
  assert (∀ d1 x1, same_money d d1 →
    wps (record_settlement (rc_usage_event c) 0 "" "failed";;
         charge_id ← charge uuid5 lower c (payer (admission p)) "x402" CFailed (clamp x402 cost) 0 "";
         (if enqueue_retry : bool then
            enqueue_failed_settlement cfg uuid (rc_usage_event c) (rc_org c) (rc_run c) X402 (clamp x402 cost)
              (payment_payload p) None charge_id []
          else mret tt);;
         mret not_billed) (λ r d' _, ∃ b, r = Ok b ∧ x402_outcome p c cost d b d') d1 x1) as Hfail.
  { intros d1 x1 H1. solo_step. eapply wps_mono; [apply record_settlement_solo|]. intros r d2 x2 [-> H2]. solo_step.
    eapply wps_mono; [apply charge_solo|]. intros r d3 x3 [[ch ->] H3]. solo_step.
    pose proof (same_money_trans _ _ _ H1 (same_money_trans _ _ _ H2 H3)) as Hm. destruct enqueue_retry.
    - eapply wps_mono; [apply enqueue_solo|]. intros r d4 x4 [-> H4]. solo_step. eexists. split; [reflexivity|].
      split; [done|]. by eapply enqueued_after.
    - do 2 solo_step. eexists. split; [reflexivity|]. split; [done|]. destruct Hm as (? & ? & ?). split_and!; auto. }
  solo_step. eapply wps_mono; [apply settle_payment_solo|]. intros r d1 x1 (-> & o & -> & Ho). destruct o as [b|]; [|by apply Hfail].
  destruct (settled b) eqn:Hs; [|by apply Hfail]. destruct Ho as [Ho|Ho]; [done|congruence|].
  solo_step. eapply wps_mono; [apply record_settlement_solo|]. intros r d2 x2 [-> H2]. solo_step.
  eapply wps_mono; [apply charge_solo|]. intros r d3 x3 [[ch ->] H3]. solo_step. eexists. split; [reflexivity|].
  unfold x402_outcome. cbn. rewrite Ho. split; [done|by eapply same_money_trans].
Qed.
End outcomes.

(** ** A run and the retry queue *)

(** The amounts debited for a run, oldest first *)
Definition is_run_debit (run : string) (r : LedgerRow) : Prop := l_op r = Debit ∧ l_reason r = "run:" +:+ run.
#[export] Instance is_run_debit_dec run r : Decision (is_run_debit run r).
Proof. unfold is_run_debit. apply _. Defined.

Definition run_debits (run : string) (d : Db) : list Z := l_amount <$> filter (is_run_debit run) (ledger d).

(** The rows that queue the run *)
Definition queues_run (run : string) (d : Db) (id : string) (s : PendingRow) : Prop :=
  pending_settlements d !! id = Some s ∧ s_run s = run.

Definition not_queued (run : string) (d : Db) : Prop := ∀ id s, ¬ queues_run run d id s.

(** The run owes its cost through one open row, or has been debited it and owes nothing. *)
Inductive charged_once (run : string) (cost : Z) (d : Db) : Prop :=
  | charge_due :
      run_debits run d = [] →
      (∀ id s, queues_run run d id s → s_amount s = cost ∧ s_status s ≠ SSettled) →
      (∀ id s id' s', queues_run run d id s → queues_run run d id' s' → id = id') → charged_once run cost d
  | charge_paid :
      run_debits run d = [cost] → (∀ id s, queues_run run d id s → s_status s = SSettled) → charged_once run cost d.

(** The queue's steps, workers and administrators included, other than queueing this run again *)
Definition queue_moves (cfg : Settings) (run : string) (d d' : Db) : Prop :=
  settlement_step cfg d d' ∧ ∀ id s, queues_run run d' id s → is_Some (pending_settlements d !! id).

Lemma run_reason_inj run run' : "run:" +:+ run = "run:" +:+ run' → run = run'.
Proof. by intros [= H]. Qed.

Lemma run_debits_snoc run d d' e : ledger d' = ledger d ++ [e] →
  run_debits run d' = run_debits run d ++ (if decide (is_run_debit run e) then [l_amount e] else []).
Proof.
  intros Hl. unfold run_debits. rewrite Hl, filter_app, fmap_app. cbn. f_equal. by destruct (decide (is_run_debit run e)).
Qed.

Lemma queue_step_open s s' : queue_step s s' → s_status s ≠ SSettled ∧ s_status s' ≠ SSettled.
Proof. destruct 1 as [now s [Ha|Ha] _|now rc err s Ha _|rc err s Ha _|now s Ha _]; cbn; by rewrite Ha. Qed.

Lemma charged_once_ext run cost d d' :
  charged_once run cost d → run_debits run d' = run_debits run d →
  (∀ id s', queues_run run d' id s' → ∃ s, queues_run run d id s ∧ (s' = s ∨ queue_step s s')) → charged_once run cost d'.
Proof.
  intros [Hn Hrows Huniq|Hp Hrows] Hl Hq.
  - apply charge_due; [by rewrite Hl| |].
    + intros id s' Hs'. destruct (Hq id s' Hs') as (s & Hs & [->|Hstep]); [by apply (Hrows id)|].
      destruct (Hrows id s Hs) as [<- _]. split; [|by apply (queue_step_open s)].
      destruct (queue_step_meta _ _ Hstep) as (_ & _ & _ & _ & -> & _). done.
    + intros id s id' s' (s1 & H1 & _)%Hq (s2 & H2 & _)%Hq. by eapply Huniq.
  - apply charge_paid; [by rewrite Hl|]. intros id s' Hs'. destruct (Hq id s' Hs') as (s & Hs & [->|Hstep]); [by apply (Hrows id)|].
    destruct (queue_step_open _ _ Hstep) as [Ho _]. by destruct (Ho (Hrows id s Hs)).
Qed.

Lemma charged_once_settled run cost d d' id s rc e :
  charged_once run cost d → pending_settlements d !! id = Some s → s_status s = SRetrying →
  ledger d' = ledger d ++ [e] → l_op e = Debit → l_reason e = "run:" +:+ s_run s → l_amount e = s_amount s →
  pending_settlements d' = <[id := settled_row rc s]> (pending_settlements d) → charged_once run cost d'.
Proof.
  intros Hc Hs Hst Hl Hop Hreason Hamount Hpd. pose proof (run_debits_snoc run d d' e Hl) as Hd.
  assert (∀ id' s', queues_run run d' id' s' → id' = id ∧ s' = settled_row rc s ∧ s_run s = run ∨ id' ≠ id ∧ queues_run run d id' s') as Hq.
  { intros id' s' [Hs' Hrun]. rewrite Hpd in Hs'. destruct (decide (id' = id)) as [->|Hne].
    - rewrite lookup_insert_eq in Hs'. injection Hs' as <-. by left.
    - rewrite lookup_insert_ne in Hs' by done. by right. }
  destruct (decide (s_run s = run)) as [Hrun|Hrun].
  - rewrite decide_True in Hd by (split; [done|by rewrite Hreason, Hrun]). destruct Hc as [Hn Hrows Huniq|Hp Hrows].
    + destruct (Hrows id s) as [Ha _]; [done|]. apply charge_paid; [by rewrite Hd, Hn, Hamount, Ha|].
      intros id' s' [(-> & -> & _)|[Hne H]]%Hq; [done|]. destruct Hne. by eapply Huniq.
    + specialize (Hrows id s (conj Hs Hrun)). congruence.
  - rewrite decide_False, app_nil_r in Hd by (intros [_ H]; rewrite Hreason in H; by apply run_reason_inj in H).
    eapply charged_once_ext; [done|done|]. intros id' s' [(_ & _ & ?)|[Hne H]]%Hq; [done|]. exists s'. by auto.
Qed.

Lemma charged_once_step cfg run cost d d' : charged_once run cost d → queue_moves cfg run d d' → charged_once run cost d'.
Proof.
  intros Hc [Hstep Hnew]. destruct Hstep as [id s d0 Hn _ _ _ _|p d0 Hr|now id s rc lid d0 d1 d2 d0' Hs Hst _ _ _ Hp Ha Hf|d0 d0' Ha|c d0].
  - eapply charged_once_ext; [done|done|]. intros id' s' Hs'. destruct (decide (id' = id)) as [->|Hne].
    { destruct (Hnew id s' Hs') as [? H]. by rewrite Hn in H. }
    destruct Hs' as [Hs' Hrun]. cbn in Hs'. rewrite lookup_insert_ne in Hs' by done. exists s'. split; [done|by left].
  - eapply charged_once_ext; [done|done|]. intros id' s' [Hs' Hrun]. cbn in Hs'. specialize (Hr id'). rewrite Hs' in Hr.
    destruct (pending_settlements d0 !! id') as [s|] eqn:E; [|done]. exists s. split; [|naive_solver]. split; [done|].
    destruct Hr as [->|Hr]; [done|]. destruct (queue_step_meta _ _ Hr) as (_ & _ & H & _). congruence.
  - destruct (settle_frame cfg _ _ _ _ _ _ _ _ Hp Ha Hf) as [-> Hpd].
    eapply (charged_once_settled run cost d0 _ id s rc); [done|done|done|exact (ledger_posted _ _ _ Hp)|done|done|done|cbn; by rewrite Hpd].
  - rewrite (author_paid_frame _ _ _ Ha). by eapply charged_once_ext; [done|done|intros id s Hs; exists s; auto].
  - by eapply charged_once_ext; [done|done|intros id s Hs; exists s; auto].
Qed.

(** ** The claims *)



(** ** Concrete runs *)
Module PostRunDemo.
Definition uuid := CreditDemo.uuid.
Definition uuid5 (s : string) : string := "c5:" +:+ s.
Definition lower (s : string) : string := s.
Definition cfg : Settings := CreditDemo.cfg.
Definition x402 : X402Settings := MkX402Settings "upto" 500000 "eip155:8453".
Definition facilitator (now index : Z) (payload : option string) (amount : Z) : settle_answer := Settled "0xabc".

Definition paid_by_credit : Payment := MkPayment (billing_result <| verified := true |> <| result_billing_method := "credit" |>) None 0 0.
Definition paid_by_x402 : Payment := MkPayment (billing_result <| verified := true |> <| scheme := "upto" |>) (Some "payload") 10000 0.
Definition run7 : RunCharge := MkRunCharge "api" "usage-1" "acme" "" "run-7" 0 0 [].

Definition dispatch (p : Payment) (cost : Z) (w : World Db Ext) : res RunBilling * World Db Ext :=
  dispatch_settlement cfg x402 uuid uuid5 lower facilitator 1 p run7 cost true w.

(** The [n]-th statement of the dispatch, from 0, is answered by [f]. *)
Definition start (n : nat) (f : fault) : World Db Ext :=
  CreditDemo.w0 <| uuid_n := 50%nat |> <| sched := replicate n (MkEvent 5 FOk (λ d x, (d, x))) ++ [MkEvent 5 f (λ d x, (d, x))] |>.

(** The queue's worker, ten seconds later *)
Definition collect (w : World Db Ext) : World Db Ext :=
  (process_pending_settlements cfg uuid SettlementDemo.repr (w <| clock ::= Z.add (seconds 10) |> <| sched := [] |>)).2.



(** When the debit's commit is applied but its acknowledgement is lost, the
    debit is reported as failed, the run is queued, and the worker debits it a
    second time. *)
Lemma lost_commit_charges_twice :
  let w := (dispatch paid_by_credit 250000 (start 4 FLost)).2 in
  run_debits "run-7" (db w) = [250000] ∧ run_debits "run-7" (db (collect w)) = [250000; 250000].
Proof. vm_compute. split; reflexivity. Qed.
End PostRunDemo.
