(* ===== verification/RunCost.v ===== *)
(** * What a run owes (teardrop/agent_post_run.py)

    [calculate_run_cost] puts the pricing component together: tokens by turn or
    by run totals, or the orchestration fee of an organisation with its own
    model key, plus tools.  The run's usage is the metadata the agent graph
    leaves; a turn without a provider or model is priced as the run's. *)

From S2P Require Export Pricing.

Section run_cost.
Context `{!TextCodec PricingRule, !TextCodec (gmap string Z)} (cfg : PricingSettings).
Context (byok_tier_pricing_enabled : bool).

(** [llm_config], else the settings' provider and model *)
Definition run_provider_model (llm_config : option (string * string)) (primary : string * string) : string * string :=
  default primary llm_config.

Definition nonempty_or (s d : string) : string := if is_empty s then d else s.

Definition priced_turn (run : string * string) (t : Turn) : Turn :=
  MkTurn (nonempty_or (t_provider t) run.1) (nonempty_or (t_model t) run.2) (t_tokens_in t) (t_tokens_out t)
    (t_cache_creation_tokens t) (upstream_cost_usd t).

Definition tools_of (u : Usage) : PH Z := calculate_tool_cost_usdc cfg (billable_tool_calls u) (billable_tool_names u).

(** The body of the [try] *)
Definition priced_run (u : Usage) (turns : list Turn) (run : string * string) (is_byok : bool) (org_llm : string * string)
    (platform_fee : Z) : PH Z :=
  if is_byok then
    byok_fee ← (if byok_tier_pricing_enabled
                then calculate_byok_orchestration_cost cfg (u_tokens_in u) (u_tokens_out u) org_llm.1 org_llm.2
                else mret platform_fee);
    tool_cost ← tools_of u;
    mret (byok_fee + tool_cost)
  else
    match turns with
    | [] => calculate_run_cost_usdc cfg u run.1 run.2
    | _ =>
        token_cost_total ← calculate_turns_token_cost_usdc cfg (map (priced_turn run) turns);
        tool_cost ← tools_of u;
        mret (token_cost_total + tool_cost)
    end.

Definition calculate_run_cost (u : Usage) (turns : list Turn) (llm_config : option (string * string)) (primary : string * string)
    (is_byok : bool) (org_llm : string * string) (platform_fee : Z) : PH Z :=
  catch (priced_run u turns (run_provider_model llm_config primary) is_byok org_llm platform_fee)
    (λ _, if is_byok then mret platform_fee
          else catch (calculate_run_cost_usdc cfg u "" "") (λ _, mret 0)).

(** ** The reference *)

Definition byok_fee (t : PriceTable) (tokens_in tokens_out : Z) (org_llm : string * string) : Z :=
  match rule_of_model t org_llm.1 org_llm.2 true with
  | None => byok_platform_fee_usdc cfg
  | Some rule =>
      Z.max (ceil_div (tokens_in * tokens_in_cost_per_1k rule + tokens_out * tokens_out_cost_per_1k rule) 1000)
        (byok_platform_fee_usdc cfg)
  end.

Definition owed (t : PriceTable) (u : Usage) (turns : list Turn) (run : string * string) (is_byok : bool)
    (org_llm : string * string) (platform_fee : Z) : Z :=
  let tools := tools_cost cfg t (billable_tool_calls u) (billable_tool_names u) in
  if is_byok then (if byok_tier_pricing_enabled then byok_fee t (u_tokens_in u) (u_tokens_out u) org_llm else platform_fee) + tools
  else match turns with
       | [] => Pricing.run_cost cfg t u run.1 run.2
       | _ => turns_cost cfg t (map (priced_turn run) turns) + tools
       end.
End run_cost.

Section claims.
Context `{TextCodecOk PricingRule, TextCodecOk (gmap string Z)} (cfg : PricingSettings) (tier : bool).

Lemma reads_byok now d x tokens_in tokens_out org_llm : no_colon org_llm.1 = true →
  reads cfg now d x (calculate_byok_orchestration_cost cfg tokens_in tokens_out org_llm.1 org_llm.2)
    (byok_fee cfg (shown cfg now d x) tokens_in tokens_out org_llm).
Proof.
  intros Hp. unfold calculate_byok_orchestration_cost, byok_fee.
  eapply reads_bind; [by apply reads_model|]. destruct (rule_of_model _ _ _ _); apply reads_ret.
Qed.

Lemma reads_priced_run now d x u turns run is_byok org_llm platform_fee :
  no_colon run.1 = true → no_colon org_llm.1 = true →
  (∀ t, t ∈ turns → no_colon (t_provider t) = true) →
  ids_name_rules (omap (flat_rule cfg (shown cfg now d x)) (map (priced_turn run) turns)) →
  reads cfg now d x (priced_run cfg tier u turns run is_byok org_llm platform_fee)
    (owed cfg tier (shown cfg now d x) u turns run is_byok org_llm platform_fee).
Proof.
  intros Hrun Horg Hturns Hids. unfold priced_run, owed. destruct is_byok.
  - destruct tier; (eapply reads_bind; [first [by apply reads_byok|apply reads_ret]|]);
      (eapply reads_bind; [apply reads_tools_cost|apply reads_ret]).
  - destruct turns as [|t turns]; [by apply reads_run_cost|].
    eapply reads_bind; [apply reads_turns_cost; [|exact Hids]|eapply reads_bind; [apply reads_tools_cost|apply reads_ret]].
    intros t' Ht'. apply list_elem_of_In, in_map_iff in Ht' as (t0 & <- & Ht0%list_elem_of_In). cbn. unfold nonempty_or.
    destruct (is_empty (t_provider t0)); [done|by apply Hturns].
Qed.

End claims.

Import PricingDemo.


Example byok_price :
  (calculate_run_cost PricingDemo.settings true PricingDemo.usage PricingDemo.turns None ("anthropic", "sonnet") true ("", "") 900
     PricingDemo.start).1 = Ok (500 + 15000 + 700).
Proof. vm_compute. reflexivity. Qed.
