(* ===== verification/X402.v ===== *)
(** * Admitting x402 payments (billing/x402.py)

    [verify_payment]: the facilitators with their failover and cooldowns, and
    the replay guard, a claim per signed authorization in x402_payment_nonces;
    and [reserve_payer_spend], the rolling cap of an anonymous payer.

    The answers of the facilitators and the payload parser of the x402 SDK are
    parameters.  The requirements to verify against are an argument; the cached
    ones are rebuilt from live pricing before, which is not modelled.

    The theorems: one signed authorization is admitted at most once, however it
    is repackaged and whatever other processes do in between; a reservation
    never takes a payer over the cap; and a facilitator that answers is reached
    past any number that do not. *)

From S2P Require Export PostRun Canonical.

(** ** The identity of an authorization *)

(** A decoded payment header *)
Record Parsed := MkParsed {
  inner_payload : list (string * json);
  model_dump_json : string;
}.

Record VerifyResponse := MkVerify {
  is_valid : bool;
  invalid_reason : string;
  invalid_message : string;
  verified_payer : string;
}.

Inductive verify_call :=
  | Answered (r : VerifyResponse)
  | RaisedValueError (text : string)
  | RaisedOutage.

Record Requirement := MkRequirement { req_scheme : string; req_amount : Z }.

(** ** A claim, once there, stays *)

(** Others may claim, reserve, release and clean up, but not this claim. *)
Definition keeps_claim (h : string) (d : Db) (x : Ext) (d' : Db) (x' : Ext) : Prop :=
  is_Some (payment_nonces d !! h) → is_Some (payment_nonces d' !! h).

(** [c]: the claim [h] is known to exist. *)
Definition claimed_if (h : string) (c : bool) : Db → Ext → Prop := λ d _, c = true → is_Some (payment_nonces d !! h).

(** Whoever wins leaves the claim behind, and nobody wins once it is there. *)
Definition guarded (h : string) (c : bool) (won : Prop) (d : Db) : Prop :=
  (c = true ∨ won → is_Some (payment_nonces d !! h)) ∧ ¬ (c = true ∧ won).

Lemma guarded_lost h c won d x : claimed_if h c d x → ¬ won → guarded h c won d.
Proof. unfold claimed_if, guarded. naive_solver. Qed.

Lemma claimed_if_stable h c : stable (keeps_claim h) (claimed_if h c).
Proof. intros d x d' x' Hc HR ?. by apply HR, Hc. Qed.

Section x402.
Context (parse_payment_payload : string → option Parsed) (repr : json → string).
Context (parse_verify : text → option VerifyResponse).
Context (ask : Z → nat → string → Requirement → verify_call) (server_count : nat) (has_pool : bool).

Definition truthy_get (kvs : list (string * json)) (k : string) : option json :=
  match dict_get kvs k with Some v => if truthy v then Some v else None | None => None end.

(** [payload.get("authorization") or payload.get("permit2Authorization")] *)
Definition authorization_of (p : Parsed) : option json :=
  match truthy_get (inner_payload p) "authorization" with
  | Some a => Some a
  | None => dict_get (inner_payload p) "permit2Authorization"
  end.

(** [int(nonce, 16) if nonce.lower().startswith("0x") else int(nonce)] *)
Definition nonce_value (nonce : json) : option Z :=
  let s := py_strip (py_str repr nonce) in
  if String.prefix "0x" (py_lower s) then match int16 s with Ok z => Some z | Raise _ => None end else py_int_of_string s.

Definition evm_key (payer : json) (nonce : Z) : string :=
  "evm:" +:+ py_lower (py_strip (py_str repr payer)) +:+ ":" +:+ pretty nonce.

(** [None] is the exception that falls back to the raw header. *)
Definition payment_key (payment_header : string) : option string :=
  p ← parse_payment_payload payment_header;
  match authorization_of p with
  | Some (JObj auth) =>
      match truthy_get auth "from", truthy_get auth "nonce" with
      | Some payer, Some nonce => evm_key payer <$> nonce_value nonce
      | _, _ => Some (model_dump_json p)
      end
  | _ => Some (model_dump_json p)
  end.

Definition _payment_nonce_hash (payment_header : string) : string :=
  sha256_hex (encode_ascii (default payment_header (payment_key payment_header))).

(** ** The replay guard *)

Definition insert_nonce (h : string) (now : Z) (d : Db) : res (bool * Db) :=
  match payment_nonces d !! h with
  | Some _ => Ok (false, d)
  | None => Ok (true, d <| payment_nonces ::= <[h := MkNonce "" 0 now]> |>)
  end.

Definition _claim_payment_nonce (payment_header : string) (fail_closed : bool) : Handler bool :=
  if has_pool then stmt (insert_nonce (_payment_nonce_hash payment_header))
  else if fail_closed then raise (RuntimeError "payment nonce store unavailable")
  else mret true.

Definition release_payment_nonce (payment_header : string) : Handler unit :=
  if has_pool then stmt (λ _ d, Ok (tt, d <| payment_nonces ::= delete (_payment_nonce_hash payment_header) |>)) else mret tt.

Definition cleanup_expired_payment_nonces (retention_hours : Z) : Handler Z :=
  if has_pool then
    stmt (λ now d, let old := filter (λ kv, claimed_at kv.2 < now - hours retention_hours) (payment_nonces d) in
                  Ok (Z.of_nat (size old), d <| payment_nonces ::= λ m, m ∖ old |>))
  else mret 0.

(** ** The payer's rolling cap *)

Definition rolling_spend (now : Z) (payer : string) (d : Db) : Z :=
  msum (λ _ r, if bool_decide (py_lower (payer_address r) = payer) && (now - hours 24 <=? claimed_at r)
               then reserved_cost_usdc r else 0) (payment_nonces d).

Definition set_reservation (h payer : string) (amount : Z) (d : Db) : res (bool * Db) :=
  match payment_nonces d !! h with
  | Some r =>
      if reserved_cost_usdc r =? 0 then
        if negb (is_bigint amount) then Raise DataError
        else Ok (true, d <| payment_nonces ::= <[h := r <| payer_address := payer |> <| reserved_cost_usdc := amount |>]> |>)
      else Ok (false, d)
  | None => Ok (false, d)
  end.

Definition reserve_payer_spend (payment_header payer_address_ : string) (amount limit : Z) : Handler bool :=
  let payer := py_lower (py_strip payer_address_) in
  if is_empty payer || (amount <? 0) || (limit <=? 0) || negb has_pool then mret false
  else if amount =? 0 then mret true
  else
    let h := _payment_nonce_hash payment_header in
    catch
      (transaction
         (query (λ _ _, tt);;
          claim ← query (λ _ d, payment_nonces d !! h);
          match claim with
          | None => mret false
          | Some r =>
              if 0 <? reserved_cost_usdc r then
                mret (bool_decide (py_lower (payer_address r) = payer) && (reserved_cost_usdc r =? amount))
              else
                spend ← query (λ now d, rolling_spend now payer d);
                if limit <? spend + amount then mret false
                else stmt (λ _, set_reservation h payer amount)
          end))
      (λ _, mret false).

(** ** Verification through the facilitators *)

Definition prefix_4xx : text := chars "Facilitator verify failed (4".

(** [^Facilitator verify failed \((4\d\d)\): (.+)$] *)
Definition match_rejection (l : text) : option text :=
  if bool_decide (take (length prefix_4xx) l = prefix_4xx) then
    match drop (length prefix_4xx) l with
    | a :: b :: c :: d :: e :: body =>
        match digit_value a, digit_value b with
        | Some _, Some _ =>
            if bool_decide ([c; d; e] = chars "): ") && negb (bool_decide (body = [])) then Some body else None
        | _, _ => None
        end
    | _ => None
    end
  else None.

Definition _verify_rejection (exc_text : string) : option VerifyResponse :=
  body ← match_rejection (chars exc_text);
  r ← parse_verify body;
  if is_valid r then None else Some r.

(** [None] is an outage. *)
Definition verify_with_facilitator {D X} (index : nat) (payload : string) (requirement : Requirement) : M D X (option VerifyResponse) :=
  catch
    (answer ← external (λ now x, (Ok (ask now index payload requirement), x));
     mret (match answer with
           | Answered r => Some r
           | RaisedValueError text => _verify_rejection text
           | RaisedOutage => None
           end))
    (λ _, mret None).

Definition _ensure_facilitator_health_state (x : Ext) : Ext :=
  let x := if bool_decide (length (facilitator_failures x) = server_count) then x
           else x <| facilitator_failures := replicate server_count 0 |> in
  if bool_decide (length (unhealthy_until x) = server_count) then x else x <| unhealthy_until := replicate server_count 0 |>.

(** [min(range(n), key=unhealthy_until.__getitem__)]: the first of the least *)
Fixpoint argmin (best : nat) (best_value : Z) (i : nat) (l : list Z) : nat :=
  match l with
  | [] => best
  | v :: l' => if v <? best_value then argmin i v (S i) l' else argmin best best_value (S i) l'
  end.

Definition available (now : Z) (x : Ext) : list nat :=
  match filter (λ i, default 0 (unhealthy_until x !! i) ≤ now) (seq 0 server_count) with
  | [] => match unhealthy_until x with v :: l => [argmin 0 v 1 l] | [] => [] end
  | l => l
  end.

Definition cooldown (failures : Z) : Z := seconds (Z.min (2 ^ (failures - 1) * 5) 300).

Definition mark_failed (index : nat) (now : Z) (x : Ext) : Ext :=
  let failures := default 0 (facilitator_failures x !! index) + 1 in
  x <| facilitator_failures ::= <[index := failures]> |> <| unhealthy_until ::= <[index := now + cooldown failures]> |>.

Definition mark_healthy (index : nat) (x : Ext) : Ext :=
  x <| facilitator_failures ::= <[index := 0]> |> <| unhealthy_until ::= <[index := 0]> |>.

Fixpoint try_facilitators (l : list nat) (payload : string) (requirement : Requirement) : Handler (option (nat * VerifyResponse)) :=
  match l with
  | [] => mret None
  | index :: l' =>
      r ← verify_with_facilitator index payload requirement;
      match r with
      | Some v => modify_ext (mark_healthy index);; mret (Some (index, v))
      | None => now ← datetime_now; modify_ext (mark_failed index now);; try_facilitators l' payload requirement
      end
  end.

(** [result.invalid_reason or result.invalid_message or ...], an absent text being empty *)
Definition failure_reason (v : VerifyResponse) : string :=
  if negb (is_empty (invalid_reason v)) then invalid_reason v
  else if negb (is_empty (invalid_message v)) then invalid_message v
  else "invalid signature or amount".

Definition refuse (msg : string) : Payment := MkPayment (billing_error msg) None 0 0.

Definition admit_payment (payment_header : string) (requirement : Requirement) (index : nat) (v : VerifyResponse) : Handler Payment :=
  claimed ← catch (b ← _claim_payment_nonce payment_header false; mret (Some b)) (λ _, mret None);
  mret (match claimed with
        | None => refuse "Payment verification temporarily unavailable. Retry shortly."
        | Some false => refuse "Payment already used. Sign a new payment authorization."
        | Some true =>
            MkPayment (billing_result <| verified := true |> <| scheme := if is_empty (req_scheme requirement) then "exact" else req_scheme requirement |>
                         <| payer := verified_payer v |>) (Some payment_header) (req_amount requirement) (Z.of_nat index)
        end).

Fixpoint verify_requirements (payment_header : string) (reqs : list Requirement) (last_error : string) : Handler Payment :=
  match reqs with
  | [] => mret (refuse last_error)
  | requirement :: reqs' =>
      now ← datetime_now;
      x ← get_ext;
      r ← try_facilitators (available now x) payment_header requirement;
      match r with
      | None => verify_requirements payment_header reqs' "Payment verification service unavailable"
      | Some (index, v) =>
          if is_valid v then admit_payment payment_header requirement index v
          else verify_requirements payment_header reqs' ("Payment verification failed: " +:+ failure_reason v)
      end
  end.

Definition verify_payment (payment_header : string) (reqs : list Requirement) : Handler Payment :=
  modify_ext _ensure_facilitator_health_state;;
  match reqs with
  | [] => mret (refuse "No payment requirements configured")
  | _ =>
      match parse_payment_payload payment_header with
      | None => mret (refuse "Malformed payment header")
      | Some _ => verify_requirements payment_header reqs "No payment requirements matched"
      end
  end.

(** ** The replay guard holds *)

Definition admitted (r : res Payment) : Prop := ∃ p, r = Ok p ∧ verified (admission p) = true.

Lemma refused_not_admitted msg : ¬ admitted (Ok (refuse msg)).
Proof. by intros (p & [= <-] & ?). Qed.

Lemma rg_weaken {A} R (P P' : Db → Ext → Prop) (m : Handler A) Q : rg R P m Q → (∀ d x, P' d x → P d x) → rg R P' m Q.
Proof. intros Hm HP. by eapply rg_mono. Qed.

Section guard.
Context (header : string) (h : string) (Hh : _payment_nonce_hash header = h) (Hpool : has_pool = true) (c : bool).
Abbreviation R := (keeps_claim h).
Abbreviation P := (claimed_if h c).

Lemma verify_with_rg index requirement : rg R P (verify_with_facilitator index header requirement) (λ r d x, P d x ∧ ∃ o, r = Ok o).
Proof.
  unfold verify_with_facilitator. eapply (rg_catch _ _ _ _ (λ _, P)).
  - eapply (rg_bind _ _ _ _ (λ _, P)); [|intros a; by apply rg_ret|done].
    by apply rg_external; [apply claimed_if_stable|].
  - intros e. apply rg_ret. eauto.
  - eauto.
Qed.

Lemma try_rg l requirement : rg R P (try_facilitators l header requirement) (λ r d x, P d x ∧ ∃ o, r = Ok o).
Proof.
  induction l as [|index l IH]; simpl; [apply rg_ret; eauto|].
  eapply rg_bind_pure; [apply verify_with_rg| |by intros e d x _ [o [=]]].
  intros [v|] _.
  - eapply (rg_bind _ _ _ _ (λ r d x, P d x ∧ r = Ok tt)); [by apply rg_modify_ext| |by intros e d x [_ [=]]].
    intros a. apply rg_ret. intros d x [? _]. eauto.
  - eapply (rg_bind _ _ _ _ (λ r d x, P d x ∧ ∃ t, r = Ok t)); [apply rg_datetime_now; eauto| |by intros e d x [_ [t [=]]]].
    intros now. eapply (rg_bind _ _ _ _ (λ r d x, P d x ∧ r = Ok tt)); [apply rg_modify_ext; by intros d x [? _]| |by intros e d x [_ [=]]].
    intros a. eapply rg_mono; [apply IH|by intros d x [? _]|done].
Qed.

Lemma nonce_claim_rg fail_closed : rg R P (_claim_payment_nonce header fail_closed) (λ r d _, guarded h c (r = Ok true) d).
Proof using Hh Hpool. clear ask server_count.
  unfold _claim_payment_nonce. rewrite Hpool, Hh. apply rg_stmt; [apply claimed_if_stable|].
  intros now d x Hd. unfold insert_nonce. split; [by (eapply guarded_lost; [exact Hd|])|].
  destruct (payment_nonces d !! h) as [row|] eqn:E; [split; by (eapply guarded_lost; [exact Hd|])|].
  assert (c = false) as Hc by (destruct c; [by destruct (Hd eq_refl); congruence|done]).
  rewrite Hc. split; (split; [intros _; cbn; rewrite lookup_insert_eq; eauto|naive_solver]).
Qed.

Lemma admit_rg requirement index v :
  rg R P (admit_payment header requirement index v) (λ r d _, guarded h c (admitted r) d).
Proof.
  unfold admit_payment.
  eapply (rg_bind _ _ _ _ (λ r d _, guarded h c (r = Ok (Some true)) d ∧ ∃ o, r = Ok o)).
  - eapply (rg_catch _ _ _ _ (λ r d _, guarded h c (r = Ok (Some true)) d)).
    + eapply (rg_bind _ _ _ _ (λ r d _, guarded h c (r = Ok true) d)); [apply nonce_claim_rg| |].
      * intros b. apply rg_ret. intros d x [H1 H2]. split; naive_solver.
      * intros e d x [H1 H2]. split; naive_solver.
    + intros e. apply rg_ret. intros d x [H1 H2]. split; [split; naive_solver|eauto].
    + eauto.
  - intros o. apply rg_ret. intros d x [[H1 H2] _].
    assert (admitted (Ok (match o with
        | None => refuse "Payment verification temporarily unavailable. Retry shortly."
        | Some false => refuse "Payment already used. Sign a new payment authorization."
        | Some true => MkPayment (billing_result <| verified := true |> <| scheme := if is_empty (req_scheme requirement) then "exact" else req_scheme requirement |>
                         <| payer := verified_payer v |>) (Some header) (req_amount requirement) (Z.of_nat index)
        end)) → o = Some true) as Ho.
    { destruct o as [[]|]; [done|by intros ?%refused_not_admitted..]. }
    split; [intros [?|?%Ho]; naive_solver|intros [? ?%Ho]; naive_solver].
  - by intros e d x [_ [o [=]]].
Qed.

Lemma refuse_rg msg : rg R P (mret (refuse msg)) (λ r d _, guarded h c (admitted r) d).
Proof. apply rg_ret. intros d x Hd. eapply guarded_lost; [exact Hd|apply refused_not_admitted]. Qed.

Lemma verify_requirements_rg reqs msg :
  rg R P (verify_requirements header reqs msg) (λ r d _, guarded h c (admitted r) d).
Proof.
  revert msg. induction reqs as [|requirement reqs IH]; intros msg; simpl; [apply refuse_rg|].
  eapply (rg_bind _ _ _ _ (λ r d x, P d x ∧ ∃ t, r = Ok t)); [apply rg_datetime_now; eauto| |by intros e d x [_ [t [=]]]].
  intros now. eapply (rg_bind _ _ _ _ (λ r d x, P d x ∧ ∃ t, r = Ok t)); [apply rg_get_ext; intros d x [? _]; eauto| |by intros e d x [_ [t [=]]]].
  intros x. eapply (rg_weaken _ P); [|by intros d x' [? _]].
  eapply rg_bind_pure; [apply try_rg| |by intros e d x' _ [o [=]]].
  intros [[index v]|] _; [|apply IH]. destruct (is_valid v); [apply admit_rg|apply IH].
Qed.

Lemma verify_payment_rg reqs :
  rg R P (verify_payment header reqs) (λ r d _, guarded h c (admitted r) d).
Proof.
  unfold verify_payment. eapply (rg_bind _ _ _ _ (λ r d x, P d x ∧ r = Ok tt)); [by apply rg_modify_ext| |by intros e d x [_ [=]]].
  intros a. eapply (rg_weaken _ P); [|by intros d x [? _]].
  destruct reqs as [|r reqs]; [apply refuse_rg|].
  destruct (parse_payment_payload header); [apply verify_requirements_rg|apply refuse_rg].
Qed.
End guard.
(** The header carries the authorization with this nonce, signed by this payer. *)
Definition signed_by (payer : string) (n : Z) (payment_header : string) : Prop :=
  ∃ p auth from nonce,
    parse_payment_payload payment_header = Some p ∧ authorization_of p = Some (JObj auth) ∧
    truthy_get auth "from" = Some from ∧ truthy_get auth "nonce" = Some nonce ∧
    py_lower (py_strip (py_str repr from)) = payer ∧ nonce_value nonce = Some n.

Definition claim_of (payer : string) (n : Z) : string :=
  sha256_hex (encode_ascii ("evm:" +:+ payer +:+ ":" +:+ pretty n)).

Lemma signed_by_claim payer n header : signed_by payer n header → _payment_nonce_hash header = claim_of payer n.
Proof.
  intros (p & auth & from & nonce & Hp & Ha & Hf & Hn & <- & Hv).
  unfold _payment_nonce_hash, payment_key. rewrite Hp. simpl. rewrite Ha, Hf, Hn. unfold evm_key. by rewrite Hv.
Qed.

(** Requests one after the other, counting those admitted *)
Definition admissions (l : list (string * list Requirement)) : Handler nat :=
  for_each l 0%nat (λ n a, p ← verify_payment a.1 a.2; mret (if verified (admission p) then S n else n)).


(** ** The payer's cap holds *)

(** CHECK (reserved_cost_usdc >= 0) *)
Definition nonce_rows_ok (d : Db) : Prop := ∀ h r, payment_nonces d !! h = Some r → 0 ≤ reserved_cost_usdc r.

(** What leaves the window never comes back. *)
Lemma rolling_spend_later now t payer d : nonce_rows_ok d → now ≤ t → rolling_spend t payer d ≤ rolling_spend now payer d.
Proof.
  intros Hd Ht. apply msum_le. intros h r Hr. specialize (Hd h r Hr).
  destruct (bool_decide _); cbn [andb]; [|done].
  destruct (t - hours 24 <=? claimed_at r) eqn:E1, (now - hours 24 <=? claimed_at r) eqn:E2; lia.
Qed.

Lemma rolling_spend_reserve now payer d h r p amount :
  payment_nonces d !! h = Some r → reserved_cost_usdc r = 0 → 0 ≤ amount →
  rolling_spend now payer (d <| payment_nonces ::= <[h := r <| payer_address := p |> <| reserved_cost_usdc := amount |>]> |>) ≤ rolling_spend now payer d + amount.
Proof.
  intros Hr H0 Ha. unfold rolling_spend. cbn. rewrite (msum_update _ _ _ r) by done. cbn.
  destruct (_ && _), (_ && _); lia.
Qed.

(** A reservation granted for a payment *)
Definition reserved_for (h payer : string) (amount limit : Z) (d d' : Db) : Prop :=
  ∃ now r, payment_nonces d !! h = Some r ∧ reserved_cost_usdc r = 0 ∧
    d' = d <| payment_nonces ::= <[h := r <| payer_address := payer |> <| reserved_cost_usdc := amount |>]> |> ∧
    ∀ t, now ≤ t → rolling_spend t payer d' ≤ limit.

Definition already_reserved (h payer : string) (amount : Z) (d : Db) : Prop :=
  ∃ r, payment_nonces d !! h = Some r ∧ reserved_cost_usdc r = amount ∧ py_lower (payer_address r) = payer.

(** A reservation is granted only for a claimed payment; what the payer has reserved over any
    24 hours ending now or later then stays within the limit, a repeated request is granted without
    being counted twice, and a refusal, an error of the store included, changes nothing. *)
Theorem payer_spend_within_cap header payer_address amount limit d x :
  nonce_rows_ok d →
  let h := _payment_nonce_hash header in
  let payer := py_lower (py_strip payer_address) in
  wps (reserve_payer_spend header payer_address amount limit)
    (λ r d' x', nonce_rows_ok d' ∧ ∃ granted, r = Ok granted ∧
       if granted then 0 ≤ amount ∧ payer ≠ "" ∧
         (d' = d ∧ (amount = 0 ∨ already_reserved h payer amount d) ∨ reserved_for h payer amount limit d d')
       else d' = d) d x.
Proof.
  intros Hd h payer. unfold reserve_payer_spend. fold payer h.
  set (Q := λ (r : res bool) (d' : Db) (x' : Ext), _).
  assert (Q (Ok false) d x) as Hno by (split; [done|by exists false]).
  destruct (is_empty payer || _ || _ || _) eqn:Eg; [by apply wps_ret|].
  assert (payer ≠ "") as Hp by (intros Hp; rewrite Hp in Eg; discriminate Eg).
  assert (0 ≤ amount) as Ha by (destruct (amount <? 0) eqn:E; [by rewrite orb_true_r in Eg|lia]).
  destruct (amount =? 0) eqn:E0.
  { apply wps_ret. split; [done|]. exists true. split_and!; [done..|]. left. split; [done|left; lia]. }
  apply wps_catch, wps_transaction; [by apply wps_ret|]. intros now.
  repeat tx_step; try (by apply wps_ret); try done.
  - split; [done|]. eexists. split; [done|]. case_bool_decide as Hpa; [|done]. cbn [andb].
    destruct (reserved_cost_usdc n =? amount) eqn:Er; [|done]. split_and!; [done..|].
    left. split; [done|]. right. exists n. split_and!; [done|lia|done].
  - pose proof (Hd h n ltac:(done)). unfold set_reservation.
    assert (payment_nonces d !! h = Some n) as Hn by done. rewrite Hn.
    assert (reserved_cost_usdc n = 0) as Hz by lia. rewrite Hz. cbn [Z.eqb].
    destruct (is_bigint amount); [|by apply wps_ret]. cbn [negb].
    split; [|by apply wps_ret].
    split. { intros h' r'. cbn. rewrite lookup_insert_Some. intros [[<- <-]|[? ?]]; [done|by eapply Hd]. }
    exists true. split_and!; [done..|]. right. exists now, n. split_and!; [done..|].
    intros t Ht. etrans; [eapply rolling_spend_later; [|exact Ht]|].
    { intros h' r'. cbn. rewrite lookup_insert_Some. intros [[<- <-]|[? ?]]; [done|by eapply Hd]. }
    etrans; [by apply rolling_spend_reserve|]. lia.
Qed.
End x402.

(** ** Two headers of one authorization, and a payer near the cap *)
Module X402Demo.
Definition auth (from nonce : string) : list (string * json) :=
  [("authorization", JObj [("from", JStr from); ("nonce", JStr nonce); ("value", JStr "10000")])].

(** The second repackages the first: other case, other digits. *)
Definition parse (header : string) : option Parsed :=
  if bool_decide (header = "first") then Some (MkParsed (auth "0xAbC1" "0x2A") "{}")
  else if bool_decide (header = "second") then Some (MkParsed (auth " 0xabc1 " "42") "{}")
  else None.

(** Facilitator 0 is down, facilitator 1 rejects with a body, facilitator 2 accepts. *)
Definition ask (now : Z) (index : nat) (payload : string) (r : Requirement) : verify_call :=
  match index with
  | O => RaisedOutage
  | 1%nat => if bool_decide (payload = "second") then RaisedValueError "Facilitator verify failed (400): rejected" else RaisedOutage
  | _ => Answered (MkVerify true "" "" "0xabc1")
  end.

Definition repr (j : json) : string := "".
Definition parse_verify (body : text) : option VerifyResponse :=
  if bool_decide (body = chars "rejected") then Some (MkVerify false "" "nonce used" "") else None.

Definition exact : Requirement := MkRequirement "exact" 10000.
Definition w0 : World Db Ext := initial_world empty_db (seconds 1000) [].
Definition health (x : Ext) : list Z * list Z := (facilitator_failures x, unhealthy_until x).

Definition verify (header : string) : World Db Ext → res Payment * World Db Ext :=
  verify_payment parse repr parse_verify ask 3 true header [exact].

Definition presented : list (string * list Requirement) := [("first", [exact]); ("second", [exact]); ("first", [exact])].

(** Two facilitators fail and cool down for five seconds; the third admits the payment. *)
Example failover : let '(r, w) := verify "first" w0 in
  (admission <$> r) = Ok (billing_result <| verified := true |> <| scheme := "exact" |> <| payer := "0xabc1" |>) ∧
  health (ext w) = ([1; 1; 0], [seconds 1005; seconds 1005; 0]).
Proof. split; vm_compute; reflexivity. Qed.

(** A rejection is an answer: the other facilitators are not asked. *)
Example rejection_is_final : let '(r, w) := verify "second" (w0 <| ext := empty_ext <| facilitator_failures := [1; 0; 0] |> <| unhealthy_until := [seconds 1005; 0; 0] |> |>) in
  ((λ p, error (admission p)) <$> r) = Ok "Payment verification failed: nonce used".
Proof. vm_compute. reflexivity. Qed.

Example presented_three_times : (admissions parse repr parse_verify ask 3 true presented w0).1 = Ok 1%nat.
Proof. vm_compute. reflexivity. Qed.


(** Seven cents were reserved an hour ago, two claims wait for their reservation. *)
Definition claims : Db := empty_db <| payment_nonces :=
  {[ "h0" := MkNonce "0xabc1" 70000 0; claim_of "0xabc1" 42 := MkNonce "" 0 (hours 1) ]} |>.

Example over_the_cap_refused :
  (reserve_payer_spend parse repr true "first" " 0xABC1" 30001 100000 (w0 <| db := claims |> <| clock := hours 1 |>)).1 = Ok false ∧
  (reserve_payer_spend parse repr true "first" " 0xABC1" 30000 100000 (w0 <| db := claims |> <| clock := hours 1 |>)).1 = Ok true.
Proof. split; vm_compute; reflexivity. Qed.

Lemma claims_ok : nonce_rows_ok claims.
Proof.
  intros h r Hr. change (payment_nonces claims) with ({[ "h0" := MkNonce "0xabc1" 70000 0; claim_of "0xabc1" 42 := MkNonce "" 0 (hours 1) ]} : gmap string NonceRow) in Hr.
  apply lookup_insert_Some in Hr as [[_ <-]|[_ Hr]]; [done|].
  apply lookup_singleton_Some in Hr as [_ <-]. done.
Qed.

Lemma payer_spend_within_cap_witness :
  wps (reserve_payer_spend parse repr true "first" " 0xABC1" 30000 100000)
    (λ r d' x', nonce_rows_ok d' ∧ ∃ granted, r = Ok granted ∧
       if granted then 0 ≤ 30000 ∧ py_lower (py_strip " 0xABC1") ≠ "" ∧
         (d' = claims ∧ (30000 = 0 ∨ already_reserved (_payment_nonce_hash parse repr "first") (py_lower (py_strip " 0xABC1")) 30000 claims)
          ∨ reserved_for (_payment_nonce_hash parse repr "first") (py_lower (py_strip " 0xABC1")) 30000 100000 claims d')
       else d' = claims) claims (ext w0).
Proof. apply (payer_spend_within_cap parse repr true "first" " 0xABC1" 30000 100000 claims (ext w0)). exact claims_ok. Defined.
End X402Demo.
