(* ===== verification/Mpp.v ===== *)
(** * On-chain payments presented after the fact (billing/mpp.py)

    A caller of the MCP gateway may pay a tool by an ERC-20 transfer it has
    already made: the server mints a challenge bound by an HMAC to the price, the
    recipient and an expiry; the credential names the transaction; and
    [verify_mpp_payment] claims the transaction hash, then looks for the transfer
    in its receipt, mined no earlier than the challenge was issued.

    The JSON-RPC node, [json.loads] of a base64url text and the parsing of ISO
    8601 are parameters; the HMAC is computed.

    The theorems: a transfer pays for at most one call; what is accepted is the
    transfer the challenge asks for; and a claim is never old enough for the
    daily clean-up while its transfer could still be presented. *)

From S2P Require Export X402 Datetime.

(** ** The encodings of Python's standard library *)

(** A string as UTF-8, for code points below 256 *)
Definition utf8_char (c : Ascii.ascii) : bytes :=
  let n := byte_val c in
  if n <? 128 then [c] else [byte_of (192 + n / 64); byte_of (128 + n mod 64)].
Definition utf8 (s : string) : bytes := String.list_ascii_of_string s ≫= utf8_char.

Definition xor_bytes (a b : bytes) : bytes := zip_with (λ x y, byte_of (Z.lxor (byte_val x) (byte_val y))) a b.

(** [hmac.new(key, message, hashlib.sha256).digest()] *)
Definition hmac_sha256 (key message : bytes) : bytes :=
  let key := if (64 <? length key)%nat then sha256 key else key in
  let key := key ++ replicate (64 - length key) (byte_of 0) in
  sha256 (xor_bytes key (replicate 64 (byte_of 92)) ++ sha256 (xor_bytes key (replicate 64 (byte_of 54)) ++ message)).

Definition b64url_digit (n : Z) : Ascii.ascii :=
  byte_of (if n <? 26 then 65 + n else if n <? 52 then 71 + n else if n <? 62 then n - 4 else if n =? 62 then 45 else 95).

(** [base64.urlsafe_b64encode(raw).rstrip(b"=")] *)
Fixpoint b64url (l : bytes) : list Ascii.ascii :=
  match l with
  | a :: b :: c :: l' =>
      let n := byte_val a * 65536 + byte_val b * 256 + byte_val c in
      b64url_digit (n / 262144) :: b64url_digit (n / 4096 mod 64) :: b64url_digit (n / 64 mod 64) :: b64url_digit (n mod 64) :: b64url l'
  | [a; b] =>
      let n := byte_val a * 1024 + byte_val b * 4 in
      [b64url_digit (n / 4096); b64url_digit (n / 64 mod 64); b64url_digit (n mod 64)]
  | [a] => [b64url_digit (byte_val a / 4); b64url_digit (byte_val a mod 4 * 16)]
  | [] => []
  end.
Definition _b64url (raw : bytes) : string := String.string_of_list_ascii (b64url raw).

Example b64url_ex : _b64url (encode_ascii "any carnal pleas~?") = "YW55IGNhcm5hbCBwbGVhc34_" ∧ _b64url (encode_ascii "su") = "c3U".
Proof. split; vm_compute; reflexivity. Qed.

(** RFC 4231, case 2 *)
Example hmac_ex : hex (hmac_sha256 (encode_ascii "Jefe") (encode_ascii "what do ya want for nothing?"))
  = "5bdcc146bf60754e6a042426089575c75a003f089d2739839dec58b964ec3843".
Proof. vm_compute. reflexivity. Qed.

(** [json.dumps(..., sort_keys=True, separators=(",", ":"), ensure_ascii=False)] in UTF-8 *)
Definition escape_utf8 (c : Ascii.ascii) : text :=
  let n := byte_val c in if (n <? 32) || (n =? 34) || (n =? 92) then escape c else utf8_char c.
Definition jcs_string (s : string) : text := quote :: (String.list_ascii_of_string s ≫= escape_utf8) ++ [quote].

Section jcs.
Context (float_repr : Z → positive → string).
Fixpoint _jcs (j : json) : text :=
  match j with
  | JStr s => jcs_string s
  | JArr l => "["%char :: Canonical.join ","%char (map _jcs l) ++ ["]"%char]
  | JObj kvs =>
      "{"%char :: Canonical.join ","%char (map (λ kv, jcs_string kv.1 ++ ":"%char :: kv.2) (order_by key_leb (map (λ kv, (kv.1, _jcs kv.2)) kvs))) ++ ["}"%char]
  | _ => dumps float_repr j
  end.
End jcs.

(** [strftime("%Y-%m-%dT%H:%M:%SZ")] of a UTC instant *)
Definition _iso (t : Z) : string :=
  let c := date_of t in
  let s := time_of_day t / 1000000 in
  String.string_of_list_ascii
    (digits 4 (year c) ++ ["-"%char] ++ digits 2 (month c) ++ ["-"%char] ++ digits 2 (day c) ++ ["T"%char]
     ++ digits 2 (s / 3600) ++ [":"%char] ++ digits 2 (s / 60 mod 60) ++ [":"%char] ++ digits 2 (s mod 60) ++ ["Z"%char]).

Example iso_ex : _iso 1709210096999999 = "2024-02-29T12:34:56Z".
Proof. vm_compute. reflexivity. Qed.

(** ** Settings and results *)
Record MppSettings := MkMppSettings {
  mpp_recipient : string;
  mpp_currency : string;
  mpp_secret_key : string;
  mpp_challenge_ttl_seconds : Z;
  x402_network : string;
  app_host : string;
}.

Definition MPP_METHOD : string := "evm".
Definition MPP_INTENT : string := "charge".
Definition _ISSUE_SKEW_SECONDS : Z := 60.
Definition _PERMIT2_ADDRESS : string := "0x000000000022D473030F116dDEE9F6B43aC78BA3".
Definition _ERC20_TRANSFER_TOPIC0 : string := "0xddf252ad1be2c89b69c2b068fc378daa952ba7f163c4a11628f55a4df523b3ef".

Record ParsedMppCredential := MkParsedMpp { mpp_tx_hash : string; mpp_payer : string; mpp_challenge_id : string; mpp_issued_at : Z }.

(** [NonAsciiId] is the TypeError of [hmac.compare_digest] on text that is not ASCII. *)
Inductive mpp_rejection := Malformed (message : string) | VerifyFailed (message : string) | NonAsciiId.

Inductive mpp_outcome :=
  | MppOk (tx_hash source challenge_id : string)
  | MppMalformed (message : string)
  | MppFailed (message : string)
  | MppUnavailable (message : string).

(** A JSON-RPC call: its result, or [MppRpcError] *)
Inductive rpc_answer := RpcResult (j : json) | RpcError.

Section mpp.
Context (settings : MppSettings) (repr : json → string) (float_repr : Z → positive → string).
Context (loads_b64url : string → option json) (fromisoformat : string → option Z).
Context (eth_get_receipt : Z → string → rpc_answer) (eth_get_block : Z → string → rpc_answer).
Context (parse_payment_payload : string → option Parsed) (has_pool : bool).

Definition is_hex_digit (c : Ascii.ascii) : bool := bool_decide (is_Some (hex_value c)).

(** [re.fullmatch(r"0x[0-9a-fA-F]{n}", s)] *)
Definition hex_match (n : nat) (s : string) : bool :=
  match String.list_ascii_of_string s with
  | "0"%char :: "x"%char :: l => (length l =? n)%nat && forallb is_hex_digit l
  | _ => false
  end.

(** [s.partition(":")]; [None] without a separator *)
Fixpoint partition_colon (acc l : list Ascii.ascii) : option (string * list Ascii.ascii) :=
  match l with
  | [] => None
  | c :: l' => if bool_decide (c = ":"%char) then Some (String.string_of_list_ascii (rev acc), l') else partition_colon (c :: acc) l'
  end.

Definition mpp_chain_id : option Z :=
  '(prefix, reference) ← partition_colon [] (String.list_ascii_of_string (x402_network settings));
  if bool_decide (prefix = "eip155") && negb (bool_decide (reference = [])) && forallb (λ c, bool_decide (is_Some (digit_value c))) reference
  then digits_from 0 false reference else None.

Definition mpp_nonce_key (tx_hash : string) : string := "mpp:" +:+ py_lower (py_strip tx_hash).

Definition _encode_field (value : json) : string := _b64url (_jcs float_repr value).

Definition _decode_field (value : option json) : option (list (string * json)) :=
  match value with
  | Some (JObj kvs) => Some kvs
  | Some (JStr s) =>
      if is_empty s then None else match loads_b64url s with Some (JObj kvs) => Some kvs | _ => None end
  | _ => None
  end.

Definition _challenge_id (realm method intent : string) (request : list (string * json)) (expires : string) (opaque : list (string * json)) : string :=
  let message := Canonical.join "|"%char [utf8 realm; utf8 method; utf8 intent; utf8 (_encode_field (JObj request)); utf8 expires; []; utf8 (_encode_field (JObj opaque))] in
  _b64url (hmac_sha256 (utf8 (mpp_secret_key settings)) message).

Definition chain_json : json := match mpp_chain_id with Some n => JInt n | None => JNull end.

(** The terms of a challenge for a price *)
Definition mpp_request (tool_cost_usdc : Z) : list (string * json) :=
  [("amount", JStr (pretty tool_cost_usdc));
   ("currency", JStr (py_strip (mpp_currency settings)));
   ("recipient", JStr (py_strip (mpp_recipient settings)));
   ("methodDetails", JObj [("chainId", chain_json); ("credentialTypes", JArr [JStr "hash"]); ("decimals", JInt 6);
                           ("permit2Address", JStr _PERMIT2_ADDRESS)])].

Definition build_mpp_challenge (tool_cost_usdc now : Z) (nonce : string) : list (string * json) :=
  let request := mpp_request tool_cost_usdc in
  let opaque := [("iat", JInt (now / microsecond_per_second)); ("nonce", JStr nonce)] in
  let expires := _iso (now + seconds (mpp_challenge_ttl_seconds settings)) in
  [("realm", JStr (app_host settings)); ("method", JStr MPP_METHOD); ("intent", JStr MPP_INTENT); ("request", JObj request);
   ("expires", JStr expires); ("opaque", JObj opaque);
   ("id", JStr (_challenge_id (app_host settings) MPP_METHOD MPP_INTENT request expires opaque))].

(** [str(d.get(key, ""))] *)
Definition str_get (kvs : list (string * json)) (key : string) : string :=
  match dict_get kvs key with Some v => py_str repr v | None => "" end.

Definition chain_matches (value : option json) : bool :=
  match value, mpp_chain_id with
  | (None | Some JNull), None => true
  | Some (JInt z), Some n => z =? n
  | Some (JFloat z d), Some n => z =? n * Zpos d
  | Some (JBool b), Some n => (if b then 1 else 0) =? n
  | _, _ => false
  end.

Definition zulu (c : Ascii.ascii) : list Ascii.ascii := if bool_decide (c = "Z"%char) then encode_ascii "+00:00" else [c].

Definition _parse_iso (value : string) : option Z :=
  if is_empty value then None else fromisoformat (String.string_of_list_ascii (String.list_ascii_of_string value ≫= zulu)).

(** [source] as [0x...] or [did:pkh:eip155:<chainId>:0x...] *)
Fixpoint split_colon (acc l : list Ascii.ascii) : list string :=
  match l with
  | [] => [String.string_of_list_ascii (rev acc)]
  | c :: l' => if bool_decide (c = ":"%char) then String.string_of_list_ascii (rev acc) :: split_colon [] l' else split_colon (c :: acc) l'
  end.

Definition chain_text : string := match mpp_chain_id with Some n => pretty n | None => "None" end.

Definition address_of (value : string) : option string := if hex_match 40 value then Some (py_lower value) else None.

Definition _source_address (source : string) : option string :=
  let value := py_strip source in
  if String.prefix "did:pkh:eip155:" (py_lower value) then
    match split_colon [] (String.list_ascii_of_string value) with
    | [_; _; _; chain; address] => if bool_decide (chain = chain_text) then address_of address else None
    | _ => None
    end
  else address_of value.

(** The fields of a challenge, if they have the right types *)
Record ChallengeFields := MkChallengeFields {
  cf_id : string; cf_realm : string; cf_method : string; cf_intent : string; cf_expires : string;
  cf_request : list (string * json); cf_opaque : list (string * json);
}.

Definition challenge_fields (challenge : list (string * json)) : option ChallengeFields :=
  request ← _decode_field (dict_get challenge "request");
  opaque ← _decode_field (dict_get challenge "opaque");
  match dict_get challenge "id", dict_get challenge "realm", dict_get challenge "method", dict_get challenge "intent", dict_get challenge "expires" with
  | Some (JStr id), Some (JStr realm), Some (JStr method), Some (JStr intent), Some (JStr expires) =>
      Some (MkChallengeFields id realm method intent expires request opaque)
  | _, _, _, _, _ => None
  end.

Definition only_hash : string :=
  let q := String.string_of_list_ascii [quote] in
  "Only type=" +:+ q +:+ "hash" +:+ q +:+ " credentials with a 0x transaction hash are accepted.".

(** The transaction of a credential: its structure before any check of the challenge *)
Definition credential_parts (credential : json) : mpp_rejection + (list (string * json) * string * string) :=
  match credential with
  | JObj kvs =>
      match dict_get kvs "challenge", dict_get kvs "payload", dict_get kvs "source" with
      | Some (JObj challenge), Some (JObj payload), Some (JStr source) =>
          if is_empty (py_strip source) then inl (Malformed "Credential missing challenge, payload, or source.")
          else
            match dict_get payload "type", dict_get payload "hash" with
            | Some (JStr "hash"), Some (JStr tx_hash) =>
                if hex_match 64 tx_hash then inr (challenge, tx_hash, source)
                else inl (Malformed only_hash)
            | _, _ => inl (Malformed only_hash)
            end
      | _, _, _ => inl (Malformed "Credential missing challenge, payload, or source.")
      end
  | _ => inl (Malformed "Credential must be an object.")
  end.

(** Binding and terms of a challenge; [inr] its issue time *)
Definition check_challenge (f : ChallengeFields) (tool_cost_usdc now : Z) : mpp_rejection + Z :=
  if negb (forallb (λ c, byte_val c <? 128) (String.list_ascii_of_string (cf_id f))) then inl NonAsciiId
  else if negb (bool_decide (cf_id f = _challenge_id (cf_realm f) (cf_method f) (cf_intent f) (cf_request f) (cf_expires f) (cf_opaque f)))
  then inl (VerifyFailed "Challenge was not issued by this server.")
  else if negb (bool_decide (cf_method f = MPP_METHOD) && bool_decide (cf_intent f = MPP_INTENT) && bool_decide (cf_realm f = app_host settings))
  then inl (VerifyFailed "Unsupported challenge realm, method, or intent.")
  else if negb (bool_decide (str_get (cf_request f) "amount" = pretty tool_cost_usdc))
  then inl (VerifyFailed "Challenge amount does not match the tool price.")
  else if negb (bool_decide (py_lower (str_get (cf_request f) "currency") = py_lower (py_strip (mpp_currency settings))))
  then inl (VerifyFailed "Challenge currency does not match.")
  else if negb (bool_decide (py_lower (str_get (cf_request f) "recipient") = py_lower (py_strip (mpp_recipient settings))))
  then inl (VerifyFailed "Challenge recipient does not match.")
  else if negb (match dict_get (cf_request f) "methodDetails" with Some (JObj details) => chain_matches (dict_get details "chainId") | _ => false end)
  then inl (VerifyFailed "Challenge chain does not match.")
  else
    match _parse_iso (cf_expires f), dict_get (cf_opaque f) "iat" with
    | Some expires, Some (JInt issued_at) =>
        if expires <=? now then inl (VerifyFailed "Challenge expired.")
        else if now + seconds (mpp_challenge_ttl_seconds settings + 60) <? expires then inl (VerifyFailed "Challenge expiry is too far in the future.")
        else inr issued_at
    | _, _ => inl (VerifyFailed "Challenge expiry or issue time is invalid.")
    end.

Definition validate_mpp_credential (credential : json) (tool_cost_usdc now : Z) : mpp_rejection + ParsedMppCredential :=
  match credential_parts credential with
  | inl e => inl e
  | inr (challenge, tx_hash, source) =>
      match challenge_fields challenge with
      | None => inl (Malformed "Challenge is missing required fields.")
      | Some f =>
          match check_challenge f tool_cost_usdc now with
          | inl e => inl e
          | inr issued_at =>
              match _source_address source with
              | None => inl (Malformed ("source must be a 0x address or did:pkh:eip155:" +:+ chain_text +:+ ":<address>."))
              | Some payer => inr (MkParsedMpp (py_lower tx_hash) payer (cf_id f) issued_at)
              end
          end
      end
  end.

(** ** The transfer in a receipt *)
Definition _topic_address (address : string) : string :=
  let s := py_lower address in
  let body := match String.list_ascii_of_string s with "0"%char :: "x"%char :: l => l | l => l end in
  "0x" +:+ String.string_of_list_ascii (replicate (64 - length body) "0"%char ++ body).

Definition log_matches (currency recipient payer : string) (amount : Z) (log : json) : bool :=
  match log with
  | JObj kvs =>
      match dict_get kvs "topics" with
      | Some (JArr (t0 :: t1 :: t2 :: _)) =>
          bool_decide (py_lower (str_get kvs "address") = py_lower currency) &&
          bool_decide (py_lower (py_str repr t0) = _ERC20_TRANSFER_TOPIC0) &&
          bool_decide (py_lower (py_str repr t1) = _topic_address payer) &&
          bool_decide (py_lower (py_str repr t2) = _topic_address recipient) &&
          match int16 (match dict_get kvs "data" with Some v => py_str repr v | None => "0x0" end) with
          | Ok value => value =? amount
          | Raise _ => false
          end
      | _ => false
      end
  | _ => false
  end.

Definition receipt_matches (receipt : json) (currency recipient payer : string) (amount : Z) : bool :=
  match receipt with
  | JObj kvs =>
      let status := py_lower (str_get kvs "status") in
      (bool_decide (status = "0x1") || bool_decide (status = "1")) &&
      match dict_get kvs "logs" with Some (JArr logs) => existsb (log_matches currency recipient payer amount) logs | _ => false end
  | _ => false
  end.

(** The timestamp in the answer to [eth_getBlockByNumber]; [None] is [MppRpcError]. *)
Definition block_timestamp (answer : rpc_answer) : option Z :=
  match answer with
  | RpcResult (JObj kvs) =>
      v ← dict_get kvs "timestamp"; match int16 (py_str repr v) with Ok z => Some z | Raise _ => None end
  | _ => None
  end.

Definition _eth_call (call : Z → rpc_answer) : Handler (option json) :=
  catch (a ← external (λ now x, (Ok (call now), x)); mret (match a with RpcResult j => Some j | RpcError => None end)) (λ _, mret None).

Definition _eth_block_timestamp (block_number : option json) : Handler (option Z) :=
  match block_number with
  | Some (JStr n) =>
      if String.prefix "0x" n then
        r ← _eth_call (λ now, eth_get_block now n);
        mret (j ← r; block_timestamp (RpcResult j))
      else mret None
  | _ => mret None
  end.

Definition _release (nonce_key : string) : Handler unit :=
  catch (release_payment_nonce parse_payment_payload repr has_pool nonce_key) (λ _, mret tt).

Definition unavailable : mpp_outcome := MppUnavailable "Payment verification is temporarily unavailable.".

(** The receipt is looked up under the claim; [inl] releases it. *)
Definition check_transfer (p : ParsedMppCredential) (tool_cost_usdc : Z) : Handler (mpp_outcome + mpp_outcome) :=
  answer ← _eth_call (λ now, eth_get_receipt now (mpp_tx_hash p));
  match answer with
  | None => mret (inl unavailable)
  | Some (JObj receipt) =>
      if negb (receipt_matches (JObj receipt) (mpp_currency settings) (mpp_recipient settings) (mpp_payer p) tool_cost_usdc)
      then mret (inl (MppFailed "On-chain transfer does not match the challenge or source."))
      else
        mined ← _eth_block_timestamp (dict_get receipt "blockNumber");
        mret (match mined with
              | None => inl unavailable
              | Some mined_at =>
                  if mined_at <? mpp_issued_at p - _ISSUE_SKEW_SECONDS
                  then inl (MppFailed "Transfer predates the challenge; pay after receiving a challenge.")
                  else inr (MppOk (mpp_tx_hash p) (mpp_payer p) (mpp_challenge_id p))
              end)
  | Some _ => mret (inl (MppFailed "Transaction not found or not yet confirmed; retry before the challenge expires."))
  end.

Definition verify_mpp_payment (credential : json) (tool_cost_usdc : Z) : Handler mpp_outcome :=
  now ← datetime_now;
  match validate_mpp_credential credential tool_cost_usdc now with
  | inl (Malformed m) => mret (MppMalformed m)
  | inl (VerifyFailed m) => mret (MppFailed m)
  | inl NonAsciiId => raise (TypeError "comparing strings with non-ASCII characters is not supported")
  | inr p =>
      let nonce_key := mpp_nonce_key (mpp_tx_hash p) in
      claimed ← catch (b ← _claim_payment_nonce parse_payment_payload repr has_pool nonce_key true; mret (Some b)) (λ _, mret None);
      match claimed with
      | None => mret unavailable
      | Some false => mret (MppFailed "Credential already used.")
      | Some true =>
          r ← check_transfer p tool_cost_usdc;
          match r with
          | inl outcome => _release nonce_key;; mret outcome
          | inr outcome => mret outcome
          end
      end
  end.

(** ** A transfer pays once *)

Definition pays_with (tx : string) (credential : json) : Prop :=
  ∀ challenge h source, credential_parts credential = inr (challenge, h, source) → py_lower h = tx.

Lemma validate_tx credential cost now p tx :
  pays_with tx credential → validate_mpp_credential credential cost now = inr p → mpp_tx_hash p = tx.
Proof.
  unfold validate_mpp_credential. intros Hp. destruct (credential_parts credential) as [e|[[ch h] src]] eqn:E; [done|].
  destruct (challenge_fields ch); [|done]. destruct (check_challenge _ _ _); [done|].
  destruct (_source_address src); [|done]. intros [= <-]. by eapply Hp.
Qed.

Definition accepted (r : res mpp_outcome) : Prop := ∃ tx s c, r = Ok (MppOk tx s c).

Section transfer.
Context (tx : string) (c : bool).
Abbreviation key := (mpp_nonce_key tx).
Abbreviation h := (_payment_nonce_hash parse_payment_payload repr key).
Abbreviation R := (keeps_claim h).

Lemma eth_call_rg P call : stable R P → rg R P (_eth_call call) (λ r d x, P d x ∧ ∃ o, r = Ok o).
Proof.
  intros HP. unfold _eth_call. eapply (rg_catch _ _ _ _ (λ r d x, P d x)); [|intros e; apply rg_ret; eauto|eauto].
  eapply (rg_bind _ _ _ _ (λ r d x, P d x)); [by apply rg_external|intros a; by apply rg_ret|done].
Qed.

Lemma block_timestamp_rg P n : stable R P → rg R P (_eth_block_timestamp n) (λ r d x, P d x ∧ ∃ o, r = Ok o).
Proof.
  intros HP. unfold _eth_block_timestamp. destruct n as [[]|]; try (apply rg_ret; by eauto).
  destruct (String.prefix _ _); [|apply rg_ret; by eauto].
  eapply rg_bind_pure; [by apply eth_call_rg| |by intros e d x _ [o [=]]]. intros a _. apply rg_ret. eauto.
Qed.

Definition only_inr_ok (o : mpp_outcome + mpp_outcome) : Prop := ∀ t s i, o ≠ inl (MppOk t s i).

Lemma check_transfer_rg P p cost :
  stable R P → rg R P (check_transfer p cost) (λ r d x, P d x ∧ ∃ o, r = Ok o ∧ only_inr_ok o).
Proof.
  intros HP. unfold check_transfer.
  assert (∀ m, (∀ t s i, m ≠ MppOk t s i) →
    rg R P (mret (inl m)) (λ r d x, P d x ∧ ∃ o : mpp_outcome + mpp_outcome, r = Ok o ∧ only_inr_ok o)) as Hrej.
  { intros m Hm. apply rg_ret. intros d x Hd. split; [done|]. eexists. split; [done|]. intros t s i [=]. by eapply Hm. }
  eapply rg_bind_pure; [by apply eth_call_rg| |by intros e d x _ [o [=]]].
  intros [[]|] _; try by apply Hrej. destruct (negb _); [by apply Hrej|].
  eapply rg_bind_pure; [by apply block_timestamp_rg| |by intros e d x _ [o [=]]]. intros a _. apply rg_ret.
  intros d x Hd. split; [done|]. eexists. split; [done|]. intros t s i. by repeat case_match.
Qed.

Lemma claim_tx_rg :
  rg R (claimed_if h c) (catch (b ← _claim_payment_nonce parse_payment_payload repr has_pool key true; mret (Some b)) (λ _, mret None))
    (λ r d _, guarded h c (r = Ok (Some true)) d ∧ ∃ o, r = Ok o).
Proof.
  destruct has_pool eqn:Hpool.
  - eapply (rg_catch _ _ _ _ (λ r d _, guarded h c (r = Ok (Some true)) d)).
    + eapply (rg_bind _ _ _ _ (λ r d _, guarded h c (r = Ok true) d)); [by apply (nonce_claim_rg _ _ true key)| |].
      * intros b. apply rg_ret. intros d x [H1 H2]. split; naive_solver.
      * intros e d x [H1 H2]. split; naive_solver.
    + intros e. apply rg_ret. intros d x [H1 H2]. split; [split; naive_solver|eauto].
    + eauto.
  - eapply (rg_catch _ _ _ _ (λ r d x, claimed_if h c d x ∧ ∃ e, r = Raise e)); [| |by intros a d x [_ [e [=]]]].
    + eapply (rg_bind _ _ _ _ (λ r d x, claimed_if h c d x ∧ ∃ e, r = Raise e)); [apply rg_raise; eauto| |by intros e d x [? _]; eauto].
      intros b. apply rg_ret. by intros d x [_ [e [=]]].
    + intros e. apply rg_ret. intros d x [Hd _]. split; [by (eapply guarded_lost; [exact Hd|])|eauto].
Qed.

Lemma verify_mpp_rg credential cost :
  pays_with tx credential →
  rg R (claimed_if h c) (verify_mpp_payment credential cost) (λ r d _, guarded h c (accepted r) d).
Proof.
  intros Htx. unfold verify_mpp_payment.
  assert (∀ P o, (∀ tx s i, o ≠ MppOk tx s i) → (∀ d x, P d x → claimed_if h c d x) →
    rg R P (mret o : Handler mpp_outcome) (λ r d _, guarded h c (accepted r) d)) as Hrefuse.
  { intros P o Ho HP. apply rg_ret. intros d x Hd. eapply guarded_lost; [by apply HP|].
    intros (t & s & i & [= ->]). by eapply Ho. }
  eapply (rg_bind _ _ _ _ (λ r d x, claimed_if h c d x ∧ ∃ t, r = Ok t)); [apply rg_datetime_now; eauto| |by intros e d x [_ [t [=]]]].
  intros now. eapply (rg_weaken _ (claimed_if h c)); [|by intros d x [? _]].
  destruct (validate_mpp_credential credential cost now) as [[]|p] eqn:Ev; [by apply Hrefuse..| |].
  { apply rg_raise. intros d x Hd. eapply guarded_lost; [exact Hd|by intros (t & s & i & [=])]. }
  rewrite (validate_tx _ _ _ _ _ Htx Ev).
  eapply rg_bind; [apply claim_tx_rg| |by intros e d x [_ [o [=]]]].
  intros [[]|].
  - eapply (rg_pure _ _ (c = false)); [intros d x [[_ Hn] _]; destruct c; [by destruct Hn|done]|]. intros Hc.
    eapply (rg_weaken _ (claimed_if h true)); [|intros d x [[Hw _] _] _; apply Hw; by right].
    eapply rg_bind_pure; [apply check_transfer_rg, claimed_if_stable| |by intros e d x _ (o & [=] & _)].
    assert (∀ r d, ¬ accepted r → guarded h c (accepted r) d) as Hlost by (intros r d Hr; rewrite Hc; split; [by intros [[=]|?]|by intros [[=] _]]).
    intros [o|o] (o' & [= <-] & Ho).
    + eapply (rg_bind _ _ _ _ (λ _ _ _, True)).
      * unfold _release. eapply (rg_catch _ _ _ _ (λ _ _ _, True)); [|intros e; by apply rg_ret|done].
        unfold release_payment_nonce. destruct has_pool; [|by apply rg_ret]. apply rg_stmt; [apply claimed_if_stable|done].
      * intros u. apply rg_ret. intros d x _. apply Hlost. intros (t & s & i & [= ->]). by eapply Ho.
      * intros e d x _. apply Hlost. by intros (t & s & i & [=]).
    + apply rg_ret. intros d x Hd. rewrite Hc. split; [intros _; by apply Hd|by intros [[=] _]].
  - apply Hrefuse; [done|]. intros d x [[Hw _] _] Hcc. apply Hw. by left.
  - apply Hrefuse; [done|]. intros d x [[Hw _] _] Hcc. apply Hw. by left.
Qed.
End transfer.

(** Credentials one after the other, each with the price of its call, counting those accepted *)
Definition acceptances (l : list (json * Z)) : Handler nat :=
  for_each l 0%nat (λ n a, o ← verify_mpp_payment a.1 a.2; mret (match o with MppOk _ _ _ => S n | _ => n end)).


(** ** What is accepted was paid *)

(** The node showed, at some time, a receipt with the transfer, in a block mined after the challenge. *)
Definition paid_on_chain (p : ParsedMppCredential) (tool_cost_usdc : Z) : Prop :=
  ∃ t receipt t' block mined_at, eth_get_receipt t (mpp_tx_hash p) = RpcResult (JObj receipt) ∧
    receipt_matches (JObj receipt) (mpp_currency settings) (mpp_recipient settings) (mpp_payer p) tool_cost_usdc = true ∧
    dict_get receipt "blockNumber" = Some (JStr block) ∧
    block_timestamp (eth_get_block t' block) = Some mined_at ∧ mpp_issued_at p - _ISSUE_SKEW_SECONDS ≤ mined_at.

Abbreviation anything := (λ (_ : Db) (_ : Ext), True).

Lemma eth_call_answer call : wpi anything (_eth_call call) (λ r, ∃ o, r = Ok o ∧ ∀ j, o = Some j → ∃ t, call t = RpcResult j).
Proof.
  unfold _eth_call. apply wpi_catch, wpi_bind, wpi_external.
  - apply wpi_ret. naive_solver.
  - intros now d x _. split; [done|]. apply wpi_ret. eexists. split; [done|]. intros j. destruct (call now) eqn:E; [|done]. intros [= <-]. by exists now.
Qed.

Definition transfer_evidence (p : ParsedMppCredential) (cost : Z) (r : res (mpp_outcome + mpp_outcome)) : Prop :=
  match r with
  | Ok (inr o) => o = MppOk (mpp_tx_hash p) (mpp_payer p) (mpp_challenge_id p) ∧ paid_on_chain p cost
  | Ok (inl o) => ∀ t s i, o ≠ MppOk t s i
  | Raise _ => True
  end.

Lemma check_transfer_evidence p cost : wpi anything (check_transfer p cost) (transfer_evidence p cost).
Proof.
  unfold check_transfer. apply wpi_bind. eapply wpi_mono; [apply eth_call_answer|].
  intros r (a & -> & Ha). destruct a as [[]|]; try by apply wpi_ret.
  destruct (receipt_matches _ _ _ _ _) eqn:Em; [|by apply wpi_ret]. cbn [negb].
  destruct (Ha _ eq_refl) as [t Ht]. unfold _eth_block_timestamp.
  destruct (dict_get kvs "blockNumber") as [[]|] eqn:Eb; try by apply wpi_bind, wpi_ret, wpi_ret.
  destruct (String.prefix "0x" s); [|by apply wpi_bind, wpi_ret, wpi_ret].
  apply wpi_bind, wpi_bind. eapply wpi_mono; [apply eth_call_answer|]. intros r (b & -> & Hb). apply wpi_ret, wpi_ret.
  destruct b as [j|]; [|done]. cbn -[block_timestamp]. destruct (Hb j eq_refl) as [t' Ht'].
  destruct (block_timestamp (RpcResult j)) as [mined|] eqn:Ets; [|done]. destruct (_ <? _) eqn:El; [done|].
  split; [done|]. exists t, kvs, t', s, mined. split_and!; [done..|by rewrite Ht'|lia].
Qed.

Lemma claim_quietly key : wpi anything (catch (b ← _claim_payment_nonce parse_payment_payload repr has_pool key true; mret (Some b)) (λ _, mret None)) (λ r, ∃ o, r = Ok o).
Proof.
  apply wpi_catch, wpi_bind. unfold _claim_payment_nonce. destruct has_pool; [|apply wpi_raise, wpi_ret; eauto].
  apply wpi_stmt; [apply wpi_ret; eauto|]. intros now d x _. unfold insert_nonce.
  destruct (_ !! _); (split; [done|apply wpi_ret; eauto]).
Qed.

(** Whatever the schedule, an accepted credential is bound to a challenge of this server for
    exactly this price, in force when the call came in, and the chain shows the transfer it asks for:
    the token, from the named payer to the recipient, of exactly the price, mined no earlier than a
    minute before the challenge was issued. *)
Theorem accepted_was_paid credential cost w r w' :
  good anything w → verify_mpp_payment credential cost w = (r, w') →
  ∀ tx source id, r = Ok (MppOk tx source id) →
  ∃ p, validate_mpp_credential credential cost (clock w) = inr p ∧ paid_on_chain p cost ∧
       tx = mpp_tx_hash p ∧ source = mpp_payer p ∧ id = mpp_challenge_id p.
Proof.
  intros Hw. unfold verify_mpp_payment, datetime_now, mbind at 1, M_bind. cbn [fst snd].
  destruct (validate_mpp_credential credential cost (clock w)) as [[]|p] eqn:Ev; [intros [= <- <-]; done..|].
  intros Hrun tx source id ->. exists p. split; [done|].
  match type of Hrun with ?m w = _ => assert (wpi anything m (λ r, ∀ t s i, r = Ok (MppOk t s i) →
    MppOk t s i = MppOk (mpp_tx_hash p) (mpp_payer p) (mpp_challenge_id p) ∧ paid_on_chain p cost)) as H end.
  { apply wpi_bind. eapply wpi_mono; [apply claim_quietly|].
    intros r (o & ->). destruct o as [[]|]; try by apply wpi_ret.
    apply wpi_bind. eapply wpi_mono; [apply check_transfer_evidence|]. intros [[o|o]|e] Ho; [| |done].
    - apply wpi_bind. eapply (wpi_mono _ _ (λ _, True)).
      { apply wpi_catch. unfold release_payment_nonce. destruct has_pool; [|by apply wpi_ret].
        apply wpi_stmt; [by apply wpi_ret|done]. }
      intros [u|e] _; [|done]. apply wpi_ret. intros t s i [= ->]. by destruct (Ho t s i).
    - apply wpi_ret. intros t s i [= ->]. exact Ho. }
  specialize (H w Hw). rewrite Hrun in H. destruct H as (_ & _ & H). destruct (H tx source id eq_refl) as [[= -> -> ->] ?]. done.
Qed.

(** ** The clean-up never frees a transfer that could still be presented *)

Lemma minted_window challenge cost0 t0 nonce f cost now issued_at :
  challenge_fields challenge = challenge_fields (build_mpp_challenge cost0 t0 nonce) →
  _parse_iso (_iso (t0 + seconds (mpp_challenge_ttl_seconds settings))) =
    Some ((t0 + seconds (mpp_challenge_ttl_seconds settings)) / microsecond_per_second * microsecond_per_second) →
  challenge_fields challenge = Some f → check_challenge f cost now = inr issued_at →
  now < seconds (issued_at + 1 + mpp_challenge_ttl_seconds settings).
Proof.
  intros Hm Hiso Hf. rewrite Hf in Hm. cbn -[_iso _parse_iso _challenge_id mpp_request seconds] in Hm. injection Hm as ->.
  unfold check_challenge. do 7 (destruct (negb _); [done|]).
  cbn -[_iso _parse_iso seconds Z.div]. rewrite Hiso. unfold seconds, microsecond_per_second in *.
  set (e := _ / 1000000 * 1000000). destruct (e <=? now) eqn:E1; [done|]. destruct (_ <? e) eqn:E2; [done|].
  intros [= <-]. assert (e ≤ t0 + mpp_challenge_ttl_seconds settings * 1000000) by (subst e; pose proof (Z.mul_div_le (t0 + mpp_challenge_ttl_seconds settings * 1000000) 1000000 eq_refl); lia).
  pose proof (Z.mul_succ_div_gt t0 1000000 eq_refl). lia.
Qed.

(** The daily clean-up keeps the claim of a transfer as long as any credential for it could still
    be accepted: a challenge minted by the server that is in force at the time of the clean-up and
    was issued no later than a minute after the transfer was mined, given that the claim was made at
    most 22 hours before. *)
Theorem claim_outlives_challenge credential challenge tx source cost0 t0 nonce cost w p mined_at key row :
  credential_parts credential = inr (challenge, tx, source) →
  challenge_fields challenge = challenge_fields (build_mpp_challenge cost0 t0 nonce) →
  _parse_iso (_iso (t0 + seconds (mpp_challenge_ttl_seconds settings))) =
    Some ((t0 + seconds (mpp_challenge_ttl_seconds settings)) / microsecond_per_second * microsecond_per_second) →
  mpp_challenge_ttl_seconds settings ≤ 3600 →
  validate_mpp_credential credential cost (clock w) = inr p → mpp_issued_at p - _ISSUE_SKEW_SECONDS ≤ mined_at →
  payment_nonces (db w) !! key = Some row → seconds mined_at ≤ claimed_at row + hours 22 →
  quiet w → tx_now w = None →
  payment_nonces (db (cleanup_expired_payment_nonces has_pool 24 w).2) !! key = Some row.
Proof.
  intros Hc Hm Hiso Httl Hv Hmined Hrow Hclaim Hq Htx. unfold validate_mpp_credential in Hv. rewrite Hc in Hv.
  destruct (challenge_fields challenge) as [f|] eqn:Hf; [|done].
  destruct (check_challenge f cost (clock w)) as [e|issued] eqn:Hcheck; [done|].
  destruct (_source_address source); [|done]. injection Hv as <-. cbn in Hmined.
  assert (clock w < seconds (issued + 1 + mpp_challenge_ttl_seconds settings)) as Hnow.
  { eapply minted_window; [rewrite Hf; exact Hm|exact Hiso|exact Hf|exact Hcheck]. }
  unfold cleanup_expired_payment_nonces. destruct has_pool; [|done].
  unfold stmt, next_event. rewrite Hq. unfold sql_now. rewrite Htx. cbn.
  apply lookup_difference_Some. split; [done|]. apply map_lookup_filter_None. right. intros r Hr. cbn.
  assert (r = row) as -> by congruence. unfold hours, seconds, microsecond_per_second, _ISSUE_SKEW_SECONDS in *. lia.
Qed.
End mpp.

(** ** One transfer, presented again and again *)
Module MppDemo.
Definition settings : MppSettings :=
  MkMppSettings "0x1111111111111111111111111111111111111111" "0x833589fCD6eDb6E08f4c7C32D4f71b54bdA02913"
    "0123456789abcdef0123456789abcdef" 300 "eip155:8453" "teardrop.example".

Definition repr (j : json) : string := "".
Definition float_repr (n : Z) (d : positive) : string := "0.0".
Definition loads (s : string) : option json := None.
Definition t0 : Z := seconds 1750000000.

(** Only the expiry of the challenges below is ever parsed. *)
Definition fromisoformat (s : string) : option Z := Some (t0 + seconds 300).

Definition tx : string := "0xaaaaaaaaaaaaaaaaaaaaaaaaaaaaaaaaaaaaaaaaaaaaaaaaaaaaaaaaaaaaaaAA".
Definition payer : string := "0x2222222222222222222222222222222222222222".

Definition challenge (cost : Z) : list (string * json) := build_mpp_challenge settings float_repr cost t0 "n1".
Definition credential (cost : Z) (source : string) : json :=
  JObj [("challenge", JObj (challenge cost)); ("payload", JObj [("type", JStr "hash"); ("hash", JStr tx)]); ("source", JStr source)].

(** A transfer of one cent, mined half a minute after the challenge *)
Definition receipt : json :=
  JObj [("status", JStr "0x1"); ("blockNumber", JStr "0x10");
        ("logs", JArr [JObj [("address", JStr "0x833589fcd6edb6e08f4c7c32d4f71b54bda02913");
                             ("topics", JArr [JStr _ERC20_TRANSFER_TOPIC0; JStr (_topic_address payer); JStr (_topic_address (mpp_recipient settings))]);
                             ("data", JStr "0x2710")]])].
Definition get_receipt (now : Z) (tx : string) : rpc_answer := RpcResult receipt.
Definition w0 (s : list (event Db Ext)) : World Db Ext := initial_world empty_db (t0 + seconds 60) s.

Definition get_block (now : Z) (n : string) : rpc_answer := RpcResult (JObj [("timestamp", JStr "0x684ee19e")]).

Definition present (l : list (json * Z)) (s : list (event Db Ext)) : res nat :=
  (acceptances settings repr float_repr loads fromisoformat get_receipt get_block (λ _, None) true l (w0 s)).1.

Definition presented : list (json * Z) :=
  [(credential 10000 payer, 10000); (credential 10000 ("did:pkh:eip155:8453:" +:+ payer), 10000); (credential 10000 payer, 10000)].

Example presented_again : present presented [] = Ok 1%nat.
Proof. vm_compute. reflexivity. Qed.

(** Another price, or another payer, is not paid by it. *)
Example wrong_terms : present [(credential 10000 payer, 20000); (credential 10000 (mpp_recipient settings), 10000)] [] = Ok 0%nat.
Proof. vm_compute. reflexivity. Qed.

(** A credential whose challenge id is not ASCII is not refused: the comparison raises. *)
Lemma non_ascii_id_raises : (verify_mpp_payment settings repr float_repr loads fromisoformat get_receipt get_block (λ _, None) true
    (JObj [("challenge", JObj (challenge 10000 ++ [("id", JStr (String.string_of_list_ascii [byte_of 233]))]));
           ("payload", JObj [("type", JStr "hash"); ("hash", JStr tx)]); ("source", JStr payer)]) 10000 (w0 [])).1
  = Raise (TypeError "comparing strings with non-ASCII characters is not supported").
Proof. vm_compute. reflexivity. Qed.

(** When the acknowledgement of the claim is lost, the payment is refused as unavailable and its
    claim is kept: the payer cannot retry. *)
Lemma lost_claim_locks_payer : present presented [MkEvent 5 FLost (λ d x, (d, x))] = Ok 0%nat.
Proof. vm_compute. reflexivity. Qed.

Lemma credential_pays cost source : pays_with (py_lower tx) (credential cost source).
Proof.
  intros ch h src. unfold credential_parts, credential. cbn -[challenge py_strip hex_match tx py_lower].
  repeat first [rewrite bool_decide_true by reflexivity|rewrite bool_decide_false by discriminate].
  destruct (is_empty (py_strip source)); [done|]. cbn -[hex_match tx py_lower].
  repeat first [rewrite bool_decide_true by reflexivity|rewrite bool_decide_false by discriminate].
  by intros [= _ <- _].
Qed.

(** The credential as it was accepted a minute after the challenge, and its claim *)
Definition parsed : ParsedMppCredential :=
  MkParsedMpp (py_lower tx) payer (match dict_get (challenge 10000) "id" with Some (JStr id) => id | _ => "" end) 1750000000.
Definition key : string := _payment_nonce_hash (λ _, None) repr (mpp_nonce_key tx).
Definition claimed : World Db Ext :=
  (w0 []) <| db := empty_db <| payment_nonces := {[ key := MkNonce "" 0 (t0 + seconds 58); "old" := MkNonce "" 0 0 ]} |> |>.

Example cleanup_frees_the_old : (payment_nonces (db (cleanup_expired_payment_nonces true 24 claimed).2) !! "old") = None.
Proof. vm_compute. reflexivity. Qed.
End MppDemo.


Lemma accepted_was_paid_witness :
  ∃ p, validate_mpp_credential MppDemo.settings MppDemo.repr MppDemo.float_repr MppDemo.loads MppDemo.fromisoformat
         (MppDemo.credential 10000 MppDemo.payer) 10000 (clock (MppDemo.w0 [])) = inr p ∧
       paid_on_chain MppDemo.settings MppDemo.repr MppDemo.get_receipt MppDemo.get_block p 10000 ∧
       py_lower MppDemo.tx = mpp_tx_hash p ∧ MppDemo.payer = mpp_payer p ∧
       match dict_get (MppDemo.challenge 10000) "id" with Some (JStr id) => id | _ => "" end = mpp_challenge_id p.
Proof.
  eapply (accepted_was_paid MppDemo.settings MppDemo.repr MppDemo.float_repr MppDemo.loads MppDemo.fromisoformat
    MppDemo.get_receipt MppDemo.get_block (λ _, None) true (MppDemo.credential 10000 MppDemo.payer) 10000 (MppDemo.w0 []));
    [split_and!; [reflexivity|exact I|constructor]|apply surjective_pairing|].
  vm_compute. reflexivity.
Defined.

Lemma claim_outlives_challenge_witness :
  payment_nonces (db (cleanup_expired_payment_nonces true 24 MppDemo.claimed).2) !! MppDemo.key = Some (MkNonce "" 0 (MppDemo.t0 + seconds 58)).
Proof.
  apply (claim_outlives_challenge MppDemo.settings MppDemo.repr MppDemo.float_repr MppDemo.loads MppDemo.fromisoformat true
    (MppDemo.credential 10000 MppDemo.payer) (MppDemo.challenge 10000) MppDemo.tx MppDemo.payer 10000 MppDemo.t0 "n1" 10000
    MppDemo.claimed MppDemo.parsed 1750000030 MppDemo.key (MkNonce "" 0 (MppDemo.t0 + seconds 58))).
  - vm_compute. reflexivity.
  - reflexivity.
  - vm_compute. reflexivity.
  - vm_compute. discriminate.
  - vm_compute. reflexivity.
  - vm_compute. discriminate.
  - vm_compute. reflexivity.
  - vm_compute. discriminate.
  - reflexivity.
  - reflexivity.
Defined.
