(* ===== verification/TopUp.v ===== *)
(** * Topping up prepaid credit (billing/stripe.py, billing/x402.py)

    The two ways a customer pays credit in: a Stripe checkout, credited when its
    webhook is delivered ([handle_stripe_webhook]), and a signed USDC transfer,
    settled and credited by one request ([billing_topup_usdc]).  Both record the
    payment in a table of their own in the transaction that credits it.

    The Stripe SDK (signature check), the facilitator and the building of the
    payment requirements are parameters.

    The theorem: a payment is credited once, whatever is delivered, lost or run
    concurrently, and a delivery that succeeds has credited it. *)

From S2P Require Export X402.

Inductive rail := StripeRail | UsdcRail.

Definition topup_events (r : rail) (d : Db) : gmap string TopupEvent :=
  match r with StripeRail => stripe_webhook_events d | UsdcRail => usdc_topup_events d end.

Definition record_event (r : rail) (key : string) (e : TopupEvent) (d : Db) : Db :=
  match r with
  | StripeRail => d <| stripe_webhook_events ::= <[key := e]> |>
  | UsdcRail => d <| usdc_topup_events ::= <[key := e]> |>
  end.

Definition topup_reason (r : rail) (key : string) : string :=
  match r with StripeRail => "stripe:" +:+ key | UsdcRail => "usdc_onchain:" +:+ key end.

(** [INSERT ... ON CONFLICT DO NOTHING RETURNING] *)
Definition insert_topup_event (r : rail) (key org : string) (amount : Z) (d : Db) : res (bool * Db) :=
  if negb (is_bigint amount) then Raise DataError
  else if amount <=? 0 then Raise CheckViolation
  else match topup_events r d !! key with
       | Some _ => Ok (false, d)
       | None => match orgs d !! org with
                 | None => Raise ForeignKeyViolation
                 | Some _ => Ok (true, record_event r key (MkTopupEvent org amount) d)
                 end
       end.

(** A Stripe event, as far as the webhook reads it; an absent text is empty. *)
Record StripeEvent := MkStripeEvent {
  event_id : string;
  event_type : string;
  payment_status : string;
  client_reference_id : string;
  metadata_org_id : string;
  metadata_amount_usdc : string;
  amount_total : Z;
}.

Inductive topup_response :=
  | TopupCredited (balance : Z)
  | PaymentRequired (detail : string)
  | Conflict (detail : string).

Section topup.
Context (uuid : nat → string).

(** The transaction both rails run; [None] if the payment is already recorded. *)
Definition credit_event (r : rail) (key org : string) (amount : Z) : Handler (option Z) :=
  fresh ← stmt (λ _, insert_topup_event r key org amount);
  if fresh : bool then
    new_balance ← stmt (upsert_credit org amount);
    ledger_id ← uuid4 uuid;
    stmt (λ now, insert_ledger (MkLedger ledger_id org Topup amount new_balance (topup_reason r key) None None None now));;
    mret (Some new_balance)
  else mret None.

Definition credit_usdc_topup (org : string) (amount : Z) (tx_hash : string) : Handler (option Z) :=
  r ← transaction (credit_event UsdcRail tx_hash org amount);
  match r with
  | None => mret None
  | Some new_balance => rearm_exhausted_credit_settlements org amount;; mret (Some new_balance)
  end.

Definition webhook_org (e : StripeEvent) : string :=
  if is_empty (client_reference_id e) then metadata_org_id e else client_reference_id e.

Definition webhook_amount (e : StripeEvent) : Z :=
  if is_empty (metadata_amount_usdc e) then amount_total e * 10000
  else default (amount_total e * 10000) (py_int_of_string (metadata_amount_usdc e)).

(** Whether the event says that something was paid, and by whom *)
Definition creditable (e : StripeEvent) : bool :=
  bool_decide (event_type e = "checkout.session.completed") && bool_decide (payment_status e = "paid") &&
  negb (is_empty (webhook_org e)) && (0 <? webhook_amount e).

Definition handle_stripe_webhook (construct_event : string → string → res StripeEvent) (payload sig_header : string) : Handler unit :=
  if is_empty sig_header then raise (ValueError "Missing Stripe-Signature header")
  else
    event ← lift (construct_event payload sig_header);
    if negb (creditable event) then mret tt
    else
      let org := webhook_org event in
      let amount := webhook_amount event in
      org_exists ← query (λ _ d, bool_decide (is_Some (orgs d !! org)));
      if negb org_exists then raise (ValueError ("unknown org_id '" +:+ org +:+ "'"))
      else
        r ← transaction (query (λ _ _, tt);; credit_event StripeRail (event_id event) org amount);
        match r with
        | None => mret tt
        | Some _ => rearm_exhausted_credit_settlements org amount;; mret tt
        end.

Section usdc.
Context (parse_payment_payload : string → option Parsed) (parse_verify : text → option VerifyResponse).
Context (ask : Z → nat → string → Requirement → verify_call) (settle : Z → string → Requirement → settle_answer).
Context (build_usdc_topup_requirements : Z → list Requirement).

Definition verify_and_settle_usdc_topup (payment_header : string) (amount : Z) : Handler BillingResult :=
  match build_usdc_topup_requirements amount with
  | [] => mret (billing_error "No payment requirements could be built")
  | requirement :: _ =>
      match parse_payment_payload payment_header with
      | None => mret (billing_error "Malformed payment header")
      | Some _ =>
          verify_result ← verify_with_facilitator parse_verify ask 0 payment_header requirement;
          match verify_result with
          | None => mret (billing_error "Payment verification service unavailable")
          | Some v =>
              if negb (is_valid v) then mret (billing_error ("Payment verification failed: " +:+ failure_reason v))
              else
                answer ← catch (external (λ now x, (Ok (settle now payment_header requirement), x))) (λ _, mret NoAnswer);
                mret (match answer with
                      | NoAnswer => billing_error "Payment settlement service unavailable"
                      | Rejected => billing_error "Settlement rejected by facilitator"
                      | Settled tx =>
                          billing_result <| verified := true |> <| settled := true |> <| tx_hash := tx |> <| amount_usdc := amount |>
                      end)
          end
      end
  end.

Definition billing_topup_usdc (org payment_header : string) (amount : Z) : Handler topup_response :=
  result ← verify_and_settle_usdc_topup payment_header amount;
  if negb (settled result) then
    mret (PaymentRequired (if is_empty (error result) then "Payment verification or settlement failed." else error result))
  else
    new_balance ← credit_usdc_topup org (amount_usdc result) (tx_hash result);
    mret (match new_balance with
          | None => Conflict ("Transaction " +:+ tx_hash result +:+ " was already processed.")
          | Some b => TopupCredited b
          end).
End usdc.
End topup.

(** ** A payment is credited once *)

Definition paid_rows (r : rail) (key : string) (d : Db) : list LedgerRow :=
  filter (λ row, l_reason row = topup_reason r key) (ledger d).

(** The books are sound, and the payment [key] has a ledger row exactly if it is recorded. *)
Definition backed (r : rail) (key org : string) (amount : Z) (d : Db) : Prop :=
  books d ∧
  match topup_events r d !! key with
  | Some e => e = MkTopupEvent org amount ∧ ∃ row, paid_rows r key d = [row] ∧ plain_topup org amount row
  | None => paid_rows r key d = []
  end.

Definition payment_recorded (r : rail) (key : string) (d : Db) : Prop := is_Some (topup_events r d !! key).

(** Others may do anything that keeps the payment backed and does not forget it. *)
Definition respects_payment (r : rail) (key org : string) (amount : Z) (d : Db) (x : Ext) (d' : Db) (x' : Ext) : Prop :=
  (backed r key org amount d → backed r key org amount d') ∧ (payment_recorded r key d → payment_recorded r key d').

Lemma insert_topup_event_ok r key org amount d b d' :
  insert_topup_event r key org amount d = Ok (b, d') →
  if b then topup_events r d !! key = None ∧ d' = record_event r key (MkTopupEvent org amount) d else d' = d ∧ payment_recorded r key d.
Proof.
  unfold insert_topup_event, payment_recorded. destruct (negb _), (amount <=? 0); try done.
  destruct (topup_events r d !! key) eqn:E; [intros [= <- <-]; eauto|].
  destruct (orgs d !! org); [|done]. by intros [= <- <-].
Qed.

Lemma topup_events_record r key e d : topup_events r (record_event r key e d) = <[key := e]> (topup_events r d).
Proof. by destruct r. Qed.

Lemma ledger_record r key e d : ledger (record_event r key e d) = ledger d.
Proof. by destruct r. Qed.

Lemma books_record r key e d : books d → books (record_event r key e d).
Proof. intros Hd. by apply (books_same d); [done|destruct r..]. Qed.

Lemma topup_events_posted r row d d' : posted row d d' → topup_events r d' = topup_events r d.
Proof. intros ->%posted_frame. by destruct r. Qed.

(** What only moves queued charges keeps the payment. *)
Lemma backed_queue r key org amount d q :
  backed r key org amount d → backed r key org amount (d <| pending_settlements := q |>).
Proof. intros [Hb He]. split; [by apply (books_same d)|by destruct r]. Qed.

Section once.
Context (uuid : nat → string) (r : rail) (key org : string) (amount : Z).
Abbreviation R := (respects_payment r key org amount).

Definition backed_and (c : bool) : Db → Ext → Prop := λ d _, backed r key org amount d ∧ (c = true → payment_recorded r key d).

Lemma backed_and_stable c : stable R (backed_and c).
Proof. intros d x d' x' [Hb Hc] [H1 H2]. split; auto. Qed.

Lemma credit_event_wpt now d :
  backed r key org amount d →
  wpt now (credit_event uuid r key org amount) (λ _ d', backed r key org amount d' ∧ payment_recorded r key d') (λ _ _, True) d.
Proof.
  intros Hd. unfold credit_event. tx_step. apply wpt_stmt; [done|].
  destruct (insert_topup_event r key org amount d) as [[b d0]|e] eqn:E; [|done].
  split; [|done]. apply insert_topup_event_ok in E. destruct b.
  2: { destruct E as [-> ?]. tx_step. done. }
  destruct E as [Hn ->]. tx_step. apply wpt_upsert_credit; [done|]. intros d1 Ha.
  tx_step. tx_step. tx_step. eapply wpt_insert_ledger; [done|exact Ha|done|]. intros d2 Hp. apply wpt_ret.
  destruct Hd as [Hbk He]. rewrite Hn in He.
  assert (topup_events r d2 !! key = Some (MkTopupEvent org amount)) as Hev.
  { by rewrite (topup_events_posted _ _ _ _ Hp), topup_events_record, lookup_insert_eq. }
  split; [|by exists (MkTopupEvent org amount)]. split; [by eapply books_posted, Hp; apply books_record|].
  rewrite Hev. split; [done|]. eexists. split; [|apply plain_topup_row].
  unfold paid_rows in *. rewrite (ledger_posted _ _ _ Hp), filter_app, ledger_record, He, app_nil_l.
  by rewrite filter_cons_True.
Qed.

Lemma rearm_rg cap : rg R (backed_and true) (rearm_exhausted_credit_settlements org cap) (λ _, backed_and true).
Proof.
  unfold rearm_exhausted_credit_settlements. destruct (_ || _); [by apply rg_ret|].
  eapply (rg_catch _ _ _ _ (λ _, backed_and true)); [|intros e; by apply rg_ret|done].
  apply rg_stmt; [apply backed_and_stable|]. intros now d x Hd. split; [done|].
  assert (backed_and true (update_rows (rearm_row now) (rearmed_ids now org cap d) d) x); [|done].
  destruct Hd as [Hb Hr]. split; [by apply backed_queue|]. intros _. specialize (Hr eq_refl). by destruct r.
Qed.

Lemma credit_transaction_rg (m : Handler (option Z)) c :
  (∀ now d, wpt now (credit_event uuid r key org amount) (λ _ d', backed r key org amount d' ∧ payment_recorded r key d') (λ _ _, True) d →
            wpt now m (λ _ d', backed r key org amount d' ∧ payment_recorded r key d') (λ _ _, True) d) →
  rg R (backed_and c) (transaction m) (λ res d x, backed_and (match res with Ok _ => true | Raise _ => c end) d x).
Proof.
  intros Hm. apply rg_transaction; [apply backed_and_stable|done|]. intros now d x Hd.
  eapply wpt_mono; [apply Hm, credit_event_wpt, Hd| |done]. intros o d' [Hb Hr]. split; by split.
Qed.
End once.

Section deliveries.
Context (uuid : nat → string).

(** Stripe delivers again after an error, and may deliver more often than that. *)
Definition deliveries (handler : Handler unit) (n : nat) : Handler bool :=
  for_each (seq 0 n) false (λ ok _, r ← catch (handler;; mret true) (λ _, mret false); mret (ok || r)).

Definition won (r : res bool) : bool := match r with Ok b => b | Raise _ => false end.

Lemma webhook_rg construct_event payload sig_header e c :
  sig_header ≠ "" → construct_event payload sig_header = Ok e → creditable e = true →
  rg (respects_payment StripeRail (event_id e) (webhook_org e) (webhook_amount e))
    (backed_and StripeRail (event_id e) (webhook_org e) (webhook_amount e) c)
    (handle_stripe_webhook uuid construct_event payload sig_header)
    (λ r, backed_and StripeRail (event_id e) (webhook_org e) (webhook_amount e) (match r with Ok _ => true | Raise _ => c end)).
Proof.
  intros Hs He Hc. unfold handle_stripe_webhook, is_empty. rewrite bool_decide_false, He by done. cbn [lift].
  apply rg_bind_ok. rewrite Hc. cbn [negb].
  eapply (rg_bind _ _ _ _ (λ _, backed_and StripeRail (event_id e) (webhook_org e) (webhook_amount e) c)).
  { apply rg_query; [apply backed_and_stable|]. done. }
  2: done.
  intros b. destruct (negb b); [by apply rg_raise|].
  eapply rg_bind; [apply (credit_transaction_rg uuid _ _ (webhook_org e))| |done].
  { intros now d H. tx_step. by apply wpt_query. }
  intros [n|]; [|by apply rg_ret].
  eapply rg_bind; [apply rearm_rg|intros k; by apply rg_ret|]. intros e' d x [Hb Hr]. split; [done|auto].
Qed.

(** C3. A paid checkout is credited once: however often Stripe delivers its event, whatever fails or
    runs concurrently, the ledger holds at most one row for it, of the paid amount to the paying
    organisation, the books stay sound, and once a delivery has succeeded the row is there. *)
Theorem checkout_credited_once construct_event payload sig_header e n :
  sig_header ≠ "" → construct_event payload sig_header = Ok e → creditable e = true →
  let org := webhook_org e in
  let amount := webhook_amount e in
  rg (respects_payment StripeRail (event_id e) org amount) (λ d _, backed StripeRail (event_id e) org amount d)
    (deliveries (handle_stripe_webhook uuid construct_event payload sig_header) n)
    (λ r d _, backed StripeRail (event_id e) org amount d ∧ (r = Ok true → payment_recorded StripeRail (event_id e) d)).
Proof.
  intros Hs He Hc org amount.
  eapply rg_mono; [apply (rg_for_each _ (seq 0 n) false _ (λ ok, backed_and StripeRail (event_id e) org amount ok)
    (λ r d _, backed StripeRail (event_id e) org amount d ∧ (r = Ok true → payment_recorded StripeRail (event_id e) d)))| |done].
  - intros ok d x [Hb Hr]. split; [done|]. intros [= ->]. auto.
  - intros ok i _.
    eapply (rg_bind _ _ _ _ (λ r d x, backed_and StripeRail (event_id e) org amount (ok || won r) d x)).
    + eapply (rg_catch _ _ _ _ (λ r d x, backed_and StripeRail (event_id e) org amount (ok || won r) d x)).
      * eapply rg_bind; [by apply (webhook_rg _ _ _ e ok)| |].
        -- intros u. apply rg_ret. intros d x [Hb Hr]. split; [done|auto].
        -- intros e' d x [Hb Hr]. split; [done|]. by rewrite orb_false_r.
      * intros e'. apply rg_ret. intros d x Hd. done.
      * done.
    + intros r. apply rg_ret. intros d x. destruct r; done.
    + intros e' d x [Hb Hr]. split; [done|]. done.
  - intros d x Hd. by split.
Qed.
End deliveries.

(** ** A checkout delivered three times, and two USDC payments that are not credited *)
Module TopUpDemo.
Definition checkout : StripeEvent :=
  MkStripeEvent "evt_1" "checkout.session.completed" "paid" "acme" "" "5000000" 500.

Definition construct_event (payload sig : string) : res StripeEvent :=
  if bool_decide (payload = "body") && bool_decide (sig = "t=1,v1=ok") then Ok checkout else Raise (ValueError "No signatures found").

Definition start (s : list (event Db Ext)) : World Db Ext := CreditDemo.w0 <| uuid_n := 50%nat |> <| sched := s |>.

Definition quietly (n : nat) (f : fault) : list (event Db Ext) :=
  replicate n (MkEvent 5 FOk (λ d x, (d, x))) ++ [MkEvent 5 f (λ d x, (d, x))].

Definition webhook : Handler unit := handle_stripe_webhook CreditDemo.uuid construct_event "body" "t=1,v1=ok".

(** The acknowledgement of the first commit is lost: the delivery fails, the money arrives once. *)
Example delivered_three_times :
  let '(r, w) := deliveries webhook 3 (start (quietly 6 FLost)) in
  (webhook (start (quietly 6 FLost))).1 = Raise ConnectionError ∧
  r = Ok true ∧ balance "acme" (db w) = 6000000 ∧ map l_amount (paid_rows StripeRail "evt_1" (db w)) = [5000000].
Proof. vm_compute. split_and!; reflexivity. Qed.

(** Metadata that is no number falls back to the charged cents. *)
Example metadata_ignored :
  webhook_amount (MkStripeEvent "e" "" "" "" "" "five" 500) = 5000000 ∧
  webhook_amount (MkStripeEvent "e" "" "" "" "" "7" 500) = 7.
Proof. split; vm_compute; reflexivity. Qed.

Definition usdc (settle : Z → string → Requirement → settle_answer) (header : string) : Handler topup_response :=
  billing_topup_usdc CreditDemo.uuid X402Demo.parse X402Demo.parse_verify
    (λ _ _ _ _, Answered (MkVerify true "" "" "0xabc1")) settle (λ a, [MkRequirement "exact" a]) "acme" header 3000000.

(** The transfer is settled, then the statement that records it fails: nothing is left of the payment. *)
Lemma settled_not_credited :
  let '(r, w) := usdc (λ _ _ _, Settled "0xt1") "first" (start (quietly 3 FFail)) in
  r = Raise ConnectionError ∧ balance "acme" (db w) = 1000000 ∧ usdc_topup_events (db w) = ∅.
Proof. vm_compute. split_and!; reflexivity. Qed.

(** Two settlements reported without a transaction hash share one key: the second is refused. *)
Lemma second_without_hash_refused :
  let '(r1, w1) := usdc (λ _ _ _, Settled "") "first" (start []) in
  let '(r2, w2) := usdc (λ _ _ _, Settled "") "second" w1 in
  r1 = Ok (TopupCredited 4000000) ∧ r2 = Ok (Conflict "Transaction  was already processed.") ∧
  balance "acme" (db w2) = 4000000.
Proof. vm_compute. split_and!; reflexivity. Qed.
End TopUpDemo.

Lemma checkout_credited_once_witness :
  rg (respects_payment StripeRail "evt_1" "acme" 5000000) (λ d _, backed StripeRail "evt_1" "acme" 5000000 d)
    (deliveries TopUpDemo.webhook 3)
    (λ r d _, backed StripeRail "evt_1" "acme" 5000000 d ∧ (r = Ok true → payment_recorded StripeRail "evt_1" d)).
Proof.
  apply (checkout_credited_once CreditDemo.uuid TopUpDemo.construct_event "body" "t=1,v1=ok" TopUpDemo.checkout 3);
    [discriminate|vm_compute; reflexivity|vm_compute; reflexivity].
Defined.

(** The books before the first delivery are backed. *)
Lemma start_backed : backed StripeRail "evt_1" "acme" 5000000 (db (TopUpDemo.start [])).
Proof. split; [exact CreditDemo.books_w0|]. vm_compute. reflexivity. Qed.
