(* ===== verification/McpGate.v ===== *)
(** * The MCP gateway (teardrop/mcp_gateway.py)

    One [tools/call] request from its admission to its answer: the bearer token
    or the payment that lets it in, the billing gate, the execution of the tool,
    and the settlement that decides whether the result is released.  It puts
    together [Credit], [X402], [Mpp], [Settlement], [Earnings] and the facilitator's
    settlement of [PostRun].

    Parameters: the check of a token (JWT), the price of a tool ([Pricing], asked
    at an instant), the marketplace's catalogue, the rate limits and failure
    budgets, the tool's execution, and the services behind the payments.
    Everything that is not a [tools/call] of a named tool (discovery, listings,
    probes) and the counters are not modelled.

    The theorems: a request never frees a claim it did not make; a result is
    released to an x402 payer only after its payment settled; a call that fails
    moves no credit; and a member's call is debited or queued for exactly its
    price, within the bound the caller set. *)

From S2P Require Export TopUp Mpp.

(** ** What the handlers do to a claim *)

Definition has_claim (h : string) (d : Db) : Prop := is_Some (payment_nonces d !! h).

Lemma credit_step_nonces cfg d d' : credit_step cfg d d' → payment_nonces d' = payment_nonces d.
Proof.
  assert (∀ c d u d1, insert_credential c d = Ok (u, d1) → payment_nonces d1 = payment_nonces d) as Hc.
  { intros c d0 u d1. unfold insert_credential. by repeat case_match; intros [= <- <-]. }
  assert (∀ r d0 d1, posted r d0 d1 → payment_nonces d1 = payment_nonces d0) as Hp.
  { intros r d0 d1 ->%posted_frame. done. }
  destruct 1 as [| |c d d' u Hi|org amount r p d d0 d1 d' u Hd _ H1 H2|org amount r d d1 d' Hg _ H1| |]; try done; eauto.
  - assert (payment_nonces d' = payment_nonces d1) as -> by (revert H2; unfold insert_provisioning; by repeat case_match; intros [= <- <-]).
    rewrite (Hp _ _ _ H1). destruct Hd as [->|(c & u0 & Hi)]; eauto.
  - rewrite (Hp _ _ _ H1). by apply insert_grant_some in Hg as (_ & _ & ->).
Qed.

Lemma settlement_step_nonces cfg d d' : settlement_step cfg d d' → payment_nonces d' = payment_nonces d.
Proof.
  destruct 1 as [| |now id s rc lid d d1 d2 d' _ _ _ _ _ Hp Ha Hf|d d' ->%author_paid_frame|]; try done.
  rewrite (finalised_frame _ _ _ _ _ Hf). cbn. rewrite (authors_paid_frame _ _ _ Ha). cbn. by rewrite (posted_frame _ _ _ Hp).
Qed.

Section keeping.
Context (h : string).
Abbreviation K := (on_db (has_claim h)).

Lemma keeps_credit {A} cfg (m : Handler A) : commits (credit_step cfg) m → preserves K m.
Proof. intros Hm. apply Hm. intros d d' Hd Hs. unfold has_claim. by rewrite (credit_step_nonces _ _ _ Hs). Qed.

Lemma keeps_settlement {A} cfg (m : Handler A) : commits (settlement_step cfg) m → preserves K m.
Proof. intros Hm. apply Hm. intros d d' Hd Hs. unfold has_claim. by rewrite (settlement_step_nonces _ _ _ Hs). Qed.

Context (parse_payment_payload : string → option Parsed) (repr : json → string) (has_pool : bool).
Abbreviation hash := (_payment_nonce_hash parse_payment_payload repr).

Lemma keeps_claiming header fail_closed : preserves K (_claim_payment_nonce parse_payment_payload repr has_pool header fail_closed).
Proof.
  unfold _claim_payment_nonce. destruct has_pool; [|by destruct fail_closed; inv_auto].
  apply wpi_stmt_on_db; [done|]. intros now d b d' Hd. unfold insert_nonce. destruct (_ !! hash header) eqn:E; intros [= <- <-]; [done|].
  unfold has_claim. cbn. rewrite lookup_insert_is_Some. destruct (decide (hash header = h)); [by left|by right].
Qed.

(** The release of another claim *)
Lemma keeps_release header : (has_pool = true → hash header ≠ h) → preserves K (release_payment_nonce parse_payment_payload repr has_pool header).
Proof.
  intros Hne. unfold release_payment_nonce. destruct has_pool; [|by inv_auto].
  apply wpi_stmt_on_db; [done|]. intros now d b d' Hd [= <- <-]. unfold has_claim. cbn. by rewrite lookup_delete_ne; [|apply Hne].
Qed.

Lemma keeps_reservation header payer amount limit :
  preserves K (reserve_payer_spend parse_payment_payload repr has_pool header payer amount limit).
Proof.
  unfold reserve_payer_spend. destruct (_ || _); [by inv_auto|]. destruct (amount =? 0); [by inv_auto|].
  apply wpi_catch, wpi_transaction; [by apply wpi_ret|]. intros now d x Hd.
  repeat (tx_step; try (by split; [|done]); try by apply wpi_ret). unfold set_reservation.
  destruct (payment_nonces d !! _) as [row|] eqn:E; [|done]. destruct (_ =? 0); [|done]. destruct (negb _); [by apply wpi_ret|].
  split; [|by apply wpi_ret]. split; [|done]. unfold on_db, has_claim. cbn. rewrite lookup_insert_is_Some.
  destruct (decide (hash header = h)); [by left|by right].
Qed.
Context (parse_verify : text → option VerifyResponse) (ask : Z → nat → string → Requirement → verify_call) (servers : nat).

Lemma keeps_try l header requirement : preserves K (try_facilitators parse_verify ask l header requirement).
Proof.
  induction l as [|index l IH]; simpl; [by inv_auto|]. apply preserves_bind.
  - apply preserves_catch; [|by inv_auto]. apply preserves_bind; [apply preserves_external; by intros now d x|by inv_auto].
  - intros [v|]; [by inv_auto|]. apply preserves_bind; [by inv_auto|]. intros now. apply preserves_bind; [by inv_auto|done].
Qed.

Lemma keeps_verify header reqs :
  preserves K (verify_payment parse_payment_payload repr parse_verify ask servers has_pool header reqs).
Proof.
  unfold verify_payment. apply preserves_bind; [by inv_auto|]. intros _. destruct reqs as [|r0 reqs]; [by inv_auto|].
  destruct (parse_payment_payload header); [|by inv_auto]. generalize "No payment requirements matched" as msg. revert reqs.
  generalize r0. intros r reqs msg. change (preserves K (verify_requirements parse_payment_payload repr parse_verify ask servers has_pool header (r :: reqs) msg)).
  generalize (r :: reqs) as l. intros l. revert msg. induction l as [|requirement l IH]; intros msg; simpl; [by inv_auto|].
  apply preserves_bind; [by inv_auto|]. intros now. apply preserves_bind; [by inv_auto|]. intros x.
  apply preserves_bind; [apply keeps_try|]. intros [[index v]|]; [|apply IH]. destruct (is_valid v); [|apply IH].
  unfold admit_payment. apply preserves_bind; [|by inv_auto]. apply preserves_catch; [|by inv_auto].
  apply preserves_bind; [apply keeps_claiming|by inv_auto].
Qed.

(** The payer whose payment is admitted claims another authorization. *)
Definition claims_other (header : string) : Prop := has_pool = true → hash header ≠ h.

Lemma verify_payment_other header reqs :
  rg (keeps_claim h) K (verify_payment parse_payment_payload repr parse_verify ask servers has_pool header reqs)
    (λ r d x, K d x ∧ (admitted r → claims_other header)).
Proof.
  destruct (decide (has_pool = true ∧ hash header = h)) as [[Hp Hh]|Hn].
  - eapply rg_mono; [apply (verify_payment_rg _ _ _ _ _ _ header h Hh Hp true)|by intros d x Hd _|].
    intros r d x [H1 H2]. split; [apply H1; by left|]. intros Ha. by destruct H2.
  - eapply rg_mono; [apply rg_preserves; [|apply keeps_verify]|done|].
    + intros d x d' x' Hd HR. by apply HR.
    + intros r d x Hd. split; [done|]. intros _ Hp Hh. by apply Hn.
Qed.

Context (mpp_settings : MppSettings) (float_repr : Z → positive → string) (loads_b64url : string → option json).
Context (fromisoformat : string → option Z) (eth_get_receipt eth_get_block : Z → string → rpc_answer).

Lemma keeps_eth_call {I} call : preserves I (_eth_call call).
Proof. apply preserves_catch; [|by inv_auto]. apply preserves_bind; [apply preserves_external; by intros now d x|by inv_auto]. Qed.

Lemma keeps_transfer {I} p cost : preserves I (check_transfer mpp_settings repr eth_get_receipt eth_get_block p cost).
Proof.
  unfold check_transfer. apply preserves_bind; [apply keeps_eth_call|]. intros o.
  destruct o as [[]|]; try by inv_auto. destruct (negb _); [by inv_auto|]. apply preserves_bind; [|by inv_auto].
  unfold _eth_block_timestamp. destruct (dict_get _ _) as [[]|]; try by inv_auto. destruct (String.prefix _ _); [|by inv_auto].
  apply preserves_bind; [apply keeps_eth_call|by inv_auto].
Qed.

Lemma verify_mpp_keeps credential cost :
  rg (keeps_claim h) K (verify_mpp_payment mpp_settings repr float_repr loads_b64url fromisoformat eth_get_receipt eth_get_block
    parse_payment_payload has_pool credential cost) (λ _, K).
Proof.
  destruct (credential_parts credential) as [e|[[challenge tx] source]] eqn:Hc.
  { apply rg_preserves; [intros d x d' x' Hd HR; by apply HR|]. unfold verify_mpp_payment.
    apply preserves_bind; [by inv_auto|]. intros now. unfold validate_mpp_credential. rewrite Hc. by destruct e; inv_auto. }
  assert (pays_with (py_lower tx) credential) as Hpays by (intros ch t s Hcp; congruence).
  destruct (decide (hash (mpp_nonce_key (py_lower tx)) = h)) as [Hh|Hne].
  - rewrite <- Hh. eapply rg_mono; [eapply (verify_mpp_rg _ _ _ _ _ _ _ _ _ (py_lower tx) true)| |].
    + exact Hpays.
    + by intros d x Hd _.
    + intros r d x [H1 _]. apply H1. by left.
  - apply rg_preserves; [intros d x d' x' Hd HR; by apply HR|]. unfold verify_mpp_payment.
    apply preserves_bind; [by inv_auto|]. intros now. destruct (validate_mpp_credential _ _ _ _ _ _ _ _) as [e|p] eqn:Hv; [by destruct e; inv_auto|].
    rewrite (validate_tx _ _ _ _ _ _ _ _ _ _ Hpays Hv).
    apply preserves_bind.
    + apply preserves_catch; [|by inv_auto]. apply preserves_bind; [apply keeps_claiming|by inv_auto].
    + intros [[]|]; try by inv_auto. apply preserves_bind; [apply keeps_transfer|]. intros [o|o]; [|by inv_auto].
      apply preserves_bind; [|by inv_auto]. apply preserves_catch; [|by inv_auto]. by apply keeps_release.
Qed.
End keeping.

(** ** The data of a call *)

Record GateSettings := MkGateSettings {
  mcp_auth_enabled : bool;
  mcp_x402_enabled : bool;
  mcp_billing_enabled : bool;
  onboarding_credit_enabled : bool;
  mpp_ready : bool;
  x402_payer_daily_spend_limit_usdc : Z;
}.

(** A [tools/call]: its tool, the credentials it carries and the price bound of its [_meta] *)
Record McpCall := MkMcpCall {
  bearer : option string;
  tool : option string;
  payment_header : option string;
  mpp_credential : option json;
  max_cost : option json;
  client_ip : string;
}.

Inductive token_answer :=
  | TokenRejected (error : string)
  | TokenOk (org_id auth_method sub : string).

(** What the tool server answers: its status, and whether the body says that the tool failed *)
Record execution := MkExecution { status_code : Z; is_error : bool }.

Inductive reply := Reply (status code : Z) (message : string).

Inductive response :=
  | Refused (r : reply)
  | Withheld (message : string)
  | Released (ex : execution) (receipt : option string).

(** [request.state] after authentication *)
Inductive caller :=
  | NoAccount
  | Member (org_id principal : string)
  | Payer (p : Payment) (header : string)
  | Transferred (amount : Z) (tx source : string).

(** What the gate hands to the settlement: organisation, price, tool, event id *)
Record Pending := MkPendingCall { pc_org : string; pc_cost : Z; pc_tool : string; pc_event : string }.

Definition _ANON_FREE_TOOLS : list string := ["calculate"; "get_datetime"; "count_text_stats"; "discover_agents"].

Definition _is_community_tool (name : option string) : bool :=
  match name with Some n => str_in "/" n && negb (String.prefix "platform/" n) | None => false end.

Section gate.
Context (cfg : Settings) (gs : GateSettings) (uuid : nat → string) (uuid5 lower : string → string) (has_pool : bool).
Context (decode_token : Z → string → token_answer).
Context (price : Z → string → res Z) (marketplace_tool : Z → string → string → res (option string)).
Context (org_over_limit : Z → string → bool) (ip_over_limit ip_over_budget payer_over_budget : Z → string → bool).
Context (execute : Z → string → res execution).
(** x402 *)
Context (parse_payment_payload : string → option Parsed) (repr : json → string) (parse_verify : text → option VerifyResponse).
Context (ask : Z → nat → string → Requirement → verify_call) (facilitator : Z → Z → option string → Z → settle_answer) (servers : nat).
Context (cached_requirements : list Requirement) (build_exact_requirements : Z → list Requirement).
(** MPP *)
Context (mpp_settings : MppSettings) (float_repr : Z → positive → string) (loads_b64url : string → option json).
Context (fromisoformat : string → option Z) (eth_get_receipt eth_get_block : Z → string → rpc_answer).

Abbreviation release_nonce := (release_payment_nonce parse_payment_payload repr has_pool).

(** A question to a service at an instant *)
Definition consult {A} (f : Z → res A) : Handler A := external (λ now x, (f now, x)).

Definition _resolve_tool_cost (name : string) : Handler Z := consult (λ now, price now name).

Definition _bearer_required : reply :=
  Reply 401 (-32001) "Marketplace tools require 'Authorization: Bearer <token>' from POST /token and funded credit.".
Definition pricing_unavailable : reply := Reply 503 (-32603) "Paid MCP pricing is temporarily unavailable.".
Definition execution_unavailable : reply := Reply 503 (-32603) "Paid MCP execution is temporarily unavailable.".

Definition is_anonymous (c : McpCall) : bool := match bearer c with Some t => is_empty t | None => true end.
Definition _carries_mpp_credential (c : McpCall) : bool := mpp_ready gs && bool_decide (is_Some (mpp_credential c)).

Definition _anonymous_failure_budget (c : McpCall) : Handler (option reply) :=
  now ← datetime_now;
  mret (if negb (is_empty (client_ip c)) && ip_over_budget now (client_ip c)
        then Some (Reply 429 (-32029) "Anonymous tool failure budget exceeded") else None).

Definition _anonymous_ip_limit (c : McpCall) : Handler (option reply) :=
  now ← datetime_now;
  mret (if negb (is_empty (client_ip c)) && ip_over_limit now (client_ip c)
        then Some (Reply 429 (-32029) "Anonymous rate limit exceeded") else None).

(** ** Authentication *)

Definition _x402_tool_requirements (name : option string) : Handler (list Requirement) :=
  tool_cost ← (match name with Some n => _resolve_tool_cost n | None => mret 0 end);
  mret (if 0 <? tool_cost then build_exact_requirements tool_cost
        else filter (λ r, bool_decide (req_scheme r = "exact") = true) cached_requirements).

(** [verify_payment(header, requirements or None)]: without requirements, the cached ones *)
Definition verify_x402 (header : string) (reqs : list Requirement) : Handler Payment :=
  verify_payment parse_payment_payload repr parse_verify ask servers has_pool header
    (match reqs with [] => cached_requirements | _ => reqs end).

Definition _handle_mpp_auth (c : McpCall) (credential : json) : Handler (reply + option caller) :=
  cost ← catch (k ← (match tool c with Some n => _resolve_tool_cost n | None => mret 0 end); mret (Some k)) (λ _, mret None);
  match cost with
  | None => mret (inl pricing_unavailable)
  | Some tool_cost =>
      if tool_cost <=? 0 then mret (inr None)
      else
        outcome ← verify_mpp_payment mpp_settings repr float_repr loads_b64url fromisoformat eth_get_receipt eth_get_block
          parse_payment_payload has_pool credential tool_cost;
        mret (match outcome with
              | MppMalformed m => inl (Reply 402 (-32602) m)
              | MppFailed m => inl (Reply 402 (-32043) m)
              | MppUnavailable _ => inl execution_unavailable
              | MppOk tx source _ => inr (Some (Transferred tool_cost tx source))
              end)
  end.

Definition x402_admission (c : McpCall) : Handler (reply + caller) :=
  requirements ← catch (r ← _x402_tool_requirements (tool c); mret (Some r)) (λ _, mret None);
  match requirements with
  | None => mret (inl pricing_unavailable)
  | Some reqs =>
      let header := default "" (payment_header c) in
      if is_empty header then mret (inl (Reply 402 0 "Payment required"))
      else
        p ← verify_x402 header reqs;
        mret (if verified (admission p) then inr (Payer p header) else inl (Reply 402 0 (error (admission p))))
  end.

(** MPP first, if the call carries it; a free tool then continues on x402. *)
Definition paid_admission (c : McpCall) : Handler (reply + caller) :=
  match mpp_credential c with
  | Some credential =>
      if mpp_ready gs then
        r ← _handle_mpp_auth c credential;
        match r with
        | inl resp => mret (inl resp)
        | inr (Some who) => mret (inr who)
        | inr None =>
            over ← _anonymous_failure_budget c;
            match over with Some resp => mret (inl resp) | None => x402_admission c end
        end
      else x402_admission c
  | None => x402_admission c
  end.

Definition _handle_x402_auth (c : McpCall) : Handler (reply + caller) :=
  if _is_community_tool (tool c) then mret (inl _bearer_required)
  else if bool_decide (default "" (tool c) ∈ _ANON_FREE_TOOLS) then
    cost ← catch (k ← _resolve_tool_cost (default "" (tool c)); mret (Some k)) (λ _, mret None);
    match cost with
    | None => mret (inl pricing_unavailable)
    | Some k =>
        if k =? 0 then
          over ← (if _carries_mpp_credential c then _anonymous_failure_budget c else mret None);
          match over with
          | Some resp => mret (inl resp)
          | None =>
              limited ← _anonymous_ip_limit c;
              mret (match limited with Some resp => inl resp | None => inr NoAccount end)
          end
        else paid_admission c
    end
  else paid_admission c.

(** users/credentials.py and auth.py: unknown or disabled machine credentials are revoked. *)
Definition is_client_credential_disabled (client_id : string) : Handler bool :=
  query (λ _ d, match credentials d !! client_id with Some r => bool_decide (is_Some (c_disabled_at r)) | None => true end).

Definition is_machine_credential_revoked (auth_method org_id sub : string) : Handler bool :=
  if negb (bool_decide (auth_method = "client_credentials")) || is_empty org_id then mret false
  else is_client_credential_disabled sub.

Definition anonymous_auth (c : McpCall) : Handler (reply + caller) :=
  if mcp_auth_enabled gs then
    if mcp_x402_enabled gs then _handle_x402_auth c else mret (inl (Reply 401 0 "Bearer"))
  else mret (inr NoAccount).

Definition _authenticate (c : McpCall) : Handler (reply + caller) :=
  match bearer c with
  | Some token =>
      if is_empty token then anonymous_auth c
      else
        now ← datetime_now;
        match decode_token now token with
        | TokenRejected e => mret (inl (Reply 401 0 e))
        | TokenOk org auth_method sub =>
            revoked ← is_machine_credential_revoked auth_method org sub;
            mret (if revoked : bool then inl (Reply 403 0 "credential_disabled") else inr (Member org sub))
        end
  | None => anonymous_auth c
  end.

(** ** The billing gate *)

(** An MPP claim is never released. *)
Definition _release_payment_claim (who : caller) : Handler unit :=
  match who with Payer _ header => release_nonce header | _ => mret tt end.

Definition _release_x402_reservation (who : caller) (pending : option Pending) : Handler unit :=
  match who, pending with
  | Payer _ header, Some _ => catch (release_nonce header) (λ _, mret tt)
  | _, _ => mret tt
  end.

Definition admit_mcp_call (org name : string) (cost : Z) : Handler (reply + option Pending) :=
  event ← uuid4 uuid; mret (inr (Some (MkPendingCall org cost name event))).

Definition gate_payer (p : Payment) (header name : string) (tool_cost : Z) : Handler (reply + option Pending) :=
  let cost := if bool_decide (scheme (admission p) = "exact") && (0 <? required_amount p) then required_amount p else tool_cost in
  let payer := payer (admission p) in
  if is_empty (py_strip payer) || is_empty header then
    release_nonce header;; mret (inl (Reply 402 (-32000) "Verified payer identity is required."))
  else
    now ← datetime_now;
    if payer_over_budget now (py_lower (py_strip payer)) then
      release_nonce header;; mret (inl (Reply 429 (-32029) "Payer tool failure budget exceeded"))
    else
      reserved ← reserve_payer_spend parse_payment_payload repr has_pool header payer cost (x402_payer_daily_spend_limit_usdc gs);
      if reserved : bool then admit_mcp_call "" name cost
      else release_nonce header;; mret (inl (Reply 429 (-32029) "Anonymous x402 payer daily spend limit reached.")).

(** The marketplace's own rules: promotional credit, unknown tools, an author's own tool *)
Definition gate_marketplace (org name : string) : Handler (option reply) :=
  if negb (_is_community_tool (Some name)) then mret None
  else
    promotional ← (if onboarding_credit_enabled gs then is_promotional_credit org else mret false);
    if promotional : bool then mret (Some (Reply 403 (-32003) "Marketplace author tools require a funded credit balance."))
    else
      let '(org_slug, bare_name) := split_slash name in
      row ← consult (λ now, marketplace_tool now bare_name org_slug);
      mret (match row with
            | None => Some (Reply 404 (-32601) ("Tool not found: " +:+ name))
            | Some author =>
                if bool_decide (author = org) then
                  Some (Reply 403 (-32005) "Authors cannot call their own marketplace tool here; use POST /tools/test-webhook.")
                else None
            end).

Definition gate_max_cost (bound : option json) (cost : Z) : option reply :=
  match bound with
  | None | Some JNull => None
  | Some (JInt m) =>
      if m <? 0 then Some (Reply 400 (-32602) "_meta['teardrop/max_cost_usdc'] must be a non-negative integer (atomic USDC).")
      else if m <? cost then
        Some (Reply 402 (-32004) ("Tool price " +:+ pretty cost +:+ " atomic USDC exceeds max_cost_usdc " +:+ pretty m +:+ "."))
      else None
  | Some _ => Some (Reply 400 (-32602) "_meta['teardrop/max_cost_usdc'] must be a non-negative integer (atomic USDC).")
  end.

Definition gate_member (c : McpCall) (org principal name : string) (cost : Z) : Handler (reply + option Pending) :=
  refused ← gate_marketplace org name;
  match refused with
  | Some resp => mret (inl resp)
  | None =>
      match gate_max_cost (max_cost c) cost with
      | Some resp => mret (inl resp)
      | None =>
          b ← verify_credit cfg org cost (truthy_id (Some principal));
          if verified b then admit_mcp_call org name cost else mret (inl (Reply 402 (-32000) (error b)))
      end
  end.

Definition _billing_gate (c : McpCall) (who : caller) : Handler (reply + option Pending) :=
  if negb (mcp_billing_enabled gs) then mret (inr None)
  else
    match who, tool c with
    | NoAccount, _ | _, None => mret (inr None)
    | _, Some name =>
        tool_cost ← _resolve_tool_cost name;
        match who with
        | Payer p header => gate_payer p header name tool_cost
        | Transferred amount _ _ => admit_mcp_call "" name amount
        | Member org principal => gate_member c org principal name tool_cost
        | NoAccount => mret (inr None)
        end
    end.

(** ** Settlement *)
Definition payer_of (who : caller) : string :=
  match who with Payer p _ => payer (admission p) | Transferred _ _ source => source | _ => "" end.
Definition principal_text (who : caller) : string := match who with Member _ principal => principal | _ => "" end.

Definition _record_mcp_outcome (who : caller) (pc : Pending) (method : string) (status : charge_status) (tx : string) : Handler string :=
  record_charge uuid5 lower has_pool "mcp" (pc_event pc) method (pc_cost pc) status
    (if bool_decide (status = CSettled) then pc_cost pc else 0) tx (pc_org pc) (principal_text who) (payer_of who) (pc_tool pc) "".

(** The author to pay for a marketplace tool, if any *)
Definition _mcp_earnings_allocations (pc : Pending) : Handler (option (string * string)) :=
  if negb (str_in "/" (pc_tool pc)) || (pc_cost pc <=? 0) then mret None
  else
    let '(slug, name) := split_slash (pc_tool pc) in
    row ← catch (consult (λ now, marketplace_tool now name slug)) (λ _, mret None);
    mret (match row with
          | Some author => if is_empty author || bool_decide (author = pc_org pc) then None else Some (author, name)
          | None => None
          end).

Definition allocation_json (pc : Pending) (a : string * string) : json :=
  JObj [("author_org_id", JStr a.1); ("caller_org_id", JStr (pc_org pc)); ("tool_name", JStr a.2); ("total_cost_usdc", JInt (pc_cost pc))].

(** The earnings task it spawns runs here. *)
Definition pay_tool_author (pc : Pending) : Handler unit :=
  a ← _mcp_earnings_allocations pc;
  match a with
  | Some (author, name) => record_tool_call_earnings cfg uuid author name (pc_org pc) (pc_cost pc)
  | None => mret tt
  end.

Definition settle_member (who : caller) (pc : Pending) (ex : execution) : Handler response :=
  r ← debit_credit cfg uuid (pc_org pc) (pc_cost pc) ("mcp:" +:+ pc_tool pc) (truthy_id (Some (principal_text who)));
  if negb r.1 then
    charge_id ← _record_mcp_outcome who pc "credit" CFailed "";
    a ← _mcp_earnings_allocations pc;
    enqueue_failed_settlement cfg uuid (pc_event pc) (pc_org pc) (pc_event pc) Credit (pc_cost pc) None
      (truthy_id (Some (principal_text who))) charge_id (match a with Some a => [allocation_json pc a] | None => [] end);;
    mret (Released ex None)
  else
    _record_mcp_outcome who pc "credit" CSettled "";;
    pay_tool_author pc;;
    mret (Released ex None).

Definition settle_payer (who : caller) (p : Payment) (pc : Pending) (ex : execution) : Handler response :=
  settled_ ← settle_payment facilitator (Z.of_nat servers) p (pc_cost pc);
  match settled_ with
  | Some b =>
      if settled b then
        _record_mcp_outcome who pc "x402" CSettled (tx_hash b);;
        pay_tool_author pc;;
        mret (Released ex (Some (tx_hash b)))
      else
        _record_mcp_outcome who pc "x402" CFailed "";;
        mret (Withheld "Payment settlement failed; the tool result was withheld.")
  | None =>
      _record_mcp_outcome who pc "x402" CFailed "";;
      mret (Withheld "Payment settlement failed; the tool result was withheld.")
  end.

Definition _settle_billing (who : caller) (pc : Pending) (ex : execution) : Handler response :=
  match who with
  | Transferred _ tx _ =>
      _record_mcp_outcome who pc "mpp" CSettled tx;;
      (if is_error ex then mret tt else pay_tool_author pc);;
      mret (Released ex (Some tx))
  | _ =>
      if is_error ex then
        _release_x402_reservation who (Some pc);; mret (Released ex None)
      else
        match who with
        | Payer p _ => settle_payer who p pc ex
        | _ => settle_member who pc ex
        end
  end.

(** ** The request *)
Definition run_tool (who : caller) (name : string) (pending : option Pending) : Handler response :=
  ex ← catch (consult (λ now, execute now name)) (λ e, _release_x402_reservation who pending;; raise e);
  match pending with
  | Some pc =>
      if status_code ex =? 200 then _settle_billing who pc ex
      else _release_x402_reservation who pending;; mret (Released ex None)
  | None => mret (Released ex None)
  end.

Definition after_gate (c : McpCall) (who : caller) (pending : option Pending) : Handler response :=
  match pending, who with
  | None, (Payer _ _ | Transferred _ _ _) => _release_payment_claim who;; mret (Refused execution_unavailable)
  | None, _ =>
      if _is_community_tool (tool c) then
        mret (Refused (if mcp_billing_enabled gs then _bearer_required else execution_unavailable))
      else run_tool who (default "" (tool c)) pending
  | Some _, _ => run_tool who (default "" (tool c)) pending
  end.

Definition _enforce_org_rate_limit (who : caller) : Handler (option reply) :=
  match who with
  | Member org _ =>
      now ← datetime_now;
      mret (if negb (is_empty org) && org_over_limit now org
            then Some (Reply 429 (-32029) "Organization MCP rate limit exceeded. Please slow down.") else None)
  | _ => mret None
  end.

Definition after_auth (c : McpCall) (who : caller) : Handler response :=
  limited ← _enforce_org_rate_limit who;
  match limited with
  | Some resp => mret (Refused resp)
  | None =>
      gate ← _billing_gate c who;
      match gate with inl resp => mret (Refused resp) | inr pending => after_gate c who pending end
  end.

Definition dispatch_call (c : McpCall) : Handler response :=
  over ← (if is_anonymous c && negb (_carries_mpp_credential c) then _anonymous_failure_budget c else mret None);
  match over with
  | Some resp => mret (Refused resp)
  | None =>
      auth ← _authenticate c;
      match auth with inl resp => mret (Refused resp) | inr who => after_auth c who end
  end.

(** What escapes [dispatch] is answered with a 500. *)
Definition answer (c : McpCall) : Handler response :=
  catch (dispatch_call c) (λ _, mret (Refused (Reply 500 0 "Internal Server Error"))).

(** ** A call frees no claim but its own *)
Section claims.
Context (h : string).
Abbreviation K := (on_db (has_claim h)).
Abbreviation R := (keeps_claim h).

Definition frees_other (who : caller) : Prop :=
  match who with Payer _ header => claims_other h parse_payment_payload repr has_pool header | _ => True end.

Definition admits_other (r : res (reply + caller)) (d : Db) (x : Ext) : Prop :=
  K d x ∧ ∀ who, r = Ok (inr who) → frees_other who.

Lemma stable_K : stable R K.
Proof. intros d x d' x' Hd HR. by apply HR. Qed.

Lemma keeps_consult {I A} (f : Z → res A) : preserves I (consult f).
Proof. apply preserves_external. by intros now d x. Qed.

Lemma keeps_priced {I} (m : Handler Z) : preserves I m → preserves I (catch (k ← m; mret (Some k)) (λ _, mret None)).
Proof. intros Hm. apply preserves_catch; [|by inv_auto]. apply preserves_bind; [done|by inv_auto]. Qed.

Lemma keeps_cost {I} name : preserves I (match name with Some n => _resolve_tool_cost n | None => mret 0 end).
Proof. destruct name; [apply keeps_consult|by inv_auto]. Qed.

Lemma inl_admits m : preserves K m → rg R K (r ← m; mret (inl r)) admits_other.
Proof. intros Hm. apply rg_preserves_bind; [apply stable_K|done| |by intros e d x Hd]. intros a. by apply rg_ret. Qed.

Lemma inl_ret_admits resp : rg R K (mret (inl resp)) admits_other.
Proof. by apply rg_ret. Qed.

Lemma x402_admission_admits c : rg R K (x402_admission c) admits_other.
Proof.
  unfold x402_admission. apply rg_preserves_bind; [apply stable_K| | |by intros e d x Hd].
  { apply preserves_catch; [|by inv_auto]. apply preserves_bind; [|by inv_auto].
    apply preserves_bind; [apply keeps_cost|by inv_auto]. }
  intros [reqs|]; [|apply inl_ret_admits]. destruct (is_empty _); [apply inl_ret_admits|].
  unfold verify_x402. eapply rg_bind; [apply verify_payment_other| |by intros e d x [Hd _]].
  intros p. apply rg_ret. intros d x [Hd Ha]. split; [done|]. intros who. destruct (verified _) eqn:Ev; [|done].
  intros [= <-]. apply Ha. by exists p.
Qed.

Lemma paid_admission_admits c : rg R K (paid_admission c) admits_other.
Proof.
  unfold paid_admission. destruct (mpp_credential c) as [credential|]; [|apply x402_admission_admits].
  destruct (mpp_ready gs); [|apply x402_admission_admits]. unfold _handle_mpp_auth.
  eapply (rg_bind _ _ _ _ (λ r d x, K d x ∧ ∀ who, r = Ok (inr (Some who)) → frees_other who)).
  - apply rg_preserves_bind; [apply stable_K|apply keeps_priced, keeps_cost| |by intros e d x Hd].
    intros [k|]; [|by apply rg_ret]. destruct (k <=? 0); [by apply rg_ret|].
    eapply rg_bind; [apply verify_mpp_keeps| |by intros e d x Hd]. intros o. apply rg_ret. intros d x Hd.
    split; [done|]. intros who. by destruct o; intros [= <-].
  - intros [resp|[who|]]; [by apply rg_ret; intros d x [Hd _]|apply rg_ret; intros d x [Hd Hw]; split; [done|]; intros who' [= <-]; by apply Hw|].
    eapply (rg_weaken _ K); [|by intros d x [Hd _]].
    apply rg_preserves_bind; [apply stable_K|by unfold _anonymous_failure_budget; inv_auto| |by intros e d x Hd].
    intros [resp|]; [apply inl_ret_admits|apply x402_admission_admits].
  - intros e d x [Hd _]. by split.
Qed.

Lemma authenticate_admits c : rg R K (_authenticate c) admits_other.
Proof.
  assert (∀ resp, preserves K (_anonymous_failure_budget c) ∧ preserves K (_anonymous_ip_limit c) ∧ rg R K (mret (inl resp)) admits_other) as Hquick.
  { intros resp. split_and!; [by unfold _anonymous_failure_budget; inv_auto|by unfold _anonymous_ip_limit; inv_auto|apply inl_ret_admits]. }
  assert (rg R K (anonymous_auth c) admits_other) as Hanon.
  { unfold anonymous_auth. destruct (mcp_auth_enabled gs); [|by apply rg_ret; split; [|intros who [= <-]]].
    destruct (mcp_x402_enabled gs); [|apply inl_ret_admits]. unfold _handle_x402_auth.
    destruct (_is_community_tool _); [apply inl_ret_admits|]. destruct (bool_decide _); [|apply paid_admission_admits].
    apply rg_preserves_bind; [apply stable_K|apply keeps_priced, keeps_consult| |by intros e d x Hd].
    intros [k|]; [|apply inl_ret_admits]. destruct (k =? 0); [|apply paid_admission_admits].
    apply rg_preserves_bind; [apply stable_K|destruct (_carries_mpp_credential c); [apply Hquick, execution_unavailable|by inv_auto]| |by intros e d x Hd].
    intros [resp|]; [apply inl_ret_admits|].
    apply rg_preserves_bind; [apply stable_K|apply Hquick, execution_unavailable| |by intros e d x Hd].
    intros [resp|]; apply rg_ret; [done|]. intros d x Hd. split; [done|]. by intros who [= <-]. }
  unfold _authenticate. destruct (bearer c) as [token|]; [|done]. destruct (is_empty token); [done|].
  apply rg_preserves_bind; [apply stable_K|by inv_auto| |by intros e d x Hd].
  intros now. destruct (decode_token now token) as [e|org method sub]; [apply inl_ret_admits|].
  apply rg_preserves_bind; [apply stable_K| | |by intros e d x Hd].
  { unfold is_machine_credential_revoked, is_client_credential_disabled. destruct (_ || _); by inv_auto. }
  intros [|]; apply rg_ret; [done|]. intros d x Hd. split; [done|]. by intros who [= <-].
Qed.

Lemma keeps_gate c who : frees_other who → preserves K (_billing_gate c who).
Proof.
  intros Hw. unfold _billing_gate. destruct (negb _); [by inv_auto|].
  assert (∀ org name cost, preserves K (admit_mcp_call org name cost)) as Hadmit by (intros; by unfold admit_mcp_call; inv_auto).
  destruct who as [|org principal|p header|amount tx source]; [by inv_auto| | |]; (destruct (tool c) as [name|]; [|by inv_auto]);
    (apply preserves_bind; [apply keeps_consult|]; intros cost).
  - unfold gate_member. apply preserves_bind.
    + unfold gate_marketplace. destruct (negb _); [by inv_auto|]. apply preserves_bind.
      { destruct (onboarding_credit_enabled gs); [|by inv_auto]. unfold is_promotional_credit. by inv_auto. }
      intros [|]; [by inv_auto|]. destruct (split_slash name). apply preserves_bind; [apply keeps_consult|by inv_auto].
    + intros [resp|]; [by inv_auto|]. destruct (gate_max_cost _ _); [by inv_auto|]. apply preserves_bind.
      * unfold verify_credit, verify_principal, _get_daily_principal_debit_spend, _get_daily_debit_spend. inv_auto.
      * intros b. destruct (verified b); [apply Hadmit|by inv_auto].
  - unfold gate_payer. cbv zeta. pose proof (keeps_release h _ repr _ header Hw) as Hrel.
    assert (∀ resp, preserves K (release_nonce header;; mret (inl resp : reply + option Pending))) as Hrefuse
      by (intros; apply preserves_bind; [done|by inv_auto]).
    destruct (_ || _); [apply Hrefuse|]. apply preserves_bind; [by inv_auto|]. intros now.
    destruct (payer_over_budget _ _); [apply Hrefuse|]. apply preserves_bind; [apply keeps_reservation|].
    intros [|]; [apply Hadmit|apply Hrefuse].
  - apply Hadmit.
Qed.

Lemma keeps_record who pc m st tx : preserves K (_record_mcp_outcome who pc m st tx).
Proof. eapply keeps_settlement, (record_charge_commits cfg). Qed.

Lemma keeps_allocations {I} pc : preserves I (_mcp_earnings_allocations pc).
Proof.
  unfold _mcp_earnings_allocations. destruct (_ || _); [by inv_auto|]. destruct (split_slash _).
  apply preserves_bind; [|by inv_auto]. apply preserves_catch; [apply keeps_consult|by inv_auto].
Qed.

Lemma keeps_author pc : preserves K (pay_tool_author pc).
Proof.
  apply preserves_bind; [apply keeps_allocations|]. intros [[author name]|]; [|by inv_auto].
  eapply keeps_settlement, record_earnings_commits.
Qed.

Lemma keeps_settle_payment {I} p cost : preserves I (settle_payment facilitator (Z.of_nat servers) p cost).
Proof.
  unfold settle_payment. destruct (negb _); [by inv_auto|]. destruct (_ <=? _); [by inv_auto|].
  apply preserves_bind; [|by intros [[]|]; inv_auto]. apply preserves_catch; [|by inv_auto].
  apply preserves_bind; [apply preserves_external; by intros now d x|by inv_auto].
Qed.

Lemma keeps_settle who pc ex : frees_other who → preserves K (_settle_billing who pc ex).
Proof.
  intros Hw. assert (∀ {A} m st tx (k : Handler A), preserves K k → preserves K (_record_mcp_outcome who pc m st tx;; k)) as Hrec
    by (intros; apply preserves_bind; [apply keeps_record|done]).
  assert (∀ r : response, preserves K (pay_tool_author pc;; mret r)) as Hpay by (intros; apply preserves_bind; [apply keeps_author|by inv_auto]).
  assert (∀ r : response, preserves K (_release_x402_reservation who (Some pc);; mret r)) as Hrel.
  { intros r. apply preserves_bind; [|by inv_auto]. destruct who; try by inv_auto. apply preserves_catch; [by apply keeps_release|by inv_auto]. }
  assert (preserves K (settle_member who pc ex)) as Hmember.
  { unfold settle_member. apply preserves_bind; [eapply keeps_credit, debit_credit_commits|]. intros r. destruct (negb _); [|by apply Hrec, Hpay].
    apply preserves_bind; [apply keeps_record|]. intros charge_id. apply preserves_bind; [apply keeps_allocations|]. intros a.
    apply preserves_bind; [eapply keeps_settlement, enqueue_commits|by inv_auto]. }
  unfold _settle_billing. destruct who as [|org principal|p header|amount tx source]; try (destruct (is_error ex); [apply Hrel|done]).
  - destruct (is_error ex); [apply Hrel|]. unfold settle_payer. apply preserves_bind; [apply keeps_settle_payment|].
    intros [b|]; [|apply Hrec; by inv_auto]. destruct (settled b); apply Hrec; [apply Hpay|by inv_auto].
  - apply Hrec. apply preserves_bind; [|by inv_auto]. destruct (is_error ex); [by inv_auto|apply keeps_author].
Qed.

Lemma keeps_after_gate c who pending : frees_other who → preserves K (after_gate c who pending).
Proof.
  intros Hw. assert (preserves K (_release_x402_reservation who pending)) as Hrel.
  { destruct who, pending; try by inv_auto. apply preserves_catch; [by apply keeps_release|by inv_auto]. }
  assert (∀ name, preserves K (run_tool who name pending)) as Hrun.
  { intros name. unfold run_tool. apply preserves_bind.
    - apply preserves_catch; [apply keeps_consult|]. intros e. apply preserves_bind; [done|by inv_auto].
    - intros ex. destruct pending as [pc|]; [|by inv_auto]. destruct (_ =? _); [by apply keeps_settle|].
      apply preserves_bind; [done|by inv_auto]. }
  unfold after_gate. destruct pending, who; try apply Hrun;
    try (destruct (_is_community_tool _); [by inv_auto|apply Hrun]).
  - apply preserves_bind; [by apply keeps_release|by inv_auto].
  - apply preserves_bind; by inv_auto.
Qed.

(** C12. Whatever a call carries and however it ends, the claim of a payment that it did not claim
    itself stays: no call lets a payment that was used be used again. *)
Theorem gateway_keeps_claims c : rg R K (dispatch_call c) (λ _, K).
Proof.
  unfold dispatch_call. apply rg_preserves_bind; [apply stable_K| | |by intros e d x Hd].
  { unfold _anonymous_failure_budget. destruct (_ && _); by inv_auto. }
  intros [resp|]; [by apply rg_ret|]. eapply rg_bind; [apply authenticate_admits| |by intros e d x [Hd _]].
  intros [resp|who]; [by apply rg_ret; intros d x [Hd _]|].
  eapply (rg_pure _ _ (frees_other who)); [intros d x [_ Hw]; by apply Hw|]. intros Hw.
  eapply (rg_weaken _ K); [|by intros d x [Hd _]]. apply rg_preserves; [apply stable_K|].
  unfold after_auth. apply preserves_bind; [by unfold _enforce_org_rate_limit; inv_auto|]. intros [resp|]; [by inv_auto|].
  apply preserves_bind; [by apply keeps_gate|]. intros [resp|pending]; [by inv_auto|by apply keeps_after_gate].
Qed.

End claims.

(** ** A signed authorization buys one result *)

Definition bought (r : res response) : Prop := ∃ ex tx, r = Ok (Released ex (Some tx)).

(** An anonymous call that pays with this header *)
Definition pays_by (header : string) (c : McpCall) : Prop :=
  is_anonymous c = true ∧ mpp_credential c = None ∧ payment_header c = Some header.

(** Who pays nothing gets nothing that was paid for. *)
Lemma free_not_bought {I} c : wpi I (after_auth c NoAccount) (λ r, ¬ bought r).
Proof.
  unfold after_auth. apply wpi_bind, wpi_ret. cbv beta iota. assert (_billing_gate c NoAccount = mret (inr None)) as ->.
  { unfold _billing_gate. by destruct (negb _). }
  apply wpi_bind, wpi_ret. cbn. destruct (_is_community_tool _).
  - apply wpi_ret. by intros (? & ? & [=]).
  - unfold run_tool. apply wpi_bind. apply (wpi_mono _ _ (λ _, True)).
    + apply preserves_catch; [apply keeps_consult|by inv_auto].
    + intros [ex|e] _; [apply wpi_ret|]; by intros (? & ? & [=]).
Qed.

Section buys.
Context (header : string) (h : string) (Hh : _payment_nonce_hash parse_payment_payload repr header = h) (Hpool : has_pool = true).
Abbreviation K := (on_db (has_claim h)).
Abbreviation R := (keeps_claim h).

Definition admits_guarded (c : bool) (r : res (reply + caller)) (d : Db) (x : Ext) : Prop :=
  guarded h c (∃ p, r = Ok (inr (Payer p header))) d ∧
  ∀ who, r = Ok (inr who) → who = NoAccount ∨ ∃ p, who = Payer p header.

Lemma refused_guarded c resp : rg R (claimed_if h c) (mret (inl resp)) (admits_guarded c).
Proof. apply rg_ret. intros d x Hd. split; [|done]. eapply guarded_lost; [exact Hd|by intros (p & [=])]. Qed.

Lemma free_guarded c : rg R (claimed_if h c) (mret (inr NoAccount)) (admits_guarded c).
Proof. apply rg_ret. intros d x Hd. split; [eapply guarded_lost; [exact Hd|by intros (p & [=])]|]. intros who [= <-]. by left. Qed.

Lemma raised_guarded c e d x : claimed_if h c d x → admits_guarded c (Raise e) d x.
Proof. intros Hd. split; [eapply guarded_lost; [exact Hd|by intros (p & [=])]|done]. Qed.

Lemma authenticate_guarded c call : pays_by header call → rg R (claimed_if h c) (_authenticate call) (admits_guarded c).
Proof.
  intros (Hanon & Hmpp & Hhd).
  assert (_authenticate call = anonymous_auth call) as ->.
  { unfold _authenticate. revert Hanon. unfold is_anonymous. destruct (bearer call); [by intros ->|done]. }
  assert (rg R (claimed_if h c) (x402_admission call) (admits_guarded c)) as Hpay.
  { unfold x402_admission. rewrite Hhd. cbn. apply rg_preserves_bind; [apply claimed_if_stable| | |by apply raised_guarded].
    { apply preserves_catch; [|by inv_auto]. apply preserves_bind; [|by inv_auto]. apply preserves_bind; [apply keeps_cost|by inv_auto]. }
    intros [reqs|]; [|apply refused_guarded]. destruct (is_empty header); [apply refused_guarded|].
    unfold verify_x402. eapply rg_bind; [by apply (verify_payment_rg _ _ _ _ _ _ header h Hh Hpool c)| |].
    - intros p. apply rg_ret. intros d x [Hw Hn]. split.
      + assert ((∃ p', Ok (if verified (admission p) then inr (Payer p header) else inl (Reply 402 0 (error (admission p)))) = Ok (inr (Payer p' header) : reply + caller)) → admitted (Ok p)) as Ha.
        { intros (p' & E). exists p. split; [done|]. by destruct (verified (admission p)). }
        split; [intros [?|?%Ha]; apply Hw; tauto|intros [? ?%Ha]; tauto].
      + intros who. destruct (verified (admission p)); [|done]. intros [= <-]. right. by exists p.
    - intros e d x [Hw Hn]. split; [|done]. split; [intros [?|(p & [=])]; apply Hw; tauto|by intros [? (p & [=])]]. }
  assert (paid_admission call = x402_admission call) as Hpaid by (unfold paid_admission; by rewrite Hmpp).
  unfold anonymous_auth. destruct (mcp_auth_enabled gs); [|apply free_guarded]. destruct (mcp_x402_enabled gs); [|apply refused_guarded].
  unfold _handle_x402_auth. destruct (_is_community_tool _); [apply refused_guarded|]. rewrite Hpaid.
  destruct (bool_decide _); [|done].
  apply rg_preserves_bind; [apply claimed_if_stable|apply keeps_priced, keeps_consult| |by apply raised_guarded].
  intros [k|]; [|apply refused_guarded]. destruct (k =? 0); [|done].
  apply rg_preserves_bind; [apply claimed_if_stable|unfold _anonymous_failure_budget; destruct (_carries_mpp_credential _); by inv_auto| |by apply raised_guarded].
  intros [resp|]; [apply refused_guarded|].
  apply rg_preserves_bind; [apply claimed_if_stable|by unfold _anonymous_ip_limit; inv_auto| |by apply raised_guarded].
  intros [resp|]; [apply refused_guarded|apply free_guarded].
Qed.

Abbreviation anything := (λ (_ : Db) (_ : Ext), True).

Lemma release_result {A} hd (m : Handler A) Q : wpi anything m Q → (∀ e, Q (Raise e)) → wpi anything (release_nonce hd;; m) Q.
Proof.
  intros Hm HQ. apply wpi_bind, (wpi_mono _ _ (λ _, True)); [|by intros [[]|e] _].
  unfold release_payment_nonce. destruct has_pool; by inv_auto.
Qed.

Lemma gate_claimed p call : rg R K (_billing_gate call (Payer p header)) (λ r d x, ∀ o, r = Ok (inr o) → K d x).
Proof.
  unfold _billing_gate. destruct (negb _); [by apply rg_ret|]. destruct (tool call) as [name|]; [|by apply rg_ret].
  apply rg_preserves_bind; [apply stable_K|apply keeps_consult| |done]. intros cost. unfold gate_payer. cbv zeta.
  assert (∀ resp P, rg R P (release_nonce header;; mret (inl resp : reply + option Pending)) (λ r d x, ∀ o, r = Ok (inr o) → K d x)) as Hrefuse.
  { intros resp P. eapply rg_mono; [apply (rg_result _ P _ (λ r, ∀ o, r ≠ Ok (inr o)))|done|by intros r d x Hr o ->; destruct (Hr o)].
    apply release_result; [by apply wpi_ret|done]. }
  destruct (_ || _); [apply Hrefuse|]. apply rg_preserves_bind; [apply stable_K|by inv_auto| |done]. intros now.
  destruct (payer_over_budget _ _); [apply Hrefuse|]. apply rg_preserves_bind; [apply stable_K|apply keeps_reservation| |done].
  intros [|]; [|apply Hrefuse]. unfold admit_mcp_call. apply rg_preserves_bind; [apply stable_K|by inv_auto| |done].
  intros event. by apply rg_ret.
Qed.

Lemma after_gate_claimed p call pending : rg R K (after_gate call (Payer p header) pending) (λ r d x, bought r → K d x).
Proof.
  assert (∀ {A} (m : Handler A) (f : A → Handler response), preserves K m → (∀ a, rg R K (f a) (λ r d x, bought r → K d x)) → rg R K (m ≫= f) (λ r d x, bought r → K d x)) as Hbind.
  { intros A m f Hm Hf. apply rg_preserves_bind; [apply stable_K|done|done|by intros e d x Hd _]. }
  assert (∀ resp P, (∀ ex tx, resp ≠ Released ex (Some tx)) → rg R P (release_nonce header;; mret resp) (λ r d x, bought r → K d x)) as Hrefuse.
  { intros resp P Hresp. eapply rg_mono; [apply (rg_result _ P _ (λ r, ¬ bought r))|done|by intros r d x ? ?].
    apply release_result; [apply wpi_ret; by intros (ex & tx & [= ->]); eapply Hresp|by intros e (? & ? & [=])]. }
  assert (∀ resp, (∀ ex tx, resp ≠ Released ex (Some tx)) → rg R K (catch (release_nonce header) (λ _, mret tt);; mret resp) (λ r d x, bought r → K d x)) as Hquiet.
  { intros resp Hresp. eapply rg_mono; [apply (rg_result _ K _ (λ r, ¬ bought r))|done|by intros r d x ? ?].
    apply wpi_bind, wpi_catch. unfold release_payment_nonce. destruct has_pool.
    - apply wpi_stmt; [apply wpi_ret, wpi_ret; by intros (ex & tx & [= ->]); eapply Hresp|]. intros now d x _. split; [done|]. apply wpi_ret. by intros (ex & tx & [= ->]); eapply Hresp.
    - apply wpi_ret, wpi_ret. by intros (ex & tx & [= ->]); eapply Hresp. }
  unfold after_gate. destruct pending as [pc|]; [|by apply Hrefuse]. unfold run_tool.
  eapply (rg_bind _ _ _ _ (λ r d x, ∀ a, r = Ok a → K d x)).
  - eapply (rg_catch _ _ _ _ (λ _, K)); [apply rg_preserves; [apply stable_K|apply keeps_consult]| |done].
    intros e. eapply rg_mono; [apply (rg_result _ K _ (λ r, ∀ a, r ≠ Ok a))|done|by intros r d x Hr a ->; destruct (Hr a)].
    apply wpi_bind, (wpi_mono _ _ (λ _, True)); [|by intros [[]|e'] _; [apply wpi_raise|]].
    apply wpi_catch. unfold release_payment_nonce. destruct has_pool; by inv_auto.
  - intros ex. eapply (rg_weaken _ K); [|by intros d x Hd; eapply Hd].
    destruct (_ =? _); [|by apply Hquiet]. unfold _settle_billing. destruct (is_error ex); [by apply Hquiet|].
    unfold settle_payer. apply Hbind; [apply keeps_settle_payment|].
    assert (∀ m st tx (k : Handler response), preserves K k → rg R K (_record_mcp_outcome (Payer p header) pc m st tx;; k) (λ r d x, bought r → K d x)) as Hrec.
    { intros m st tx k Hk. apply Hbind; [apply keeps_record|]. intros _. eapply rg_mono; [apply rg_preserves; [apply stable_K|done]|done|by intros r d x Hd _]. }
    intros [b|]; [destruct (settled b)|]; apply Hrec; [apply preserves_bind; [apply keeps_author|]|..]; by inv_auto.
  - by intros e d x _ (? & ? & [=]).
Qed.

(** With an anonymous payment, the call ends with a result bought by it or leaves the claims alone. *)
Lemma after_auth_claimed p call : rg R K (after_auth call (Payer p header)) (λ r d x, bought r → K d x).
Proof.
  unfold after_auth. apply rg_preserves_bind; [apply stable_K|by inv_auto| |by intros e d x _ (? & ? & [=])].
  intros limited. destruct limited as [resp|]; [apply rg_ret; by intros d x _ (? & ? & [=])|].
  eapply rg_bind; [apply gate_claimed| |by intros e d x _ (? & ? & [=])].
  intros [resp|pending]; [apply rg_ret; by intros d x _ (? & ? & [=])|].
  eapply (rg_weaken _ K); [apply after_gate_claimed|by intros d x Hd; eapply Hd].
Qed.

Lemma dispatch_guarded c call : pays_by header call → rg R (claimed_if h c) (dispatch_call call) (λ r d _, guarded h c (bought r) d).
Proof.
  intros Hpay. assert (∀ r d x, claimed_if h c d x → ¬ bought r → guarded h c (bought r) d) as Hlost by (intros; by eapply guarded_lost).
  assert (∀ resp P, (∀ d x, P d x → claimed_if h c d x) → rg R P (mret (Refused resp)) (λ r d x, guarded h c (bought r) d)) as Hret.
  { intros resp P HP. apply rg_ret. intros d x Hd. eapply Hlost; [by apply HP|]. by intros (ex & tx & [=]). }
  unfold dispatch_call.
  apply rg_preserves_bind; [apply claimed_if_stable| | |intros e d x Hd; eapply Hlost; [exact Hd|by intros (? & ? & [=])]].
  { unfold _anonymous_failure_budget. destruct (_ && _); by inv_auto. }
  intros [resp|]; [by apply Hret|]. eapply rg_bind; [by apply authenticate_guarded| |].
  - intros [resp|who]; [apply Hret; intros d x [[Hw _] _] Hc; apply Hw; by left|].
    eapply (rg_pure _ _ (who = NoAccount ∨ ∃ p, who = Payer p header)); [by intros d x [_ Hw]; apply Hw|]. intros [->|[p ->]].
    + eapply (rg_weaken _ (claimed_if h c)); [|intros d x [[Hw _] _] Hc; apply Hw; by left].
      eapply rg_mono; [apply rg_wpi; [apply claimed_if_stable|apply free_not_bought]|done|]. intros r d x [Hd Hr]. by eapply Hlost.
    + eapply (rg_pure _ _ (c = false)); [intros d x [[_ Hn] _]; destruct c; [destruct Hn; split; [done|by exists p]|done]|]. intros ->.
      eapply (rg_weaken _ K); [|intros d x [[Hw _] _]; apply Hw; right; by exists p].
      eapply rg_mono; [apply after_auth_claimed|done|]. intros r d x Hr. split; [by intros [[=]|?]; apply Hr|by intros [[=] _]].
  - intros e d x [[Hw _] _]. eapply (Hlost _ _ x); [|by intros (? & ? & [=])]. intros Hc. apply Hw. by left.
Qed.
End buys.

(** Calls one after the other, counting the results they bought *)
Definition is_bought (r : response) : bool := match r with Released _ (Some _) => true | _ => false end.

Definition purchases (l : list McpCall) : Handler nat :=
  for_each l 0%nat (λ n c, r ← answer c; mret (if is_bought r then S n else n)).


(** ** A member pays the price of what is released *)

Definition within_bound (bound : option json) (cost : Z) : Prop := ∀ m, bound = Some (JInt m) → 0 ≤ m ∧ cost ≤ m.

(** The organisation is debited, or the charge is left to the retry queue. *)
Definition member_charged (org principal name : string) (cost : Z) (d d' : Db) : Prop :=
  if cost <=? 0 then same_money d d'
  else
    (∃ now id, debit_admissible cfg now org cost (truthy_id (Some principal)) d = true ∧
       ledger d' = ledger d ++ [debit_entry now org cost ("mcp:" +:+ name) (truthy_id (Some principal)) d id] ∧
       pending_settlements d' = pending_settlements d) ∨
    (∃ event, enqueued event Credit cost d d').

Lemma consult_solo {A} (f : Z → res A) d x : wps (consult f) (λ r d' x', d' = d ∧ x' = x ∧ ((∃ t, r = f t) ∨ ∃ e, r = Raise e)) d x.
Proof. unfold consult. solo_step; eauto 10. Qed.

Lemma record_outcome_solo who pc m st tx d x :
  wps (_record_mcp_outcome who pc m st tx) (λ r d' _, (∃ id, r = Ok id) ∧ same_money d d') d x.
Proof.
  unfold _record_mcp_outcome, record_charge. destruct has_pool; cbn [negb]; [|solo_step; split; [by eexists|done]].
  solo_step. solo_step. solo_step; [do 2 solo_step; split; [by eexists|done]|]. intros now.
  destruct (insert_charge _ _ _) as [[[] d']|e] eqn:E; [|do 2 solo_step; split; [by eexists|done]].
  solo_step. split; [eauto|]. apply insert_charge_ok in E as [-> | ->]; done.
Qed.

Lemma allocations_solo pc d x : wps (_mcp_earnings_allocations pc) (λ r d' _, (∃ a, r = Ok a) ∧ d' = d) d x.
Proof.
  unfold _mcp_earnings_allocations. destruct (_ || _); [solo_step; eauto|]. destruct (split_slash _). solo_step. solo_step.
  eapply wps_mono; [apply consult_solo|]. intros [a|e] d' x' (-> & -> & _); repeat solo_step; eauto.
Qed.

Lemma pay_author_solo pc d x : wps (pay_tool_author pc) (λ r d' _, r = Ok tt ∧ same_money d d') d x.
Proof.
  unfold pay_tool_author. solo_step. eapply wps_mono; [apply allocations_solo|]. intros r d' x' [[a ->] ->].
  destruct a as [[author name]|]; [|by solo_step]. unfold record_tool_call_earnings. case_bool_decide; [by solo_step|].
  solo_step. solo_step. unfold insert_tool_call_earnings. destruct (_ || _); [by do 2 solo_step|]. solo_step. solo_step. solo_step.
  solo_step; [by solo_step|]. intros now. destruct (insert_earning _ _ _) as [[[] d2]|e] eqn:E; [|by solo_step].
  do 2 solo_step. split; [done|]. by apply insert_earning_ok in E as (_ & -> & _).
Qed.


Lemma verify_credit_solo org m pid d x : wps (verify_credit cfg org m pid) (λ r d' _, d' = d) d x.
Proof. unfold verify_credit, verify_principal, _get_daily_principal_debit_spend, _get_daily_debit_spend. solo_auto. Qed.

Lemma settle_member_solo org principal name cost event ex d x :
  wps (settle_member (Member org principal) (MkPendingCall org cost name event) ex)
    (λ r d' _, r = Ok (Released ex None) ∧ member_charged org principal name cost d d') d x.
Proof.
  unfold settle_member, member_charged. cbn [pc_org pc_cost pc_tool pc_event principal_text].
  assert (∀ d1 x1 (P : Db → Prop), (∀ d2, same_money d1 d2 → P d2) →
    wps (_record_mcp_outcome (Member org principal) (MkPendingCall org cost name event) "credit" CSettled "";;
         pay_tool_author (MkPendingCall org cost name event);; mret (Released ex None))
      (λ r d' _, r = Ok (Released ex None) ∧ P d') d1 x1) as Hpaid.
  { intros d1 x1 P HP. solo_step. eapply wps_mono; [apply record_outcome_solo|]. intros r d2 x2 [[i ->] H2]. solo_step.
    eapply wps_mono; [apply pay_author_solo|]. intros r d3 x3 [-> H3]. solo_step. split; [done|]. apply HP. by eapply same_money_trans. }
  solo_step. destruct (cost <=? 0) eqn:E.
  - unfold debit_credit. rewrite E. solo_step. cbn [fst negb]. by apply Hpaid.
  - eapply wps_mono; [apply debit_credit_spec; lia|]. intros r d1 x1 (ok & n & -> & H). cbn [fst]. destruct ok; cbn [negb].
    + destruct H as (_ & _ & now & id & Had & Hp). apply Hpaid. intros d2 (Hl & _ & Hpd). left. exists now, id. split_and!; [done| |].
      * rewrite Hl. by apply ledger_posted.
      * rewrite Hpd. by rewrite (posted_frame _ _ _ Hp).
    + destruct H as [_ ->]. solo_step. eapply wps_mono; [apply record_outcome_solo|]. intros r d2 x2 [[i ->] H2]. solo_step.
      eapply wps_mono; [apply allocations_solo|]. intros r d3 x3 [[a ->] ->]. solo_step.
      eapply wps_mono; [apply enqueue_solo|]. intros r d4 x4 [-> H4]. solo_step. split; [done|]. right. exists event.
      by eapply enqueued_after.
Qed.

Lemma gate_max_cost_spec bound cost : gate_max_cost bound cost = None → within_bound bound cost.
Proof. intros H m ->. simpl in H. repeat case_match; try done. case_bool. lia. Qed.

Lemma gate_member_solo c org principal name cost d x :
  wps (gate_member c org principal name cost) (λ r d' _, d' = d ∧
    ∀ o, r = Ok (inr o) → within_bound (max_cost c) cost ∧ ∃ event, o = Some (MkPendingCall org cost name event)) d x.
Proof.
  unfold gate_member. solo_step. apply (wps_mono _ (λ r d' _, d' = d)).
  { unfold gate_marketplace. destruct (negb _); [by solo_step|]. solo_step. apply (wps_mono _ (λ r d' _, d' = d)).
    { destruct (onboarding_credit_enabled gs); [|by solo_step]. unfold is_promotional_credit. by solo_auto. }
    intros [[|]|e] d1 x1 ->; [by solo_step| |done]. destruct (split_slash name). solo_step.
    eapply wps_mono; [apply consult_solo|]. intros [a|e] d' x' (-> & _ & _); [by solo_step|done]. }
  intros [[resp|]|e] d1 x1 ->; [by solo_step| |done]. destruct (gate_max_cost _ _) eqn:Hb; [by solo_step|]. solo_step.
  eapply wps_mono; [apply verify_credit_solo|]. intros [b|e] d2 x2 ->; [|done]. destruct (verified b); [|by solo_step].
  unfold admit_mcp_call. do 3 solo_step. split; [done|]. intros o [= <-]. split; [by apply gate_max_cost_spec|]. by eexists.
Qed.

(** The call of a member that is not settled: no tool was run for money, or the tool failed. *)
Definition unsettled (c : McpCall) (r : res response) : Prop :=
  ∀ ex receipt, r = Ok (Released ex receipt) →
  mcp_billing_enabled gs = false ∨ tool c = None ∨ status_code ex ≠ 200 ∨ is_error ex = true.

(** C2. The credit of a member's organisation moves only for a result that is released and did not
    fail, and then by exactly the price asked for the tool during the call, a price within the bound
    that the caller set: the debit is admissible under the organisation's and the principal's limits,
    or the charge is queued. Refusals, errors and failed tools move none.  (Nothing else runs meanwhile,
    and no acknowledgement of a commit is lost.) *)
Theorem member_pays_price_or_nothing c org principal d x :
  wps (after_auth c (Member org principal)) (λ r d' _,
    same_money d d' ∧ unsettled c r ∨
    ∃ ex name cost t, r = Ok (Released ex None) ∧ status_code ex = 200 ∧ is_error ex = false ∧
      tool c = Some name ∧ price t name = Ok cost ∧ within_bound (max_cost c) cost ∧
      member_charged org principal name cost d d') d x.
Proof.
  assert (∀ resp d', same_money d d' ∧ unsettled c (Ok (Refused resp)) ↔ same_money d d') as Hr by (intros; split; [by intros [? _]|by intros ?; split]).
  unfold after_auth, _enforce_org_rate_limit. do 4 solo_step. destruct (_ && _); [solo_step; by left|]. solo_step.
  apply (wps_mono _ (λ r d' _, d' = d ∧ ∀ o, r = Ok (inr o) → (o = None ∧ (mcp_billing_enabled gs = false ∨ tool c = None)) ∨
    ∃ name cost t event, tool c = Some name ∧ price t name = Ok cost ∧ within_bound (max_cost c) cost ∧ o = Some (MkPendingCall org cost name event))).
  { unfold _billing_gate. destruct (mcp_billing_enabled gs); cbn [negb]; [|solo_step; split; [done|]; intros o [= <-]; by eauto].
    destruct (tool c) as [name|]; [|solo_step; split; [done|]; intros o [= <-]; by eauto]. solo_step.
    eapply wps_mono; [apply consult_solo|]. intros [cost|e] d1 x1 (-> & -> & Hc); [|done].
    destruct Hc as [[t0 Ht]|[e [=]]]. eapply wps_mono; [apply gate_member_solo|]. intros r d2 x2 [-> Ho]. split; [done|].
    intros o Hro. right. destruct (Ho o Hro) as (Hw & event & ->). by exists name, cost, t0, event. }
  intros [[resp|pending]|e] d1 x1 [-> Ho]; [solo_step; by left| |by left].
  assert (∀ name, wps (run_tool (Member org principal) name pending) (λ r d' _,
      same_money d d' ∧ unsettled c r ∨
      ∃ ex name cost t, r = Ok (Released ex None) ∧ status_code ex = 200 ∧ is_error ex = false ∧
        tool c = Some name ∧ price t name = Ok cost ∧ within_bound (max_cost c) cost ∧
        member_charged org principal name cost d d') d x1) as Hrun.
  { intros nm. unfold run_tool. solo_step. solo_step. eapply wps_mono; [apply consult_solo|].
    intros [ex|e] d2 x2 (-> & -> & _); [|unfold _release_x402_reservation; solo_step; solo_step; solo_step; by left].
    destruct (Ho pending eq_refl) as [[-> Hn]|(name & cost & t0 & event & Hname & Ht & Hw & ->)].
    { solo_step. left. split; [done|]. intros ex' rc _. tauto. }
    destruct (status_code ex =? 200) eqn:E2.
    - unfold _settle_billing. destruct (is_error ex) eqn:Ee.
      + unfold _release_x402_reservation. do 3 solo_step. left. split; [done|]. intros ex' rc [= <- <-]. tauto.
      + eapply wps_mono; [apply settle_member_solo|]. intros r d3 x3 [-> Hch]. right. exists ex, name, cost, t0. case_bool. done.
    - unfold _release_x402_reservation. do 3 solo_step. left. split; [done|]. intros ex' rc [= <- <-]. case_bool. tauto. }
  unfold after_gate. destruct pending as [pc|]; [apply Hrun|]. destruct (_is_community_tool _); [solo_step; by left|apply Hrun].
Qed.

End gate.

(** ** One gateway: a payer, a member and an MPP payer *)
Module GateDemo.
Definition gs : GateSettings := MkGateSettings true true true false true 1000000.
Definition decode (now : Z) (token : string) : token_answer :=
  if bool_decide (token = "good") then TokenOk "acme" "siwe" "alice"
  else if bool_decide (token = "bot") then TokenOk "acme" "client_credentials" "bot-1" else TokenRejected "invalid token".
Definition never {A} (now : Z) (a : A) : bool := false.
Definition price (cost : Z) (now : Z) (name : string) : res Z := Ok cost.
Definition no_market (now : Z) (name slug : string) : res (option string) := Ok None.
(** The tool fails before the second minute. *)
Definition execute (now : Z) (name : string) : res execution := Ok (MkExecution 200 (now <? seconds 1060)).

Section run.
Context (cost : Z → string → res Z).
Definition dispatch (c : McpCall) : World Db Ext → res response * World Db Ext :=
  dispatch_call PostRunDemo.cfg gs CreditDemo.uuid PostRunDemo.uuid5 PostRunDemo.lower true decode cost no_market never never never never execute
    X402Demo.parse X402Demo.repr X402Demo.parse_verify X402Demo.ask PostRunDemo.facilitator 3 [] (λ cost, [MkRequirement "exact" cost])
    MppDemo.settings MppDemo.float_repr MppDemo.loads MppDemo.fromisoformat MppDemo.get_receipt MppDemo.get_block c.
Definition buy (l : list McpCall) (w : World Db Ext) : res nat :=
  (purchases PostRunDemo.cfg gs CreditDemo.uuid PostRunDemo.uuid5 PostRunDemo.lower true decode cost no_market never never never never execute
    X402Demo.parse X402Demo.repr X402Demo.parse_verify X402Demo.ask PostRunDemo.facilitator 3 [] (λ cost, [MkRequirement "exact" cost])
    MppDemo.settings MppDemo.float_repr MppDemo.loads MppDemo.fromisoformat MppDemo.get_receipt MppDemo.get_block l w).1.
End run.

Definition pay (header : string) : McpCall := MkMcpCall None (Some "web_search") (Some header) None None "1.2.3.4".
Definition member (token : string) (bound : Z) : McpCall := MkMcpCall (Some token) (Some "web_search") None None (Some (JInt bound)) "1.2.3.4".
Definition transfer (cost : Z) : McpCall := MkMcpCall None (Some "web_search") None (Some (MppDemo.credential cost MppDemo.payer)) None "1.2.3.4".
Definition at_second (n : Z) (d : Db) : World Db Ext := initial_world d (seconds n) [].

(** Repackaged, the authorization buys nothing more; a call that failed gave it back. *)
Example bought_once : buy (price 10000) [pay "first"; pay "second"; pay "first"] (at_second 2000 empty_db) = Ok 1%nat.
Proof. vm_compute. reflexivity. Qed.

Example failure_gives_back : let '(r, w) := dispatch (price 10000) (pay "first") (at_second 1000 empty_db) in
  r = Ok (Released (MkExecution 200 true) None) ∧ payment_nonces (db w) = ∅.
Proof. vm_compute. split; reflexivity. Qed.

Definition with_member (now : Z) : World Db Ext :=
  CreditDemo.w0 <| clock := now |> <| sched := [] |> <| uuid_n := 50%nat |>.

(** The client credential is unknown, so it is refused. *)
Example unknown_credential : (dispatch (price 10000) (member "bot" 20000) (with_member (seconds 2000))).1 = Ok (Refused (Reply 403 0 "credential_disabled")).
Proof. vm_compute. reflexivity. Qed.

Example member_bound : let '(r, w) := dispatch (price 10000) (member "good" 9999) (with_member (seconds 2000)) in
  r = Ok (Refused (Reply 402 (-32004) "Tool price 10000 atomic USDC exceeds max_cost_usdc 9999.")) ∧ balance "acme" (db w) = 1000000.
Proof. vm_compute. split; reflexivity. Qed.

Example member_debited : let '(r, w) := dispatch (price 10000) (member "good" 10000) (with_member (seconds 2000)) in
  r = Ok (Released (MkExecution 200 false) None) ∧ balance "acme" (db w) = 990000.
Proof. vm_compute. split; reflexivity. Qed.

Example member_not_debited : let '(r, w) := dispatch (price 10000) (member "good" 10000) (with_member (seconds 1000)) in
  r = Ok (Released (MkExecution 200 true) None) ∧ balance "acme" (db w) = 1000000.
Proof. vm_compute. split; reflexivity. Qed.

(** The acknowledgement of the debit is lost: the call is debited and queued as well. *)
Lemma lost_debit_queued : let '(r, w) := dispatch (price 10000) (member "good" 10000)
    ((with_member (seconds 2000)) <| sched := replicate 12 (MkEvent 0 FOk (λ d x, (d, x))) ++ [MkEvent 0 FLost (λ d x, (d, x))] |>) in
  r = Ok (Released (MkExecution 200 false) None) ∧ balance "acme" (db w) = 990000 ∧ size (pending_settlements (db w)) = 1%nat.
Proof. vm_compute. split_and!; reflexivity. Qed.

(** The price cannot be read again in the billing gate: the call is answered with a 500, and the
    transfer, already made, has been used up. *)
Lemma gate_failure_strands_transfer :
  let s := replicate 4 (MkEvent 0 FOk (λ d x, (d, x))) ++ [MkEvent 0 FFail (λ d x, (d, x))] in
  let '(r, w) := dispatch (price 10000) (transfer 10000) (MppDemo.w0 s) in
  let '(r', _) := dispatch (price 10000) (transfer 10000) w in
  r = Raise ConnectionError ∧ r' = Ok (Refused (Reply 402 (-32043) "Credential already used.")).
Proof. vm_compute. split; reflexivity. Qed.
End GateDemo.

