(* ===== verification/Sessions.v ===== *)
(** * Refresh tokens (teardrop/users/tokens.py, teardrop/routers/auth.py)

    A login stores a refresh token; presenting it rotates it: a new token of the
    same session is inserted and the old one revoked with a pointer to it, in one
    transaction.  A client that never saw the answer may present the old token
    again and gets the same successor within a window.

    The theorems: whatever fails and whoever interferes, the tokens of a login
    form a chain of which at most the last is active, every token of the chain
    stands for the same user, organisation and claims, and refreshing never gives
    anybody else's.  [secrets.token_urlsafe] is the supply of tokens; signing the
    access token is left to its caller. *)

From S2P Require Export Monad Json.

Record TokenRow := MkTokenRow {
  tk_user : string;
  tk_org : string;
  tk_auth_method : string;
  tk_extra_claims : list (string * json);
  tk_created_at : Z;
  tk_expires_at : Z;
  tk_revoked : bool;
  tk_successor : option string;
}.
#[export] Instance eta_TokenRow : Eta TokenRow := λ r,
  MkTokenRow (tk_user r) (tk_org r) (tk_auth_method r) (tk_extra_claims r) (tk_created_at r) (tk_expires_at r)
    (tk_revoked r) (tk_successor r).

(** refresh_tokens, and the keys of users it refers to *)
Record SessionDb := MkSessionDb { known_users : gset string; refresh_tokens : gmap string TokenRow }.
#[export] Instance eta_SessionDb : Eta SessionDb := λ d, MkSessionDb (known_users d) (refresh_tokens d).

Abbreviation SessionHandler A := (M SessionDb unit A).

(** What a token stands for *)
Definition identity (r : TokenRow) : string * string * string * list (string * json) :=
  (tk_user r, tk_org r, tk_auth_method r, tk_extra_claims r).

Definition insert_token (token : string) (row : TokenRow) (d : SessionDb) : res (unit * SessionDb) :=
  match refresh_tokens d !! token with
  | Some _ => Raise UniqueViolation
  | None => if bool_decide (tk_user row ∈ known_users d) then Ok (tt, d <| refresh_tokens ::= <[token := row]> |>)
            else Raise ForeignKeyViolation
  end.

(** [UPDATE ... SET revoked = TRUE, successor_token = $1 WHERE token = $2] *)
Definition set_successor (new_token old_token : string) (d : SessionDb) : res (unit * SessionDb) :=
  match refresh_tokens d !! old_token with
  | None => Ok (tt, d)
  | Some r =>
      if bool_decide (is_Some (refresh_tokens d !! new_token)) then
        Ok (tt, d <| refresh_tokens ::= <[old_token := r <| tk_revoked := true |> <| tk_successor := Some new_token |>]> |>)
      else Raise ForeignKeyViolation
  end.

(** [successor_token ... ON DELETE SET NULL] *)
Definition unlink (kept : gmap string TokenRow) (r : TokenRow) : TokenRow :=
  r <| tk_successor := s ← tk_successor r; _ ← kept !! s; Some s |>.

Definition expired_token (now : Z) (r : TokenRow) : bool := tk_revoked r && (tk_expires_at r <? now).

Section sessions.
Context (token_urlsafe : nat → string).

Definition create_refresh_token (user_id org_id auth_method : string) (extra_claims : list (string * json)) (expire_days : Z)
    : SessionHandler string :=
  token ← uuid4 token_urlsafe;
  now ← datetime_now;
  stmt (λ _, insert_token token (MkTokenRow user_id org_id auth_method extra_claims now (now + days expire_days) false None));;
  mret token.

Definition rotate_refresh_token (old_token : string) (expire_days : Z) : SessionHandler (option (TokenRow * string)) :=
  now ← datetime_now;
  new_token ← uuid4 token_urlsafe;
  transaction
    (row ← query (λ _ d, refresh_tokens d !! old_token);
     match row with
     | None => mret None
     | Some r =>
         if tk_revoked r || (tk_expires_at r <? now) then mret None
         else
           stmt (λ _, insert_token new_token
             (MkTokenRow (tk_user r) (tk_org r) (tk_auth_method r) (tk_extra_claims r) now (now + days expire_days) false None));;
           stmt (λ _, set_successor new_token old_token);;
           mret (Some (r, new_token))
     end).

Definition get_refresh_token_successor (old_token : string) : SessionHandler (option (string * TokenRow)) :=
  query (λ now d,
    r ← refresh_tokens d !! old_token;
    s ← tk_successor r;
    rt ← refresh_tokens d !! s;
    if now <? tk_expires_at rt then Some (s, rt) else None).

Definition cleanup_expired_refresh_tokens : SessionHandler Z :=
  stmt (λ now d,
    let kept := filter (λ kv, expired_token now kv.2 = false) (refresh_tokens d) in
    Ok (Z.of_nat (size (refresh_tokens d)) - Z.of_nat (size kept), d <| refresh_tokens := unlink kept <$> kept |>)).

Definition revoke_refresh_token (token : string) : SessionHandler unit :=
  stmt (λ _ d, Ok (tt, d <| refresh_tokens ::= alter (λ r, r <| tk_revoked := true |>) token |>)).

(** ** The endpoints *)
Inductive refresh_response :=
  | Refreshed (subject : string) (claims : list (string * json)) (refresh_token : string)
  | Unauthorized.

Definition refresh_token_endpoint (expire_days window : Z) (refresh_token : string) : SessionHandler refresh_response :=
  result ← rotate_refresh_token refresh_token expire_days;
  match result with
  | Some (record, new_refresh) => mret (Refreshed (tk_user record) (tk_extra_claims record) new_refresh)
  | None =>
      successor ← get_refresh_token_successor refresh_token;
      match successor with
      | Some (token, record) =>
          now ← datetime_now;
          if now - tk_created_at record <=? seconds window then
            mret (Refreshed (tk_user record) (tk_extra_claims record) token)
          else mret Unauthorized
      | None => mret Unauthorized
      end
  end.

Definition logout (refresh_token : string) : SessionHandler unit := revoke_refresh_token refresh_token.
End sessions.

(** ** Sessions are chains *)

(** The tokens one rotation after the other *)
Definition rotated_to (d : SessionDb) (t t' : string) : Prop :=
  ∃ r, refresh_tokens d !! t = Some r ∧ tk_successor r = Some t'.

Definition active (d : SessionDb) (t : string) : Prop :=
  ∃ r, refresh_tokens d !! t = Some r ∧ tk_revoked r = false.

Record sessions_ok (d : SessionDb) : Prop := {
  so_rotated : ∀ t r s, refresh_tokens d !! t = Some r → tk_successor r = Some s →
    tk_revoked r = true ∧ ∃ r', refresh_tokens d !! s = Some r' ∧ identity r' = identity r;
  so_injective : ∀ t t' s, rotated_to d t s → rotated_to d t' s → t = t';
}.

Definition on_sessions (d : SessionDb) (_ : unit) : Prop := sessions_ok d.

Lemma insert_token_fresh t row d u d' :
  insert_token t row d = Ok (u, d') →
  refresh_tokens d !! t = None ∧ d' = d <| refresh_tokens := <[t := row]> (refresh_tokens d) |>.
Proof. unfold insert_token. repeat case_match; naive_solver. Qed.

Lemma not_pointed_fresh d t s : sessions_ok d → refresh_tokens d !! s = None → ¬ rotated_to d t s.
Proof. intros Hd Hs (r & Hr & Hsr). destruct (so_rotated d Hd t r s Hr Hsr) as (_ & r' & ? & _). congruence. Qed.

Lemma rotated_to_insert d t row t1 s :
  tk_successor row = None → rotated_to (d <| refresh_tokens := <[t := row]> (refresh_tokens d) |>) t1 s → rotated_to d t1 s.
Proof.
  intros Hn (r & Hr & Hs). cbn in Hr. apply lookup_insert_Some in Hr as [[_ <-]|[_ Hr]]; [congruence|by exists r].
Qed.

Lemma sessions_ok_insert t row d u d' :
  sessions_ok d → tk_successor row = None → insert_token t row d = Ok (u, d') → sessions_ok d'.
Proof.
  intros Hd Hn [Hf ->]%insert_token_fresh. split.
  - intros t1 r s Hr Hs. cbn in Hr |- *. apply lookup_insert_Some in Hr as [[_ <-]|[_ Hr]]; [congruence|].
    destruct (so_rotated d Hd t1 r s Hr Hs) as (Hrev & r' & Hr' & Hid). split; [done|]. exists r'.
    split; [|done]. rewrite lookup_insert_ne; [done|congruence].
  - intros t1 t2 s H1%rotated_to_insert H2%rotated_to_insert; [|done..]. by eapply so_injective.
Qed.

Lemma sessions_ok_rotate new_token old_token r rn d u d' :
  sessions_ok d → refresh_tokens d !! old_token = Some r → refresh_tokens d !! new_token = Some rn →
  identity rn = identity r → (∀ t, ¬ rotated_to d t new_token) →
  set_successor new_token old_token d = Ok (u, d') → sessions_ok d'.
Proof.
  intros Hd Hr Hrn Hid Hno. unfold set_successor. rewrite Hr. case_bool_decide as Hb; [|done]. intros [= _ <-].
  set (r' := r <| tk_revoked := true |> <| tk_successor := Some new_token |>).
  assert (∀ t, is_Some (refresh_tokens d !! t) → ∃ x, <[old_token := r']> (refresh_tokens d) !! t = Some x ∧
    ∀ y, refresh_tokens d !! t = Some y → identity x = identity y) as Hkeep.
  { intros t [y Hy]. destruct (decide (t = old_token)) as [->|Hne].
    - exists r'. rewrite lookup_insert_eq. split; [done|]. intros z Hz. assert (z = r) as -> by congruence. done.
    - exists y. rewrite lookup_insert_ne by done. split; [done|]. intros z Hz. congruence. }
  split.
  - intros t1 r1 s Hr1 Hs. cbn in Hr1 |- *. apply lookup_insert_Some in Hr1 as [[<- <-]|[Hne Hr1]].
    + split; [done|]. cbn in Hs. injection Hs as [= <-]. destruct (Hkeep new_token Hb) as (x & Hx & Hxid).
      exists x. split; [done|]. by rewrite (Hxid rn Hrn).
    + destruct (so_rotated d Hd t1 r1 s Hr1 Hs) as (Hrev & r2 & Hr2 & Hid2). split; [done|].
      destruct (Hkeep s ltac:(eauto)) as (x & Hx & Hxid). exists x. split; [done|]. by rewrite (Hxid r2 Hr2).
  - intros t1 t2 s (r1 & Hr1 & Hs1) (r2 & Hr2 & Hs2). cbn in Hr1, Hr2.
    apply lookup_insert_Some in Hr1 as [[<- <-]|[Hne1 Hr1]], Hr2 as [[<- <-]|[Hne2 Hr2]].
    + done.
    + injection Hs1 as [= <-]. destruct (Hno t2). by exists r2.
    + injection Hs2 as [= <-]. destruct (Hno t1). by exists r1.
    + apply (so_injective d Hd t1 t2 s); [by exists r1|by exists r2].
Qed.

Lemma sessions_ok_cleanup kept d :
  sessions_ok d → (∀ t r, kept !! t = Some r → refresh_tokens d !! t = Some r) →
  sessions_ok (d <| refresh_tokens := unlink kept <$> kept |>).
Proof.
  intros Hd Hk.
  assert (∀ t r s, (unlink kept <$> kept) !! t = Some r → tk_successor r = Some s →
    ∃ r0, refresh_tokens d !! t = Some r0 ∧ tk_successor r0 = Some s ∧ tk_revoked r = tk_revoked r0 ∧
          identity r = identity r0 ∧ is_Some (kept !! s)) as Hinv.
  { intros t r s Hr Hs. rewrite lookup_fmap in Hr. apply fmap_Some in Hr as (r0 & Hr0 & ->). exists r0. cbn in Hs.
    destruct (tk_successor r0) as [s0|]; [|done]. cbn in Hs. destruct (kept !! s0) eqn:E; [|done]. injection Hs as [= ->].
    split_and!; eauto. }
  split.
  - intros t r s Hr Hs. destruct (Hinv t r s Hr Hs) as (r0 & Hr0 & Hs0 & Hrev & Hid & [x Hx]).
    destruct (so_rotated d Hd t r0 s Hr0 Hs0) as (Hrev0 & r' & Hr' & Hid'). split; [congruence|].
    exists (unlink kept x). cbn. rewrite lookup_fmap, Hx. split; [done|].
    assert (x = r') as -> by (apply Hk in Hx; congruence). unfold identity in *. cbn in *. congruence.
  - intros t1 t2 s (r1 & Hr1 & Hs1) (r2 & Hr2 & Hs2).
    destruct (Hinv t1 r1 s Hr1 Hs1) as (a & Ha & Hsa & _). destruct (Hinv t2 r2 s Hr2 Hs2) as (b & Hb & Hsb & _).
    apply (so_injective d Hd t1 t2 s); [by exists a|by exists b].
Qed.

Lemma sessions_ok_revoke t d :
  sessions_ok d → sessions_ok (d <| refresh_tokens ::= alter (λ r, r <| tk_revoked := true |>) t |>).
Proof.
  intros Hd.
  assert (∀ t1 r, alter (λ r, r <| tk_revoked := true |>) t (refresh_tokens d) !! t1 = Some r →
    ∃ r0, refresh_tokens d !! t1 = Some r0 ∧ tk_successor r0 = tk_successor r ∧ identity r0 = identity r ∧
          (tk_revoked r0 = true → tk_revoked r = true)) as Hinv.
  { intros t1 r Hr. destruct (decide (t1 = t)) as [->|Hne].
    - rewrite lookup_alter_eq in Hr. apply fmap_Some in Hr as (r0 & Hr0 & ->). by exists r0.
    - rewrite lookup_alter_ne in Hr by done. by exists r. }
  split.
  - intros t1 r s Hr Hs. destruct (Hinv t1 r Hr) as (r0 & Hr0 & Hs0 & Hid & Hrev).
    destruct (so_rotated d Hd t1 r0 s Hr0 ltac:(congruence)) as (H1 & r' & Hr' & Hid'). split; [auto|].
    destruct (decide (s = t)) as [->|Hne].
    + exists (r' <| tk_revoked := true |>). cbn. rewrite lookup_alter_eq, Hr'. split; [done|]. by rewrite <- Hid, <- Hid'.
    + exists r'. cbn. rewrite lookup_alter_ne by done. split; [done|]. congruence.
  - intros t1 t2 s (r1 & Hr1 & Hs1) (r2 & Hr2 & Hs2).
    destruct (Hinv t1 r1 Hr1) as (a & Ha & Hsa & _). destruct (Hinv t2 r2 Hr2) as (b & Hb & Hsb & _).
    apply (so_injective d Hd t1 t2 s); [exists a|exists b]; (split; [done|congruence]).
Qed.

Section chains.
Context (token_urlsafe : nat → string).

Lemma create_keeps user org m claims n : preserves on_sessions (create_refresh_token token_urlsafe user org m claims n).
Proof.
  unfold create_refresh_token. preserve_step; [by apply wpi_uuid4|].
  preserve_step; [by apply wpi_datetime_now|]. preserve_step; [|apply preserves_ret].
  apply wpi_stmt; [done|]. intros _ d x Hd.
  destruct (insert_token _ _ d) as [[u d']|e] eqn:E; [|done]. split; [by eapply (sessions_ok_insert _ _ _ _ _ Hd); [|exact E]|done].
Qed.

(** What a rotation does in its transaction *)
Lemma rotate_wpt now new_token old_token n now0 d :
  sessions_ok d →
  wpt now
    (row ← query (λ _ d, refresh_tokens d !! old_token);
     match row with
     | None => mret None
     | Some r =>
         if tk_revoked r || (tk_expires_at r <? now0) then mret None
         else
           stmt (λ _, insert_token new_token
             (MkTokenRow (tk_user r) (tk_org r) (tk_auth_method r) (tk_extra_claims r) now0 (now0 + days n) false None));;
           stmt (λ _, set_successor new_token old_token);;
           mret (Some (r, new_token))
     end : SessionHandler (option (TokenRow * string)))
    (λ o d', sessions_ok d' ∧ match o with
       | None => d' = d ∧ ∀ r, refresh_tokens d !! old_token = Some r → tk_revoked r = true ∨ tk_expires_at r < now0
       | Some (r, t) => refresh_tokens d !! old_token = Some r ∧ tk_revoked r = false ∧ refresh_tokens d !! t = None ∧
           rotated_to d' old_token t ∧ active d' t
       end) (λ _ _, True) d.
Proof.
  intros Hd. tx_step. apply wpt_query; [done|].
  destruct (refresh_tokens d !! old_token) as [r|] eqn:Hr; [|by apply wpt_ret].
  destruct (tk_revoked r) eqn:Hrev; [apply wpt_ret; naive_solver|].
  destruct (tk_expires_at r <? now0) eqn:Hexp; [apply wpt_ret; split_and!; [done..|]; intros r' [= ->]; right; lia|].
  cbn [orb]. tx_step. apply wpt_stmt; [done|].
  destruct (insert_token _ _ d) as [[u d1]|e] eqn:Ei; [|done]. split; [|done].
  assert (sessions_ok d1) as Hd1 by (by eapply (sessions_ok_insert _ _ _ _ _ Hd); [|exact Ei]).
  apply insert_token_fresh in Ei as [Hf ->]. tx_step. apply wpt_stmt; [done|].
  destruct (set_successor _ _ _) as [[u2 d2]|e] eqn:Es; [|done]. split; [|done]. apply wpt_ret.
  assert (old_token ≠ new_token) as Hne by (intros ->; congruence).
  split.
  - eapply sessions_ok_rotate; [exact Hd1| | | | |exact Es].
    + cbn. by rewrite lookup_insert_ne.
    + cbn. by rewrite lookup_insert_eq.
    + done.
    + intros t Ht%rotated_to_insert; [|done]. exact (not_pointed_fresh d t new_token Hd Hf Ht).
  - unfold set_successor in Es. cbn in Es. rewrite lookup_insert_ne, Hr in Es by done.
    case_bool_decide; [|done]. injection Es as [= _ <-]. split_and!; [done..| |].
    + eexists. split; [apply lookup_insert_eq|done].
    + eexists. split; [cbn; rewrite lookup_insert_ne by done; apply lookup_insert_eq|done].
Qed.

Lemma rotate_keeps t n : preserves on_sessions (rotate_refresh_token token_urlsafe t n).
Proof.
  unfold rotate_refresh_token. preserve_step; [by apply wpi_datetime_now|]. preserve_step; [by apply wpi_uuid4|].
  apply wpi_transaction; [done|]. intros now d x Hd. eapply wpt_mono; [by apply rotate_wpt| |done]. by intros o d' [? _].
Qed.

Lemma revoke_keeps t : preserves on_sessions (revoke_refresh_token t).
Proof. apply wpi_stmt; [done|]. intros _ d x Hd. split; [by apply sessions_ok_revoke|done]. Qed.

Lemma cleanup_keeps : preserves on_sessions cleanup_expired_refresh_tokens.
Proof.
  apply wpi_stmt; [done|]. intros now d x Hd. split; [|done]. apply sessions_ok_cleanup; [done|].
  intros t r Hr. by apply map_lookup_filter_Some in Hr as [? _].
Qed.

Lemma refresh_keeps n w t : preserves on_sessions (refresh_token_endpoint token_urlsafe n w t).
Proof.
  unfold refresh_token_endpoint. preserve_step; [apply rotate_keeps|].
  destruct a as [[r t']|]; [apply preserves_ret|]. preserve_step; [apply preserves_query|].
  destruct a as [[t' r]|]; [|apply preserves_ret]. preserve_step; [by apply wpi_datetime_now|]. case_match; apply preserves_ret.
Qed.

(** The operations, in any order *)
Inductive session_op :=
  | OpLogin (user_id org_id auth_method : string) (extra_claims : list (string * json)) (expire_days : Z)
  | OpRefresh (expire_days window : Z) (token : string)
  | OpLogout (token : string)
  | OpCleanup.

Definition perform_session_op (op : session_op) : SessionHandler unit :=
  match op with
  | OpLogin u o m c n => create_refresh_token token_urlsafe u o m c n;; mret tt
  | OpRefresh n w t => refresh_token_endpoint token_urlsafe n w t;; mret tt
  | OpLogout t => logout t
  | OpCleanup => cleanup_expired_refresh_tokens;; mret tt
  end.

Definition session_history (ops : list session_op) : SessionHandler unit :=
  for_each ops tt (λ _ op, catch (perform_session_op op) (λ _, mret tt)).

Lemma history_keeps ops : preserves on_sessions (session_history ops).
Proof.
  apply preserves_for_each. intros _ op. apply preserves_catch; [|intros; apply preserves_ret].
  destruct op; cbn [perform_session_op].
  - preserve_step; [apply create_keeps|apply preserves_ret].
  - preserve_step; [apply refresh_keeps|apply preserves_ret].
  - apply revoke_keeps.
  - preserve_step; [apply cleanup_keeps|apply preserves_ret].
Qed.
End chains.

(** One successor each, so what a token is rotated to is a line. *)
Lemma chain_linear d t t1 t2 : rtc (rotated_to d) t t1 → rtc (rotated_to d) t t2 → rtc (rotated_to d) t1 t2 ∨ rtc (rotated_to d) t2 t1.
Proof.
  intros H1. revert t2. induction H1 as [t|t u t1 Hs H1 IH]; intros t2 H2; [by left|].
  inversion H2 as [|? v ? Hv H2']; subst; [right; by eapply rtc_l|].
  assert (u = v) as -> by (destruct Hs as (? & ? & ?), Hv as (? & ? & ?); congruence). by apply IH.
Qed.

Lemma active_is_last d t t' : sessions_ok d → active d t → rtc (rotated_to d) t t' → t = t'.
Proof.
  intros Hd (r & Hr & Ha) H. inversion H as [|? u ? (r' & Hr' & Hs) _]; subst; [done|].
  assert (r' = r) as -> by congruence. destruct (so_rotated d Hd t r u Hr Hs). congruence.
Qed.


(** The successor found for a token *)
Lemma successor_spec now d t s r1 :
  sessions_ok d →
  (r ← refresh_tokens d !! t; s ← tk_successor r; rt ← refresh_tokens d !! s; if now <? tk_expires_at rt then Some (s, rt) else None) = Some (s, r1) →
  ∃ r, refresh_tokens d !! t = Some r ∧ tk_revoked r = true ∧ rotated_to d t s ∧ identity r1 = identity r.
Proof.
  intros Hd. destruct (refresh_tokens d !! t) as [r|] eqn:Hr; [|done]. cbn.
  destruct (tk_successor r) as [s'|] eqn:Hs; [|done]. cbn. destruct (refresh_tokens d !! s') as [rt|] eqn:Hrt; [|done]. cbn.
  destruct (now <? _); [|done]. intros [= -> ->]. destruct (so_rotated d Hd t r s Hr Hs) as (Hrev & r' & Hr' & Hid).
  assert (r' = r1) as -> by congruence. exists r. split_and!; [done..|by exists r|done].
Qed.

(** What presenting a token does, on every branch: an active one is rotated to a fresh active
    token, a rotated one only ever yields the successor it already has, both for the user and
    claims of the presented token; a refusal or an error changes nothing, and an active token that
    has not expired is never refused. *)
Theorem refresh_outcome token_urlsafe expire_days window t d x :
  sessions_ok d →
  wps (refresh_token_endpoint token_urlsafe expire_days window t)
    (λ r d' _, match r with
       | Ok (Refreshed subject claims t') =>
           ∃ row, refresh_tokens d !! t = Some row ∧ subject = tk_user row ∧ claims = tk_extra_claims row ∧ rotated_to d' t t' ∧
             if tk_revoked row then d' = d else refresh_tokens d !! t' = None ∧ active d' t'
       | Ok Unauthorized => d' = d ∧ ∀ row, refresh_tokens d !! t = Some row → tk_revoked row = false →
           ∃ now, tk_expires_at row < now
       | Raise _ => d' = d
       end) d x.
Proof.
  intros Hd. unfold refresh_token_endpoint, rotate_refresh_token.
  apply wps_bind, wps_bind, wps_datetime_now. intros now0. apply wps_bind, wps_uuid4. intros new_token.
  apply wps_transaction; [done|]. intros now. eapply wpt_mono; [by apply rotate_wpt| |done].
  intros [[r t']|] d' [Hd' Ho].
  - apply wps_ret. destruct Ho as (Hr & Hrev & Hf & Hro & Ha). exists r. rewrite Hrev. done.
  - destruct Ho as [-> Ho]. apply wps_bind, wps_query; [done|]. intros now1.
    destruct (_ ≫= _) as [[s r1]|] eqn:E.
    + apply successor_spec in E as (r & Hr & Hrev & Hro & Hid); [|done].
      apply wps_bind, wps_datetime_now. intros now2.
      assert (∀ row, refresh_tokens d !! t = Some row → tk_revoked row = false → ∃ now, tk_expires_at row < now) by (intros row Hrow Hf; congruence).
      destruct (_ <=? _); apply wps_ret; [|done]. exists r. cbv beta iota. rewrite Hrev. unfold identity in Hid. split_and!; congruence.
    + apply wps_ret. split; [done|]. intros row Hrow Hrev. destruct (Ho row Hrow); [congruence|eauto].
Qed.

(** ** A session refreshed, retried and logged out *)
Module SessionDemo.
Definition tokens (n : nat) : string := "tok-" +:+ pretty n.
Definition start : World SessionDb unit := MkWorld (MkSessionDb {["u1"]} ∅) tt (days 10) None [] 0.

Definition claims : list (string * json) := [("org_id", JStr "acme"); ("role", JStr "user")].
Definition login : World SessionDb unit := (create_refresh_token tokens "u1" "acme" "email" claims 30 start).2.

Definition present (t : string) (w : World SessionDb unit) : res refresh_response * World SessionDb unit :=
  refresh_token_endpoint tokens 30 60 t w.
Definition passed (n : Z) (w : World SessionDb unit) : World SessionDb unit := w <| clock ::= Z.add (seconds n) |>.
Definition refreshed : World SessionDb unit := (present "tok-0" (passed 100 login)).2.

(** The answer was lost: the same successor for a minute, then nothing. *)
Example replayed :
  (present "tok-0" (passed 100 login)).1 = Ok (Refreshed "u1" claims "tok-1") ∧
  (present "tok-0" (passed 30 refreshed)).1 = Ok (Refreshed "u1" claims "tok-1") ∧
  (present "tok-0" (passed 61 refreshed)).1 = Ok Unauthorized.
Proof. vm_compute. split_and!; reflexivity. Qed.

(** Logging out does not end the replay: the old token still yields an access token for the user
    whose session was closed, and names the revoked successor. *)
Lemma logout_replayed :
  let w := (logout "tok-1" refreshed).2 in
  (present "tok-1" w).1 = Ok Unauthorized ∧ (present "tok-0" w).1 = Ok (Refreshed "u1" claims "tok-1").
Proof. vm_compute. split_and!; reflexivity. Qed.

Lemma login_good : good on_sessions login.
Proof.
  apply (preserves_good on_sessions (create_refresh_token tokens "u1" "acme" "email" claims 30) start).
  - apply create_keeps.
  - split_and!; [done|split|constructor]; [done|]. by intros t t' s (r & Hr & _).
Qed.

Lemma login_ok : sessions_ok (db login).
Proof. apply login_good. Qed.

(** The session of [login] after a refresh and a retry *)
Definition d1 : SessionDb := db (session_history tokens [OpRefresh 30 60 "tok-0"; OpRefresh 30 60 "tok-0"] login).2.

Lemma d1_rotated : rotated_to d1 "tok-0" "tok-1".
Proof. eexists. split; vm_compute; reflexivity. Qed.
End SessionDemo.


Lemma refresh_outcome_witness :
  wps (refresh_token_endpoint SessionDemo.tokens 30 60 "tok-0")
    (λ r d' _, match r with
       | Ok (Refreshed subject claims t') =>
           ∃ row, refresh_tokens (db SessionDemo.login) !! "tok-0" = Some row ∧ subject = tk_user row ∧ claims = tk_extra_claims row ∧
             rotated_to d' "tok-0" t' ∧
             if tk_revoked row then d' = db SessionDemo.login else refresh_tokens (db SessionDemo.login) !! t' = None ∧ active d' t'
       | Ok Unauthorized => d' = db SessionDemo.login ∧
           ∀ row, refresh_tokens (db SessionDemo.login) !! "tok-0" = Some row → tk_revoked row = false → ∃ now, tk_expires_at row < now
       | Raise _ => d' = db SessionDemo.login
       end) (db SessionDemo.login) tt.
Proof. apply (refresh_outcome SessionDemo.tokens 30 60 "tok-0" (db SessionDemo.login) tt). exact SessionDemo.login_ok. Defined.
