(* ===== verification/RateLimit.v ===== *)
(** * Rate limits, login lockout and run admission (teardrop/rate_limit.py, teardrop/concurrency.py)

    The sliding-window limiter and the failed-login counter, each with its Redis
    store and its in-process fallback, the e-mail login of routers/auth.py that
    puts both together, and the limiter of concurrent agent runs.

    Here the shared store of a handler ([Db] of the other files) is the Redis
    server; the state of the process is the two dictionaries, with the order of
    their keys.  A pipeline is atomic (redis-py runs it as MULTI/EXEC), a sorted
    set is the list of its scores (its members are made unique by a random
    token), times are microseconds and [INCR], [EXPIRE], [GET] and [TTL] are
    separate round trips.  The comparison of the password is an argument.

    The theorems: no window of a minute holds more admitted requests of a key
    than its limit; a request is refused only if the window is full; whoever
    guesses passwords gets at most twice the threshold of guesses in any span as
    long as the lockout; and run slots are neither leaked nor handed out twice. *)

From S2P Require Export Cache Json.

Definition window : Z := seconds 60.
Definition _RATE_COUNTER_MAX_KEYS : Z := 10000.
Definition _AUTH_FAIL_COUNTER_MAX_KEYS : Z := 10000.

(** The Redis server: sorted sets of scores with their expiry, and counters; a counter may have no expiry. *)
Record RedisDb := MkRedis {
  zsets : gmap string (list Z * Z);
  authfails : gmap string (Z * option Z);
}.
#[export] Instance eta_RedisDb : Eta RedisDb := λ d, MkRedis (zsets d) (authfails d).

(** The two module-level dictionaries *)
Record Counters := MkCounters {
  _rate_counters : list (string * list Z);
  _auth_fail_counters : list (string * (Z * Z));
}.
#[export] Instance eta_Counters : Eta Counters := λ x, MkCounters (_rate_counters x) (_auth_fail_counters x).

Abbreviation LH A := (M RedisDb Counters A).

(** A [dict] lookup *)
Definition dict_lookup {A} (l : list (string * A)) (key : string) : option A := snd <$> find (λ kv, bool_decide (kv.1 = key)) l.

(** [dict.pop(key, None)] *)
Definition dict_pop {A} (l : list (string * A)) (key : string) : list (string * A) := filter (λ kv, kv.1 ≠ key) l.

(** [oldest_key = next(iter(d)); del d[oldest_key]], above a number of keys *)
Definition evict {A} (max : Z) (l : list (string * A)) : list (string * A) := if max <? len l then tail l else l.

(** (allowed, remaining, reset epoch) *)
Definition RateLimitResult : Type := bool * Z * Z.

(** The answers of the e-mail login *)
Inductive login_answer := TooManyFailures (retry_after : Z) | TooManyRequests | InvalidCredentials | SignedIn.
#[export] Instance login_answer_eq_dec : EqDecision login_answer.
Proof. solve_decision. Defined.

Section limiter.
Context (has_redis : bool).

(** ** The sliding window *)

(** [ZREMRANGEBYSCORE], [ZCARD], [ZADD], [EXPIRE] *)
Definition rl_pipeline (redis_key : string) (now server_now : Z) (d : RedisDb) : res (Z * RedisDb) :=
  let live := match zsets d !! redis_key with Some (ts, expires) => if server_now <? expires then ts else [] | None => [] end in
  let kept := filter (λ t, now - window ≤ t) live in
  Ok (len kept, d <| zsets ::= <[redis_key := (kept ++ [now], server_now + seconds 61)]> |>).

Definition check_in_process (key : string) (limit now : Z) (x : Counters) : RateLimitResult * Counters :=
  let reset_epoch := (now + window) / microsecond_per_second in
  let history := filter (λ t, now - t < window) (default [] (dict_lookup (_rate_counters x) key)) in
  if limit <=? len history then ((false, 0, reset_epoch), x <| _rate_counters ::= λ c, dict_set c key history |>)
  else
    let history := history ++ [now] in
    ((true, Z.max 0 (limit - len history), reset_epoch),
     x <| _rate_counters ::= λ c, evict _RATE_COUNTER_MAX_KEYS (dict_set c key history) |>).

(** A synchronous step on the state of the process *)
Definition in_process {A} (f : Counters → A * Counters) : LH A := x ← get_ext; modify_ext (λ _, (f x).2);; mret (f x).1.

Definition _check_rate_limit (key : string) (limit : Z) : LH RateLimitResult :=
  now ← datetime_now;
  let reset_epoch := (now + window) / microsecond_per_second in
  counted ← (if has_redis then catch (count ← stmt (rl_pipeline ("teardrop:rl:" +:+ key) now); mret (Some count)) (λ _, mret None) else mret None);
  match counted with
  | Some count => mret (count <? limit, Z.max 0 (limit - count - 1), reset_epoch)
  | None => in_process (check_in_process key limit now)
  end.

(** The [HTTPException] 429 *)
Definition _enforce_rate_limit (key : string) (limit : Z) (detail : string) : LH unit :=
  r ← _check_rate_limit key limit;
  if r.1.1 : bool then mret tt else raise (RuntimeError detail).

(** ** Failed logins *)
Definition redis_incr (redis_key : string) (server_now : Z) (d : RedisDb) : res (Z * RedisDb) :=
  let '(count, ttl) := match authfails d !! redis_key with
    | Some (c, Some e) => if server_now <? e then (c, Some e) else (0, None)
    | Some (c, None) => (c, None)
    | None => (0, None)
    end in
  Ok (count + 1, d <| authfails ::= <[redis_key := (count + 1, ttl)]> |>).

Definition redis_expire (redis_key : string) (window_seconds server_now : Z) (d : RedisDb) : res (unit * RedisDb) :=
  Ok (tt, match authfails d !! redis_key with
          | Some (c, _) => d <| authfails ::= <[redis_key := (c, Some (server_now + seconds window_seconds))]> |>
          | None => d
          end).

Definition redis_live (redis_key : string) (server_now : Z) (d : RedisDb) : option (Z * option Z) :=
  match authfails d !! redis_key with
  | Some (c, Some e) => if server_now <? e then Some (c, Some e) else None
  | r => r
  end.

(** [TTL]: seconds, rounded; -2 without a key and -1 without an expiry *)
Definition redis_ttl (redis_key : string) (server_now : Z) (d : RedisDb) : Z :=
  match redis_live redis_key server_now d with
  | Some (_, Some e) => (e - server_now + 500000) / microsecond_per_second
  | Some (_, None) => -1
  | None => -2
  end.

Definition record_in_process (key : string) (window_seconds now : Z) (x : Counters) : Z * Counters :=
  let '(count, expires_at) := default (0, now + seconds window_seconds) (dict_lookup (_auth_fail_counters x) key) in
  let '(count, expires_at) := if expires_at <=? now then (0, now + seconds window_seconds) else (count, expires_at) in
  (count + 1, x <| _auth_fail_counters ::= λ c, evict _AUTH_FAIL_COUNTER_MAX_KEYS (dict_set c key (count + 1, expires_at)) |>).

Definition record_auth_failure (key : string) (window_seconds : Z) : LH Z :=
  now ← datetime_now;
  let redis_key := "teardrop:authfail:" +:+ key in
  counted ← (if has_redis then
    catch (count ← stmt (redis_incr redis_key);
           (if count =? 1 then stmt (redis_expire redis_key window_seconds) else mret tt);;
           mret (Some count)) (λ _, mret None)
    else mret None);
  match counted with Some count => mret count | None => in_process (record_in_process key window_seconds now) end.

Definition locked_in_process (key : string) (threshold now : Z) (x : Counters) : (bool * Z) * Counters :=
  match dict_lookup (_auth_fail_counters x) key with
  | None => ((false, 0), x)
  | Some (count, expires_at) =>
      if expires_at <=? now then ((false, 0), x <| _auth_fail_counters ::= λ c, dict_pop c key |>)
      else if threshold <=? count then ((true, Z.max 1 ((expires_at - now) / microsecond_per_second)), x)
      else ((false, 0), x)
  end.

Definition check_auth_lockout (key : string) (threshold window_seconds : Z) : LH (bool * Z) :=
  now ← datetime_now;
  let redis_key := "teardrop:authfail:" +:+ key in
  answer ← (if has_redis then
    catch (raw_count ← query (redis_live redis_key);
           if threshold <=? default 0 (fst <$> raw_count) then
             ttl ← query (redis_ttl redis_key);
             mret (Some (true, Z.max 1 (if ttl <=? 0 then window_seconds else ttl)))
           else mret (Some (false, 0))) (λ _, mret None)
    else mret None);
  match answer with Some a => mret a | None => in_process (locked_in_process key threshold now) end.

Definition clear_auth_failures (key : string) : LH unit :=
  let redis_key := "teardrop:authfail:" +:+ key in
  cleared ← (if has_redis then catch (stmt (λ _ d, Ok (tt, d <| authfails ::= delete redis_key |>));; mret true) (λ _, mret false) else mret false);
  if cleared : bool then mret tt else in_process (λ x, (tt, x <| _auth_fail_counters ::= λ c, dict_pop c key |>)).

(** ** The e-mail login (routers/auth.py) *)

Context (auth_lockout_threshold auth_lockout_window_seconds : Z).

(** [right]: the account exists and the password is right. *)
Definition email_login (email : string) (right : bool) : LH login_answer :=
  let email_key := py_lower (py_strip email) in
  let lockout_key := "token:failed:" +:+ email_key in
  lock ← check_auth_lockout lockout_key auth_lockout_threshold auth_lockout_window_seconds;
  if lock.1 : bool then mret (TooManyFailures lock.2)
  else
    limited ← _check_rate_limit ("token:email:" +:+ email_key) 5;
    if negb limited.1.1 then mret TooManyRequests
    else if right then clear_auth_failures lockout_key;; mret SignedIn
    else record_auth_failure lockout_key auth_lockout_window_seconds;; mret InvalidCredentials.
End limiter.

(** ** Requests over time *)
Record Request := MkRequest { r_at : Z; r_key : string; r_limit : Z }.

(** Time passes until the next request. *)
Definition sleep_until {D X} (t : Z) : M D X unit := λ w, (Ok tt, w <| clock ::= Z.max t |>).

(** The requests in order, and which are admitted *)
Definition serve (has_redis : bool) (l : list Request) : LH (list bool) :=
  for_each l [] (λ acc r, sleep_until (r_at r);; res ← _check_rate_limit has_redis (r_key r) (r_limit r); mret (acc ++ [res.1.1])).

(** *** The reference: a log of all requests *)
Record Entry := MkEntry { e_at : Z; e_key : string; e_ok : bool }.

Section reference.
(** Do refused requests count, and does the window include its first instant? *)
Context (counts_refused closed : bool).

Definition within (now t : Z) : bool := if closed then now - window <=? t else now - t <? window.
Definition counts (key : string) (e : Entry) : bool := bool_decide (e_key e = key) && (e_ok e || counts_refused).

(** The times of the requests that count against a key *)
Definition counted (key : string) (log : list Entry) : list Z := map e_at (filter (λ e, counts key e = true) log).
Definition in_window (now : Z) (ts : list Z) : list Z := filter (λ t, within now t = true) ts.

Definition decide_request (log : list Entry) (r : Request) : Entry :=
  MkEntry (r_at r) (r_key r) (len (in_window (r_at r) (counted (r_key r) log)) <? r_limit r).

Definition reference (log : list Entry) (l : list Request) : list Entry := foldl (λ log r, log ++ [decide_request log r]) log l.

(** *** No window holds more admitted requests than the limit *)

(** The admitted requests of a key in the minute that ends at [t] *)
Definition admitted_in (key : string) (t : Z) (log : list Entry) : list Entry :=
  filter (λ e, e_key e = key ∧ e_ok e = true ∧ t - window < e_at e ∧ e_at e ≤ t) log.

Lemma counted_app key log1 log2 : counted key (log1 ++ log2) = counted key log1 ++ counted key log2.
Proof. unfold counted. by rewrite filter_app, map_app. Qed.

Lemma admitted_le_counted key t now log :
  (∀ e, e ∈ log → e_at e ≤ now) → now ≤ t → len (admitted_in key t log) ≤ len (in_window now (counted key log)).
Proof.
  intros Hlog Ht. unfold len. apply inj_le. induction log as [|e log IH]; [done|].
  assert (∀ e', e' ∈ log → e_at e' ≤ now) as Hl by (intros; apply Hlog; by right). specialize (IH Hl).
  unfold admitted_in, counted, in_window in *. rewrite !filter_cons.
  destruct (decide (counts key e = true)) as [Hc|Hc]; cbn [map]; rewrite ?filter_cons.
  - destruct (decide (within now (e_at e) = true)) as [Hw|Hw]; destruct (decide _) as [Ha|Ha]; cbn [length]; try lia.
    exfalso. apply Hw. unfold within. destruct closed; lia.
  - destruct (decide _) as [(Hk & Hok & _)|_]; [|done]. exfalso. apply Hc. unfold counts. by rewrite bool_decide_true, Hok.
Qed.

Lemma reference_bounded key n log l :
  0 ≤ n → (∀ r, r ∈ l → r_key r = key → r_limit r ≤ n) →
  (∀ e r, e ∈ log → r ∈ l → e_at e ≤ r_at r) → StronglySorted (λ r r', r_at r ≤ r_at r') l →
  (∀ t, len (admitted_in key t log) ≤ n) → ∀ t, len (admitted_in key t (reference log l)) ≤ n.
Proof.
  intros Hn. revert log. induction l as [|r l IH]; intros log Hlim Hlate Hsorted Hlog t; [apply Hlog|].
  apply StronglySorted_inv in Hsorted as [Hsorted Hr]. rewrite Forall_forall in Hr. apply IH; [intros; apply Hlim; [by right|done]| |done|].
  - intros e r' He Hr'. apply elem_of_app in He as [He|He]; [apply Hlate; [done|by right]|].
    apply list_elem_of_singleton in He as ->. by apply Hr.
  - intros t'. unfold admitted_in. rewrite filter_app, filter_cons, filter_nil. unfold len. rewrite length_app.
    destruct (decide _) as [(Hk & Hok & Ha & Hb)|_]; [|cbn; rewrite Nat.add_0_r; apply Hlog].
    cbn [e_at e_key e_ok decide_request] in *. pose proof (admitted_le_counted key t' (r_at r) log) as Hle.
    specialize (Hle (λ e He, Hlate e r He ltac:(by left)) Hb).
    rewrite Hk in Hok. specialize (Hlim r ltac:(by left) Hk). unfold len, admitted_in in *. cbn [length]. lia.
Qed.

Lemma reference_snoc log l r : reference log (l ++ [r]) = reference log l ++ [decide_request (reference log l) r].
Proof. unfold reference. by rewrite foldl_app. Qed.
End reference.

(** *** Dictionaries *)
Section dict.
Context {A : Type}.
Implicit Types (l : list (string * A)).

Lemma dict_lookup_set l k v k' : dict_lookup (dict_set l k v) k' = if decide (k = k') then Some v else dict_lookup l k'.
Proof.
  unfold dict_set. case_bool_decide as Hk.
  - unfold dict_lookup. induction l as [|[a b] l IH]; [by apply not_elem_of_nil in Hk|]. cbn. destruct (decide (a = k)) as [->|Hne].
    + rewrite (bool_decide_true (k = k)) by done. cbn. destruct (decide (k = k')) as [->|Hkk]; [by rewrite bool_decide_true|].
      rewrite bool_decide_false by done. clear IH Hk. induction l as [|[a' b'] l IH]; [done|]. cbn.
      destruct (bool_decide_reflect (a' = k)) as [->|?]; cbn; [by rewrite bool_decide_false|]. destruct (bool_decide (a' = k')); [done|exact IH].
    + rewrite (bool_decide_false (a = k)) by done. cbn. apply elem_of_cons in Hk as [Hk|Hk]; [done|]. specialize (IH Hk).
      destruct (bool_decide_reflect (a = k')) as [->|?]; [|exact IH]. by rewrite decide_False.
  - unfold dict_lookup. induction l as [|[a b] l IH]; cbn.
    + case_bool_decide; by destruct (decide (k = k')).
    + cbn in Hk. apply not_elem_of_cons in Hk as [Hne Hk]. specialize (IH Hk).
      destruct (bool_decide_reflect (a = k')) as [->|?]; [by rewrite decide_False|exact IH].
Qed.

Lemma dict_lookup_pop l k k' : dict_lookup (dict_pop l k) k' = if decide (k = k') then None else dict_lookup l k'.
Proof.
  unfold dict_pop, dict_lookup. induction l as [|[a b] l IH]; [by destruct (decide _)|]. rewrite filter_cons.
  destruct (decide ((a, b).1 ≠ k)) as [Hn|Hn]; cbn in Hn |- *.
  - destruct (bool_decide_reflect (a = k')) as [->|?]; [by rewrite decide_False|exact IH].
  - destruct (decide (a = k)) as [->|?]; [|by destruct Hn]. rewrite IH. destruct (decide (k = k')) as [->|?]; [done|]. by rewrite bool_decide_false.
Qed.

Lemma dict_set_keys l k v : (dict_set l k v).*1 = if bool_decide (k ∈ l.*1) then l.*1 else l.*1 ++ [k].
Proof.
  unfold dict_set. case_bool_decide; [|by rewrite fmap_app]. rewrite <- list_fmap_compose. apply list_fmap_ext. intros i [a b] _. cbn.
  by case_bool_decide.
Qed.

(** Keys are distinct and among [keys], so none is evicted while those fit. *)
Definition keys_within (keys : gset string) l : Prop := NoDup l.*1 ∧ ∀ k, k ∈ l.*1 → k ∈ keys.

Lemma keys_within_set keys l k v : k ∈ keys → keys_within keys l → keys_within keys (dict_set l k v).
Proof.
  intros Hk [Hd Hs]. unfold keys_within. rewrite dict_set_keys. case_bool_decide as Hin; [done|]. split.
  - apply NoDup_app. split_and!; [done|intros x Hx ->%list_elem_of_singleton; done|apply NoDup_singleton].
  - intros x [?| ->%list_elem_of_singleton]%elem_of_app; [by apply Hs|done].
Qed.

Lemma keys_within_pop keys l k : keys_within keys l → keys_within keys (dict_pop l k).
Proof.
  intros [Hd Hs]. assert ((dict_pop l k).*1 `sublist_of` l.*1) as Hsub.
  { clear Hd Hs. unfold dict_pop. induction l as [|kv l IH]; [done|]. rewrite filter_cons.
    destruct (decide _); cbn; [by apply sublist_skip|by apply sublist_cons]. }
  split; [by eapply sublist_NoDup|]. intros x Hx. apply Hs. by eapply elem_of_sublist.
Qed.

Lemma evict_within keys l max : keys_within keys l → Z.of_nat (size keys) ≤ max → evict max l = l.
Proof.
  intros [Hd Hs] Hm. unfold evict. destruct (max <? len l) eqn:E; [|done]. exfalso.
  assert (length l ≤ size keys)%nat; [|unfold len in E; lia].
  assert (size (list_to_set (C := gset string) l.*1) = length l) as <- by (rewrite size_list_to_set by done; apply length_fmap).
  apply subseteq_size. intros x Hx. apply Hs. by apply elem_of_list_to_set in Hx.
Qed.
End dict.

(** *** The in-process window is the log of the admitted requests *)

Lemma in_window_later closed now now' ts : now ≤ now' → in_window closed now' (in_window closed now ts) = in_window closed now' ts.
Proof.
  intros Hn. unfold in_window. induction ts as [|t ts IH]; [done|]. rewrite !filter_cons.
  destruct (decide (within closed now t = true)) as [H1|H1]; rewrite ?filter_cons;
    destruct (decide (within closed now' t = true)) as [H2|H2]; rewrite IH; try done.
  exfalso. apply H1. revert H2. unfold within. destruct closed; lia.
Qed.

Lemma in_window_app closed now ts ts' : in_window closed now (ts ++ ts') = in_window closed now ts ++ in_window closed now ts'.
Proof. apply filter_app. Qed.

Lemma counted_snoc cr key log e : counted cr key (log ++ [e]) = counted cr key log ++ (if counts cr key e then [e_at e] else []).
Proof. rewrite counted_app. f_equal. unfold counted. rewrite filter_cons, filter_nil. by destruct (counts cr key e). Qed.

Lemma sleep_quietly {D X} t (w : World D X) : clock w ≤ t → sleep_until t w = (Ok tt, w <| clock := t |>).
Proof.
  intros Ht. destruct w as [d x now tx s n]. unfold sleep_until. f_equal.
  change (MkWorld d x (Z.max t now) tx s n = MkWorld d x t tx s n). cbn in Ht. f_equal. lia.
Qed.

Section in_process.
Context (keys : gset string) (Hkeys : Z.of_nat (size keys) ≤ _RATE_COUNTER_MAX_KEYS).

Definition logged (now : Z) (log : list Entry) (x : Counters) : Prop :=
  keys_within keys (_rate_counters x) ∧
  ∀ key now', now ≤ now' → in_window false now' (default [] (dict_lookup (_rate_counters x) key)) = in_window false now' (counted false key log).

Lemma check_in_process_logged now log x r :
  r_key r ∈ keys → now ≤ r_at r → logged now log x →
  let e := decide_request false false log r in
  (check_in_process (r_key r) (r_limit r) (r_at r) x).1.1.1 = e_ok e ∧
  logged (r_at r) (log ++ [e]) (check_in_process (r_key r) (r_limit r) (r_at r) x).2.
Proof.
  intros Hk Hnow [Hw Hlog] e. unfold check_in_process.
  set (history := filter (λ t, r_at r - t < window) _).
  assert (history = in_window false (r_at r) (counted false (r_key r) log)) as Hh.
  { rewrite <- (Hlog (r_key r) (r_at r) Hnow). unfold history, in_window. apply list_filter_iff. intros t. unfold within. lia. }
  assert (e_ok e = (len history <? r_limit r)) as Hok by (unfold e; cbn; by rewrite <- Hh).
  assert (e_at e = r_at r ∧ e_key e = r_key r) as [Hat Hkey] by done. clearbody e.
  assert (∀ ts', (∀ now', r_at r ≤ now' → in_window false now' ts' = in_window false now' (counted false (r_key r) (log ++ [e]))) →
    logged (r_at r) (log ++ [e]) (x <| _rate_counters ::= λ c, dict_set c (r_key r) ts' |>)) as Hset.
  { intros ts' Hts. split; [by apply keys_within_set|]. intros key now' Hn. cbn -[dict_set dict_lookup]. rewrite dict_lookup_set.
    destruct (decide (r_key r = key)) as [<-|Hne]; [by apply Hts|]. rewrite Hlog by lia. rewrite counted_snoc. unfold counts.
    by rewrite Hkey, bool_decide_false, app_nil_r by done. }
  assert (∀ now', r_at r ≤ now' → in_window false now' history = in_window false now' (counted false (r_key r) log)) as Hlater.
  { intros now' Hn. rewrite Hh. by apply in_window_later. }
  clearbody history. destruct (r_limit r <=? len history) eqn:E; cbn [fst snd].
  - assert (e_ok e = false) as Hno by (rewrite Hok; lia). split; [done|]. apply Hset. intros now' Hn. rewrite Hlater, counted_snoc by done. unfold counts.
    by rewrite Hno, andb_false_r, app_nil_r.
  - assert (e_ok e = true) as Hyes by (rewrite Hok; lia). split; [done|].
    assert (x <| _rate_counters ::= λ c, evict _RATE_COUNTER_MAX_KEYS (dict_set c (r_key r) (history ++ [r_at r])) |> =
            x <| _rate_counters ::= λ c, dict_set c (r_key r) (history ++ [r_at r]) |>) as ->.
    { trans (MkCounters (evict _RATE_COUNTER_MAX_KEYS (dict_set (_rate_counters x) (r_key r) (history ++ [r_at r]))) (_auth_fail_counters x)); [done|].
      by rewrite (evict_within keys) by (try apply keys_within_set; done). }
    apply Hset. intros now' Hn.
    rewrite counted_snoc, !in_window_app, Hlater by done. unfold counts. by rewrite Hyes, Hkey, Hat, bool_decide_true.
Qed.

Lemma check_without_redis key limit (w : World RedisDb Counters) :
  _check_rate_limit false key limit w =
    (Ok (check_in_process key limit (clock w) (ext w)).1, w <| ext := (check_in_process key limit (clock w) (ext w)).2 |>).
Proof. done. Qed.

Lemma serve_in_process l log w :
  (∀ r, r ∈ l → r_key r ∈ keys ∧ clock w ≤ r_at r) → StronglySorted (λ r r', r_at r ≤ r_at r') l → logged (clock w) log (ext w) →
  ∃ w', for_each l (map e_ok log) (λ acc r, sleep_until (r_at r);; res ← _check_rate_limit false (r_key r) (r_limit r); mret (acc ++ [res.1.1])) w =
    (Ok (map e_ok (reference false false log l)), w').
Proof.
  revert log w. induction l as [|r l IH]; intros log w Hl Hsorted Hlog; [by exists w|].
  apply StronglySorted_inv in Hsorted as [Hsorted Hr]. rewrite Forall_forall in Hr.
  destruct (Hl r ltac:(by left)) as [Hk Hc].
  destruct (check_in_process_logged _ _ _ _ Hk Hc Hlog) as [Hok Hlog'].
  set (w1 := w <| clock := r_at r |> <| ext := (check_in_process (r_key r) (r_limit r) (r_at r) (ext w)).2 |>).
  destruct (IH (log ++ [decide_request false false log r]) w1) as [w' Hw']; [|done|exact Hlog'|].
  { intros r' Hr'. split; [by apply Hl; right|by apply Hr]. }
  exists w'. change (reference false false log (r :: l)) with (reference false false (log ++ [decide_request false false log r]) l).
  rewrite <- Hw'. cbn [for_each]. unfold mbind at 1, M_bind at 1.
  match goal with |- (let '(_, _) := ?m in _) = _ => assert (m = (Ok (map e_ok log ++ [e_ok (decide_request false false log r)]), w1)) as -> end.
  { unfold mbind, M_bind. rewrite sleep_quietly by done. rewrite check_without_redis, <- Hok. done. }
  cbn. by rewrite map_app.
Qed.
End in_process.

(** *** The Redis window is the log of all requests *)
Section with_redis.
Definition rl_key (key : string) : string := "teardrop:rl:" +:+ key.

Lemma rl_key_inj key key' : rl_key key = rl_key key' → key = key'.
Proof. unfold rl_key. by intros [= ?]. Qed.

Definition zlogged (now : Z) (log : list Entry) (d : RedisDb) : Prop :=
  (∀ key t, t ∈ counted true key log → t ≤ now) ∧
  ∀ key, match zsets d !! rl_key key with
         | None => counted true key log = []
         | Some (ts, expires) =>
             (∀ t, t ∈ counted true key log → t + seconds 61 ≤ expires) ∧
             ∀ now', now ≤ now' → in_window true now' ts = in_window true now' (counted true key log)
         end.

Lemma in_window_old now ts : (∀ t, t ∈ ts → t + window < now) → in_window true now ts = [].
Proof.
  unfold in_window. induction ts as [|t ts IH]; [done|]. intros Hts. rewrite filter_cons. destruct (decide _) as [Hw|_].
  - exfalso. specialize (Hts t ltac:(by left)). unfold within in Hw. lia.
  - apply IH. intros; apply Hts. by right.
Qed.

Lemma rl_pipeline_logged now log d r :
  now ≤ r_at r → zlogged now log d →
  let e := decide_request true true log r in
  ∃ count d', rl_pipeline (rl_key (r_key r)) (r_at r) (r_at r) d = Ok (count, d') ∧ (count <? r_limit r) = e_ok e ∧ zlogged (r_at r) (log ++ [e]) d'.
Proof.
  intros Hnow [Hpast Hlog] e. unfold rl_pipeline. set (kept := filter (λ t, r_at r - window ≤ t) _). eexists _, _. split; [reflexivity|].
  assert (kept = in_window true (r_at r) (counted true (r_key r) log)) as Hkept.
  { specialize (Hlog (r_key r)). subst kept. destruct (zsets d !! _) as [[ts expires]|]; [|by rewrite Hlog]. destruct Hlog as [Hexp Hts].
    rewrite <- Hts by done. destruct (r_at r <? expires) eqn:E.
    - unfold in_window. apply list_filter_iff. intros t. unfold within. lia.
    - rewrite Hts by done. rewrite in_window_old; [done|]. intros t Ht. specialize (Hexp t Ht). unfold window, seconds, microsecond_per_second in *. lia. }
  assert (e_ok e = (len kept <? r_limit r)) as Hok by (unfold e; cbn; by rewrite <- Hkept).
  assert (e_at e = r_at r ∧ e_key e = r_key r) as [Hat Hkey] by done. clearbody e. split; [done|].
  assert (∀ key, counted true key (log ++ [e]) = counted true key log ++ (if decide (r_key r = key) then [r_at r] else [])) as Hsnoc.
  { intros key. rewrite counted_snoc. unfold counts. rewrite Hkey, orb_true_r, andb_true_r, Hat. by destruct (bool_decide_reflect (r_key r = key)), (decide (r_key r = key)). }
  split.
  { intros key t. rewrite Hsnoc. intros [Ht|Ht]%elem_of_app; [specialize (Hpast key t Ht); lia|].
    destruct (decide _); [apply list_elem_of_singleton in Ht as ->; lia|by apply not_elem_of_nil in Ht]. }
  intros key. rewrite Hsnoc. cbn -[seconds]. destruct (decide (r_key r = key)) as [<-|Hne].
  - rewrite lookup_insert_eq. split.
    + intros t [Ht| ->%list_elem_of_singleton]%elem_of_app; [specialize (Hpast _ t Ht)|]; lia.
    + intros now' Hn. by rewrite !in_window_app, Hkept, in_window_later.
  - rewrite lookup_insert_ne by (intros ?%rl_key_inj; done). specialize (Hlog key). rewrite app_nil_r.
    destruct (zsets d !! rl_key key) as [[ts expires]|]; [|done]. destruct Hlog as [H1 H2]. split; [done|]. intros now' Hn. apply H2. lia.
Qed.

Lemma check_with_redis key limit count d' (w : World RedisDb Counters) :
  quiet w → tx_now w = None → rl_pipeline (rl_key key) (clock w) (clock w) (db w) = Ok (count, d') →
  _check_rate_limit true key limit w =
    (Ok (count <? limit, Z.max 0 (limit - count - 1), (clock w + window) / microsecond_per_second), w <| db := d' |>).
Proof.
  intros Hq Htx Hp. unfold _check_rate_limit, mbind, M_bind, datetime_now, catch. rewrite (quiet_stmt _ w Hq).
  unfold sql_now. rewrite Htx. cbn [default]. unfold rl_key in Hp. by rewrite Hp.
Qed.

Lemma serve_with_redis l log w :
  quiet w → tx_now w = None → (∀ r, r ∈ l → clock w ≤ r_at r) → StronglySorted (λ r r', r_at r ≤ r_at r') l → zlogged (clock w) log (db w) →
  ∃ w', for_each l (map e_ok log) (λ acc r, sleep_until (r_at r);; res ← _check_rate_limit true (r_key r) (r_limit r); mret (acc ++ [res.1.1])) w =
    (Ok (map e_ok (reference true true log l)), w').
Proof.
  revert log w. induction l as [|r l IH]; intros log w Hq Htx Hl Hsorted Hlog; [by exists w|].
  apply StronglySorted_inv in Hsorted as [Hsorted Hr]. rewrite Forall_forall in Hr. specialize (Hl r ltac:(by left)) as Hc.
  destruct (rl_pipeline_logged _ _ _ _ Hc Hlog) as (count & d' & Hp & Hok & Hlog').
  destruct (IH (log ++ [decide_request true true log r]) (w <| clock := r_at r |> <| db := d' |>)) as [w' Hw']; [exact Hq|exact Htx|exact Hr|done|exact Hlog'|].
  exists w'. change (reference true true log (r :: l)) with (reference true true (log ++ [decide_request true true log r]) l).
  rewrite <- Hw'. cbn [for_each]. unfold mbind at 1, M_bind at 1.
  match goal with |- (let '(_, _) := ?m in _) = _ => assert (m = (Ok (map e_ok log ++ [e_ok (decide_request true true log r)]), w <| clock := r_at r |> <| db := d' |>)) as -> end.
  { unfold mbind, M_bind. rewrite (sleep_quietly (r_at r) w Hc). rewrite (check_with_redis _ _ count d'); [|exact Hq|exact Htx|exact Hp]. by rewrite <- Hok. }
  cbn. by rewrite map_app.
Qed.
End with_redis.

(** *** The limiter *)

(** A process that has just started *)
Definition started (now : Z) : World RedisDb Counters := MkWorld (MkRedis ∅ ∅) (MkCounters [] []) now None [] 0.

Definition arrives (now : Z) (l : list Request) : Prop := (∀ r, r ∈ l → now ≤ r_at r) ∧ StronglySorted (λ r r', r_at r ≤ r_at r') l.

(** The in-process dictionary has room for all keys. *)
Definition fits (has_redis : bool) (l : list Request) : Prop :=
  has_redis = true ∨ Z.of_nat (size (list_to_set (map r_key l) : gset string)) ≤ _RATE_COUNTER_MAX_KEYS.

(** The limiter is a sliding-window log: a request is admitted exactly if fewer than its limit of
    the requests of its key that count lie in the minute before it.  In Redis every request counts,
    refused or not; in the process only the admitted ones do, as long as its dictionary has room. *)
Lemma serve_is_reference has_redis now l :
  arrives now l → fits has_redis l →
  (serve has_redis l (started now)).1 = Ok (map e_ok (reference has_redis has_redis [] l)).
Proof.
  intros [Hnow Hsorted] Hfits. unfold serve. destruct has_redis.
  - destruct (serve_with_redis l [] (started now)) as [w' Hw']; [done..| |].
    + by split; [intros key t ?%not_elem_of_nil|].
    + cbn [map] in Hw'. by rewrite Hw'.
  - destruct Hfits as [[=]|Hfits]. destruct (serve_in_process _ Hfits l [] (started now)) as [w' Hw']; [|done| |].
    + intros r Hr. split; [|by apply Hnow]. apply elem_of_list_to_set, list_elem_of_fmap. by exists r.
    + split; [split; [apply NoDup_nil_2|by intros k ?%not_elem_of_nil]|done].
    + cbn [map] in Hw'. by rewrite Hw'.
Qed.

Lemma reference_entries cr closed key t log l :
  ∃ es, reference cr closed log l = log ++ es ∧
    len (filter (λ p : Request * bool, r_key p.1 = key ∧ p.2 = true ∧ t - window < r_at p.1 ∧ r_at p.1 ≤ t)
           (zip l (map e_ok es))) = len (admitted_in key t es).
Proof.
  revert log. induction l as [|r l IH]; intros log; [exists []; by rewrite app_nil_r|].
  destruct (IH (log ++ [decide_request cr closed log r])) as (es & Hes & Hlen).
  exists (decide_request cr closed log r :: es). change (reference cr closed log (r :: l)) with (reference cr closed (log ++ [decide_request cr closed log r]) l).
  split; [by rewrite Hes, <- app_assoc|]. revert Hlen. cbn [map zip zip_with].
  unfold admitted_in. rewrite !filter_cons. cbn [fst snd e_at e_key e_ok decide_request]. unfold len.
  intros Hlen. destruct (decide _); [|exact Hlen]. cbn [length]. lia.
Qed.


(** ** Guessing passwords *)
Section guessing.
Context (has_redis : bool) (threshold window_seconds : Z) (Hthreshold : 0 < threshold) (keys : gset string).
Context (Hkeys : Z.of_nat (size keys) ≤ _AUTH_FAIL_COUNTER_MAX_KEYS).

Definition lockout_key (email : string) : string := "token:failed:" +:+ py_lower (py_strip email).

(** What is recorded of a key: the failures and when they are forgotten *)
Definition tracked (key : string) (s : option (Z * Z)) (w : World RedisDb Counters) : Prop :=
  quiet w ∧ tx_now w = None ∧ (∀ count expires_at, s = Some (count, expires_at) → 0 < count) ∧
  if has_redis then authfails (db w) !! ("teardrop:authfail:" +:+ key) = (λ ce, (ce.1, Some ce.2)) <$> s
  else keys_within keys (_auth_fail_counters (ext w)) ∧ dict_lookup (_auth_fail_counters (ext w)) key = s.

Definition is_locked (now : Z) (s : option (Z * Z)) : bool :=
  match s with Some (count, expires_at) => (now <? expires_at) && (threshold <=? count) | None => false end.

(** Forgotten failures may still be recorded. *)
Definition forget (now : Z) (s s' : option (Z * Z)) : Prop :=
  s' = s ∨ s' = None ∧ ∃ count expires_at, s = Some (count, expires_at) ∧ expires_at ≤ now.

Definition fail (now : Z) (s : option (Z * Z)) : option (Z * Z) :=
  match s with
  | Some (count, expires_at) => if expires_at <=? now then Some (1, now + seconds window_seconds) else Some (count + 1, expires_at)
  | None => Some (1, now + seconds window_seconds)
  end.

Lemma tracked_redis key s w :
  has_redis = true → tracked key s w ↔
  quiet w ∧ tx_now w = None ∧ (∀ count expires_at, s = Some (count, expires_at) → 0 < count) ∧ authfails (db w) !! ("teardrop:authfail:" +:+ key) = (λ ce, (ce.1, Some ce.2)) <$> s.
Proof. unfold tracked. by intros ->. Qed.

Lemma tracked_local key s w :
  has_redis = false → tracked key s w ↔
  quiet w ∧ tx_now w = None ∧ (∀ count expires_at, s = Some (count, expires_at) → 0 < count) ∧ keys_within keys (_auth_fail_counters (ext w)) ∧ dict_lookup (_auth_fail_counters (ext w)) key = s.
Proof. unfold tracked. by intros ->. Qed.

Lemma wpq_in_process {A} (f : Counters → A * Counters) (Q : res A → World RedisDb Counters → Prop) w :
  Q (Ok (f (ext w)).1) (w <| ext := (f (ext w)).2 |>) → wpq (in_process f) Q w.
Proof. intros HQ. unfold in_process. by do 5 quiet_step. Qed.

Lemma check_lockout_quiet key s w : tracked key s w →
  wpq (check_auth_lockout has_redis key threshold window_seconds)
    (λ r w', ∃ v s', r = Ok v ∧ v.1 = is_locked (clock w) s ∧ clock w' = clock w ∧ forget (clock w) s s' ∧ tracked key s' w') w.
Proof.
  intros Ht. unfold check_auth_lockout. do 2 quiet_step. destruct has_redis eqn:Hr.
  - pose proof Ht as (Hq & Htx & Hpos & Hs)%tracked_redis; [|done].
    assert (∀ v, v.1 = is_locked (clock w) s → wpq (mret v : LH (bool * Z)) (λ r w', ∃ v s', r = Ok v ∧ v.1 = is_locked (clock w) s ∧ clock w' = clock w ∧ forget (clock w) s s' ∧ tracked key s' w') w) as Hret.
    { intros v Hv. quiet_step. exists v, s. by split_and!; [..|left|]. }
    assert ((threshold <=? default 0 (fst <$> (redis_live ("teardrop:authfail:" +:+ key) (sql_now w) (db w)))) = is_locked (clock w) s) as Hl.
    { unfold sql_now, redis_live. rewrite Htx, Hs. destruct s as [[count expires]|]; cbn; [|lia].
      destruct (clock w <? expires); cbn; [done|lia]. }
    do 4 quiet_step. rewrite Hl. destruct (is_locked (clock w) s); repeat quiet_step; by apply Hret.
  - pose proof Ht as (Hq & Htx & Hpos & Hw & Hs)%tracked_local; [|done]. quiet_step. quiet_step. apply wpq_in_process. unfold locked_in_process. rewrite Hs.
    destruct s as [[count expires]|]; [|by exists (false, 0), None; split_and!; [..|left|]].
    cbn [is_locked]. destruct (expires <=? clock w) eqn:E; cbn [fst snd].
    + exists (false, 0), None. split_and!; [done|cbn; lia|done|right; split; [done|]; exists count, expires; split; [done|lia]|].
      apply tracked_local; [done|]. split_and!; [done..|by apply keys_within_pop|]. cbn -[dict_pop dict_lookup]. rewrite dict_lookup_pop. by rewrite decide_True.
    + assert ((clock w <? expires) = true) as -> by lia. cbn [andb].
      destruct (threshold <=? count) eqn:Et; (eexists _, (Some (count, expires)); split_and!; [reflexivity|done|done|by left|done]).
Qed.

Lemma record_quiet key s w : key ∈ keys → tracked key s w →
  wpq (record_auth_failure has_redis key window_seconds) (λ r w', ∃ n, r = Ok n ∧ clock w' = clock w ∧ tracked key (fail (clock w) s) w') w.
Proof.
  intros Hk Ht. assert (∀ count expires_at, fail (clock w) s = Some (count, expires_at) → 0 < count) as Hpos'.
  { destruct Ht as (_ & _ & Hpos & _). unfold fail. destruct s as [[c e]|]; [specialize (Hpos c e eq_refl); destruct (e <=? clock w)|]; intros ?? [= <- <-]; lia. }
  unfold record_auth_failure. do 2 quiet_step. destruct has_redis eqn:Hr.
  - pose proof Ht as (Hq & Htx & Hpos & Hs)%tracked_redis; [|done]. do 3 quiet_step. quiet_step. unfold redis_incr.
    unfold sql_now. rewrite Htx, Hs. cbn [default].
    assert (∀ c e w', fail (clock w) s = Some (c, e) → quiet w' → tx_now w' = None → clock w' = clock w → authfails (db w') !! ("teardrop:authfail:" +:+ key) = Some (c, Some e) →
      wpq (mret c) (λ r w', ∃ n, r = Ok n ∧ clock w' = clock w ∧ tracked key (fail (clock w) s) w') w') as Hret.
    { intros c e w' Hf Hq' Htx' Hc Hw'. quiet_step. exists c. split_and!; [done..|]. apply tracked_redis; [done|]. split_and!; [done..|]. by rewrite Hf. }
    assert (∀ count ttl, (∀ c e, fail (clock w) s = Some (c, e) → c = count + 1 ∧ (count = 0 ∧ e = clock w + seconds window_seconds ∨ 0 < count ∧ ttl = Some e)) →
      wpq ((if count + 1 =? 1 then stmt (redis_expire ("teardrop:authfail:" +:+ key) window_seconds) else mret tt);; mret (Some (count + 1)))
        (λ r w', match r with Ok (Some n) => wpq (mret n) (λ r w', ∃ n, r = Ok n ∧ clock w' = clock w ∧ tracked key (fail (clock w) s) w') w' | _ => False end)
        (w <| db := (db w) <| authfails ::= <["teardrop:authfail:" +:+ key := (count + 1, ttl)]> |> |>)) as Hstore.
    { intros count ttl Hf. destruct (fail (clock w) s) as [[c e]|] eqn:Hfail; [|by destruct s as [[c e]|]; cbn in Hfail; try destruct (e <=? clock w)].
      destruct (Hf c e eq_refl) as [-> [[-> ->]|[Hc ->]]].
      - change (0 + 1 =? 1) with true. do 2 quiet_step. unfold redis_expire, sql_now. cbn -[seconds]. rewrite Htx, lookup_insert_eq. cbn -[seconds]. quiet_step. eapply Hret; [done..|]. cbn -[seconds]. by rewrite lookup_insert_eq.
      - rewrite (proj2 (Z.eqb_neq _ _)) by lia. do 3 quiet_step. eapply Hret; [done..|]. cbn. by rewrite lookup_insert_eq. }
    destruct s as [[c e]|]; cbn [fmap option_fmap option_map fst snd].
    + specialize (Hpos c e eq_refl). destruct (clock w <? e) eqn:E; eapply wpq_mono; [apply Hstore| |apply Hstore|].
      * intros c' e' Hf. cbn in Hf. rewrite (proj2 (Z.leb_gt _ _)) in Hf by lia. injection Hf as <- <-. split; [done|]. right. by split.
      * intros [[n|]|x] w' Hw'; [exact Hw'|done..].
      * intros c' e' Hf. cbn -[seconds] in Hf. rewrite (proj2 (Z.leb_le _ _)) in Hf by lia. injection Hf as <- <-. split; [done|]. by left.
      * intros [[n|]|x] w' Hw'; [exact Hw'|done..].
    + eapply wpq_mono; [apply Hstore|].
      * intros c' e' Hf. cbn -[seconds] in Hf. injection Hf as <- <-. split; [done|]. by left.
      * intros [[n|]|x] w' Hw'; [exact Hw'|done..].
  - pose proof Ht as (Hq & Htx & Hpos & Hw & Hs)%tracked_local; [|done]. quiet_step. quiet_step. apply wpq_in_process. unfold record_in_process. rewrite Hs.
    assert (∀ count expires, fail (clock w) s = Some (count + 1, expires) →
      ∃ n, Ok (count + 1, (ext w) <| _auth_fail_counters ::= λ c, evict _AUTH_FAIL_COUNTER_MAX_KEYS (dict_set c key (count + 1, expires)) |>).1 = Ok n ∧ clock w = clock w ∧
        tracked key (fail (clock w) s) (w <| ext := (count + 1, (ext w) <| _auth_fail_counters ::= λ c, evict _AUTH_FAIL_COUNTER_MAX_KEYS (dict_set c key (count + 1, expires)) |>).2 |>)) as Hset.
    { intros count expires Hf. eexists. split_and!; [done..|]. apply tracked_local; [done|]. split_and!; [done|done|exact Hpos'| |];
        cbn -[dict_set dict_lookup evict]; rewrite (evict_within keys) by (try apply keys_within_set; done); [by apply keys_within_set|].
      rewrite dict_lookup_set, decide_True by done. by rewrite Hf. }
    destruct s as [[c e]|]; cbn [default from_option].
    + unfold id. destruct (e <=? clock w) eqn:E; [apply (Hset 0 (clock w + seconds window_seconds))|apply (Hset c e)]; unfold fail; by rewrite E.
    + destruct (_ <=? clock w) eqn:E; by apply (Hset 0 (clock w + seconds window_seconds)).
Qed.

(** What a handler for another key leaves alone *)
Section other_key.
Context (key : string).

Definition keeps_key {A} (m : LH A) : Prop :=
  ∀ s w, tracked key s w → wpq m (λ r w', (∃ a, r = Ok a) ∧ clock w' = clock w ∧ tracked key s w') w.

Lemma keeps_ret {A} (a : A) : keeps_key (mret a : LH A).
Proof. intros s w Hs. quiet_step. eauto. Qed.

Lemma keeps_now : keeps_key (datetime_now : LH Z).
Proof. intros s w Hs. quiet_step. eauto. Qed.

Lemma keeps_bind {A B} (m : LH A) (f : A → LH B) : keeps_key m → (∀ a, keeps_key (f a)) → keeps_key (m ≫= f).
Proof.
  intros Hm Hf s w Hs. quiet_step. eapply wpq_mono; [by apply Hm|]. intros r w' ([a ->] & Hc & Hs'). eapply wpq_mono; [by apply Hf|].
  intros r w2 (Hr & Hc2 & Hs2). split_and!; [done|congruence|done].
Qed.

Lemma keeps_catch {A} (m : LH A) h : keeps_key m → keeps_key (catch m h).
Proof. intros Hm s w Hs. quiet_step. eapply wpq_mono; [by apply Hm|]. intros r w' ([a ->] & Hc & Hs'). by split_and!; [exists a|..]. Qed.

Lemma keeps_stmt {A} (f : Z → RedisDb → res (A * RedisDb)) :
  (∀ now d, ∃ a d', f now d = Ok (a, d') ∧ authfails d' !! ("teardrop:authfail:" +:+ key) = authfails d !! ("teardrop:authfail:" +:+ key)) →
  keeps_key (stmt f).
Proof.
  intros Hf s w Hs. apply wpq_stmt. destruct (Hf (sql_now w) (db w)) as (a & d' & -> & Hd). split_and!; [by eexists|done|].
  destruct Hs as (Hq & Htx & Hpos & Hs). split_and!; [done..|]. destruct has_redis; [|exact Hs]. cbn. by rewrite Hd.
Qed.

Lemma keeps_query {A} (f : Z → RedisDb → A) : keeps_key (query f).
Proof. apply keeps_stmt. eauto. Qed.

Lemma keeps_in_process {A} (f : Counters → A * Counters) :
  (∀ x, keys_within keys (_auth_fail_counters x) → keys_within keys (_auth_fail_counters (f x).2) ∧
        dict_lookup (_auth_fail_counters (f x).2) key = dict_lookup (_auth_fail_counters x) key) → keeps_key (in_process f).
Proof.
  intros Hf s w Hs. apply wpq_in_process. split_and!; [by eexists|done|]. destruct Hs as (Hq & Htx & Hpos & Hs). split_and!; [done..|].
  destruct has_redis; [exact Hs|]. destruct Hs as [Hw Hs]. destruct (Hf (ext w) Hw) as [? E]. cbn. by rewrite E.
Qed.

Lemma keeps_rate_limit k limit : keeps_key (_check_rate_limit has_redis k limit).
Proof.
  unfold _check_rate_limit. apply keeps_bind; [apply keeps_now|]. intros now. cbv zeta. apply keeps_bind.
  - destruct has_redis; [|apply keeps_ret]. apply keeps_catch, keeps_bind; [|intros; apply keeps_ret]. apply keeps_stmt. intros n d. by eexists _, _.
  - intros [c|]; [apply keeps_ret|]. apply keeps_in_process. intros x Hx. unfold check_in_process. by destruct (_ <=? _).
Qed.

Context (key' : string) (Hkey' : key' ∈ keys) (Hne : key ≠ key').

Lemma redis_key_ne : "teardrop:authfail:" +:+ key' ≠ "teardrop:authfail:" +:+ key.
Proof. intros [= E]. by apply Hne. Qed.

Lemma keeps_check_lockout : keeps_key (check_auth_lockout has_redis key' threshold window_seconds).
Proof using Hne.
  unfold check_auth_lockout. apply keeps_bind; [apply keeps_now|]. intros now. apply keeps_bind.
  - destruct has_redis; [|apply keeps_ret]. apply keeps_catch, keeps_bind; [apply keeps_query|]. intros raw.
    destruct (_ <=? _); [|apply keeps_ret]. apply keeps_bind; [apply keeps_query|]. intros; apply keeps_ret.
  - intros [a|]; [apply keeps_ret|]. apply keeps_in_process. intros x Hx. unfold locked_in_process.
    destruct (dict_lookup _ _) as [[c e]|]; [|done]. destruct (e <=? now); [|by destruct (_ <=? _)].
    split; [by apply keys_within_pop|]. cbn -[dict_pop dict_lookup]. by rewrite dict_lookup_pop, decide_False.
Qed.

Lemma keeps_failure_record : keeps_key (record_auth_failure has_redis key' window_seconds).
Proof using Hne Hkey' Hkeys.
  pose proof redis_key_ne as Hrk. unfold record_auth_failure. apply keeps_bind; [apply keeps_now|]. intros now. apply keeps_bind.
  - destruct has_redis; [|apply keeps_ret]. apply keeps_catch, keeps_bind.
    + apply keeps_stmt. intros n d. unfold redis_incr.
      destruct (match authfails d !! _ with Some _ => _ | None => _ end) as [c ttl]. eexists _, _. split; [done|]. cbn. by rewrite lookup_insert_ne.
    + intros c. apply keeps_bind; [|intros; apply keeps_ret]. destruct (c =? 1); [|apply keeps_ret]. apply keeps_stmt. intros n d. unfold redis_expire.
      destruct (authfails d !! _) as [[c' ttl]|]; eexists _, _; (split; [reflexivity|]); cbn; [by rewrite lookup_insert_ne|done].
  - intros [c|]; [apply keeps_ret|]. apply keeps_in_process. intros x Hx. unfold record_in_process.
    destruct (default _ _) as [c e]. destruct (if e <=? now then _ else _) as [c' e']. cbn -[evict dict_set dict_lookup].
    rewrite (evict_within keys) by (try apply keys_within_set; done). split; [by apply keys_within_set|]. by rewrite dict_lookup_set, decide_False.
Qed.

Lemma keeps_clear : keeps_key (clear_auth_failures has_redis key').
Proof using Hne.
  pose proof redis_key_ne as Hrk. unfold clear_auth_failures. apply keeps_bind.
  - destruct has_redis; [|apply keeps_ret]. apply keeps_catch, keeps_bind; [|intros; apply keeps_ret]. apply keeps_stmt.
    intros n d. eexists _, _. split; [done|]. cbn. by rewrite lookup_delete_ne.
  - intros [|]; [apply keeps_ret|]. apply keeps_in_process. intros x Hx. split; [by apply keys_within_pop|].
    cbn -[dict_pop dict_lookup]. by rewrite dict_lookup_pop, decide_False.
Qed.
End other_key.

Lemma keeps_login key email right : key ≠ lockout_key email → lockout_key email ∈ keys → keeps_key key (email_login has_redis threshold window_seconds email right).
Proof using Hkeys.
  intros Hne Hk. unfold email_login. apply keeps_bind; [by apply keeps_check_lockout|]. intros lock. destruct lock.1; [apply keeps_ret|].
  apply keeps_bind; [apply keeps_rate_limit|]. intros limited. destruct (negb _); [apply keeps_ret|].
  destruct right; (apply keeps_bind; [|intros; apply keeps_ret]); [by apply keeps_clear|by apply keeps_failure_record].
Qed.

(** A wrong password is compared only while the account is not locked, and then counts. *)
Lemma wrong_login_quiet email s w : lockout_key email ∈ keys → tracked (lockout_key email) s w →
  wpq (email_login has_redis threshold window_seconds email false) (λ r w', ∃ a s', r = Ok a ∧ clock w' = clock w ∧ tracked (lockout_key email) s' w' ∧
    (a = InvalidCredentials ∧ is_locked (clock w) s = false ∧ s' = fail (clock w) s ∨ a ≠ InvalidCredentials ∧ forget (clock w) s s')) w.
Proof.
  intros Hk Hs. unfold email_login. quiet_step. eapply wpq_mono; [by apply check_lockout_quiet|].
  intros r w1 (v & s1 & -> & Hv & Hc1 & Hf & Hs1). destruct v.1 eqn:Ev.
  { quiet_step. exists (TooManyFailures v.2), s1. split_and!; [done..|]. by right. }
  quiet_step. eapply wpq_mono; [by apply keeps_rate_limit|]. intros r w2 ([lim ->] & Hc2 & Hs2). destruct (negb _).
  { quiet_step. exists TooManyRequests, s1. split_and!; [done|congruence|done|]. by right. }
  quiet_step. eapply wpq_mono; [by apply record_quiet|]. intros r w3 (n & -> & Hc3 & Hs3). quiet_step.
  exists InvalidCredentials, (fail (clock w) s). split_and!; [done|congruence| |by left].
  rewrite Hc2, Hc1 in Hs3. destruct Hf as [->|[-> (c & e & -> & He)]]; [done|]. cbn -[seconds] in *. by rewrite (proj2 (Z.leb_le _ _)) by lia.
Qed.

(** How many more wrong passwords can be compared before [until] *)
Definition guesses_left (until now : Z) (s : option (Z * Z)) : Z :=
  match s with
  | Some (count, expires_at) =>
      if expires_at <=? now then threshold
      else Z.max 0 (threshold - count) + (if until <=? expires_at then 0 else threshold)
  | None => threshold
  end.

Lemma guesses_left_later until now now' s : now ≤ now' → now' < until → guesses_left until now' s ≤ guesses_left until now s.
Proof.
  intros H1 H2. destruct s as [[c e]|]; [|done]. cbn.
  destruct (e <=? now) eqn:E1, (e <=? now') eqn:E2, (until <=? e) eqn:E3; lia.
Qed.

Lemma guesses_left_forget until now s s' : forget now s s' → guesses_left until now s' = guesses_left until now s.
Proof. intros [->|[-> (c & e & -> & He)]]; [done|]. cbn. by rewrite (proj2 (Z.leb_le _ _)). Qed.

Lemma guesses_left_fail until now s : is_locked now s = false → now < until → until ≤ now + seconds window_seconds →
  guesses_left until now (fail now s) ≤ guesses_left until now s - 1.
Proof.
  intros Hl H1 H2. unfold guesses_left, fail, is_locked in *. destruct s as [[c e]|]; cbn -[seconds] in *.
  - destruct (e <=? now) eqn:E1; [|destruct (e <=? now) eqn:E2; [done|]; destruct (until <=? e); lia].
    rewrite (proj2 (Z.leb_gt _ _)), (proj2 (Z.leb_le _ _)) by lia. lia.
  - rewrite (proj2 (Z.leb_gt _ _)), (proj2 (Z.leb_le _ _)) by lia. lia.
Qed.

Lemma guesses_left_nonneg until now s : 0 ≤ guesses_left until now s.
Proof. unfold guesses_left. destruct s as [[c e]|]; [|lia]. repeat case_match; lia. Qed.

Record Attempt := MkAttempt { a_at : Z; a_email : string; a_right : bool }.

Definition logins (l : list Attempt) : LH (list login_answer) :=
  for_each l [] (λ acc a, sleep_until (a_at a);; r ← email_login has_redis threshold window_seconds (a_email a) (a_right a); mret (acc ++ [r])).

(** The passwords compared, and found wrong, for an account *)
Definition guesses (key : string) (l : list Attempt) (answers : list login_answer) : Z :=
  len (filter (λ p : Attempt * login_answer, lockout_key (a_email p.1) = key ∧ p.2 = InvalidCredentials) (zip l answers)).

Lemma logins_guesses key s until l acc w :
  tracked key s w → (∀ a, a ∈ l → clock w ≤ a_at a ∧ a_at a < until ∧ until ≤ a_at a + seconds window_seconds ∧ lockout_key (a_email a) ∈ keys) →
  (∀ a, a ∈ l → lockout_key (a_email a) = key → a_right a = false) → StronglySorted (λ a a', a_at a ≤ a_at a') l → clock w < until →
  wpq (for_each l acc (λ acc a, sleep_until (a_at a);; r ← email_login has_redis threshold window_seconds (a_email a) (a_right a); mret (acc ++ [r])))
    (λ r _, ∃ answers, r = Ok (acc ++ answers) ∧ guesses key l answers ≤ guesses_left until (clock w) s) w.
Proof.
  revert acc s w. induction l as [|a l IH]; intros acc s w Hs Hl Hwrong Hsorted Huntil.
  { cbn [for_each]. quiet_step. exists []. rewrite app_nil_r. split; [done|]. apply guesses_left_nonneg. }
  apply StronglySorted_inv in Hsorted as [Hsorted Ha]. rewrite Forall_forall in Ha.
  destruct (Hl a ltac:(by left)) as (H1 & H2 & H3 & H4). cbn [for_each]. quiet_step. quiet_step.
  assert (wpq (sleep_until (a_at a)) (λ r w', r = Ok tt ∧ w' = w <| clock := a_at a |>) w) as Hsleep.
  { intros Hq. by rewrite sleep_quietly. }
  eapply wpq_mono; [exact Hsleep|]. intros r w1 [-> ->]. quiet_step.
  assert (tracked key s (w <| clock := a_at a |>)) as Hs1 by exact Hs.
  assert (∀ r s' w', clock w' = a_at a → tracked key s' w' →
    guesses_left until (a_at a) s' + (if decide (lockout_key (a_email a) = key ∧ r = InvalidCredentials) then 1 else 0) ≤ guesses_left until (clock w) s →
    wpq (for_each l (acc ++ [r]) (λ acc a, sleep_until (a_at a);; r ← email_login has_redis threshold window_seconds (a_email a) (a_right a); mret (acc ++ [r])))
      (λ r _, ∃ answers, r = Ok (acc ++ answers) ∧ guesses key (a :: l) answers ≤ guesses_left until (clock w) s) w') as Hrest.
  { intros r s' w' Hc Hs' Hle. eapply wpq_mono; [apply (IH _ s'); [done| |intros; apply Hwrong; [by right|done]|done|lia]|].
    - intros a' Ha'. rewrite Hc. split_and!; [by apply Ha|apply Hl; by right..].
    - intros r' _ (answers & -> & Hg). exists (r :: answers). rewrite <- app_assoc. split; [done|]. revert Hg. rewrite Hc.
      unfold guesses. cbn [zip zip_with]. rewrite filter_cons. cbn [fst snd]. unfold len. intros Hg. destruct (decide _); cbn [length]; lia. }
  destruct (decide (lockout_key (a_email a) = key)) as [Hk|Hk].
  - rewrite (Hwrong a ltac:(by left) Hk). subst key. eapply wpq_mono; [by apply wrong_login_quiet|].
    intros r w2 (ans & s' & -> & Hc & Hs' & Hcase). quiet_step. eapply Hrest; [exact Hc|exact Hs'|].
    change (clock (w <| clock := a_at a |>)) with (a_at a) in Hcase. assert (guesses_left until (a_at a) s ≤ guesses_left until (clock w) s) by (apply guesses_left_later; lia).
    destruct Hcase as [(-> & Hl1 & ->)|(Hne & Hf)].
    + rewrite decide_True by done. pose proof (guesses_left_fail until (a_at a) s Hl1 H2 H3). cbn -[guesses_left fail]. lia.
    + rewrite decide_False by (by intros [_ ?]). rewrite (guesses_left_forget _ _ _ _ Hf). lia.
  - eapply wpq_mono; [apply keeps_login; [by intros E; apply Hk|done|exact Hs1]|]. intros r w2 ([ans ->] & Hc & Hs2). quiet_step.
    eapply Hrest; [exact Hc|exact Hs2|]. rewrite decide_False by (by intros [? _]). rewrite Z.add_0_r. apply guesses_left_later; lia.
Qed.

End guessing.

(** ** Slots for agent runs (teardrop/concurrency.py) *)
Module Concurrency.
(** An [_AgentRunLimiter]; a lease knows the limiter that granted it. *)
Record Limiter := MkLimiter { _limit : Z; _active : Z }.
Record Lease := MkLease { lease_limiter : nat; _released : bool }.

(** Every limiter and every lease ever made, by their addresses *)
Record Slots := MkSlots { limiters : list Limiter; _limiter : nat; leases : list Lease }.

Definition initial : Slots := MkSlots [MkLimiter 16 0] 0 [].

(** [_AgentRunLimiter.release] *)
Definition limiter_release (i : nat) (x : Slots) : res Slots :=
  match limiters x !! i with
  | Some l =>
      if _active l <=? 0 then Raise (RuntimeError "Agent run limiter released without an active lease")
      else Ok (MkSlots (<[i := MkLimiter (_limit l) (_active l - 1)]> (limiters x)) (_limiter x) (leases x))
  | None => Ok x
  end.

(** [_AgentRunLease.release] *)
Definition lease_release (n : nat) (x : Slots) : res Slots :=
  match leases x !! n with
  | Some lease =>
      if _released lease then Ok x
      else limiter_release (lease_limiter lease) (MkSlots (limiters x) (_limiter x) (<[n := MkLease (lease_limiter lease) true]> (leases x)))
  | None => Ok x
  end.

(** [try_acquire_agent_run_slot] *)
Definition try_acquire_agent_run_slot (x : Slots) : option nat * Slots :=
  match limiters x !! _limiter x with
  | Some l =>
      if _limit l <=? _active l then (None, x)
      else (Some (length (leases x)),
            MkSlots (<[_limiter x := MkLimiter (_limit l) (_active l + 1)]> (limiters x)) (_limiter x) (leases x ++ [MkLease (_limiter x) false]))
  | None => (None, x)
  end.

Definition init_agent_run_limiter (limit : Z) (x : Slots) : res Slots :=
  if limit <? 1 then Raise (ValueError "Agent run concurrency limit must be positive")
  else Ok (MkSlots (limiters x ++ [MkLimiter limit 0]) (length (limiters x)) (leases x)).

(** [acquire_agent_run_slot] and [limit_agent_runs]: the lease is released on every way out of the body. *)
Definition acquire_agent_run_slot {A} (body : Slots → res A * Slots) (x : Slots) : res A * Slots :=
  match try_acquire_agent_run_slot x with
  | (None, x1) => (Raise (RuntimeError "Agent run capacity is exhausted"), x1)
  | (Some n, x1) =>
      let '(r, x2) := body x1 in
      match lease_release n x2 with Ok x3 => (r, x3) | Raise e => (Raise e, x2) end
  end.

(** What the coroutines of the process do, in any order; releases may be repeated. *)
Inductive slot_op := Init (limit : Z) | Acquire | Release (lease : nat).

Definition slot_step (x : Slots) (op : slot_op) : res Slots :=
  match op with
  | Init limit => init_agent_run_limiter limit x
  | Acquire => Ok (try_acquire_agent_run_slot x).2
  | Release n => lease_release n x
  end.

(** An exception leaves the state as it was. *)
Definition slot_run (x : Slots) (ops : list slot_op) : Slots := foldl (λ x op, match slot_step x op with Ok x' => x' | Raise _ => x end) x ops.

(** The leases of a limiter that are out *)
Definition out (i : nat) (l : list Lease) : Z := lsum (λ lease, if bool_decide (lease_limiter lease = i) && negb (_released lease) then 1 else 0) l.

#[local] Arguments out : simpl never.

Definition accounted (x : Slots) : Prop :=
  (_limiter x < length (limiters x))%nat ∧
  (∀ lease, lease ∈ leases x → (lease_limiter lease < length (limiters x))%nat) ∧
  ∀ i l, limiters x !! i = Some l → _active l = out i (leases x) ∧ 0 ≤ _active l ∧ _active l ≤ _limit l.

Lemma out_snoc i l lease : out i (l ++ [lease]) = out i l + (if bool_decide (lease_limiter lease = i) && negb (_released lease) then 1 else 0).
Proof. apply lsum_snoc. Qed.

Lemma out_release i l n lease : l !! n = Some lease → _released lease = false →
  out i (<[n := MkLease (lease_limiter lease) true]> l) = out i l - (if bool_decide (lease_limiter lease = i) then 1 else 0).
Proof.
  unfold out. revert n. induction l as [|a l IH]; intros [|n]; [done..| |]; intros Hn Hr.
  - injection Hn as ->. change (<[0%nat := ?y]> (lease :: l)) with (y :: l). rewrite !lsum_cons, Hr. cbn [lease_limiter _released negb].
    destruct (bool_decide _); cbn [andb]; lia.
  - change (<[S n := ?y]> (a :: l)) with (a :: <[n := y]> l). rewrite !lsum_cons. rewrite IH by done. lia.
Qed.

Lemma out_nonneg i l : 0 ≤ out i l.
Proof. apply lsum_nonneg. intros a _. destruct (_ && _); lia. Qed.

Lemma accounted_step x op : accounted x →
  match slot_step x op with
  | Ok x' => accounted x'
  | Raise e => ∃ limit, op = Init limit ∧ limit < 1 ∧ e = ValueError "Agent run concurrency limit must be positive"
  end.
Proof.
  intros (Hc & Hin & Hx). destruct op as [limit| |n]; cbn.
  - unfold init_agent_run_limiter. destruct (limit <? 1) eqn:E; [exists limit; split_and!; [done|lia|done]|]. split_and!; cbn; [rewrite length_app; cbn; lia| |].
    { intros lease Hl%Hin. rewrite length_app. lia. }
    intros i l [Hi|[? Hi]]%lookup_app_Some; [by apply Hx|]. apply list_lookup_singleton_Some in Hi as [Hi <-]. cbn.
    assert (out i (leases x) = 0) as ->; [|lia]. apply lsum_zero. intros lease Hl%Hin. rewrite bool_decide_false by lia. done.
  - unfold try_acquire_agent_run_slot. destruct (limiters x !! _limiter x) as [l|] eqn:El; [|done]. destruct (_ <=? _) eqn:E; [done|].
    pose proof (Hx _ _ El) as (Ha & H0 & Hl). split_and!; cbn; [by rewrite length_insert| |].
    { intros lease [Hl'%Hin| ->%list_elem_of_singleton]%elem_of_app; by rewrite length_insert. }
    intros i l'. rewrite out_snoc. cbn [lease_limiter _released negb]. rewrite andb_true_r.
    destruct (decide (i = _limiter x)) as [->|Hne].
    + rewrite list_lookup_insert_eq by done. intros [= <-]. cbn. rewrite bool_decide_true by done. lia.
    + rewrite list_lookup_insert_ne by done. intros Hi. rewrite bool_decide_false by done. specialize (Hx _ _ Hi). cbn. lia.
  - unfold lease_release. destruct (leases x !! n) as [lease|] eqn:En; [|done]. destruct (_released lease) eqn:Er; [done|].
    unfold limiter_release. cbn. destruct (lookup_lt_is_Some_2 (limiters x) (lease_limiter lease)) as [l El]; [by eapply Hin, list_elem_of_lookup_2|].
    rewrite El. pose proof (Hx _ _ El) as (Ha & H0 & Hl). pose proof (λ i, out_release i _ _ _ En Er) as Hout.
    pose proof (out_nonneg (lease_limiter lease) (<[n := MkLease (lease_limiter lease) true]> (leases x))) as Hnn.
    pose proof (Hout (lease_limiter lease)) as Ho. rewrite bool_decide_true in Ho by done. rewrite (proj2 (Z.leb_gt _ _)) by lia.
    split_and!; cbn; [by rewrite length_insert| |].
    { intros lease' [i Hi]%list_elem_of_lookup_1. rewrite length_insert. destruct (decide (i = n)) as [->|Hne].
      - rewrite list_lookup_insert_eq in Hi by (by eapply lookup_lt_Some). injection Hi as <-. cbn. by eapply Hin, list_elem_of_lookup_2.
      - rewrite list_lookup_insert_ne in Hi by done. by eapply Hin, list_elem_of_lookup_2. }
    intros i l'. rewrite Hout. destruct (decide (i = lease_limiter lease)) as [->|Hne].
    + rewrite list_lookup_insert_eq by (by eapply lookup_lt_Some). intros [= <-]. cbn. rewrite bool_decide_true by done. lia.
    + rewrite list_lookup_insert_ne by done. intros Hi. rewrite bool_decide_false by done. specialize (Hx _ _ Hi). cbn. lia.
Qed.

Lemma accounted_run x ops : accounted x → accounted (slot_run x ops).
Proof.
  revert x. induction ops as [|op ops IH]; intros x Hx; [done|]. apply IH. pose proof (accounted_step x op Hx) as Hs.
  by destruct (slot_step x op).
Qed.

Lemma accounted_initial : accounted initial.
Proof.
  split_and!; [cbn; lia|by intros lease ?%not_elem_of_nil|]. intros [|i] l; [|done]. intros [= <-]. split_and!; [done|cbn; lia..].
Qed.

(** C20. Whatever the coroutines of the process do, also after the limiter is replaced: the runs a
    limiter counts are exactly its leases that are out, never more than its limit; a lease, however
    often it is released, gives its slot back once; no release raises; and a slot is refused only
    when as many runs as the limit are out. *)
Theorem slots_accounted ops :
  let x := slot_run initial ops in
  accounted x ∧ (∀ n, ∃ x', lease_release n x = Ok x') ∧
  ((try_acquire_agent_run_slot x).1 = None → ∃ l, limiters x !! _limiter x = Some l ∧ out (_limiter x) (leases x) = _limit l).
Proof.
  intros x. assert (accounted x) as Hx by apply accounted_run, accounted_initial. split_and!; [done| |].
  - intros n. pose proof (accounted_step x (Release n) Hx) as Hs. cbn in Hs. destruct (lease_release n x); [by eexists|]. by destruct Hs as (? & [=] & _).
  - destruct Hx as (Hc & _ & Hx). unfold try_acquire_agent_run_slot. destruct (lookup_lt_is_Some_2 _ _ Hc) as [l El]. rewrite El.
    destruct (_ <=? _) eqn:E; [|done]. intros _. exists l. split; [done|]. specialize (Hx _ _ El). lia.
Qed.

(** A guarded run ends with what its body ends with, and its slot is back, whatever happened meanwhile. *)
Lemma slot_given_back {A} (body : Slots → res A * Slots) x n r x1 ops :
  accounted x → try_acquire_agent_run_slot x = (Some n, x1) → body x1 = (r, slot_run x1 ops) →
  ∃ x3, acquire_agent_run_slot body x = (r, x3) ∧ accounted x3 ∧ lease_release n (slot_run x1 ops) = Ok x3.
Proof.
  intros Hx Hn Hb. unfold acquire_agent_run_slot. rewrite Hn, Hb.
  pose proof (accounted_step x Acquire Hx) as H1. cbn in H1. rewrite Hn in H1. cbn in H1.
  pose proof (accounted_step _ (Release n) (accounted_run x1 ops H1)) as H2. cbn in H2.
  destruct (lease_release n (slot_run x1 ops)) as [x3|e]; [by exists x3|by destruct H2 as (? & [=] & _)].
Qed.

Example sixteen_runs : (try_acquire_agent_run_slot (slot_run initial (replicate 16 Acquire ++ [Release 3]))).1 = Some 16%nat ∧
  (try_acquire_agent_run_slot (slot_run initial (replicate 17 Acquire))).1 = None.
Proof. vm_compute. split; reflexivity. Qed.
End Concurrency.

(** ** Bursts, and logins *)
Module RateDemo.
Definition burst : list Request := (λ t, MkRequest (seconds t) "1.2.3.4" 2) <$> [1; 2; 3; 61; 62; 63].

(** The fourth request is exactly a minute after the first, which Redis still counts; and it counts the refused ones. *)
Example in_process_burst : (serve false burst (started 0)).1 = Ok [true; true; false; true; true; false].
Proof. vm_compute. reflexivity. Qed.
Example redis_burst : (serve true burst (started 0)).1 = Ok [true; true; false; false; false; false].
Proof. vm_compute. reflexivity. Qed.

Lemma burst_arrives : arrives 0 burst.
Proof.
  split.
  - intros r Hr. unfold burst in Hr. repeat (apply elem_of_cons in Hr as [->|Hr]; [vm_compute; discriminate|]). by apply elem_of_nil in Hr.
  - repeat constructor; vm_compute; discriminate.
Qed.

Definition guess (t : Z) (email : string) : Attempt := MkAttempt (seconds t) email false.
Definition guesses_at_bob : list Attempt := [guess 1 "bob@x.y"; guess 20 " Bob@x.y"; guess 21 "eve@x.y"; guess 40 "bob@x.y"; guess 130 "BOB@X.Y"].

Definition tried : gset string := list_to_set [lockout_key "bob@x.y"; lockout_key "eve@x.y"].

Example locked_out : (logins false 2 300 guesses_at_bob (started 0)).1 =
  Ok [InvalidCredentials; InvalidCredentials; InvalidCredentials; TooManyFailures 261; TooManyFailures 171].
Proof. vm_compute. reflexivity. Qed.

(** The counter is written, but giving it an expiry fails: two failures a day apart lock the account
    for good, since only the password, which is no longer compared, would clear it. *)
Lemma lockout_without_expiry :
  let w := (started 0) <| sched := [MkEvent 0 FOk (λ d x, (d, x)); MkEvent 0 FOk (λ d x, (d, x)); MkEvent 0 FOk (λ d x, (d, x)); MkEvent 0 FFail (λ d x, (d, x))] |> in
  (logins true 2 300 [guess 1 "bob@x.y"; guess 90000 "bob@x.y"; MkAttempt (seconds 900000) "bob@x.y" true] w).1 =
  Ok [InvalidCredentials; InvalidCredentials; TooManyFailures 300].
Proof. vm_compute. reflexivity. Qed.
End RateDemo.


