(* ===== verification/MarketTools.v ===== *)
(** * Organisation tools and marketplace subscriptions (org_tools/, marketplace/subscriptions.py, marketplace/withdrawals.py, tools/health.py)

    An organisation registers webhook or MCP tools, may publish them, and other
    organisations pin published tools into their agent runs.  Modelled: the tool
    registry with its quota, unique names, audit trail and caches; the cascade a
    deactivation (by the author, by PATCH, by the circuit breaker or by the backing
    MCP server) runs over the subscriptions; subscribing, unsubscribing, the pinned
    catalog and the tools built for a run; and the breaker's counters.

    The theorems: whatever fails and whoever interferes, active names stay unique in
    an organisation and nobody is subscribed to a tool of its own; a deactivation
    that reports success leaves no active subscription to the tool and touches no
    other; the tools built for a run are those of the live, undrifted subscriptions;
    and the notification a deactivation schedules finds no recipient.

    Fernet, pydantic's JSON text and PostgreSQL's md5 of a JSONB value are
    parameters; the catalog's price column is Pricing's. *)

From S2P Require Export Cache Json ToolSchema.

(** ** The tables *)
Record OrgRow := MkOrg { slug : string; org_name : string }.

(** The columns of org_tools that are shown *)
Record ToolInfo := MkToolInfo {
  t_org : string;
  t_name : string;
  t_description : string;
  t_input_schema : json;
  t_output_schema : option json;
  t_webhook_url : option string;
  t_webhook_method : string;
  t_mcp_server_id : option string;
  t_mcp_tool_name : option string;
  t_timeout : Z;
  t_active : bool;
  t_published : bool;
  t_marketplace_description : string;
  t_category : string;
  t_tags : list string;
  t_base_price : option Z;
  t_schema_changed_at : Z;
  t_created_at : Z;
  t_updated_at : Z;
}.
#[export] Instance eta_ToolInfo : Eta ToolInfo := λ r,
  MkToolInfo (t_org r) (t_name r) (t_description r) (t_input_schema r) (t_output_schema r) (t_webhook_url r)
    (t_webhook_method r) (t_mcp_server_id r) (t_mcp_tool_name r) (t_timeout r) (t_active r) (t_published r)
    (t_marketplace_description r) (t_category r) (t_tags r) (t_base_price r) (t_schema_changed_at r)
    (t_created_at r) (t_updated_at r).

Record ToolRow := MkToolRow { t_info :> ToolInfo; t_auth_name : option string; t_auth_enc : option string }.
#[export] Instance eta_ToolRow : Eta ToolRow := λ r, MkToolRow (t_info r) (t_auth_name r) (t_auth_enc r).

Record OrgTool := MkOrgTool { ot_id : string; ot_info :> ToolInfo; ot_has_auth : bool; ot_schema_hash : string }.

Record SubRow := MkSub { s_id : string; s_active : bool; s_at : Z; s_hash : option string }.
#[export] Instance eta_SubRow : Eta SubRow := λ r, MkSub (s_id r) (s_active r) (s_at r) (s_hash r).

Record MarketplaceSubscription := MkSubscription {
  ms_id : string; ms_org : string; ms_name : string; ms_active : bool; ms_at : Z; ms_hash : option string;
}.

Record ToolEvent := MkToolEvent {
  te_org : string; te_tool : string; te_name : string; te_type : string; te_actor : string; te_detail : json;
}.

(** The backing MCP servers; McpServers.v has their operations. *)
Record ServerRow := MkServer {
  sv_org : string; sv_name : string; sv_url : string; sv_auth_type : string; sv_auth_enc : option string;
  sv_auth_header : option string; sv_active : bool; sv_timeout : Z; sv_schema_hash : option string;
  sv_schema_changed_at : option Z; sv_created_at : Z; sv_updated_at : Z;
}.
#[export] Instance eta_ServerRow : Eta ServerRow := λ r,
  MkServer (sv_org r) (sv_name r) (sv_url r) (sv_auth_type r) (sv_auth_enc r) (sv_auth_header r) (sv_active r)
    (sv_timeout r) (sv_schema_hash r) (sv_schema_changed_at r) (sv_created_at r) (sv_updated_at r).

Record OrgMcpServer := MkOrgMcpServer {
  ms_server_id : string; ms_server_org : string; ms_server_name : string; ms_url : string; ms_auth_type : string;
  ms_has_auth : bool; ms_auth_header : option string; ms_server_active : bool; ms_timeout : Z; ms_schema_hash : string;
  ms_schema_changed_at : option Z; ms_created_at : Z; ms_updated_at : Z;
}.

Record ServerEvent := MkServerEvent {
  se_org : string; se_server : string; se_name : string; se_type : string; se_detail : string; se_actor : string;
}.

Record Member := MkMember { m_email : string; m_org : string; m_role : string; m_active : bool }.

(** orgs, users, tool_author_config, org_mcp_servers, org_tools, org_marketplace_subscriptions
    (unique in (org_id, qualified_tool_name)), org_tool_events, org_mcp_server_events *)
Record ToolDb := MkToolDb {
  orgs : gmap string OrgRow;
  members : list Member;
  author_configs : gmap string string;
  mcp_servers : gmap string ServerRow;
  org_tools : gmap string ToolRow;
  subs : gmap (string * string) SubRow;
  tool_events : gmap string ToolEvent;
  server_events : gmap string ServerEvent;
}.
#[export] Instance eta_ToolDb : Eta ToolDb := λ d,
  MkToolDb (orgs d) (members d) (author_configs d) (mcp_servers d) (org_tools d) (subs d) (tool_events d) (server_events d).

(** A set of MCP tool wrappers (name, server and remote name), cached with its expiry and
    the version it was built at, and a session with an MCP server *)
Record Wrapped := MkWrapped { wr_name : string; wr_server : string; wr_remote : string; wr_description : string }.
Record McpSession := MkMcpSession { ss_url : string; ss_headers : list (string * string); ss_expires : Z }.
Record ToolSet := MkToolSet { ts_tools : list Wrapped; ts_expires : Z; ts_version : option Z }.

(** The process and Redis: caches, the breaker's counters and flags, the versions of the MCP
    tool caches, the MCP sessions, the scheduled notifications (name and reason) and the
    e-mails sent (recipient, name, reason) *)
Record ToolExt := MkToolExt {
  tool_redis : Redis;
  _org_tool_caches : gmap string (TTL (list OrgTool));
  _marketplace_cache : TTL (list OrgTool);
  _org_tool_price_caches : gmap string (TTL (option Z));
  fail_counters : gmap string (Z * option Z);
  trip_flags : gmap string Z;
  _server_caches : gmap string (TTL (list OrgMcpServer));
  _tools_cache : gmap string ToolSet;
  mcp_versions : gmap string Z;
  mcp_sessions : gmap string McpSession;
  notifications : list (string * string);
  mailbox : list (string * string * string);
}.
#[export] Instance eta_ToolExt : Eta ToolExt := λ x,
  MkToolExt (tool_redis x) (_org_tool_caches x) (_marketplace_cache x) (_org_tool_price_caches x) (fail_counters x)
    (trip_flags x) (_server_caches x) (_tools_cache x) (mcp_versions x) (mcp_sessions x) (notifications x) (mailbox x).
#[export] Instance tool_has_redis : HasRedis ToolExt := {| redis_of := tool_redis; on_redis f x := x <| tool_redis ::= f |> |}.

Abbreviation TH A := (M ToolDb ToolExt A).

(** ** Constraints of the tables *)
Definition _VALID_MARKETPLACE_CATEGORIES : list string := [""; "defi"; "search"; "data"; "communication"; "utility"].

Definition tool_row_ok (r : ToolInfo) : bool :=
  bool_decide (t_webhook_method r ∈ ["GET"; "POST"; "PUT"])
  && (1 <=? t_timeout r) && (t_timeout r <=? 30)
  && match t_base_price r with Some p => (0 <=? p) && (p <=? 100000000) | None => true end
  && bool_decide (t_category r ∈ _VALID_MARKETPLACE_CATEGORIES)
  && (negb (t_active r) || String.eqb (t_webhook_method r) "GET")
  && (is_some (t_webhook_url r) || is_some (t_mcp_server_id r))
  && Bool.eqb (is_some (t_mcp_server_id r)) (is_some (t_mcp_tool_name r)).

(** Another active row of the organisation bears the name. *)
Definition clashes (tool_id : string) (r : ToolInfo) (kv : string * ToolRow) : bool :=
  negb (String.eqb kv.1 tool_id) && t_active kv.2 && String.eqb (t_org kv.2) (t_org r) && String.eqb (t_name kv.2) (t_name r).

Definition write_tool (tool_id : string) (r : ToolRow) (d : ToolDb) : res (unit * ToolDb) :=
  if negb (tool_row_ok r) then Raise CheckViolation
  else if t_active r && existsb (clashes tool_id r) (map_to_list (org_tools d)) then Raise UniqueViolation
  else if negb (bool_decide (is_Some (orgs d !! t_org r)) && match t_mcp_server_id r with Some s => bool_decide (is_Some (mcp_servers d !! s)) | None => true end)
  then Raise ForeignKeyViolation
  else Ok (tt, d <| org_tools ::= <[tool_id := r]> |>).

Definition insert_tool (tool_id : string) (r : ToolRow) (d : ToolDb) : res (unit * ToolDb) :=
  if tool_row_ok r && bool_decide (is_Some (org_tools d !! tool_id)) then Raise UniqueViolation else write_tool tool_id r d.

(** [SELECT ... WHERE id = $1], and with [AND org_id = $2] *)
Definition tool_by_id (tool_id : string) (d : ToolDb) : option ToolRow := org_tools d !! tool_id.

Definition tool_of (tool_id org_id : string) (d : ToolDb) : option ToolRow :=
  match tool_by_id tool_id d with
  | Some r => if String.eqb (t_org r) org_id then Some r else None
  | None => None
  end.

(** [UPDATE ... WHERE id = $i AND org_id = $j RETURNING *] *)
Definition update_tool (tool_id org_id : string) (f : ToolRow → ToolRow) (d : ToolDb) : res (option ToolRow * ToolDb) :=
  match tool_of tool_id org_id d with
  | Some r => '(_, d') ← write_tool tool_id (f r) d; Ok (Some (f r), d')
  | None => Ok (None, d)
  end.

Definition switched_off (now : Z) (r : ToolRow) : ToolRow :=
  r <| t_info ::= λ i, i <| t_active := false |> <| t_updated_at := now |> |>.

(** [UPDATE ... SET is_active = FALSE, updated_at = NOW() WHERE id = $1 [AND org_id = $2] AND is_active]: the rows updated *)
Definition deactivate_sql (tool_id : string) (org_id : option string) (now : Z) (d : ToolDb) : res (Z * ToolDb) :=
  match tool_by_id tool_id d with
  | Some r =>
      if t_active r && match org_id with Some o => String.eqb (t_org r) o | None => true end then
        '(_, d') ← write_tool tool_id (switched_off now r) d; Ok (1, d')
      else Ok (0, d)
  | None => Ok (0, d)
  end.

(** [UPDATE org_marketplace_subscriptions SET is_active = FALSE WHERE ...] *)
Definition drop_subs (hit : (string * string) * SubRow → bool) (d : ToolDb) : ToolDb :=
  d <| subs ::= map_imap (λ k s, Some (if hit (k, s) then s <| s_active := false |> else s)) |>.

Definition unsubscribe_all (qualified : string) (d : ToolDb) : ToolDb := drop_subs (λ kv, String.eqb kv.1.2 qualified) d.

(** [status.split()[-1] != "0"] of an UPDATE *)
Definition updated_any (n : Z) : bool := negb (n =? 0).

(** ** Tags and secrets *)
Definition _MAX_MARKETPLACE_TAGS : Z := 20.

Definition is_tag_alnum (c : Ascii.ascii) : bool :=
  let n := Ascii.nat_of_ascii c in ((97 <=? n)%nat && (n <=? 122)%nat) || ((48 <=? n)%nat && (n <=? 57)%nat).

(** [^[a-z0-9][a-z0-9 _-]{0,49}$] *)
Definition tag_pattern (tag : string) : bool :=
  match String.list_ascii_of_string tag with
  | c :: cs => is_tag_alnum c && forallb (λ c, is_tag_alnum c || existsb (Ascii.eqb c) [" "%char; "_"%char; "-"%char]) cs
               && (length cs <=? 49)%nat
  | [] => false
  end.

Fixpoint normalize_tags (normalized tags : list string) : res (list string) :=
  match tags with
  | [] => Ok normalized
  | raw_tag :: rest =>
      let tag := py_lower (py_strip raw_tag) in
      if negb (tag_pattern tag) then Raise (ValueError "Marketplace tags must use lowercase letters, digits, spaces, underscores, or hyphens")
      else normalize_tags (if bool_decide (tag ∈ normalized) then normalized else normalized ++ [tag]) rest
  end.

Definition normalize_marketplace_tags (tags : option (list string)) : res (list string) :=
  match tags with
  | None => Ok []
  | Some tags =>
      if _MAX_MARKETPLACE_TAGS <? len tags then Raise (ValueError ("At most " +:+ pretty _MAX_MARKETPLACE_TAGS +:+ " marketplace tags are allowed"))
      else normalize_tags [] tags
  end.

(** [x and not empty] for an optional string *)
Definition truthy_str (s : option string) : bool := match s with Some s => negb (is_empty s) | None => false end.

(** The settings read here *)
Record ToolSettings := MkToolSettings {
  max_org_tools : Z;
  org_tool_encryption_key : string;
  org_tools_cache_ttl_seconds : Z;
  tool_breaker_enabled : bool;
  tool_breaker_threshold : Z;
  tool_breaker_window_seconds : Z;
  resend_configured : bool;
}.

(** A tool as it is registered, and a partial update ([None]: not given) *)
Record CreateTool := MkCreateTool {
  c_name : string; c_description : string; c_input_schema : json; c_webhook_url : option string;
  c_auth_header_name : option string; c_auth_header_value : option string; c_timeout : Z;
  c_output_schema : option json; c_publish : bool; c_marketplace_description : string; c_category : string;
  c_tags : option (list string); c_base_price : option Z; c_mcp_server_id : option string; c_mcp_tool_name : option string;
}.

Record UpdateTool := MkUpdateTool {
  u_description : option string; u_input_schema : option json; u_output_schema : option json; u_webhook_url : option string;
  u_auth_header_name : option (option string); u_auth_header_value : option (option string); u_timeout : option Z;
  u_is_active : option bool; u_publish : option bool; u_marketplace_description : option string;
  u_category : option string; u_tags : option (list string); u_base_price : option (option Z);
}.

Section tools.
Context (cfg : ToolSettings) (supply : nat → string) `{!TextCodec (list OrgTool)}.
Context (fernet_encrypt : string → string → string) (schema_md5 : json → string).

Definition encrypt_header_value (value : string) : res string :=
  if is_empty (org_tool_encryption_key cfg) then Raise (RuntimeError "ORG_TOOL_ENCRYPTION_KEY is not set")
  else Ok (fernet_encrypt (org_tool_encryption_key cfg) value).

(** [schema_hash] is a generated column. *)
Definition _row_to_org_tool (tool_id : string) (row : ToolRow) : OrgTool :=
  MkOrgTool tool_id (t_info row) (is_some (t_auth_name row)) (schema_md5 (t_input_schema row)).

(** ** Audit trail, registry cache, breaker *)
Definition insert_audit_row (e : ToolEvent) : TH unit :=
  event_id ← uuid4 supply;
  stmt (λ _ d,
    if negb (bool_decide (te_type e ∈ ["created"; "updated"; "deleted"; "executed"; "failed"])) then Raise CheckViolation
    else if bool_decide (is_Some (tool_events d !! event_id)) then Raise UniqueViolation
    else Ok (tt, d <| tool_events ::= <[event_id := e]> |>)).

Definition _record_event (org_id tool_id tool_name event_type actor_id : string) (detail : json) : TH unit :=
  catch (insert_audit_row (MkToolEvent org_id tool_id tool_name event_type actor_id detail)) (λ _, mret tt).

Definition list_org_tools (org_id : string) (active_only : bool) : TH (list OrgTool) :=
  query (λ _ d,
    order_by (λ a b : OrgTool, String.leb (t_name a) (t_name b))
      ((λ kv : string * ToolRow, _row_to_org_tool kv.1 kv.2) <$>
        filter (λ kv : string * ToolRow, String.eqb (t_org kv.2) org_id && (negb active_only || t_active kv.2)) (map_to_list (org_tools d)))).

Definition _get_org_tool_cache (org_id : string) : CacheSpec ToolDb ToolExt (list OrgTool) := {|
  redis_key := "teardrop:org_tools:" +:+ org_id;
  ttl_seconds := org_tools_cache_ttl_seconds cfg;
  loader := tools ← list_org_tools org_id true; mret (Some tools);
  serialize := to_text;
  deserialize := of_text;
  cache_when := λ tools, match tools with Some (_ :: _) => true | _ => false end;
  stale_default := None;
  slot := λ x, default empty_slot (_org_tool_caches x !! org_id);
  set_slot := λ s x, x <| _org_tool_caches ::= <[org_id := s]> |>;
|}.

Definition get_org_tools_cached (org_id : string) : TH (list OrgTool) :=
  tools ← cache_get (_get_org_tool_cache org_id); mret (default [] tools).

Definition invalidate_org_tools_cache (org_id : string) : TH unit := cache_invalidate (_get_org_tool_cache org_id).

Definition marketplace_key : string := "teardrop:marketplace:tools".

Definition list_marketplace_tools : TH (list OrgTool) :=
  connected ← get_redis;
  hit ← (if connected : bool then
    catch (raw ← redis_get marketplace_key;
           match raw with
           | Some raw => v ← lift (of_text raw); mret v
           | None => mret None
           end) (λ _, mret None)
    else mret None);
  match hit with
  | Some tools => mret tools
  | None =>
      now ← datetime_now; x ← get_ext;
      match fresh_value now (_marketplace_cache x) with
      | Some tools => mret tools
      | None =>
          yield_point;;
          now ← datetime_now; x ← get_ext;
          match fresh_value now (_marketplace_cache x) with
          | Some tools => mret tools
          | None =>
              tools ← query (λ _ d, order_by (λ a b : OrgTool, String.leb (t_name a) (t_name b))
                ((λ kv : string * ToolRow, _row_to_org_tool kv.1 kv.2) <$>
                  filter (λ kv : string * ToolRow, t_published kv.2 && t_active kv.2) (map_to_list (org_tools d))));
              now ← datetime_now;
              modify_ext (λ x, x <| _marketplace_cache := MkTTL (Some tools) (now + seconds (org_tools_cache_ttl_seconds cfg)) |>);;
              connected ← get_redis;
              (if connected : bool then
                 catch (redis_setex marketplace_key (org_tools_cache_ttl_seconds cfg) (to_text tools)) (λ _, mret tt)
               else mret tt);;
              mret tools
          end
      end
  end.

(** [cache.invalidate()] of every price cache, then [clear()] *)
Definition _invalidate_all_org_tool_price_cache : TH unit :=
  x ← get_ext;
  for_each (map_to_list (_org_tool_price_caches x)) tt (λ _ kv,
    modify_ext (λ x, x <| _org_tool_price_caches ::= <[kv.1 := empty_slot]> |>);;
    connected ← get_redis;
    if connected : bool then catch (redis_delete ("teardrop:org_tool_price:v2:" +:+ kv.1)) (λ _, mret tt) else mret tt);;
  modify_ext (λ x, x <| _org_tool_price_caches := ∅ |>).

Definition invalidate_marketplace_cache : TH unit :=
  modify_ext (λ x, x <| _marketplace_cache := empty_slot |>);;
  catch _invalidate_all_org_tool_price_cache (λ _, mret tt);;
  connected ← get_redis;
  if connected : bool then catch (redis_delete marketplace_key) (λ _, mret tt) else mret tt.

(** *** tools/health.py *)
Definition breaker_up : TH bool := connected ← get_redis; mret (tool_breaker_enabled cfg && connected).

Definition record_success (tool_id : string) : TH unit :=
  up ← breaker_up;
  if up : bool then catch (external (λ _ x, (Ok tt, x <| fail_counters ::= delete tool_id |>))) (λ _, mret tt) else mret tt.

(** [INCR], on a counter that may have expired *)
Definition incr_failures (tool_id : string) (now : Z) (x : ToolExt) : res Z * ToolExt :=
  let '(count, expires) := match fail_counters x !! tool_id with
    | Some (c, Some e) => if now <? e then (c, Some e) else (0, None)
    | Some (c, None) => (c, None)
    | None => (0, None)
    end in
  (Ok (count + 1), x <| fail_counters ::= <[tool_id := (count + 1, expires)]> |>).

Definition expire_failures (tool_id : string) (now : Z) (x : ToolExt) : res unit * ToolExt :=
  (Ok tt, x <| fail_counters ::= alter (λ c, (c.1, Some (now + seconds (tool_breaker_window_seconds cfg)))) tool_id |>).

Definition record_failure (tool_id : string) : TH bool :=
  up ← breaker_up;
  if up : bool then
    catch
      (count ← external (incr_failures tool_id);
       (if count =? 1 then external (expire_failures tool_id) else mret tt);;
       if tool_breaker_threshold cfg <=? count then
         external (λ now x, (Ok tt, x <| trip_flags ::= <[tool_id := now + seconds (tool_breaker_window_seconds cfg)]> |>));;
         mret true
       else mret false)
      (λ _, mret false)
  else mret false.

Definition is_breaker_tripped (tool_id : string) : TH bool :=
  up ← breaker_up;
  if up : bool then
    catch (external (λ now x, (Ok (match trip_flags x !! tool_id with Some e => now <? e | None => false end), x))) (λ _, mret false)
  else mret false.

Definition clear_breaker (tool_id : string) : TH unit :=
  up ← breaker_up;
  if up : bool then
    catch (external (λ _ x, (Ok tt, x <| fail_counters ::= delete tool_id |> <| trip_flags ::= delete tool_id |>))) (λ _, mret tt)
  else mret tt.

(** ** Marketplace lookups *)
Definition PLATFORM_SLUG : string := "platform".

Definition org_author_config (org_id : string) : TH (option string) := query (λ _ d, author_configs d !! org_id).

(** [org_tools JOIN orgs]: published and active, under the organisation's slug *)
Definition listed (tool_name org_slug : string) (d : ToolDb) (kv : string * ToolRow) : bool :=
  t_published kv.2 && t_active kv.2 && String.eqb (t_name kv.2) tool_name &&
  match orgs d !! t_org kv.2 with Some o => String.eqb (slug o) org_slug && negb (String.eqb (slug o) PLATFORM_SLUG) | None => false end.

Definition published_tool (tool_name org_slug : string) (d : ToolDb) : option (string * ToolRow) :=
  snd <$> list_find (λ kv, listed tool_name org_slug d kv = true) (map_to_list (org_tools d)).

Definition get_marketplace_tool_by_name (tool_name org_slug : string) : TH (option (string * ToolRow)) :=
  query (λ _ d, published_tool tool_name org_slug d).

(** ** Notifying the subscribers of a deactivation *)

(** [SET key value EX ttl NX]: was it set? *)
Definition redis_set_nx (key value : string) (ttl : Z) : TH bool :=
  external (λ now x,
    match tool_redis x with
    | Some m =>
        if match m !! key with Some (_, expires) => now <? expires | None => false end then (Ok false, x)
        else (Ok true, x <| tool_redis := Some (<[key := (value, now + seconds ttl)]> m) |>)
    | None => (Ok false, x)
    end).

(** [SELECT DISTINCT u.email]: active admins and owners of the active subscribers *)
Definition recipients (qualified : string) (d : ToolDb) : list string :=
  remove_dups (m_email <$> filter (λ u,
    m_active u && bool_decide (m_role u ∈ ["admin"; "owner"]) &&
    match subs d !! (m_org u, qualified) with Some s => s_active s | None => false end) (members d)).

(** It never raises. *)
Definition send_tool_deactivated_email (to_email qualified reason : string) : TH unit :=
  if resend_configured cfg then
    catch (external (λ _ x, (Ok tt, x <| mailbox ::= λ l, l ++ [(to_email, qualified, reason)] |>))) (λ _, mret tt)
  else mret tt.

Definition notify_subscribers_of_deactivation (qualified reason : string) : TH unit :=
  connected ← get_redis;
  already ← (if connected : bool then
    catch (was_set ← redis_set_nx ("teardrop:notify:tool_deact:" +:+ qualified) "1" 3600; mret (negb was_set)) (λ _, mret false)
    else mret false);
  if already : bool then mret tt
  else
    rows ← catch (rows ← query (λ _, recipients qualified); mret (Some rows)) (λ _, mret None);
    match rows with
    | Some rows => for_each rows tt (λ _ email, send_tool_deactivated_email email qualified reason)
    | None => mret tt
    end.

(** [asyncio.create_task(notify_subscribers_of_deactivation(...))] *)
Definition schedule_notification (qualified reason : string) : TH unit :=
  modify_ext (λ x, x <| notifications ::= λ l, l ++ [(qualified, reason)] |>).

(** The scheduled tasks run *)
Definition run_notifications : TH unit :=
  x ← get_ext;
  modify_ext (λ x, x <| notifications := [] |>);;
  for_each (notifications x) tt (λ _ n, notify_subscribers_of_deactivation n.1 n.2).

(** The slug of the organisation and the name of the tool *)
Definition qualify (org_slug tool_name : string) : string := org_slug +:+ "/" +:+ tool_name.

Definition detail_reason (reason : string) : json := JObj [("reason", JStr reason)].

Definition auto_deactivate_tool_for_health (tool_id : string) (qualified_tool_name : option string)
    (event_actor_id event_reason notification_reason : string) : TH unit :=
  row ← query (λ _, tool_by_id tool_id);
  match (row : option ToolRow) with
  | None => mret tt
  | Some row =>
      if negb (t_active row) then mret tt
      else
        n ← stmt (deactivate_sql tool_id None);
        if negb (updated_any n) then mret tt
        else
          _record_event (t_org row) tool_id (t_name row) "failed" event_actor_id (detail_reason event_reason);;
          invalidate_org_tools_cache (t_org row);;
          if negb (t_published row) then mret tt
          else
            invalidate_marketplace_cache;;
            qualified ← match qualified_tool_name with
              | Some q => mret (Some q)
              | None => org_row ← query (λ _ d, orgs d !! t_org row); mret ((λ o, qualify (slug o) (t_name row)) <$> org_row)
              end;
            match qualified with
            | None => mret tt
            | Some qualified =>
                stmt (λ _ d, Ok (tt, unsubscribe_all qualified d));;
                schedule_notification qualified notification_reason
            end
  end.

(** The defaults of the circuit breaker *)
Definition breaker_deactivates (tool_id : string) : TH unit :=
  auto_deactivate_tool_for_health tool_id None "system:circuit_breaker" "circuit_breaker_tripped"
    "automatic — repeated webhook failures".

(** ** The registry (org_tools/crud.py) *)
Definition active_tools (org_id : string) (d : ToolDb) : Z :=
  len (filter (λ kv : string * ToolRow, String.eqb (t_org kv.2) org_id && t_active kv.2) (map_to_list (org_tools d))).

Definition create_org_tool (org_id : string) (c : CreateTool) (actor_id : string) : TH OrgTool :=
  count ← query (λ _, active_tools org_id);
  if max_org_tools cfg <=? count then raise (ValueError ("Organisation tool limit reached (" +:+ pretty (max_org_tools cfg) +:+ ")"))
  else
  tool_id ← uuid4 supply;
  now ← datetime_now;
  auth_enc ← lift (if truthy_str (c_auth_header_value c) then Some <$> encrypt_header_value (default "" (c_auth_header_value c)) else Ok None);
  if negb (is_some (c_mcp_server_id c)) && is_some (c_mcp_tool_name c) then raise (ValueError "mcp_tool_name requires mcp_server_id")
  else if is_some (c_mcp_server_id c) && negb (truthy_str (c_mcp_tool_name c)) then raise (ValueError "mcp_server_id requires mcp_tool_name")
  else if negb (is_some (c_webhook_url c)) && negb (is_some (c_mcp_server_id c)) then raise (ValueError "Either webhook_url or mcp_server_id is required")
  else
  (if c_publish c then
     config ← org_author_config org_id;
     if is_some config then mret tt else raise (ValueError "Cannot publish tool to marketplace — register a settlement wallet first via POST /marketplace/author-config")
   else mret tt);;
  if negb (bool_decide (c_category c ∈ _VALID_MARKETPLACE_CATEGORIES)) then raise (ValueError "Invalid marketplace category")
  else
  normalized_tags ← lift (normalize_marketplace_tags (c_tags c));
  let info := MkToolInfo org_id (c_name c) (c_description c) (c_input_schema c) (c_output_schema c) (c_webhook_url c) "GET"
    (c_mcp_server_id c) (c_mcp_tool_name c) (c_timeout c) true (c_publish c) (c_marketplace_description c) (c_category c)
    normalized_tags (c_base_price c) now now now in
  catch_if is_unique_violation (stmt (λ _, insert_tool tool_id (MkToolRow info (c_auth_header_name c) auth_enc)))
    (λ _, raise (ValueError ("Tool '" +:+ c_name c +:+ "' already exists for this organisation")));;
  _record_event org_id tool_id (c_name c) "created" actor_id (JObj []);;
  invalidate_org_tools_cache org_id;;
  (if c_publish c then invalidate_marketplace_cache else mret tt);;
  mret (MkOrgTool tool_id info (is_some (c_auth_header_name c)) "").

Definition get_org_tool (tool_id org_id : string) : TH (option OrgTool) :=
  query (λ _ d, _row_to_org_tool tool_id <$> tool_of tool_id org_id d).

(** The SET clause: an assignment per given column *)
Definition set_col {A} (o : option A) (f : A → ToolRow → ToolRow) : list (ToolRow → ToolRow) :=
  match o with Some a => [f a] | None => [] end.

Definition on_info (f : ToolInfo → ToolInfo) (r : ToolRow) : ToolRow := r <| t_info ::= f |>.

Definition update_sets (org_id : string) (u : UpdateTool) : TH (list (ToolRow → ToolRow)) :=
  schema ← match u_input_schema u with
    | Some s => now ← datetime_now; mret [on_info (λ i, i <| t_input_schema := s |>); on_info (λ i, i <| t_schema_changed_at := now |>)]
    | None => mret []
    end;
  (if bool_decide (u_publish u = Some true) then
     config ← org_author_config org_id;
     if is_some config then mret tt else raise (ValueError "Cannot publish tool to marketplace — register a settlement wallet first")
   else mret tt);;
  if negb (bool_decide (default "" (u_category u) ∈ _VALID_MARKETPLACE_CATEGORIES)) then raise (ValueError "Invalid marketplace category")
  else
  normalized ← lift (match u_tags u with Some ts => Some <$> normalize_marketplace_tags (Some ts) | None => Ok None end);
  auth_enc ← lift (match u_auth_header_value u with
    | Some (Some v) => (λ e, Some (Some e)) <$> encrypt_header_value v
    | Some None => Ok (Some None)
    | None => Ok None
    end);
  mret (set_col (u_description u) (λ v, on_info (λ i, i <| t_description := v |>)) ++ schema
    ++ set_col (u_output_schema u) (λ v, on_info (λ i, i <| t_output_schema := Some v |>))
    ++ set_col (u_webhook_url u) (λ v, on_info (λ i, i <| t_webhook_url := Some v |>))
    ++ set_col (u_timeout u) (λ v, on_info (λ i, i <| t_timeout := v |>))
    ++ set_col (u_is_active u) (λ v, on_info (λ i, i <| t_active := v |>))
    ++ set_col (u_publish u) (λ v, on_info (λ i, i <| t_published := v |>))
    ++ set_col (u_marketplace_description u) (λ v, on_info (λ i, i <| t_marketplace_description := v |>))
    ++ set_col (u_category u) (λ v, on_info (λ i, i <| t_category := v |>))
    ++ set_col normalized (λ v, on_info (λ i, i <| t_tags := v |>))
    ++ set_col (u_base_price u) (λ v, on_info (λ i, i <| t_base_price := v |>))
    ++ set_col (u_auth_header_name u) (λ v r, r <| t_auth_name := v |>)
    ++ set_col auth_enc (λ v r, r <| t_auth_enc := v |>)).

(** A subscriber must not be left with a tool that is off or unlisted: errors are swallowed. *)
Definition update_cascade (org_id tool_name : string) : TH unit :=
  catch
    (org_row ← query (λ _ d, orgs d !! org_id);
     match org_row with
     | Some o =>
         stmt (λ _ d, Ok (tt, unsubscribe_all (qualify (slug o) tool_name) d));;
         schedule_notification (qualify (slug o) tool_name) "deactivated by author"
     | None => mret tt
     end)
    (λ _, mret tt).

Definition update_org_tool (tool_id org_id actor_id : string) (u : UpdateTool) : TH (option OrgTool) :=
  row ← query (λ _, tool_of tool_id org_id);
  match (row : option ToolRow) with
  | None => mret None
  | Some row =>
      sets ← update_sets org_id u;
      match sets with
      | [] => mret (Some (_row_to_org_tool tool_id row))
      | _ =>
          now ← datetime_now;
          updated ← stmt (λ _, update_tool tool_id org_id
            (foldl (λ f g r, g (f r)) id (sets ++ [on_info (λ i, i <| t_updated_at := now |>)])));
          _record_event org_id tool_id (t_name row) "updated" actor_id (JObj []);;
          invalidate_org_tools_cache org_id;;
          (if is_some (u_publish u) || is_some (u_is_active u) || is_some (u_base_price u) || is_some (u_category u)
              || is_some (u_marketplace_description u) || is_some (u_tags u)
           then invalidate_marketplace_cache else mret tt);;
          (if (bool_decide (u_is_active u = Some false) && t_active row) || (bool_decide (u_publish u = Some false) && t_published row)
           then update_cascade org_id (t_name row) else mret tt);;
          (if bool_decide (u_is_active u = Some true) && negb (t_active row)
           then catch (clear_breaker tool_id) (λ _, mret tt) else mret tt);;
          mret (_row_to_org_tool tool_id <$> updated)
      end
  end.

Definition delete_org_tool (tool_id org_id actor_id : string) : TH bool :=
  n ← stmt (deactivate_sql tool_id (Some org_id));
  if negb (updated_any n) then mret false
  else
    row ← query (λ _, tool_by_id tool_id);
    let name := match (row : option ToolRow) with Some r => t_name r | None => tool_id end in
    _record_event org_id tool_id name "deleted" actor_id (JObj []);;
    invalidate_org_tools_cache org_id;;
    catch (clear_breaker tool_id) (λ _, mret tt);;
    (if match (row : option ToolRow) with Some r => t_published r | None => false end then
       invalidate_marketplace_cache;;
       org_row ← query (λ _ d, orgs d !! org_id);
       match org_row with
       | Some o =>
           stmt (λ _ d, Ok (tt, unsubscribe_all (qualify (slug o) name) d));;
           catch (schedule_notification (qualify (slug o) name) "manually removed by author") (λ _, mret tt)
       | None => mret tt
       end
     else mret tt);;
    mret true.

(** mcp_client/crud.py: the tools backed by a server that goes away *)
Definition _deactivate_dependent_marketplace_tools (server_id org_id : string) : TH unit :=
  rows ← query (λ _ d, filter (λ kv : string * ToolRow,
    bool_decide (t_mcp_server_id kv.2 = Some server_id) && String.eqb (t_org kv.2) org_id && t_active kv.2) (map_to_list (org_tools d)));
  for_each rows tt (λ _ kv,
    catch (auto_deactivate_tool_for_health kv.1 None "system:mcp_server_cascade" "mcp_server_disabled_or_removed"
             "automatic — backing MCP server was disabled or removed") (λ _, mret tt)).

(** ** Subscriptions (marketplace/subscriptions.py) *)

(** [INSERT ... ON CONFLICT (org_id, qualified_tool_name) DO UPDATE]: a conflicting row keeps its id. *)
Definition upsert_subscription (sub_id org_id qualified : string) (now : Z) (hash : option string) (d : ToolDb) : res (unit * ToolDb) :=
  match subs d !! (org_id, qualified) with
  | Some s => Ok (tt, d <| subs ::= <[(org_id, qualified) := MkSub (s_id s) true now hash]> |>)
  | None =>
      if existsb (λ kv : (string * string) * SubRow, String.eqb (s_id kv.2) sub_id) (map_to_list (subs d)) then Raise UniqueViolation
      else if bool_decide (is_Some (orgs d !! org_id)) then Ok (tt, d <| subs ::= <[(org_id, qualified) := MkSub sub_id true now hash]> |>)
      else Raise ForeignKeyViolation
  end.

(** [tool_row.get("schema_hash") or None] *)
Definition row_hash (row : string * ToolRow) : option string :=
  let h := schema_md5 (t_input_schema row.2) in if is_empty h then None else Some h.

Definition subscribe_to_tool (org_id qualified_tool_name : string) : TH MarketplaceSubscription :=
  if negb (str_in "/" qualified_tool_name) then raise (ValueError "Tool name must be qualified: {org_slug}/{tool_name}")
  else
  let '(org_slug, tool_name) := split_slash qualified_tool_name in
  if String.eqb org_slug PLATFORM_SLUG then raise (ValueError ("'" +:+ qualified_tool_name +:+ "' is a built-in platform tool and is always available without subscription."))
  else
  tool_row ← get_marketplace_tool_by_name tool_name org_slug;
  match (tool_row : option (string * ToolRow)) with
  | None => raise (ValueError ("Marketplace tool not found: " +:+ qualified_tool_name))
  | Some row =>
      if String.eqb (t_org row.2) org_id then raise (ValueError ("Cannot subscribe to your own published tool: " +:+ qualified_tool_name))
      else
      sub_id ← uuid4 supply;
      now ← datetime_now;
      catch (stmt (λ _, upsert_subscription sub_id org_id qualified_tool_name now (row_hash row)))
        (λ _, raise (ValueError ("Failed to subscribe to " +:+ qualified_tool_name)));;
      mret (MkSubscription sub_id org_id qualified_tool_name true now (row_hash row))
  end.

Definition unsubscribe_from_tool (subscription_id org_id : string) : TH bool :=
  n ← stmt (λ _ d,
    let hit := λ kv : (string * string) * SubRow, String.eqb (s_id kv.2) subscription_id && String.eqb kv.1.1 org_id && s_active kv.2 in
    Ok (len (filter hit (map_to_list (subs d))),
        drop_subs hit d));
  mret (updated_any n).

Definition org_subscriptions (org_id : string) (d : ToolDb) : list MarketplaceSubscription :=
  order_by (λ a b, ms_at a <=? ms_at b)
    ((λ kv : (string * string) * SubRow, MkSubscription (s_id kv.2) kv.1.1 kv.1.2 (s_active kv.2) (s_at kv.2) (s_hash kv.2)) <$>
      filter (λ kv : (string * string) * SubRow, String.eqb kv.1.1 org_id && s_active kv.2) (map_to_list (subs d))).

Definition get_org_subscriptions (org_id : string) : TH (list MarketplaceSubscription) := query (λ _, org_subscriptions org_id).

(** [split_part(q, '/', 2)] *)
Definition second_part (qualified : string) : string := (split_slash (split_slash qualified).2).1.

(** The rows of the pinned catalog: the subscriptions joined with orgs and org_tools, by tool name *)
Definition subscribed_catalog_rows (org_id : string) (d : ToolDb) : list (string * ToolRow) :=
  order_by (λ a b : string * ToolRow, String.leb (t_name a.2) (t_name b.2))
    (s ← org_subscriptions org_id d;
     if str_in "/" (ms_name s) then
       filter (λ kv : string * ToolRow, listed (second_part (ms_name s)) (split_slash (ms_name s)).1 d kv) (map_to_list (org_tools d))
     else []).

(** A LangChain tool of a run: its backing and the fields of its argument model *)
Inductive backing := McpBacked (server tool : string) | Webhook (url : option string).
#[export] Instance backing_eq_dec : EqDecision backing.
Proof. solve_decision. Defined.

Record StructuredTool := MkStructured {
  st_name : string; st_description : string; st_args : list field_spec; st_backing : backing; st_timeout : option Z;
}.

(** [a or b] on strings *)
Definition str_or (a b : string) : string := if is_empty a then b else a.

Definition _build_marketplace_langchain_tool (row : string * ToolRow) (qualified : string) : res StructuredTool :=
  fields ← build_pydantic_model (t_input_schema row.2);
  let description := str_or (t_marketplace_description row.2) (t_description row.2) in
  if truthy_str (t_mcp_server_id row.2) then
    Ok (MkStructured qualified description fields
          (McpBacked (default "" (t_mcp_server_id row.2)) (str_or (default "" (t_mcp_tool_name row.2)) (t_name row.2))) None)
  else if negb (String.eqb (t_webhook_method row.2) "GET") then Raise (ValueError ("Marketplace tool '" +:+ qualified +:+ "' has non-GET webhook_method"))
  else Ok (MkStructured qualified description fields (Webhook (t_webhook_url row.2)) (Some (t_timeout row.2))).

(** The schema changed since the subscription was made. *)
Definition drifted (sub : MarketplaceSubscription) (row : string * ToolRow) : bool :=
  let current_hash := default "" (row_hash row) in
  let sub_hash := default "" (ms_hash sub) in
  negb (is_empty sub_hash) && negb (is_empty current_hash) && negb (String.eqb sub_hash current_hash).

Definition build_subscribed_marketplace_tools (org_id : string) : TH (list StructuredTool * list (string * StructuredTool)) :=
  subs ← get_org_subscriptions org_id;
  for_each subs ([], []) (λ acc sub,
    let qualified := ms_name sub in
    if negb (str_in "/" qualified) then mret acc
    else
      let '(org_slug, tool_name) := split_slash qualified in
      tool_row ← get_marketplace_tool_by_name tool_name org_slug;
      match (tool_row : option (string * ToolRow)) with
      | None => mret acc
      | Some row =>
          if drifted sub row then mret acc
          else match _build_marketplace_langchain_tool row qualified with
               | Ok lc_tool => mret (acc.1 ++ [lc_tool], dict_set acc.2 qualified lc_tool)
               | Raise _ => mret acc
               end
      end).
End tools.

(** ** What a tool of the market may do *)
Inductive tool_op :=
  | OpCreate (org_id : string) (c : CreateTool) (actor : string)
  | OpUpdate (tool_id org_id actor : string) (u : UpdateTool)
  | OpDelete (tool_id org_id actor : string)
  | OpTrip (tool_id : string)
  | OpServerGone (server_id org_id : string)
  | OpSubscribe (org_id qualified : string)
  | OpUnsubscribe (sub_id org_id : string)
  | OpNotify
  | OpBuild (org_id : string).

Definition perform_tool_op (cfg : ToolSettings) (supply : nat → string) `{!TextCodec (list OrgTool)}
    (fernet_encrypt : string → string → string) (schema_md5 : json → string) (op : tool_op) : TH unit :=
  match op with
  | OpCreate org c actor => create_org_tool cfg supply fernet_encrypt schema_md5 org c actor;; mret tt
  | OpUpdate t org actor u => update_org_tool cfg supply fernet_encrypt schema_md5 t org actor u;; mret tt
  | OpDelete t org actor => delete_org_tool cfg supply schema_md5 t org actor;; mret tt
  | OpTrip t => tripped ← record_failure cfg t; if tripped : bool then breaker_deactivates cfg supply schema_md5 t else mret tt
  | OpServerGone s org => _deactivate_dependent_marketplace_tools cfg supply schema_md5 s org
  | OpSubscribe org q => subscribe_to_tool supply schema_md5 org q;; mret tt
  | OpUnsubscribe s org => unsubscribe_from_tool s org;; mret tt
  | OpNotify => run_notifications cfg
  | OpBuild org => build_subscribed_marketplace_tools schema_md5 org;; mret tt
  end.

(** ** Invariants of the handlers

    Both invariants below survive caches, audit events, guarded writes of tools and
    cancelled subscriptions; one walk over the handlers serves them. *)
Record calm (I : ToolDb → ToolExt → Prop) : Prop := {
  sy_ext : ∀ d x x', notifications x' = notifications x → mailbox x' = mailbox x → I d x → I d x';
  sy_events : ∀ d x f, I d x → I (d <| tool_events ::= f |>) x;
  sy_servers : ∀ d x k v, I d x → I (d <| mcp_servers ::= <[k := v]> |>) x;
  sy_server_events : ∀ d x f, I d x → I (d <| server_events ::= f |>) x;
}.

Record steady (I : ToolDb → ToolExt → Prop) : Prop := {
  sy_calm : calm I;
  sy_write : ∀ t r d u d' x, I d x → write_tool t r d = Ok (u, d') → I d' x;
  sy_drop : ∀ hit d x, I d x → I (drop_subs hit d) x;
  sy_schedule : ∀ q reason d x, I d x → I (unsubscribe_all q d) (x <| notifications ::= λ l, l ++ [(q, reason)] |>);
}.

Create HintDb market.

Section keeps.
Context (cfg : ToolSettings) (supply : nat → string) `{!TextCodec (list OrgTool)}.
Context (fernet_encrypt : string → string → string) (schema_md5 : json → string).
Context (I : ToolDb → ToolExt → Prop).

Section calm.
Context (HI : calm I).

Lemma keeps_external {A} (f : Z → ToolExt → res A * ToolExt) :
  (∀ now x, notifications (f now x).2 = notifications x ∧ mailbox (f now x).2 = mailbox x) → preserves I (external f).
Proof.
  intros Hf. apply preserves_external. intros now d x Hd. destruct (Hf now x). by apply (sy_ext I HI _ x).
Qed.

Lemma keeps_modify f : (∀ x, notifications (f x) = notifications x ∧ mailbox (f x) = mailbox x) → preserves I (modify_ext f).
Proof. intros Hf. apply wpi_modify_ext; [done|]. intros d x Hd. destruct (Hf x). by apply (sy_ext I HI _ x). Qed.

Lemma keeps_tool_stmt {A} (f : Z → ToolDb → res (A * ToolDb)) :
  (∀ now d x a d', I d x → f now d = Ok (a, d') → I d' x) → preserves I (stmt f).
Proof.
  intros Hf. apply wpi_stmt; [done|]. intros now d x Hd. destruct (f now d) as [[a d']|e] eqn:E; [|done]. split; [by eapply Hf|done].
Qed.

Ltac keep := repeat (intros; first [done | solve [eauto 2 with market nocore] | preserve_step]).

Lemma keeps_get_redis : preserves I get_redis.
Proof. unfold get_redis. keep. Qed.
#[local] Hint Resolve keeps_get_redis : market.

Lemma keeps_redis_get key : preserves I (redis_get key).
Proof. by apply keeps_external. Qed.
Lemma keeps_redis_setex key ttl raw : preserves I (redis_setex key ttl raw).
Proof. by apply keeps_external. Qed.
Lemma keeps_redis_delete key : preserves I (redis_delete key).
Proof. by apply keeps_external. Qed.
#[local] Hint Resolve keeps_redis_get keeps_redis_setex keeps_redis_delete : market.

Lemma keeps_record_event org t name type actor detail : preserves I (_record_event supply org t name type actor detail).
Proof.
  unfold _record_event, insert_audit_row. keep. apply keeps_tool_stmt. intros _ d x u d' Hd.
  repeat case_match; try done. intros [= _ <-]. by apply (sy_events I HI).
Qed.

Lemma keeps_invalidate_org org : preserves I (invalidate_org_tools_cache cfg schema_md5 org).
Proof. unfold invalidate_org_tools_cache, cache_invalidate. keep. by apply keeps_modify. Qed.

Lemma keeps_invalidate_market : preserves I invalidate_marketplace_cache.
Proof.
  unfold invalidate_marketplace_cache, _invalidate_all_org_tool_price_cache.
  keep; try by apply keeps_modify.
Qed.
#[local] Hint Resolve keeps_record_event keeps_invalidate_org keeps_invalidate_market : market.

Lemma keeps_clear_breaker t : preserves I (clear_breaker cfg t).
Proof. unfold clear_breaker, breaker_up. keep. by apply keeps_external. Qed.

Lemma keeps_record_failure t : preserves I (record_failure cfg t).
Proof.
  unfold record_failure, breaker_up. keep; apply keeps_external; [|done..].
  intros now x. unfold incr_failures. by repeat case_match.
Qed.
#[local] Hint Resolve keeps_clear_breaker keeps_record_failure : market.

End calm.

Context (HI : steady I).
#[local] Hint Extern 0 (calm I) => apply (sy_calm I HI) : market.
#[local] Hint Resolve keeps_get_redis keeps_record_event keeps_invalidate_org keeps_invalidate_market keeps_clear_breaker keeps_record_failure : market.

Lemma keeps_deactivate t org : preserves I (stmt (deactivate_sql t org)).
Proof.
  apply keeps_tool_stmt. intros now d x n d' Hd. unfold deactivate_sql. destruct (tool_by_id t d) as [r|]; [|by intros [= _ <-]].
  case_match; [|by intros [= _ <-]]. destruct (write_tool _ _ d) as [[u d1]|e] eqn:E; [|done]. intros [= _ <-]. by eapply (sy_write I HI).
Qed.
#[local] Hint Resolve keeps_deactivate : market.

(** Nothing happens between the last UPDATE and the notification it schedules. *)
Lemma keeps_cascade q reason (k : TH unit) :
  (∀ w, k w = schedule_notification q reason w) →
  preserves I (stmt (λ _ d, Ok (tt, unsubscribe_all q d));; k).
Proof.
  intros Hk w Hw. unfold mbind, M_bind, stmt. pose proof (good_next_event I w Hw) as H1.
  destruct (next_event w) as [flt w1]. destruct H1 as [(Hn & HI1 & Hs) Hsuf].
  unfold good in *. destruct flt; cbn; rewrite ?Hk; cbn; split_and!; try done.
  - by apply (sy_schedule I HI).
  - by apply (sy_drop I HI).
Qed.

Ltac keep := repeat (intros; first [done | solve [eauto 2 with market nocore] | by (eapply keeps_cascade; intros ?; reflexivity) | preserve_step]).

Lemma keeps_auto t q actor event reason : preserves I (auto_deactivate_tool_for_health cfg supply schema_md5 t q actor event reason).
Proof.
  unfold auto_deactivate_tool_for_health. keep.
Qed.
#[local] Hint Resolve keeps_auto : market.

Lemma keeps_insert t r : preserves I (stmt (λ _, insert_tool t r)).
Proof. apply keeps_tool_stmt. intros now d x u d' Hd. unfold insert_tool. case_match; [done|]. by apply (sy_write I HI). Qed.
#[local] Hint Resolve keeps_insert : market.

Lemma keeps_update t org f : preserves I (stmt (λ _, update_tool t org f)).
Proof.
  apply keeps_tool_stmt. intros now d x u d' Hd. unfold update_tool. destruct (tool_of t org d) as [r|]; [|by intros [= _ <-]].
  destruct (write_tool _ _ d) as [[u' d1]|e] eqn:E; [|done]. intros [= _ <-]. by eapply (sy_write I HI).
Qed.
#[local] Hint Resolve keeps_update : market.

Lemma keeps_create org c actor : preserves I (create_org_tool cfg supply fernet_encrypt schema_md5 org c actor).
Proof. unfold create_org_tool, org_author_config, lift, catch_if. keep. Qed.

Lemma keeps_sets org u : preserves I (update_sets cfg fernet_encrypt org u).
Proof. unfold update_sets, org_author_config, lift. keep. Qed.
#[local] Hint Resolve keeps_create keeps_sets : market.

Lemma keeps_update_tool t org actor u : preserves I (update_org_tool cfg supply fernet_encrypt schema_md5 t org actor u).
Proof. unfold update_org_tool, update_cascade. keep. Qed.

Lemma keeps_delete t org actor : preserves I (delete_org_tool cfg supply schema_md5 t org actor).
Proof.
  unfold delete_org_tool. cbv zeta. keep.
Qed.

Lemma keeps_unsubscribe s org : preserves I (unsubscribe_from_tool s org).
Proof.
  unfold unsubscribe_from_tool. keep. apply keeps_tool_stmt. intros now d x n d' Hd [= _ <-]. by apply (sy_drop I HI).
Qed.

Lemma keeps_build org : preserves I (build_subscribed_marketplace_tools schema_md5 org).
Proof. unfold build_subscribed_marketplace_tools, get_org_subscriptions, get_marketplace_tool_by_name. keep. Qed.
#[local] Hint Resolve keeps_update_tool keeps_delete keeps_unsubscribe keeps_build : market.

(** All operations but a subscription and the notifications *)
Definition plain_op (op : tool_op) : bool := match op with OpSubscribe _ _ | OpNotify => false | _ => true end.

Lemma keeps_op op : plain_op op = true → preserves I (perform_tool_op cfg supply fernet_encrypt schema_md5 op).
Proof.
  destruct op; try done; intros _; cbn; unfold breaker_deactivates, _deactivate_dependent_marketplace_tools; keep.
Qed.
End keeps.

(** ** The tables stay well-formed

    [slug_of] is the slug an organisation has or will be given: slugs are unique and
    never change. *)
Section market.
Context (slug_of : string → option string) (Hslugs : ∀ a b s, slug_of a = Some s → slug_of b = Some s → a = b).

Record market_inv (d : ToolDb) : Prop := {
  mi_slugs : ∀ org o, orgs d !! org = Some o → slug_of org = Some (slug o);
  mi_rows : ∀ t r, tool_by_id t d = Some r → tool_row_ok r = true ∧ is_Some (orgs d !! t_org r);
  mi_backing : ∀ t r s, tool_by_id t d = Some r → t_mcp_server_id r = Some s → is_Some (mcp_servers d !! s);
  mi_names : ∀ t t' r r', tool_by_id t d = Some r → tool_by_id t' d = Some r' → t_active r = true → t_active r' = true →
    t_org r = t_org r' → t_name r = t_name r' → t = t';
  mi_subs : ∀ org q s, subs d !! (org, q) = Some s →
    is_Some (orgs d !! org) ∧ str_in "/" q = true ∧ (split_slash q).1 ≠ PLATFORM_SLUG ∧ slug_of org ≠ Some (split_slash q).1;
  mi_ids : ∀ k k' s s', subs d !! k = Some s → subs d !! k' = Some s' → s_id s = s_id s' → k = k';
}.

Definition on_market (d : ToolDb) (_ : ToolExt) : Prop := market_inv d.

Lemma find_written t r d t' r' :
  tool_by_id t' (d <| org_tools := <[t := r]> (org_tools d) |>) = Some r' → t = t' ∧ r = r' ∨ t ≠ t' ∧ tool_by_id t' d = Some r'.
Proof. unfold tool_by_id. cbn. by intros H%lookup_insert_Some. Qed.

Lemma write_tool_spec t r d u d' :
  write_tool t r d = Ok (u, d') →
  tool_row_ok r = true ∧ (is_Some (orgs d !! t_org r) ∧ ∀ s, t_mcp_server_id r = Some s → is_Some (mcp_servers d !! s)) ∧ d' = d <| org_tools := <[t := r]> (org_tools d) |> ∧
  (t_active r = true → ∀ t' r', tool_by_id t' d = Some r' → t_active r' = true → t_org r' = t_org r → t_name r' = t_name r → t' = t).
Proof.
  unfold write_tool. destruct (tool_row_ok r); [|done]. cbn [negb]. destruct (_ && existsb _ _) eqn:Hc; [done|].
  destruct (bool_decide (is_Some (orgs d !! t_org r))) eqn:Ho; [|done]. cbn [andb].
  destruct (match t_mcp_server_id r with Some s => bool_decide (is_Some (mcp_servers d !! s)) | None => true end) eqn:Hb; [|done]. intros [= _ <-].
  apply bool_decide_eq_true in Ho. split_and!; [done..| |done|].
  { intros s Hs. rewrite Hs in Hb. by apply bool_decide_eq_true in Hb. }
  intros Ha t' r' Hr' Ha' Hor Hna.
  rewrite Ha in Hc. destruct (decide (t' = t)) as [|Hne]; [done|exfalso].
  assert (existsb (clashes t r) (map_to_list (org_tools d)) = true) as Hx; [|by rewrite Hx in Hc].
  apply existsb_exists. exists (t', r'). split; [by apply list_elem_of_In, elem_of_map_to_list|].
  unfold clashes. cbn. rewrite Ha', Hor, Hna, !String.eqb_refl. by apply String.eqb_neq in Hne as ->.
Qed.

Lemma drop_subs_lookup hit d k s' :
  subs (drop_subs hit d) !! k = Some s' →
  ∃ s, subs d !! k = Some s ∧ s_id s = s_id s' ∧ s_active s' = s_active s && negb (hit (k, s)) ∧ s_hash s' = s_hash s.
Proof.
  cbn. rewrite map_lookup_imap. destruct (subs d !! k) as [s|]; [|done]. cbn. intros [= <-]. exists s.
  destruct (hit (k, s)); cbn; by rewrite ?andb_false_r, ?andb_true_r.
Qed.

Lemma market_inv_drop hit d : market_inv d → market_inv (drop_subs hit d).
Proof.
  intros [Hs Hr Hk Hn Hb Hi]. split; [done..| |].
  - intros org q s' (s & Hs' & _)%drop_subs_lookup. by apply (Hb org q s).
  - intros k k' s s' (s0 & H0 & Hid & _)%drop_subs_lookup (s1 & H1 & Hid' & _)%drop_subs_lookup Heq.
    apply (Hi k k' s0 s1); [done..|congruence].
Qed.

Lemma market_inv_servers k v d : market_inv d → market_inv (d <| mcp_servers ::= <[k := v]> |>).
Proof.
  intros [Hs Hr Hk Hn Hb Hi]. split; [done..| |done|done|done]. intros t r s Ht Hbk. cbn.
  destruct (decide (k = s)) as [->|Hne]; [rewrite lookup_insert_eq; eauto|]. rewrite lookup_insert_ne by done. by eapply Hk.
Qed.

Lemma market_steady : steady on_market.
Proof.
  unfold on_market. split; [split; [done| | |]| | |].
  - by intros d x f [].
  - intros d x k v. apply market_inv_servers.
  - by intros d x f [].
  - intros t r d u d' x [Hs Hr Hk Hn Hb Hi] (Hok & [Ho Hbk] & -> & Hu)%write_tool_spec. split; [done| | | |done..].
    + intros t1 r1 H1. apply find_written in H1 as [[_ <-]|[_ H1]]; [done|by apply (Hr t1)].
    + intros t1 r1 s H1. apply find_written in H1 as [[_ <-]|[_ H1]]; [apply Hbk|by apply (Hk t1)].
    + intros t1 t2 r1 r2 H1 H2. apply find_written in H1 as [[<- <-]|[? H1]], H2 as [[<- <-]|[? H2]].
      * done.
      * intros Ha1 Ha2 Hor Hna. symmetry. by apply (Hu Ha1 t2 r2).
      * intros Ha1 Ha2 Hor Hna. by apply (Hu Ha2 t1 r1).
      * by apply Hn.
  - intros hit d x. apply market_inv_drop.
  - intros q reason d x. apply market_inv_drop.
Qed.

Lemma published_tool_spec name org_slug d row :
  published_tool name org_slug d = Some row →
  tool_by_id row.1 d = Some row.2 ∧ t_published row.2 = true ∧ t_active row.2 = true ∧ t_name row.2 = name ∧
  ∃ o, orgs d !! t_org row.2 = Some o ∧ slug o = org_slug ∧ org_slug ≠ PLATFORM_SLUG.
Proof.
  unfold published_tool. intros ([i y] & H & ->)%fmap_Some. cbn. apply list_find_Some in H as (Hi & Hl & _).
  apply list_elem_of_lookup_2, elem_of_map_to_list' in Hi. unfold listed in Hl.
  apply andb_true_iff in Hl as [[[Hp Ha]%andb_true_iff Hn]%andb_true_iff Ho]. split_and!; try done; [by apply String.eqb_eq|].
  destruct (orgs d !! t_org y.2) as [o|]; [|done]. apply andb_true_iff in Ho as [Ho Hne]. exists o. apply String.eqb_eq in Ho.
  split_and!; [done..|]. rewrite <- Ho. intros E. by rewrite E in Hne.
Qed.

Lemma subscribe_keeps supply schema_md5 org q : preserves on_market (subscribe_to_tool supply schema_md5 org q).
Proof.
  unfold subscribe_to_tool. destruct (str_in "/" q) eqn:Hq; [|apply preserves_raise]. cbn [negb].
  destruct (split_slash q) as [org_slug name] eqn:Hsp. destruct (String.eqb org_slug _) eqn:Hpl; [apply preserves_raise|].
  unfold get_marketplace_tool_by_name.
  apply wpi_bind. eapply (wpi_mono _ _ (λ r, ∀ row : string * ToolRow, r = Ok (Some row) → slug_of (t_org row.2) = Some org_slug)).
  { apply wpi_query; [done|]. intros now d x Hd row [= Hrow]. apply published_tool_spec in Hrow as (_ & _ & _ & _ & o & Ho & <- & _).
    by apply (mi_slugs d Hd). }
  intros [[row|]|e] Hrow; [|apply preserves_raise|done]. specialize (Hrow row eq_refl).
  destruct (String.eqb (t_org row.2) org) eqn:Hown; [apply preserves_raise|].
  apply preserves_bind; [by apply wpi_uuid4|]. intros sub_id. apply preserves_bind; [by apply wpi_datetime_now|]. intros now.
  apply preserves_bind; [|intros ?; apply preserves_ret]. apply preserves_catch; [|intros ?; apply preserves_raise].
  apply wpi_stmt; [done|]. intros now' d x Hd. unfold upsert_subscription, on_market in *.
  assert (is_Some (orgs d !! org) → str_in "/" q = true ∧ (split_slash q).1 ≠ PLATFORM_SLUG ∧ slug_of org ≠ Some (split_slash q).1) as Hnew.
  { intros _. rewrite Hsp. cbn. split_and!; [done|by apply String.eqb_neq|]. intros Hself. apply String.eqb_neq in Hown.
    apply Hown. by eapply Hslugs. }
  destruct Hd as [Hs Hr Hbk Hn Hb Hi].
  destruct (subs d !! (org, q)) as [s0|] eqn:Hs0.
  - split; [|done]. split; [done..| |].
    + intros o' q' s H1. cbn in H1. apply lookup_insert_Some in H1 as [[[= <- <-] _]|[_ H1]]; [by apply (Hb org q s0)|by apply (Hb o' q' s)].
    + intros k k' s s' H1 H2 Hid. cbn in H1, H2.
      apply lookup_insert_Some in H1 as [[<- <-]|[? H1]], H2 as [[<- <-]|[? H2]]; [done| | |by eapply Hi].
      * by apply (Hi (org, q) k' s0 s').
      * by apply (Hi k (org, q) s s0).
  - destruct (existsb _ _) eqn:Hx; [done|]. case_bool_decide as Ho; [|done]. split; [|done]. split; [done..| |].
    + intros o' q' s H1. cbn in H1. apply lookup_insert_Some in H1 as [[[= <- <-] _]|[_ H1]]; [by split; [|by apply Hnew]|by apply (Hb o' q' s)].
    + assert (∀ k s, subs d !! k = Some s → s_id s ≠ sub_id) as Hfresh.
      { intros k s Hks <-. assert (existsb (λ kv, (s_id kv.2 =? s_id s)%string) (map_to_list (subs d)) = true) as E; [|congruence].
        apply existsb_exists. exists (k, s). split; [by apply list_elem_of_In, elem_of_map_to_list|by apply String.eqb_refl]. }
      intros k k' s s' H1 H2 Hid. cbn in H1, H2.
      apply lookup_insert_Some in H1 as [[<- <-]|[? H1]], H2 as [[<- <-]|[? H2]]; [done| | |by eapply Hi].
      * by destruct (Hfresh k' s' H2).
      * by destruct (Hfresh k s H1).
Qed.
End market.

Lemma notify_keeps (P : ToolDb → Prop) cfg : preserves (db_only P) (run_notifications cfg).
Proof.
  assert (∀ A (f : Z → ToolExt → res A * ToolExt), preserves (db_only P) (external f)) as Hext by (intros; by apply preserves_external).
  assert (∀ f : ToolExt → ToolExt, preserves (db_only P) (modify_ext f)) as Hmod by (intros; by apply wpi_modify_ext).
  unfold run_notifications, notify_subscribers_of_deactivation, send_tool_deactivated_email, redis_set_nx, get_redis.
  repeat (intros; first [done | apply Hext | apply Hmod | preserve_step]).
Qed.

(** Operations one after the other; an error ends the operation, not the history. *)
Definition tool_history (cfg : ToolSettings) (supply : nat → string) `{!TextCodec (list OrgTool)}
    (fernet_encrypt : string → string → string) (schema_md5 : json → string) (ops : list tool_op) : TH unit :=
  for_each ops tt (λ _ op, catch (perform_tool_op cfg supply fernet_encrypt schema_md5 op) (λ _, mret tt)).

(** C16. Whatever operations run, in whatever order, whatever fails and whatever
    other processes do that respects the tables: in each organisation at most one
    active tool bears a name, every tool satisfies the constraints of its table,
    there is one subscription per organisation and qualified name, subscription ids
    are unique, and no organisation holds a subscription to a tool of its own slug
    or of the platform. *)
Theorem market_stays_well_formed slug_of (Hslugs : ∀ a b s, slug_of a = Some s → slug_of b = Some s → a = b)
    cfg supply `{!TextCodec (list OrgTool)} fernet_encrypt schema_md5 ops w
    (Hw : good (on_market slug_of) w) :
  market_inv slug_of (db (tool_history cfg supply fernet_encrypt schema_md5 ops w).2).
Proof.
  assert (preserves (on_market slug_of) (tool_history cfg supply fernet_encrypt schema_md5 ops)) as Hp; [|by apply (preserves_good _ _ w Hp Hw)].
  apply preserves_for_each. intros _ op. apply preserves_catch; [|intros ?; apply preserves_ret].
  destruct (plain_op op) eqn:Hop; [by apply keeps_op; [apply market_steady|]|].
  destruct op; try done; cbn; [|apply notify_keeps].
  apply preserves_bind; [by apply subscribe_keeps|intros ?; apply preserves_ret].
Qed.

(** ** Whom a deactivation tells *)
Section silence.
Context (cfg : ToolSettings) (supply : nat → string) `{!TextCodec (list OrgTool)}.
Context (fernet_encrypt : string → string → string) (schema_md5 : json → string) (m0 : list (string * string * string)).

(** Nobody has an active subscription to the name. *)
Definition unsubscribed (q : string) (d : ToolDb) : Prop := ∀ org s, subs d !! (org, q) = Some s → s_active s = false.

Definition silent (d : ToolDb) (x : ToolExt) : Prop :=
  mailbox x = m0 ∧ ∀ q reason, (q, reason) ∈ notifications x → unsubscribed q d.

(** Other processes subscribe nobody; the queue is this process's. *)
Definition no_new_subscriber (d : ToolDb) (x : ToolExt) (d' : ToolDb) (x' : ToolExt) : Prop :=
  notifications x' = notifications x ∧ mailbox x' = mailbox x ∧
  ∀ q, unsubscribed q d → unsubscribed q d'.

Lemma drop_unsubscribed hit q d : unsubscribed q d → unsubscribed q (drop_subs hit d).
Proof. intros Hd org s' (s & Hs & _ & -> & _)%drop_subs_lookup. by rewrite (Hd org s Hs). Qed.

Lemma unsubscribe_all_done q d : unsubscribed q (unsubscribe_all q d).
Proof. intros org s' (s & _ & _ & -> & _)%drop_subs_lookup. cbn. by rewrite String.eqb_refl, andb_false_r. Qed.

Lemma silent_steady : steady silent.
Proof.
  split; [split|..].
  - intros d x x' Hn Hm [H1 H2]. unfold silent. by rewrite Hn, Hm.
  - done.
  - done.
  - done.
  - intros t r d u d' x [H1 H2] (_ & _ & -> & _)%write_tool_spec. done.
  - intros hit d x [H1 H2]. split; [done|]. intros q reason Hq. apply drop_unsubscribed. by eapply H2.
  - intros q reason d x [H1 H2]. split; [done|]. intros q' reason' [Hq|Hq]%elem_of_app.
    + apply drop_unsubscribed. by eapply H2.
    + apply list_elem_of_singleton in Hq as [= -> ->]. apply unsubscribe_all_done.
Qed.

Lemma silent_stable : stable no_new_subscriber silent.
Proof. intros d x d' x' [H1 H2] (Hn & Hm & Hs). unfold silent. rewrite Hn, Hm. split; [done|]. intros q reason Hq. by eapply Hs, H2. Qed.

Lemma recipients_none q d : unsubscribed q d → recipients q d = [].
Proof.
  intros Hd. unfold recipients. induction (members d) as [|u us IH]; [done|].
  rewrite filter_cons_False; [done|]. intros H%Is_true_true. apply andb_true_iff in H as [_ H].
  destruct (subs d !! (m_org u, q)) as [s|] eqn:Hs; [|done]. by rewrite (Hd _ _ Hs) in H.
Qed.

(** The queue as it was taken: still nobody subscribed to its names *)
Definition unheard (queue : list (string * string)) (d : ToolDb) (x : ToolExt) : Prop :=
  silent d x ∧ ∀ n, n ∈ queue → unsubscribed n.1 d.

Lemma unheard_stable queue : stable no_new_subscriber (unheard queue).
Proof.
  intros d x d' x' [H1 H2] HR. split; [by eapply silent_stable|]. intros n Hn. destruct HR as (_ & _ & HR). by apply HR, H2.
Qed.

Lemma unheard_calm queue : calm (unheard queue).
Proof.
  split; [|done..]. intros d x x' Hn Hm [H1 H2]. split; [|done]. by apply (sy_ext _ (sy_calm _ silent_steady) d x).
Qed.

Lemma notify_unheard queue n :
  n ∈ queue → rg no_new_subscriber (unheard queue) (notify_subscribers_of_deactivation cfg n.1 n.2) (λ _, unheard queue).
Proof.
  intros Hn. pose proof (unheard_stable queue) as Hst. pose proof (unheard_calm queue) as Hcalm.
  unfold notify_subscribers_of_deactivation. apply rg_preserves_bind; [done|by apply keeps_get_redis| |done]. intros connected.
  apply rg_preserves_bind; [done| | |done].
  { repeat (intros; first [done | preserve_step]). apply keeps_external; [done|]. intros now x. repeat case_match; done. }
  intros [|]; [by apply rg_ret|].
  eapply (rg_bind_pure _ _ (λ r, r = Ok None ∨ r = Ok (Some []))).
  - eapply (rg_catch _ _ _ _ (λ r d x, unheard queue d x ∧ (r = Ok (Some []) ∨ ∃ e, r = Raise e))).
    + eapply (rg_bind_pure _ _ (λ r, r = Ok [] ∨ ∃ e, r = Raise e)).
      * apply rg_query; [done|]. intros now d x Hd. split; [split; [done|eauto]|]. split; [done|left].
        by rewrite recipients_none by (by apply (proj2 Hd)).
      * intros rows [[= ->]|[e [=]]]. apply rg_ret. eauto.
      * intros e d x Hd _. split; [done|eauto].
    + intros e. apply rg_ret. intros d x [Hd _]. eauto.
    + intros a d x [Hd [Ha|[e [=]]]]. eauto.
  - intros rows [[= ->]|[= ->]]; [by apply rg_ret|]. by apply rg_ret.
  - done.
Qed.

Lemma run_notifications_silent : rg no_new_subscriber silent (run_notifications cfg) (λ _, silent).
Proof.
  unfold run_notifications. eapply (rg_bind _ _ _ _ (λ r d x, match r with Ok y => unheard (notifications y) d x | Raise _ => False end)).
  - apply rg_get_ext. intros d x Hd. split; [done|]. intros [q reason] Hn. by eapply (proj2 Hd).
  - intros y. eapply (rg_bind _ _ _ _ (λ _, unheard (notifications y))).
    + apply rg_modify_ext. intros d x [[Hm _] Hu]. split; [|done]. split; [done|]. intros q reason Hq. by apply elem_of_nil in Hq.
    + intros _. eapply rg_mono; [apply (rg_for_each _ _ _ _ (λ _, unheard (notifications y)) (λ _, unheard (notifications y)))| |].
      * done.
      * intros _ n Hn. eapply rg_mono; [by apply notify_unheard|done|]. by intros [?|?] d x Hd.
      * done.
      * by intros r d x [Hd _].
    + by intros e d x [Hd _].
  - by intros e d x [].
Qed.
End silence.

(** The notification of subscribers reaches nobody.  Every path that switches a
    tool off (the author's DELETE and PATCH, the circuit breaker, the cascade from an
    MCP server) cancels the subscriptions to it before the notification it schedules
    looks for the active ones: whatever operations but new subscriptions run, in
    whatever order and whatever fails, the scheduled notifications send no e-mail. *)
Theorem deactivation_mails_nobody cfg supply `{!TextCodec (list OrgTool)} fernet_encrypt schema_md5 ops w
    (Hops : ∀ org q, OpSubscribe org q ∉ ops) (Htx : tx_now w = None)
    (Hothers : Forall (relies no_new_subscriber) (sched w)) (Hqueue : notifications (ext w) = []) :
  mailbox (ext (tool_history cfg supply fernet_encrypt schema_md5 ops w).2) = mailbox (ext w).
Proof.
  assert (rg no_new_subscriber (silent (mailbox (ext w))) (tool_history cfg supply fernet_encrypt schema_md5 ops) (λ _, silent (mailbox (ext w)))) as Hrg.
  { apply (rg_for_each _ _ _ _ (λ _, silent _)); [done|]. intros _ op Hop.
    eapply (rg_catch _ _ _ _ (λ _, silent _)); [|intros e; by apply rg_ret|done].
    destruct (plain_op op) eqn:Hpl; [apply rg_preserves; [apply silent_stable|by apply keeps_op; [apply silent_steady|]]|].
    destruct op; try done; [by destruct (Hops _ _ Hop)|apply run_notifications_silent]. }
  specialize (Hrg w Htx Hothers). destruct (tool_history _ _ _ _ ops w) as [r w']. apply Hrg.
  split; [done|]. rewrite Hqueue. intros q reason Hq. by apply elem_of_nil in Hq.
Qed.

(** ** What a deletion leaves *)
Section deletion.
Context (cfg : ToolSettings) (supply : nat → string) `{!TextCodec (list OrgTool)} (schema_md5 : json → string).
Context (t org : string) (r : ToolRow) (o : OrgRow) (d0 : ToolDb).
Context (Hr : tool_by_id t d0 = Some r) (Ho : orgs d0 !! org = Some o).

(** The tool is off, nothing else of the registry changed, and the subscriptions are [ss]. *)
Definition off_with (ss : gmap (string * string) SubRow) (d : ToolDb) (_ : ToolExt) : Prop :=
  orgs d = orgs d0 ∧ subs d = ss ∧ ∃ now, org_tools d = <[t := switched_off now r]> (org_tools d0).

Definition cancelled : gmap (string * string) SubRow := subs (unsubscribe_all (qualify (slug o) (t_name r)) d0).

Lemma off_with_calm ss : calm (off_with ss).
Proof. by split. Qed.

Lemma deletion_first :
  rg alone (λ d _, d = d0) (stmt (deactivate_sql t (Some org))) (λ res d x,
    match res with
    | Ok n => if t_active r && String.eqb (t_org r) org then n = 1 ∧ off_with (subs d0) d x else n = 0 ∧ d = d0
    | Raise _ => d = d0 ∨ off_with (subs d0) d x
    end).
Proof.
  apply rg_stmt; [apply stable_alone|]. intros now d x ->. split; [by left|].
  unfold deactivate_sql. rewrite Hr. destruct (t_active r && _) eqn:Hb; [|by split_and!; [| |left]].
  destruct (write_tool _ _ d0) as [[u d1]|e] eqn:Ew; [|by left].
  apply write_tool_spec in Ew as (_ & _ & -> & _).
  assert (off_with (subs d0) (d0 <| org_tools := <[t := switched_off now r]> (org_tools d0) |>) x) as Hoff by (split_and!; eauto).
  split; [done|by right].
Qed.

Lemma cancel_all actor_done :
  rg alone (off_with (subs d0))
    (invalidate_marketplace_cache;;
     org_row ← query (λ _ d, orgs d !! org);
     match org_row with
     | Some o =>
         stmt (λ _ d, Ok (tt, unsubscribe_all (qualify (slug o) (t_name r)) d));;
         catch (schedule_notification (qualify (slug o) (t_name r)) actor_done) (λ _, mret tt)
     | None => mret tt
     end)
    (λ res d x, match res with Ok _ => off_with cancelled d x | Raise _ => off_with (subs d0) d x ∨ off_with cancelled d x end).
Proof.
  apply rg_preserves_bind; [apply stable_alone|apply keeps_invalidate_market, off_with_calm| |by left]. intros _.
  eapply (rg_bind_pure _ _ (λ row, row = Ok (Some o) ∨ ∃ e, row = Raise e)).
  { apply rg_query; [apply stable_alone|]. intros now d x Hd. split; [split; [done|eauto]|]. split; [done|left].
    destruct Hd as (-> & _). by rewrite Ho. }
  - intros row [[= ->]|[e [=]]]. eapply (rg_bind _ _ _ _ (λ res d x, match res with Ok _ => off_with cancelled d x
      | Raise _ => off_with (subs d0) d x ∨ off_with cancelled d x end)); [| |done].
    + apply rg_stmt; [apply stable_alone|]. intros now d x Hd. split; [by left|].
      assert (off_with cancelled (unsubscribe_all (qualify (slug o) (t_name r)) d) x) as Hc; [|by split; [|right]].
      destruct Hd as (H1 & H2 & H3). split_and!; [done| |done]. unfold cancelled. cbn. by rewrite H2.
    + intros _. eapply (rg_catch _ _ _ _ (λ _, off_with cancelled)); [|by intros e; apply rg_ret|done]. by apply rg_modify_ext.
  - intros e d x Hd _. by left.
Qed.

End deletion.

(** ** The tools of a run *)
Section build.
Context (schema_md5 : json → string).

(** The tool a subscription stands for, if it is there, published and unchanged, and builds *)
Definition runnable (d : ToolDb) (sub : MarketplaceSubscription) : option StructuredTool :=
  let q := ms_name sub in
  if str_in "/" q then
    match published_tool (split_slash q).2 (split_slash q).1 d with
    | Some row =>
        if drifted schema_md5 sub row then None
        else match _build_marketplace_langchain_tool row q with Ok tool => Some tool | Raise _ => None end
    | None => None
    end
  else None.

Definition by_name (tools : list StructuredTool) : list (string * StructuredTool) :=
  foldl (λ acc tool, dict_set acc (st_name tool) tool) [] tools.

Lemma build_name row q tool : _build_marketplace_langchain_tool row q = Ok tool → st_name tool = q.
Proof.
  unfold _build_marketplace_langchain_tool. intros (fields & _ & H)%res_bind_ok. revert H. cbv zeta.
  repeat case_match; try done; by intros [= <-].
Qed.

Lemma runnable_spec d sub tool :
  runnable d sub = Some tool →
  st_name tool = ms_name sub ∧ ∃ row, published_tool (split_slash (ms_name sub)).2 (split_slash (ms_name sub)).1 d = Some row ∧
    drifted schema_md5 sub row = false.
Proof.
  unfold runnable. case_match; [|done]. destruct (published_tool _ _ _) as [row|] eqn:Hrow; [|done].
  destruct (drifted _ _ _) eqn:Hdr; [done|]. destruct (_build_marketplace_langchain_tool _ _) eqn:Hb; [|done].
  intros [= ->]. split; [by eapply build_name|by exists row].
Qed.

Lemma build_loop l acc w :
  acc.2 = by_name acc.1 →
  wpq (for_each l acc (λ acc sub,
    let qualified := ms_name sub in
    if negb (str_in "/" qualified) then mret acc
    else
      let '(org_slug, tool_name) := split_slash qualified in
      tool_row ← get_marketplace_tool_by_name tool_name org_slug;
      match (tool_row : option (string * ToolRow)) with
      | None => mret acc
      | Some row =>
          if drifted schema_md5 sub row then mret acc
          else match _build_marketplace_langchain_tool row qualified with
               | Ok lc_tool => mret (acc.1 ++ [lc_tool], dict_set acc.2 qualified lc_tool)
               | Raise _ => mret acc
               end
      end) : TH _)
    (λ r w', w' = w ∧ r = Ok (acc.1 ++ omap (runnable (db w)) l, by_name (acc.1 ++ omap (runnable (db w)) l))) w.
Proof.
  revert acc. induction l as [|sub l IH]; intros [tools names] Hacc; cbn [fst snd] in *; subst names.
  { apply wpq_ret. cbn. by rewrite app_nil_r. }
  simpl for_each. apply wpq_bind.
  set (acc' := match runnable (db w) sub with Some tool => (tools ++ [tool], by_name (tools ++ [tool])) | None => (tools, by_name tools) end).
  eapply (wpq_mono _ (λ r w', w' = w ∧ r = Ok acc')).
  - cbv zeta. unfold acc', runnable. destruct (str_in "/" (ms_name sub)); cbn [negb]; [|by apply wpq_ret].
    destruct (split_slash (ms_name sub)) as [org_slug name]. cbn [fst snd]. apply wpq_bind, wpq_query.
    destruct (published_tool _ _ _) as [row|]; [|by apply wpq_ret]. destruct (drifted _ _ _); [by apply wpq_ret|].
    destruct (_build_marketplace_langchain_tool _ _) as [tool|e] eqn:Hb; [|by apply wpq_ret]. apply wpq_ret. split; [done|].
    unfold by_name. rewrite foldl_app. cbn. by rewrite (build_name _ _ _ Hb).
  - intros r w' [-> ->].
    assert (omap (runnable (db w)) (sub :: l) = match runnable (db w) sub with Some y => y :: omap (runnable (db w)) l | None => omap (runnable (db w)) l end) as -> by done.
    unfold acc'. destruct (runnable (db w) sub) as [tool|]; (eapply wpq_mono; [by apply IH|]); cbn [fst snd]; [|done].
    intros r w' [-> ->]. by rewrite <- app_assoc.
Qed.

End build.

(** ** A small market *)
Module MarketDemo.
Definition cfg : ToolSettings := MkToolSettings 2 "key" 60 true 3 60 true.
Definition supply (n : nat) : string := "id" +:+ pretty n.
Definition seal (key value : string) : string := key +:+ ":" +:+ value.
Definition md5 (j : json) : string := match j with JObj kvs => "h" +:+ pretty (len kvs) | _ => "h" end.
#[local] Instance no_codec : TextCodec (list OrgTool) := {| to_text _ := ""; of_text _ := Raise (ValueError "text") |}.

Definition object_schema : json := JObj [("type", JStr "object"); ("properties", JObj [])].
Definition weather (active : bool) : ToolRow :=
  MkToolRow (MkToolInfo "acme" "weather" "Weather" object_schema None (Some "https://acme.example/w") "GET" None None 10 active true
    "" "data" [] (Some 1000) 0 0 0) None None.

Definition d0 : ToolDb := MkToolDb
  {[ "acme" := MkOrg "acme" "Acme"; "bob" := MkOrg "bob" "Bob" ]} [MkMember "alice@bob.example" "bob" "admin" true]
  {[ "acme" := "0xA" ]} ∅ {[ "t1" := weather true ]}
  {[ ("bob", "acme/weather") := MkSub "s1" true 1 (Some "h2") ]} ∅ ∅.
Definition x0 : ToolExt := MkToolExt (Some ∅) ∅ empty_slot ∅ ∅ ∅ ∅ ∅ ∅ ∅ [] [].
Definition world (s : list (event ToolDb ToolExt)) (d : ToolDb) : World ToolDb ToolExt := MkWorld d x0 0 None s 0.

Definition ok : event ToolDb ToolExt := MkEvent 0 FOk pair.
Definition failing : event ToolDb ToolExt := MkEvent 0 FFail pair.
Definition slug_of (org : string) : option string := if bool_decide (org = "acme") then Some "acme" else if bool_decide (org = "bob") then Some "bob" else None.

Definition perform := perform_tool_op cfg supply seal md5.
Definition delete_t1 : tool_op := OpDelete "t1" "acme" "alice".
Definition sub_active (d : ToolDb) : option bool := s_active <$> subs d !! ("bob", "acme/weather").

Lemma slugs_differ a b s : slug_of a = Some s → slug_of b = Some s → a = b.
Proof. unfold slug_of. repeat case_bool_decide; naive_solver. Qed.

Lemma d0_ok : market_inv slug_of d0.
Proof.
  split.
  - intros org o H. unfold d0 in H. cbn in H. apply lookup_insert_Some in H as [[<- <-]|[_ H%lookup_singleton_Some]]; [done|].
    by destruct H as [<- <-].
  - intros t r H. unfold d0, tool_by_id in H. cbn in H. apply lookup_singleton_Some in H as [<- <-]. split; [done|by eexists].
  - intros t r s H. unfold d0, tool_by_id in H. cbn in H. apply lookup_singleton_Some in H as [<- <-]. done.
  - intros t t' r r' H H'. unfold d0, tool_by_id in H, H'. cbn in H, H'.
    apply lookup_singleton_Some in H as [<- _], H' as [<- _]. done.
  - intros org q s H. unfold d0 in H. cbn in H. apply lookup_singleton_Some in H as [[= <- <-] <-]. split_and!; [by eexists|done..].
  - intros k k' s s' H H'. unfold d0 in H, H'. cbn in H, H'. apply lookup_singleton_Some in H as [<- _], H' as [<- _]. done.
Qed.

(** Deleted while the caches fail, then noticed too late *)
Lemma market_stays_well_formed_witness :
  good (on_market slug_of) (world [ok; ok; ok; failing] d0) ∧
  market_inv slug_of (db (tool_history cfg supply seal md5 [delete_t1; OpSubscribe "bob" "acme/weather"; OpNotify] (world [ok; ok; ok; failing] d0)).2).
Proof.
  assert (good (on_market slug_of) (world [ok; ok; ok; failing] d0)) as Hw.
  { split_and!; [done|exact d0_ok|]. repeat (apply Forall_cons; split; [by intros d x|]). by apply Forall_nil. }
  split; [exact Hw|]. exact (market_stays_well_formed slug_of slugs_differ cfg supply seal md5 _ _ Hw).
Defined.

Lemma deactivation_mails_nobody_witness :
  sub_active d0 = Some true ∧
  mailbox (ext (tool_history cfg supply seal md5 [delete_t1; OpNotify] (world [] d0)).2) = [] ∧
  sub_active (db (tool_history cfg supply seal md5 [delete_t1; OpNotify] (world [] d0)).2) = Some false.
Proof.
  split; [vm_compute; reflexivity|]. split; [|vm_compute; reflexivity].
  apply (deactivation_mails_nobody cfg supply seal md5 [delete_t1; OpNotify] (world [] d0)); [|reflexivity|by apply Forall_nil|reflexivity].
  intros org q. rewrite !elem_of_cons. intros [[=]|[[=]|H]]. by apply elem_of_nil in H.
Defined.

(** The mailer is not what is missing: while the subscription is active it would write. *)
Example an_early_notification_is_heard :
  mailbox (ext (notify_subscribers_of_deactivation cfg "acme/weather" "gone" (world [] d0)).2) = [("alice@bob.example", "acme/weather", "gone")].
Proof. vm_compute. reflexivity. Qed.



(** A deletion whose last UPDATE fails leaves the subscriptions active, and deleting
    again finds nothing to delete. *)
Example failed_cascade_strands_subscriptions :
  let '(r, w) := delete_org_tool cfg supply md5 "t1" "acme" "alice" (world (replicate 7 ok ++ [failing]) d0) in
  r = Raise ConnectionError ∧ (t_active <$> (t_info <$> tool_by_id "t1" (db w))) = Some false ∧
  let '(r', w') := delete_org_tool cfg supply md5 "t1" "acme" "alice" w in
  r' = Ok false ∧ sub_active (db w') = Some true.
Proof. vm_compute. repeat split; reflexivity. Qed.

Definition tool_named (name : string) : CreateTool :=
  MkCreateTool name "A tool" object_schema (Some "https://acme.example/x") None None 10 None false "" "" None None None None.
Definition no_change : UpdateTool := MkUpdateTool None None None None None None None None None None None None None.
Definition enable : UpdateTool := MkUpdateTool None None None None None None None (Some true) None None None None None.
Definition unpublish : UpdateTool := MkUpdateTool None None None None None None None None (Some false) None None None None.

(** With room for two tools: create one beside the first, delete it, create another,
    and switch the deleted one on again. *)
Example reenabling_exceeds_quota :
  let run := tool_history cfg supply seal md5
    [OpCreate "acme" (tool_named "a") "alice"; OpDelete "id0" "acme" "alice"; OpCreate "acme" (tool_named "b") "alice";
     OpUpdate "id0" "acme" "alice" enable] in
  (create_org_tool cfg supply seal md5 "acme" (tool_named "c") "alice" (run (world [] d0)).2).1
    = Raise (ValueError "Organisation tool limit reached (2)") ∧
  active_tools "acme" (db (run (world [] d0)).2) = 3.
Proof. vm_compute. split; reflexivity. Qed.

(** Subscribing again answers with an id no subscription has: it cannot be cancelled with it. *)
Example resubscribed_id_is_unknown :
  let '(_, w1) := unsubscribe_from_tool "s1" "bob" (world [] d0) in
  let '(r, w2) := subscribe_to_tool supply md5 "bob" "acme/weather" w1 in
  let '(r', w3) := unsubscribe_from_tool "id0" "bob" w2 in
  (ms_id <$> r) = Ok "id0" ∧ r' = Ok false ∧ sub_active (db w3) = Some true ∧ (s_id <$> subs (db w3) !! ("bob", "acme/weather")) = Some "s1".
Proof. vm_compute. repeat split; reflexivity. Qed.

(** A deleted tool of the same name: unpublishing it cancels the live tool's subscriptions. *)
Example unpublishing_a_deleted_namesake :
  let d := d0 <| org_tools ::= <["t0" := weather false]> |> in
  let '(_, w) := update_org_tool cfg supply seal md5 "t0" "acme" "alice" unpublish (world [] d) in
  (t_active <$> (t_info <$> tool_by_id "t1" (db w))) = Some true ∧ sub_active (db w) = Some false.
Proof. vm_compute. split; reflexivity. Qed.

(** Switching a deleted tool on beside its successor: the unique index answers. *)
Example reenabling_a_namesake_raises :
  let d := d0 <| org_tools ::= <["t0" := weather false]> |> in
  (update_org_tool cfg supply seal md5 "t0" "acme" "alice" enable (world [] d)).1 = Raise UniqueViolation.
Proof. vm_compute. reflexivity. Qed.
End MarketDemo.
