(* ===== verification/Ssrf.v ===== *)
(** * Outbound requests (tools/definitions/http_fetch.py)

    The guard every outbound request to a user-given URL passes: the URL's host is
    resolved, every address is compared with a list of blocked networks, and the
    connection is pinned to the addresses that were checked, again for every
    redirect.  Modelled: Python's parser of addresses, the blocked networks, both
    validators, the pinned resolver, the guarded transports of httpx and httpx2 and
    the fetch loop of the [http_fetch] tool.

    The n-th DNS query and the n-th request are answered by arbitrary functions, so
    an answer may change between the check and the connection.  URL parsing, the
    client's reading of a URL, decoding and text extraction are parameters.

    The theorems: an address passes exactly if it parses and lies outside eleven
    explicit ranges; [http_fetch] and the transports connect only to addresses that
    passed, whatever DNS and servers answer; a fetch ends after at most six requests
    and keeps its limits.  The unspecified address [::] is in none of the ranges. *)

From S2P Require Export Monad Json.

(** ** Addresses (the ipaddress module) *)
Inductive ip_addr := V4 (n : Z) | V6 (n : Z).
#[export] Instance ip_addr_eq_dec : EqDecision ip_addr.
Proof. solve_decision. Defined.

Abbreviation chars := (list Ascii.ascii).

(** [s.split(c)] *)
Fixpoint split_chars (c : Ascii.ascii) (acc l : chars) : list chars :=
  match l with
  | [] => [rev acc]
  | a :: l' => if Ascii.eqb a c then rev acc :: split_chars c [] l' else split_chars c (a :: acc) l'
  end.

Definition decimal_digit (c : Ascii.ascii) : option Z := digit_value c.

Definition hexadecimal_digit (c : Ascii.ascii) : option Z :=
  let n := Z.of_nat (Ascii.nat_of_ascii c) in
  match digit_value c with
  | Some d => Some d
  | None => if (65 <=? n) && (n <=? 70) then Some (n - 55) else if (97 <=? n) && (n <=? 102) then Some (n - 87) else None
  end.

(** The number of a non-empty digit string *)
Definition number (digit : Ascii.ascii → option Z) (base : Z) (l : chars) : option Z :=
  match l with
  | [] => None
  | _ => foldl (λ acc c, n ← acc; d ← digit c; Some (n * base + d)) (Some 0) l
  end.

(** [IPv4Address._parse_octet] *)
Definition _parse_octet (l : chars) : option Z :=
  if (3 <? length l)%nat then None
  else if match l with "0"%char :: _ :: _ => true | _ => false end then None
  else n ← number decimal_digit 10 l; if 255 <? n then None else Some n.

Definition ipv4_of_chars (l : chars) : option Z :=
  match split_chars "." [] l with
  | [a; b; c; d] =>
      a ← _parse_octet a; b ← _parse_octet b; c ← _parse_octet c; d ← _parse_octet d;
      Some (((a * 256 + b) * 256 + c) * 256 + d)
  | _ => None
  end.

(** [IPv6Address._parse_hextet] *)
Definition _parse_hextet (l : chars) : option Z :=
  if (4 <? length l)%nat then None else number hexadecimal_digit 16 l.

(** A part of the address: a hextet, or the two of an embedded IPv4 address *)
Inductive part := Empty | Text (l : chars) | Hextet (n : Z).
Definition part_value (p : part) : option Z :=
  match p with Empty => None | Text l => _parse_hextet l | Hextet n => Some n end.
Definition is_empty_part (p : part) : bool := match p with Empty => true | _ => false end.
Definition part_of (l : chars) : part := match l with [] => Empty | _ => Text l end.

Definition join_hextets (l : list part) (acc : Z) : option Z :=
  foldl (λ acc p, n ← acc; h ← part_value p; Some (n * 65536 + h)) (Some acc) l.

(** The parts with the embedded IPv4 address expanded *)
Definition ipv6_parts (l : chars) : option (list part) :=
  let parts := split_chars ":" [] l in
  match rev parts with
  | last :: front =>
      if existsb (Ascii.eqb "."%char) last then
        n ← ipv4_of_chars last; Some (map part_of (rev front) ++ [Hextet (n / 65536); Hextet (n mod 65536)])
      else Some (map part_of parts)
  | [] => None
  end.

(** [IPv6Address._ip_int_from_string] *)
Definition ipv6_of_chars (l : chars) : option Z :=
  if (length (split_chars ":" [] l) <? 3)%nat then None
  else
  parts ← ipv6_parts l;
  let n := length parts in
  if (9 <? n)%nat then None
  else
  let inner := filter (λ i, is_empty_part (nth i parts Empty) = true) (seq 1 (n - 2)) in
  let first := nth 0 parts Empty in
  let last := nth (n - 1) parts Empty in
  match inner with
  | [skip] =>
      let hi := if is_empty_part first then (skip - 1)%nat else skip in
      let lo := if is_empty_part last then (n - skip - 2)%nat else (n - skip - 1)%nat in
      if (is_empty_part first && (0 <? hi)%nat) || (is_empty_part last && (0 <? lo)%nat) then None
      else if (8 <=? hi + lo)%nat then None
      else
        high ← join_hextets (take hi parts) 0;
        join_hextets (drop (n - lo) parts) (Z.shiftl high (16 * Z.of_nat (8 - (hi + lo))))
  | [] =>
      if negb (n =? 8)%nat || is_empty_part first || is_empty_part last then None
      else join_hextets parts 0
  | _ => None
  end.

(** [ipaddress.ip_address]; a scope id after a percent sign is allowed in version 6. *)
Definition ip_address (s : string) : option ip_addr :=
  let l := String.list_ascii_of_string s in
  if existsb (Ascii.eqb "/"%char) l then None
  else match ipv4_of_chars l with
  | Some n => Some (V4 n)
  | None =>
      match split_chars "%" [] l with
      | [addr] => V6 <$> ipv6_of_chars addr
      | [addr; _ :: _] => V6 <$> ipv6_of_chars addr
      | _ => None
      end
  end.

(** ** The guard *)

(** [ipaddress.ip_network("base/prefixlen")] *)
Definition Network : Type := ip_addr * Z.

Definition _BLOCKED_NETWORKS : list Network :=
  [ (V4 2130706432, 8);        (* 127.0.0.0/8 *)
    (V4 167772160, 8);         (* 10.0.0.0/8 *)
    (V4 2886729728, 12);       (* 172.16.0.0/12 *)
    (V4 3232235520, 16);       (* 192.168.0.0/16 *)
    (V4 2851995648, 16);       (* 169.254.0.0/16 *)
    (V4 1681915904, 10);       (* 100.64.0.0/10 *)
    (V4 0, 8);                 (* 0.0.0.0/8 *)
    (V6 1, 128);               (* ::1/128 *)
    (V6 (Z.shiftl 0xfc00 112), 7);   (* fc00::/7 *)
    (V6 (Z.shiftl 0xfe80 112), 10);  (* fe80::/10 *)
    (V6 (Z.shiftl 0x64ff9b 96), 96); (* 64:ff9b::/96 *)
    (V6 (Z.shiftl 0xffff 32), 96)    (* ::ffff:0:0/96 *)
  ].

(** [addr in net]: [addr._ip & netmask == net._ip], of the same version *)
Definition netmask (width prefixlen : Z) : Z := Z.shiftl (Z.ones prefixlen) (width - prefixlen).
Definition in_network (a : ip_addr) (net : Network) : bool :=
  match a, net with
  | V4 n, (V4 b, len) => Z.land n (netmask 32 len) =? b
  | V6 n, (V6 b, len) => Z.land n (netmask 128 len) =? b
  | _, _ => false
  end.

(** [addr.ipv4_mapped] *)
Definition ipv4_mapped (n : Z) : option Z := if Z.shiftr n 32 =? 0xffff then Some (Z.land n 0xffffffff) else None.

Definition unwrap_mapped (a : ip_addr) : ip_addr :=
  match a with
  | V6 n => match ipv4_mapped n with Some m => V4 m | None => V6 n end
  | V4 n => V4 n
  end.

Definition _is_ip_blocked (ip_str : string) : bool :=
  match ip_address ip_str with
  | None => true
  | Some addr => existsb (in_network (unwrap_mapped addr)) _BLOCKED_NETWORKS
  end.
Arguments _is_ip_blocked : simpl never.
Arguments ip_address : simpl never.

Example addresses_parse :
  map ip_address ["127.0.0.1"; "010.0.0.1"; "1.2.3"; "256.0.0.1"; "::"; "::1"; "1::8"; "::ffff:10.0.0.1"; "fe80::1%eth0"; "1:2:3:4:5:6:7:8"; "1:2:3:4:5:6:7::"; "1::2::3"; ":1"; "12345::"]
  = [Some (V4 2130706433); None; None; None; Some (V6 0); Some (V6 1); Some (V6 (Z.shiftl 1 112 + 8)); Some (V6 (Z.shiftl 0xffff 32 + 167772161));
     Some (V6 (Z.shiftl 0xfe80 112 + 1)); Some (V6 0x00010002000300040005000600070008); Some (V6 0x00010002000300040005000600070000); None; None; None].
Proof. vm_compute. reflexivity. Qed.

(** ** The validators *)

(** [socket.getaddrinfo]: the addresses, [socket.gaierror], or another exception *)
Inductive dns_answer := Addresses (l : list string) | GaiError | DnsRaises (e : exn).

(** What the n-th request to a server brings *)
Record Response := MkResponse {
  rs_status : Z; rs_location : option string; rs_content_length : option Z; rs_charset : option string; rs_body : list Ascii.ascii;
}.
Inductive http_reply := Replied (r : Response) | ClientFailure (name : string) | OtherFailure (name : string).

(** The traces of a fetch: DNS queries asked, requests sent, and the addresses the
    requests may connect to, with the host they are for *)
Record Net := MkNet { queries : nat; requests : nat; connects : list (string * string) }.
#[export] Instance eta_Net : Eta Net := λ s, MkNet (queries s) (requests s) (connects s).

Record FetchResult := MkFetch {
  fr_url : string; fr_title : option string; fr_content : string; fr_length : Z; fr_truncated : bool; fr_error : option string;
}.

Definition _MAX_RESPONSE_BYTES : Z := 1024 * 1024.
Definition _MAX_REDIRECTS : nat := 5.

Section guard.
(** [urlparse(url)]: scheme and hostname, or an exception; [urljoin]; [str(ip_address(s))] *)
Context (urlparse : string → option (string * option string)) (urljoin : string → string → string) (addr_text : string → string).
Context (dns : nat → string → dns_answer).

Definition getaddrinfo (host : string) (s : Net) : dns_answer * Net := (dns (queries s) host, s <| queries ::= S |>).

(** [for info in infos: if blocked: return error; if new: append] *)
Fixpoint check_addresses (hostname : string) (infos ips : list string) : option string * list string :=
  match infos with
  | [] => (None, ips)
  | ip_str :: rest =>
      if _is_ip_blocked ip_str then (Some ("Hostname " +:+ hostname +:+ " resolves to blocked IP: " +:+ ip_str), [])
      else check_addresses hostname rest (if bool_decide (ip_str ∈ ips) then ips else ips ++ [ip_str])
  end.

Definition validate_url_with_ips (url : string) (s : Net) : res (option string * list string) * Net :=
  match urlparse url with
  | None => (Ok (Some "Invalid URL", []), s)
  | Some (scheme, hostname) =>
      if negb (bool_decide (scheme ∈ ["http"; "https"])) then (Ok (Some ("Blocked scheme: " +:+ scheme +:+ " (only http/https allowed)"), []), s)
      else match hostname with
      | None => (Ok (Some "No hostname in URL", []), s)
      | Some hostname =>
          if is_empty hostname then (Ok (Some "No hostname in URL", []), s)
          else if bool_decide (is_Some (ip_address hostname)) then
            if _is_ip_blocked (addr_text hostname) then (Ok (Some ("Blocked IP address: " +:+ hostname), []), s)
            else (Ok (None, [addr_text hostname]), s)
          else
            let '(answer, s) := getaddrinfo hostname s in
            match answer with
            | GaiError => (Ok (Some ("DNS resolution failed for: " +:+ hostname), []), s)
            | DnsRaises e => (Raise e, s)
            | Addresses infos =>
                match check_addresses hostname infos [] with
                | (Some error, _) => (Ok (Some error, []), s)
                | (None, []) => (Ok (Some ("DNS resolution failed for: " +:+ hostname), []), s)
                | (None, ips) => (Ok (None, ips), s)
                end
            end
      end
  end.

(** The older validator, which keeps no addresses *)
Definition validate_url (url : string) (s : Net) : res (option string) * Net :=
  match urlparse url with
  | None => (Ok (Some "Invalid URL"), s)
  | Some (scheme, hostname) =>
      if negb (bool_decide (scheme ∈ ["http"; "https"])) then (Ok (Some ("Blocked scheme: " +:+ scheme +:+ " (only http/https allowed)")), s)
      else match hostname with
      | None => (Ok (Some "No hostname in URL"), s)
      | Some hostname =>
          if is_empty hostname then (Ok (Some "No hostname in URL"), s)
          else if bool_decide (is_Some (ip_address hostname)) && _is_ip_blocked (addr_text hostname) then (Ok (Some ("Blocked IP address: " +:+ hostname)), s)
          else
            let '(answer, s) := getaddrinfo hostname s in
            match answer with
            | GaiError => (Ok (Some ("DNS resolution failed for: " +:+ hostname)), s)
            | DnsRaises e => (Raise e, s)
            | Addresses infos => (Ok (check_addresses hostname infos []).1, s)
            end
      end
  end.

(** ** Pinning *)
Inductive family := AF_UNSPEC | AF_INET | AF_INET6.
#[local] Instance family_eq_dec : EqDecision family.
Proof. solve_decision. Defined.

Definition ip_family (a : ip_addr) : family := match a with V4 _ => AF_INET | V6 _ => AF_INET6 end.

(** [_PinnedResolver.resolve] *)
Definition resolve (pinned_host : string) (ips : list string) (host : string) (fam : family) : option (list string) :=
  if negb (String.eqb host pinned_host) then None
  else
    match filter (λ ip, match ip_address ip with
                        | Some a => bool_decide (fam = AF_UNSPEC) || bool_decide (fam = ip_family a)
                        | None => false end = true) ips with
    | [] => None
    | results => Some results
    end.

(** The host the HTTP client reads from a URL, and whether it takes it for a literal
    address, which it connects to without its resolver *)
Context (client_host : string → string) (literal : string → bool).

(** The addresses a request of the client may connect to *)
Definition candidates (current_url pinned_host : string) (ips : list string) (s : Net) : option (list string) * Net :=
  let host := client_host current_url in
  if literal host then
    match ip_address host with
    | Some _ => (Some [host], s)
    | None => match getaddrinfo host s with (Addresses l, s) => (Some l, s) | (_, s) => (None, s) end
    end
  else (resolve pinned_host ips host AF_UNSPEC, s).

(** ** http_fetch *)
Context (server : nat → string → http_reply) (decode : option string → list Ascii.ascii → string)
        (_extract_content : string → option string * string).

Definition send_request (current_url pinned_host : string) (ips : list string) (s : Net) : http_reply * Net :=
  let '(targets, s) := candidates current_url pinned_host ips s in
  match targets with
  | None => (ClientFailure "ClientConnectorError", s)
  | Some l => (server (requests s) current_url, s <| requests ::= S |> <| connects ::= λ c, c ++ map (pair (client_host current_url)) l |>)
  end.

Definition failed (url content : string) : FetchResult := MkFetch url None content 0 false None.

Definition url_host (url : string) : string := default "" (p ← urlparse url; p.2).

(** One redirect after the other; the text of the page, or the answer that ends the fetch *)
Fixpoint fetch_loop (hops : nat) (url current_url : string) (current_ips : list string) (s : Net) : (FetchResult + string) * Net :=
  match hops with
  | O => (inl (failed url "Too many redirects"), s)
  | S hops =>
      let '(answer, s) := send_request current_url (url_host current_url) current_ips s in
      match answer with
      | ClientFailure name => (inl (failed url ("Fetch error: " +:+ name)), s)
      | OtherFailure name => (inl (failed url ("Unexpected error: " +:+ name)), s)
      | Replied resp =>
          if bool_decide (rs_status resp ∈ [301; 302; 303; 307; 308]) then
            match rs_location resp with
            | Some location =>
                if is_empty location then (inl (failed url "Redirect missing Location header"), s)
                else
                  let next_url := urljoin current_url location in
                  let '(v, s) := validate_url_with_ips next_url s in
                  match v with
                  | Raise e => (inl (failed url ("Unexpected error: " +:+ exn_str e)), s)
                  | Ok (Some redirect_error, _) => (inl (failed url ("Redirect blocked: " +:+ redirect_error)), s)
                  | Ok (None, next_ips) => fetch_loop hops url next_url next_ips s
                  end
            | None => (inl (failed url "Redirect missing Location header"), s)
            end
          else if negb (rs_status resp =? 200) then (inl (failed url ("HTTP " +:+ pretty (rs_status resp))), s)
          else if match rs_content_length resp with Some n => _MAX_RESPONSE_BYTES <? n | None => false end then
            (inl (failed url ("Response too large: " +:+ pretty (default 0 (rs_content_length resp)) +:+ " bytes")), s)
          else (inr (decode (rs_charset resp) (take (Z.to_nat _MAX_RESPONSE_BYTES) (rs_body resp))), s)
      end
  end.

Definition http_fetch (url : string) (max_chars : Z) (s : Net) : res FetchResult * Net :=
  let '(v, s) := validate_url_with_ips url s in
  match v with
  | Raise e => (Raise e, s)
  | Ok (Some error, _) => (Ok (MkFetch url None "" 0 false (Some error)), s)
  | Ok (None, pinned_ips) =>
      let '(r, s) := fetch_loop (_MAX_REDIRECTS + 1) url url pinned_ips s in
      match r with
      | inl result => (Ok result, s)
      | inr html =>
          let '(title, content) := _extract_content html in
          let truncated := max_chars <? Z.of_nat (String.length content) in
          let content := if truncated then String.substring 0 (Z.to_nat max_chars) content else content in
          (Ok (MkFetch url title content (Z.of_nat (String.length content)) truncated None), s)
      end
  end.

(** ** The guarded transports of httpx and httpx2 *)

(** A request of the client: URL, its host and port, the Host header, the TLS server name *)
Record ClientRequest := MkClientRequest {
  cr_url : string; cr_host : string; cr_port : option Z; cr_host_header : string; cr_sni : option string;
}.

(** The request that is sent on, or the message of the [ConnectError] *)
Definition handle_async_request (request : ClientRequest) (s : Net) : res (string + ClientRequest) * Net :=
  if is_empty (cr_host request) then (Ok (inl "SSRF guard: missing host"), s)
  else
    let '(v, s) := validate_url_with_ips (cr_url request) s in
    match v with
    | Raise e => (Raise e, s)
    | Ok (Some error, _) => (Ok (inl ("SSRF guard: " +:+ error)), s)
    | Ok (None, ips) =>
        match ips with
        | [] => (Raise (IndexError "list index out of range"), s)
        | pinned_ip :: _ =>
            if String.eqb pinned_ip (cr_host request) then (Ok (inr request), s)
            else (Ok (inr (MkClientRequest (cr_url request) pinned_ip (cr_port request)
                    (match cr_port request with
                     | Some port => if port =? 0 then cr_host request else cr_host request +:+ ":" +:+ pretty port
                     | None => cr_host request end)
                    (Some (cr_host request)))), s)
        end
    end.
End guard.

(** ** What the parser yields *)
Definition well_sized (a : ip_addr) : Prop :=
  match a with V4 n => 0 ≤ n < 2 ^ 32 | V6 n => 0 ≤ n < 2 ^ 128 end.

Lemma decimal_digit_range c d : decimal_digit c = Some d → 0 ≤ d < 10.
Proof. unfold decimal_digit, digit_value. case_match; [|done]. intros [= <-]. case_bool. lia. Qed.

Lemma hexadecimal_digit_range c d : hexadecimal_digit c = Some d → 0 ≤ d < 16.
Proof.
  unfold hexadecimal_digit. destruct (digit_value c) eqn:E; [intros [= <-]; apply decimal_digit_range in E; lia|].
  repeat case_match; try done; intros [= <-]; case_bool; lia.
Qed.

Lemma fold_none {A B} (f : B → A → option B) (l : list A) : foldl (λ acc a, n ← acc; f n a) None l = None.
Proof. induction l; cbn; auto. Qed.

Lemma fold_digits (digit : Ascii.ascii → option Z) base l acc n :
  (∀ c d, digit c = Some d → 0 ≤ d < base) → 0 ≤ acc →
  foldl (λ acc c, n ← acc; d ← digit c; Some (n * base + d)) (Some acc) l = Some n →
  0 ≤ n < (acc + 1) * base ^ Z.of_nat (length l).
Proof.
  intros Hd. revert acc. induction l as [|c l IH]; intros acc Ha; [intros [= <-]; cbn; lia|].
  cbn [foldl mbind option_bind]. destruct (digit c) as [d|] eqn:E; cbn [mbind option_bind]; [|by rewrite (fold_none (λ n c, d ← digit c; Some (n * base + d)))].
  specialize (Hd c d E) as Hr. intros H. apply IH in H; [|nia]. split; [lia|].
  cbn [length]. rewrite Nat2Z.inj_succ, Z.pow_succ_r by lia.
  assert (0 < base ^ Z.of_nat (length l)) by (apply Z.pow_pos_nonneg; lia). nia.
Qed.

Lemma number_range digit base l n :
  (∀ c d, digit c = Some d → 0 ≤ d < base) → number digit base l = Some n → 0 ≤ n < base ^ Z.of_nat (length l).
Proof. intros Hd. unfold number. destruct l; [done|]. intros H%fold_digits; [|done|lia]. lia. Qed.

Lemma octet_range l n : _parse_octet l = Some n → 0 ≤ n < 256.
Proof.
  unfold _parse_octet. repeat case_match; try done;
    (destruct (number _ _ _) as [m|] eqn:E; [|done]); cbn; case_match; try done; intros [= <-];
    apply (number_range _ _ _ _ decimal_digit_range) in E; case_bool; lia.
Qed.

Lemma ipv4_range l n : ipv4_of_chars l = Some n → 0 ≤ n < 2 ^ 32.
Proof.
  unfold ipv4_of_chars. repeat (case_match; try done).
  repeat match goal with |- context [_parse_octet ?x] => destruct (_parse_octet x) eqn:?; cbn; [|done] end.
  intros [= <-]. repeat match goal with H : _parse_octet _ = Some _ |- _ => apply octet_range in H end. lia.
Qed.

Definition sized_part (p : part) : Prop := match p with Hextet n => 0 ≤ n < 65536 | _ => True end.

Lemma part_value_range p n : sized_part p → part_value p = Some n → 0 ≤ n < 65536.
Proof.
  destruct p as [|l|m]; cbn; [done| |by intros ? [= <-]]. intros _. unfold _parse_hextet.
  destruct (4 <? length l)%nat eqn:Hl; [done|]. intros H%(number_range _ _ _ _ hexadecimal_digit_range).
  apply Nat.ltb_ge in Hl. assert (16 ^ Z.of_nat (length l) ≤ 16 ^ 4) by (apply Z.pow_le_mono_r; lia). lia.
Qed.

Lemma join_range l acc n :
  Forall sized_part l → 0 ≤ acc → join_hextets l acc = Some n → 0 ≤ n < (acc + 1) * 65536 ^ Z.of_nat (length l).
Proof.
  unfold join_hextets. revert acc. induction l as [|p l IH]; intros acc Hl Ha; [intros [= <-]; cbn; lia|].
  apply Forall_cons in Hl as [Hp Hl]. cbn [foldl mbind option_bind].
  destruct (part_value p) as [h|] eqn:E; cbn [mbind option_bind]; [|by rewrite (fold_none (λ n p, h ← part_value p; Some (n * 65536 + h)))].
  apply part_value_range in E; [|done]. intros H. apply IH in H; [|done|lia]. split; [lia|].
  cbn [length]. rewrite Nat2Z.inj_succ, Z.pow_succ_r by lia.
  assert (0 < 65536 ^ Z.of_nat (length l)) by (apply Z.pow_pos_nonneg; lia). nia.
Qed.

Lemma parts_sized l ps : ipv6_parts l = Some ps → Forall sized_part ps.
Proof.
  assert (∀ ls, Forall sized_part (map part_of ls)) as Hm.
  { intros ls. apply Forall_fmap, Forall_true. by intros [|c cs]. }
  unfold ipv6_parts. case_match; [done|]. case_match; [|by intros [= <-]].
  destruct (ipv4_of_chars _) as [n|] eqn:E; cbn; [|done]. intros [= <-]. apply ipv4_range in E.
  apply Forall_app. split; [done|]. apply Forall_cons; split; [|apply Forall_singleton]; cbn.
  - split; [apply Z.div_pos; lia|apply Z.div_lt_upper_bound; lia].
  - by apply Z.mod_pos_bound.
Qed.

Lemma hextets_pow k : 65536 ^ Z.of_nat k = 2 ^ (16 * Z.of_nat k).
Proof. change 65536 with (2 ^ 16). rewrite <- Z.pow_mul_r by lia. done. Qed.

Lemma ipv6_range l n : ipv6_of_chars l = Some n → 0 ≤ n < 2 ^ 128.
Proof.
  unfold ipv6_of_chars. case_match; [done|]. destruct (ipv6_parts l) as [ps|] eqn:Eps; cbn [mbind option_bind]; [|done].
  pose proof (parts_sized _ _ Eps) as Hs. cbv zeta. case_match; [done|].
  destruct (filter _ _) as [|skip [|]]; [| |done].
  - destruct (length ps =? 8)%nat eqn:E8; cbn [negb orb]; [|done]. apply Nat.eqb_eq in E8. repeat case_match; try done.
    intros Hj%join_range; [|done|lia]. rewrite E8 in Hj. exact Hj.
  - set (hi := if is_empty_part _ then _ else _). set (lo := if is_empty_part (nth (length ps - 1) _ _) then _ else _).
    case_match; [done|]. destruct (8 <=? hi + lo)%nat eqn:E8; [done|]. apply Nat.leb_gt in E8.
    destruct (join_hextets (take hi ps) 0) as [high|] eqn:Eh; cbn [mbind option_bind]; [|done].
    apply join_range in Eh; [|by apply Forall_take|lia]. rewrite length_take, hextets_pow in Eh.
    intros Hj. apply join_range in Hj; [|by apply Forall_drop|apply Z.shiftl_nonneg; lia].
    rewrite length_drop, Z.shiftl_mul_pow2, hextets_pow in Hj by lia. split; [lia|].
    set (a := 16 * Z.of_nat (hi `min` length ps)) in *. set (b := 16 * Z.of_nat (8 - (hi + lo))) in *.
    set (c := 16 * Z.of_nat (length ps - (length ps - lo))) in *.
    assert (0 ≤ a ∧ 0 ≤ b ∧ 0 ≤ c ∧ a + b + c ≤ 128) as (Ha & Hb & Hc & Hsum) by (unfold a, b, c; lia).
    assert (2 ^ (a + b + c) ≤ 2 ^ 128) as Hle by (apply Z.pow_le_mono_r; lia).
    rewrite !Z.pow_add_r in Hle by lia.
    assert (0 < 2 ^ a ∧ 0 < 2 ^ b ∧ 0 < 2 ^ c) as (Pa & Pb & Pc) by (repeat split; apply Z.pow_pos_nonneg; lia).
    assert ((high * 2 ^ b + 1) * 2 ^ c ≤ 2 ^ a * 2 ^ b * 2 ^ c); [|lia].
    apply Z.mul_le_mono_nonneg_r; [lia|]. nia.
Qed.

Lemma ip_address_sized s a : ip_address s = Some a → well_sized a.
Proof.
  unfold ip_address. case_match; [done|]. destruct (ipv4_of_chars _) as [n|] eqn:E4; [intros [= <-]; by apply ipv4_range in E4|].
  repeat case_match; try done; intros (n & Hn%ipv6_range & ->)%fmap_Some; done.
Qed.

(** ** What the blocked networks are *)
Lemma land_netmask n width len : 0 ≤ len ≤ width → 0 ≤ n < 2 ^ width → Z.land n (netmask width len) = n - n mod 2 ^ (width - len).
Proof.
  intros Hl Hn. assert (Z.land n (netmask width len) = Z.shiftl (Z.shiftr n (width - len)) (width - len)) as ->.
  - apply Z.bits_inj'. intros i Hi. unfold netmask. rewrite Z.land_spec, !Z.shiftl_spec by lia.
    destruct (Z.ltb_spec i (width - len)) as [Hlt|Hge].
    { rewrite !(Z.testbit_neg_r _ (i - (width - len))) by lia. by rewrite andb_false_r. }
    rewrite Z.shiftr_spec by lia. replace (i - (width - len) + (width - len)) with i by lia.
    destruct (Z.ltb_spec (i - (width - len)) len) as [Hin|Hout].
    + rewrite Z.ones_spec_low by lia. by rewrite andb_true_r.
    + rewrite Z.ones_spec_high by lia. rewrite andb_false_r. symmetry.
      rewrite <- (Z.mod_small n (2 ^ width)) by lia. apply Z.mod_pow2_bits_high. lia.
  - rewrite Z.shiftr_div_pow2, Z.shiftl_mul_pow2 by lia. rewrite (Z.mod_eq n (2 ^ (width - len))) by (apply Z.pow_nonzero; lia). lia.
Qed.

Lemma network_range n width len b :
  0 ≤ len ≤ width → 0 ≤ n < 2 ^ width → b mod 2 ^ (width - len) = 0 →
  Z.land n (netmask width len) = b ↔ b ≤ n < b + 2 ^ (width - len).
Proof.
  intros Hl Hn Hb. rewrite land_netmask by done. set (m := 2 ^ (width - len)) in *.
  assert (0 < m) as Hm by (apply Z.pow_pos_nonneg; lia).
  pose proof (Z.div_mod n m ltac:(lia)) as Hd. pose proof (Z.mod_pos_bound n m Hm) as Hr.
  pose proof (Z.div_mod b m ltac:(lia)) as Hdb. rewrite Hb in Hdb. split; [lia|]. intros Hin.
  assert (n / m = b / m) as Hq; [|lia]. symmetry. apply (Z.div_unique _ _ _ (n - b)); lia.
Qed.

(** The ranges, as numbers *)
Definition reserved (a : ip_addr) : Prop :=
  match a with
  | V4 n => 0x7f000000 ≤ n < 0x80000000 ∨ 0x0a000000 ≤ n < 0x0b000000 ∨ 0xac100000 ≤ n < 0xac200000 ∨
            0xc0a80000 ≤ n < 0xc0a90000 ∨ 0xa9fe0000 ≤ n < 0xa9ff0000 ∨ 0x64400000 ≤ n < 0x64800000 ∨ 0 ≤ n < 0x01000000
  | V6 n => n = 1 ∨ 0xfc00 * 2 ^ 112 ≤ n < 0xfe00 * 2 ^ 112 ∨ 0xfe80 * 2 ^ 112 ≤ n < 0xfec0 * 2 ^ 112 ∨
            0x64ff9b * 2 ^ 96 ≤ n < 0x64ff9b * 2 ^ 96 + 2 ^ 32
  end.

Lemma unwrap_sized a : well_sized a → well_sized (unwrap_mapped a).
Proof.
  destruct a as [n|n]; [done|]. cbn [well_sized unwrap_mapped]. intros Hn. destruct (ipv4_mapped n) as [m|] eqn:E; [|done].
  unfold ipv4_mapped in E. case_match; [|done]. injection E as <-. cbn.
  change 0xffffffff with (Z.ones 32). rewrite Z.land_ones by lia. by apply Z.mod_pos_bound.
Qed.

(** The network of the mapped addresses blocks nothing: they are unwrapped first. *)
Lemma mapped_network_is_dead a : well_sized a → in_network (unwrap_mapped a) (V6 (Z.shiftl 0xffff 32), 96) = false.
Proof.
  intros Ha. destruct a as [n|n]; [done|]. cbn [unwrap_mapped]. destruct (ipv4_mapped n) as [m|] eqn:E; [done|].
  unfold ipv4_mapped in E. case_match; [done|]. cbn [in_network]. apply Z.eqb_neq. intros Hl.
  apply network_range in Hl; [|lia|done|done]. rewrite Z.shiftr_div_pow2 in * by lia. case_bool.
  assert (n / 2 ^ 32 = 65535); [|done]. symmetry. change (Z.shiftl 65535 32) with (65535 * 2 ^ 32) in Hl.
  change (2 ^ (128 - 96)) with (2 ^ 32) in Hl. apply (Z.div_unique _ _ _ (n - 65535 * 2 ^ 32)); lia.
Qed.

Lemma blocked_networks_are_reserved a :
  well_sized a → existsb (in_network (unwrap_mapped a)) _BLOCKED_NETWORKS = true ↔ reserved (unwrap_mapped a).
Proof.
  intros Ha. pose proof (mapped_network_is_dead a Ha) as Hdead. pose proof (unwrap_sized a Ha) as Hs. revert Hdead Hs.
  generalize (unwrap_mapped a). clear. intros a Hdead Ha. unfold _BLOCKED_NETWORKS. cbn [existsb]. rewrite Hdead.
  destruct a as [n|n]; cbn [in_network reserved well_sized] in *; rewrite !orb_true_iff, !Z.eqb_eq, !network_range by (done || lia).
  - lia.
  - change (2 ^ (128 - 128)) with 1. split; intros H; rewrite ?Z.shiftl_mul_pow2 in * by lia; cbn in *; lia.
Qed.

(** C5. The guard blocks an address exactly if it does not parse or, an IPv4 address
    mapped into IPv6 unwrapped, lies in one of the eleven reserved ranges. *)
Theorem blocked_exactly ip_str :
  _is_ip_blocked ip_str = true ↔ ip_address ip_str = None ∨ ∃ a, ip_address ip_str = Some a ∧ reserved (unwrap_mapped a).
Proof.
  unfold _is_ip_blocked. destruct (ip_address ip_str) as [a|] eqn:E; [|naive_solver].
  rewrite blocked_networks_are_reserved by (by eapply ip_address_sized). naive_solver.
Qed.

(** ** Connections go where the guard looked *)
Lemma substring_prefix_length n s : (String.length (String.substring 0 n s) ≤ n)%nat.
Proof. revert s. induction n as [|n IH]; intros [|c s]; cbn; [lia..|]. specialize (IH s). lia. Qed.

Section pinned.
Context (urlparse : string → option (string * option string)) (urljoin : string → string → string) (addr_text : string → string).
Context (dns : nat → string → dns_answer) (client_host : string → string) (literal : string → bool).
Context (server : nat → string → http_reply) (decode : option string → list Ascii.ascii → string)
        (_extract_content : string → option string * string).

(** The client reads the host [urlparse] reads; [str] of an address parses back to it;
    and a host the client takes for a literal address although [ipaddress] does not
    (a decimal or shortened IPv4 address) is resolved by the system without DNS. *)
Record client_ok : Prop := {
  co_host : ∀ url scheme h, urlparse url = Some (scheme, Some h) → client_host url = h;
  co_text : ∀ h, is_Some (ip_address h) → ip_address (addr_text h) = ip_address h;
  co_numeric : ∀ h n m, literal h = true → ip_address h = None → dns n h = dns m h;
}.

Definition passed (ip : string) : Prop := _is_ip_blocked ip = false.

Lemma check_addresses_passed h infos ips l :
  check_addresses h infos ips = (None, l) → Forall passed ips → Forall passed l ∧ Forall passed infos.
Proof.
  revert ips. induction infos as [|ip infos IH]; intros ips; cbn; [by intros [= <-]|].
  destruct (_is_ip_blocked ip) eqn:Hb; [done|]. intros H Hips. apply IH in H as [Hl Hi].
  - split; [done|by apply Forall_cons].
  - case_bool_decide; [done|]. apply Forall_app. split; [done|by apply Forall_singleton].
Qed.

(** What a check that succeeds has seen *)
Definition vetted (url : string) (ips : list string) : Prop :=
  ∃ scheme h, urlparse url = Some (scheme, Some h) ∧ ips ≠ [] ∧ Forall passed ips ∧
    ((is_Some (ip_address h) ∧ ips = [addr_text h]) ∨
     (ip_address h = None ∧ ∃ n l, dns n h = Addresses l ∧ Forall passed l)).

(** The trace grew: at most [q] queries and [r] requests more, connecting only to
    addresses that passed *)
Definition extends (q r : nat) (s s' : Net) : Prop :=
  (queries s' ≤ queries s + q)%nat ∧ (requests s' ≤ requests s + r)%nat ∧
  ∃ new, connects s' = connects s ++ new ∧ Forall (λ c, passed c.2) new.

Lemma extends_refl q r s : extends q r s s.
Proof. split_and!; [lia..|]. exists []. by rewrite app_nil_r. Qed.

Lemma extends_trans q r q' r' s1 s2 s3 : extends q r s1 s2 → extends q' r' s2 s3 → extends (q + q') (r + r') s1 s3.
Proof.
  intros (H1 & H2 & n & H3 & H4) (H5 & H6 & m & H7 & H8). split_and!; [lia..|]. exists (n ++ m).
  rewrite H7, H3, app_assoc. split; [done|by apply Forall_app].
Qed.

Lemma extends_weaken q r q' r' s s' : (q ≤ q')%nat → (r ≤ r')%nat → extends q r s s' → extends q' r' s s'.
Proof. intros Hq Hr (H1 & H2 & H3). split_and!; [lia..|done]. Qed.

Lemma validate_spec url s :
  let '(v, s') := validate_url_with_ips urlparse addr_text dns url s in
  extends 1 0 s s' ∧ match v with Ok (None, ips) => vetted url ips | _ => True end.
Proof.
  unfold validate_url_with_ips. pose proof (extends_refl 1 0 s) as Hs.
  destruct (urlparse url) as [[scheme [h|]]|] eqn:Hu; [|by destruct (negb _)|done]. destruct (negb _); [done|]. destruct (is_empty h); [done|].
  case_bool_decide as Hip.
  - destruct (_is_ip_blocked _) eqn:Hb; [done|]. split; [done|]. exists scheme, h. split_and!; [done..|by apply Forall_singleton|].
    by left.
  - unfold getaddrinfo. set (s' := s <| queries ::= S |>).
    assert (extends 1 0 s s') as Hs' by (split_and!; [cbn; lia..|exists []; by rewrite app_nil_r]).
    destruct (dns (queries s) h) as [infos| |e] eqn:Hd; [|done..].
    destruct (check_addresses h infos []) as [[err|] ips] eqn:Hc; [done|]. destruct ips as [|ip ips]; [done|].
    split; [done|]. apply check_addresses_passed in Hc as [Hl Hi]; [|done]. exists scheme, h. split_and!; [done..|].
    right. split; [by apply eq_None_not_Some|by exists (queries s), infos].
Qed.

Lemma resolve_passed host ips h fam l : resolve host ips h fam = Some l → Forall passed ips → Forall passed l.
Proof.
  unfold resolve. destruct (negb _); [done|]. intros Hres Hips. assert (∀ P `{∀ x, Decision (P x)}, Forall passed (filter P ips)) as Hf.
  { intros P HP. apply Forall_forall. intros ip [_ Hin]%list_elem_of_filter. by apply (proj1 (Forall_forall _ _) Hips). }
  destruct (filter _ ips) as [|ip l'] eqn:E; [done|]. injection Hres as <-. rewrite <- E. apply Hf.
Qed.

Lemma send_extends url ips s (Hc : client_ok) :
  vetted url ips →
  extends 1 1 s (send_request dns client_host literal server url (url_host urlparse url) ips s).2.
Proof.
  intros (scheme & h & Hu & _ & Hips & Hh). unfold send_request, candidates. rewrite (co_host Hc _ _ _ Hu).
  assert (url_host urlparse url = h) as -> by (unfold url_host; by rewrite Hu).
  assert (∀ (s0 : Net) l, extends 1 0 s s0 → Forall passed l →
    extends 1 1 s (server (requests s0) url, s0 <| requests ::= S |> <| connects ::= λ c, c ++ map (pair h) l |>).2) as Hgo.
  { intros s0 l (Hq & Hr & new & Hn & Hp) Hl. split_and!; cbn; [lia..|]. exists (new ++ map (pair h) l).
    rewrite Hn, app_assoc. split; [done|]. apply Forall_app. split; [done|]. by apply Forall_fmap. }
  destruct (literal h) eqn:Hlit.
  - destruct (ip_address h) as [a|] eqn:Ha.
    + apply Hgo; [apply extends_refl|]. apply Forall_singleton. destruct Hh as [[_ ->]|[? _]]; [|done].
      rewrite Forall_singleton in Hips. pose proof (co_text Hc h ltac:(rewrite Ha; eauto)) as Ht.
      unfold passed, _is_ip_blocked in *. by rewrite Ht in Hips.
    + destruct Hh as [[[? ?] _]|[_ (n & l & Hd & Hl)]]; [done|]. unfold getaddrinfo.
      rewrite (co_numeric Hc h _ n Hlit Ha), Hd. apply Hgo; [|done]. split_and!; [cbn; lia..|exists []; by rewrite app_nil_r].
  - destruct (resolve h ips h AF_UNSPEC) as [l|] eqn:Hr; [|by apply extends_refl].
    apply Hgo; [apply extends_refl|]. by eapply resolve_passed.
Qed.

Lemma fetch_loop_extends hops url current_url ips s (Hc : client_ok) :
  vetted current_url ips →
  extends (2 * hops) hops s
    (fetch_loop urlparse urljoin addr_text dns client_host literal server decode hops url current_url ips s).2.
Proof.
  revert current_url ips s. induction hops as [|hops IH]; intros current_url ips s Hv; [apply extends_refl|].
  cbn [fetch_loop]. pose proof (send_extends current_url ips s Hc Hv) as Hs.
  destruct (send_request _ _ _ _ _ _ _ _) as [answer s1]. cbn [snd] in Hs.
  assert (extends (2 * S hops) (S hops) s s1) as Hend by (by eapply extends_weaken; [| |exact Hs]; lia).
  destruct answer as [resp| |]; [|done..]. case_match; [|by repeat case_match].
  destruct (rs_location resp) as [location|]; [|done]. case_match; [done|].
  pose proof (validate_spec (urljoin current_url location) s1) as Hval.
  destruct (validate_url_with_ips _ _ _ _ s1) as [v s2]. destruct Hval as [Hx Hv'].
  assert (extends 2 1 s s2) as H2 by (eapply (extends_trans 1 1 1 0); done).
  assert (extends (2 * S hops) (S hops) s s2) as Hend2 by (by eapply extends_weaken; [| |exact H2]; lia).
  destruct v as [[[err|] next_ips]|e]; [done| |done].
  eapply extends_weaken; [| |eapply extends_trans; [exact H2|by apply IH]]; lia.
Qed.

End pinned.

(** A guarded transport sends a request on only to an address that passed, under the
    name it was for; the only exception is one of the resolver's own. *)
Theorem transport_connects_to_checked urlparse addr_text dns request s :
  match (handle_async_request urlparse addr_text dns request s).1 with
  | Ok (inr sent) => passed (cr_host sent) ∧ cr_port sent = cr_port request ∧
      (sent = request ∨ cr_sni sent = Some (cr_host request))
  | Ok (inl message) => True
  | Raise e => ∃ n h, dns n h = DnsRaises e
  end.
Proof.
  unfold handle_async_request. destruct (is_empty _); [done|].
  pose proof (validate_spec urlparse addr_text dns (cr_url request) s) as Hval.
  assert (∀ e s', validate_url_with_ips urlparse addr_text dns (cr_url request) s = (Raise e, s') → ∃ n h, dns n h = DnsRaises e) as He.
  { unfold validate_url_with_ips, getaddrinfo. intros e s'. repeat case_match; try done; intros [= <- _]; eauto. }
  destruct (validate_url_with_ips _ _ _ _ s) as [[[[err|] ips]|e] s1]; destruct Hval as [_ Hv]; [done| |by eapply He].
  destruct Hv as (scheme & h & _ & Hne & Hips & _). destruct ips as [|ip ips]; [done|]. apply Forall_cons in Hips as [Hip _].
  destruct (String.eqb_spec ip (cr_host request)) as [Heq|Hne']; cbn; [rewrite <- Heq; by split_and!; [| |left]|by split_and!; [| |right]].
Qed.

(** ** A server that redirects inwards, and a name that rebinds *)
Module FetchDemo.
Definition parse (url : string) : option (string * option string) :=
  if bool_decide (url = "http://site.example/") then Some ("http", Some "site.example")
  else if bool_decide (url = "http://169.254.169.254/latest") then Some ("http", Some "169.254.169.254")
  else if bool_decide (url = "http://[::]:8080/") then Some ("http", Some "::")
  else None.
Definition client (url : string) : string := default "" (p ← parse url; p.2).
Definition join (base location : string) : string := location.
Definition literal (h : string) : bool := bool_decide (is_Some (ip_address h)).

(** The first query sees a public address, every later one the loopback. *)
Definition rebinding (n : nat) (h : string) : dns_answer :=
  match n with O => Addresses ["93.184.216.34"] | _ => Addresses ["127.0.0.1"] end.
Definition redirecting (n : nat) (url : string) : http_reply :=
  match n with
  | O => Replied (MkResponse 302 (Some "http://169.254.169.254/latest") None None [])
  | _ => Replied (MkResponse 200 None None None ["s"%char])
  end.
Definition page (n : nat) (url : string) : http_reply := Replied (MkResponse 200 None None None ["o"%char; "k"%char]).
Definition decode (charset : option string) (body : list Ascii.ascii) : string := String.string_of_list_ascii body.
Definition extract (html : string) : option string * string := (None, html).
Definition start : Net := MkNet 0 0 [].

Definition fetch (server : nat → string → http_reply) (url : string) : res FetchResult * Net :=
  http_fetch parse join id rebinding client literal server decode extract url 8000 start.

Lemma client_fits : client_ok parse id rebinding client literal.
Proof.
  split.
  - intros url scheme h Hu. unfold client. by rewrite Hu.
  - done.
  - intros h n m Hl Hn. unfold literal in Hl. rewrite Hn in Hl. apply bool_decide_eq_true in Hl as [? [=]].
Qed.


(** The connection goes to the address that was checked, though the name means the loopback by then. *)
Example rebinding_is_harmless :
  let '(r, s') := fetch page "http://site.example/" in
  (fr_content <$> r) = Ok "ok" ∧ rebinding (queries s') "site.example" = Addresses ["127.0.0.1"] ∧ connects s' = [("site.example", "93.184.216.34")].
Proof. vm_compute. repeat split; reflexivity. Qed.

(** The unspecified address is in no blocked network, unlike its IPv4 counterpart:
    most systems connect [::] to the local host. *)
Example unspecified_address_passes :
  _is_ip_blocked "::" = false ∧ _is_ip_blocked "0.0.0.0" = true ∧ _is_ip_blocked "::1" = true ∧
  connects (fetch page "http://[::]:8080/").2 = [("::", "::")].
Proof. vm_compute. repeat split; reflexivity. Qed.

(** 6to4 and Teredo addresses carry an IPv4 address as NAT64 ones do, but only NAT64 is blocked. *)
Example embedded_ipv4_addresses :
  _is_ip_blocked "64:ff9b::7f00:1" = true ∧ _is_ip_blocked "2002:7f00:1::" = false ∧ _is_ip_blocked "::ffff:127.0.0.1" = true ∧
  _is_ip_blocked "::ffff:8.8.8.8" = false.
Proof. vm_compute. repeat split; reflexivity. Qed.
End FetchDemo.
