(* ===== verification/McpServers.v ===== *)
(** * MCP servers of an organisation (mcp_client/)

    An organisation registers external MCP servers; their tools are discovered over
    cached sessions, wrapped under prefixed names and cached per organisation behind
    a version that every change advances.  Modelled: the table and its operations,
    the caches, the session pool with its authentication headers, discovery with the
    compare-and-swap of the inventory hash, and the aggregation of the wrappers.  A
    server that is switched off takes its marketplace tools with it
    (MarketTools.v).

    The theorems: after a server is removed no active tool of the organisation is
    backed by it and nobody is subscribed to one of them; an inventory hash is
    replaced only if it is the one the discovery started from; and wrappers are
    served from the cache only at the version they were built at.

    The remote servers, Fernet and pydantic's JSON text are parameters. *)

From S2P Require Export MarketTools Ssrf Canonical.

Record McpSettings := MkMcpSettings {
  max_org_mcp_servers : Z;
  is_production : bool;
  mcp_client_tool_cache_ttl_seconds : Z;
  max_mcp_tools_per_server : Z;
}.

(** A tool as a server lists it *)
Record RemoteTool := MkRemoteTool { rt_name : string; rt_description : string; rt_input : json; rt_output : option json }.

Definition _NAME_SEPARATOR : string := "__".

(** Arguments of a registration, and a partial update ([None]: not given) *)
Record CreateServer := MkCreateServer {
  cs_name : string; cs_url : string; cs_auth_type : string; cs_auth_token : option string; cs_auth_header : option string; cs_timeout : Z;
}.
Record UpdateServer := MkUpdateServer {
  us_name : option string; us_url : option string; us_auth_type : option string; us_auth_token : option (option string);
  us_auth_header : option (option string); us_timeout : option Z; us_is_active : option bool;
}.

(** ** The table *)
Definition server_row_ok (r : ServerRow) : bool :=
  bool_decide (sv_auth_type r ∈ ["none"; "bearer"; "header"]) && (1 <=? sv_timeout r) && (sv_timeout r <=? 60).

(** [UNIQUE (org_id, name)], switched-off servers included *)
Definition server_clashes (server_id : string) (r : ServerRow) (kv : string * ServerRow) : bool :=
  negb (String.eqb kv.1 server_id) && String.eqb (sv_org kv.2) (sv_org r) && String.eqb (sv_name kv.2) (sv_name r).

Definition write_server (server_id : string) (r : ServerRow) (d : ToolDb) : res (unit * ToolDb) :=
  if negb (server_row_ok r) then Raise CheckViolation
  else if existsb (server_clashes server_id r) (map_to_list (mcp_servers d)) then Raise UniqueViolation
  else if bool_decide (is_Some (orgs d !! sv_org r)) then Ok (tt, d <| mcp_servers ::= <[server_id := r]> |>)
  else Raise ForeignKeyViolation.

Definition insert_server (server_id : string) (r : ServerRow) (d : ToolDb) : res (unit * ToolDb) :=
  if server_row_ok r && bool_decide (is_Some (mcp_servers d !! server_id)) then Raise UniqueViolation else write_server server_id r d.

Definition server_of (server_id org_id : string) (d : ToolDb) : option ServerRow :=
  match mcp_servers d !! server_id with
  | Some r => if String.eqb (sv_org r) org_id then Some r else None
  | None => None
  end.

Definition update_server (server_id org_id : string) (f : ServerRow → ServerRow) (d : ToolDb) : res (option ServerRow * ToolDb) :=
  match server_of server_id org_id d with
  | Some r => '(_, d') ← write_server server_id (f r) d; Ok (Some (f r), d')
  | None => Ok (None, d)
  end.

(** [UPDATE ... SET is_active = FALSE, updated_at = NOW() WHERE id AND org_id AND is_active] *)
Definition deactivate_server_sql (server_id org_id : string) (now : Z) (d : ToolDb) : res (Z * ToolDb) :=
  match server_of server_id org_id d with
  | Some r =>
      if sv_active r then
        '(_, d') ← write_server server_id (r <| sv_active := false |> <| sv_updated_at := now |>) d; Ok (1, d')
      else Ok (0, d)
  | None => Ok (0, d)
  end.

Definition _row_to_model (server_id : string) (r : ServerRow) : OrgMcpServer :=
  MkOrgMcpServer server_id (sv_org r) (sv_name r) (sv_url r) (sv_auth_type r) (is_some (sv_auth_enc r)) (sv_auth_header r)
    (sv_active r) (sv_timeout r) (default "" (sv_schema_hash r)) (sv_schema_changed_at r) (sv_created_at r) (sv_updated_at r).

Section servers.
Context (cfg : ToolSettings) (mcfg : McpSettings) (supply : nat → string).
Context `{!TextCodec (list OrgTool), !TextCodec (list OrgMcpServer)}.
Context (fernet_encrypt : string → string → string) (fernet_decrypt : string → string → res string) (schema_md5 : json → string).
Context (urlparse : string → option (string * option string)) (addr_text : string → string) (dns : Z → string → dns_answer).

Definition decrypt_header_value (encrypted : string) : res string :=
  if is_empty (org_tool_encryption_key cfg) then Raise (RuntimeError "ORG_TOOL_ENCRYPTION_KEY is not set")
  else fernet_decrypt (org_tool_encryption_key cfg) encrypted.

(** ** Audit trail and caches *)
Definition record_server_event (org_id server_id name event_type actor_id detail : string) : TH unit :=
  catch
    (event_id ← uuid4 supply;
     stmt (λ _ d,
       if negb (bool_decide (event_type ∈ ["created"; "updated"; "deleted"; "connected"; "connection_failed"])) then Raise CheckViolation
       else if bool_decide (is_Some (server_events d !! event_id)) then Raise UniqueViolation
       else Ok (tt, d <| server_events ::= <[event_id := MkServerEvent org_id server_id name event_type detail actor_id]> |>)))
    (λ _, mret tt).

Definition list_org_mcp_servers (org_id : string) (active_only : bool) : TH (list OrgMcpServer) :=
  query (λ _ d,
    order_by (λ a b, String.leb (ms_server_name a) (ms_server_name b))
      ((λ kv : string * ServerRow, _row_to_model kv.1 kv.2) <$>
        filter (λ kv : string * ServerRow, String.eqb (sv_org kv.2) org_id && (negb active_only || sv_active kv.2)) (map_to_list (mcp_servers d)))).

Definition _get_server_cache (org_id : string) : CacheSpec ToolDb ToolExt (list OrgMcpServer) := {|
  redis_key := "teardrop:org_mcp_servers:" +:+ org_id;
  ttl_seconds := mcp_client_tool_cache_ttl_seconds mcfg;
  loader := servers ← list_org_mcp_servers org_id true; mret (Some servers);
  serialize := to_text;
  deserialize := of_text;
  cache_when := λ _, true;
  stale_default := None;
  slot := λ x, default empty_slot (_server_caches x !! org_id);
  set_slot := λ s x, x <| _server_caches ::= <[org_id := s]> |>;
|}.

Definition _get_servers_cached (org_id : string) : TH (list OrgMcpServer) :=
  servers ← cache_get (_get_server_cache org_id); mret (default [] servers).

(** [cache.reset()] forgets the in-process value only. *)
Definition refresh_mcp_servers (org_id : string) : TH (list OrgMcpServer) :=
  modify_ext (set_slot (_get_server_cache org_id) empty_slot);;
  servers ← cache_get (_get_server_cache org_id); mret (default [] servers).

Definition get_mcp_tools_cache_version (org_id : string) : TH (option Z) :=
  connected ← get_redis;
  if connected : bool then
    catch (external (λ _ x, (Ok (Some (default 0 (mcp_versions x !! org_id))), x))) (λ _, mret None)
  else mret None.

Definition invalidate_mcp_cache (org_id : string) : TH unit :=
  cache_invalidate (_get_server_cache org_id);;
  modify_ext (λ x, x <| _tools_cache ::= delete org_id |>);;
  connected ← get_redis;
  if connected : bool then
    catch (external (λ _ x, (Ok tt, x <| mcp_versions ::= λ m, <[org_id := default 0 (m !! org_id) + 1]> m |>))) (λ _, mret tt);;
    catch (redis_delete ("teardrop:org_mcp_tools:" +:+ org_id)) (λ _, mret tt)
  else mret tt.

(** ** Sessions (mcp_client/session.py) *)
Definition _evict_session (server_id : string) : TH unit := modify_ext (λ x, x <| mcp_sessions ::= delete server_id |>).

Definition _build_auth_headers (server : OrgMcpServer) : TH (list (string * string)) :=
  if negb (ms_has_auth server) then mret []
  else
    row ← query (λ _ d, mcp_servers d !! ms_server_id server);
    match (row : option ServerRow) with
    | Some r =>
        if truthy_str (sv_auth_enc r) then
          token ← lift (decrypt_header_value (default "" (sv_auth_enc r)));
          mret (if String.eqb (sv_auth_type r) "bearer" then [("Authorization", "Bearer " +:+ token)]
                else if String.eqb (sv_auth_type r) "header" && truthy_str (sv_auth_header r) then [(default "" (sv_auth_header r), token)]
                else [])
        else mret []
    | None => mret []
    end.

(** Connecting to a server, and what it lists *)
Context (connect : Z → string → list (string * string) → res unit) (remote_tools : Z → McpSession → res (list RemoteTool)).

(** [str(exc)] of a failed initialisation: a [TimeoutError] is written as a [RuntimeError]
    of that name, and its text is empty. *)
Definition timed_out (e : exn) : bool := bool_decide (exn_str e = "TimeoutError").
Definition connection_detail (e : exn) : string := if timed_out e then "" else exn_str e.

Definition _get_or_create_session (server : OrgMcpServer) : TH McpSession :=
  now ← datetime_now;
  x ← get_ext;
  let create :=
    headers ← _build_auth_headers server;
    catch (external (λ now x, (connect now (ms_url server) headers, x)))
      (λ exc, record_server_event (ms_server_org server) (ms_server_id server) (ms_server_name server) "connection_failed" ""
                (String.substring 0 200 (connection_detail exc));; raise exc);;
    now ← datetime_now;
    let session := MkMcpSession (ms_url server) headers (now + seconds (mcp_client_tool_cache_ttl_seconds mcfg)) in
    modify_ext (λ x, x <| mcp_sessions ::= <[ms_server_id server := session]> |>);;
    record_server_event (ms_server_org server) (ms_server_id server) (ms_server_name server) "connected" "" "";;
    mret session in
  match mcp_sessions x !! ms_server_id server with
  | Some session => if now <? ss_expires session then mret session else _evict_session (ms_server_id server);; create
  | None => create
  end.

(** ** The operations (mcp_client/crud.py) *)

(** [async_validate_url], then the scheme in production *)
Definition check_server_url (url : string) : TH unit :=
  url_error ← external (λ now x, ((validate_url urlparse addr_text (λ _, dns now) url (MkNet 0 0 [])).1, x));
  match (url_error : option string) with
  | Some e => raise (ValueError ("URL blocked: " +:+ e))
  | None => if is_production mcfg && negb (String.prefix "https://" url) then raise (ValueError "MCP server URL must use HTTPS in production") else mret tt
  end.

Definition active_servers (org_id : string) (d : ToolDb) : Z :=
  len (filter (λ kv : string * ServerRow, String.eqb (sv_org kv.2) org_id && sv_active kv.2) (map_to_list (mcp_servers d))).

Definition create_org_mcp_server (org_id : string) (c : CreateServer) (actor_id : string) : TH OrgMcpServer :=
  check_server_url (cs_url c);;
  count ← query (λ _, active_servers org_id);
  if max_org_mcp_servers mcfg <=? count then raise (ValueError ("MCP server limit reached (" +:+ pretty (max_org_mcp_servers mcfg) +:+ ")"))
  else
  server_id ← uuid4 supply;
  now ← datetime_now;
  auth_enc ← lift (if truthy_str (cs_auth_token c) then Some <$> encrypt_header_value cfg fernet_encrypt (default "" (cs_auth_token c)) else Ok None);
  catch_if is_unique_violation
    (stmt (λ _, insert_server server_id
       (MkServer org_id (cs_name c) (cs_url c) (cs_auth_type c) auth_enc (cs_auth_header c) true (cs_timeout c) None None now now)))
    (λ _, raise (ValueError ("MCP server '" +:+ cs_name c +:+ "' already exists for this organisation")));;
  record_server_event org_id server_id (cs_name c) "created" actor_id "";;
  invalidate_mcp_cache org_id;;
  mret (MkOrgMcpServer server_id org_id (cs_name c) (cs_url c) (cs_auth_type c) (is_some (cs_auth_token c)) (cs_auth_header c) true
          (cs_timeout c) "" None now now).

Definition get_org_mcp_server (server_id org_id : string) : TH (option OrgMcpServer) :=
  query (λ _ d, _row_to_model server_id <$> server_of server_id org_id d).

Definition get_mcp_server_by_id (server_id : string) : TH (option OrgMcpServer) :=
  query (λ _ d, match mcp_servers d !! server_id with Some r => if sv_active r then Some (_row_to_model server_id r) else None | None => None end).

(** The hash is replaced only if it is still the one the caller saw. *)
Definition swap_hash (server : OrgMcpServer) (schema_hash : string) (now : Z) (d : ToolDb) : res (bool * ToolDb) :=
  let seen := if is_empty (ms_schema_hash server) then None else Some (ms_schema_hash server) in
  match server_of (ms_server_id server) (ms_server_org server) d with
  | Some r => if bool_decide (sv_schema_hash r = seen) then
                Ok (true, d <| mcp_servers ::= <[ms_server_id server := r <| sv_schema_hash := Some schema_hash |> <| sv_schema_changed_at := Some now |>]> |>)
              else Ok (false, d)
  | None => Ok (false, d)
  end.

(** (updated, drifted); the caller's object is updated with the row *)
Definition record_mcp_server_schema_hash (server : OrgMcpServer) (schema_hash : string) : TH (bool * bool) :=
  if String.eqb (ms_schema_hash server) schema_hash then mret (false, false)
  else
    updated ← stmt (swap_hash server schema_hash);
    mret (if updated : bool then (true, negb (is_empty (ms_schema_hash server))) else (false, false)).

Definition update_server_sets (u : UpdateServer) : TH (list (ServerRow → ServerRow)) :=
  match us_url u with Some url => check_server_url url | None => mret tt end;;
  auth_enc ← lift (match us_auth_token u with
    | Some (Some v) => (λ e, Some (Some e)) <$> encrypt_header_value cfg fernet_encrypt v
    | Some None => Ok (Some None)
    | None => Ok None
    end);
  let set {A} (o : option A) (f : A → ServerRow → ServerRow) := match o with Some a => [f a] | None => [] end in
  mret (set (us_name u) (λ v r, r <| sv_name := v |>) ++ set (us_url u) (λ v r, r <| sv_url := v |>)
    ++ set (us_auth_type u) (λ v r, r <| sv_auth_type := v |>) ++ set (us_timeout u) (λ v r, r <| sv_timeout := v |>)
    ++ set (us_is_active u) (λ v r, r <| sv_active := v |>) ++ set (us_auth_header u) (λ v r, r <| sv_auth_header := v |>)
    ++ set auth_enc (λ v r, r <| sv_auth_enc := v |>)).

Definition update_org_mcp_server (server_id org_id actor_id : string) (u : UpdateServer) : TH (option OrgMcpServer) :=
  row ← query (λ _, server_of server_id org_id);
  match (row : option ServerRow) with
  | None => mret None
  | Some row =>
      sets ← update_server_sets u;
      match sets with
      | [] => mret (Some (_row_to_model server_id row))
      | _ =>
          now ← datetime_now;
          updated ← stmt (λ _, update_server server_id org_id (foldl (λ f g r, g (f r)) id (sets ++ [λ r, r <| sv_updated_at := now |>])));
          record_server_event org_id server_id (sv_name row) "updated" actor_id "";;
          _evict_session server_id;;
          invalidate_mcp_cache org_id;;
          (if bool_decide (us_is_active u = Some false) && sv_active row
           then _deactivate_dependent_marketplace_tools cfg supply schema_md5 server_id org_id else mret tt);;
          mret (_row_to_model server_id <$> updated)
      end
  end.

Definition delete_org_mcp_server (server_id org_id actor_id : string) : TH bool :=
  n ← stmt (deactivate_server_sql server_id org_id);
  if negb (updated_any n) then mret false
  else
    row ← query (λ _ d, mcp_servers d !! server_id);
    record_server_event org_id server_id (match (row : option ServerRow) with Some r => sv_name r | None => server_id end) "deleted" actor_id "";;
    _evict_session server_id;;
    invalidate_mcp_cache org_id;;
    _deactivate_dependent_marketplace_tools cfg supply schema_md5 server_id org_id;;
    mret true.

(** ** Discovery (mcp_client/runtime.py) *)
Context (float_repr : Z → positive → string).

Definition canonical_tool (tool : RemoteTool) : json :=
  JObj [("name", JStr (rt_name tool)); ("description", JStr (rt_description tool));
        ("input_schema", match rt_input tool with JObj kvs => JObj kvs | _ => JObj [] end);
        ("output_schema", match rt_output tool with Some (JObj kvs) => JObj kvs | _ => JNull end)].

Definition tool_key (tool : RemoteTool) : string * string :=
  (rt_name tool, String.string_of_list_ascii (dumps float_repr (canonical_tool tool))).

Definition tool_key_leb (a b : RemoteTool) : bool :=
  let '(n, t) := tool_key a in
  let '(n', t') := tool_key b in
  if String.eqb n n' then String.leb t t' else String.leb n n'.

Definition _mcp_tools_schema_hash (tools : list RemoteTool) : string :=
  hex (sha256 (dumps float_repr (JArr (map canonical_tool (order_by tool_key_leb tools))))).

Definition _track_mcp_schema_discovery (server : OrgMcpServer) (tools : list RemoteTool) : TH bool :=
  recorded ← catch (r ← record_mcp_server_schema_hash server (_mcp_tools_schema_hash tools); mret (Some r)) (λ _, mret None);
  match recorded with
  | None => mret false
  | Some (updated, schema_changed) =>
      (if updated : bool then catch (invalidate_mcp_cache (ms_server_org server)) (λ _, mret tt) else mret tt);;
      mret schema_changed
  end.

(** The first tools of the inventory, their schemas made dicts *)
Definition listed_tool (tool : RemoteTool) : RemoteTool :=
  MkRemoteTool (rt_name tool) (rt_description tool)
    (if truthy (rt_input tool) then rt_input tool else JObj [])
    (match rt_output tool with Some (JObj kvs) => Some (JObj kvs) | _ => None end).

Definition discover_mcp_tools_with_schema (server : OrgMcpServer) : TH (list RemoteTool * bool) :=
  session ← _get_or_create_session server;
  inventory ← external (λ now x, (remote_tools now session, x));
  let tools := map listed_tool (take (Z.to_nat (max_mcp_tools_per_server mcfg)) inventory) in
  drifted ← _track_mcp_schema_discovery server tools;
  mret (tools, drifted).

(** ** Aggregation: the names of the registry of built-in tools are given *)
Context (global_tool : string → bool).

Definition _wrap_mcp_tool (server : OrgMcpServer) (tool : RemoteTool) : res Wrapped :=
  _ ← build_pydantic_model (rt_input tool);
  Ok (MkWrapped (ms_server_name server +:+ _NAME_SEPARATOR +:+ rt_name tool) (ms_server_id server) (rt_name tool)
        (if is_empty (rt_description tool) then "Tool from MCP server '" +:+ ms_server_name server +:+ "'" else rt_description tool)).

Definition wrap_discovered (server : OrgMcpServer) (all_tools : list Wrapped) (tool : RemoteTool) : list Wrapped :=
  let prefixed_name := ms_server_name server +:+ _NAME_SEPARATOR +:+ rt_name tool in
  if global_tool (rt_name tool) then all_tools
  else if bool_decide (prefixed_name ∈ wr_name <$> all_tools) then all_tools
  else match _wrap_mcp_tool server tool with Ok w => all_tools ++ [w] | Raise _ => all_tools end.

Definition _build_mcp_tools_for_servers (servers : list OrgMcpServer) : TH (list Wrapped) :=
  for_each servers [] (λ all_tools server,
    discovered ← catch (r ← discover_mcp_tools_with_schema server; mret (Some r.1)) (λ _, mret None);
    match discovered with
    | Some tools => mret (foldl (wrap_discovered server) all_tools tools)
    | None => mret all_tools
    end).

Definition _get_current_tools_cache (org_id : string) : TH (option (list Wrapped)) :=
  now ← datetime_now;
  x ← get_ext;
  match _tools_cache x !! org_id with
  | None => mret None
  | Some cached =>
      if ts_expires cached <=? now then mret None
      else
        shared_version ← get_mcp_tools_cache_version org_id;
        if is_some shared_version && negb (bool_decide (shared_version = ts_version cached)) then
          modify_ext (λ x, x <| _tools_cache ::= delete org_id |>);; mret None
        else mret (Some (ts_tools cached))
  end.

(** Build, and cache unless the version moved meanwhile; a second attempt, then uncached *)
Fixpoint build_attempts (attempts : nat) (org_id : string) (last : list Wrapped) : TH (list Wrapped) :=
  match attempts with
  | O => mret last
  | S attempts =>
      cache_version_before ← get_mcp_tools_cache_version org_id;
      servers ← (if is_some cache_version_before then refresh_mcp_servers org_id else _get_servers_cached org_id);
      all_tools ← _build_mcp_tools_for_servers servers;
      cache_version_after ← get_mcp_tools_cache_version org_id;
      if bool_decide (cache_version_before = cache_version_after) then
        now ← datetime_now;
        modify_ext (λ x, x <| _tools_cache ::= <[org_id := MkToolSet all_tools (now + seconds (mcp_client_tool_cache_ttl_seconds mcfg)) cache_version_after]> |>);;
        mret all_tools
      else build_attempts attempts org_id all_tools
  end.

Definition build_mcp_langchain_tools (org_id : string) : TH (list Wrapped) :=
  cached_tools ← _get_current_tools_cache org_id;
  match cached_tools with
  | Some tools => mret tools
  | None =>
      yield_point;;
      cached_tools ← _get_current_tools_cache org_id;
      match cached_tools with
      | Some tools => mret tools
      | None => build_attempts 2 org_id []
      end
  end.

(** ** Calling a wrapped tool *)

(** What a call of the remote tool brings: a payload, a timeout or another failure *)
Inductive call_outcome := Payload (j : json) | CallTimeout | CallFails (name : string).
Context (call_tool : Z → McpSession → string → json → call_outcome).

(** [type(exc).__name__] *)
Definition exn_type (e : exn) : string :=
  match e with
  | ValueError _ => "ValueError" | RuntimeError _ => "RuntimeError" | TypeError _ => "TypeError" | KeyError _ => "KeyError"
  | IndexError _ => "IndexError" | AttributeError _ => "AttributeError" | UniqueViolation => "UniqueViolation"
  | CheckViolation => "CheckViolation" | ForeignKeyViolation => "ForeignKeyViolation" | DataError => "DataError"
  | ConnectionError => "ConnectionError" | SettlementClaimLostError _ => "SettlementClaimLostError"
  end.

(** The [TimeoutError] of the session's initialisation is written as a [RuntimeError] of that text. *)
Definition failed_session (e : exn) : call_outcome :=
  if bool_decide (exn_str e = "TimeoutError") then CallTimeout else CallFails (exn_type e).

Definition call_error (message : string) : json := JObj [("error", JStr message)].

(** The closure of [build_mcp_backed_tool]; [on_failure] gets the kind of error and whether
    the breaker tripped. *)
Definition _call_mcp_tool (load : TH (option OrgMcpServer)) (tool_id : option string) (remote_name : string)
    (on_success : TH unit) (on_failure : string → bool → TH unit) (kwargs : json) : TH json :=
  tripped ← match tool_id with Some t => if is_empty t then mret false else is_breaker_tripped cfg t | None => mret false end;
  if tripped : bool then mret (call_error "Tool temporarily unavailable (circuit breaker tripped)")
  else
    let handle_failure (error_type message : string) : TH json :=
      tripped ← match tool_id with Some t => if is_empty t then mret false else record_failure cfg t | None => mret false end;
      on_failure error_type tripped;;
      mret (call_error message) in
    server ← catch (s ← load; mret (inl s)) (λ e, mret (inr e));
    match (server : option OrgMcpServer + exn) with
    | inr e => handle_failure "server_lookup_failed" ("MCP server lookup failed: " +:+ exn_type e)
    | inl None => handle_failure "server_unavailable" "MCP server unavailable"
    | inl (Some server) =>
        outcome ← catch (session ← _get_or_create_session server;
                         external (λ now x, (Ok (call_tool now session remote_name kwargs), x)))
                        (λ e, mret (failed_session e));
        match outcome with
        | CallTimeout => handle_failure "timeout" ("MCP tool '" +:+ remote_name +:+ "' timed out after " +:+ pretty (ms_timeout server) +:+ "s")
        | CallFails name => handle_failure "upstream_error" ("MCP tool '" +:+ remote_name +:+ "' failed: " +:+ name)
        | Payload payload =>
            match tool_id with Some t => if is_empty t then mret tt else record_success cfg t | None => mret tt end;;
            on_success;;
            mret payload
        end
    end.
End servers.

(** ** Quiet steps that leave the tables alone *)
Definition same_tables (d d' : ToolDb) : Prop :=
  orgs d' = orgs d ∧ subs d' = subs d ∧ org_tools d' = org_tools d ∧ mcp_servers d' = mcp_servers d.

(** Without faults [m] returns a value and only caches, sessions and audit events change. *)
Definition calm_quiet {A} (m : TH A) : Prop :=
  ∀ w, wpq m (λ r w', (∃ a, r = Ok a) ∧ same_tables (db w) (db w') ∧ tx_now w' = tx_now w) w.

(** The same, but it may raise. *)
Definition tables_quiet {A} (m : TH A) : Prop :=
  ∀ w, wpq m (λ r w', same_tables (db w) (db w') ∧ tx_now w' = tx_now w) w.

(** The schedule is still exhausted. *)
Lemma wpq_is_quiet {D X A} (m : M D X A) Q w : (quiet w → wpq m Q w) → wpq m Q w.
Proof. intros Hm Hq. by apply Hm. Qed.

Lemma same_tables_trans d1 d2 d3 : same_tables d1 d2 → same_tables d2 d3 → same_tables d1 d3.
Proof. intros (?&?&?&?) (?&?&?&?). split_and!; congruence. Qed.

Lemma calm_ret {A} (a : A) : calm_quiet (mret a).
Proof. intros w. apply wpq_ret. split_and!; eauto; done. Qed.

Lemma calm_bind {A B} (m : TH A) (f : A → TH B) : calm_quiet m → (∀ a, calm_quiet (f a)) → calm_quiet (m ≫= f).
Proof.
  intros Hm Hf w. apply wpq_bind. eapply wpq_mono; [apply Hm|]. intros r w' ([a ->] & Ht & Hn).
  eapply wpq_mono; [apply Hf|]. intros r w'' (? & Ht' & Hn'). split_and!; [done|by eapply same_tables_trans|congruence].
Qed.

Lemma tables_bind {A B} (m : TH A) (f : A → TH B) : tables_quiet m → (∀ a, tables_quiet (f a)) → tables_quiet (m ≫= f).
Proof.
  intros Hm Hf w. apply wpq_bind. eapply wpq_mono; [apply Hm|]. intros [a|e] w' (Ht & Hn); [|done].
  eapply wpq_mono; [apply Hf|]. intros r w'' (Ht' & Hn'). split; [by eapply same_tables_trans|congruence].
Qed.

Lemma calm_catch {A} (m : TH A) h : tables_quiet m → (∀ e, calm_quiet (h e)) → calm_quiet (catch m h).
Proof.
  intros Hm Hh w. apply wpq_catch. eapply wpq_mono; [apply Hm|]. intros [a|e] w' (Ht & Hn); [split_and!; eauto|].
  eapply wpq_mono; [apply Hh|]. intros r w'' (? & Ht' & Hn'). split_and!; [done|by eapply same_tables_trans|congruence].
Qed.

Lemma calm_tables {A} (m : TH A) : calm_quiet m → tables_quiet m.
Proof. intros Hm w. eapply wpq_mono; [apply Hm|]. by intros r w' (_ & ? & ?). Qed.

Lemma calm_query {A} (f : Z → ToolDb → A) : calm_quiet (query f).
Proof. intros w. apply wpq_query. split_and!; eauto; done. Qed.
Lemma calm_modify f : calm_quiet (modify_ext f).
Proof. intros w. apply wpq_modify_ext. split_and!; eauto; done. Qed.
Lemma calm_get : calm_quiet get_ext.
Proof. intros w. apply wpq_get_ext. split_and!; eauto; done. Qed.
Lemma calm_uuid supply : calm_quiet (uuid4 supply).
Proof. intros w. apply wpq_uuid4. split_and!; eauto; done. Qed.
Lemma tables_external {A} (f : Z → ToolExt → res A * ToolExt) : tables_quiet (external f).
Proof. intros w. apply wpq_external. by destruct (f _ _). Qed.

Lemma calm_for_each {A B} (l : list A) (acc : B) body : (∀ acc a, calm_quiet (body acc a)) → calm_quiet (for_each l acc body : TH B).
Proof. intros Hb. revert acc. induction l as [|a l IH]; intros acc; [apply calm_ret|]. by apply calm_bind. Qed.

Create HintDb calm.
#[export] Hint Resolve calm_ret calm_query calm_modify calm_get calm_uuid tables_external : calm.

Ltac calm_step :=
  cbv beta iota;
  lazymatch goal with
  | |- calm_quiet (mbind _ _) => apply calm_bind; [|intros ?]
  | |- calm_quiet (catch _ _) => apply calm_catch; [|intros ?]
  | |- calm_quiet (for_each _ _ _) => apply calm_for_each; intros ??
  | |- calm_quiet (if ?b then _ else _) => destruct b
  | |- calm_quiet (match ?x with _ => _ end) => destruct x
  | |- tables_quiet (mbind _ _) => apply tables_bind; [|intros ?]
  | |- tables_quiet (mret _) => apply calm_tables
  | |- tables_quiet (uuid4 _) => apply calm_tables
  | |- tables_quiet (for_each _ _ _) => apply calm_tables
  end.
Ltac calmly := repeat (intros; first [done | solve [eauto 2 with calm nocore] | calm_step]).

Lemma calm_cache_invalidate {T} (c : CacheSpec ToolDb ToolExt T) : calm_quiet (cache_invalidate c).
Proof. unfold cache_invalidate, get_redis, redis_delete. calmly. Qed.

Section quiet.
Context (cfg : ToolSettings) (mcfg : McpSettings) (supply : nat → string).
Context `{!TextCodec (list OrgTool), !TextCodec (list OrgMcpServer)} (schema_md5 : json → string).

Lemma calm_event org t name type actor detail : calm_quiet (_record_event supply org t name type actor detail).
Proof.
  unfold _record_event, insert_audit_row. calmly. intros w. apply wpq_stmt. repeat case_match; simplify_eq; done.
Qed.

Lemma calm_server_event org s name type actor detail : calm_quiet (record_server_event supply org s name type actor detail).
Proof. unfold record_server_event. calmly. intros w. apply wpq_stmt. repeat case_match; simplify_eq; done. Qed.

Lemma calm_org_cache org : calm_quiet (invalidate_org_tools_cache cfg schema_md5 org).
Proof. apply calm_cache_invalidate. Qed.

Lemma calm_market_cache : calm_quiet invalidate_marketplace_cache.
Proof.
  unfold invalidate_marketplace_cache, _invalidate_all_org_tool_price_cache, get_redis, redis_delete. calmly.
Qed.

Lemma calm_mcp_cache org : calm_quiet (invalidate_mcp_cache mcfg org).
Proof.
  unfold invalidate_mcp_cache. apply calm_bind; [apply calm_cache_invalidate|]. unfold get_redis, redis_delete. calmly.
Qed.

(** ** A server that goes takes its tools along *)
Context (slug_of : string → option string).

Lemma switch_off_ok now t r d :
  market_inv slug_of d → tool_by_id t d = Some r →
  write_tool t (switched_off now r) d = Ok (tt, d <| org_tools ::= <[t := switched_off now r]> |>).
Proof.
  intros Hd Hr. destruct (mi_rows _ _ Hd t r Hr) as [Hok Ho]. unfold write_tool.
  assert (tool_row_ok (switched_off now r) = true) as ->.
  { unfold tool_row_ok, switched_off in *. cbn. rewrite !andb_true_iff in *. destruct Hok as [[[[[[[? ?] ?] ?] ?] ?] ?] ?]. split_and!; done. }
  cbn [negb]. change (t_active (switched_off now r)) with false. cbn [andb].
  change (t_org (switched_off now r)) with (t_org r). change (t_mcp_server_id (switched_off now r)) with (t_mcp_server_id r).
  rewrite bool_decide_true by done. destruct (t_mcp_server_id r) as [s|] eqn:Hs; [|done].
  by rewrite bool_decide_true by (by apply (mi_backing _ _ Hd t r s)).
Qed.

(** An automatic deactivation, when nothing fails *)
Lemma auto_quiet t r o actor event reason w :
  tx_now w = None → market_inv slug_of (db w) → tool_by_id t (db w) = Some r → t_active r = true → orgs (db w) !! t_org r = Some o →
  wpq (auto_deactivate_tool_for_health cfg supply schema_md5 t None actor event reason) (λ res w',
    res = Ok tt ∧ tx_now w' = None ∧ orgs (db w') = orgs (db w) ∧ mcp_servers (db w') = mcp_servers (db w) ∧
    (∃ now, org_tools (db w') = <[t := switched_off now r]> (org_tools (db w))) ∧
    subs (db w') = if t_published r then subs (unsubscribe_all (qualify (slug o) (t_name r)) (db w)) else subs (db w)) w.
Proof.
  intros Hn Hd Hr Ha Ho. unfold auto_deactivate_tool_for_health. apply wpq_bind, wpq_query. rewrite Hr, Ha. cbn [negb].
  apply wpq_bind, wpq_stmt. unfold deactivate_sql. rewrite Hr, Ha. cbn [andb]. rewrite (switch_off_ok _ t r _ Hd Hr). cbn [mbind res_bind].
  change (negb (updated_any 1)) with false. cbv iota.
  set (w1 := w <| db := _ |>). assert (orgs (db w1) = orgs (db w) ∧ subs (db w1) = subs (db w) ∧ mcp_servers (db w1) = mcp_servers (db w) ∧
    org_tools (db w1) = <[t := switched_off (sql_now w) r]> (org_tools (db w)) ∧ tx_now w1 = None) as (E1 & E2 & E3 & E4 & E5) by done.
  apply wpq_bind. eapply wpq_mono; [apply calm_event|]. intros x w2 ([? ->] & (F1 & F2 & F3 & F4) & F5).
  apply wpq_bind. eapply wpq_mono; [apply calm_org_cache|]. intros x w3 ([? ->] & (G1 & G2 & G3 & G4) & G5).
  destruct (t_published r) eqn:Hp; cbn [negb]; [|apply wpq_ret; split_and!; [done|congruence|congruence|congruence|exists (sql_now w); congruence|congruence]].
  apply wpq_bind. eapply wpq_mono; [apply calm_market_cache|]. intros x w4 ([? ->] & (I1 & I2 & I3 & I4) & I5).
  apply wpq_bind, wpq_bind, wpq_query. assert (orgs (db w4) !! t_org r = Some o) as -> by congruence.
  apply wpq_ret. cbn [fmap option_fmap option_map]. apply wpq_bind, wpq_stmt. unfold schedule_notification. apply wpq_modify_ext.
  split_and!; [done|cbn; congruence|cbn; congruence|cbn; congruence|exists (sql_now w); cbn; congruence|]. cbn. assert (subs (db w4) = subs (db w)) as -> by congruence. done.
Qed.

(** The tools a server backs, all switched off one after the other *)
Lemma cascade_quiet actor event reason (rows : list (string * ToolRow)) w :
  quiet w → tx_now w = None → market_inv slug_of (db w) → NoDup rows.*1 →
  (∀ kv : string * ToolRow, kv ∈ rows → tool_by_id kv.1 (db w) = Some kv.2 ∧ t_active kv.2 = true) →
  wpq (for_each rows tt (λ _ kv, catch (auto_deactivate_tool_for_health cfg supply schema_md5 kv.1 None actor event reason) (λ _, mret tt)))
    (λ res w', res = Ok tt ∧
       (∀ t r, tool_by_id t (db w') = Some r → t_active r = true → tool_by_id t (db w) = Some r ∧ t ∉ rows.*1) ∧
       (∀ (kv : string * ToolRow) o, kv ∈ rows → t_published kv.2 = true → orgs (db w) !! t_org kv.2 = Some o → unsubscribed (qualify (slug o) (t_name kv.2)) (db w')) ∧
       (∀ q, unsubscribed q (db w) → unsubscribed q (db w'))) w.
Proof.
  revert w. induction rows as [|[t r] rows IH]; intros w Hq Hn Hd Hnd Hrows.
  { apply wpq_ret. split_and!; [done|intros t r Hr _; split; [done|by apply not_elem_of_nil]|intros kv o H; by apply elem_of_nil in H|done]. }
  apply NoDup_cons in Hnd as [Hnin Hnd]. destruct (Hrows (t, r) ltac:(by left)) as [Hr Ha].
  destruct (mi_rows _ _ Hd t r Hr) as [_ [o Ho]]. simpl for_each. apply wpq_bind, wpq_catch.
  pose proof (auto_quiet t r o actor event reason w Hn Hd Hr Ha Ho Hq) as Hauto.
  assert (good (on_market slug_of) w) as Hgood by (split_and!; [done|done|rewrite Hq; by apply Forall_nil]).
  pose proof (keeps_auto cfg supply schema_md5 (on_market slug_of) (market_steady slug_of) t None actor event reason w Hgood) as Hkeep.
  intros _. cbn [fst]. destruct (auto_deactivate_tool_for_health _ _ _ _ _ _ _ _ w) as [res w1].
  destruct Hauto as (Hq1 & -> & Hn1 & Ho1 & Hs1 & (now & Ht1) & Hsub1). destruct Hkeep as ((_ & Hd1 & _) & _ & _).
  assert (∀ q, unsubscribed q (db w) → unsubscribed q (db w1)) as Hmono.
  { intros q Hun. unfold unsubscribed. rewrite Hsub1. destruct (t_published r); [by apply drop_unsubscribed|done]. }
  assert (∀ t' r', tool_by_id t' (db w1) = Some r' → (t' = t ∧ r' = switched_off now r) ∨ (t' ≠ t ∧ tool_by_id t' (db w) = Some r')) as Hlook.
  { intros t' r'. unfold tool_by_id. rewrite Ht1. intros [[<- <-]|[Hne Hin]]%lookup_insert_Some; [by left|right; by split]. }
  split; [done|]. eapply wpq_mono; [apply (IH w1 Hq1 Hn1 Hd1 Hnd)|].
  2: intros res w2 (-> & Hact & Hun & Hm); split_and!; [done| | |auto].
  - intros kv Hin. destruct (Hrows kv ltac:(by right)) as [H1 H2]. split; [|done]. unfold tool_by_id in *. rewrite Ht1, lookup_insert_ne; [done|].
    intros ->. apply Hnin. apply list_elem_of_fmap. by exists kv.
  - intros t' r' Hr' Ha'. destruct (Hact t' r' Hr' Ha') as [H1 Hnot]. destruct (Hlook t' r' H1) as [[-> ->]|[Hne H2]]; [done|].
    split; [done|]. by apply not_elem_of_cons.
  - intros kv o' [->|Hin]%elem_of_cons Hp Ho'; [|by apply Hun; [| |rewrite Ho1]]. cbn in Hp, Ho'. assert (o' = o) as -> by congruence.
    apply Hm. unfold unsubscribed. rewrite Hsub1. cbn [snd] in *. rewrite Hp. apply unsubscribe_all_done.
Qed.

(** The deactivation of the server's row goes through. *)
Definition server_ok (s : string) (r : ServerRow) (d : ToolDb) : Prop :=
  server_row_ok r = true ∧ is_Some (orgs d !! sv_org r) ∧ existsb (server_clashes s r) (map_to_list (mcp_servers d)) = false.

End quiet.

(** ** Wrapped tools and their cache *)
Section wrappers.
Context (cfg : ToolSettings) (mcfg : McpSettings) (supply : nat → string).
Context `{!TextCodec (list OrgTool), !TextCodec (list OrgMcpServer)} (schema_md5 : json → string).
Context (fernet_decrypt : string → string → res string) (float_repr : Z → positive → string).
Context (connect : Z → string → list (string * string) → res unit) (remote_tools : Z → McpSession → res (list RemoteTool)).
Context (global_tool : string → bool).

(** Names are distinct and prefixed, and no tool goes by the name of a built-in one. *)
Definition wrapped_ok (servers : list OrgMcpServer) (tools : list Wrapped) : Prop :=
  NoDup (wr_name <$> tools) ∧
  ∀ t, t ∈ tools → global_tool (wr_remote t) = false ∧
    ∃ s, s ∈ servers ∧ wr_server t = ms_server_id s ∧ wr_name t = ms_server_name s +:+ _NAME_SEPARATOR +:+ wr_remote t.

Lemma wrap_discovered_ok servers s acc tool :
  s ∈ servers → wrapped_ok servers acc → wrapped_ok servers (wrap_discovered global_tool s acc tool).
Proof.
  intros Hs [Hnd Hall]. unfold wrap_discovered. destruct (global_tool _) eqn:Hg; [done|]. case_bool_decide as Hin; [done|].
  unfold _wrap_mcp_tool. destruct (build_pydantic_model _); cbn [mbind res_bind]; [|done]. split.
  - rewrite fmap_app. apply NoDup_app. split_and!; [done| |apply NoDup_singleton]. by intros x Hx ->%list_elem_of_singleton.
  - intros t [Ht| ->%list_elem_of_singleton]%elem_of_app; [by apply Hall|]. cbn. split; [done|]. by exists s.
Qed.

Lemma for_each_result {A B} (l : list A) (acc : B) (body : B → A → TH B) (P : B → Prop) w :
  P acc → (∀ acc a w, a ∈ l → P acc → match (body acc a w).1 with Ok b => P b | Raise _ => False end) →
  match (for_each l acc body w).1 with Ok b => P b | Raise _ => False end.
Proof.
  revert acc w. induction l as [|a l IH]; intros acc w HP Hb; [done|]. simpl. unfold mbind, M_bind.
  pose proof (Hb acc a w ltac:(by left) HP) as Hr. destruct (body acc a w) as [[b|e] w']; [|done].
  apply IH; [done|]. intros. apply Hb; [by right|done].
Qed.

Lemma guarded_result {A} (m : TH (option A)) w : ∃ d, (catch m (λ _, mret None) w).1 = Ok d.
Proof. unfold catch. destruct (m w) as [[d|e] w']; [by exists d|by exists None]. Qed.

(** Whatever the servers list, and whichever of them fail, the aggregation returns, its
    wrappers have distinct prefixed names, and each belongs to a server asked. *)
Theorem aggregated_wrappers_ok servers w :
  match (_build_mcp_tools_for_servers cfg mcfg supply fernet_decrypt connect remote_tools float_repr global_tool servers w).1 with
  | Ok tools => wrapped_ok servers tools
  | Raise _ => False
  end.
Proof.
  apply for_each_result; [split; [by apply NoDup_nil|by intros t ?%elem_of_nil]|]. intros acc s w0 Hs Hacc.
  assert (∀ tools, wrapped_ok servers (foldl (wrap_discovered global_tool s) acc tools)) as Hfold.
  { intros tools. revert acc Hacc. induction tools as [|t tools IH]; intros acc Hacc; [done|]. by apply IH, wrap_discovered_ok. }
  change (match (mbind (λ d, match d with Some tools => mret (foldl (wrap_discovered global_tool s) acc tools) | None => mret acc end)
      (catch (mbind (λ r, mret (Some r.1)) (discover_mcp_tools_with_schema cfg mcfg supply fernet_decrypt connect remote_tools float_repr s)) (λ _, mret None)) w0).1
    with Ok tools => wrapped_ok servers tools | Raise _ => False end).
  unfold mbind at 1, M_bind at 1. pose proof (guarded_result (mbind (λ r, mret (Some r.1)) (discover_mcp_tools_with_schema cfg mcfg supply fernet_decrypt connect remote_tools float_repr s)) w0) as [d Hd].
  destruct (catch _ _ w0) as [res w1]. cbn in Hd. subst res. destruct d; [apply Hfold|exact Hacc].
Qed.

(** Two discoveries that started from the same hash: once one of them has replaced it,
    the other no longer does, whatever it found. *)
Theorem stale_discovery_keeps_the_hash server h1 h2 now now' d d' :
  ms_schema_hash server ≠ h1 →
  swap_hash server h1 now d = Ok (true, d') → swap_hash server h2 now' d' = Ok (false, d').
Proof.
  intros Hne. unfold swap_hash, server_of. destruct (mcp_servers d !! ms_server_id server) as [r|] eqn:Hr; [|done].
  destruct (String.eqb (sv_org r) _) eqn:Ho; [|done]. case_bool_decide; [|done]. intros [= <-]. cbn. rewrite lookup_insert, decide_True by done. cbn.
  rewrite Ho, bool_decide_false; [done|]. destruct (is_empty (ms_schema_hash server)); naive_solver.
Qed.

(** Wrappers served from the cache are those cached, before they expire, and while Redis
    answers they are of the organisation's current version. *)
Theorem cached_wrappers_are_current org tools w : quiet w →
  (_get_current_tools_cache org w).1 = Ok (Some tools) →
  ∃ c, _tools_cache (ext w) !! org = Some c ∧ tools = ts_tools c ∧ clock w < ts_expires c ∧
       (is_Some (tool_redis (ext w)) → ts_version c = Some (default 0 (mcp_versions (ext w) !! org))).
Proof.
  intros Hq. unfold _get_current_tools_cache, get_mcp_tools_cache_version, get_redis. unfold mbind, M_bind, datetime_now, get_ext. cbn -[external catch].
  destruct (_tools_cache (ext w) !! org) as [c|] eqn:Hc; [|done]. destruct (Z.leb_spec (ts_expires c) (clock w)); [done|].
  unfold quiet in Hq. case_bool_decide as Hr; cbn -[external catch]; [unfold catch, external, next_event; rewrite Hq; cbn|].
  - case_bool_decide as Hv; cbn; [|done]. intros [= <-]. exists c. split_and!; [done..|lia|]. intros _. congruence.
  - intros [= <-]. exists c. split_and!; [done..|lia|]. by intros.
Qed.
End wrappers.

(** ** Concrete servers *)
Module ServerDemo.
Import MarketDemo.
Definition mcfg : McpSettings := MkMcpSettings 2 true 60 100.
#[local] Instance no_tool_codec : TextCodec (list OrgTool) := {| to_text _ := ""; of_text _ := Raise (ValueError "text") |}.
#[local] Instance no_server_codec : TextCodec (list OrgMcpServer) := {| to_text _ := ""; of_text _ := Raise (ValueError "text") |}.

Definition acme_server : ServerRow := MkServer "acme" "maps" "https://maps.example/mcp" "none" None None true 15 None None 0 0.
Definition backed_weather : ToolRow := (weather true) <| t_info ::= λ i, i <| t_mcp_server_id := Some "srv" |> <| t_mcp_tool_name := Some "forecast" |> |>.
Definition with_server : ToolDb := d0 <| mcp_servers := {[ "srv" := acme_server ]} |> <| org_tools := {[ "t1" := backed_weather ]} |>.
Definition remove := delete_org_mcp_server cfg mcfg supply md5 "srv" "acme" "alice".
Definition tool_active (d : ToolDb) : option bool := t_active <$> (t_info <$> tool_by_id "t1" d).

Lemma with_server_ok : market_inv slug_of with_server.
Proof.
  destruct d0_ok as [H1 H2 H3 H4 H5 H6]. split; [exact H1| | | |exact H5|exact H6].
  - intros t r H. unfold with_server, tool_by_id in H. cbn in H. apply lookup_singleton_Some in H as [<- <-]. split; [done|by eexists].
  - intros t r s H. unfold with_server, tool_by_id in H. cbn in H. apply lookup_singleton_Some in H as [<- <-]. intros [= <-]. by eexists.
  - intros t t' r r' H H'. unfold with_server, tool_by_id in H, H'. cbn in H, H'. apply lookup_singleton_Some in H as [<- _], H' as [<- _]. done.
Qed.


(** The statement that reads the server's name back fails after the server was switched
    off: its tool stays on the marketplace, and removing the server again finds nothing. *)
Example failed_removal_strands_tools :
  let '(r, w) := remove (world [ok; failing] with_server) in
  r = Raise ConnectionError ∧ (sv_active <$> mcp_servers (db w) !! "srv") = Some false ∧
  let '(r', w') := remove w in r' = Ok false ∧ tool_active (db w') = Some true ∧ sub_active (db w') = Some true.
Proof. vm_compute. repeat split; reflexivity. Qed.

(** A name stays taken after its server is removed, though no listing shows it. *)
Definition public (_ : Z) (_ : string) : dns_answer := Addresses ["8.8.8.8"].
Definition parse_maps (url : string) : option (string * option string) := Some ("https", Some "maps.example").
Definition create (token : option string) (name : string) :=
  create_org_mcp_server cfg mcfg supply seal parse_maps (λ s, s) public "acme" (MkCreateServer name "https://maps.example/mcp" "bearer" token None 15) "alice".
Example removed_name_stays_taken :
  let '(_, w) := remove (world [] with_server) in
  (list_org_mcp_servers "acme" true w).1 = Ok [] ∧
  (create None "maps" w).1 = Raise (ValueError "MCP server 'maps' already exists for this organisation").
Proof. vm_compute. split; reflexivity. Qed.

(** An empty token: the answer says there is one, the table holds none. *)
Example empty_token_is_announced :
  let '(r, w) := create (Some "") "other" (world [] with_server) in
  match r, (get_org_mcp_server "id0" "acme" w).1 with Ok s, Ok (Some t) => ms_has_auth s = true ∧ ms_has_auth t = false | _, _ => False end.
Proof. vm_compute. split; reflexivity. Qed.
End ServerDemo.
