(* ===== verification/RequestIp.v ===== *)
(** * The caller's address behind trusted proxies (shared/request_ip.py)

    Rate limits, the audit trail and the ownership of anonymous A2A tasks go by the
    caller's address.  With [n] trusted proxies it is the address [n] places before
    the end of the forwarded chain.  The theorem: what a client writes into its own
    [X-Forwarded-For] header never matters ([client_ip_unspoofable]). *)

From S2P Require Export Ssrf.

Section request_ip.
(** [str(ipaddress.ip_address(s))] for an address [s] *)
Context (addr_text : string → string).

Definition _normalized_ip (value : string) : option string :=
  let candidate := py_strip value in
  if is_empty candidate then None
  else match ip_address candidate with Some _ => Some (addr_text candidate) | None => None end.

Definition split_commas (s : string) : list string :=
  map String.string_of_list_ascii (split_chars "," [] (String.list_ascii_of_string s)).

(** [peer]: the host of the connection; [forwarded]: the X-Forwarded-For header *)
Definition client_ip_from_request (peer forwarded : string) (trusted_proxy_count : Z) : string :=
  let peer_host := py_strip peer in
  if trusted_proxy_count <=? 0 then peer_host
  else
    let forwarded_chain := omap _normalized_ip (split_commas forwarded) in
    match forwarded_chain, _normalized_ip peer_host with
    | _ :: _, Some peer_ip =>
        let full_chain := forwarded_chain ++ [peer_ip] in
        let candidate_index := len full_chain - trusted_proxy_count - 1 in
        if candidate_index <? 0 then peer_host else default peer_host (full_chain !! Z.to_nat candidate_index)
    | _, _ => peer_host
    end.

(** ** The client's own header *)
Definition no_comma (s : string) : Prop := forallb (λ c, negb (Ascii.eqb c ",")) (String.list_ascii_of_string s) = true.

(** The header as [hops] are appended to it, one by each proxy *)
Fixpoint forward (header : string) (hops : list string) : string :=
  match hops with [] => header | hop :: hops => forward (header +:+ "," +:+ hop) hops end.

Lemma split_chars_cut c (acc l1 l2 : chars) :
  split_chars c acc (l1 ++ c :: l2) = split_chars c acc l1 ++ split_chars c [] l2.
Proof.
  revert acc. induction l1 as [|a l1 IH]; intros acc; cbn; [by rewrite Ascii.eqb_refl|].
  destruct (Ascii.eqb a c); [cbn; by rewrite IH|apply IH].
Qed.

Lemma split_chars_whole c (acc l : chars) :
  forallb (λ a, negb (Ascii.eqb a c)) l = true → split_chars c acc l = [rev acc ++ l].
Proof.
  revert acc. induction l as [|a l IH]; intros acc; cbn; [by rewrite app_nil_r|].
  intros [Ha Hl]%andb_true_iff. destruct (Ascii.eqb a c); [done|]. rewrite IH by done. cbn. by rewrite <- app_assoc.
Qed.

Lemma list_ascii_app s1 s2 : String.list_ascii_of_string (s1 +:+ s2) = String.list_ascii_of_string s1 ++ String.list_ascii_of_string s2.
Proof. induction s1 as [|a s1 IH]; [done|]. change (a :: String.list_ascii_of_string (s1 +:+ s2) = a :: (String.list_ascii_of_string s1 ++ String.list_ascii_of_string s2)). by rewrite IH. Qed.

Lemma split_forward header hops :
  Forall no_comma hops → split_commas (forward header hops) = split_commas header ++ hops.
Proof.
  revert header. induction hops as [|h hops IH]; intros header Hh; cbn [forward]; [by rewrite app_nil_r|].
  apply Forall_cons in Hh as [Hh Hhops]. rewrite IH by done. unfold split_commas.
  rewrite !list_ascii_app. cbn. rewrite split_chars_cut, map_app, (split_chars_whole "," [] (String.list_ascii_of_string h)) by done.
  cbn. rewrite String.string_of_list_ascii_of_string, <- app_assoc. done.
Qed.

Lemma normalized_all ps : Forall (λ p, is_Some (_normalized_ip p)) ps → length (omap _normalized_ip ps) = length ps.
Proof. induction 1 as [|p ps [q Hq] _ IH]; [done|]. cbn. rewrite Hq. cbn. by rewrite IH. Qed.

(** C21. Whatever header the client sent, the answer is the address its first trusted proxy saw. *)
Theorem client_ip_unspoofable header client proxies peer
    (Hclient : is_Some (_normalized_ip client)) (Hproxies : Forall (λ p, is_Some (_normalized_ip p)) proxies)
    (Hpeer : is_Some (_normalized_ip (py_strip peer))) (Hcommas : Forall no_comma (client :: proxies)) :
  Some (client_ip_from_request peer (forward header (client :: proxies)) (len proxies + 1)) = _normalized_ip client.
Proof.
  unfold client_ip_from_request. destruct (Z.leb_spec (len proxies + 1) 0); [unfold len in *; lia|].
  rewrite split_forward by done. rewrite omap_app. cbn [omap list_omap]. destruct Hclient as [a ->], Hpeer as [p ->].
  set (before := omap _normalized_ip (split_commas header)). pose proof (normalized_all _ Hproxies) as Hlen.
  set (after := omap _normalized_ip proxies) in *. change (list_omap _ _ _) with after.
  destruct (before ++ a :: after) as [|x l] eqn:E; [by destruct before|]. rewrite <- E. clear E.
  assert (len ((before ++ a :: after) ++ [p]) - (len proxies + 1) - 1 = Z.of_nat (length before)) as ->.
  { unfold len. rewrite !length_app. cbn. lia. }
  destruct (Z.ltb_spec (Z.of_nat (length before)) 0); [lia|]. rewrite Nat2Z.id, <- app_assoc. cbn [app]. by rewrite list_lookup_middle.
Qed.
End request_ip.

Module ProxyDemo.
Definition text (s : string) : string := s.

(** Two proxies; the client claims to be the local host. *)
Lemma client_ip_unspoofable_witness :
  Some (client_ip_from_request text "10.0.0.2" (forward "127.0.0.1, 127.0.0.1" ["203.0.113.9"; " 10.0.0.1"]) 2) = Some "203.0.113.9".
Proof.
  pose proof (client_ip_unspoofable text "127.0.0.1, 127.0.0.1" "203.0.113.9" [" 10.0.0.1"] "10.0.0.2") as H.
  etrans; [apply H|vm_compute; reflexivity].
  - vm_compute. by eexists.
  - apply Forall_singleton. vm_compute. by eexists.
  - vm_compute. by eexists.
  - do 2 (apply Forall_cons; split; [done|]). by apply Forall_nil.
Defined.

(** A proxy too many is trusted: the client chooses its address. *)
Example overtrusted_chain_is_spoofable :
  client_ip_from_request text "10.0.0.2" (forward "127.0.0.1" ["203.0.113.9"]) 2 = "127.0.0.1".
Proof. vm_compute. reflexivity. Qed.
End ProxyDemo.
