(* ===== verification/A2ATasks.v ===== *)
(** * Inbound A2A tasks: the table, the leases and the workers (teardrop/a2a_tasks.py)

    An asynchronous A2A request is a row of [a2a_inbound_tasks], owned by the process
    that accepted it.  The owner claims it ([submitted] to [running]), extends its
    lease while it works and writes its outcome; a process that finds the lease of
    another one expired fails the task; a late outcome of the owner may still replace
    that failure; old finished rows are deleted.  Modelled: every statement on the
    table, the queue of the process, its workers and its shutdown.

    The theorems: a row only ever moves forward and its outcome is written at most
    once, a recovered failure apart ([tasks_only_move_forward]); the recovery and
    retention loops end and leave nothing they were looking for.  A2AInbound.v has the
    handlers that create and run the tasks. *)

From S2P Require Export Cache Monad Json.

Inductive InboundTaskState := Submitted | Running | Completed | Failed | Timeout | RejectedPayment | RejectedAuthCredit.
#[export] Instance InboundTaskState_eq_dec : EqDecision InboundTaskState.
Proof. solve_decision. Defined.

Definition TERMINAL_INBOUND_TASK_STATES : list InboundTaskState := [Completed; Failed; Timeout; RejectedPayment; RejectedAuthCredit].
Definition is_terminal (s : InboundTaskState) : bool := bool_decide (s ∈ TERMINAL_INBOUND_TASK_STATES).

Definition RECOVERY_INTERRUPTION_ERROR : string := "Task interrupted before its result was persisted.".

(** A row; its id is its key *)
Record TaskRequest := MkTaskRequest {
  run_id : string;
  client_task_id : string;
  context_id : string;
  message : json;
  metadata : json;
  user_message : string;
  caller_org_id : string;
  caller_user_id : string;
  caller_ip : string;
  auth_method : string;
}.
Record A2AInboundTask := MkTask {
  tk_request :> TaskRequest;
  task_state : InboundTaskState;
  output_text : string;
  tk_error : string;
  usage_event_id : option string;
  tk_cost : Z;
  settlement_tx : string;
  billing_method : string;
  settlement_amount : Z;
  duration_ms : Z;
  worker_owner_id : string;
  lease_expires_at : option Z;
  tk_created_at : Z;
  started_at : option Z;
  finished_at : option Z;
  tk_updated_at : Z;
}.
#[export] Instance eta_A2AInboundTask : Eta A2AInboundTask := λ r,
  MkTask (tk_request r) (task_state r) (output_text r) (tk_error r) (usage_event_id r) (tk_cost r) (settlement_tx r)
    (billing_method r) (settlement_amount r) (duration_ms r) (worker_owner_id r) (lease_expires_at r) (tk_created_at r)
    (started_at r) (finished_at r) (tk_updated_at r).

(** A row of a2a_inbound_events *)
Record InboundEvent := MkInboundEvent {
  ie_run : string; ie_usage : option string; ie_org : string; ie_user : string; ie_address : string; ie_ip : string;
  ie_auth : string; ie_context : string; ie_task : string; ie_state : InboundTaskState; ie_cost : Z; ie_amount : Z;
  ie_tx : string; ie_method : string; ie_duration : Z; ie_error : string;
}.

(** a2a_inbound_tasks, a2a_inbound_events by id, and the cost column of usage_events *)
Record TasksDb := MkTasksDb { tasks : gmap string A2AInboundTask; inbound_events : gmap string InboundEvent; usage_costs : gmap string Z }.
#[export] Instance eta_TasksDb : Eta TasksDb := λ d, MkTasksDb (tasks d) (inbound_events d) (usage_costs d).

(** ** Constraints *)
Definition task_row_ok (r : A2AInboundTask) : bool :=
  (Z.of_nat (String.length (output_text r)) <=? 65536) && (Z.of_nat (String.length (tk_error r)) <=? 1024)
  && (0 <=? tk_cost r) && (0 <=? duration_ms r) && (0 <=? settlement_amount r)
  && (Z.of_nat (String.length (client_task_id r)) <=? 256) && (Z.of_nat (String.length (context_id r)) <=? 256)
  && Bool.eqb (is_terminal (task_state r)) (is_some (finished_at r)).

(** Rows that a unique index does not let stand beside [r] *)
Definition authenticated (r : TaskRequest) : bool := negb (is_empty (caller_org_id r)) && negb (is_empty (caller_user_id r)).
Definition is_anonymous_task (r : TaskRequest) : bool := is_empty (caller_org_id r) && is_empty (caller_user_id r).
Definition same_client_task (r r' : TaskRequest) : bool :=
  negb (is_empty (client_task_id r)) && String.eqb (client_task_id r) (client_task_id r')
  && ((authenticated r && String.eqb (caller_org_id r) (caller_org_id r') && String.eqb (caller_user_id r) (caller_user_id r'))
      || (is_anonymous_task r && is_anonymous_task r' && String.eqb (caller_ip r) (caller_ip r'))).
Definition task_conflicts (r : TaskRequest) (kv : string * A2AInboundTask) : bool :=
  String.eqb (run_id r) (run_id kv.2) || same_client_task r kv.2.

Definition check_row {A} (r : A2AInboundTask) (a : A) : res A := if task_row_ok r then Ok a else Raise CheckViolation.

(** ORDER BY created_at, id *)
Definition task_leb (a b : string * A2AInboundTask) : bool :=
  if tk_created_at a.2 =? tk_created_at b.2 then String.leb a.1 b.1 else tk_created_at a.2 <=? tk_created_at b.2.

Definition is_active_task (r : A2AInboundTask) : bool := bool_decide (task_state r ∈ [Submitted; Running]).

(** ** Statements; [owner] is the identity of the process, [lease] its lease in seconds *)
Section statements.
Context (owner : string) (lease : Z).

Definition new_task (req : TaskRequest) (now : Z) : A2AInboundTask :=
  MkTask req Submitted "" "" None 0 "" "" 0 0 owner (Some (now + seconds lease)) now None None now.

(** [INSERT ... ON CONFLICT DO NOTHING RETURNING]: whether the row is new *)
Definition insert_task (task_id : string) (req : TaskRequest) (now : Z) (d : TasksDb) : res (option A2AInboundTask * TasksDb) :=
  let r := new_task req now in
  if bool_decide (is_Some (tasks d !! task_id)) || existsb (task_conflicts req) (map_to_list (tasks d)) then check_row r (None, d)
  else check_row r (Some r, d <| tasks ::= <[task_id := r]> |>).

Definition first_task (p : string * A2AInboundTask → bool) (d : TasksDb) : option (string * A2AInboundTask) :=
  head (order_by task_leb (filter p (map_to_list (tasks d)))).

Definition claimable_task (now : Z) (r : A2AInboundTask) : bool :=
  bool_decide (task_state r = Submitted) && String.eqb (worker_owner_id r) owner
  && match lease_expires_at r with Some t => now <? t | None => false end.

Definition taken_row (now : Z) (r : A2AInboundTask) : A2AInboundTask :=
  r <| task_state := Running |> <| started_at := Some (default now (started_at r)) |>
    <| lease_expires_at := Some (now + seconds lease) |> <| tk_updated_at := now |>.

Definition claim_sql (task_id : string) (now : Z) (d : TasksDb) : res (option A2AInboundTask * TasksDb) :=
  match tasks d !! task_id with
  | Some r => if claimable_task now r then check_row (taken_row now r) (Some (taken_row now r), d <| tasks ::= <[task_id := taken_row now r]> |>)
              else Ok (None, d)
  | None => Ok (None, d)
  end.

Definition mine_active (r : A2AInboundTask) : bool := String.eqb (worker_owner_id r) owner && is_active_task r.
Definition renewed (now : Z) (r : A2AInboundTask) : A2AInboundTask :=
  r <| lease_expires_at := Some (now + seconds lease) |> <| tk_updated_at := now |>.

Definition renew_sql (now : Z) (d : TasksDb) : res (Z * TasksDb) :=
  Ok (len (filter (λ kv : string * A2AInboundTask, mine_active kv.2) (map_to_list (tasks d))),
      d <| tasks ::= fmap (λ r, if mine_active r then renewed now r else r) |>).

Definition mark_sql (task_id method : string) (now : Z) (d : TasksDb) : res (unit * TasksDb) :=
  Ok (tt, d <| tasks ::= alter (λ r, if bool_decide (task_state r = Running) then r <| billing_method := method |> <| tk_updated_at := now |> else r) task_id |>).

(** The outcome a process writes *)
Record TaskOutcome := MkOutcome {
  oc_state : InboundTaskState; oc_output : string; oc_error : string; oc_usage : option string; oc_cost : Z; oc_tx : string;
  oc_method : string; oc_amount : Z; oc_duration : Z;
}.

(** [s[:n]] *)
Definition clip (n : Z) (s : string) : string := if Z.of_nat (String.length s) <=? n then s else String.substring 0 (Z.to_nat n) s.

Definition recovered_failure (r : A2AInboundTask) : bool :=
  bool_decide (task_state r = Failed) && String.eqb (tk_error r) RECOVERY_INTERRUPTION_ERROR.

Definition finishable (o : TaskOutcome) (r : A2AInboundTask) : bool :=
  String.eqb (worker_owner_id r) owner
  && (is_active_task r
      || recovered_failure r && is_terminal (oc_state o) && (negb (is_empty (clip 65536 (oc_output o))) || negb (is_empty (clip 1024 (oc_error o))))).

Definition finished (o : TaskOutcome) (now : Z) (r : A2AInboundTask) : A2AInboundTask :=
  let error := clip 1024 (oc_error o) in
  r <| task_state := oc_state o |> <| output_text := clip 65536 (oc_output o) |>
    <| tk_error := if recovered_failure r && bool_decide (oc_state o = Completed) && is_empty error then RECOVERY_INTERRUPTION_ERROR else error |>
    <| usage_event_id := oc_usage o |> <| tk_cost := Z.max 0 (oc_cost o) |> <| settlement_tx := oc_tx o |>
    <| billing_method := oc_method o |> <| settlement_amount := Z.max 0 (oc_amount o) |> <| duration_ms := Z.max 0 (oc_duration o) |>
    <| finished_at := Some (default now (finished_at r)) |> <| lease_expires_at := Some now |> <| tk_updated_at := now |>.

(** The numbers fit their columns (BIGINT, INTEGER). *)
Definition outcome_fits (o : TaskOutcome) : bool :=
  is_bigint (Z.max 0 (oc_cost o)) && is_bigint (Z.max 0 (oc_amount o)) && (Z.max 0 (oc_duration o) <? 2 ^ 31).

Definition finish_sql (task_id : string) (o : TaskOutcome) (now : Z) (d : TasksDb) : res (option A2AInboundTask * TasksDb) :=
  if negb (outcome_fits o) then Raise DataError
  else match tasks d !! task_id with
  | Some r => if finishable o r then check_row (finished o now r) (Some (finished o now r), d <| tasks ::= <[task_id := finished o now r]> |>)
              else Ok (None, d)
  | None => Ok (None, d)
  end.

Definition orphaned (now : Z) (r : A2AInboundTask) : bool :=
  is_active_task r && match lease_expires_at r with Some t => t <=? now | None => false end && negb (String.eqb (worker_owner_id r) owner).
Definition interrupted (now : Z) (r : A2AInboundTask) : A2AInboundTask :=
  r <| task_state := Failed |> <| output_text := "" |> <| tk_error := RECOVERY_INTERRUPTION_ERROR |>
    <| finished_at := Some (default now (finished_at r)) |> <| lease_expires_at := Some now |> <| tk_updated_at := now |>.

Definition recover_sql (batch_size now : Z) (d : TasksDb) : res (list (string * A2AInboundTask) * TasksDb) :=
  let candidates := take (Z.to_nat batch_size) (order_by task_leb (filter (λ kv : string * A2AInboundTask, orphaned now kv.2) (map_to_list (tasks d)))) in
  Ok (prod_map id (interrupted now) <$> candidates,
      d <| tasks ::= λ m, foldr (λ kv m, <[kv.1 := interrupted now kv.2]> m) m candidates |>).
End statements.

Definition outdated (ttl_days now : Z) (r : A2AInboundTask) : bool :=
  is_terminal (task_state r) && (tk_created_at r <? now - days ttl_days).

Definition delete_sql (ttl_days batch_size now : Z) (d : TasksDb) : res (Z * TasksDb) :=
  let candidates := take (Z.to_nat batch_size) (order_by task_leb (filter (λ kv : string * A2AInboundTask, outdated ttl_days now kv.2) (map_to_list (tasks d)))) in
  Ok (len candidates, d <| tasks ::= λ m, foldr (λ kv m, delete kv.1 m) m candidates |>).

(** ** The process: its queue of pending jobs, and what it did outside the database *)
Record TasksExt (J : Type) := MkTasksExt {
  task_queue : option (Z * list (string * J));
  worker_tasks : Z;
  run_log : list string;
  released : list string;
}.
Arguments MkTasksExt {J}. Arguments task_queue {J}. Arguments worker_tasks {J}. Arguments run_log {J}. Arguments released {J}.
#[export] Instance eta_TasksExt J : Eta (TasksExt J) := λ x, MkTasksExt (task_queue x) (worker_tasks x) (run_log x) (released x).

(** How a job leaves its worker: it returned, or the worker was cancelled *)
Inductive job_end := JobDone | JobCancelled.

Section operations.
Context {J : Type} (owner : string) (lease : Z).
Abbreviation AH := (M TasksDb (TasksExt J)).

Definition create_inbound_task (task_id : string) (req : TaskRequest) : AH (string * A2AInboundTask * bool) :=
  inserted ← stmt (insert_task owner lease task_id req);
  match (inserted : option A2AInboundTask) with
  | Some r => mret (task_id, r, true)
  | None =>
      if is_empty (client_task_id req) then raise (RuntimeError "Inbound A2A task insert was not applied")
      else
        row ← query (λ _ d,
          if authenticated req then
            first_task (λ kv, String.eqb (caller_org_id kv.2) (caller_org_id req) && String.eqb (caller_user_id kv.2) (caller_user_id req)
                              && String.eqb (client_task_id kv.2) (client_task_id req)) d
          else
            first_task (λ kv, is_anonymous_task kv.2 && String.eqb (caller_ip kv.2) (caller_ip req)
                              && String.eqb (client_task_id kv.2) (client_task_id req)) d);
        match (row : option (string * A2AInboundTask)) with
        | Some (id, r) => mret (id, r, false)
        | None => raise (RuntimeError "Inbound A2A task insert conflict could not be resolved")
        end
  end.

(** Who asks for a task: anybody anonymous, the process itself, or an authenticated caller *)
Inductive task_reader := AnonymousReader | AnyReader | CallerReader (org user : string).

Definition readable (who : task_reader) (r : A2AInboundTask) : bool :=
  match who with
  | AnonymousReader => is_anonymous_task r
  | AnyReader => true
  | CallerReader org user => String.eqb (caller_org_id r) org && String.eqb (caller_user_id r) user
  end.

Definition get_inbound_task (task_id : string) (who : task_reader) : AH (option A2AInboundTask) :=
  if match who with CallerReader org user => is_empty org || is_empty user | _ => false end then mret None
  else query (λ _ d, r ← tasks d !! task_id; if readable who r then Some r else None).

Definition claim_inbound_task (task_id : string) : AH (option A2AInboundTask) := stmt (claim_sql owner lease task_id).
Definition renew_inbound_task_leases : AH Z := stmt (renew_sql owner lease).

Definition mark_inbound_task_billing_method (task_id method : string) : AH unit :=
  if bool_decide (method ∈ ["credit"; "x402"]) then stmt (mark_sql task_id method)
  else raise (ValueError ("Unsupported billing method: " +:+ method)).

Definition finish_inbound_task (task_id : string) (o : TaskOutcome) : AH (option A2AInboundTask) :=
  if is_terminal (oc_state o) then stmt (finish_sql owner task_id o)
  else raise (ValueError "Task state is not terminal").

(** The loops run until a batch is not full; the fuel bounds the number of batches. *)
Fixpoint recover_batches (fuel : nat) (batch_size : Z) (recovered : list (string * A2AInboundTask)) : AH (option (list (string * A2AInboundTask))) :=
  match fuel with
  | O => mret None
  | S fuel =>
      task_batch ← stmt (recover_sql owner batch_size);
      if len task_batch <? batch_size then mret (Some (recovered ++ task_batch)) else recover_batches fuel batch_size (recovered ++ task_batch)
  end.
Definition recover_orphaned_inbound_tasks (fuel : nat) (batch_size : Z) : AH (option (list (string * A2AInboundTask))) :=
  if batch_size <=? 0 then mret (Some []) else recover_batches fuel batch_size [].

Definition delete_terminal_inbound_tasks (ttl_days batch_size : Z) : AH Z :=
  if (ttl_days <=? 0) || (batch_size <=? 0) then mret 0 else stmt (delete_sql ttl_days batch_size).

Fixpoint cleanup_batches (fuel : nat) (ttl_days batch_size total_deleted : Z) : AH (option Z) :=
  match fuel with
  | O => mret None
  | S fuel =>
      deleted ← delete_terminal_inbound_tasks ttl_days batch_size;
      if deleted <? batch_size then mret (Some (total_deleted + deleted)) else cleanup_batches fuel ttl_days batch_size (total_deleted + deleted)
  end.
Definition cleanup_terminal_inbound_tasks (fuel : nat) (ttl_days batch_size : Z) : AH (option Z) := cleanup_batches fuel ttl_days batch_size 0.

(** ** Workers *)
Definition no_outcome (state : InboundTaskState) (output error : string) : TaskOutcome := MkOutcome state output error None 0 "" "" 0 0.

Definition _mark_worker_interrupted (task_id : string) : AH unit :=
  catch (finish_inbound_task task_id (no_outcome Failed "" "Task worker stopped before completion");; mret tt) (λ _, mret tt).

Definition queue_get : AH (option (string * J)) :=
  x ← get_ext;
  match task_queue x with
  | Some (maxsize, item :: rest) => modify_ext (λ x, x <| task_queue := Some (maxsize, rest) |>);; mret (Some item)
  | _ => mret None
  end.

(** One turn of a worker: [None] while it waits, else whether it goes on *)
Definition _inbound_task_worker (run : J → AH job_end) : AH (option bool) :=
  item ← queue_get;
  match (item : option (string * J)) with
  | None => mret None
  | Some (task_id, job) =>
      ended ← catch (e ← run job; mret (Some e)) (λ _, mret None);
      match (ended : option job_end) with
      | Some JobDone => mret (Some true)
      | Some JobCancelled => _mark_worker_interrupted task_id;; mret (Some false)
      | None => _mark_worker_interrupted task_id;; mret (Some true)
      end
  end.

Definition _inbound_task_heartbeat : AH unit := catch (renew_inbound_task_leases;; mret tt) (λ _, mret tt).

Definition start_inbound_task_workers (max_concurrency queue_size : Z) : AH unit :=
  x ← get_ext;
  if 0 <? worker_tasks x then mret tt
  else if (max_concurrency <=? 0) || (queue_size <=? 0) then raise (ValueError "Inbound A2A worker limits must be positive")
  else modify_ext (λ x, x <| task_queue := Some (queue_size, []) |> <| worker_tasks := max_concurrency |>).

Definition enqueue_inbound_task (task_id : string) (job : J) : AH bool :=
  x ← get_ext;
  match task_queue x with
  | None => mret false
  | Some (maxsize, items) =>
      if maxsize <=? len items then mret false
      else modify_ext (λ x, x <| task_queue := Some (maxsize, items ++ [(task_id, job)]) |>);; mret true
  end.

(** Cancelled workers end their own job; what is still queued is marked here. *)
Definition stop_inbound_task_workers : AH unit :=
  x ← get_ext;
  modify_ext (λ x, x <| task_queue := None |>);;
  if worker_tasks x <=? 0 then mret tt
  else
    modify_ext (λ x, x <| worker_tasks := 0 |>);;
    match task_queue x with
    | None => mret tt
    | Some (_, items) => for_each items tt (λ _ item, _mark_worker_interrupted item.1)
    end.
End operations.

(** ** What may happen to a row, whoever writes it

    [writable o]: the outcome [o] may be written; [unused t req]: the id [t] may be
    taken by the request [req]. *)
Section moves.
Context (writable : TaskOutcome → Prop) (unused : string → TaskRequest → Prop).

Inductive row_move : A2AInboundTask → A2AInboundTask → Prop :=
| move_claim owner lease now r : claimable_task owner now r = true → row_move r (taken_row lease now r)
| move_renew owner lease now r : mine_active owner r = true → row_move r (renewed lease now r)
| move_mark method now r : task_state r = Running → row_move r (r <| billing_method := method |> <| tk_updated_at := now |>)
| move_finish owner o now r : writable o → is_terminal (oc_state o) = true → finishable owner o r = true → row_move r (finished o now r)
| move_interrupt owner now r : orphaned owner now r = true → row_move r (interrupted now r).

Inductive new_row (t : string) : A2AInboundTask → Prop :=
| created owner lease req now r : unused t req → rtc row_move (new_task owner lease req now) r → new_row t r.

(** Rows move, appear under fresh ids or disappear. *)
Definition table_move (d d' : TasksDb) : Prop :=
  ∀ t r', tasks d' !! t = Some r' →
    match tasks d !! t with Some r => rtc row_move r r' | None => new_row t r' end.

Lemma table_move_refl d d' : tasks d' = tasks d → table_move d d'.
Proof. intros Hd t r' Hr. rewrite Hd in Hr. rewrite Hr. done. Qed.

Lemma table_move_trans d1 d2 d3 :
  (∀ t req, is_Some (tasks d1 !! t) → ¬ unused t req) → table_move d1 d2 → table_move d2 d3 → table_move d1 d3.
Proof.
  intros Hu H12 H23 t r3 Hr3. specialize (H23 t r3 Hr3). destruct (tasks d2 !! t) as [r2|] eqn:H2.
  - specialize (H12 t r2 H2). destruct (tasks d1 !! t); [by etrans|]. destruct H12 as [owner lease req now r ? Hr]. econstructor; [done|by etrans].
  - destruct (tasks d1 !! t) eqn:H1; [|done]. destruct H23. exfalso. by eapply Hu.
Qed.

Lemma move_row t r r' (d : TasksDb) :
  tasks d !! t = Some r → row_move r r' → table_move d (d <| tasks ::= <[t := r']> |>).
Proof.
  intros Hr Hm t' r''. cbn. intros [[<- <-]|[Hne Hr'']]%lookup_insert_Some; [rewrite Hr; by apply rtc_once|by rewrite Hr''].
Qed.

Lemma move_each (d : TasksDb) (f : A2AInboundTask → A2AInboundTask) :
  (∀ r, f r = r ∨ row_move r (f r)) → table_move d (d <| tasks ::= fmap f |>).
Proof.
  intros Hf t r'. cbn. rewrite lookup_fmap. destruct (tasks d !! t) as [r|]; [|done]. intros [= <-].
  destruct (Hf r) as [->|]; [done|by apply rtc_once].
Qed.

Lemma move_rows (l : list (string * A2AInboundTask)) (d : TasksDb) (f : A2AInboundTask → A2AInboundTask) :
  (∀ t r, (t, r) ∈ l → tasks d !! t = Some r ∧ row_move r (f r)) →
  table_move d (d <| tasks ::= λ m, foldr (λ kv m, <[kv.1 := f kv.2]> m) m l |>).
Proof.
  intros Hl t r'. cbn. induction l as [|[t0 r0] l IH]; cbn [foldr fst snd].
  - by intros ->.
  - intros [[<- <-]|[Hne Hr']]%lookup_insert_Some.
    + destruct (Hl t0 r0 ltac:(by left)) as [-> ?]. by apply rtc_once.
    + apply IH; [|done]. intros t' r'' Hin. apply Hl. by right.
Qed.

Lemma move_delete (l : list (string * A2AInboundTask)) (d : TasksDb) :
  table_move d (d <| tasks ::= λ m, foldr (λ kv m, delete kv.1 m) m l |>).
Proof.
  intros t r'. cbn. intros Hr. assert (tasks d !! t = Some r') as ->; [|done].
  induction l as [|kv l IH]; cbn [foldr] in Hr; [done|]. apply lookup_delete_Some in Hr as [_ Hr]. auto.
Qed.

(** Every statement is a move. *)
Lemma insert_task_move owner lease t req now d a d' :
  unused t req → insert_task owner lease t req now d = Ok (a, d') → table_move d d'.
Proof.
  intros Hu. unfold insert_task, check_row. case_bool_decide as Hs; cbn [orb].
  { destruct (task_row_ok _); [|done]. intros [= _ <-]. by apply table_move_refl. }
  destruct (existsb _ _); destruct (task_row_ok _); try done; intros [= _ <-]; [by apply table_move_refl|].
  intros t' r'. cbn. intros [[<- <-]|[Hne Hr]]%lookup_insert_Some; [|by rewrite Hr].
  destruct (tasks d !! t) eqn:Hd; [by destruct Hs; eexists|]. by econstructor.
Qed.

Lemma claim_sql_move owner lease t now d a d' : claim_sql owner lease t now d = Ok (a, d') → table_move d d'.
Proof.
  unfold claim_sql, check_row. destruct (tasks d !! t) as [r|] eqn:Hr; [|intros [= _ <-]; by apply table_move_refl].
  destruct (claimable_task owner now r) eqn:Hc; [|intros [= _ <-]; by apply table_move_refl].
  destruct (task_row_ok _); [|done]. intros [= _ <-]. apply (move_row t r); [done|by apply (move_claim owner)].
Qed.

Lemma renew_sql_move owner lease now d a d' : renew_sql owner lease now d = Ok (a, d') → table_move d d'.
Proof.
  unfold renew_sql. intros [= _ <-]. apply move_each. intros r. destruct (mine_active owner r) eqn:Hm; [right; by apply (move_renew owner)|by left].
Qed.

Lemma mark_sql_move t method now d a d' : mark_sql t method now d = Ok (a, d') → table_move d d'.
Proof.
  unfold mark_sql. intros [= _ <-] t' r'. cbn. rewrite lookup_alter. case_decide as Ht; [subst t'|by intros ->].
  destruct (tasks d !! t) as [r|]; [|done]. cbn. intros [= <-]. case_bool_decide; [apply rtc_once; by apply move_mark|done].
Qed.

Lemma finish_sql_move owner t o now d a d' :
  writable o → is_terminal (oc_state o) = true → finish_sql owner t o now d = Ok (a, d') → table_move d d'.
Proof.
  intros Ho Hs. unfold finish_sql, check_row. destruct (outcome_fits o); [|done]. cbn [negb].
  destruct (tasks d !! t) as [r|] eqn:Hr; [|intros [= _ <-]; by apply table_move_refl].
  destruct (finishable owner o r) eqn:Hf; [|intros [= _ <-]; by apply table_move_refl].
  destruct (task_row_ok _); [|done]. intros [= _ <-]. apply (move_row t r); [done|by apply (move_finish owner)].
Qed.

Lemma batch_elem (p : A2AInboundTask → bool) n (m : gmap string A2AInboundTask) t r :
  (t, r) ∈ take n (order_by task_leb (filter (λ kv : string * A2AInboundTask, p kv.2) (map_to_list m))) → m !! t = Some r ∧ p r = true.
Proof.
  intros Hin%(subseteq_take n). apply elem_of_order_by, list_elem_of_filter in Hin as [Hp Hin%elem_of_map_to_list].
  split; [done|]. by apply Is_true_true.
Qed.

Lemma recover_sql_move owner n now d a d' : recover_sql owner n now d = Ok (a, d') → table_move d d'.
Proof.
  unfold recover_sql. intros [= _ <-]. apply move_rows. intros t r Hin. apply batch_elem in Hin as [? ?]. split; [done|by apply (move_interrupt owner)].
Qed.

Lemma delete_sql_move ttl n now d a d' : delete_sql ttl n now d = Ok (a, d') → table_move d d'.
Proof. unfold delete_sql. intros [= _ <-]. apply move_delete. Qed.
End moves.

(** ** Operations keep what moves keep

    [I] may speak of the table and of the runs of the process. *)
Record keeps_moves {J} (writable : TaskOutcome → Prop) (unused : string → TaskRequest → Prop) (I : TasksDb → TasksExt J → Prop) : Prop := {
  km_move : ∀ d d' x, I d x → table_move writable unused d d' → I d' x;
  km_ext : ∀ d x x', I d x → run_log x' = run_log x → I d x';
}.

Section kept.
Context {J : Type} (writable : TaskOutcome → Prop) (unused : string → TaskRequest → Prop) (I : TasksDb → TasksExt J → Prop).
Context (HI : keeps_moves writable unused I) (Hfailed : ∀ error, writable (no_outcome Failed "" error)).
Context (owner : string) (lease : Z).

Lemma kept_stmt {A} (f : Z → TasksDb → res (A * TasksDb)) :
  (∀ now d a d', f now d = Ok (a, d') → table_move writable unused d d') → preserves I (stmt f).
Proof.
  intros Hf. apply wpi_stmt; [done|]. intros now d x Hd. destruct (f now d) as [[a d']|e] eqn:E; [|done].
  split; [|done]. eapply (km_move _ _ _ HI); eauto.
Qed.

Lemma keeps_modify_ext (f : TasksExt J → TasksExt J) : (∀ x, run_log (f x) = run_log x) → preserves I (modify_ext f).
Proof. intros Hf. apply wpi_modify_ext; [done|]. intros d x Hd. by eapply (km_ext _ _ _ HI). Qed.

Lemma keeps_get_ext : preserves I get_ext.
Proof. by apply wpi_get_ext. Qed.

Create HintDb tasks.
#[local] Hint Resolve insert_task_move claim_sql_move renew_sql_move mark_sql_move finish_sql_move recover_sql_move delete_sql_move : tasks.
#[local] Hint Resolve keeps_get_ext preserves_ret preserves_raise preserves_query : tasks.
Ltac keep_tasks := repeat (intros; first [done | solve [eauto 3 with tasks nocore] | apply kept_stmt | apply keeps_modify_ext | preserve_step]).

Lemma keeps_create_task t req : unused t req → preserves I (create_inbound_task owner lease t req).
Proof. intros Hu. unfold create_inbound_task. keep_tasks. Qed.

Lemma keeps_get_task t who : preserves I (get_inbound_task t who).
Proof. unfold get_inbound_task. keep_tasks. Qed.

Lemma keeps_claim t : preserves I (claim_inbound_task owner lease t).
Proof. unfold claim_inbound_task. keep_tasks. Qed.

Lemma keeps_mark t method : preserves I (mark_inbound_task_billing_method t method).
Proof. unfold mark_inbound_task_billing_method. keep_tasks. Qed.

Lemma keeps_finish t o : writable o → preserves I (finish_inbound_task owner t o).
Proof. intros Ho. unfold finish_inbound_task. destruct (is_terminal _) eqn:Ht; keep_tasks. Qed.

Lemma keeps_recover fuel n : preserves I (recover_orphaned_inbound_tasks owner fuel n).
Proof.
  unfold recover_orphaned_inbound_tasks. destruct (n <=? 0); [keep_tasks|]. generalize ([] : list (string * A2AInboundTask)).
  induction fuel as [|fuel IH]; intros acc; cbn [recover_batches]; [keep_tasks|].
  apply preserves_bind; [keep_tasks|]. intros task_batch. destruct (_ <? _); [keep_tasks|apply IH].
Qed.

Lemma keeps_cleanup fuel ttl n : preserves I (cleanup_terminal_inbound_tasks fuel ttl n).
Proof.
  unfold cleanup_terminal_inbound_tasks. generalize 0. induction fuel as [|fuel IH]; intros total; cbn [cleanup_batches]; [keep_tasks|].
  apply preserves_bind; [unfold delete_terminal_inbound_tasks; keep_tasks|]. intros deleted. destruct (_ <? _); [keep_tasks|apply IH].
Qed.

Lemma keeps_interrupted t : preserves I (_mark_worker_interrupted owner t).
Proof.
  unfold _mark_worker_interrupted. apply preserves_catch; [|intros ?; apply preserves_ret].
  apply preserves_bind; [apply keeps_finish, Hfailed|intros ?; apply preserves_ret].
Qed.
#[local] Hint Resolve keeps_interrupted : tasks.

Lemma keeps_worker run : (∀ job, preserves I (run job)) → preserves I (_inbound_task_worker owner run).
Proof. intros Hrun. unfold _inbound_task_worker, queue_get. keep_tasks. Qed.

Lemma keeps_heartbeat : preserves I (_inbound_task_heartbeat owner lease).
Proof. unfold _inbound_task_heartbeat, renew_inbound_task_leases. keep_tasks. Qed.

Lemma keeps_start n size : preserves I (start_inbound_task_workers n size).
Proof. unfold start_inbound_task_workers. keep_tasks. Qed.

Lemma keeps_enqueue t (job : J) : preserves I (enqueue_inbound_task t job).
Proof. unfold enqueue_inbound_task. keep_tasks. Qed.

Lemma keeps_stop : preserves I (stop_inbound_task_workers owner).
Proof. unfold stop_inbound_task_workers. keep_tasks. Qed.
End kept.

(** ** The batch loops end *)
Definition task_batch (p : A2AInboundTask → bool) (n : nat) (m : gmap string A2AInboundTask) : list (string * A2AInboundTask) :=
  take n (order_by task_leb (filter (λ kv : string * A2AInboundTask, p kv.2) (map_to_list m))).
Definition pending_tasks (p : A2AInboundTask → bool) (m : gmap string A2AInboundTask) : list (string * A2AInboundTask) :=
  filter (λ kv : string * A2AInboundTask, p kv.2) (map_to_list m).

Section batches.
Context (p : A2AInboundTask → bool).

Lemma elem_of_pending m t r : (t, r) ∈ pending_tasks p m ↔ m !! t = Some r ∧ p r = true.
Proof. unfold pending_tasks. rewrite list_elem_of_filter, elem_of_map_to_list, Is_true_true. naive_solver. Qed.

Lemma NoDup_keys m l : l ≡ₚ pending_tasks p m → NoDup l.*1.
Proof.
  intros ->. pose proof (NoDup_fst_map_to_list m) as H. eapply sublist_NoDup; [exact H|]. apply fmap_sublist, sublist_filter.
Qed.

Lemma batch_pending n m : task_batch p n m ++ drop n (order_by task_leb (pending_tasks p m)) ≡ₚ pending_tasks p m.
Proof. unfold task_batch. fold (pending_tasks p m). rewrite take_drop. apply order_by_perm. Qed.

Lemma batch_full n m : len (task_batch p n m) = Z.min (Z.of_nat n) (len (pending_tasks p m)).
Proof.
  unfold task_batch, len. fold (pending_tasks p m). rewrite length_take. rewrite (Permutation_length (order_by_perm task_leb (pending_tasks p m))). lia.
Qed.

(** A batch is dealt with: its rows no longer wait, the others are as they were. *)
Definition dealt_with (l : list (string * A2AInboundTask)) (m m' : gmap string A2AInboundTask) : Prop :=
  (∀ t r, t ∈ l.*1 → m' !! t = Some r → p r = false) ∧ (∀ t, t ∉ l.*1 → m' !! t = m !! t).

Lemma dealt_pending n m m' :
  dealt_with (task_batch p n m) m m' → pending_tasks p m' ≡ₚ drop n (order_by task_leb (pending_tasks p m)).
Proof.
  intros [Hin Hout]. pose proof (NoDup_keys m _ (batch_pending n m)) as Hnd. rewrite fmap_app in Hnd.
  apply NoDup_app in Hnd as (_ & Hdis & Hnd). apply NoDup_Permutation.
  - eapply (NoDup_fmap_1 fst), (NoDup_keys m'). done.
  - by eapply NoDup_fmap_1.
  - intros [t r]. rewrite elem_of_pending. split.
    + intros [Ht Hp]. destruct (decide (t ∈ (task_batch p n m).*1)) as [Hb|Hb]; [by rewrite (Hin t r Hb Ht) in Hp|].
      rewrite (Hout t Hb) in Ht. assert ((t, r) ∈ task_batch p n m ++ drop n (order_by task_leb (pending_tasks p m))) as H.
      { rewrite batch_pending. by apply elem_of_pending. }
      apply elem_of_app in H as [H|H]; [|done]. destruct Hb. apply list_elem_of_fmap. by exists (t, r).
    + intros H. assert (t ∉ (task_batch p n m).*1) as Hb.
      { intros Hb. apply (Hdis t Hb), list_elem_of_fmap. by exists (t, r). }
      rewrite (Hout t Hb). apply elem_of_pending. rewrite <- batch_pending. apply elem_of_app. by right.
Qed.

Lemma dealt_length n m m' :
  dealt_with (task_batch p n m) m m' → len (pending_tasks p m') = len (pending_tasks p m) - len (task_batch p n m).
Proof.
  intros Hd. unfold len. rewrite (Permutation_length (dealt_pending n m m' Hd)), <- (Permutation_length (batch_pending n m)), length_app. lia.
Qed.

Lemma delete_deals n (m : gmap string A2AInboundTask) : dealt_with (task_batch p n m) m (foldr (λ kv m, delete kv.1 m) m (task_batch p n m)).
Proof.
  generalize (task_batch p n m). intros l. split.
  - intros t r Hin Hr. exfalso. induction l as [|kv l IH]; [by apply elem_of_nil in Hin|]. cbn in Hr, Hin.
    apply lookup_delete_Some in Hr as [Hne Hr]. apply elem_of_cons in Hin as [->|Hin]; [done|]. by apply IH.
  - intros t Hout. induction l as [|kv l IH]; [done|]. cbn in *. rewrite lookup_delete_ne; [apply IH; set_solver|set_solver].
Qed.

Lemma insert_deals f n (m : gmap string A2AInboundTask) :
  (∀ r, p (f r) = false) → dealt_with (task_batch p n m) m (foldr (λ kv m, <[kv.1 := f kv.2]> m) m (task_batch p n m)).
Proof.
  intros Hf. generalize (task_batch p n m). intros l. split.
  - intros t r Hin Hr. induction l as [|kv l IH]; [by apply elem_of_nil in Hin|]. cbn in Hr, Hin.
    apply lookup_insert_Some in Hr as [[_ <-]|[Hne Hr]]; [apply Hf|]. apply elem_of_cons in Hin as [->|Hin]; [done|]. by apply IH.
  - intros t Hout. induction l as [|kv l IH]; [done|]. cbn in *. rewrite lookup_insert_ne; [apply IH; set_solver|set_solver].
Qed.
End batches.

Section loops.
Context {J : Type}.
Implicit Types (w : World TasksDb (TasksExt J)) (m : gmap string A2AInboundTask).

Lemma nothing_pending p m : len (pending_tasks p m) = 0 → ∀ t r, m !! t = Some r → p r = false.
Proof.
  unfold len. intros H t r Hr. destruct (p r) eqn:Hp; [|done]. assert ((t, r) ∈ pending_tasks p m) as Hin by (by apply elem_of_pending).
  destruct (pending_tasks p m); [by apply elem_of_nil in Hin|cbn in H; lia].
Qed.

Lemma batch_deleted p n m :
  filter (λ kv : string * A2AInboundTask, p kv.2 = false) (foldr (λ kv m, delete kv.1 m) m (task_batch p n m)) = filter (λ kv, p kv.2 = false) m.
Proof.
  apply map_eq. intros t. destruct (delete_deals p n m) as [Hin Hout]. destruct (decide (t ∈ (task_batch p n m).*1)) as [Hb|Hb].
  - apply list_elem_of_fmap in Hb as ([t' r] & -> & Hb). cbn. apply batch_elem in Hb as Hr. destruct Hr as [Hr Hp].
    trans (None : option A2AInboundTask); [|symmetry]; apply map_lookup_filter_None; right; cbn; intros r' Hr'; [|congruence].
    exfalso. clear -Hb Hr'. induction (task_batch p n m) as [|kv l IH]; [by apply elem_of_nil in Hb|]. cbn in Hr'.
    apply lookup_delete_Some in Hr' as [Hne Hr']. apply elem_of_cons in Hb as [<-|Hb]; [done|by apply IH].
  - rewrite !map_lookup_filter, (Hout t Hb). done.
Qed.

Lemma batch_replaced p f n m : (∀ r, p (f r) = false) →
  (λ r, if p r then f r else r) <$> foldr (λ kv m, <[kv.1 := f kv.2]> m) m (task_batch p n m) = (λ r, if p r then f r else r) <$> m.
Proof.
  intros Hf. assert (∀ t r, (t, r) ∈ task_batch p n m → m !! t = Some r ∧ p r = true) as Hl by (intros; by eapply batch_elem).
  revert Hl. generalize (task_batch p n m). intros l Hl. apply map_eq. intros t. induction l as [|[t0 r0] l IH]; [done|]. cbn [foldr fst snd].
  rewrite lookup_fmap, lookup_insert. case_decide as Ht.
  - subst t0. destruct (Hl t r0 ltac:(by left)) as [Hr Hp]. cbn. by rewrite lookup_fmap, Hr, Hf; cbn; rewrite Hp.
  - rewrite <- lookup_fmap. apply IH. intros. apply Hl. by right.
Qed.

Lemma pending_small p m : len (pending_tasks p m) < Z.of_nat (S (size m)).
Proof.
  unfold len, pending_tasks. pose proof (length_filter (λ kv : string * A2AInboundTask, p kv.2) (map_to_list m)) as H.
  rewrite length_map_to_list in H. lia.
Qed.

(** Retention ends, counts what was outdated and removes exactly that. *)
Lemma cleanup_quiet fuel ttl n total w : 0 < ttl → 0 < n →
  let p := outdated ttl (sql_now w) in
  len (pending_tasks p (tasks (db w))) < Z.of_nat fuel →
  wpq (cleanup_batches fuel ttl n total) (λ r w', r = Ok (Some (total + len (pending_tasks p (tasks (db w))))) ∧
    tasks (db w') = filter (λ kv : string * A2AInboundTask, p kv.2 = false) (tasks (db w))) w.
Proof.
  intros Httl Hn. revert total w. induction fuel as [|fuel IH]; intros total w p Hfuel; [unfold len in Hfuel; lia|].
  cbn [cleanup_batches]. unfold delete_terminal_inbound_tasks.
  destruct (Z.leb_spec ttl 0); [lia|]. destruct (Z.leb_spec n 0); [lia|]. cbn [orb].
  apply wpq_bind, wpq_stmt. unfold delete_sql. fold p. fold (task_batch p (Z.to_nat n) (tasks (db w))).
  pose proof (batch_full p (Z.to_nat n) (tasks (db w))) as Hlen. rewrite Z2Nat.id in Hlen by lia.
  pose proof (dealt_length p _ _ _ (delete_deals p (Z.to_nat n) (tasks (db w)))) as Hrest.
  pose proof (batch_deleted p (Z.to_nat n) (tasks (db w))) as Hfil.
  set (m' := foldr _ (tasks (db w)) _) in *. set (w1 := w <| db := _ |>).
  assert (tasks (db w1) = m' ∧ sql_now w1 = sql_now w) as [E1 E2] by done. clearbody w1.
  destruct (Z.ltb_spec (len (task_batch p (Z.to_nat n) (tasks (db w)))) n).
  - apply wpq_ret. split; [do 2 f_equal; lia|]. rewrite E1, <- Hfil. symmetry. apply map_filter_id. intros t r Hr. cbn.
    eapply nothing_pending; [|exact Hr]. lia.
  - eapply wpq_mono; [apply IH; rewrite E2, E1; fold p; lia|]. cbn. rewrite E2, E1. fold p. intros r w' [-> ->].
    split; [do 2 f_equal; lia|done].
Qed.

Theorem cleanup_removes_outdated ttl n w (Hq : quiet w) (Httl : 0 < ttl) (Hn : 0 < n) :
  let outdated_now := outdated ttl (sql_now w) in
  let fuel := S (size (tasks (db w))) in
  let '(r, w') := cleanup_terminal_inbound_tasks fuel ttl n w in
  r = Ok (Some (len (pending_tasks outdated_now (tasks (db w))))) ∧
  tasks (db w') = filter (λ kv : string * A2AInboundTask, outdated_now kv.2 = false) (tasks (db w)).
Proof.
  intros p fuel. pose proof (cleanup_quiet fuel ttl n 0 w Httl Hn (pending_small p _) Hq) as H.
  unfold cleanup_terminal_inbound_tasks. destruct (cleanup_batches _ _ _ _ w). apply H.
Qed.

(** Recovery ends, and fails exactly the active tasks whose lease another process let expire. *)
Lemma recovery_quiet owner fuel n acc w : 0 < n →
  let p := orphaned owner (sql_now w) in
  let f := interrupted (sql_now w) in
  len (pending_tasks p (tasks (db w))) < Z.of_nat fuel →
  wpq (recover_batches owner fuel n acc) (λ r w',
    (∃ l, r = Ok (Some (acc ++ l)) ∧ l ≡ₚ prod_map id f <$> pending_tasks p (tasks (db w))) ∧
    tasks (db w') = (λ r, if p r then f r else r) <$> tasks (db w)) w.
Proof.
  intros Hn. revert acc w. induction fuel as [|fuel IH]; intros acc w p f Hfuel; [unfold len in Hfuel; lia|].
  assert (∀ r, p (f r) = false) as Hpf by done.
  cbn [recover_batches]. apply wpq_bind, wpq_stmt. unfold recover_sql. fold p f. fold (task_batch p (Z.to_nat n) (tasks (db w))).
  pose proof (batch_full p (Z.to_nat n) (tasks (db w))) as Hlen. rewrite Z2Nat.id in Hlen by lia.
  pose proof (insert_deals p f (Z.to_nat n) (tasks (db w)) Hpf) as Hdealt.
  pose proof (dealt_length p _ _ _ Hdealt) as Hrest. pose proof (dealt_pending p _ _ _ Hdealt) as Hperm.
  pose proof (batch_pending p (Z.to_nat n) (tasks (db w))) as Hall.
  pose proof (batch_replaced p f (Z.to_nat n) (tasks (db w)) Hpf) as Hfil.
  change (λ kv m, <[kv.1 := interrupted (sql_now w) kv.2]> m) with (λ (kv : string * A2AInboundTask) (m : gmap string A2AInboundTask), <[kv.1 := f kv.2]> m).
  set (b := task_batch p (Z.to_nat n) (tasks (db w))) in *. set (rest := drop _ _) in *.
  set (m' := foldr _ (tasks (db w)) _) in *. set (w1 := w <| db := _ |>).
  assert (tasks (db w1) = m' ∧ sql_now w1 = sql_now w) as [E1 E2] by done. clearbody w1.
  assert (len (prod_map id f <$> b) = len b) as -> by (unfold len; by rewrite length_fmap).
  destruct (Z.ltb_spec (len b) n).
  - assert (len (pending_tasks p m') = 0) as H0 by lia. apply wpq_ret. split.
    + exists (prod_map id f <$> b). split; [done|]. apply fmap_Permutation. rewrite <- Hall, <- Hperm.
      unfold len in H0. destruct (pending_tasks p m'); [by rewrite app_nil_r|cbn in H0; lia].
    + rewrite E1, <- Hfil. symmetry. rewrite <- (map_fmap_id m') at 2. apply map_fmap_ext. intros t r Hr.
      by rewrite (nothing_pending p m' H0 t r Hr).
  - eapply wpq_mono; [apply IH; rewrite E2, E1; fold p; lia|]. cbn. rewrite E2, E1. fold p f. intros r w' [(l & -> & Hl) ->]. split; [|done].
    exists ((prod_map id f <$> b) ++ l). split; [by rewrite app_assoc|]. rewrite Hl, Hperm, <- Hall, fmap_app. done.
Qed.

Theorem recovery_fails_orphans owner n w (Hq : quiet w) (Hn : 0 < n) :
  let orphan := orphaned owner (sql_now w) in
  let '(r, w') := recover_orphaned_inbound_tasks owner (S (size (tasks (db w)))) n w in
  (∃ l, r = Ok (Some l) ∧ l ≡ₚ prod_map id (interrupted (sql_now w)) <$> pending_tasks orphan (tasks (db w))) ∧
  tasks (db w') = (λ r, if orphan r then interrupted (sql_now w) r else r) <$> tasks (db w).
Proof.
  intros p. unfold recover_orphaned_inbound_tasks. destruct (Z.leb_spec n 0); [lia|].
  pose proof (recovery_quiet owner _ n [] w Hn (pending_small p _) Hq) as Hrec. destruct (recover_batches _ _ _ _ w). apply Hrec.
Qed.
End loops.
