(* ===== verification/A2AInbound.v ===== *)
(** * Inbound A2A messages (teardrop/routers/a2a_messages.py)

    [POST /message:send] authenticates the caller, or takes a payment, and runs the
    agent: at once, or as a task of A2ATasks.v that a worker of the process runs
    later and [GET /message:status] reports.  Modelled: the two endpoints, the job a
    worker runs, the audit trail and the recovery of other processes' tasks.

    The theorems: rows only move forward and outcomes are final, whatever the
    processes do ([tasks_only_move_forward]); a completed task paid by x402 has its
    settlement ([completed_tasks_are_settled]), and no unsettled output leaves the
    synchronous path either; the process runs a task at most once
    ([task_runs_at_most_once]); and a job a worker takes always ends in a final row
    ([jobs_end]).

    The agent run, the payment and credit admission, the access tokens, the rate
    limits and pydantic's validation of a request are parameters. *)

From S2P Require Export Canonical A2ATasks RequestIp.

Record InboundSettings := MkInboundSettings {
  a2a_inbound_enabled : bool;
  a2a_inbound_async_enabled : bool;
  a2a_inbound_intro_price_usdc : Z;
  a2a_billing_enabled : bool;
  rate_limit_requests_per_minute : Z;
  rate_limit_agent_rpm : Z;
  rate_limit_org_agent_rpm : Z;
  trusted_proxy_count : Z;
}.

(** ** Requests and responses *)

(** A message: its parts (kind and text) and whatever else it carries *)
Record A2AMessage := MkMessage { role : string; parts : list (string * option string); carried : json }.
Record A2ASendMessageRequest := MkSendRequest { sr_message : A2AMessage; sr_metadata : json; sr_context_id : option string; sr_task_id : option string }.

(** The body is [None] when it is not JSON. *)
Record A2ARequest := MkA2ARequest {
  rq_authorization : string; rq_prefer : string; rq_payment_signature : option string; rq_x_payment : option string;
  rq_body : option json; rq_peer : string; rq_forwarded : string;
}.

(** The claims of an access token *)
Record Claims := MkClaims { cl_org : string; cl_sub : string; cl_auth_method : string; cl_role : string; cl_address : option string }.
Inductive token_verdict := TokenValid (c : Claims) | TokenExpired | TokenInvalid.

Record A2ATask := MkA2ATask {
  at_id : string; at_state : string; at_message : option A2AMessage; at_artifacts : list (string * string); at_history : list A2AMessage;
}.

(** An error, a payment challenge, or a task with the JSON-RPC id, the status path and the payment receipt *)
Inductive A2AResponse :=
| ErrorReply (status : Z) (detail : string)
| ChallengeReply (error : string)
| TaskReply (status : Z) (task : A2ATask) (rpc_id : option json) (status_path : option string) (receipt : option (string * Z)).

(** [BillingResult] as this module reads it, with the payer named by the payment payload *)
Record Billed := MkBilled { bl_verified : bool; bl_method : string; bl_tx : string; bl_amount : Z; bl_error : string; bl_payer : string }.
#[export] Instance eta_Billed : Eta Billed := λ b, MkBilled (bl_verified b) (bl_method b) (bl_tx b) (bl_amount b) (bl_error b) (bl_payer b).
Definition no_billing : Billed := MkBilled false "" "" 0 "" "".

(** The verdict of the billing gate: admitted, answered with a response of this error
    text, refused with an HTTP status, or failed *)
Inductive gate_answer := GateAdmits (b : Billed) | GateAnswers (error : string) (b : Billed) | GateRefuses (status : Z) (detail : string) | GateFails.

(** What a run is given, and how it ends; [billing] is updated by the run. *)
Record RunArgs := MkRunArgs {
  ra_org : string; ra_user : string; ra_usage_user : string; ra_usage_org : string; ra_message : string; ra_run : string;
  ra_thread : string; ra_billing : Billed; ra_byok : bool; ra_fee : Z; ra_metadata : json; ra_context : option string;
  ra_task : option string; ra_auth_method : string; ra_role : string; ra_wallet : option string; ra_jwt : option string;
}.
Record AgentRunOnceResult := MkRunResult {
  rr_state : InboundTaskState; rr_response_state : string; rr_output : string; rr_duration : Z; rr_usage_id : string;
  rr_cost : Z; rr_amount : Z; rr_tx : string;
}.
Inductive run_answer := RunDone (r : AgentRunOnceResult) (b : Billed) | RunAtCapacity (detail : string) | RunFails (b : Billed) | RunCancelled (b : Billed).

Definition given (s : option string) : bool := match s with Some s => negb (is_empty s) | None => false end.
Definition payment_header_of (r : A2ARequest) : option string := if given (rq_payment_signature r) then rq_payment_signature r else rq_x_payment r.

Definition _SETTLEMENT_WITHHELD : string := "Payment settlement failed; the task result was withheld.".

Definition _x402_result_withheld (b : Billed) (r : AgentRunOnceResult) : bool :=
  bl_verified b && String.eqb (bl_method b) "x402" && bool_decide (rr_state r = Completed) && is_empty (rr_tx r).

(** [s.partition(" ")] without the separator *)
Fixpoint split_space (l : chars) : chars * chars :=
  match l with
  | [] => ([], [])
  | c :: l' => if Ascii.eqb c " " then ([], l') else let '(a, b) := split_space l' in (c :: a, b)
  end.

Definition _extract_bearer_token (r : A2ARequest) : A2AResponse + option string :=
  let authorization := py_strip (rq_authorization r) in
  if is_empty authorization then inr None
  else
    let '(scheme, token) := split_space (String.list_ascii_of_string authorization) in
    let token := py_strip (String.string_of_list_ascii token) in
    if negb (String.eqb (py_lower (String.string_of_list_ascii scheme)) "bearer") || is_empty token
    then inl (ErrorReply 401 "Invalid authorization header") else inr (Some token).

Definition _prefers_async (cfg : InboundSettings) (r : A2ARequest) : bool :=
  a2a_inbound_async_enabled cfg
  && existsb (λ part, match split_chars ";" [] (String.list_ascii_of_string (py_strip part)) with
                      | first :: _ => String.eqb (py_lower (String.string_of_list_ascii first)) "respond-async"
                      | [] => false
                      end) (split_commas (rq_prefer r)).

Definition _task_response_state (s : InboundTaskState) : string :=
  match s with Submitted => "submitted" | Running => "working" | Completed => "completed" | _ => "failed" end.

Definition _task_status_path (task_id : string) : string := "/message:status/" +:+ task_id.

Definition _build_task_response (message : A2AMessage) (task_id state output : string) (rpc_id : option json) (status_path : option string) (status : Z) : A2AResponse :=
  let agent_message := if is_empty output then None else Some (MkMessage "agent" [("text", Some output)] (JObj [])) in
  TaskReply status
    (MkA2ATask task_id state agent_message (if is_empty output then [] else [("result", output)])
       (message :: match agent_message with Some m => [m] | None => [] end))
    rpc_id (if given status_path then status_path else None) None.

Definition _message_text (m : A2AMessage) : A2AResponse + string :=
  if negb (String.eqb (role m) "user") then inl (ErrorReply 422 "A2A message role must be 'user'")
  else
    let texts := omap (λ part : string * option string,
      match part with
      | (kind, Some text) => let stripped := py_strip text in if String.eqb kind "text" && negb (is_empty stripped) then Some stripped else None
      | _ => None
      end) (parts m) in
    let combined := String.concat (String "010" "") texts in
    match texts with
    | [] => inl (ErrorReply 422 "A2A message must contain at least one non-empty text part")
    | _ => if 4096 <? Z.of_nat (String.length combined) then inl (ErrorReply 422 "A2A message text exceeds 4096 chars") else inr combined
    end.

Definition _payment_caller_address (b : Billed) : string := py_strip (bl_payer b).

Definition _usage_identity (payload : option Claims) (b : Billed) (user_id org_id run : string) : string * string :=
  match payload with
  | None => let payer := py_strip (bl_payer b) in
            if is_empty payer then ("anonymous-a2a:" +:+ run, "anonymous-a2a") else ("x402:" +:+ payer, "x402:" +:+ payer)
  | Some _ => (user_id, org_id)
  end.

Definition or_else (a b : string) : string := if is_empty a then b else a.
Definition thread_of (user_id task context run : string) : string := or_else user_id "anonymous-a2a" +:+ ":" +:+ or_else task (or_else context run).

(** A queued job: what the worker needs to run the task *)
Record Job (Req : Type) := MkJob {
  job_request : A2ARequest; job_id : string; job_row : A2AInboundTask; job_body : A2ASendMessageRequest; job_payload : option Claims;
  job_header : option string; job_requirements : option (list Req); job_jwt : option string;
}.
Arguments MkJob {Req}. Arguments job_request {Req}. Arguments job_id {Req}. Arguments job_row {Req}. Arguments job_body {Req}.
Arguments job_payload {Req}. Arguments job_header {Req}. Arguments job_requirements {Req}. Arguments job_jwt {Req}.

Section inbound.
Context {Req : Type} (cfg : InboundSettings) (owner : string) (lease : Z) (supply : nat → string) (addr_text : string → string).
Context (repr : json → string) (validate_request : json → option A2ASendMessageRequest).
Context (message_validate : json → option A2AMessage) (message_dump : A2AMessage → json).
Context (decode_access_token : Z → string → token_verdict) (is_machine_credential_revoked : Z → Claims → res bool).
Context (within_limit : Z → string → Z → bool).
Context (build_exact_payment_requirements : Z → res (option (list Req))) (payment_challenge : string → option (list Req) → res unit).
Context (verify_payment : Z → option string → option (list Req) → res Billed).
Context (run_billing_gate : Z → A2ARequest → Claims → string → bool → Z → gate_answer).
Context (org_is_byok : Z → string → res bool) (get_byok_platform_fee : bool → Z) (run_agent : Z → RunArgs → run_answer).
Abbreviation IH := (M TasksDb (TasksExt (Job Req))).

Definition ask_service {A} (f : Z → res A) : IH A := external (λ now x, (f now, x)).

(** ** Audit trail *)
Definition _record_inbound_event (e : InboundEvent) : IH unit :=
  catch
    (event_id ← uuid4 supply;
     stmt (λ _ d,
       let e := MkInboundEvent (ie_run e) (ie_usage e) (ie_org e) (ie_user e) (ie_address e) (ie_ip e) (ie_auth e) (ie_context e)
                  (ie_task e) (ie_state e) (ie_cost e) (Z.max 0 (ie_amount e)) (ie_tx e) (ie_method e) (ie_duration e) (clip 1024 (ie_error e)) in
       if negb (is_bigint (ie_cost e) && is_bigint (ie_amount e) && (- 2 ^ 31 <=? ie_duration e) && (ie_duration e <? 2 ^ 31)) then Raise DataError
       else if negb (is_terminal (ie_state e)) then Raise CheckViolation
       else if bool_decide (is_Some (inbound_events d !! event_id)) then Raise UniqueViolation
       else Ok (tt, d <| inbound_events ::= <[event_id := e]> |>)))
    (λ _, mret tt).

(** The figures of an outcome: [None] where the caller leaves the default *)
Definition _finish_async_task (task_id : string) (row : A2AInboundTask) (state : InboundTaskState) (output error : string) (billing : Billed)
    (usage : option string) (cost : Z) (amount : option Z) (tx : option string) (duration : Z) : IH unit :=
  let method := if bl_verified billing then bl_method billing
                else match state with RejectedPayment => "x402" | RejectedAuthCredit => "credit" | _ => "" end in
  let persisted_tx := match tx with Some tx => tx | None => if bl_verified billing then bl_tx billing else "" end in
  let persisted_amount := Z.max 0 (match amount with Some a => a | None => if bl_verified billing then bl_amount billing else 0 end) in
  done ← finish_inbound_task owner task_id (MkOutcome state output error usage cost persisted_tx method persisted_amount duration);
  match (done : option A2AInboundTask) with
  | None => mret tt
  | Some _ =>
      _record_inbound_event (MkInboundEvent (run_id row) usage (caller_org_id row) (caller_user_id row) (_payment_caller_address billing)
        (caller_ip row) (auth_method row) (context_id row) task_id state (Z.max 0 cost) persisted_amount persisted_tx method (Z.max 0 duration) error)
  end.

(** ** The job of a worker *)

(** What admission decides: refused with this outcome and billing, or admitted *)
Inductive admission_verdict := Refused (state : InboundTaskState) (error : string) (b : Billed) | LetThrough (b : Billed).

Definition admit_task (payload : option Claims) (header : option string) (requirements : option (list Req)) (request : A2ARequest)
    (org : string) (byok : bool) (fee : Z) : IH admission_verdict :=
  match payload with
  | None =>
      if a2a_billing_enabled cfg then
        b ← ask_service (λ now, verify_payment now header requirements);
        mret (if bl_verified b then LetThrough b else Refused RejectedPayment (bl_error b) b)
      else mret (LetThrough no_billing)
  | Some claims =>
      answer ← ask_service (λ now, Ok (run_billing_gate now request claims org byok fee));
      match answer with
      | GateAdmits b => mret (LetThrough b)
      | GateAnswers error b => mret (Refused RejectedPayment (if is_empty error then "Payment required" else error) b)
      | GateRefuses status detail =>
          if status =? 402 then mret (Refused RejectedAuthCredit detail (no_billing <| bl_method := "credit" |>)) else raise (RuntimeError detail)
      | GateFails => raise (RuntimeError "billing gate")
      end
  end.

(** The value of [billing] once admission has refused: a 402 of the gate leaves it unset. *)
Definition billing_after (state : InboundTaskState) (b : Billed) : Billed := match state with RejectedAuthCredit => no_billing | _ => b end.

Definition run_agent_once (args : RunArgs) : IH run_answer :=
  external (λ now x, let answer := run_agent now args in
    (Ok answer, match answer with RunAtCapacity _ => x | _ => x <| run_log ::= λ l, l ++ [ra_run args] |> end)).

Definition release_nonce (header : string) : IH unit := external (λ _ x, (Ok tt, x <| released ::= λ l, l ++ [header] |>)).

(** [except Exception] of the job: [b] is the value of [billing] at that point. *)
Definition guarded_job {A} (task_id : string) (row : A2AInboundTask) (b : Billed) (m : IH A) (k : A → IH job_end) : IH job_end :=
  r ← catch (a ← m; mret (Some a)) (λ _, mret None);
  match (r : option A) with
  | Some a => k a
  | None => _finish_async_task task_id row Failed "Task failed." "Task failed." b None 0 None None 0;; mret JobDone
  end.

Definition run_args (payload : option Claims) (user_message run thread : string) (org user : string) (b : Billed) (byok : bool) (fee : Z)
    (body : A2ASendMessageRequest) (auth : string) (jwt : option string) : RunArgs :=
  let '(usage_user, usage_org) := _usage_identity payload b user org run in
  MkRunArgs org user usage_user usage_org user_message run thread b byok fee (sr_metadata body) (sr_context_id body) (sr_task_id body) auth
    (match payload with Some c => cl_role c | None => "anonymous" end) (payload ≫= cl_address) jwt.

Definition start_run (j : Job Req) (row : A2AInboundTask) (byok : bool) (fee : Z) (b : Billed) : IH run_answer :=
  (if bl_verified b then mark_inbound_task_billing_method (job_id j) (bl_method b) else mret tt);;
  run_agent_once (run_args (job_payload j) (user_message row) (run_id row) (thread_of (caller_user_id row) (client_task_id row) (context_id row) (run_id row))
    (caller_org_id row) (caller_user_id row) b byok fee (job_body j) (match job_payload j with Some c => cl_auth_method c | None => "" end) (job_jwt j)).

Definition after_run (j : Job Req) (row : A2AInboundTask) (b : Billed) (answer : run_answer) : IH job_end :=
  let task_id := job_id j in
  match answer with
  | RunDone r b =>
      let output := match rr_state r with Timeout => "Task failed." | _ => rr_output r end in
      let error := if bool_decide (rr_state r = Completed) then "" else rr_output r in
      let withheld := _x402_result_withheld b r in
      guarded_job task_id row b
        (_finish_async_task task_id row (if withheld then RejectedPayment else rr_state r)
           (if withheld then _SETTLEMENT_WITHHELD else output) (if withheld then _SETTLEMENT_WITHHELD else error) b
           (Some (rr_usage_id r)) (rr_cost r) (Some (Z.max 0 (rr_amount r))) (Some (rr_tx r)) (rr_duration r))
        (λ _, mret JobDone)
  | RunAtCapacity _ =>
      (if given (job_header j) && String.eqb (bl_method b) "x402" then release_nonce (default "" (job_header j)) else mret tt);;
      _finish_async_task task_id row Failed "Agent run capacity is temporarily exhausted. Please retry shortly."
        "Agent run capacity is temporarily exhausted." b None 0 (Some 0) None 0;;
      mret JobDone
  | RunFails b => _finish_async_task task_id row Failed "Task failed." "Task failed." b None 0 None None 0;; mret JobDone
  | RunCancelled b =>
      _finish_async_task task_id row Failed "Task cancelled before completion." "Task cancelled before completion." b None 0 None None 0;;
      mret JobCancelled
  end.

(** The part of the job after admission *)
Definition conclude (j : Job Req) (row : A2AInboundTask) (x : bool * Z * admission_verdict) : IH job_end :=
  let '(byok, fee, verdict) := x in
  match verdict with
  | Refused state error b =>
      guarded_job (job_id j) row (billing_after state b)
        (_finish_async_task (job_id j) row state error error b None 0 None None 0) (λ _, mret JobDone)
  | LetThrough b => guarded_job (job_id j) row b (start_run j row byok fee b) (after_run j row b)
  end.

Definition admit_claimed (j : Job Req) (row : A2AInboundTask) : IH (bool * Z * admission_verdict) :=
  let org := caller_org_id row in
  byok ← (if is_empty org then mret false else ask_service (λ now, org_is_byok now org));
  let fee := get_byok_platform_fee byok in
  verdict ← admit_task (job_payload j) (job_header j) (job_requirements j) (job_request j) org byok fee;
  mret (byok, fee, verdict).

Definition _run_async_inbound_task (j : Job Req) : IH job_end :=
  taken_row ← claim_inbound_task owner lease (job_id j);
  match (taken_row : option A2AInboundTask) with
  | None => mret JobDone
  | Some row => guarded_job (job_id j) row no_billing (admit_claimed j row) (conclude j row)
  end.

(** ** Endpoints *)
Definition _parse_auth_payload (r : A2ARequest) : IH (A2AResponse + option Claims) :=
  match _extract_bearer_token r with
  | inl e => mret (inl e)
  | inr None => mret (inr None)
  | inr (Some token) =>
      now ← datetime_now;
      match decode_access_token now token with
      | TokenExpired => mret (inl (ErrorReply 401 "Token has expired"))
      | TokenInvalid => mret (inl (ErrorReply 401 "Invalid token"))
      | TokenValid claims =>
          revoked ← ask_service (λ now, is_machine_credential_revoked now claims);
          mret (if revoked : bool then inl (ErrorReply 403 "Credential has been disabled.") else inr (Some claims))
      end
  end.

Definition _request_client_ip (r : A2ARequest) : string :=
  client_ip_from_request addr_text (rq_peer r) (rq_forwarded r) (trusted_proxy_count cfg).

Definition check_limit (key : string) (limit : Z) : IH bool := ask_service (λ now, Ok (within_limit now key limit)).

Definition _enforce_anonymous_rate_limit (r : A2ARequest) : IH (option A2AResponse) :=
  let ip := _request_client_ip r in
  if is_empty ip then mret None
  else allowed ← check_limit ("a2a:ip:" +:+ ip) (rate_limit_requests_per_minute cfg);
       mret (if allowed : bool then None else Some (ErrorReply 429 "Anonymous rate limit exceeded")).

Definition _enforce_caller_rate_limits (c : Claims) : IH (option A2AResponse) :=
  allowed ← check_limit ("a2a:msg:user:" +:+ cl_sub c) (rate_limit_agent_rpm cfg);
  if negb allowed then mret (Some (ErrorReply 429 "Rate limit exceeded. Please slow down."))
  else if is_empty (cl_org c) then mret None
  else allowed ← check_limit ("a2a:msg:org:" +:+ cl_org c) (rate_limit_org_agent_rpm cfg);
       mret (if allowed : bool then None else Some (ErrorReply 429 "Organization rate limit exceeded. Please slow down.")).

Definition intro_pricing_unavailable : A2AResponse := ErrorReply 503 "A2A intro pricing is temporarily unavailable".

Definition _a2a_intro_payment_requirements : IH (A2AResponse + option (list Req)) :=
  if a2a_inbound_intro_price_usdc cfg <=? 0 then mret (inr None)
  else match build_exact_payment_requirements (a2a_inbound_intro_price_usdc cfg) with
  | Ok (Some (r :: rs)) => mret (inr (Some (r :: rs)))
  | Ok _ => mret (inl intro_pricing_unavailable)
  | Raise (RuntimeError _) | Raise (ValueError _) => mret (inl intro_pricing_unavailable)
  | Raise e => raise e
  end.

(** The 402 answer; a [RuntimeError] of its construction leaves the bare error. *)
Definition challenge_reply (error : string) (requirements : option (list Req)) : IH A2AResponse :=
  match payment_challenge error requirements with
  | Ok _ | Raise (RuntimeError _) => mret (ChallengeReply error)
  | Raise e => raise e
  end.

Definition unpaid_challenge (requirements : option (list Req)) : IH A2AResponse :=
  match payment_challenge "Payment required" requirements with
  | Ok _ => mret (ChallengeReply "Payment required")
  | Raise (RuntimeError _) => mret (ErrorReply 503 "Payment service temporarily unavailable")
  | Raise e => raise e
  end.

(** The request as an object, and the JSON-RPC id *)
Definition _parse_send_body (raw_body : json) : A2AResponse + (A2ASendMessageRequest * option json) :=
  let check (params : json) (rpc_id : option json) :=
    match params with
    | JObj _ => match validate_request params with Some body => inr (body, rpc_id) | None => inl (ErrorReply 422 "validation errors") end
    | _ => inl (ErrorReply 422 "Request body must be an object")
    end in
  match raw_body with
  | JObj kvs =>
      match dict_get kvs "params" with
      | Some params =>
          let method := match dict_get kvs "method" with
                        | Some m => if truthy m then py_strip (py_str repr m) else ""
                        | None => "" end in
          if negb (is_empty method) && negb (bool_decide (method ∈ ["message/send"; "message:send"])) then inl (ErrorReply 422 "Unsupported RPC method")
          else check params (match dict_get kvs "id" with Some JNull | None => None | id => id end)
      | None => check raw_body None
      end
  | _ => check raw_body None
  end.

Definition _task_request_matches (row : A2AInboundTask) (body : A2ASendMessageRequest) : bool :=
  match message_validate (message row) with
  | None => false
  | Some stored =>
      py_eq (message_dump stored) (message_dump (sr_message body)) && py_eq (metadata row) (sr_metadata body)
      && String.eqb (context_id row) (default "" (sr_context_id body)) && String.eqb (client_task_id row) (default "" (sr_task_id body))
  end.

Definition _task_request_body (row : A2AInboundTask) : option A2ASendMessageRequest :=
  m ← message_validate (message row);
  Some (MkSendRequest m (metadata row) (if is_empty (context_id row) then None else Some (context_id row))
          (if is_empty (client_task_id row) then None else Some (client_task_id row))).

Definition message_status (task_id : string) (r : A2ARequest) : IH A2AResponse :=
  if negb (a2a_inbound_enabled cfg) then mret (ErrorReply 404 "A2A inbound endpoint disabled")
  else
    payload ← _parse_auth_payload r;
    match (payload : A2AResponse + option Claims) with
    | inl e => mret e
    | inr payload =>
        row ← match payload with
              | None => get_inbound_task task_id AnonymousReader
              | Some c => if is_empty (cl_org c) || is_empty (cl_sub c) then mret None else get_inbound_task task_id (CallerReader (cl_org c) (cl_sub c))
              end;
        match (row : option A2AInboundTask) with
        | None => mret (ErrorReply 404 "A2A task not found")
        | Some row =>
            match _task_request_body row with
            | None => raise (ValueError "stored message")
            | Some body =>
                mret (_build_task_response (sr_message body) task_id (_task_response_state (task_state row)) (or_else (output_text row) (tk_error row)) None
                        (if is_terminal (task_state row) then None else Some (_task_status_path task_id)) 200)
            end
        end
    end.

(** What [message_send] knows of its caller *)
Record Caller := MkCaller { ca_run : string; ca_payload : option Claims; ca_header : option string; ca_ip : string; ca_jwt : option string }.
Definition ca_org (c : Caller) : string := match ca_payload c with Some p => cl_org p | None => "" end.
Definition ca_user (c : Caller) : string := match ca_payload c with Some p => cl_sub p | None => "" end.
Definition ca_auth (c : Caller) : string := match ca_payload c with Some p => cl_auth_method p | None => "" end.
Definition ca_audit_auth (c : Caller) : string := or_else (ca_auth c) "anonymous".

Definition queue_unavailable : A2AResponse := ErrorReply 503 "A2A task queue temporarily unavailable".

(** The answer for a task that exists already *)
Definition answer_existing (task_id : string) (row : A2AInboundTask) (body : A2ASendMessageRequest) (rpc_id : option json) : A2AResponse :=
  if _task_request_matches row body then
    let finished := is_terminal (task_state row) in
    _build_task_response (sr_message body) task_id (_task_response_state (task_state row)) (or_else (output_text row) (tk_error row)) rpc_id
      (if finished then None else Some (_task_status_path task_id)) (if finished then 200 else 202)
  else ErrorReply 409 "Client task ID is already associated with a different request".

Definition send_async (r : A2ARequest) (c : Caller) (body : A2ASendMessageRequest) (user_message : string) (rpc_id : option json)
    (requirements : option (list Req)) : IH A2AResponse :=
  async_task_id ← uuid4 supply;
  created ← catch (t ← create_inbound_task owner lease async_task_id
                     (MkTaskRequest (ca_run c) (default "" (sr_task_id body)) (default "" (sr_context_id body)) (message_dump (sr_message body)) (sr_metadata body)
                        user_message (ca_org c) (ca_user c) (ca_ip c) (ca_audit_auth c)); mret (Some t))
                  (λ _, mret None);
  match (created : option (string * A2AInboundTask * bool)) with
  | None => mret queue_unavailable
  | Some (task_id, row, false) => mret (answer_existing task_id row body rpc_id)
  | Some (task_id, row, true) =>
      queued ← enqueue_inbound_task task_id (MkJob r task_id row body (ca_payload c) (ca_header c) requirements (ca_jwt c));
      if queued : bool then mret (_build_task_response (sr_message body) task_id "submitted" "" rpc_id (Some (_task_status_path task_id)) 202)
      else
        catch (_finish_async_task task_id row Failed "Task queue is full." "Task queue is full." no_billing None 0 None None 0) (λ _, mret tt);;
        mret (ErrorReply 503 "A2A task queue is full")
  end.

(** A row of the audit trail for a request answered at once *)
Definition sync_event (c : Caller) (body : A2ASendMessageRequest) (state : InboundTaskState) (b : Billed) (usage : option string) (cost amount : Z)
    (tx method : string) (duration : Z) (error : string) : InboundEvent :=
  MkInboundEvent (ca_run c) usage (ca_org c) (ca_user c) (_payment_caller_address b) (ca_ip c) (ca_audit_auth c) (default "" (sr_context_id body))
    (or_else (default "" (sr_task_id body)) (ca_run c)) state cost amount tx method duration error.

Definition admit_sync (r : A2ARequest) (c : Caller) (body : A2ASendMessageRequest) (requirements : option (list Req)) (byok : bool) (fee : Z) : IH (A2AResponse + Billed) :=
  let refuse (state : InboundTaskState) (b : Billed) (method error : string) := _record_inbound_event (sync_event c body state b None 0 0 "" method 0 error) in
  match ca_payload c with
  | None =>
      if a2a_billing_enabled cfg then
        b ← ask_service (λ now, verify_payment now (ca_header c) requirements);
        if bl_verified b then mret (inr b)
        else refuse RejectedPayment b "x402" (bl_error b);; answer ← challenge_reply (bl_error b) requirements; mret (inl answer)
      else mret (inr no_billing)
  | Some claims =>
      answer ← ask_service (λ now, Ok (run_billing_gate now r claims (ca_org c) byok fee));
      match answer with
      | GateAdmits b => mret (inr b)
      | GateAnswers error b =>
          (if given (ca_header c) then refuse RejectedPayment b "x402" error else mret tt);;
          mret (inl (ChallengeReply error))
      | GateRefuses status detail =>
          (if status =? 402 then refuse RejectedAuthCredit no_billing "credit" detail else mret tt);;
          mret (inl (ErrorReply status detail))
      | GateFails => raise (RuntimeError "billing gate")
      end
  end.

Definition answer_run (c : Caller) (body : A2ASendMessageRequest) (requirements : option (list Req)) (rpc_id : option json) (r : AgentRunOnceResult) (b : Billed) : IH A2AResponse :=
  let withheld := _x402_result_withheld b r in
  let completed := bool_decide (rr_state r = Completed) in
  _record_inbound_event (sync_event c body (if withheld then RejectedPayment else rr_state r) b (Some (rr_usage_id r)) (rr_cost r) (rr_amount r) (rr_tx r)
    (if bl_verified b then bl_method b else "") (rr_duration r) (if withheld then _SETTLEMENT_WITHHELD else if completed then "" else rr_output r));;
  if withheld then challenge_reply _SETTLEMENT_WITHHELD requirements
  else
    let answer := _build_task_response (sr_message body) (or_else (default "" (sr_task_id body)) (ca_run c)) (rr_response_state r)
                    (match rr_state r with Timeout => "Task failed." | _ => rr_output r end) rpc_id None 200 in
    mret (if bl_verified b && String.eqb (bl_method b) "x402" && negb (is_empty (rr_tx r)) then
            match answer with
            | TaskReply status task rpc path _ => TaskReply status task rpc path (Some (rr_tx r, rr_amount r))
            | other => other
            end
          else answer).

Definition send_sync (r : A2ARequest) (c : Caller) (body : A2ASendMessageRequest) (user_message : string) (rpc_id : option json)
    (requirements : option (list Req)) : IH A2AResponse :=
  let task := default "" (sr_task_id body) in
  byok ← (if is_empty (ca_org c) then mret false else ask_service (λ now, org_is_byok now (ca_org c)));
  let fee := get_byok_platform_fee byok in
  admitted ← admit_sync r c body requirements byok fee;
  match (admitted : A2AResponse + Billed) with
  | inl answer => mret answer
  | inr b =>
      answer ← run_agent_once (run_args (ca_payload c) user_message (ca_run c) (thread_of (ca_user c) task (default "" (sr_context_id body)) (ca_run c))
                 (ca_org c) (ca_user c) b byok fee body (ca_auth c) (ca_jwt c));
      match answer with
      | RunDone result b => answer_run c body requirements rpc_id result b
      | RunAtCapacity detail =>
          (if given (ca_header c) && String.eqb (bl_method b) "x402" then release_nonce (default "" (ca_header c)) else mret tt);;
          mret (ErrorReply 503 detail)
      | RunFails _ | RunCancelled _ => raise (RuntimeError "agent run")
      end
  end.

Definition message_send (r : A2ARequest) : IH A2AResponse :=
  if negb (a2a_inbound_enabled cfg) then mret (ErrorReply 404 "A2A inbound endpoint disabled")
  else
    run ← uuid4 supply;
    payload ← _parse_auth_payload r;
    match (payload : A2AResponse + option Claims) with
    | inl e => mret e
    | inr payload =>
        let c := MkCaller run payload (payment_header_of r) (_request_client_ip r)
                   (match _extract_bearer_token r with inr token => token | inl _ => None end) in
        limited ← match payload with Some claims => _enforce_caller_rate_limits claims | None => _enforce_anonymous_rate_limit r end;
        match (limited : option A2AResponse) with
        | Some e => mret e
        | None =>
            let priced := bool_decide (payload = None) && a2a_billing_enabled cfg in
            if priced && negb (given (ca_header c)) then
              requirements ← _a2a_intro_payment_requirements;
              match (requirements : A2AResponse + option (list Req)) with inl e => mret e | inr requirements => unpaid_challenge requirements end
            else
              match rq_body r with
              | None => mret (ErrorReply 422 "Invalid JSON body")
              | Some raw_body =>
                  match _parse_send_body raw_body with
                  | inl e => mret e
                  | inr (body, rpc_id) =>
                      match _message_text (sr_message body) with
                      | inl e => mret e
                      | inr user_message =>
                          requirements ← (if priced then _a2a_intro_payment_requirements else mret (inr None));
                          match (requirements : A2AResponse + option (list Req)) with
                          | inl e => mret e
                          | inr requirements =>
                              if _prefers_async cfg r then send_async r c body user_message rpc_id requirements
                              else send_sync r c body user_message rpc_id requirements
                          end
                      end
                  end
              end
        end
    end.

(** ** Recovery of other processes' tasks (teardrop/_background_tasks.py) *)
Definition _record_recovered_a2a_task_audits (recovered : list (string * A2AInboundTask)) : IH unit :=
  for_each recovered tt (λ _ kv,
    let row := kv.2 in
    cost ← match usage_event_id row with
           | Some id =>
               if is_empty id then mret (Z.max 0 (tk_cost row))
               else catch (c ← query (λ _ d, usage_costs d !! id); mret (match c with Some c => Z.max 0 c | None => Z.max 0 (tk_cost row) end))
                          (λ _, mret (Z.max 0 (tk_cost row)))
           | None => mret (Z.max 0 (tk_cost row))
           end;
    _record_inbound_event (MkInboundEvent (run_id row) (usage_event_id row) (caller_org_id row) (caller_user_id row) "" (caller_ip row) (auth_method row)
      (context_id row) kv.1 Failed cost (settlement_amount row) (settlement_tx row) (billing_method row) (duration_ms row) (tk_error row))).

Definition _a2a_inbound_task_recovery_iter (fuel : nat) : IH unit :=
  recovered ← recover_orphaned_inbound_tasks owner fuel 500;
  _record_recovered_a2a_task_audits (default [] recovered).
End inbound.

(** ** The operations of a process, in any order *)
Section history.
Context {Req : Type} (cfg : InboundSettings) (owner : string) (lease : Z) (supply : nat → string) (addr_text : string → string).
Context (repr : json → string) (validate_request : json → option A2ASendMessageRequest).
Context (message_validate : json → option A2AMessage) (message_dump : A2AMessage → json).
Context (decode_access_token : Z → string → token_verdict) (is_machine_credential_revoked : Z → Claims → res bool).
Context (within_limit : Z → string → Z → bool).
Context (build_exact_payment_requirements : Z → res (option (list Req))) (payment_challenge : string → option (list Req) → res unit).
Context (verify_payment : Z → option string → option (list Req) → res Billed).
Context (run_billing_gate : Z → A2ARequest → Claims → string → bool → Z → gate_answer).
Context (org_is_byok : Z → string → res bool) (get_byok_platform_fee : bool → Z) (run_agent : Z → RunArgs → run_answer).
Abbreviation IH := (M TasksDb (TasksExt (Job Req))).

Abbreviation send := (message_send cfg owner lease supply addr_text repr validate_request message_validate message_dump decode_access_token
  is_machine_credential_revoked within_limit build_exact_payment_requirements payment_challenge verify_payment run_billing_gate org_is_byok get_byok_platform_fee run_agent).
Abbreviation show := (message_status cfg message_validate decode_access_token is_machine_credential_revoked).
Abbreviation run_job := (_run_async_inbound_task cfg owner lease supply verify_payment run_billing_gate org_is_byok get_byok_platform_fee run_agent).

Inductive a2a_op : Type :=
| OpSend (r : A2ARequest) | OpStatus (task_id : string) (r : A2ARequest) | OpWorker | OpHeartbeat | OpRecovery (fuel : nat)
| OpCleanup (fuel : nat) (ttl_days batch_size : Z) | OpStart (max_concurrency queue_size : Z) | OpStop.

Definition perform_a2a_op (op : a2a_op) : IH unit :=
  match op with
  | OpSend r => send r;; mret tt
  | OpStatus task_id r => show task_id r;; mret tt
  | OpWorker => _inbound_task_worker owner run_job;; mret tt
  | OpHeartbeat => _inbound_task_heartbeat owner lease
  | OpRecovery fuel => _a2a_inbound_task_recovery_iter owner supply fuel
  | OpCleanup fuel ttl_days batch_size => cleanup_terminal_inbound_tasks fuel ttl_days batch_size;; mret tt
  | OpStart max_concurrency queue_size => start_inbound_task_workers max_concurrency queue_size
  | OpStop => stop_inbound_task_workers owner
  end.

Definition a2a_history (ops : list a2a_op) : IH unit :=
  for_each ops tt (λ _ op, catch (perform_a2a_op op) (λ _, mret tt)).

(** *** What moves keep, the operations keep *)

Lemma wpi_drawn {D X} (I : D → X → Prop) (Q : res string → Prop) :
  (∀ n, Q (Ok (supply n))) → wpi I (uuid4 supply : M D X string) Q.
Proof. intros HQ w Hw. cbn. split_and!; [done..|apply HQ]. Qed.

(** A completed outcome paid by x402 names its settlement. *)
Definition settled_outcome (o : TaskOutcome) : Prop := oc_state o = Completed → oc_method o = "x402" → oc_tx o ≠ "".

Section kept.
Context (writable : TaskOutcome → Prop) (unused : string → TaskRequest → Prop) (I : TasksDb → TasksExt (Job Req) → Prop).
Context (HI : keeps_moves writable unused I) (Hwritable : ∀ o, settled_outcome o → writable o).

Lemma failed_writable error : writable (no_outcome Failed "" error).
Proof. by apply Hwritable. Qed.

Lemma kept_external {A} (f : Z → TasksExt (Job Req) → res A * TasksExt (Job Req)) :
  (∀ now x, run_log (f now x).2 = run_log x) → preserves I (external f).
Proof. intros Hf. apply preserves_external. intros now d x Hd. eapply (km_ext _ _ _ HI); [exact Hd|apply Hf]. Qed.

Lemma keeps_ask {A} (f : Z → res A) : preserves I (ask_service f).
Proof. by apply kept_external. Qed.

Lemma keeps_event e : preserves I (_record_inbound_event supply e).
Proof.
  unfold _record_inbound_event. apply preserves_catch; [|intros ?; apply preserves_ret]. apply preserves_bind; [by apply wpi_uuid4|]. intros id.
  apply (kept_stmt writable unused I HI). intros now d a d'. cbv zeta.
  destruct (negb _); [done|]. destruct (negb _); [done|]. case_bool_decide; [done|]. intros [= _ <-]. by apply table_move_refl.
Qed.

Create HintDb inbound.
#[local] Hint Resolve keeps_ask keeps_event preserves_ret preserves_raise : inbound.
Ltac keep_inbound := repeat (intros; first [done | solve [eauto 3 with inbound nocore] | preserve_step]).

Lemma keeps_finish_async t row state output error b usage cost amount tx duration :
  (state = Completed → bl_verified b = true → bl_method b = "x402" → ∃ s, tx = Some s ∧ s ≠ "") →
  preserves I (_finish_async_task owner supply t row state output error b usage cost amount tx duration).
Proof.
  intros Hs. unfold _finish_async_task. apply preserves_bind; [|intros [?|]; keep_inbound]. apply (keeps_finish writable unused I HI).
  apply Hwritable. unfold settled_outcome. cbn. intros ->. destruct (bl_verified b) eqn:Hv; [|done]. intros Hm.
  destruct (Hs eq_refl eq_refl Hm) as (s & -> & ?). done.
Qed.

Lemma keeps_finish_any t row state output error b usage cost amount tx duration :
  (∀ o, writable o) → preserves I (_finish_async_task owner supply t row state output error b usage cost amount tx duration).
Proof. intros Hw. unfold _finish_async_task. apply preserves_bind; [by apply (keeps_finish writable unused I HI)|intros [?|]; keep_inbound]. Qed.

Lemma keeps_failed t row state output error b usage cost amount tx duration :
  state ≠ Completed → preserves I (_finish_async_task owner supply t row state output error b usage cost amount tx duration).
Proof. intros Hs. by apply keeps_finish_async. Qed.
Ltac keep_inbound ::= repeat (intros; first [done | solve [eauto 3 with inbound nocore] | by apply keeps_failed | preserve_step]).

Lemma keeps_guarded {A} t row b (m : IH A) k :
  preserves I m → (∀ a, preserves I (k a)) → preserves I (guarded_job owner supply t row b m k).
Proof.
  intros Hm Hk. unfold guarded_job. apply preserves_bind; [apply preserves_catch; [apply preserves_bind; [done|]; intros; apply preserves_ret|intros ?; apply preserves_ret]|].
  intros [a|]; [apply Hk|]. apply preserves_bind; [by apply keeps_failed|intros ?; apply preserves_ret].
Qed.

Lemma keeps_admit_task payload header reqs r org byok fee :
  preserves I (admit_task cfg verify_payment run_billing_gate payload header reqs r org byok fee).
Proof. unfold admit_task. keep_inbound. Qed.

Lemma kept_release header : preserves I (release_nonce header).
Proof. by apply kept_external. Qed.
#[local] Hint Resolve kept_release keeps_admit_task : inbound.

(** What is left to do once the run has answered *)
Lemma keeps_result t row r b :
  preserves I (_finish_async_task owner supply t row (if _x402_result_withheld b r then RejectedPayment else rr_state r)
    (if _x402_result_withheld b r then _SETTLEMENT_WITHHELD else match rr_state r with Timeout => "Task failed." | _ => rr_output r end)
    (if _x402_result_withheld b r then _SETTLEMENT_WITHHELD else if bool_decide (rr_state r = Completed) then "" else rr_output r) b
    (Some (rr_usage_id r)) (rr_cost r) (Some (Z.max 0 (rr_amount r))) (Some (rr_tx r)) (rr_duration r)).
Proof.
  apply keeps_finish_async. unfold _x402_result_withheld. intros Hs Hv Hm. exists (rr_tx r). split; [done|]. intros Htx.
  rewrite Hv, Hm, Htx in Hs. cbn in Hs. case_bool_decide; [done|]. by destruct (rr_state r).
Qed.
Lemma keeps_after_run j row b answer : preserves I (after_run owner supply j row b answer).
Proof.
  destruct answer; cbn [after_run]; [apply keeps_guarded; [apply keeps_result|intros; apply preserves_ret]|keep_inbound..].
Qed.

Lemma keeps_admit_claimed j row : preserves I (admit_claimed cfg verify_payment run_billing_gate org_is_byok get_byok_platform_fee j row).
Proof. unfold admit_claimed. keep_inbound. Qed.

(** A refusal is no completed outcome. *)
Lemma refusals_fail payload header reqs r org byok fee :
  wpi I (admit_task cfg verify_payment run_billing_gate payload header reqs r org byok fee)
    (λ v, match v with Ok (Refused state _ _) => state ≠ Completed | _ => True end).
Proof.
  unfold admit_task. destruct payload as [claims|].
  - apply wpi_bind. eapply wpi_mono; [apply keeps_ask|]. intros [[]|e] _; try (by apply wpi_ret); [|by apply wpi_raise|done].
    destruct (_ =? 402); [by apply wpi_ret|by apply wpi_raise].
  - destruct (a2a_billing_enabled cfg); [|by apply wpi_ret]. apply wpi_bind. eapply wpi_mono; [apply keeps_ask|].
    intros [b|e] _; [|done]. apply wpi_ret. by destruct (bl_verified b).
Qed.

Lemma keeps_show t r : preserves I (show t r).
Proof.
  unfold message_status, _parse_auth_payload. keep_inbound. all: try apply (keeps_get_task (J := Job Req)).
Qed.

Lemma keeps_recovery fuel : preserves I (_a2a_inbound_task_recovery_iter owner supply fuel).
Proof.
  unfold _a2a_inbound_task_recovery_iter, _record_recovered_a2a_task_audits.
  apply preserves_bind; [apply (keeps_recover writable unused I HI)|]. intros. keep_inbound.
Qed.

Lemma keeps_admit_sync r c body reqs byok fee :
  preserves I (admit_sync cfg supply payment_challenge verify_payment run_billing_gate r c body reqs byok fee).
Proof. unfold admit_sync, challenge_reply. keep_inbound. Qed.

Lemma keeps_answer_run c body reqs rpc r b : preserves I (answer_run supply payment_challenge c body reqs rpc r b).
Proof. unfold answer_run, challenge_reply. keep_inbound. Qed.

Context (Hfresh : ∀ n m req, run_id req = supply m → unused (supply n) req).
Context (Hruns : ∀ d x n, I d x → I d (x <| run_log ::= λ l, l ++ [supply n] |>)).

Lemma keeps_send_async r c body text rpc reqs n :
  ca_run c = supply n → preserves I (send_async owner lease supply message_validate message_dump r c body text rpc reqs).
Proof.
  intros Hc. unfold send_async. apply wpi_bind, wpi_drawn. intros m. apply preserves_bind.
  - apply preserves_catch; [|intros ?; apply preserves_ret]. apply preserves_bind; [|intros ?; apply preserves_ret].
    apply (keeps_create_task writable unused I HI). by eapply Hfresh.
  - intros [[[t row] []]|]; try apply preserves_ret. apply preserves_bind; [apply (keeps_enqueue writable unused I HI)|]. keep_inbound.
Qed.

Lemma keeps_run_agent args n : ra_run args = supply n → preserves I (run_agent_once run_agent args).
Proof.
  intros Ha. apply preserves_external. intros now d x Hd. cbn. destruct (run_agent now args); cbn; rewrite ?Ha; by try apply Hruns.
Qed.

Lemma ra_run_args payload text run thread org user b byok fee body auth jwt :
  ra_run (run_args payload text run thread org user b byok fee body auth jwt) = run.
Proof. unfold run_args. by destruct (_usage_identity _ _ _ _ _). Qed.

Lemma keeps_send_sync r c body text rpc reqs n :
  ca_run c = supply n →
  preserves I (send_sync cfg supply payment_challenge verify_payment run_billing_gate org_is_byok get_byok_platform_fee run_agent r c body text rpc reqs).
Proof.
  intros Hc. unfold send_sync. apply preserves_bind; [keep_inbound|]. intros byok. apply preserves_bind; [apply keeps_admit_sync|].
  intros [answer|b]; [apply preserves_ret|]. apply preserves_bind; [by eapply keeps_run_agent; rewrite ra_run_args|].
  intros []; [apply keeps_answer_run|keep_inbound..].
Qed.

Lemma keeps_send r : preserves I (send r).
Proof.
  unfold message_send, _parse_auth_payload. destruct (negb _); [apply preserves_ret|]. apply wpi_bind, wpi_drawn. intros n.
  apply preserves_bind; [keep_inbound|]. intros [e|payload]; [apply preserves_ret|]. cbv zeta. apply preserves_bind.
  { unfold _enforce_caller_rate_limits, _enforce_anonymous_rate_limit, check_limit. keep_inbound. }
  intros [e|]; [apply preserves_ret|]. destruct (_ && _).
  { unfold _a2a_intro_payment_requirements, unpaid_challenge. keep_inbound. }
  destruct (rq_body r) as [raw|]; [|apply preserves_ret]. destruct (_parse_send_body _ _ raw) as [e|[body rpc]]; [apply preserves_ret|].
  destruct (_message_text _) as [e|text]; [apply preserves_ret|]. apply preserves_bind.
  { unfold _a2a_intro_payment_requirements. keep_inbound. }
  intros [e|reqs]; [apply preserves_ret|]. destruct (_prefers_async _ _); [by eapply keeps_send_async|by eapply keeps_send_sync].
Qed.

(** Every operation but the worker's, whose runs are not among the fresh ones *)
Lemma kept_op op : op ≠ OpWorker → preserves I (perform_a2a_op op).
Proof.
  assert (∀ error, writable (no_outcome Failed "" error)) as Hf by apply failed_writable.
  destruct op; intros Hop; cbn [perform_a2a_op]; [..|done| | | | |].
  - apply preserves_bind; [apply keeps_send|intros; apply preserves_ret].
  - apply preserves_bind; [apply keeps_show|intros; apply preserves_ret].
  - apply (keeps_heartbeat writable unused I HI).
  - apply keeps_recovery.
  - apply preserves_bind; [apply (keeps_cleanup writable unused I HI)|intros; apply preserves_ret].
  - apply (keeps_start writable unused I HI).
  - by apply (keeps_stop writable unused I HI).
Qed.

(** What does not depend on the runs, jobs keep too. *)
Lemma keeps_job j : (∀ d x x', I d x → I d x') → preserves I (run_job j).
Proof.
  intros Hany. unfold _run_async_inbound_task. apply preserves_bind; [apply (keeps_claim writable unused I HI)|].
  intros [row|]; [|apply preserves_ret]. unfold guarded_job at 1. apply wpi_bind, wpi_catch, wpi_bind.
  unfold admit_claimed. apply wpi_bind.
  assert (preserves I (if is_empty (caller_org_id row) then mret false else ask_service (λ now, org_is_byok now (caller_org_id row)))) as Hbyok by keep_inbound.
  eapply wpi_mono; [exact Hbyok|]. intros [byok|e] _; cbn beta; [|clear Hbyok].
  2: { apply wpi_ret. apply preserves_bind; [by apply keeps_failed|intros ?; apply preserves_ret]. }
  apply wpi_bind. eapply wpi_mono; [apply refusals_fail|]. intros [v|e] Hv; cbn beta.
  2: { apply wpi_ret. apply preserves_bind; [by apply keeps_failed|intros ?; apply preserves_ret]. }
  apply wpi_ret, wpi_ret. cbn [conclude]. destruct v as [state error b|b].
  - apply keeps_guarded; [by apply keeps_failed|intros; apply preserves_ret].
  - apply keeps_guarded; [|intros; apply keeps_after_run]. unfold start_run. apply preserves_bind.
    + destruct (bl_verified b); [apply (keeps_mark writable unused I HI)|apply preserves_ret].
    + intros _. apply preserves_external. intros now d x Hd. by eapply Hany.
Qed.

Lemma keeps_history ops : (∀ d x x', I d x → I d x') → preserves I (a2a_history ops).
Proof.
  intros Hany. apply preserves_for_each. intros _ op. apply preserves_catch; [|intros ?; apply preserves_ret].
  destruct op; try by apply kept_op. cbn [perform_a2a_op]. apply preserves_bind; [|intros; apply preserves_ret].
  apply (keeps_worker writable unused I HI); [by apply failed_writable|]. intros. by apply keeps_job.
Qed.
End kept.

(** *** Rows only move forward *)
Definition progress (s : InboundTaskState) : Z := match s with Submitted => 0 | Running => 1 | _ => 2 end.
Definition is_final (r : A2AInboundTask) : bool := is_terminal (task_state r) && negb (recovered_failure r).

Record moved_on (r r' : A2AInboundTask) : Prop := {
  mo_request : tk_request r' = tk_request r;
  mo_owner : worker_owner_id r' = worker_owner_id r;
  mo_created : tk_created_at r' = tk_created_at r;
  mo_state : progress (task_state r) ≤ progress (task_state r');
  mo_finished : ∀ t, finished_at r = Some t → finished_at r' = Some t;
  mo_final : is_final r = true → r' = r;
}.

#[export] Instance moved_on_preorder : PreOrder moved_on.
Proof.
  split; [by split|]. intros r1 r2 r3 [] []. split; try congruence; [lia|naive_solver|].
  intros Hf. assert (r2 = r1) as -> by auto. auto.
Qed.

Lemma progress_terminal s : is_terminal s = true → progress s = 2.
Proof. by destruct s. Qed.

Lemma row_move_on ok r r' : row_move ok r r' → moved_on r r'.
Proof.
  destruct 1 as [o l now r Hc|o l now r Hm|method now r Hr|o out now r _ Ht Hf|o now r Ho].
  - unfold claimable_task in Hc. apply andb_true_iff in Hc as [[Hs _]%andb_true_iff _]. apply bool_decide_eq_true in Hs.
    split; try done; cbn; [by rewrite Hs|]. unfold is_final. by rewrite Hs.
  - unfold mine_active in Hm. apply andb_true_iff in Hm as [_ Ha]. split; try done. unfold is_final, is_active_task in *.
    destruct (task_state r); done.
  - split; try done. unfold is_final. by rewrite Hr.
  - unfold finishable in Hf. apply andb_true_iff in Hf as [_ Hf]. split; try done; cbn.
    + rewrite (progress_terminal _ Ht). by destruct (task_state r).
    + by intros t ->.
    + unfold is_final, is_active_task in *. intros [Hs Hn]%andb_true_iff. destruct (recovered_failure r); [done|].
      rewrite orb_false_r in Hf. by destruct (task_state r).
  - unfold orphaned in Ho. rewrite !andb_true_iff in Ho. destruct Ho as [[Ha _] _]. split; try done; cbn.
    + by destruct (task_state r).
    + by intros t ->.
    + unfold is_final, is_active_task in *. by destruct (task_state r).
Qed.

Lemma row_moves_on ok r r' : rtc (row_move ok) r r' → moved_on r r'.
Proof. induction 1 as [|r1 r2 r3 H%row_move_on _ IH]; [done|by etrans]. Qed.

Definition any_outcome (_ : TaskOutcome) : Prop := True.
Definition other_task (t t' : string) (_ : TaskRequest) : Prop := t' ≠ t.
Definition follows (t : string) (r0 : A2AInboundTask) (d : TasksDb) : Prop :=
  match tasks d !! t with Some r => moved_on r0 r | None => True end.

Lemma follows_moves t r0 : keeps_moves any_outcome (other_task t) (db_only (X := TasksExt (Job Req)) (follows t r0)).
Proof.
  split; [|done]. unfold db_only, follows. intros d d' _ Hd Hm. specialize (Hm t). destruct (tasks d' !! t) as [r'|]; [|done].
  specialize (Hm r' eq_refl). destruct (tasks d !! t) as [r|]; [by etrans; [|apply row_moves_on with any_outcome]|].
  destruct Hm as [? ? req ? ? Hu]. by destruct Hu.
Qed.

(** C8. Whatever this process and the others do with the table, in any order and through
    any failure: a task keeps its request and its owner, its state never goes back, its
    end is dated once, and a final outcome, one that is not the failure recovery
    writes for a lost process, is never changed again. *)
Theorem tasks_only_move_forward t r0 ops w
    (Hfresh : ∀ n, supply n ≠ t) (Hrow : tasks (db w) !! t = Some r0) (Htx : tx_now w = None)
    (Hpeers : Forall (λ e, ∀ d x, table_move any_outcome (other_task t) d (ev_env e d x).1) (sched w)) :
  match tasks (db (a2a_history ops w).2) !! t with Some r => moved_on r0 r | None => True end.
Proof.
  assert (preserves (db_only (follows t r0)) (a2a_history ops)) as Hp.
  { apply (keeps_history any_outcome (other_task t)); [apply follows_moves|done|intros n m req _; exact (Hfresh n)|done|done]. }
  assert (good (db_only (follows t r0)) w) as Hw.
  { split_and!; [done|unfold db_only, follows; by rewrite Hrow|]. eapply Forall_impl; [exact Hpeers|]. intros e He d x Hd.
    by eapply (km_move _ _ _ (follows_moves t r0)). }
  destruct (preserves_good _ _ w Hp Hw) as (_ & Hf & _). exact Hf.
Qed.

(** *** Completed results are paid for *)
Definition settled_row (r : A2AInboundTask) : Prop := task_state r = Completed → billing_method r = "x402" → settlement_tx r ≠ "".
Definition settled_table (d : TasksDb) : Prop := ∀ t r, tasks d !! t = Some r → settled_row r.
Definition any_request (_ : string) (_ : TaskRequest) : Prop := True.

Lemma row_move_settled r r' : row_move settled_outcome r r' → settled_row r → settled_row r'.
Proof.
  unfold settled_row, settled_outcome. destruct 1 as [| |method now r Hr|o out now r Ho|]; cbn; try done.
  by rewrite Hr.
Qed.

Lemma settled_moves : keeps_moves settled_outcome any_request (db_only (X := TasksExt (Job Req)) settled_table).
Proof.
  assert (∀ r r', rtc (row_move settled_outcome) r r' → settled_row r → settled_row r') as Hrtc.
  { induction 1; eauto using row_move_settled. }
  split; [|done]. unfold db_only, settled_table. intros d d' _ Hd Hm t r' Hr'. specialize (Hm t r' Hr').
  destruct (tasks d !! t) as [r|] eqn:Hr; [by eapply Hrtc; [|eapply Hd]|]. destruct Hm as [? ? req ? ? _ Hm]. by eapply Hrtc.
Qed.

(** C6. A task that is completed and billed by x402 names the transaction that settled
    it, whatever the agent runs, the payments and the other processes do: an answer
    that was not paid for is not stored as a result. *)
Theorem completed_tasks_are_settled ops w
    (Htable : settled_table (db w)) (Htx : tx_now w = None)
    (Hpeers : Forall (λ e, ∀ d x, table_move settled_outcome any_request d (ev_env e d x).1) (sched w)) :
  settled_table (db (a2a_history ops w).2).
Proof.
  assert (preserves (db_only settled_table) (a2a_history ops)) as Hp by (by apply (keeps_history settled_outcome any_request); [apply settled_moves|..]).
  assert (good (db_only settled_table) w) as Hw.
  { split_and!; [done|exact Htable|]. eapply Forall_impl; [exact Hpeers|]. intros e He d x Hd.
    by eapply (km_move _ _ _ settled_moves). }
  destruct (preserves_good _ _ w Hp Hw) as (_ & Hf & _). exact Hf.
Qed.

(** *** A task runs once *)
Definition occurrences (s : string) (l : list string) : nat := length (filter (λ s', s' = s) l).
#[local] Arguments occurrences : simpl never.

Lemma occurrences_app s l1 l2 : occurrences s (l1 ++ l2) = (occurrences s l1 + occurrences s l2)%nat.
Proof. unfold occurrences. by rewrite filter_app, length_app. Qed.

Lemma occurrences_none s l : s ∉ l → occurrences s l = 0%nat.
Proof.
  intros H. unfold occurrences. induction l as [|a l IH]; [done|]. apply not_elem_of_cons in H as [Hne H].
  rewrite filter_cons_False by congruence. auto.
Qed.

Section once.
Context (run : string).

Definition has_run (d : TasksDb) (t : string) (r : A2AInboundTask) : Prop := tasks d !! t = Some r ∧ run_id r = run.
Definition other_run (_ : string) (req : TaskRequest) : Prop := run_id req ≠ run.

Definition under_way (d : TasksDb) : Prop := ∀ t r, has_run d t r → task_state r ≠ Submitted.
Definition one_row (d : TasksDb) : Prop := ∀ t t' r r', has_run d t r → has_run d t' r' → t = t'.

(** The run was started at most once, and only of a task that is under way. *)
Definition ran_once (d : TasksDb) (x : TasksExt (Job Req)) : Prop :=
  one_row d ∧ (occurrences run (run_log x) ≤ 1)%nat ∧ (run ∈ run_log x → under_way d).
(** The task is claimed and not started yet. *)
Definition about_to_run (d : TasksDb) (x : TasksExt (Job Req)) : Prop := one_row d ∧ (run ∉ run_log x) ∧ under_way d.

Lemma has_run_move d d' t r' :
  table_move any_outcome other_run d d' → has_run d' t r' → ∃ r, has_run d t r ∧ moved_on r r'.
Proof.
  intros Hm [Hr' Hrun]. specialize (Hm t r' Hr'). destruct (tasks d !! t) as [r|] eqn:Hr.
  - apply row_moves_on in Hm. exists r. split; [|done]. split; [done|]. by rewrite <- (mo_request _ _ Hm).
  - destruct Hm as [o l req now r' Hu Hm]. apply row_moves_on in Hm. destruct Hu. rewrite (mo_request _ _ Hm) in Hrun. done.
Qed.

Lemma under_way_moves d d' : under_way d → table_move any_outcome other_run d d' → under_way d'.
Proof.
  intros Hd Hm t r' (r & Hr & Hmo)%(has_run_move d d' t r' Hm). specialize (Hd t r Hr). destruct Hmo as [_ _ _ Hp _ _].
  intros Hs. rewrite Hs in Hp. by destruct (task_state r).
Qed.

Lemma one_row_moves d d' : one_row d → table_move any_outcome other_run d d' → one_row d'.
Proof. intros Hd Hm t t' r r' (? & ? & _)%(has_run_move d d' _ _ Hm) (? & ? & _)%(has_run_move d d' _ _ Hm). by eapply Hd. Qed.

Lemma ran_once_moves : keeps_moves any_outcome other_run ran_once.
Proof.
  split.
  - intros d d' x (Ho & Hc & Hu) Hm. split_and!; [by eapply one_row_moves|done|]. intros Hin. eapply under_way_moves; [by apply Hu|done].
  - intros d x x' (Ho & Hc & Hu) Hl. unfold ran_once. by rewrite Hl.
Qed.

Lemma about_to_run_moves : keeps_moves any_outcome other_run about_to_run.
Proof.
  split.
  - intros d d' x (Ho & Hc & Hu) Hm. split_and!; [by eapply one_row_moves|done|by eapply under_way_moves].
  - intros d x x' (Ho & Hc & Hu) Hl. unfold about_to_run. by rewrite Hl.
Qed.

Lemma about_ran d x : about_to_run d x → ran_once d x.
Proof. intros (Ho & Hn & Hu). split_and!; [done|rewrite occurrences_none by done; lia|done]. Qed.

(** Others move the table; the log of this process is its own. *)
Definition peers (d : TasksDb) (x : TasksExt (Job Req)) (d' : TasksDb) (x' : TasksExt (Job Req)) : Prop :=
  table_move any_outcome other_run d d' ∧ run_log x' = run_log x.

Lemma stable_kept I : keeps_moves any_outcome other_run I → stable peers I.
Proof. intros HI d x d' x' Hd [Hm Hl]. eapply (km_ext _ _ _ HI); [|exact Hl]. by eapply (km_move _ _ _ HI). Qed.

Lemma claim_about j :
  rg peers ran_once (claim_inbound_task owner lease (job_id (Req := Req) j))
    (λ r d x, ran_once d x ∧ (match r with Ok (Some row) => run_id row = run → about_to_run d x | _ => True end)).
Proof.
  apply rg_stmt; [apply stable_kept, ran_once_moves|]. intros now d x Hd. split; [done|].
  destruct (claim_sql owner lease (job_id j) now d) as [[row d']|e] eqn:E; [|done].
  assert (ran_once d' x) as Hd'.
  { eapply (km_move _ _ _ ran_once_moves); [exact Hd|]. by eapply claim_sql_move. }
  split; [|done]. split; [done|]. destruct row as [row|]; [|done]. intros Hrun.
  unfold claim_sql, check_row in E. destruct (tasks d !! job_id j) as [r|] eqn:Hr; [|done].
  destruct (claimable_task owner now r) eqn:Hcl; [|done]. destruct (task_row_ok _); [|done]. injection E as <- <-. cbn in Hrun.
  unfold claimable_task in Hcl. apply andb_true_iff in Hcl as [[Hs _]%andb_true_iff _]. apply bool_decide_eq_true in Hs.
  destruct Hd as (Ho & Hc & Hu), Hd' as (Ho' & _ & _). split_and!; [done| |].
  - intros Hin. by apply (Hu Hin (job_id j) r).
  - intros t r' Hr'. assert (t = job_id j) as -> by (eapply Ho'; [exact Hr'|]; split; [apply lookup_insert_eq|done]).
    destruct Hr' as [Hr' _]. cbn in Hr'. rewrite lookup_insert_eq in Hr'. by injection Hr' as <-.
Qed.
(** A statement or call that keeps both assertions, whatever outcome it may write *)
Lemma keeps_conclude I (j : Job Req) row x :
  keeps_moves any_outcome other_run I → match x.2 with Refused _ _ _ => True | LetThrough _ => False end →
  preserves I (conclude owner supply run_agent j row x).
Proof.
  destruct x as [[byok fee] [state error b|b]]; [|done]. intros HI _. cbn [conclude].
  apply (keeps_guarded any_outcome other_run I HI); [done|by apply (keeps_finish_any any_outcome other_run I HI)|intros; apply preserves_ret].
Qed.

Lemma keeps_other_start (j : Job Req) (row : A2AInboundTask) byok fee b : run_id row ≠ run → preserves ran_once (start_run run_agent j row byok fee b).
Proof.
  intros Hne. unfold start_run. apply preserves_bind.
  - destruct (bl_verified b); [apply (keeps_mark any_outcome other_run _ ran_once_moves)|apply preserves_ret].
  - intros _. apply preserves_external. intros now d x Hd. cbn. rewrite ra_run_args.
    assert (ran_once d (x <| run_log ::= λ l, l ++ [run_id row] |>)) as H; [|by destruct (run_agent _ _)].
    destruct Hd as (Ho & Hc & Hu). split_and!; [done| |]; cbn.
    + rewrite occurrences_app, (occurrences_none run [run_id row]); [lia|]. by intros ->%list_elem_of_singleton.
    + intros [Hin|Hin%list_elem_of_singleton]%elem_of_app; [by apply Hu|done].
Qed.

(** The claimed task starts: from now on its run is in the log. *)
Lemma start_claimed (j : Job Req) (row : A2AInboundTask) byok fee b : run_id row = run → rg peers about_to_run (start_run run_agent j row byok fee b) (λ _, ran_once).
Proof.
  intros Hrun. unfold start_run. apply rg_preserves_bind; [apply stable_kept, about_to_run_moves| | |by intros; apply about_ran].
  { destruct (bl_verified b); [apply (keeps_mark any_outcome other_run _ about_to_run_moves)|apply preserves_ret]. }
  intros _. apply rg_external; [apply stable_kept, about_to_run_moves|]. intros now d x Hd. rewrite ra_run_args, Hrun.
  split; [by apply about_ran|]. assert (ran_once d (x <| run_log ::= λ l, l ++ [run] |>)) as H.
  { destruct Hd as (Ho & Hn & Hu). split_and!; [done| |done]. cbn. rewrite occurrences_app, occurrences_none by done. unfold occurrences.
    rewrite filter_cons_True by done. cbn. lia. }
  apply about_ran in Hd. by destruct (run_agent _ _).
Qed.

Lemma rg_guarded {A} t row b (m : IH A) k P :
  stable peers ran_once → rg peers P m (λ _, ran_once) → (∀ a, rg peers ran_once (k a) (λ _, ran_once)) →
  rg peers P (guarded_job owner supply t row b m k) (λ _, ran_once).
Proof.
  intros Hst Hm Hk. unfold guarded_job. eapply (rg_bind _ _ _ _ (λ _, ran_once)); [| |done].
  - apply (rg_catch _ _ _ _ (λ _, ran_once)); [|intros e; apply rg_ret; by intros|by intros]. apply (rg_bind _ _ _ _ (λ _, ran_once)); [exact Hm|intros a; apply rg_ret; by intros|by intros].
  - intros [a|]; [apply Hk|]. apply rg_preserves; [done|]. apply preserves_bind; [|intros ?; apply preserves_ret].
    by apply (keeps_finish_any any_outcome other_run _ ran_once_moves).
Qed.

Lemma job_runs_once j : rg peers ran_once (run_job j) (λ _, ran_once).
Proof.
  assert (stable peers ran_once) as Hst by apply stable_kept, ran_once_moves.
  assert (stable peers about_to_run) as Hst' by apply stable_kept, about_to_run_moves.
  assert (∀ (j : Job Req) row b answer, rg peers ran_once (after_run owner supply j row b answer) (λ _, ran_once)) as Hafter.
  { intros. apply rg_preserves; [done|]. by apply (keeps_after_run any_outcome other_run _ ran_once_moves). }
  unfold _run_async_inbound_task. eapply rg_bind; [apply claim_about| |by intros e d x [? _]].
  intros [row|]; [|apply rg_ret; by intros d x [? _]]. destruct (decide (run_id row = run)) as [Hrun|Hne].
  - apply (rg_mono _ about_to_run _ _ (λ _, ran_once)); [|by intros d x [_ H]; apply H|done]. unfold guarded_job at 1.
    eapply (rg_bind _ _ _ _ (λ _, about_to_run)).
    { apply rg_preserves; [done|]. apply preserves_catch; [|intros ?; apply preserves_ret]. apply preserves_bind; [|intros ?; apply preserves_ret].
      by apply (keeps_admit_claimed any_outcome other_run _ about_to_run_moves). }
    2: intros e d x; apply about_ran.
    intros [x|]; cycle 1.
    { apply (rg_mono _ about_to_run _ _ (λ _, about_to_run)); [|done|intros ???; apply about_ran]. apply rg_preserves; [done|].
      apply preserves_bind; [|intros ?; apply preserves_ret]. by apply (keeps_finish_any any_outcome other_run _ about_to_run_moves). }
    destruct x as [[byok fee] [state error b|b]].
    { apply (rg_mono _ about_to_run _ _ (λ _, about_to_run)); [|done|intros ???; apply about_ran]. apply rg_preserves; [done|].
      by apply keeps_conclude; [apply about_to_run_moves|]. }
    cbn [conclude]. apply rg_guarded; [done|by apply start_claimed|intros; apply Hafter].
  - apply (rg_mono _ ran_once _ _ (λ _, ran_once)); [|by intros d x [? _]|done]. apply rg_preserves; [done|].
    apply (keeps_guarded any_outcome other_run _ ran_once_moves); [done|by apply (keeps_admit_claimed any_outcome other_run _ ran_once_moves)|].
    intros [[byok fee] [state error b|b]]; [by apply keeps_conclude; [apply ran_once_moves|]|]. cbn [conclude].
    apply (keeps_guarded any_outcome other_run _ ran_once_moves); [done|by apply keeps_other_start|].
    intros. by apply (keeps_after_run any_outcome other_run _ ran_once_moves).
Qed.

Lemma worker_runs_once : rg peers ran_once (perform_a2a_op OpWorker) (λ _, ran_once).
Proof.
  assert (stable peers ran_once) as Hst by apply stable_kept, ran_once_moves.
  assert (∀ t, preserves ran_once (_mark_worker_interrupted (J := Job Req) owner t)) as Hmark.
  { intros. by apply (keeps_interrupted any_outcome other_run _ ran_once_moves). }
  cbn [perform_a2a_op]. eapply (rg_bind _ _ _ _ (λ _, ran_once)); [|intros; apply rg_ret; by intros|done].
  unfold _inbound_task_worker. apply rg_preserves_bind; [done| | |done].
  { unfold queue_get. apply preserves_bind; [by apply wpi_get_ext|]. intros x.
    destruct (task_queue x) as [[? [|item rest]]|]; try apply preserves_ret.
    apply preserves_bind; [by apply (keeps_modify_ext any_outcome other_run _ ran_once_moves)|intros; apply preserves_ret]. }
  intros [[t job]|]; [|apply rg_ret; by intros]. eapply (rg_bind _ _ _ _ (λ _, ran_once)); [| |done].
  - apply (rg_catch _ _ _ _ (λ _, ran_once)); [|intros e; apply rg_ret; by intros|by intros]. apply (rg_bind _ _ _ _ (λ _, ran_once)); [apply job_runs_once|intros a; apply rg_ret; by intros|by intros].
  - intros [[]|]; [apply rg_ret; by intros|apply rg_preserves; [done|]; apply preserves_bind; [apply Hmark|intros ?; apply preserves_ret]..].
Qed.

(** C7. This process starts the agent at most once for a task, whatever it is asked,
    whatever fails and however the other processes move the table: a worker starts a
    run only of a task it has itself just taken from [submitted] to [running]. *)
Theorem task_runs_at_most_once ops w
    (Hfresh : ∀ n, supply n ≠ run) (Hone : one_row (db w)) (Hlog : run ∉ run_log (ext w)) (Htx : tx_now w = None)
    (Hpeers : Forall (relies peers) (sched w)) :
  (occurrences run (run_log (ext (a2a_history ops w).2)) ≤ 1)%nat.
Proof.
  assert (rg peers ran_once (a2a_history ops) (λ _, ran_once)) as Hrg.
  { apply (rg_for_each _ _ _ _ (λ _, ran_once)); [done|]. intros [] op _.
    eapply (rg_catch _ _ _ _ (λ _, ran_once)); [|intros e; apply rg_ret; by intros|by intros].
    assert (op = OpWorker ∨ op ≠ OpWorker) as [->|Hop] by (destruct op; by (left + right)); [apply worker_runs_once|]. apply rg_preserves; [apply stable_kept, ran_once_moves|].
    apply (kept_op any_outcome other_run _ ran_once_moves); [done| | |done].
    - intros n m req Hreq. unfold other_run. rewrite Hreq. apply Hfresh.
    - intros d x n (Ho & Hc & Hu). split_and!; [done| |]; cbn.
      + rewrite occurrences_app, (occurrences_none run [supply n]); [lia|]. intros Hin%list_elem_of_singleton. by apply (Hfresh n).
      + intros [Hin|Hin%list_elem_of_singleton]%elem_of_app; [by apply Hu|]. by destruct (Hfresh n). }
  specialize (Hrg w Htx Hpeers). destruct (a2a_history ops w) as [r w']. cbn.
  destruct Hrg as (_ & _ & _ & Hc & _); [|exact Hc]. split_and!; [done|rewrite occurrences_none by done; lia|done].
Qed.
End once.

(** *** Jobs end *)
Section ends_task.
Context (t : string).

(** The task is this process's to finish; or it is finished. *)
Definition open_task (d : TasksDb) : Prop :=
  ∃ r, tasks d !! t = Some r ∧ worker_owner_id r = owner ∧ is_active_task r = true ∧ task_row_ok r = true.
Definition ended_task (d : TasksDb) : Prop :=
  ∃ r, tasks d !! t = Some r ∧ is_terminal (task_state r) = true ∧ task_row_ok r = true.
Definition settled_or (P : TasksDb → Prop) (d : TasksDb) : Prop := ended_task d ∨ P d.

Definition stays {A} (P : TasksDb → Prop) (m : IH A) : Prop := ∀ w, P (db w) → wpq m (λ _ w', P (db w')) w.

Lemma stays_ret {A} P (a : A) : stays P (mret a).
Proof. intros w Hw. by apply wpq_ret. Qed.
Lemma stays_raise {A} P e : stays P (raise e : IH A).
Proof. intros w Hw. by apply wpq_raise. Qed.
Lemma stays_bind {A B} P (m : IH A) (f : A → IH B) : stays P m → (∀ a, stays P (f a)) → stays P (m ≫= f).
Proof.
  intros Hm Hf w Hw. apply wpq_bind. eapply wpq_mono; [by apply Hm|]. intros [a|e] w' Hw'; [by apply Hf|done].
Qed.
Lemma stays_external {A} P (f : Z → TasksExt (Job Req) → res A * TasksExt (Job Req)) : stays P (external f).
Proof. intros w Hw. apply wpq_external. by destruct (f _ _). Qed.
Lemma stays_catch {A} P (m : IH A) h : stays P m → (∀ e, stays P (h e)) → stays P (catch m h).
Proof.
  intros Hm Hh w Hw. apply wpq_catch. eapply wpq_mono; [by apply Hm|]. intros [a|e] w' Hw'; [done|by apply Hh].
Qed.

Lemma clip_length n s : 0 ≤ n → Z.of_nat (String.length (clip n s)) ≤ n.
Proof.
  intros Hn. unfold clip. destruct (Z.leb_spec (Z.of_nat (String.length s)) n); [done|].
  assert (∀ k s, (String.length (String.substring 0 k s) ≤ k)%nat) as H'.
  { clear. intros k s. revert k. induction s as [|c s IH]; intros [|k]; cbn; [lia..|]. specialize (IH k). lia. }
  specialize (H' (Z.to_nat n) s). lia.
Qed.

Lemma finished_ok o now r : is_terminal (oc_state o) = true → task_row_ok r = true → task_row_ok (finished o now r) = true.
Proof.
  intros Ht Hr. unfold task_row_ok in *. rewrite !andb_true_iff in Hr. destruct Hr as [[[[[[[_ _] _] _] _] Hc] Hx] _].
  rewrite !andb_true_iff. split_and!; try done; cbn.
  - apply Z.leb_le, clip_length. lia.
  - case_match; [done|]. apply Z.leb_le, clip_length. lia.
  - apply Z.leb_le. lia.
  - apply Z.leb_le. lia.
  - apply Z.leb_le. lia.
  - by rewrite Ht.
Qed.

(** An open task is finished, or the outcome is refused and it stays open. *)
Lemma finish_open o w : open_task (db w) →
  wpq (finish_inbound_task (J := Job Req) owner t o) (λ r w', match r with Ok _ => ended_task (db w') | Raise _ => open_task (db w') end) w.
Proof.
  intros (r & Hr & Ho & Ha & Hok). unfold finish_inbound_task. destruct (is_terminal (oc_state o)) eqn:Ht; [|apply wpq_raise; by exists r].
  apply wpq_stmt. unfold finish_sql, check_row. destruct (outcome_fits o); cbn [negb]; [|by exists r]. rewrite Hr.
  assert (finishable owner o r = true) as -> by (unfold finishable; by rewrite Ho, Ha, String.eqb_refl).
  rewrite (finished_ok o _ r Ht Hok). exists (finished o (sql_now w) r). split_and!; [apply lookup_insert_eq|done|by apply finished_ok].
Qed.

Lemma finish_ended o : stays ended_task (finish_inbound_task (J := Job Req) owner t o).
Proof.
  intros w (r & Hr & Hs & Hok). unfold finish_inbound_task. destruct (is_terminal (oc_state o)) eqn:Ht; [|apply wpq_raise; by exists r].
  apply wpq_stmt. unfold finish_sql, check_row. destruct (outcome_fits o); cbn [negb]; [|by exists r]. rewrite Hr.
  destruct (finishable owner o r); [|by exists r]. rewrite (finished_ok o _ r Ht Hok). exists (finished o (sql_now w) r).
  split_and!; [apply lookup_insert_eq|done|by apply finished_ok].
Qed.

Lemma event_stays P e : (∀ d d', tasks d' = tasks d → P d → P d') → stays P (_record_inbound_event (Req := Req) supply e).
Proof.
  intros HP. unfold _record_inbound_event. apply stays_catch; [|intros ?; apply stays_ret]. apply stays_bind; [intros w Hw; by apply wpq_uuid4|].
  intros id w Hw. apply wpq_stmt. cbv zeta. destruct (negb _); [done|]. destruct (negb _); [done|]. case_bool_decide; [done|].
  by eapply HP; [|exact Hw].
Qed.

Lemma open_ext d d' : tasks d' = tasks d → open_task d → open_task d'.
Proof. intros Hd (r & Hr & H). exists r. by rewrite Hd. Qed.
Lemma ended_ext d d' : tasks d' = tasks d → ended_task d → ended_task d'.
Proof. intros Hd (r & Hr & H). exists r. by rewrite Hd. Qed.

(** What a stretch of a job achieves from an open task: ended, or it raised and all is open *)
Definition ends_task {A} (m : IH A) : Prop :=
  ∀ w, open_task (db w) → wpq m (λ r w', match r with Ok _ => ended_task (db w') | Raise _ => settled_or open_task (db w') end) w.

Lemma finish_ends row state output error b usage cost amount tx duration :
  ends_task (_finish_async_task (Req := Req) owner supply t row state output error b usage cost amount tx duration).
Proof.
  intros w Hw. unfold _finish_async_task. apply wpq_bind. eapply wpq_mono; [by apply finish_open|]. intros [[r|]|e] w' Hw'.
  - eapply wpq_mono; [by apply (event_stays ended_task _ ended_ext)|]. intros [u|e] w'' ?; [done|by left].
  - by apply wpq_ret.
  - by right.
Qed.

Lemma finish_stays_ended row state output error b usage cost amount tx duration :
  stays ended_task (_finish_async_task (Req := Req) owner supply t row state output error b usage cost amount tx duration).
Proof. unfold _finish_async_task. apply stays_bind; [apply finish_ended|]. intros [r|]; [apply event_stays, ended_ext|apply stays_ret]. Qed.

Lemma ends_then {A B} (m : IH A) (f : A → IH B) : ends_task m → (∀ a, stays ended_task (f a)) → ends_task (m ≫= f).
Proof.
  intros Hm Hf w Hw. apply wpq_bind. eapply wpq_mono; [by apply Hm|]. intros [a|e] w' Hw'; [|done].
  eapply wpq_mono; [by apply Hf|]. intros [b|e] w'' ?; [done|by left].
Qed.

Lemma then_ends {A B} (m : IH A) (f : A → IH B) : stays open_task m → (∀ a, ends_task (f a)) → ends_task (m ≫= f).
Proof.
  intros Hm Hf w Hw. apply wpq_bind. eapply wpq_mono; [by apply Hm|]. intros [a|e] w' Hw'; [by apply Hf|by right].
Qed.

(** Whether the guarded stretch ends the task or its continuation does *)
Lemma guarded_ends {A} row b (m : IH A) k : stays open_task m → (∀ a, ends_task (k a)) → ends_task (guarded_job owner supply t row b m k).
Proof.
  intros Hm Hk. unfold guarded_job. apply then_ends.
  - apply stays_catch; [apply stays_bind; [done|intros ?; apply stays_ret]|intros ?; apply stays_ret].
  - intros [a|]; [apply Hk|]. apply ends_then; [apply finish_ends|intros ?; apply stays_ret].
Qed.

Lemma guarded_finish_ends row b row' state output error b' usage cost amount tx duration :
  ends_task (guarded_job owner supply t row b (_finish_async_task (Req := Req) owner supply t row' state output error b' usage cost amount tx duration) (λ _, mret JobDone)).
Proof.
  intros w Hw. unfold guarded_job. apply wpq_bind, wpq_catch, wpq_bind. eapply wpq_mono; [by apply finish_ends|]. intros [u|e] w' Hw'.
  - by apply wpq_ret, wpq_ret.
  - apply wpq_ret. destruct Hw' as [Hw'|Hw'].
    + assert (stays ended_task (_finish_async_task (Req := Req) owner supply t row Failed "Task failed." "Task failed." b None 0 None None 0;; mret JobDone)) as Hst.
      { apply stays_bind; [apply finish_stays_ended|intros ?; apply stays_ret]. }
      eapply wpq_mono; [by apply Hst|]. intros [u|e'] w'' ?; [done|by left].
    + revert w' Hw'. fold (ends_task (_finish_async_task (Req := Req) owner supply t row Failed "Task failed." "Task failed." b None 0 None None 0;; mret JobDone)).
      apply ends_then; [apply finish_ends|intros ?; apply stays_ret].
Qed.

Lemma open_mark method : stays open_task (mark_inbound_task_billing_method (J := Job Req) t method).
Proof.
  unfold mark_inbound_task_billing_method. case_bool_decide; [|apply stays_raise]. intros w (r & Hr & Ho & Ha & Hok). apply wpq_stmt. unfold mark_sql.
  exists (if bool_decide (task_state r = Running) then r <| billing_method := method |> <| tk_updated_at := sql_now w |> else r).
  split; [cbn; by rewrite lookup_alter_eq, Hr|]. by case_bool_decide.
Qed.

Lemma job_ends j : job_id j = t → ∀ w, (∃ r, tasks (db w) !! t = Some r ∧ claimable_task owner (sql_now w) r = true ∧ task_row_ok r = true) →
  wpq (run_job j) (λ r w', match r with Ok _ => ended_task (db w') | Raise _ => settled_or open_task (db w') end) w.
Proof.
  intros Hj w (r & Hr & Hc & Hok). unfold _run_async_inbound_task. rewrite Hj. apply wpq_bind, wpq_stmt. unfold claim_sql, check_row. rewrite Hr, Hc.
  assert (task_state r = Submitted ∧ worker_owner_id r = owner) as [Hs Ho].
  { unfold claimable_task in Hc. apply andb_true_iff in Hc as [[Hs Ho]%andb_true_iff _]. split; [by apply bool_decide_eq_true in Hs|by apply String.eqb_eq]. }
  assert (task_row_ok (taken_row lease (sql_now w) r) = true) as Hok'.
  { unfold task_row_ok in *. cbn. rewrite Hs in Hok. exact Hok. }
  rewrite Hok'. set (w1 := w <| db := _ |>). assert (open_task (db w1)) as Hw1.
  { exists (taken_row lease (sql_now w) r). split_and!; [apply lookup_insert_eq|done..]. }
  generalize (taken_row lease (sql_now w) r). intros row. clearbody w1. revert w1 Hw1. fold (ends_task (guarded_job owner supply t row no_billing
    (admit_claimed cfg verify_payment run_billing_gate org_is_byok get_byok_platform_fee j row) (conclude owner supply run_agent j row))).
  apply guarded_ends.
  - unfold admit_claimed, admit_task. apply stays_bind; [destruct (is_empty _); [apply stays_ret|apply stays_external]|]. intros byok.
    apply stays_bind; [|intros ?; apply stays_ret]. destruct (job_payload j).
    + apply stays_bind; [apply stays_external|]. intros []; try apply stays_ret; [destruct (_ =? _)|]; first [apply stays_ret|apply stays_raise].
    + destruct (a2a_billing_enabled cfg); [|apply stays_ret]. apply stays_bind; [apply stays_external|intros ?; apply stays_ret].
  - intros [[byok fee] [state error b|b]]; cbn [conclude]; rewrite Hj; [apply guarded_finish_ends|]. apply guarded_ends.
    + unfold start_run. rewrite Hj. apply stays_bind; [destruct (bl_verified b); [apply open_mark|apply stays_ret]|intros _; apply stays_external].
    + intros [result b'|detail|b'|b']; cbn [after_run]; rewrite Hj; [apply guarded_finish_ends| | |].
      * apply then_ends; [destruct (_ && _); [apply stays_external|apply stays_ret]|]. intros _. apply ends_then; [apply finish_ends|intros ?; apply stays_ret].
      * apply ends_then; [apply finish_ends|intros ?; apply stays_ret].
      * apply ends_then; [apply finish_ends|intros ?; apply stays_ret].
Qed.

Lemma interrupted_ends w : settled_or open_task (db w) → wpq (_mark_worker_interrupted (J := Job Req) owner t) (λ _ w', ended_task (db w')) w.
Proof.
  intros [Hw|Hw].
  - assert (stays ended_task (_mark_worker_interrupted (J := Job Req) owner t)) as H; [|by apply H].
    apply stays_catch; [apply stays_bind; [apply finish_ended|intros ?; apply stays_ret]|intros ?; apply stays_ret].
  - unfold _mark_worker_interrupted. destruct Hw as (r & Hr & Ho & Ha & Hok). apply wpq_catch, wpq_bind. unfold finish_inbound_task. cbn [is_terminal no_outcome oc_state].
    change (is_terminal Failed) with true. cbv iota. apply wpq_stmt. unfold finish_sql, check_row.
    change (outcome_fits (no_outcome Failed "" "Task worker stopped before completion")) with true. cbn [negb]. rewrite Hr.
    assert (finishable owner (no_outcome Failed "" "Task worker stopped before completion") r = true) as ->.
    { unfold finishable. by rewrite Ho, Ha, String.eqb_refl. }
    rewrite finished_ok by done. apply wpq_ret. eexists. split_and!; [apply lookup_insert_eq|done|by apply finished_ok].
Qed.

(** C9. When the database answers, a job that a worker takes from the queue ends with
    its task finished, whatever the admission, the agent and the payment services do,
    failures, refusals, capacity and cancellation included. *)
Theorem jobs_end j maxsize rest w
    (Hq : quiet w) (Hqueue : task_queue (ext w) = Some (maxsize, (t, j) :: rest)) (Hj : job_id j = t)
    (Hrow : ∃ r, tasks (db w) !! t = Some r ∧ claimable_task owner (sql_now w) r = true ∧ task_row_ok r = true) :
  ended_task (db (_inbound_task_worker owner run_job w).2).
Proof.
  assert (wpq (_inbound_task_worker owner run_job) (λ _ w', ended_task (db w')) w) as H.
  2: { specialize (H Hq). destruct (_inbound_task_worker _ _ w). apply H. }
  unfold _inbound_task_worker, queue_get. apply wpq_bind, wpq_bind, wpq_get_ext. rewrite Hqueue. apply wpq_bind, wpq_modify_ext, wpq_ret.
  set (w1 := w <| ext ::= _ |>). assert (∃ r, tasks (db w1) !! t = Some r ∧ claimable_task owner (sql_now w1) r = true ∧ task_row_ok r = true) as Hrow1 by exact Hrow.
  clearbody w1. apply wpq_bind, wpq_catch, wpq_bind. eapply wpq_mono; [by apply job_ends|]. intros [[]|e] w2 Hw2.
  - by apply wpq_ret, wpq_ret.
  - apply wpq_ret. apply wpq_bind. eapply wpq_mono; [apply interrupted_ends; by left|]. intros [u|e] w3 Hw3; [by apply wpq_ret|done].
  - apply wpq_ret. apply wpq_bind. eapply wpq_mono; [by apply interrupted_ends|]. intros [u|e'] w3 Hw3; [by apply wpq_ret|done].
Qed.
End ends_task.
End history.

(** ** Concrete tasks *)
Module InboundDemo.
Definition cfg : InboundSettings := MkInboundSettings true true 0 true 60 60 60 0.
Definition supply (n : nat) : string := "id" +:+ pretty n.
Definition text_message (s : string) : A2AMessage := MkMessage "user" [("text", Some s)] (JObj []).
Definition validate (j : json) : option A2ASendMessageRequest :=
  match j with
  | JObj [("message", JStr s); ("taskId", JStr t)] => Some (MkSendRequest (text_message s) (JObj []) None (Some t))
  | _ => None
  end.
Definition stored (j : json) : option A2AMessage := match j with JStr s => Some (text_message s) | _ => None end.
Definition dumped (m : A2AMessage) : json := match parts m with [(_, Some s)] => JStr s | _ => JNull end.
Definition paid : Billed := MkBilled true "x402" "" 0 "" "0xP".
Definition verify (_ : Z) (header : option string) (_ : option (list unit)) : res Billed :=
  Ok (if bool_decide (header = Some "signed") then paid else no_billing <| bl_error := "invalid payment" |>).
(** The agent answers; only the run of a "settled" message has its payment settled. *)
Definition agent (_ : Z) (args : RunArgs) : run_answer :=
  RunDone (MkRunResult Completed "completed" ("answer to " +:+ ra_message args) 5 "u1" 10 10 (if String.eqb (ra_message args) "settled" then "0xT" else ""))
    (ra_billing args).
Definition request (text : string) : A2ARequest :=
  MkA2ARequest "" "respond-async" (Some "signed") None (Some (JObj [("message", JStr text); ("taskId", JStr "client-1")])) "203.0.113.9" "".

Abbreviation world_of := (World TasksDb (TasksExt (Job unit))).
Definition history (ops : list a2a_op) : world_of → res unit * world_of :=
  a2a_history cfg "p1" 60 supply id (λ _, "") validate stored dumped (λ _ _, TokenInvalid) (λ _ _, Ok false) (λ _ _ _, true) (λ _, Ok None)
    (λ _ _, Ok tt) verify (λ _ _ _ _ _ _, GateFails) (λ _ _, Ok false) (λ _, 0) agent ops.
Definition post_message (r : A2ARequest) : world_of → res A2AResponse * world_of :=
  message_send cfg "p1" 60 supply id (λ _, "") validate stored dumped (λ _ _, TokenInvalid) (λ _ _, Ok false) (λ _ _ _, true) (λ _, Ok None)
    (λ _ _, Ok tt) verify (λ _ _ _ _ _ _, GateFails) (λ _ _, Ok false) (λ _, 0) agent r.
Definition work : world_of → res (option bool) * world_of :=
  _inbound_task_worker "p1" (_run_async_inbound_task cfg "p1" 60 supply verify (λ _ _ _ _ _ _, GateFails) (λ _ _, Ok false) (λ _, 0) agent).

Definition submitted : TaskRequest := MkTaskRequest "r1" "client-1" "" (JStr "settled") (JObj []) "settled" "" "" "203.0.113.9" "anonymous".
Definition row1 : A2AInboundTask := new_task "p1" 60 submitted 0.
Definition job1 : Job unit := MkJob (request "settled") "t1" row1 (MkSendRequest (text_message "settled") (JObj []) None (Some "client-1")) None (Some "signed") None None.
Definition with_task : TasksDb := MkTasksDb {[ "t1" := row1 ]} ∅ ∅.
Definition start (d : TasksDb) (jobs : list (string * Job unit)) (s : list (event TasksDb (TasksExt (Job unit)))) : world_of :=
  MkWorld d (MkTasksExt (Some (10, jobs)) 1 [] []) 0 None s 0.

Definition ok : event TasksDb (TasksExt (Job unit)) := MkEvent 0 FOk pair.
Definition failing : event TasksDb (TasksExt (Job unit)) := MkEvent 0 FFail pair.
Definition lost : event TasksDb (TasksExt (Job unit)) := MkEvent 0 FLost pair.
(** Two minutes pass and another process looks for expired leases. *)
Definition recovery_now : Z := seconds 120.
Definition others_recover (d : TasksDb) : TasksDb := match recover_sql "p2" 500 recovery_now d with Ok (_, d') => d' | Raise _ => d end.
Definition late : event TasksDb (TasksExt (Job unit)) := MkEvent 120000000 FOk (λ d x, (others_recover d, x)).

Definition state_of (t : string) (w : world_of) : option (InboundTaskState * string) := (λ r, (task_state r, output_text r)) <$> tasks (db w) !! t.

Lemma others_move ok_outcome unused d : table_move ok_outcome unused d (others_recover d).
Proof.
  unfold others_recover. destruct (recover_sql _ _ _ d) as [[a d']|e] eqn:E; [by eapply recover_sql_move|by apply table_move_refl].
Qed.
Lemma nobody_moves ok_outcome unused d : table_move ok_outcome unused d d.
Proof. by apply table_move_refl. Qed.
Lemma not_supplied s : String.prefix "id" s = false → ∀ n, supply n ≠ s.
Proof. intros Hs n <-. unfold supply in Hs. cbn in Hs. by destruct (pretty n). Qed.

(** The lease expires while the agent runs: recovery fails the task, then its late result is accepted. *)
Lemma tasks_only_move_forward_witness :
  tasks (db (start with_task [("t1", job1)] [ok; ok; ok; late])) !! "t1" = Some row1 ∧
  match tasks (db (history [OpWorker; OpHeartbeat] (start with_task [("t1", job1)] [ok; ok; ok; late])).2) !! "t1" with
  | Some r => moved_on row1 r
  | None => True
  end.
Proof.
  assert (tasks (db (start with_task [("t1", job1)] [ok; ok; ok; late])) !! "t1" = Some row1) as H by reflexivity.
  split; [exact H|]. apply (tasks_only_move_forward cfg "p1" 60 supply); [by apply not_supplied|exact H|reflexivity|].
  repeat (apply Forall_cons; split; [intros d x; first [apply nobody_moves|apply others_move]|]). by apply Forall_nil.
Defined.

Example late_result_replaces_recovery :
  let w := (history [OpWorker] (start with_task [("t1", job1)] [ok; ok; ok; late])).2 in
  state_of "t1" w = Some (Completed, "answer to settled") ∧ tk_error <$> tasks (db w) !! "t1" = Some RECOVERY_INTERRUPTION_ERROR.
Proof. vm_compute. split; reflexivity. Qed.

Lemma completed_tasks_are_settled_witness :
  let w := (history [OpSend (request "unsettled"); OpWorker] (start (MkTasksDb ∅ ∅ ∅) [] [ok; ok; ok; ok; ok; late])).2 in
  settled_table (db w) ∧ state_of "id1" w = Some (RejectedPayment, _SETTLEMENT_WITHHELD).
Proof.
  split; [|vm_compute; reflexivity]. apply (completed_tasks_are_settled cfg "p1" 60 supply); [by intros t r|reflexivity|].
  repeat (apply Forall_cons; split; [intros d x; first [apply nobody_moves|apply others_move]|]). by apply Forall_nil.
Defined.

(** The same job is queued twice. *)
Lemma task_runs_at_most_once_witness :
  (occurrences "r1" (run_log (ext (history [OpWorker; OpWorker] (start with_task [("t1", job1); ("t1", job1)] [ok; ok])).2)) ≤ 1)%nat.
Proof.
  apply (task_runs_at_most_once cfg "p1" 60 supply); [by apply not_supplied| |by apply not_elem_of_nil|reflexivity|].
  - intros t t' r r' [H _] [H' _]. cbn in H, H'. apply lookup_singleton_Some in H as [<- _], H' as [<- _]. done.
  - repeat (apply Forall_cons; split; [intros d x; split; [apply nobody_moves|reflexivity]|]). by apply Forall_nil.
Defined.
Example it_runs : run_log (ext (history [OpWorker; OpWorker] (start with_task [("t1", job1); ("t1", job1)] [])).2) = ["r1"].
Proof. vm_compute. reflexivity. Qed.

Lemma jobs_end_witness : ended_task "t1" (db (work (start with_task [("t1", job1)] [])).2).
Proof.
  apply (jobs_end cfg "p1" 60 supply verify (λ _ _ _ _ _ _, GateFails) (λ _ _, Ok false) (λ _, 0) agent "t1" job1 10 []); [reflexivity..|].
  exists row1. split_and!; [reflexivity|vm_compute; reflexivity|vm_compute; reflexivity].
Defined.

(** The result cannot be written, and neither can the failure: the task stays running.
    The process renews its lease, so no other process ever recovers it. *)
Example lost_result_is_never_recovered :
  let w := (history [OpWorker; OpHeartbeat] (start with_task [("t1", job1)] ([ok; ok; ok; ok] ++ replicate 3 failing ++ [MkEvent 100000000 FOk pair]))).2 in
  state_of "t1" w = Some (Running, "") ∧ others_recover (db w) = db w.
Proof. vm_compute. split; reflexivity. Qed.

(** The INSERT takes effect and its answer is lost: the caller is told to come back, and
    ever after that the task is submitted, but nothing is queued. *)
Example lost_insert_strands_the_task :
  let '(r, w) := post_message (request "settled") (start (MkTasksDb ∅ ∅ ∅) [] [ok; lost]) in
  let '(r', w') := post_message (request "settled") (history [OpWorker; OpHeartbeat] w).2 in
  r = Ok queue_unavailable ∧
  match r' with Ok (TaskReply 202 task _ _ _) => at_state task = "submitted" | _ => False end ∧
  (snd <$> task_queue (ext w')) = Some [].
Proof. vm_compute. repeat split; reflexivity. Qed.

(** A statement between admission and the run fails: the task fails before the agent
    ran, and the payment is not released. *)
Example payment_kept_without_a_run :
  let w := (history [OpWorker] (start with_task [("t1", job1)] [ok; ok; failing])).2 in
  state_of "t1" w = Some (Failed, "Task failed.") ∧ run_log (ext w) = [] ∧ released (ext w) = [].
Proof. vm_compute. repeat split; reflexivity. Qed.
End InboundDemo.
